(* ===== verification/_CoqProject ===== *)
-Q . S2P
Prelude.v
Errors.v
Streams.v
Sharding.v
Events.v
Clock.v
Codegen.v
CodegenFacts.v
Store.v
Aggregate.v
AggregateFacts.v
Rebuild.v
Projection.v
Linked.v
StateStream.v
Shred.v
Base64.v
CodegenPii.v
CodegenPiiFacts.v
Migrating.v
CodegenSum.v
CodegenSumFacts.v
ShredAggregate.v
Kms.v
MemSubjects.v
Conformance.v
KmsConformance.v
Retention.v
Dsar.v
Deciders.v
Party.v
Examples.v
Invoice.v
ReadModels.v
PathMatch.v
CmdWorkflow.v
Edge.v
CmdRuntimes.v
CmdReplay.v
CmdDurable.v
CmdDispatch.v
Chain.v
Esctl.v
EsctlFacts.v
AwsKms.v
GoTime.v
Sql.v
Conversation.v
PgDB.v
PgQueries.v
PgStore.v
PgMigrate.v
PgIsolation.v
PgFacts.v
PgStream.v
PgAggregate.v
PgConcurrent.v
PgConformance.v
SqliteDB.v
SqliteStore.v
SqliteFacts.v
SqliteStream.v
SqliteAppend.v
SqliteAggregate.v
SqliteLog.v
SqliteCmd.v
SqliteLinked.v
SqliteDsar.v
SqliteShred.v
SqliteConformance.v
SqlitePii.v
SqliteProjection.v
SqliteStateStream.v
OutboxDrain.v
PgLocks.v
SqliteOutbox.v
SqliteReach.v
