(* ===== verification/Prelude.v ===== *)
(** * A verification of the laenenai/eventstore event-sourcing library

    ** The program

    eventstore is a Go library for event sourcing.  Commands are decided by a
    pure decider against the state of a stream (aggregate/); the decided events
    are appended to a store in one transaction together with their outbox rows,
    their uniqueness claims and the cached state (es/, adapters/storage/).
    What was committed is passed on by three drains: the outbox drain publishes
    events (outbox/), projections fold the global log into read models
    (projection/), state-stream drains deliver current states (state_stream/).
    Personal data in events is sealed with a key per subject that can be
    destroyed (shred/, kms/).  A command workflow runs a command and hands its
    events to subscribers under a durable runtime (cmdworkflow/).  A protoc
    plugin prints codecs, dispatchers, services and the methods that view, copy,
    log and encrypt the messages (cmd/protoc-gen-es-go/).

    ** How it is modelled

    A call is a function from a world to a world and a result: [M W A] of
    Errors.v is [W -> W * res A], where [res] is a value or a Go error.  The
    components are written against Go interfaces; here an interface is a record
    of such functions over an arbitrary world [W] (Store, OutboxStore,
    SubjectStore, KeyStore, ...), and what a component relies on is a class of
    laws about it (StoreLaws, LogLaws, OutboxLaws, ProjectionLaws, StreamLaws,
    ShredLaws, RetentionLaws, ExportLaws, BusLaws).  The theorems about a
    component assume the laws only; the Sqlite*.v files model the SQLite
    adapter and the Pg*.v files the Postgres adapter, statement by statement,
    and prove the laws for them.  Every statement can fail: an [Oracle] decides
    which statements fail and what the clock reads, and the theorems hold for
    every oracle unless they say otherwise.

    Integers are [Z] with the wrap-around of their Go type written out
    ([u64], [i64], [u32]), bytes are [list byte], times are nanoseconds since
    the Unix epoch, maps are [gmap].  Loops that are not structural carry fuel
    and return [None] when it runs out; the theorems about such a loop give a
    fuel that is enough (a batch per row, event or stream still pending, plus
    one), so they include that the loop ends.  HandleCmd has two fuels, one for
    the attempts of a subscriber and one for nested compensations.

    Code that is not in the repository is a parameter with its documented laws:
    SHA-256, protobuf and UUID text (ChainPrims), jsonb and encoding/json
    (SqlitePrims, PgPrims, JsonStrings), AES-GCM (AEAD), encoding/gob (Gob),
    goose (Goose), AWS KMS (AwsLaws), uuid.New*, the Cedar engine, the HTTP client, handlers,
    codecs and deciders.  The witnesses instantiate all of them with concrete
    functions.  The DBOS and Restate SDKs are parameters without laws; the
    replay theorem is about any engine that keeps the contract of
    cmdworkflow/runtime.go ([Journal] of CmdRuntimes).  Spans, metrics and log records are left out.

    ** The files

    - Errors (es/errors.go), Streams (es/streamid.go, tenant.go, actor.go,
      access.go), Clock (es/clock.go), Sharding (the shard and quarantine keys of
      the drains, the advisory lock keys), Events (es/envelope.go, command.go,
      decider.go and the row types): data, and the first theorems: stream ids
      round trip, shards partition the streams, keys are injective.
    - Store (es/store.go, es/state_cache.go): the interfaces, ScanAllStates,
      and the contract StoreLaws.
    - Aggregate (aggregate/runtime.go, state_codec.go, new.go) and
      AggregateFacts: Load is the fold of the stream whatever the cache holds;
      Handle appends exactly what was decided and loses no update.  Rebuild
      (aggregate/rebuild.go): RebuildStateCache restores the cache of a runtime
      without a Shredder.
    - Projection (projection/): RunOnce refines a consumer of the log, catches
      up, and the dedup gate applies an event once.  Linked
      (linked/projection.go): each source event is derived once.
    - StateStream (state_stream/drain.go): positions only advance to what was
      delivered; a run ends and converges when everything answers, and spins
      when the publisher refuses.
    - OutboxDrain (outbox/drain.go): per-stream order whatever fails, an exact
      count, termination, the retry delays.
    - Shred (shred/shred.go, cache.go, kms/keystore.go), Kms (adapters/kms/
      inproc and file), Retention (shred/retention.go), Dsar (shred/dsar.go):
      over any history of calls that run one at a time, sealing round trips
      until the subject is forgotten and never after; key rotation rewraps every
      key; the file key store survives a restart; a retention sweep forgets what
      is expired, all of it if its context lasts; an export is complete and
      resumes where it stopped.  AwsKms (adapters/kms/aws/aws.go): unwrapping
      gives back what was wrapped in one process, and nothing after a rotation
      and a restart.
    - Conformance (estest/conformance.go) and KmsConformance (estest/kms.go): the
      suites every adapter must pass, as programs, and specifications of a store
      and of a key store that imply that they pass.  SqliteConformance: the SQLite
      adapter meets the first when its encoders take valid UTF-8; PgConformance: a run on Postgres, evaluated.  The
      in-process and the file key store meet the second.  MemSubjects
      (estest/subjectstore.go): the subject store of the tests.
    - Codegen (cmd/protoc-gen-es-go/emit_access.go, emit_clone.go) and
      CodegenFacts: the emitters are functions from descriptors to the
      statements they print, and the statements run on message values; the
      printed View, Clone and LogValue are the redaction of a message, a deep
      copy and a redacted record.  CodegenPii (main.go: classifyFields,
      emitPIIMethods) and CodegenPiiFacts, with Base64: the printed EncryptPII
      and DecryptPII on a Shredder.  CodegenSum (main.go: sum types, projection
      specs, the manifest; emit_restate.go, emit_dbos.go: services) and
      CodegenSumFacts: codecs round trip, dispatchers call one method, accepted
      descriptors give services that address the command's own tenant.
      ShredAggregate: the aggregate runtime with a Shredder, the generated code
      and no state cache, end to end.  Migrating (gen/test/*migration/v1/migrating_codec.go):
      the codecs that upcast, whose events decrypt as before.
    - Edge (adapters/publisher/, authz/, adapters/authz/cedar/,
      adapters/httpedge/connect/): publishers, the Cedar adapter, and the
      Connect edge with its error codes.
    - CmdWorkflow (cmdworkflow/), with PathMatch (path.Match of its filters),
      CmdRuntimes (adapters/cmdworkflow/inproc, and the contract of a durable
      runtime: a journal by step name, whose engine may refuse a step, lose a
      result after the effect and record errors or not), CmdDurable
      (adapters/cmdworkflow/dbos and restate, and the queues of DBOS),
      CmdDispatch (what every subscriber receives), CmdReplay (a command whose
      append is in the journal is not decided again, and a run that succeeded is
      replayed from its journal alone).
    - Chain (es/chain.go): tampering that verification misses yields two inputs
      with one digest, computed from the two streams; repair completes a chain.  GoTime: formatTime and parseTime (adapters/storage/sqlite/
      convert.go) and the order of their texts.
    - Esctl (cmd/esctl/commands/) and EsctlFacts: the subcommands as programs on
      a store and an output; reading commands keep the store, writing ones do
      nothing without --yes and audit what succeeded, a tail prints each event
      once, the export of a subject is that of shred/dsar.go.
    - Sql: ORDER BY, LIMIT, UPDATE and COUNT on lists of rows.
    - PgDB (the rows of internal/db/models.go, row-level security, statements,
      transactions and their faults), PgQueries (internal/db/*.sql.go), PgStore
      (every method of adapters/storage/postgres): the Postgres adapter as
      transactions of statements.  A statement is a function of the session's
      settings, the clock, the sequence and the rows; a method is a program of
      statements, run alone by [call] or interleaved by PgConcurrent.
      PgIsolation: a call for a tenant neither reads nor writes the rows of
      another tenant.  PgFacts, PgStream, PgAggregate: Append is atomic, the
      adapter keeps StoreLaws, what was appended is read back and verifies, if
      its times are whole microseconds and its JSON is in the server's form.  PgConcurrent: with one lock key,
      events are committed in the order of their positions, whatever
      interleaves, so a reader never skips one.  PgLocks (drain_locker.go,
      projection_locker.go): session locks exclude each other, and leak when
      they are released with a context that is done.  PgMigrate (migrate.go):
      which migrations run, and why RLS cannot be adopted later.
    - SqliteDB (migrations and internal/db), SqliteStore (append.go, read.go,
      chain.go, state_cache.go), SqliteFacts, SqliteStream, SqliteAppend:
      Append is atomic, keeps the tables well formed, extends the stream at its
      version, reports conflicts and claims, and succeeds when it should;
      readers see what was appended.  SqliteReach: any sequence of adapter calls
      keeps the tables well formed and the log append-only.
    - SqliteAggregate, SqliteLog, SqliteDsar, SqliteShred (shred.go),
      SqliteProjection (projection_*.go, dedup.go), SqliteStateStream
      (state_stream.go), SqliteOutbox (outbox.go, outbox_admin.go), SqliteCmd
      (subscriber_dlq.go), SqliteLinked, SqlitePii: the remaining adapter
      methods, the proofs of the laws, and the witnesses, which run the
      components on a SQLite database.
    - Deciders (what the runtime lets happen to one stream), Invoice
      (examples/invoice), Party (examples/party), Conversation
      (examples/conversations: the decider and the token-usage projection),
      Examples (examples/orderfulfillment, examples/employee): the life cycles
      and the rules the example deciders enforce.  ReadModels
      (examples/statestream/index.go, examples/customerview/view.go): the index
      holds the newest states however they are delivered.

    The theorems that are marked with a number in their comment are the main
    results; one of them (lossy_columns_break_chain) and some of the others
    (aws_kms_restart_loses_keys, cancelled_release_leaks, rls_adoption_refused,
    drain_page_starvation, append_above_current_accepted, rebuild_schema_version_lost,
    state_drain_spins, timestamp_text_order_not_chronological,
    pending_outbox_unscoped, cut_error_text_rejected, split_lock_keys_skip,
    unnamed_register_twice, close_again_refused, assistant_over_budget,
    oneof_logged_raw, wkt_in_oneof_does_not_compile, nil_map_value_dropped,
    repeated_pii_does_not_compile, nested_pii_not_encrypted,
    override_of_encrypted_lost, capitalize_uppercase, authorize_ignores_tenant,
    index_mixes_tenants, shipped_twice_negative, msToUs_wraps,
    mem_store_mixes_tenants, limit_zero_panics, partial_reset_unaudited,
    forget_unknown_subject, peer_cache_outlives_forget, cancelled_sweep_silent,
    cached_state_outlives_forget, rebuild_never_decrypts, rebuild_caches_ciphertext,
    lost_append_decided_again, negative_retries_forever) state
    what the code does where that is not what it means to do, or what its
    comments warn of.

    ** Not modelled

    Concurrency inside an operation on SQLite, whose writers serialize on the
    file: an operation is one transaction, and the interleavings that matter are
    stated explicitly (another writer between prepare and Append, two processes
    that create a subject's key, a rewrap beside a ForgetSubject).  A COMMIT of
    SQLite that returns an error has not committed; the ambiguous commit of a
    server is part of the Postgres model.  A payload is never a nil slice.  A
    goroutine of the in-process runtime runs as a unit, and a step of a durable
    engine runs when it is started; the journals that DBOS and Restate really
    keep are not modelled.  On Postgres, row locks and the
    waiting for them, and statements that the server aborts after an earlier
    error of the same transaction (no method goes on after one); and of its laws
    StoreLaws only: the drains are proved on the SQLite laws.  Of the code
    generator, the layout of its output, import bookkeeping, and the async
    handlers of the durable services.  Of esctl, flags and the layout
    of the output; the documentation generator and the linter of upcasters, which
    work on text; the wiring of the examples, which only connects what is modelled
    to servers; tracing; the benchmarks, and the tests other than the conformance suites; the
    protobuf code of protoc-gen-go. *)
From Stdlib Require Export ZArith Lia Ascii String.
From Stdlib Require Export Strings.Byte.
From stdpp Require Export base tactics decidable list gmap strings sorting.
From stdpp Require Import pretty.

#[global] Open Scope Z_scope.

(** ** Machine integers

    Go's fixed-width integers are [Z] values; a conversion or an arithmetic
    operation that can leave the range is written out with the wrap-around. *)

Declare Scope goint_scope.
Delimit Scope goint_scope with goint.

(** [u w z] is the value of the conversion [uintw(z)], [s w z] of [intw(z)]. *)
Definition wrap_u (w z : Z) : Z := z mod 2 ^ w.
Definition wrap_s (w z : Z) : Z := (z + 2 ^ (w - 1)) mod 2 ^ w - 2 ^ (w - 1).

#[global] Arguments wrap_u : simpl never.
#[global] Arguments wrap_s : simpl never.

Notation u64 := (wrap_u 64).
Notation u32 := (wrap_u 32).
Notation i64 := (wrap_s 64).
Notation i32 := (wrap_s 32).

Definition max_i64 : Z := 2 ^ 63 - 1.
Definition max_i32 : Z := 2 ^ 31 - 1.

Lemma u64_small z : 0 <= z < 2 ^ 64 -> u64 z = z.
Proof. intros; unfold wrap_u; apply Z.mod_small; lia. Qed.

Lemma u32_small z : 0 <= z < 2 ^ 32 -> u32 z = z.
Proof. intros; unfold wrap_u; apply Z.mod_small; lia. Qed.

Lemma i64_small z : - 2 ^ 63 <= z < 2 ^ 63 -> i64 z = z.
Proof.
  intros; unfold wrap_s. change (64 - 1) with 63.
  rewrite Z.mod_small; lia.
Qed.

Lemma i32_small z : - 2 ^ 31 <= z < 2 ^ 31 -> i32 z = z.
Proof.
  intros; unfold wrap_s. change (32 - 1) with 31.
  rewrite Z.mod_small; lia.
Qed.

Lemma u64_range z : 0 <= u64 z < 2 ^ 64.
Proof. unfold wrap_u; apply Z.mod_pos_bound; lia. Qed.

Lemma u32_range z : 0 <= u32 z < 2 ^ 32.
Proof. unfold wrap_u; apply Z.mod_pos_bound; lia. Qed.

Create HintDb goint.
#[export] Hint Rewrite u64_small u32_small i64_small i32_small using lia : goint.

(** ** Bytes and strings *)

Notation bytes := (list Byte.byte).

#[export] Instance byte_eq_dec : EqDecision Byte.byte := Byte.byte_eq_dec.

(** [string(b)] and [[]byte(s)]. *)
Definition str_of_bytes (b : bytes) : string := string_of_list_byte b.
Definition bytes_of_str (s : string) : bytes := list_byte_of_string s.

Lemma bytes_of_str_of_bytes b : bytes_of_str (str_of_bytes b) = b.
Proof. apply list_byte_of_string_of_list_byte. Qed.

Lemma str_of_bytes_of_str s : str_of_bytes (bytes_of_str s) = s.
Proof. apply string_of_list_byte_of_string. Qed.

(** [strings.IndexByte]. *)
Fixpoint str_index (c : ascii) (s : string) : option nat :=
  match s with
  | EmptyString => None
  | String d s' => if ascii_dec d c then Some O else S <$> str_index c s'
  end.

Fixpoint str_take (n : nat) (s : string) : string :=
  match n, s with
  | S n', String c s' => String c (str_take n' s')
  | _, _ => EmptyString
  end.

Fixpoint str_drop (n : nat) (s : string) : string :=
  match n, s with
  | O, _ => s
  | S n', String _ s' => str_drop n' s'
  | S _, EmptyString => EmptyString
  end.

(** [strings.Contains]. *)
Fixpoint str_contains (sub s : string) : bool :=
  String.prefix sub s ||
  match s with
  | EmptyString => false
  | String _ s' => str_contains sub s'
  end.

Fixpoint str_forall (P : ascii -> bool) (s : string) : bool :=
  match s with
  | EmptyString => true
  | String c s' => P c && str_forall P s'
  end.

(** SQLite's default BINARY collation on TEXT columns: bytewise order. *)
Fixpoint str_ltb (s t : string) : bool :=
  match s, t with
  | _, EmptyString => false
  | EmptyString, String _ _ => true
  | String c s', String d t' =>
      let x := nat_of_ascii c in
      let y := nat_of_ascii d in
      if Nat.ltb x y then true else if Nat.eqb x y then str_ltb s' t' else false
  end.
Definition str_leb (s t : string) : bool := negb (str_ltb t s).

(** stdpp makes [String.append] opaque to [simpl]; these are its equations. *)
Lemma str_app_nil_l b : EmptyString +:+ b = b.
Proof. done. Qed.

Lemma str_app_cons x a b : String x a +:+ b = String x (a +:+ b).
Proof. done. Qed.

Lemma str_app_empty_r s : (s +:+ EmptyString) = s.
Proof. induction s as [|c s IH]; [done|]. by rewrite str_app_cons, IH. Qed.

Lemma str_app_assoc (a b c : string) : (a +:+ b) +:+ c = a +:+ (b +:+ c).
Proof. induction a as [|x a IH]; [done|]. by rewrite !str_app_cons, IH. Qed.

Lemma str_app_length (a b : string) :
  String.length (a +:+ b) = (String.length a + String.length b)%nat.
Proof. induction a as [|x a IH]; [done|]. rewrite str_app_cons; simpl. by rewrite IH. Qed.

Lemma str_forall_app P a b :
  str_forall P (a +:+ b) = str_forall P a && str_forall P b.
Proof.
  induction a as [|x a IH]; [done|]. rewrite str_app_cons; simpl.
  by rewrite IH, andb_assoc.
Qed.

(** [c] does not occur in [s]. *)
Definition str_free (c : ascii) : string -> bool :=
  str_forall (fun x => negb (bool_decide (x = c))).

(** A separator that does not occur in the left part is found at its end,
    and splitting there gives back the two parts. *)
Lemma str_index_app c a b :
  str_free c a = true -> str_index c (a +:+ String c b) = Some (String.length a).
Proof.
  induction a as [|x a IH]; intros H.
  - rewrite str_app_nil_l. simpl. by destruct (ascii_dec c c).
  - rewrite str_app_cons. simpl in *. apply andb_true_iff in H as [Hx Ha].
    apply negb_true_iff, bool_decide_eq_false in Hx.
    destruct (ascii_dec x c); [done|]. by rewrite IH.
Qed.

Lemma str_take_app a b : str_take (String.length a) (a +:+ b) = a.
Proof.
  induction a as [|x a IH]; [by destruct b|]. rewrite str_app_cons. simpl. by rewrite IH.
Qed.

Lemma str_drop_app a b : str_drop (String.length a) (a +:+ b) = b.
Proof. induction a as [|x a IH]; [done|]. by rewrite str_app_cons. Qed.

Lemma str_drop_sep c a b : str_drop (S (String.length a)) (a +:+ String c b) = b.
Proof.
  induction a as [|x a IH]; [by rewrite str_app_nil_l|]. rewrite str_app_cons. exact IH.
Qed.

Lemma str_app_inj_r (a b c : string) : a +:+ b = a +:+ c -> b = c.
Proof.
  induction a as [|x a IH]; [done|]. rewrite !str_app_cons. intros [= H]. auto.
Qed.

Lemma str_ltb_irrefl s : str_ltb s s = false.
Proof.
  induction s as [|c s IH]; simpl; [done|].
  by rewrite Nat.ltb_irrefl, Nat.eqb_refl.
Qed.

(** Strings of the form [a ++ c ++ b] where [c] does not occur in the left
    parts determine both parts. *)
Lemma str_sep_inj_l c a a' b b' :
  str_free c a = true -> str_free c a' = true ->
  a +:+ String c b = a' +:+ String c b' -> a = a' /\ b = b'.
Proof.
  intros Ha Ha' H.
  assert (Hl : String.length a = String.length a').
  { apply (f_equal (str_index c)) in H. rewrite !str_index_app in H by done. by simplify_eq. }
  assert (Ht := f_equal (str_take (String.length a)) H).
  rewrite str_take_app, Hl, str_take_app in Ht. subst a'.
  apply str_app_inj_r in H. by simplify_eq.
Qed.

Fixpoint str_rev_app (s acc : string) : string :=
  match s with EmptyString => acc | String c s' => str_rev_app s' (String c acc) end.

Lemma str_rev_app_app a b acc :
  str_rev_app (a +:+ b) acc = str_rev_app b (str_rev_app a acc).
Proof. revert acc; induction a as [|x a IH]; intros acc; [done|]. rewrite str_app_cons. apply IH. Qed.

Lemma str_rev_app_acc a acc : str_rev_app a acc = str_rev_app a EmptyString +:+ acc.
Proof.
  revert acc; induction a as [|x a IH]; intros acc; [done|]. simpl.
  rewrite IH, (IH (String x EmptyString)), str_app_assoc. done.
Qed.

Lemma str_rev_inj a b : str_rev_app a EmptyString = str_rev_app b EmptyString -> a = b.
Proof.
  assert (Hinv : forall s acc, str_rev_app (str_rev_app s acc) EmptyString
      = str_rev_app acc EmptyString +:+ s).
  { intros s; induction s as [|c s IH]; intros acc; simpl.
    - by rewrite str_app_empty_r.
    - rewrite IH. simpl. by rewrite (str_rev_app_acc acc), str_app_assoc. }
  intros H. apply (f_equal (fun s => str_rev_app s EmptyString)) in H.
  by rewrite !Hinv in H.
Qed.

Lemma str_free_rev c a acc :
  str_free c (str_rev_app a acc) = str_free c a && str_free c acc.
Proof.
  revert acc; induction a as [|x a IH]; intros acc; simpl; [done|].
  rewrite IH. unfold str_free; simpl. destruct (str_forall _ a), (negb _); done.
Qed.

(** The same with a separator that does not occur in the right parts. *)
Lemma str_sep_inj_r c a a' b b' :
  str_free c b = true -> str_free c b' = true ->
  a +:+ String c b = a' +:+ String c b' -> a = a' /\ b = b'.
Proof.
  intros Hb Hb' H. apply (f_equal (fun s => str_rev_app s EmptyString)) in H.
  rewrite !str_rev_app_app in H. simpl in H.
  rewrite (str_rev_app_acc b), (str_rev_app_acc b') in H.
  apply str_sep_inj_l in H as [H1 H2].
  - apply str_rev_inj in H1. apply str_rev_inj in H2. done.
  - by rewrite str_free_rev, Hb.
  - by rewrite str_free_rev, Hb'.
Qed.

(** ** Lists *)

Lemma StronglySorted_app {A} (R : relation A) l1 l2 :
  StronglySorted R l1 -> StronglySorted R l2 ->
  (forall x y, x ∈ l1 -> y ∈ l2 -> R x y) -> StronglySorted R (l1 ++ l2).
Proof.
  induction l1 as [|a l1 IH]; simpl; intros H1 H2 H12; [done|].
  apply StronglySorted_inv in H1 as [Hs Hf]. constructor.
  - apply IH; [done|done|]. intros x y Hx. apply H12. by right.
  - apply Forall_app; split; [done|]. apply Forall_forall. intros y Hy.
    apply H12; [by left|done].
Qed.

Lemma StronglySorted_app_inv {A} (R : relation A) l1 l2 :
  StronglySorted R (l1 ++ l2) ->
  StronglySorted R l1 /\ StronglySorted R l2 /\
  (forall x y, x ∈ l1 -> y ∈ l2 -> R x y).
Proof.
  induction l1 as [|a l1 IH]; simpl; intros H.
  - split; [constructor|]. split; [done|]. intros x y Hx; by apply elem_of_nil in Hx.
  - apply StronglySorted_inv in H as [Hs Hf].
    destruct (IH Hs) as (H1 & H2 & H12).
    apply Forall_app in Hf as [Hf1 Hf2].
    split; [by constructor|]. split; [done|].
    intros x y [->|Hx]%elem_of_cons Hy; [|by apply H12].
    rewrite Forall_forall in Hf2. by apply Hf2.
Qed.

Lemma StronglySorted_filter {A} (R : relation A) (P : A -> Prop)
    `{forall x, Decision (P x)} l :
  StronglySorted R l -> StronglySorted R (filter P l).
Proof.
  induction 1 as [|a l Hs IH Hf]; [constructor|].
  rewrite filter_cons. case_decide; [|done].
  constructor; [done|]. rewrite Forall_forall in Hf |- *.
  intros x [_ Hx]%list_elem_of_filter. by apply Hf.
Qed.

Lemma filter_keep_all {A} (P : A -> Prop) `{forall x, Decision (P x)} l :
  Forall P l -> filter P l = l.
Proof. induction 1; [done|]. rewrite filter_cons_True by done. by f_equal. Qed.

Lemma filter_keep_none {A} (P : A -> Prop) `{forall x, Decision (P x)} l :
  Forall (fun x => ~ P x) l -> filter P l = [].
Proof. induction 1; [done|]. by rewrite filter_cons_False. Qed.

Lemma filter_ext_in {A} (P Q : A -> Prop) `{forall x, Decision (P x)} `{forall x, Decision (Q x)} (l : list A) :
  (forall x, x ∈ l -> P x <-> Q x) -> filter P l = filter Q l.
Proof.
  induction l as [|a l IH]; intros HPQ; [done|]. rewrite !filter_cons.
  rewrite IH by (intros x Hx; apply HPQ; by right).
  pose proof (HPQ a ltac:(by left)). repeat case_decide; tauto.
Qed.

(** ** Tactics *)

(** Case analysis on the first match or boolean test of the goal or of a
    hypothesis, keeping the equation. *)
Ltac case_step :=
  match goal with
  | |- context [match ?x with _ => _ end] => destruct x eqn:?
  end.
Ltac case_step_in H :=
  match type of H with
  | context [match ?x with _ => _ end] => destruct x eqn:?
  end.

(** Split the conjunctions and existentials of the context. *)
Ltac destruct_ex :=
  repeat match goal with
  | H : exists _, _ |- _ => destruct H
  | H : _ /\ _ |- _ => destruct H
  end.

(** Turn the boolean tests of the context into propositions. *)
Ltac bool_to_prop :=
  repeat match goal with
  | H : _ && _ = true |- _ => apply andb_true_iff in H as [? ?]
  | H : _ || _ = false |- _ => apply orb_false_iff in H as [? ?]
  | H : negb _ = true |- _ => apply negb_true_iff in H
  | H : negb _ = false |- _ => apply negb_false_iff in H
  | H : (_ <? _) = true |- _ => apply Z.ltb_lt in H
  | H : (_ <? _) = false |- _ => apply Z.ltb_ge in H
  | H : (_ <=? _) = true |- _ => apply Z.leb_le in H
  | H : (_ <=? _) = false |- _ => apply Z.leb_gt in H
  | H : (_ =? _) = true |- _ => apply Z.eqb_eq in H
  | H : (_ =? _) = false |- _ => apply Z.eqb_neq in H
  | H : bool_decide _ = true |- _ => apply bool_decide_eq_true in H
  | H : bool_decide _ = false |- _ => apply bool_decide_eq_false in H
  end.

(** ** UTF-8 (unicode/utf8.ValidString) *)

Definition byte_in (lo hi : nat) (c : ascii) : bool :=
  let n := nat_of_ascii c in Nat.leb lo n && Nat.leb n hi.

Definition utf8_cont : ascii -> bool := byte_in 128 191.

Fixpoint utf8_valid (s : string) : bool :=
  match s with
  | EmptyString => true
  | String c s1 =>
      if byte_in 0 127 c then utf8_valid s1
      else
        match s1 with
        | EmptyString => false
        | String c1 s2 =>
            if byte_in 194 223 c then utf8_cont c1 && utf8_valid s2
            else
              match s2 with
              | EmptyString => false
              | String c2 s3 =>
                  if byte_in 224 239 c then
                    (if byte_in 224 224 c then byte_in 160 191 c1
                     else if byte_in 237 237 c then byte_in 128 159 c1 else utf8_cont c1) &&
                    utf8_cont c2 && utf8_valid s3
                  else
                    match s3 with
                    | EmptyString => false
                    | String c3 s4 =>
                        byte_in 240 244 c &&
                        (if byte_in 240 240 c then byte_in 144 191 c1
                         else if byte_in 244 244 c then byte_in 128 143 c1 else utf8_cont c1) &&
                        utf8_cont c2 && utf8_cont c3 && utf8_valid s4
                    end
              end
        end
  end.

(** ASCII text is valid. *)
Definition str_ascii : string -> bool := str_forall (byte_in 0 127).

Lemma utf8_ascii s : str_ascii s = true -> utf8_valid s = true.
Proof.
  unfold str_ascii. induction s as [|c s IH]; [done|]. cbn [str_forall utf8_valid].
  intros [-> Hs]%andb_true_iff. by apply IH.
Qed.

Lemma str_ascii_app a b : str_ascii a = true -> str_ascii b = true -> str_ascii (a +:+ b) = true.
Proof. unfold str_ascii. rewrite str_forall_app. by intros -> ->. Qed.

Lemma str_forall_impl (P Q : ascii -> bool) s :
  (forall c, P c = true -> Q c = true) -> str_forall P s = true -> str_forall Q s = true.
Proof.
  intros H. induction s as [|c s IH]; [done|]. simpl. intros [Hc Hs]%andb_true_iff. by rewrite H, IH.
Qed.

(** ** Decimal text *)
Definition is_digit (c : ascii) : bool := let d := Z.of_nat (nat_of_ascii c) - 48 in negb ((d <? 0) || (9 <? d)).

Lemma pretty_char d : (d < 10)%N -> Z.of_nat (nat_of_ascii (pretty_N_char d)) - 48 = Z.of_N d.
Proof.
  intros H. assert (Hd : d ∈ [0; 1; 2; 3; 4; 5; 6; 7; 8; 9]%N).
  { destruct (decide (d = 0 ∨ d = 1 ∨ d = 2 ∨ d = 3 ∨ d = 4 ∨ d = 5 ∨ d = 6 ∨ d = 7 ∨ d = 8 ∨ d = 9)%N); [set_solver|lia]. }
  repeat (apply elem_of_cons in Hd as [->|Hd]; [done|]). by apply elem_of_nil in Hd.
Qed.

Lemma digit_range d : (d < 10)%N -> (Z.of_N d <? 0) || (9 <? Z.of_N d) = false.
Proof. intros H. apply orb_false_iff. split; apply Z.ltb_ge; lia. Qed.

Lemma pretty_go_digits x : forall s, str_forall is_digit s = true -> str_forall is_digit (pretty_N_go x s) = true.
Proof.
  induction (N.lt_wf_0 x) as [x _ IH]. intros s Hs. destruct (decide (x = 0)%N) as [->|Hx]; [done|].
  rewrite pretty_N_go_step by lia. apply IH; [by apply N.div_lt; lia|]. simpl. rewrite Hs, andb_true_r.
  pose proof (N.mod_lt x 10 ltac:(lia)). unfold is_digit. by rewrite pretty_char, digit_range.
Qed.

Lemma pretty_digits (n : N) : str_forall is_digit (pretty n) = true.
Proof. unfold pretty, pretty_N. case_decide; [done|]. by apply pretty_go_digits. Qed.

Lemma pretty_ascii (n : N) : str_ascii (pretty n) = true.
Proof.
  apply (str_forall_impl is_digit); [|apply pretty_digits]. intros c. unfold is_digit, byte_in. intros H.
  bool_to_prop. simpl. apply Nat.leb_le. lia.
Qed.
