(* ===== verification/Errors.v ===== *)
(** * Errors of es/errors.go and the state-and-error monad

    Go errors are values: a sentinel, a fresh [errors.New]/[fmt.Errorf] text,
    or a text wrapped around another error with [%w].  [errors_Is] is the
    standard library's [errors.Is] against a sentinel and [Error] renders the
    text. Formatted arguments other than the wrapped error are dropped from
    the rendered text; no theorem depends on them. *)
From S2P Require Import Prelude.

Inductive sentinel : Set :=
  | ErrConflict
  | ErrConstraintViolated
  | ErrStreamNotFound
  | ErrEventNotFound
  | ErrTenantMissing
  | ErrInvalidStreamID
  | ErrUnknownSchemaVersion
  | ErrCryptoIntegrity
  | ErrKMSUnavailable
  | ErrTerminal
  | ErrStateNotFound
  | ErrChainBroken
  | ErrSubjectKeyNotFound
  | ErrShredded
  | ErrRetentionScannerNotSupported
  | ErrNoRows
  | ErrAdminPoolRequired
  | ErrCanceled
  | ErrUnauthorized.

#[export] Instance sentinel_eq_dec : EqDecision sentinel.
Proof. solve_decision. Defined.

Definition sentinel_text (s : sentinel) : string :=
  match s with
  | ErrConflict => "eventstore: append conflict (expected version mismatch)"
  | ErrConstraintViolated => "eventstore: unique constraint violated"
  | ErrStreamNotFound => "eventstore: stream not found"
  | ErrEventNotFound => "eventstore: event not found"
  | ErrTenantMissing => "eventstore: tenant missing from context"
  | ErrInvalidStreamID => "eventstore: invalid stream id"
  | ErrUnknownSchemaVersion => "eventstore: unknown schema version"
  | ErrCryptoIntegrity => "eventstore: ciphertext integrity check failed"
  | ErrKMSUnavailable => "eventstore: KMS unavailable"
  | ErrTerminal => "eventstore: stream is terminal"
  | ErrStateNotFound => "eventstore: state not found"
  | ErrChainBroken => "eventstore: chain hash mismatch"
  | ErrSubjectKeyNotFound => "shred: subject key not found"
  | ErrShredded => "shred: subject has been shredded"
  | ErrRetentionScannerNotSupported =>
      "shred: SubjectStore does not implement RetentionScanner"
  | ErrAdminPoolRequired =>
      "postgres: admin pool required for cross-tenant operation (configure WithAdminPool)"
  | ErrNoRows => "sql: no rows in result set"
  | ErrCanceled => "context canceled"
  | ErrUnauthorized => "authz: unauthorized"
  end.

(** [ESent s] is the sentinel itself, [ENew m] is [errors.New(m)],
    [EWrap m e] is [fmt.Errorf("m: %w", e)] and [EWrapPost e m] is
    [fmt.Errorf("%w: m", e)].  [EPg code table] is a *pgconn.PgError: an error
    of the PostgreSQL server with its SQLSTATE and the table it names. *)
Inductive err : Set :=
  | ESent (s : sentinel)
  | ENew (msg : string)
  | EWrap (msg : string) (e : err)
  | EWrapPost (e : err) (msg : string)
  | EPg (code table : string).

#[export] Instance err_eq_dec : EqDecision err.
Proof. solve_decision. Defined.

Fixpoint errors_Is (e : err) (s : sentinel) : bool :=
  match e with
  | ESent s' => bool_decide (s' = s)
  | ENew _ | EPg _ _ => false
  | EWrap _ e' | EWrapPost e' _ => errors_Is e' s
  end.

Fixpoint Error (e : err) : string :=
  match e with
  | ESent s => sentinel_text s
  | ENew m => m
  | EWrap m e' => m +:+ ": " +:+ Error e'
  | EWrapPost e' m => Error e' +:+ ": " +:+ m
  | EPg code table => "ERROR: " +:+ table +:+ " (SQLSTATE " +:+ code +:+ ")"
  end.

(** ** Results and the state-and-error monad

    [M W A] is a Go function that reads and writes the world [W] and returns
    [(A, error)]. Effects made before an error is returned stay, as in Go. *)

Inductive res (A : Type) : Type :=
  | Ok (a : A)
  | Err (e : err).
Arguments Ok {_} _.
Arguments Err {_} _.

Definition M (W A : Type) : Type := W -> W * res A.

#[export] Instance M_ret W : MRet (M W) := fun A a w => (w, Ok a).
#[export] Instance M_bind W : MBind (M W) := fun A B k m w =>
  match m w with
  | (w', Ok a) => k a w'
  | (w', Err e) => (w', Err e)
  end.

Definition fail {W A} (e : err) : M W A := fun w => (w, Err e).

(** [if err != nil { return fmt.Errorf("msg: %w", err) }] *)
Definition wrap_err {W A} (msg : string) (m : M W A) : M W A := fun w =>
  match m w with
  | (w', Ok a) => (w', Ok a)
  | (w', Err e) => (w', Err (EWrap msg e))
  end.

(** [x, err := m()] : the error as a value, for code that inspects it. *)
Definition try {W A} (m : M W A) : M W (res A) := fun w =>
  let '(w', r) := m w in (w', Ok r).

Definition of_res {W A} (r : res A) : M W A := fun w => (w, r).

Definition guard_err {W} (o : option err) : M W unit :=
  match o with Some e => fail e | None => mret tt end.

Lemma bind_Ok {W A B} (m : M W A) (k : A -> M W B) w w'' b :
  (m ≫= k) w = (w'', Ok b) <->
  exists w' a, m w = (w', Ok a) /\ k a w' = (w'', Ok b).
Proof.
  unfold mbind, M_bind. destruct (m w) as [w' [a|e]]; split.
  - intros H; eauto.
  - by intros (? & ? & [= <- <-] & ?).
  - done.
  - by intros (? & ? & ? & ?).
Qed.

Lemma bind_Err {W A B} (m : M W A) (k : A -> M W B) w w'' e :
  (m ≫= k) w = (w'', Err e) <->
  m w = (w'', Err e) \/
  exists w' a, m w = (w', Ok a) /\ k a w' = (w'', Err e).
Proof.
  unfold mbind, M_bind. destruct (m w) as [w' [a|e']]; split.
  - intros H; eauto.
  - by intros [?|(? & ? & [= <- <-] & ?)].
  - intros [= -> ->]; auto.
  - by intros [[= -> ->]|(? & ? & ? & ?)].
Qed.

Lemma bind_run {W A B} (m : M W A) (k : A -> M W B) w w' a :
  m w = (w', Ok a) -> (m ≫= k) w = k a w'.
Proof. unfold mbind, M_bind. by intros ->. Qed.

Lemma bind_run_Err {W A B} (m : M W A) (k : A -> M W B) w w' e :
  m w = (w', Err e) -> (m ≫= k) w = (w', Err e).
Proof. unfold mbind, M_bind. by intros ->. Qed.

Lemma wrap_err_Ok {W A} msg (m : M W A) w w' a :
  wrap_err msg m w = (w', Ok a) <-> m w = (w', Ok a).
Proof. unfold wrap_err. destruct (m w) as [? [?|?]]; split; intros; simplify_eq; done. Qed.

Lemma of_res_Ok {W A} (r : res A) (w w' : W) a :
  of_res r w = (w', Ok a) -> w' = w /\ r = Ok a.
Proof. unfold of_res. by intros [= -> ->]. Qed.

Lemma try_Ok {W A} (m : M W A) w w' r : try m w = (w', Ok r) -> m w = (w', r).
Proof. unfold try. destruct (m w). by intros [= -> ->]. Qed.

Lemma guard_err_Ok {W} o (w w' : W) u : guard_err o w = (w', Ok u) -> w' = w /\ o = None.
Proof. unfold guard_err. destruct o; [done|]. by intros [= ->]. Qed.

(** Invert every bind of a successful run. *)
Ltac inv_bind :=
  repeat match goal with
  | H : mbind _ _ _ = (_, Ok _) |- _ => apply bind_Ok in H as (? & ? & ? & H)
  | H : wrap_err _ _ _ = (_, Ok _) |- _ => apply wrap_err_Ok in H
  | H : mret _ _ = (_, _) |- _ => unfold mret, M_ret in H; simplify_eq
  | H : fail _ _ = (_, _) |- _ => unfold fail in H; simplify_eq
  end.

(** ** Lists of effects *)

(** [for _, x := range l { if err := f(x); err != nil { return err } }] *)
Fixpoint forM_ {W A} (l : list A) (f : A -> M W unit) : M W unit :=
  match l with
  | [] => mret tt
  | x :: l' => f x ≫= fun _ => forM_ l' f
  end.

(** [for _, x := range l { y, err := f(x); ...; out = append(out, y) }] on a
    pure fallible [f]. *)
Fixpoint mapR {A B} (f : A -> res B) (l : list A) : res (list B) :=
  match l with
  | [] => Ok []
  | x :: l' =>
      match f x with
      | Err e => Err e
      | Ok y => match mapR f l' with Err e => Err e | Ok ys => Ok (y :: ys) end
      end
  end.

Lemma mapR_Forall2 {A B} (f : A -> res B) l ys :
  mapR f l = Ok ys <-> Forall2 (fun x y => f x = Ok y) l ys.
Proof.
  revert ys; induction l as [|x l IH]; intros ys; simpl.
  - split; [intros [= <-]; constructor|by inversion 1].
  - split.
    + destruct (f x) eqn:Hx; [|done]. destruct (mapR f l) eqn:Hl; [|done].
      intros [= <-]. constructor; [done|]. by apply IH.
    + inversion 1 as [|? y ? ys' Hy Hys]; subst. rewrite Hy.
      by rewrite (proj2 (IH _) Hys).
Qed.

Lemma mapR_total {A B} (f : A -> res B) l :
  (exists ys, mapR f l = Ok ys) <-> Forall (fun x => exists y, f x = Ok y) l.
Proof.
  induction l as [|x l IH]; simpl; [split; eauto|]. rewrite Forall_cons, <- IH. split.
  - intros [ys H]. destruct (f x); [|done]. destruct (mapR f l); [|done]. eauto.
  - intros [[y ->] [ys ->]]. eauto.
Qed.

Lemma mapR_app {A B} (f : A -> res B) l1 l2 :
  mapR f (l1 ++ l2) =
  match mapR f l1 with
  | Err e => Err e
  | Ok y1 => match mapR f l2 with Err e => Err e | Ok y2 => Ok (y1 ++ y2) end
  end.
Proof.
  induction l1 as [|x l1 IH]; simpl; [by destruct (mapR f l2)|].
  destruct (f x); [|done]. rewrite IH. destruct (mapR f l1); [|done].
  by destruct (mapR f l2).
Qed.

Lemma mapR_map {A B C} (f : B -> res C) (g : A -> B) l :
  mapR f (g <$> l) = mapR (fun x => f (g x)) l.
Proof. induction l as [|x l IH]; csimpl; [done|]. destruct (f (g x)); [|done]. by rewrite IH. Qed.

Lemma mapR_ext {A B} (f g : A -> res B) l :
  (forall x, x ∈ l -> f x = g x) -> mapR f l = mapR g l.
Proof.
  induction l as [|x l IH]; simpl; intros H; [done|].
  rewrite (H x) by by left. destruct (g x); [|done].
  rewrite IH; [done|]. intros y Hy. apply H. by right.
Qed.

Lemma mapR_filter {A B} (f : A -> res B) (p : A -> bool) l ys :
  mapR f l = Ok ys -> exists zs, mapR f (List.filter p l) = Ok zs.
Proof.
  revert ys; induction l as [|x l IH]; intros ys; simpl; [eauto|].
  destruct (f x) as [y|] eqn:Hx; [|done]. destruct (mapR f l) as [ys'|]; [|done]. intros _.
  destruct (IH ys' eq_refl) as [zs Hzs]. destruct (p x); simpl; rewrite ?Hx, Hzs; eauto.
Qed.
