(* ===== verification/Streams.v ===== *)
(** * Stream identity, tenancy, actors and access levels

    Models es/streamid.go (StreamID, Validate, Canonical, ParseCanonical),
    es/tenant.go (the tenant carried by a context), es/actor.go and
    es/access.go (access levels and the classification table). *)
From S2P Require Import Prelude Errors.

(** ** Stream identity (es/streamid.go) *)
Module StreamID.

Definition canonicalSep : ascii := ":"%char.

Definition is_alnum (c : ascii) : bool :=
  let n := nat_of_ascii c in
  (Nat.leb 97 n && Nat.leb n 122) || (Nat.leb 48 n && Nat.leb n 57).

Definition is_slug_char (c : ascii) : bool :=
  is_alnum c || bool_decide (c = "_"%char) || bool_decide (c = "-"%char).

(** [slugRe.MatchString], the expression [^[a-z0-9][a-z0-9_-]{0,127}$]. *)
Definition slugRe (s : string) : bool :=
  match s with
  | EmptyString => false
  | String c s' =>
      is_alnum c && str_forall is_slug_char s' && Nat.leb (String.length s') 127
  end.

Record t : Set := mk { Tenant : string; Type_ : string; ID : string }.

#[global] Instance eq_dec : EqDecision t.
Proof. solve_decision. Defined.

#[global] Instance countable : Countable t.
Proof.
  refine (inj_countable' (fun s => (Tenant s, Type_ s, ID s))
    (fun '(a, b, c) => mk a b c) _).
  by intros [].
Qed.

Definition Validate (s : t) : option err :=
  if decide (Tenant s = EmptyString) then Some (ESent ErrTenantMissing)
  else if negb (slugRe (Type_ s)) || negb (slugRe (ID s))
  then Some (ESent ErrInvalidStreamID)
  else None.

Definition NewStreamID (tenant typ id : string) : res t :=
  let sid := mk tenant typ id in
  match Validate sid with Some e => Err e | None => Ok sid end.

Definition Canonical (s : t) : string := Type_ s +:+ String canonicalSep (ID s).

(** [String()] of the Go type, for log output. *)
Definition to_string (s : t) : string :=
  Tenant s +:+ String "/"%char (Canonical s).

Definition ParseCanonical (tenant canonical : string) : res t :=
  match str_index canonicalSep canonical with
  | None => Err (ESent ErrInvalidStreamID)
  | Some i =>
      if Nat.eqb i 0 || Nat.eqb i (String.length canonical - 1)
      then Err (ESent ErrInvalidStreamID)
      else NewStreamID tenant (str_take i canonical) (str_drop (S i) canonical)
  end.

#[global] Arguments Canonical : simpl never.
#[global] Arguments ParseCanonical : simpl never.
#[global] Arguments Validate : simpl never.

Lemma slug_free c s : is_slug_char c = false -> slugRe s = true -> str_free c s = true.
Proof.
  intros Hc. destruct s as [|d s]; [done|]. simpl. intros H. bool_to_prop.
  assert (Hd : is_slug_char d = true) by (unfold is_slug_char; by rewrite H).
  unfold str_free; simpl. rewrite andb_true_iff; split.
  - apply negb_true_iff, bool_decide_eq_false. intros ->. congruence.
  - clear -Hc H1. induction s as [|x s IH]; [done|]. simpl in *. bool_to_prop.
    rewrite andb_true_iff; split; [|by apply IH].
    apply negb_true_iff, bool_decide_eq_false. intros ->. congruence.
Qed.

Lemma Validate_None s :
  Validate s = None <-> Tenant s <> EmptyString /\ slugRe (Type_ s) = true /\ slugRe (ID s) = true.
Proof.
  unfold Validate. case_decide; [intuition congruence|].
  destruct (slugRe (Type_ s)), (slugRe (ID s)); simpl; intuition congruence.
Qed.

Lemma NewStreamID_Ok tenant typ id s :
  NewStreamID tenant typ id = Ok s <-> s = mk tenant typ id /\ Validate s = None.
Proof.
  unfold NewStreamID. destruct (Validate _) eqn:H; split.
  - done.
  - intros [-> ?]. congruence.
  - intros [= <-]. done.
  - intros [-> _]. done.
Qed.

Lemma slug_ascii s : slugRe s = true -> str_ascii s = true.
Proof.
  destruct s as [|c s]; [done|]. unfold slugRe, str_ascii. intros [[Hc Hs]%andb_true_iff _]%andb_true_iff.
  assert (Hslug : forall c, is_slug_char c = true -> byte_in 0 127 c = true).
  { intros [[] [] [] [] [] [] [] []]; vm_compute; congruence. }
  cbn [str_forall]. rewrite (str_forall_impl _ _ _ Hslug Hs), andb_true_r. apply Hslug.
  unfold is_slug_char. by rewrite Hc.
Qed.

Lemma Canonical_ascii sid : Validate sid = None -> str_ascii (Canonical sid) = true.
Proof.
  intros (_ & Ht & Hi)%Validate_None. unfold Canonical.
  apply str_ascii_app; [by apply slug_ascii|]. apply (str_ascii_app ":"); [done|]. by apply slug_ascii.
Qed.

Lemma slug_nonempty s : slugRe s = true -> (0 < String.length s)%nat.
Proof. destruct s; simpl; [done|lia]. Qed.

Lemma Parse_Canonical s :
  Validate s = None -> ParseCanonical (Tenant s) (Canonical s) = Ok s.
Proof.
  intros Hv. pose proof (proj1 (Validate_None s) Hv) as (Ht & Hty & Hid).
  unfold ParseCanonical, Canonical.
  rewrite str_index_app by by apply slug_free.
  pose proof (slug_nonempty _ Hty). pose proof (slug_nonempty _ Hid).
  rewrite str_app_length. simpl String.length.
  destruct (Nat.eqb_spec (String.length (Type_ s)) 0); [lia|].
  destruct (Nat.eqb_spec (String.length (Type_ s)) (String.length (Type_ s) + S (String.length (ID s)) - 1));
    [lia|]. cbn [orb].
  rewrite str_take_app, str_drop_sep.
  apply NewStreamID_Ok. split; [by destruct s|done].
Qed.

Lemma str_index_split c s i :
  str_index c s = Some i ->
  s = str_take i s +:+ String c (str_drop (S i) s).
Proof.
  revert i; induction s as [|d s IH]; intros i; simpl; [done|].
  destruct (ascii_dec d c) as [->|].
  - intros [= <-]. simpl. done.
  - destruct (str_index c s) eqn:Hi; simpl; [|done]. intros [= <-].
    simpl str_take. rewrite str_app_cons. f_equal. by apply IH.
Qed.

Lemma Canonical_Parse tenant c s :
  ParseCanonical tenant c = Ok s ->
  Canonical s = c /\ Tenant s = tenant /\ Validate s = None.
Proof.
  unfold ParseCanonical. destruct (str_index _ _) as [i|] eqn:Hi; [|done].
  destruct (_ || _); [done|]. intros [-> Hv]%NewStreamID_Ok.
  split; [|done]. unfold Canonical. cbn [Type_ ID].
  symmetry. by apply str_index_split.
Qed.

Lemma Canonical_inj s1 s2 :
  Validate s1 = None -> Validate s2 = None ->
  Tenant s1 = Tenant s2 -> Canonical s1 = Canonical s2 -> s1 = s2.
Proof.
  intros H1 H2 Ht Hc. apply Parse_Canonical in H1, H2.
  rewrite Ht, Hc in H1. congruence.
Qed.

Lemma Canonical_free c s :
  is_slug_char c = false -> c <> canonicalSep -> Validate s = None ->
  str_free c (Canonical s) = true.
Proof.
  intros Hc Hne (_ & Hty & Hid)%Validate_None.
  unfold Canonical, str_free. rewrite str_forall_app. simpl.
  rewrite (slug_free _ _ Hc Hty : str_forall _ _ = true).
  rewrite (slug_free _ _ Hc Hid : str_forall _ _ = true).
  rewrite bool_decide_eq_false_2 by congruence. done.
Qed.

End StreamID.

#[export] Hint Resolve StreamID.Parse_Canonical : core.

(** ** Request contexts (context.Context values used by the framework)

    A context is the chain of [context.WithValue] frames, newest first. *)
Module Ctx.

Inductive key : Set := tenantCtxKey | stepPrefixKey | queueKey.
#[global] Instance key_eq_dec : EqDecision key.
Proof. solve_decision. Defined.

Definition t := list (key * string).

Definition WithValue (ctx : t) (k : key) (v : string) : t := (k, v) :: ctx.

Fixpoint Value (ctx : t) (k : key) : option string :=
  match ctx with
  | [] => None
  | (k', v) :: ctx' => if decide (k' = k) then Some v else Value ctx' k
  end.

(** es/tenant.go *)
Definition WithTenant (ctx : t) (tenantID : string) : t :=
  if decide (tenantID = EmptyString) then ctx
  else WithValue ctx tenantCtxKey tenantID.

Definition TenantFrom (ctx : t) : string * bool :=
  let v := default EmptyString (Value ctx tenantCtxKey) in
  (v, negb (bool_decide (v = EmptyString))).

Definition RequireTenant (ctx : t) : res string :=
  let '(t, ok) := TenantFrom ctx in
  if ok then Ok t else Err (ESent ErrTenantMissing).

End Ctx.

(** ** Actors (es/actor.go) *)
Module Actor.

Definition ActorUnspecified : Z := 0.
Definition ActorUser : Z := 1.
Definition ActorSystem : Z := 2.
Definition ActorService : Z := 3.
Definition ActorIntegration : Z := 4.

Definition kind_string (k : Z) : string :=
  if k =? ActorUser then "user"
  else if k =? ActorSystem then "system"
  else if k =? ActorService then "service"
  else if k =? ActorIntegration then "integration"
  else "unspecified".

Record t := mk {
  Kind : Z;
  Principal : string;
  OnBehalfOf : string;
  APIKeyID : string;
  Attributes : gmap string string
}.

Definition zero : t := mk ActorUnspecified EmptyString EmptyString EmptyString ∅.

#[global] Instance eq_dec : EqDecision t.
Proof. solve_decision. Defined.

End Actor.

(** ** Access levels (es/access.go) *)
Module Access.

Inductive level : Set :=
  | AccessLevelPublic
  | AccessLevelInternal
  | AccessLevelSubject
  | AccessLevelCompliance
  | AccessLevelOperator.

Definition rank (l : level) : nat :=
  match l with
  | AccessLevelPublic => 0
  | AccessLevelInternal => 1
  | AccessLevelSubject => 2
  | AccessLevelCompliance => 3
  | AccessLevelOperator => 4
  end.

Definition level_string (l : level) : string :=
  match l with
  | AccessLevelPublic => "public"
  | AccessLevelInternal => "internal"
  | AccessLevelSubject => "subject"
  | AccessLevelCompliance => "compliance"
  | AccessLevelOperator => "operator"
  end.

(** The proto enum es.v1.DataClassification; [Unrecognised] is a number
    outside the enum, e.g. from a newer schema. *)
Inductive DataClassification : Set :=
  | UNSPECIFIED | PUBLIC | INTERNAL | PERSONAL | QUASI_IDENTIFIER
  | SENSITIVE | FINANCIAL | CARDHOLDER | SAD | CREDENTIAL | UNSTRUCTURED
  | Unrecognised (n : Z).

Definition MinLevelFor (c : DataClassification) : level :=
  match c with
  | UNSPECIFIED | PUBLIC => AccessLevelPublic
  | INTERNAL => AccessLevelInternal
  | PERSONAL | QUASI_IDENTIFIER | UNSTRUCTURED => AccessLevelSubject
  | SENSITIVE | FINANCIAL | CARDHOLDER => AccessLevelCompliance
  | CREDENTIAL => AccessLevelOperator
  | SAD | Unrecognised _ => AccessLevelOperator
  end.

Definition ClassificationLabel (c : DataClassification) : string :=
  match c with
  | UNSPECIFIED => "UNSPECIFIED"
  | PUBLIC => "PUBLIC"
  | INTERNAL => "INTERNAL"
  | PERSONAL => "PERSONAL"
  | QUASI_IDENTIFIER => "QUASI_IDENTIFIER"
  | UNSTRUCTURED => "UNSTRUCTURED"
  | SENSITIVE => "SENSITIVE"
  | FINANCIAL => "FINANCIAL"
  | CARDHOLDER => "CARDHOLDER"
  | CREDENTIAL => "CREDENTIAL"
  | SAD | Unrecognised _ => "UNKNOWN"
  end.

End Access.

(** For every well-formed stream id, parsing the canonical storage form
    back in the stream's tenant returns the same stream id; and whatever
    ParseCanonical accepts is well-formed, lies in the requested tenant and
    has the parsed text as its canonical form.  So two well-formed ids of one
    tenant never share a storage key. *)
Theorem canonical_roundtrip (s : StreamID.t) (tenant c : string) :
  (StreamID.Validate s = None ->
     StreamID.ParseCanonical (StreamID.Tenant s) (StreamID.Canonical s) = Ok s) /\
  (forall s', StreamID.ParseCanonical tenant c = Ok s' ->
     StreamID.Canonical s' = c /\ StreamID.Tenant s' = tenant /\ StreamID.Validate s' = None).
Proof.
  split.
  - apply StreamID.Parse_Canonical.
  - intros s'. apply StreamID.Canonical_Parse.
Qed.

Lemma canonical_roundtrip_witness :
  StreamID.ParseCanonical "acme" "order:o-1" = Ok (StreamID.mk "acme" "order" "o-1").
Proof.
  destruct (canonical_roundtrip (StreamID.mk "acme" "order" "o-1") "acme" "order:o-1") as [H _].
  apply H. vm_compute. reflexivity.
Defined.
