(* ===== verification/Sharding.v ===== *)
(** * FNV-1a hashing, stream keys and shard ownership

    Models the stream-sticky sharding used by outbox.Drain
    (outbox/drain.go: quarantineKey, streamShard), projection.Runtime
    (projection/runtime.go: inShard) and state_stream.Drain
    (state_stream/drain.go: inShard), plus the 64-bit FNV-1a advisory-lock key
    of the Postgres adapter.  hash/fnv is modelled byte by byte at its width.

    [uint32(totalShards)] is 0, and the Go [%] panics, when [totalShards] is a
    multiple of 2^32; that configuration is outside the model and the theorems
    assume [TotalShards < 2^32]. *)
From S2P Require Import Prelude Errors Streams.

Module Fnv.
Definition byte_val (c : ascii) : Z := Z.of_nat (nat_of_ascii c).

(** One byte of hash/fnv's [New32a().Write]. *)
Definition step32 (h : Z) (c : ascii) : Z := u32 (Z.lxor h (byte_val c) * 16777619).

Fixpoint write32 (h : Z) (s : string) : Z :=
  match s with
  | EmptyString => h
  | String c s' => write32 (step32 h c) s'
  end.

Definition offset32 : Z := 2166136261.

(** [h := fnv.New32a(); h.Write([]byte(s)); h.Sum32()] *)
Definition sum32a (s : string) : Z := write32 offset32 s.

(** adapters/storage/postgres/adapter.go: fnv1aLockKey *)
Definition step64 (h : Z) (c : ascii) : Z := u64 (Z.lxor h (byte_val c) * 1099511628211).

Fixpoint write64 (h : Z) (s : string) : Z :=
  match s with
  | EmptyString => h
  | String c s' => write64 (step64 h c) s'
  end.

Definition fnv1aLockKey (s : string) : Z := i64 (write64 14695981039346656037 s).

Definition defaultLockKey : Z := fnv1aLockKey "github.com/laenenai/eventstore:append".

(** Writing in pieces is writing the concatenation. *)
Lemma write32_app h a b : write32 h (a +:+ b) = write32 (write32 h a) b.
Proof.
  revert h; induction a as [|c a IH]; intros h; [done|].
  rewrite str_app_cons. simpl. apply IH.
Qed.

Lemma write32_range s h : 0 <= h < 2 ^ 32 -> 0 <= write32 h s < 2 ^ 32.
Proof.
  revert h; induction s as [|c s IH]; intros h Hh; [done|].
  simpl. apply IH. apply u32_range.
Qed.

Lemma sum32a_range s : 0 <= sum32a s < 2 ^ 32.
Proof. apply write32_range. unfold offset32; lia. Qed.
End Fnv.

(** ** Outbox drain (outbox/drain.go) *)
Module OutboxShard.
Definition quarantineKey (tenantID streamID : string) : string :=
  tenantID +:+ String "|"%char streamID.

Definition streamShard (streamKey : string) (totalShards : Z) : Z :=
  Fnv.sum32a streamKey mod u32 totalShards.

(** The shard test at the top of runBatch's row loop. *)
Definition skipped (key : string) (Shard TotalShards : Z) : bool :=
  (0 <? TotalShards) && negb (streamShard key TotalShards =? Shard).
End OutboxShard.

(** ** Projection runtime (projection/runtime.go) *)
Module ProjectionShard.
Definition inShard (Shard TotalShards : Z) (tenantID : string) (sid : StreamID.t) : bool :=
  if TotalShards <=? 0 then true
  else
    let h := Fnv.write32 Fnv.offset32 tenantID in
    let h := Fnv.write32 h (String "|"%char EmptyString) in
    let h := Fnv.write32 h (StreamID.Canonical sid) in
    h mod u32 TotalShards =? Shard.
End ProjectionShard.

(** ** State-stream drain (state_stream/drain.go) *)
Module StateStreamShard.
Definition inShard (Shard TotalShards : Z) (tenantID streamID : string) : bool :=
  if TotalShards <=? 0 then true
  else
    let h := Fnv.write32 Fnv.offset32 tenantID in
    let h := Fnv.write32 h (String "|"%char EmptyString) in
    let h := Fnv.write32 h streamID in
    h mod u32 TotalShards =? Shard.
End StateStreamShard.

(** The configuration check shared by the three [validate] methods. *)
Definition sharding_valid (Shard TotalShards : Z) : bool :=
  negb ((TotalShards <? 0) || (Shard <? 0) || ((0 <? TotalShards) && (TotalShards <=? Shard))).

Lemma pieces_key tenantID streamID :
  Fnv.write32 (Fnv.write32 (Fnv.write32 Fnv.offset32 tenantID)
    (String "|"%char EmptyString)) streamID
  = Fnv.sum32a (OutboxShard.quarantineKey tenantID streamID).
Proof.
  unfold Fnv.sum32a, OutboxShard.quarantineKey.
  rewrite Fnv.write32_app. done.
Qed.

Lemma streamShard_range key n :
  0 < n < 2 ^ 32 -> 0 <= OutboxShard.streamShard key n < n.
Proof.
  intros Hn. unfold OutboxShard.streamShard. rewrite u32_small by lia.
  apply Z.mod_pos_bound. lia.
Qed.

Lemma quarantineKey_inj t1 t2 s1 s2 :
  StreamID.Validate s1 = None -> StreamID.Validate s2 = None ->
  OutboxShard.quarantineKey t1 (StreamID.Canonical s1) =
  OutboxShard.quarantineKey t2 (StreamID.Canonical s2) ->
  t1 = t2 /\ StreamID.Canonical s1 = StreamID.Canonical s2.
Proof.
  intros H1 H2. unfold OutboxShard.quarantineKey. apply str_sep_inj_r.
  - by apply StreamID.Canonical_free.
  - by apply StreamID.Canonical_free.
Qed.



(** The per-stream key of the drains is unambiguous: although tenant ids
    are arbitrary text (they may contain ['|']), two well-formed streams
    share a quarantine/halt key only if tenant and stream are the same. *)
Lemma quarantine_key_injective (s1 s2 : StreamID.t) :
  StreamID.Validate s1 = None -> StreamID.Validate s2 = None ->
  OutboxShard.quarantineKey (StreamID.Tenant s1) (StreamID.Canonical s1) =
  OutboxShard.quarantineKey (StreamID.Tenant s2) (StreamID.Canonical s2) ->
  s1 = s2.
Proof.
  intros H1 H2 H. apply quarantineKey_inj in H as [Ht Hc]; [|done|done].
  by apply StreamID.Canonical_inj.
Qed.
