(* ===== verification/Events.v ===== *)
(** * Event data model (es/envelope.go, es/command.go, es/decider.go,
    es/state_cache.go, es/state_envelope.go, es/outbox.go)

    Times are [Z] nanoseconds since the Unix epoch, in UTC (the code
    normalises with [.UTC()] at every boundary).  A UUID is the [Z] value of
    its 16 bytes, big endian; [uuid.Nil] is 0.  [[]byte] fields whose nil-ness
    the code inspects are [option bytes]. *)
From S2P Require Import Prelude Errors Streams.

Notation UUID := Z (only parsing).
Notation Time := Z (only parsing).
Notation Duration := Z (only parsing).

(** Go's zero [time.Time], 0001-01-01T00:00:00Z. *)
Definition zero_time : Time := -62135596800 * 1000000000.

(** ** Big-endian encoding (encoding/binary, uuid.UUID[:]) *)

Definition byte_of_Z (z : Z) : Byte.byte :=
  default Byte.x00 (Byte.of_N (Z.to_N (z mod 256))).

(** [n] bytes of [z], most significant first. *)
Fixpoint be_bytes (n : nat) (z : Z) : bytes :=
  match n with
  | O => []
  | S n' => be_bytes n' (z / 256) ++ [byte_of_Z z]
  end.

Definition Z_of_byte (b : Byte.byte) : Z := Z.of_N (Byte.to_N b).

Fixpoint be_value (acc : Z) (b : bytes) : Z :=
  match b with
  | [] => acc
  | x :: b' => be_value (acc * 256 + Z_of_byte x) b'
  end.

Lemma Z_of_byte_of_Z z : Z_of_byte (byte_of_Z z) = z mod 256.
Proof.
  unfold Z_of_byte, byte_of_Z.
  pose proof (Z.mod_pos_bound z 256 ltac:(lia)) as Hr.
  destruct (Byte.of_N (Z.to_N (z mod 256))) as [b|] eqn:Hb; simpl.
  - apply Byte.to_of_N in Hb. rewrite Hb. lia.
  - apply Byte.of_N_None_iff in Hb. lia.
Qed.

Lemma be_bytes_length n z : length (be_bytes n z) = n.
Proof.
  revert z; induction n as [|n IH]; intros z; simpl; [done|].
  rewrite length_app, IH. simpl. lia.
Qed.

Lemma be_value_app acc a b : be_value acc (a ++ b) = be_value (be_value acc a) b.
Proof. revert acc; induction a as [|x a IH]; intros acc; simpl; auto. Qed.

Lemma be_value_bytes n z :
  0 <= z < 256 ^ Z.of_nat n -> be_value 0 (be_bytes n z) = z.
Proof.
  revert z; induction n as [|n IH]; intros z Hz; simpl; [simpl in Hz; lia|].
  rewrite Nat2Z.inj_succ, Z.pow_succ_r in Hz by lia.
  rewrite be_value_app, IH.
  - simpl. rewrite Z_of_byte_of_Z. pose proof (Z.div_mod z 256). lia.
  - split; [apply Z.div_pos; lia|]. apply Z.div_lt_upper_bound; lia.
Qed.

Lemma be_bytes_inj n z z' :
  0 <= z < 256 ^ Z.of_nat n -> 0 <= z' < 256 ^ Z.of_nat n ->
  be_bytes n z = be_bytes n z' -> z = z'.
Proof.
  intros Hz Hz' H. rewrite <- (be_value_bytes n z), <- (be_value_bytes n z') by done.
  by rewrite H.
Qed.

(** ** Envelopes *)
Module Envelope.
Record t := mk {
  EventID : UUID;
  TenantID : string;
  StreamID : StreamID.t;
  Version : Z;
  GlobalPosition : Z;
  TypeURL : string;
  SchemaVersion : Z;
  OccurredAt : Time;
  RecordedAt : Time;
  CorrelationID : UUID;
  CausationID : UUID;
  CommandID : UUID;
  Actor : Actor.t;
  Payload : bytes;
  PayloadJSON : bytes;
  KeyRefs : bytes;
  Hash : bytes;
  PrevHash : bytes
}.

#[global] Instance eq_dec : EqDecision t.
Proof. solve_decision. Defined.

Definition zero : t :=
  mk 0 "" (StreamID.mk "" "" "") 0 0 "" 0 zero_time zero_time 0 0 0
     Actor.zero [] [] [] [] [].
End Envelope.

(** ** Append parameters and results (es/command.go) *)

(** ConstraintOpKind is an int; values other than 1 and 2 reach the adapters'
    default branch. *)
Definition ClaimConstraint : Z := 1.
Definition ReleaseConstraint : Z := 2.

Record ConstraintOp := mkConstraintOp {
  co_Op : Z;
  co_Scope : string;
  co_Value : string
}.

(** Payload: the marshalled message, which proto.Marshal never returns as a nil
    slice; [] is a message without fields.  A caller that passes nil, which the
    NOT NULL column refuses, is not represented. *)
Record EventToAppend := mkEventToAppend {
  ea_EventID : UUID;
  ea_TypeURL : string;
  ea_SchemaVersion : Z;
  ea_OccurredAt : Time;
  ea_CorrelationID : UUID;
  ea_CausationID : UUID;
  ea_CommandID : UUID;
  ea_Actor : Actor.t;
  ea_Payload : bytes;
  ea_PayloadJSON : bytes;
  ea_KeyRefs : bytes
}.

Record AppendParams := mkAppendParams {
  ap_StreamID : StreamID.t;
  ap_ExpectedVersion : Z;
  ap_Events : list EventToAppend;
  ap_Constraints : list ConstraintOp;
  ap_NewStateBytes : option bytes;
  ap_StateTypeURL : string;
  ap_StateSchemaVersion : Z;
  ap_Terminal : bool
}.

Record AppendResult := mkAppendResult {
  ar_StartVersion : Z;
  ar_EndVersion : Z;
  ar_StartGlobalPosition : Z;
  ar_EndGlobalPosition : Z;
  ar_RecordedAt : Time
}.

Definition zero_AppendResult : AppendResult := mkAppendResult 0 0 0 0 zero_time.

#[export] Instance AppendResult_eq_dec : EqDecision AppendResult.
Proof. solve_decision. Defined.

(** The envelope carries the event that was appended. *)
Definition carries (ev : EventToAppend) (e : Envelope.t) : Prop :=
  Envelope.EventID e = ea_EventID ev /\ Envelope.TypeURL e = ea_TypeURL ev /\
  Envelope.SchemaVersion e = ea_SchemaVersion ev /\ Envelope.OccurredAt e = ea_OccurredAt ev /\
  Envelope.CorrelationID e = ea_CorrelationID ev /\ Envelope.CausationID e = ea_CausationID ev /\
  Envelope.CommandID e = ea_CommandID ev /\ Envelope.Actor e = ea_Actor ev /\
  Envelope.Payload e = ea_Payload ev /\ Envelope.PayloadJSON e = ea_PayloadJSON ev /\
  Envelope.KeyRefs e = ea_KeyRefs ev.

(** ** Deterministic command ids (es/command.go: DeriveCommandID)

    [uuid.NewSHA1] is third-party code: a parameter. *)
Definition commandIDNamespace : UUID := 0x8c8b3f4e1c0a4c0e9fe71e7c4f50c2a1.

(** The buffer that is hashed. *)
Definition commandIDBuf (handlerName : string) (sourceEventID : UUID) (outputIndex : Z) : bytes :=
  bytes_of_str handlerName ++ [Byte.x00] ++ be_bytes 16 sourceEventID ++
  be_bytes 8 (u64 outputIndex).

Definition DeriveCommandID (NewSHA1 : UUID -> bytes -> UUID)
    (handlerName : string) (sourceEventID : UUID) (outputIndex : Z) : UUID :=
  NewSHA1 commandIDNamespace (commandIDBuf handlerName sourceEventID outputIndex).

(** ** Deciders (es/decider.go) *)
Record Decider (S C E : Type) := mkDecider {
  Initial : S;
  Decide : S -> C -> res (list E * list ConstraintOp);
  Evolve : S -> E -> S;
  IsTerminal : option (S -> bool)
}.
Arguments mkDecider {_ _ _} _ _ _ _.
Arguments Initial {_ _ _} _.
Arguments Decide {_ _ _} _ _ _.
Arguments Evolve {_ _ _} _ _ _.
Arguments IsTerminal {_ _ _} _.

(** ** State-cache rows, state envelopes, outbox rows *)

Record StateCacheRow := mkStateCacheRow {
  sc_TenantID : string;
  sc_StreamID : string;
  sc_TypeURL : string;
  sc_State : bytes;
  sc_Version : Z;
  sc_Terminal : bool;
  sc_StateSchemaVersion : Z;
  sc_UpdatedAt : Time
}.

Record StateEnvelope := mkStateEnvelope {
  se_TenantID : string;
  se_StreamID : string;
  se_TypeURL : string;
  se_Version : Z;
  se_StateSchemaVersion : Z;
  se_State : bytes;
  se_UpdatedAt : Time
}.

Record OutboxRow := mkOutboxRow {
  or_Envelope : Envelope.t;
  or_Attempts : Z
}.

Record StreamRef := mkStreamRef { sr_TenantID : string; sr_StreamID : string }.

Record DLQRow := mkDLQRow {
  dr_TenantID : string;
  dr_GlobalPosition : Z;
  dr_EventID : UUID;
  dr_StreamID : string;
  dr_TypeURL : string;
  dr_CorrelationID : UUID;
  dr_CausationID : UUID;
  dr_CommandID : UUID;
  dr_ActorPrincipal : string;
  dr_EnqueuedAt : Time;
  dr_Attempts : Z;
  dr_LastError : string;
  dr_NextAttemptAt : option Time
}.

(** The input hashed by DeriveCommandID determines its arguments: for
    16-byte source ids and output indexes in the int64 range, equal buffers
    come from the same handler name, source event and output index, whatever
    bytes the handler name contains. *)
Theorem command_id_input_injective h1 h2 (e1 e2 : UUID) (i1 i2 : Z) :
  0 <= e1 < 2 ^ 128 -> 0 <= e2 < 2 ^ 128 ->
  - 2 ^ 63 <= i1 < 2 ^ 63 -> - 2 ^ 63 <= i2 < 2 ^ 63 ->
  commandIDBuf h1 e1 i1 = commandIDBuf h2 e2 i2 ->
  h1 = h2 /\ e1 = e2 /\ i1 = i2.
Proof.
  intros He1 He2 Hi1 Hi2 H. unfold commandIDBuf in H.
  apply app_inj_2 in H as [Hh H]; [|by rewrite !length_app, !be_bytes_length].
  apply app_inj_1 in H as [_ H]; [|done].
  apply app_inj_1 in H as [He Hi]; [|by rewrite !be_bytes_length].
  split; [|split].
  - rewrite <- (str_of_bytes_of_str h1), <- (str_of_bytes_of_str h2). by rewrite Hh.
  - apply (be_bytes_inj 16); [| |done]; change (256 ^ Z.of_nat 16) with (2 ^ 128); lia.
  - pose proof (u64_range i1). pose proof (u64_range i2).
    apply (be_bytes_inj 8) in Hi; [|done|done].
    unfold wrap_u in Hi. clear -Hi Hi1 Hi2.
    pose proof (Z.div_mod i1 (2 ^ 64)). pose proof (Z.div_mod i2 (2 ^ 64)). lia.
Qed.

Lemma command_id_input_injective_witness :
  commandIDBuf "h" 7 (-1) = commandIDBuf "h" 7 (-1) /\ ("h" = "h" /\ 7 = 7 /\ -1 = -1).
Proof.
  split; [reflexivity|].
  apply (command_id_input_injective "h" "h" 7 7 (-1) (-1)); [lia|lia|lia|lia|reflexivity].
Defined.
