(* ===== verification/Clock.v ===== *)
(** * Clocks (es/clock.go)

    [ManualClock] with the channels it hands out.  A channel is a number;
    [closed] are the closed ones, and closing a channel twice panics. *)
From S2P Require Import Prelude Errors Events.

Module Clock.
(** The mutex is left out: an operation is one step. *)
Record ManualClock := mkManualClock {
  now : Time;
  waiters : list nat
}.

(** The channels of the process. *)
Record Channels := mkChannels {
  next : nat;
  closed : gset nat
}.

Notation CW := (ManualClock * Channels)%type.

Definition close (ch : nat) (c : Channels) : option Channels :=
  if decide (ch ∈ closed c) then None else Some (mkChannels (next c) ({[ch]} ∪ closed c)).

Definition NewManualClock (start : Time) : ManualClock := mkManualClock start [].

Definition Now (w : CW) : Time := now (fst w).

Fixpoint notifyWaiters (l : list nat) (c : Channels) : option Channels :=
  match l with
  | [] => Some c
  | ch :: l' => c' ← close ch c; notifyWaiters l' c'
  end.

Definition tick (t : Time) (w : CW) : option CW :=
  c ← notifyWaiters (waiters (fst w)) (snd w); Some (mkManualClock t [], c).

Definition Set_ (t : Time) (w : CW) : option CW := tick t w.
Definition Advance (d : Duration) (w : CW) : option CW := tick (now (fst w) + d) w.

Definition NotifyOnTick (w : CW) : CW * nat :=
  let ch := next (snd w) in
  ((mkManualClock (now (fst w)) (waiters (fst w) ++ [ch]), mkChannels (S ch) (closed (snd w))), ch).
End Clock.
Import Clock.

(** The channels of the waiters are open, known and distinct. *)
Definition clock_ok (w : CW) : Prop :=
  NoDup (waiters (fst w)) /\
  (forall ch, ch ∈ waiters (fst w) -> (ch < next (snd w))%nat /\ ch ∉ closed (snd w)) /\
  (forall ch, ch ∈ closed (snd w) -> (ch < next (snd w))%nat).

Lemma notifyWaiters_spec l : forall c, NoDup l -> (forall ch, ch ∈ l -> ch ∉ closed c) ->
  notifyWaiters l c = Some (mkChannels (next c) (list_to_set l ∪ closed c)).
Proof.
  induction l as [|ch l IH]; intros c Hnd Hop; simpl.
  - destruct c as [n cl]. simpl. by rewrite union_empty_l_L.
  - inversion Hnd as [|? ? Hni Hnd']; subst. unfold close. rewrite decide_False by (apply Hop; by left). simpl.
    rewrite IH; simpl; [|done|].
    + f_equal. f_equal. set_solver.
    + intros ch' Hin. specialize (Hop ch'). set_solver.
Qed.

Lemma tick_spec t w : clock_ok w ->
  tick t w = Some (mkManualClock t [], mkChannels (next (snd w)) (list_to_set (waiters (fst w)) ∪ closed (snd w))) /\
  clock_ok (mkManualClock t [], mkChannels (next (snd w)) (list_to_set (waiters (fst w)) ∪ closed (snd w))).
Proof.
  intros (Hnd & Hw & Hc). unfold tick. rewrite notifyWaiters_spec; [|done|intros ch Hin; by apply Hw]. split; [done|].
  split; [constructor|]. split; [intros ch []%elem_of_nil|]. simpl. intros ch [Hin%elem_of_list_to_set|Hin]%elem_of_union.
  - by apply Hw.
  - by apply Hc.
Qed.

(** A run of operations. *)
Inductive clock_op := OpSet (t : Time) | OpAdvance (d : Duration) | OpNotify.
#[export] Instance clock_op_eq_dec : EqDecision clock_op.
Proof. solve_decision. Defined.

Definition run_op (o : clock_op) (w : CW) : option CW :=
  match o with
  | OpSet t => Set_ t w
  | OpAdvance d => Advance d w
  | OpNotify => Some (fst (NotifyOnTick w))
  end.
Definition run_ops (ops : list clock_op) (w : CW) : option CW := foldl (fun m o => m ≫= run_op o) (Some w) ops.

(** What an operation does to the channels. *)
Definition op_effect (o : clock_op) (w w' : CW) : Prop :=
  clock_ok w' /\
  (forall ch, ch ∈ closed (snd w') <-> ch ∈ closed (snd w) \/ (o <> OpNotify /\ ch ∈ waiters (fst w))) /\
  (forall ch, ch ∈ waiters (fst w') <-> o = OpNotify /\ (ch ∈ waiters (fst w) \/ ch = next (snd w))).

Lemma tick_effect o t w : clock_ok w -> o <> OpNotify -> exists w', tick t w = Some w' /\ op_effect o w w'.
Proof.
  intros Hok Ho. destruct (tick_spec t w Hok) as [-> Hok']. eexists. split; [done|]. split; [exact Hok'|].
  simpl. split; set_solver.
Qed.

Lemma run_op_ok o w : clock_ok w -> exists w', run_op o w = Some w' /\ op_effect o w w'.
Proof.
  intros Hok. destruct o as [t|d|]; [by apply tick_effect..|].
  destruct Hok as (Hnd & Hw & Hc). eexists. split; [done|]. split; [split_and!|]; simpl.
  - apply NoDup_app. split_and!; [done| |apply NoDup_singleton]. intros ch Hin Heq%list_elem_of_singleton. subst ch.
    destruct (Hw _ Hin). lia.
  - intros ch [Hin|Heq%list_elem_of_singleton]%elem_of_app; [destruct (Hw _ Hin); split; [lia|done]|]. subst ch.
    split; [lia|]. intros Hin. apply Hc in Hin. lia.
  - intros ch Hin. apply Hc in Hin. lia.
  - split; intros ch; [set_solver|]. rewrite elem_of_app, list_elem_of_singleton. set_solver.
Qed.

(** No run of the clock panics, and the channel of NotifyOnTick is closed by the
    next Set or Advance and stays open until then. *)
Lemma manual_clock_ticks start n cl ops ops' w :
  run_ops ops (NewManualClock start, mkChannels n cl) = Some w -> (forall ch, ch ∈ cl -> (ch < n)%nat) ->
  exists w2, run_ops ops' (fst (NotifyOnTick w)) = Some w2 /\
    (snd (NotifyOnTick w) ∈ closed (snd w2) <-> Exists (fun o => o <> OpNotify) ops').
Proof.
  assert (Hruns : forall ops w w', clock_ok w -> run_ops ops w = Some w' -> clock_ok w').
  { induction ops0 as [|o ops0 IH]; intros v v' Hok; [by intros [= <-]|].
    destruct (run_op_ok o v Hok) as (v1 & H1 & Hok1 & _). unfold run_ops. simpl. rewrite H1. by apply IH. }
  intros Hrun Hcl. assert (Hok : clock_ok w).
  { eapply Hruns; [|exact Hrun]. split; [constructor|]. split; [intros ch []%elem_of_nil|done]. }
  destruct (run_op_ok OpNotify w Hok) as (w1 & Hw & Hok1 & Hcl1 & Hw1). injection Hw as Hw.
  change (snd (NotifyOnTick w)) with (next (snd w)). change (fst (NotifyOnTick w)) with
    ((mkManualClock (now (fst w)) (waiters (fst w) ++ [next (snd w)]), mkChannels (S (next (snd w))) (closed (snd w))) : CW).
  rewrite Hw. assert (Hin : next (snd w) ∈ waiters (fst w1)) by (apply Hw1; split; [done|by right]).
  assert (Hni : next (snd w) ∉ closed (snd w1)) by (intros [H|[H _]]%Hcl1; [apply Hok in H; lia|done]).
  clear -Hok1 Hin Hni. generalize dependent (next (snd w)). intros ch. revert w1 Hok1.
  induction ops' as [|o ops' IH]; intros w1 Hok Hin Hni.
  { exists w1. split; [done|]. split; [done|]. inversion 1. }
  destruct (run_op_ok o w1 Hok) as (w2 & H2 & Hok2 & Hcl2 & Hw2). unfold run_ops. simpl. rewrite H2.
  destruct (decide (o = OpNotify)) as [->|Hne].
  - destruct (IH w2 Hok2) as (w3 & H3 & Hiff); [apply Hw2; split; [done|by left]|by intros [?|[? _]]%Hcl2|].
    exists w3. split; [exact H3|]. rewrite Hiff. split; [by right|]. by inversion 1.
  - assert (Hc : ch ∈ closed (snd w2)) by (apply Hcl2; by right). clear IH Hin Hni Hcl2 Hw2 H2.
    assert (Hkeep : forall l v, clock_ok v -> ch ∈ closed (snd v) -> exists v', run_ops l v = Some v' /\ ch ∈ closed (snd v')).
    { induction l as [|o' l IHl]; intros v Hv Hcv; [by exists v|].
      destruct (run_op_ok o' v Hv) as (v1 & H1 & Hv1 & Hcl1 & _). unfold run_ops. simpl. rewrite H1.
      apply IHl; [done|]. apply Hcl1. by left. }
    destruct (Hkeep ops' w2 Hok2 Hc) as (w3 & H3 & Hc3). exists w3. split; [exact H3|]. split; [|done]. intros _. by left.
Qed.
