(* ===== verification/Codegen.v ===== *)
(** * The code generator: access views, clones and log values
    (cmd/protoc-gen-es-go/emit_access.go, emit_clone.go)

    protoc-gen-es-go prints Go methods from protobuf descriptors.  A descriptor
    is a record here, and an emitter is a function from descriptors to the
    statements it prints, as syntax ([Stmt], [LogStmt]): the same case
    distinctions as in the Go source, with one constructor per text template.
    What the printed statements do is given by [call] and [logv] on message
    values, which carry for every mutable part whether it is shared with the
    original ([Source]) or owned by the result ([Own]). *)
From S2P Require Import Prelude Errors Streams.
Import Access.

Module Codegen.

(** ** Descriptors (protogen) *)
Inductive Kind :=
  | BoolKind | EnumKind | Int32Kind | Sint32Kind | Uint32Kind | Int64Kind | Sint64Kind | Uint64Kind
  | Sfixed32Kind | Fixed32Kind | FloatKind | Sfixed64Kind | Fixed64Kind | DoubleKind
  | StringKind | BytesKind | MessageKind | GroupKind.

#[export] Instance Kind_eq_dec : EqDecision Kind.
Proof. solve_decision. Defined.

(** A message is named by its package and its full name. *)
Notation MsgName := (string * string)%type.

(** The message or the name of the enum it refers to. *)
Record Ty := mkTy { ty_kind : Kind; ty_message : option MsgName; ty_enum : string }.

(** [f_map] is the key kind and the value type of a map field. *)
Record Field := mkField {
  GoName : string;
  TextName : string;
  f_type : Ty;
  f_map : option (Kind * Ty);
  f_repeated : bool;
  HasOptionalKeyword : bool;
  f_oneof : option string;
  E_SubjectField : bool;
  E_Subject : string;
  E_DataClassification : DataClassification;
  E_StreamId : bool;
  E_TenantId : bool
}.

Record Oneof := mkOneof { o_GoName : string; o_Name : string; IsSynthetic : bool; o_Fields : list Field }.

(** The (es.v1.projection) option: a name and the full names of its events. *)
Record Projection := mkProjection { p_Name : string; p_Events : list string }.

#[local] Unset Elimination Schemes.
Inductive Message := mkMessage {
  m_name : MsgName;
  m_GoName : string;
  Fields : list Field;
  Oneofs : list Oneof;
  IsMapEntry : bool;
  E_SumType : string;
  E_Projection : option Projection;
  E_SchemaVersion : Z;
  E_Aggregate : string;
  Messages : list Message
}.
#[local] Set Elimination Schemes.

Record File := mkFile { f_Package : string; f_Path : string; f_Messages : list Message }.

(** ** Which messages get the methods *)
Definition isFrameworkPackage (file : File) : bool :=
  bool_decide (f_Package file = "es.v1") || bool_decide (f_Package file = "eventstore.envelope.v1").

Definition isWellKnownType (m : MsgName) : bool := bool_decide (fst m = "google.protobuf").

Definition shouldEmitAccessHelpers (m : Message) : bool :=
  if IsMapEntry m then false
  else if negb (bool_decide (E_SumType m = "")) then false
  else match E_Projection m with Some _ => false | None => true end.

Fixpoint walkEmittableMessage (m : Message) : list Message :=
  (if shouldEmitAccessHelpers m then [m] else []) ++
  (fix walk (ms : list Message) : list Message :=
     match ms with [] => [] | x :: ms' => walkEmittableMessage x ++ walk ms' end) (Messages m).

Definition walkEmittableMessages (msgs : list Message) : list Message :=
  concat (walkEmittableMessage <$> msgs).

(** The messages of a file for which generateFile prints the helpers. *)
Definition helpers (file : File) : list Message :=
  if isFrameworkPackage file then [] else walkEmittableMessages (f_Messages file).

(** All message types with helpers, by name. *)
Notation Env := (gmap MsgName Message).
Definition env_of (files : list File) : Env :=
  list_to_map ((fun m => (m_name m, m)) <$> concat (helpers <$> files)).

(** ** The printed statements *)

(** What is done with the value of a map entry. *)
Inductive ElemCopy := ElemShallow | ElemRecurse (t : MsgName) | ElemBytes.

(** How a field is copied; [None] is the assignment of a well-known message. *)
Inductive Copy :=
  | CopyMap (e : ElemCopy)
  | CopyMessages (t : option MsgName)
  | CopyBytesList
  | CopyScalars
  | CopyMessage (t : option MsgName)
  | CopyBytes
  | CopyScalar.

Inductive VariantCopy := VariantMessage (t : MsgName) | VariantBytes | VariantScalar.

(** [if level >= guard { ... }] around the copy of a field or the switch over a
    oneof; [None] is no guard. *)
Inductive Stmt :=
  | SCopy (guard : option level) (name : string) (c : Copy)
  | SSwitch (guard : option level) (name : string) (cases : list (string * VariantCopy)).

Record accessField := mkAccessField {
  af_field : Field;
  af_isSubject : bool;
  af_classification : DataClassification
}.

Definition in_oneof (f : Field) : bool :=
  match f_oneof f with Some _ => negb (HasOptionalKeyword f) | None => false end.

Definition extractAccessFields (m : Message) : list accessField :=
  (fun f => mkAccessField f (E_SubjectField f) (E_DataClassification f)) <$>
    List.filter (fun f => negb (in_oneof f)) (Fields m).

Definition levelConstName (c : DataClassification) : option level :=
  match c with
  | UNSPECIFIED | PUBLIC => None
  | INTERNAL => Some AccessLevelInternal
  | PERSONAL | QUASI_IDENTIFIER | UNSTRUCTURED => Some AccessLevelSubject
  | SENSITIVE | FINANCIAL | CARDHOLDER => Some AccessLevelCompliance
  | CREDENTIAL => Some AccessLevelOperator
  | SAD | Unrecognised _ => Some AccessLevelOperator
  end.

Definition oneof_rank (c : DataClassification) : nat :=
  match c with
  | UNSPECIFIED | PUBLIC => 0
  | INTERNAL => 1
  | PERSONAL | QUASI_IDENTIFIER | UNSTRUCTURED => 2
  | SENSITIVE | FINANCIAL | CARDHOLDER => 3
  | CREDENTIAL => 4
  | SAD | Unrecognised _ => 4
  end.

Definition highest_rank (fs : list Field) : nat :=
  foldl (fun h f => let r := oneof_rank (E_DataClassification f) in if (h <? r)%nat then r else h) 0%nat fs.

Definition strictestOneofLevel (oo : Oneof) : option level :=
  match highest_rank (o_Fields oo) with
  | 0%nat => None
  | 1%nat => Some AccessLevelInternal
  | 2%nat => Some AccessLevelSubject
  | 3%nat => Some AccessLevelCompliance
  | _ => Some AccessLevelOperator
  end.

Definition is_bytes (t : Ty) : bool := bool_decide (ty_kind t = BytesKind).

Definition unless_wkt (t : MsgName) : option MsgName := if isWellKnownType t then None else Some t.

Definition emitFieldCopyImpl (f : Field) : Copy :=
  match f_map f with
  | Some (_, v) =>
      CopyMap (match ty_message v with
               | Some t => if isWellKnownType t then ElemShallow else ElemRecurse t
               | None => if is_bytes v then ElemBytes else ElemShallow
               end)
  | None =>
      if f_repeated f then
        match ty_message (f_type f) with
        | Some t => CopyMessages (unless_wkt t)
        | None => if is_bytes (f_type f) then CopyBytesList else CopyScalars
        end
      else
        match ty_message (f_type f) with
        | Some t => CopyMessage (unless_wkt t)
        | None => if is_bytes (f_type f) then CopyBytes else CopyScalar
        end
  end.

Definition emitViewField (af : accessField) : Stmt :=
  let guard := if af_isSubject af then None else levelConstName (af_classification af) in
  SCopy guard (GoName (af_field af)) (emitFieldCopyImpl (af_field af)).

Definition emitVariant (f : Field) : string * VariantCopy :=
  (GoName f,
   match ty_message (f_type f) with
   | Some t => VariantMessage t
   | None => if is_bytes (f_type f) then VariantBytes else VariantScalar
   end).

Definition emitOneofView (oo : Oneof) : list (string * VariantCopy) := emitVariant <$> o_Fields oo.

Definition real_oneofs (m : Message) : list Oneof := List.filter (fun oo => negb (IsSynthetic oo)) (Oneofs m).

Definition emitViewMethod (m : Message) : list Stmt :=
  (emitViewField <$> extractAccessFields m) ++
  ((fun oo => SSwitch (strictestOneofLevel oo) (o_GoName oo) (emitOneofView oo)) <$> real_oneofs m).

(** *** Clone *)
Definition emitCloneField (af : accessField) : Stmt :=
  let f := af_field af in
  SCopy None (GoName f)
    match f_map f with
    | Some (_, v) =>
        CopyMap (match ty_message v with
                 | Some t => ElemRecurse t
                 | None => if is_bytes v then ElemBytes else ElemShallow
                 end)
    | None =>
        if f_repeated f then
          match ty_message (f_type f) with
          | Some t => CopyMessages (unless_wkt t)
          | None => if is_bytes (f_type f) then CopyBytesList else CopyScalars
          end
        else
          match ty_message (f_type f) with
          | Some t => CopyMessage (unless_wkt t)
          | None => if is_bytes (f_type f) then CopyBytes else CopyScalar
          end
    end.

Definition emitOneofClone (oo : Oneof) : list (string * VariantCopy) := emitVariant <$> o_Fields oo.

Definition emitCloneMethod (m : Message) : list Stmt :=
  (emitCloneField <$> extractAccessFields m) ++
  ((fun oo => SSwitch None (o_GoName oo) (emitOneofClone oo)) <$> real_oneofs m).

(** The message types whose method a statement calls. *)
Definition targets (s : Stmt) : list MsgName :=
  match s with
  | SCopy _ _ (CopyMap (ElemRecurse t)) | SCopy _ _ (CopyMessages (Some t))
  | SCopy _ _ (CopyMessage (Some t)) => [t]
  | SCopy _ _ _ => []
  | SSwitch _ _ cases => omap (fun c => match snd c with VariantMessage t => Some t | _ => None end) cases
  end.

(** The printed methods compile only if what they call was printed. *)
Definition compiles (env : Env) (method : Message -> list Stmt) : Prop :=
  forall t m s, env !! t = Some m -> s ∈ method m -> forall u, u ∈ targets s -> is_Some (env !! u).

(** ** Message values *)
Inductive origin := Source | Own.

Inductive scalar := SStr (s : string) | SNum (z : Z) | SBool (b : bool).

(** [VZero] is the zero value of any type: the nil message, slice, map, oneof or
    pointer, 0, "".  A message has a value for each of its plain fields and then
    for each of its oneofs, in the order of the descriptor.  [VOpt] is the
    pointer of an optional scalar, [VWkt] a well-known message. *)
#[local] Unset Elimination Schemes.
Inductive val :=
  | VZero
  | VScalar (s : scalar)
  | VOpt (o : origin) (s : scalar)
  | VBytes (o : origin) (b : bytes)
  | VWkt (o : origin) (b : bytes)
  | VMsg (o : origin) (vs : list val)
  | VList (o : origin) (l : list val)
  | VMap (o : origin) (l : list (scalar * val))
  | VOneof (o : origin) (variant : string) (v : val).
#[local] Set Elimination Schemes.

Section ValInd.
Context (P : val -> Prop).
Context (H0 : P VZero) (Hs : forall s, P (VScalar s)) (Ho : forall o s, P (VOpt o s))
  (Hb : forall o b, P (VBytes o b)) (Hw : forall o b, P (VWkt o b))
  (Hm : forall o vs, Forall P vs -> P (VMsg o vs)) (Hl : forall o l, Forall P l -> P (VList o l))
  (Hp : forall o l, Forall (fun kv => P (snd kv)) l -> P (VMap o l))
  (Hv : forall o n v, P v -> P (VOneof o n v)).

Fixpoint val_ind (v : val) : P v :=
  match v with
  | VZero => H0
  | VScalar s => Hs s
  | VOpt o s => Ho o s
  | VBytes o b => Hb o b
  | VWkt o b => Hw o b
  | VMsg o vs => Hm o vs ((fix go l : Forall P l := match l with
      | [] => List.Forall_nil _ | x :: l' => List.Forall_cons _ _ _ (val_ind x) (go l') end) vs)
  | VList o l => Hl o l ((fix go l : Forall P l := match l with
      | [] => List.Forall_nil _ | x :: l' => List.Forall_cons _ _ _ (val_ind x) (go l') end) l)
  | VMap o l => Hp o l ((fix go l : Forall (fun kv => P (snd kv)) l := match l with
      | [] => List.Forall_nil _ | x :: l' => List.Forall_cons _ _ _ (val_ind (snd x)) (go l') end) l)
  | VOneof o n x => Hv o n x (val_ind x)
  end.
End ValInd.

(** [map2] that recurses on its second list. *)
Section Zmap.
Context {A B C : Type} (f : A -> B -> C).
Fixpoint zmap (l : list A) (k : list B) {struct k} : list C :=
  match l, k with
  | a :: l', b :: k' => f a b :: zmap l' k'
  | _, _ => []
  end.
End Zmap.

(** [append([]byte(nil), b...)] is nil for an empty b. *)
Definition copy_bytes (v : val) : val :=
  match v with VBytes _ (b :: bs) => VBytes Own (b :: bs) | _ => VZero end.

Definition allowed (lvl : level) (guard : option level) : bool :=
  match guard with Some g => (rank g <=? rank lvl)%nat | None => true end.

(** ** What the printed statements do; [rec] is the method they call. *)
Section Exec.
Context (rec : MsgName -> val -> val).

Definition exec_elem (e : ElemCopy) (kv : scalar * val) : list (scalar * val) :=
  match e with
  | ElemShallow => [kv]
  | ElemRecurse t => [(fst kv, rec t (snd kv))]
  | ElemBytes =>
      (** [if v != nil { dst[k] = append([]byte(nil), v...) }] *)
      match snd kv with VBytes _ _ => [(fst kv, copy_bytes (snd kv))] | _ => [] end
  end.

Definition exec_copy (c : Copy) (v : val) : val :=
  match c with
  | CopyScalar => v
  | CopyBytes => copy_bytes v
  | CopyMessage None => v
  | CopyMessage (Some t) => rec t v
  | CopyScalars | CopyMessages None =>
      match v with VList _ (x :: l) => VList Own (x :: l) | _ => VZero end
  | CopyBytesList =>
      match v with VList _ (x :: l) => VList Own (copy_bytes <$> x :: l) | _ => VZero end
  | CopyMessages (Some t) =>
      match v with VList _ (x :: l) => VList Own (map (fun y => rec t y) (x :: l)) | _ => VZero end
  | CopyMap e =>
      match v with VMap _ (x :: l) => VMap Own (flat_map (fun kv => exec_elem e kv) (x :: l)) | _ => VZero end
  end.

Fixpoint variant_of (cases : list (string * VariantCopy)) (name : string) : option VariantCopy :=
  match cases with
  | [] => None
  | (n, c) :: cases' => if bool_decide (n = name) then Some c else variant_of cases' name
  end.

Definition exec_switch (cases : list (string * VariantCopy)) (v : val) : val :=
  match v with
  | VOneof _ name x =>
      match variant_of cases name with
      | None => VZero
      | Some (VariantMessage t) => VOneof Own name (rec t x)
      | Some VariantBytes => VOneof Own name (copy_bytes x)
      | Some VariantScalar => VOneof Own name x
      end
  | _ => VZero
  end.

Definition exec (lvl : level) (s : Stmt) (v : val) : val :=
  match s with
  | SCopy g _ c => if allowed lvl g then exec_copy c v else VZero
  | SSwitch g _ cases => if allowed lvl g then exec_switch cases v else VZero
  end.
End Exec.

(** The method of message type [t]; a type without one is no Go program. *)
Fixpoint call (env : Env) (method : Message -> list Stmt) (lvl : level) (t : MsgName) (v : val) {struct v} : val :=
  match v with
  | VMsg _ vs =>
      match env !! t with
      | Some m => VMsg Own (zmap (fun s x => exec (call env method lvl) lvl s x) (method m) vs)
      | None => VZero
      end
  | _ => VZero
  end.

(** ** LogValue *)

(** One line of the printed group; [LCount] and [LRedacted] carry the label of
    the marker. *)
Inductive LogStmt :=
  | LCount (marker : option string)
  | LRedacted (label : string)
  | LAny (t : option MsgName)
  | LEnum | LBool | LString | LLen | LFloat | LInt.

Definition classificationLabelFor (c : DataClassification) : string :=
  match c with
  | UNSPECIFIED => "UNSPECIFIED"
  | PUBLIC => "PUBLIC"
  | INTERNAL => "INTERNAL"
  | PERSONAL => "PERSONAL"
  | QUASI_IDENTIFIER => "QUASI_IDENTIFIER"
  | UNSTRUCTURED => "UNSTRUCTURED"
  | SENSITIVE => "SENSITIVE"
  | FINANCIAL => "FINANCIAL"
  | CARDHOLDER => "CARDHOLDER"
  | CREDENTIAL => "CREDENTIAL"
  | SAD | Unrecognised _ => "UNKNOWN"
  end.

Definition upto_internal (c : DataClassification) : bool :=
  match c with UNSPECIFIED | PUBLIC | INTERNAL => true | _ => false end.

Definition emitLogValueAttr (af : accessField) : string * LogStmt :=
  let f := af_field af in
  let visible := af_isSubject af || upto_internal (af_classification af) in
  let label := classificationLabelFor (af_classification af) in
  (TextName f,
   if (match f_map f with Some _ => true | None => false end) || f_repeated f then
     LCount (if visible then None else Some label)
   else if negb visible then LRedacted label
   else
     match ty_message (f_type f) with
     | Some t => LAny (unless_wkt t)
     | None =>
         match ty_kind (f_type f) with
         | EnumKind => LEnum
         | BoolKind => LBool
         | StringKind => LString
         | BytesKind => LLen
         | FloatKind | DoubleKind => LFloat
         | _ => LInt
         end
     end).

Definition oneofVisibleAtInternal (oo : Oneof) : bool :=
  forallb (fun f => upto_internal (E_DataClassification f)) (o_Fields oo).

(** The wrapper of a variant is no LogValuer. *)
Definition emitLogValueMethod (m : Message) : list (string * LogStmt) :=
  (emitLogValueAttr <$> extractAccessFields m) ++
  ((fun oo => (o_Name oo, if oneofVisibleAtInternal oo then LAny None else LRedacted "ONEOF")) <$> real_oneofs m).

(** What a handler gets: a value that is a LogValuer is resolved by slog, any
    other value of slog.Any reaches the handler as it is ([ARaw]). *)
#[local] Unset Elimination Schemes.
Inductive attr :=
  | AScalar (v : val)
  | ALen (n : nat)
  | ACount (n : nat) (marker : option string)
  | AMarker (label : string)
  | AGroup (attrs : list (string * attr))
  | ARaw (v : val).
#[local] Set Elimination Schemes.

Definition size_of (v : val) : nat :=
  match v with VBytes _ b => length b | VList _ l => length l | VMap _ l => length l | _ => 0 end.

Definition log_line (rec : MsgName -> val -> list (string * attr)) (s : string * LogStmt) (v : val)
    : string * attr :=
  (fst s,
   match snd s with
   | LCount marker => ACount (size_of v) marker
   | LRedacted label => AMarker label
   | LAny (Some t) => AGroup (rec t v)
   | LAny None => ARaw v
   | LLen => ALen (size_of v)
   | LEnum | LBool | LString | LFloat | LInt => AScalar v
   end).

Fixpoint LogValue (env : Env) (t : MsgName) (v : val) {struct v} : list (string * attr) :=
  match v with
  | VMsg _ vs =>
      match env !! t with
      | Some m => zmap (fun s x => log_line (LogValue env) s x) (emitLogValueMethod m) vs
      | None => []
      end
  | _ => []
  end.

(** ** The methods *)
Definition View (env : Env) : level -> MsgName -> val -> val := call env emitViewMethod.
Definition Clone (env : Env) : MsgName -> val -> val := call env emitCloneMethod AccessLevelPublic.
End Codegen.
