(* ===== verification/CodegenFacts.v ===== *)
(** * What the generated access methods do

    The policy is es/access.go: a field is visible at a level if its
    classification's MinLevelFor is at most that level or it is the subject
    field, a oneof if all its variants are.  [redact] applies that policy to a
    message value, nested messages included.  The generated View does exactly
    that, and Clone copies everything; neither shares memory with its argument,
    well-known messages and optional scalars apart.  LogValue shows what is
    visible at AccessLevelInternal, except for what is inside a oneof. *)
From S2P Require Import Prelude Errors Streams Codegen.
Import Access Codegen.

(** A plain field or a oneof, as the values of a message list them. *)
Inductive Slot := PlainSlot (f : Field) | OneofSlot (oo : Oneof).

Definition slots (m : Message) : list Slot :=
  (PlainSlot <$> List.filter (fun f => negb (in_oneof f)) (Fields m)) ++ (OneofSlot <$> real_oneofs m).

Definition class_visible (lvl : level) (c : DataClassification) : bool :=
  (rank (MinLevelFor c) <=? rank lvl)%nat.

Definition visible (lvl : level) (s : Slot) : bool :=
  match s with
  | PlainSlot f => E_SubjectField f || class_visible lvl (E_DataClassification f)
  | OneofSlot oo => forallb (fun f => class_visible lvl (E_DataClassification f)) (o_Fields oo)
  end.

(** The message type of the values in a slot, by variant for a oneof; [None] for
    scalars and well-known messages. *)
Definition message_in (T : Ty) : option MsgName :=
  match ty_message T with Some t => unless_wkt t | None => None end.

Definition type_in (s : Slot) (variant : string) : option MsgName :=
  match s with
  | PlainSlot f => message_in (match f_map f with Some (_, T) => T | None => f_type f end)
  | OneofSlot oo =>
      match list_find (fun f => GoName f = variant) (o_Fields oo) with
      | Some (_, f) => message_in (f_type f)
      | None => None
      end
  end.

Section Redact.
Context (env : Env) (vis : Slot -> bool) (hide : val -> val).

Fixpoint redact (ty : string -> option MsgName) (v : val) {struct v} : val :=
  match v with
  | VMsg o vs =>
      match ty "" with
      | Some t =>
          match env !! t with
          | Some m =>
              VMsg o (zmap (fun s x => if vis s then redact (type_in s) x else hide x) (slots m) vs)
          | None => v
          end
      | None => v
      end
  | VList o l => VList o (map (fun x => redact ty x) l)
  | VMap o l => VMap o (map (fun kv => (fst kv, redact ty (snd kv))) l)
  | VOneof o n x => VOneof o n (redact (fun _ => ty n) x)
  | _ => v
  end.
End Redact.

(** The content of a value: what goes on the wire, whoever owns it. *)
Fixpoint norm (v : val) : val :=
  match v with
  | VZero => VZero
  | VScalar s => VScalar s
  | VOpt _ s => VOpt Own s
  | VBytes _ [] => VZero
  | VBytes _ b => VBytes Own b
  | VWkt _ b => VWkt Own b
  | VMsg _ vs => VMsg Own (map norm vs)
  | VList _ [] => VZero
  | VList _ l => VList Own (map norm l)
  | VMap _ [] => VZero
  | VMap _ l => VMap Own (map (fun kv => (fst kv, norm (snd kv))) l)
  | VOneof _ n x => VOneof Own n (norm x)
  end.

(** Nothing mutable is shared with another value. *)
Fixpoint owned (v : val) : bool :=
  match v with
  | VZero | VScalar _ | VOpt _ _ | VWkt _ _ => true
  | VBytes Own _ => true
  | VMsg Own vs => forallb owned vs
  | VList Own l => forallb owned l
  | VMap Own l => forallb (fun kv => owned (snd kv)) l
  | VOneof Own _ x => owned x
  | _ => false
  end.

(** ** Typed values *)
Section Typing.
Context (env : Env).

Inductive wt : Ty -> val -> Prop :=
  | wt_zero T : wt T VZero
  | wt_scalar T x : ty_message T = None -> is_bytes T = false -> wt T (VScalar x)
  | wt_bytes T o b : ty_message T = None -> is_bytes T = true -> wt T (VBytes o b)
  | wt_wkt T t o b : ty_message T = Some t -> isWellKnownType t = true -> wt T (VWkt o b)
  | wt_msg T t m o vs :
      ty_message T = Some t -> isWellKnownType t = false -> env !! t = Some m ->
      Forall2 wt_slot (slots m) vs -> wt T (VMsg o vs)
with wt_slot : Slot -> val -> Prop :=
  | ws_zero s : wt_slot s VZero
  | ws_single f v :
      f_map f = None -> f_repeated f = false -> wt (f_type f) v -> wt_slot (PlainSlot f) v
  | ws_opt f o x :
      f_map f = None -> f_repeated f = false -> ty_message (f_type f) = None -> is_bytes (f_type f) = false ->
      wt_slot (PlainSlot f) (VOpt o x)
  | ws_list f o l :
      f_map f = None -> f_repeated f = true -> Forall (wt (f_type f)) l -> wt_slot (PlainSlot f) (VList o l)
  (** A nil slice is no value of a map of bytes. *)
  | ws_map f k T o l :
      f_map f = Some (k, T) -> Forall (fun kv => wt T (snd kv)) l ->
      (ty_message T = None -> is_bytes T = true -> Forall (fun kv => snd kv <> VZero) l) ->
      wt_slot (PlainSlot f) (VMap o l)
  | ws_oneof oo f o v :
      f ∈ o_Fields oo -> wt (f_type f) v -> wt_slot (OneofSlot oo) (VOneof o (GoName f) v).

(** No generated file is in google.protobuf; the variants of a oneof have
    different names. *)
Record sane : Prop := mkSane {
  sane_wkt : forall t, isWellKnownType t = true -> env !! t = None;
  sane_names : forall t m oo, env !! t = Some m -> oo ∈ real_oneofs m -> NoDup (GoName <$> o_Fields oo)
}.
End Typing.

(** ** Copies *)
Section Copies.
Context (env : Env) (Hsane : sane env) (method : Message -> list Stmt) (lvl : level)
  (vis : Slot -> bool) (stmt_of : Slot -> Stmt).

(** A statement copies its slot the way its type needs. *)
Definition copies (s : Slot) (st : Stmt) : Prop :=
  match s, st with
  | PlainSlot f, SCopy g _ c => allowed lvl g = vis s /\ c = emitFieldCopyImpl f
  | OneofSlot oo, SSwitch g _ cases =>
      allowed lvl g = vis s /\ cases = emitVariant <$> o_Fields oo /\
      forall f t, f ∈ o_Fields oo -> ty_message (f_type f) = Some t -> isWellKnownType t = false
  | _, _ => False
  end.

Context (Hmethod : forall t m, env !! t = Some m ->
  method m = stmt_of <$> slots m /\ Forall (fun s => copies s (stmt_of s)) (slots m)).

Notation rec := (call env method lvl).
Notation spec := (redact env vis (fun _ => VZero)).

(** The method of a message type is right on [v]. *)
Definition method_ok (v : val) : Prop := forall T t, wt env T v -> message_in T = Some t ->
  norm (rec t v) = norm (spec (fun _ => Some t) v) /\ owned (rec t v) = true.

Definition slot_ok (v : val) : Prop := forall s st, wt_slot env s v -> copies s st ->
  (exists t m, env !! t = Some m /\ s ∈ slots m) ->
  norm (exec rec lvl st v) = norm (if vis s then spec (type_in s) v else VZero) /\
  owned (exec rec lvl st v) = true.

Lemma message_in_Some T t : message_in T = Some t -> ty_message T = Some t /\ isWellKnownType t = false.
Proof using.
  unfold message_in, unless_wkt. destruct (ty_message T) as [u|]; [|done].
  destruct (isWellKnownType u) eqn:E; [done|]. by intros [= ->].
Qed.

Lemma message_in_None T : message_in T = None ->
  ty_message T = None \/ exists t, ty_message T = Some t /\ isWellKnownType t = true.
Proof using.
  unfold message_in, unless_wkt. destruct (ty_message T) as [u|]; [|by left].
  destruct (isWellKnownType u) eqn:E; [|done]. right. eauto.
Qed.

(** Values without a generated message inside are not changed. *)
Lemma redact_leaf T v ty : wt env T v -> message_in T = None -> spec ty v = v.
Proof using.
  intros Hw Hn. destruct Hw as [| | | |T t m o vs Ht Hk]; try done.
  unfold message_in, unless_wkt in Hn. by rewrite Ht, Hk in Hn.
Qed.

Lemma redact_leaves T l ty : Forall (wt env T) l -> message_in T = None -> map (fun x => spec ty x) l = l.
Proof using.
  intros Hl Hn. induction Hl as [|x l Hx Hl IH]; simpl; [done|]. by rewrite IH, (redact_leaf T).
Qed.

Lemma redact_leaf_pairs T (l : list (scalar * val)) ty : Forall (fun kv => wt env T (snd kv)) l ->
  message_in T = None -> map (fun kv => (fst kv, spec ty (snd kv))) l = l.
Proof using.
  intros Hl Hn. induction Hl as [|[k x] l Hx Hl IH]; simpl in *; [done|]. by rewrite IH, (redact_leaf T).
Qed.

Lemma leaf_owned T v : wt env T v -> message_in T = None -> is_bytes T = false -> owned v = true.
Proof using.
  intros Hw Hn Hb. destruct Hw as [| |T o b Hm Hb'| |T t m o vs Ht Hk]; try done; [congruence|].
  unfold message_in, unless_wkt in Hn. by rewrite Ht, Hk in Hn.
Qed.

(** A well-known type is a message, so its kind does not matter. *)
Lemma wkt_owned T v t : wt env T v -> ty_message T = Some t -> isWellKnownType t = true -> owned v = true.
Proof using.
  intros Hw Ht Hk. destruct Hw as [| | | |T u m o vs Hu Hk']; try done; [congruence|].
  rewrite Ht in Hu. injection Hu as <-. congruence.
Qed.

Lemma copy_bytes_ok v T : wt env T v -> ty_message T = None -> is_bytes T = true ->
  norm (copy_bytes v) = norm v /\ owned (copy_bytes v) = true.
Proof using.
  intros Hw Hm Hb. destruct Hw as [| |T o b| |]; try congruence; [done|]. by destruct b.
Qed.

Lemma redact_ext v : forall ty ty', (forall n, ty n = ty' n) -> spec ty v = spec ty' v.
Proof using.
  induction v as [| | | | |o vs IH|o l IH|o l IH|o n v IH] using val_ind; intros ty ty' E; simpl; try done.
  - by rewrite E.
  - f_equal. induction IH as [|x l Hx Hl IH]; simpl; [done|]. by rewrite IH, (Hx ty ty' E).
  - f_equal. induction IH as [|[k x] l Hx Hl IH]; simpl in *; [done|]. by rewrite IH, (Hx ty ty' E).
  - f_equal. apply IH. by intros _.
Qed.

Lemma single_ok f v : f_map f = None -> f_repeated f = false -> wt env (f_type f) v -> method_ok v ->
  norm (exec_copy rec (emitFieldCopyImpl f) v) = norm (spec (type_in (PlainSlot f)) v) /\
  owned (exec_copy rec (emitFieldCopyImpl f) v) = true.
Proof using.
  intros Hm Hr Hw Hok. unfold emitFieldCopyImpl. rewrite Hm, Hr.
  assert (Hty : forall n, type_in (PlainSlot f) n = message_in (f_type f)) by (intros n; simpl; by rewrite Hm).
  destruct (message_in (f_type f)) as [t|] eqn:Hin.
  - pose proof (message_in_Some _ _ Hin) as [Ht Hk]. rewrite Ht. unfold unless_wkt. rewrite Hk. simpl.
    rewrite (redact_ext v _ (fun _ => Some t)) by apply Hty. by eapply Hok.
  - rewrite (redact_leaf (f_type f)) by done.
    destruct (message_in_None _ Hin) as [Ht|(t & Ht & Hk)]; rewrite Ht.
    + destruct (is_bytes (f_type f)) eqn:Hb; simpl; [by eapply copy_bytes_ok|].
      split; [done|by eapply leaf_owned].
    + unfold unless_wkt. rewrite Hk. simpl. split; [done|by eapply wkt_owned].
Qed.

Lemma map_norm_ext (g h : val -> val) l : Forall (fun x => norm (g x) = norm (h x)) l ->
  map norm (map g l) = map norm (map h l).
Proof using. induction 1 as [|x l Hx Hl IH]; simpl; [done|]. by rewrite Hx, IH. Qed.

Lemma forallb_owned_map (g : val -> val) l : Forall (fun x => owned (g x) = true) l ->
  forallb owned (map g l) = true.
Proof using. induction 1 as [|x l Hx Hl IH]; simpl; [done|]. by rewrite Hx, IH. Qed.

Lemma forallb_owned_all l : Forall (fun x => owned x = true) l -> forallb owned l = true.
Proof using. induction 1 as [|x l Hx Hl IH]; simpl; [done|]. by rewrite Hx, IH. Qed.

Lemma list_ok f o l : f_map f = None -> f_repeated f = true -> Forall (wt env (f_type f)) l ->
  Forall method_ok l ->
  norm (exec_copy rec (emitFieldCopyImpl f) (VList o l)) = norm (spec (type_in (PlainSlot f)) (VList o l)) /\
  owned (exec_copy rec (emitFieldCopyImpl f) (VList o l)) = true.
Proof using.
  intros Hm Hr Hw Hok. unfold emitFieldCopyImpl. rewrite Hm, Hr.
  assert (Hty : forall n, type_in (PlainSlot f) n = message_in (f_type f)) by (intros n; simpl; by rewrite Hm).
  rewrite (redact_ext (VList o l) _ _ Hty). cbn [redact].
  destruct (message_in (f_type f)) as [t|] eqn:Hin.
  - pose proof (message_in_Some _ _ Hin) as [Ht Hk]. rewrite Ht. unfold unless_wkt. rewrite Hk.
    assert (Hall : Forall (fun x => norm (rec t x) = norm (spec (fun _ => Some t) x) /\ owned (rec t x) = true) l).
    { clear -Hw Hok Hin. induction Hw as [|x l Hx Hl IH]; [done|]. apply Forall_cons in Hok as [Hx' Hl'].
      apply Forall_cons. split; [by eapply Hx'|by apply IH]. }
    apply Forall_and in Hall as [Hn Hown].
    destruct l as [|x l]; [done|]. split.
    + cbn [exec_copy]. pose proof (map_norm_ext _ _ _ Hn) as E. cbn [map] in E |- *. cbn [norm]. by f_equal.
    + by apply (forallb_owned_map (rec t)).
  - rewrite (redact_leaves (f_type f)) by done. destruct l as [|x l].
    { destruct (ty_message _); simpl; [by destruct (unless_wkt _)|by destruct (is_bytes _)]. }
    destruct (message_in_None _ Hin) as [Ht|(t & Ht & Hk)]; rewrite Ht.
    + destruct (is_bytes (f_type f)) eqn:Hb.
      * assert (Hall : Forall (fun y => norm (copy_bytes y) = norm y /\ owned (copy_bytes y) = true) (x :: l)).
        { eapply Forall_impl; [exact Hw|]. intros y Hy. by eapply copy_bytes_ok. }
        apply Forall_and in Hall as [Hn Hown]. split.
        -- assert (E : map norm (map copy_bytes (x :: l)) = map norm (map (fun y => y) (x :: l)))
             by by apply map_norm_ext.
           rewrite map_id in E. cbn [map] in E. cbn. by f_equal.
        -- by apply (forallb_owned_map copy_bytes).
      * split; [done|]. apply (forallb_owned_all (x :: l)). eapply Forall_impl; [exact Hw|].
        intros y Hy. by eapply leaf_owned.
    + unfold unless_wkt. rewrite Hk. split; [done|]. apply (forallb_owned_all (x :: l)).
      eapply Forall_impl; [exact Hw|]. intros y Hy. by eapply wkt_owned.
Qed.

(** Entry by entry: one entry with the same key. *)
Lemma entries_ok (e : ElemCopy) (h : val -> val) (l : list (scalar * val)) :
  Forall (fun kv => exists x, exec_elem rec e kv = [(fst kv, x)] /\ norm x = norm (h (snd kv)) /\ owned x = true) l ->
  map (fun kv => (fst kv, norm (snd kv))) (flat_map (exec_elem rec e) l) =
    map (fun kv => (fst kv, norm (snd kv))) (map (fun kv => (fst kv, h (snd kv))) l) /\
  forallb (fun kv => owned (snd kv)) (flat_map (exec_elem rec e) l) = true /\
  (l <> [] -> flat_map (exec_elem rec e) l <> []).
Proof using.
  induction 1 as [|kv l (x & E & Hn & Ho) Hl (IH1 & IH2 & _)]; simpl; [done|]. rewrite E. simpl.
  by rewrite Hn, Ho, IH1, IH2.
Qed.

Lemma map_ok f k T o l : f_map f = Some (k, T) -> Forall (fun kv => wt env T (snd kv)) l ->
  (ty_message T = None -> is_bytes T = true -> Forall (fun kv => snd kv <> VZero) l) ->
  Forall (fun kv => method_ok (snd kv)) l ->
  norm (exec_copy rec (emitFieldCopyImpl f) (VMap o l)) = norm (spec (type_in (PlainSlot f)) (VMap o l)) /\
  owned (exec_copy rec (emitFieldCopyImpl f) (VMap o l)) = true.
Proof using.
  intros Hm Hw Hnil Hok. unfold emitFieldCopyImpl. rewrite Hm.
  assert (Hty : forall n, type_in (PlainSlot f) n = message_in T) by (intros n; simpl; by rewrite Hm).
  rewrite (redact_ext (VMap o l) _ _ Hty). cbn [redact].
  set (e := match ty_message T with Some t => _ | None => _ end).
  assert (Hall : Forall (fun kv => exists x, exec_elem rec e kv = [(fst kv, x)] /\
    norm x = norm (spec (fun _ => message_in T) (snd kv)) /\ owned x = true) l).
  { rewrite Forall_forall in Hw, Hok. apply Forall_forall. intros kv Hkv. specialize (Hw kv Hkv). specialize (Hok kv Hkv).
    destruct (message_in T) as [t|] eqn:Hin.
    - pose proof (message_in_Some _ _ Hin) as [Ht Hk]. subst e. rewrite Ht, Hk. simpl. eexists. split; [done|].
      by eapply Hok.
    - rewrite (redact_leaf T) by done. subst e. destruct (message_in_None _ Hin) as [Ht|(t & Ht & Hk)]; rewrite Ht.
      + destruct (is_bytes T) eqn:Hb.
        * specialize (Hnil Ht eq_refl). rewrite Forall_forall in Hnil. specialize (Hnil kv Hkv).
          simpl. destruct Hw as [| |T o' b| |]; try congruence. eexists. split; [done|].
          eapply copy_bytes_ok; [by apply wt_bytes|done|done].
        * simpl. destruct kv as [k' x]. exists x. split; [done|]. split; [done|]. by eapply leaf_owned.
      + rewrite Hk. simpl. destruct kv as [k' x]. exists x. split; [done|]. split; [done|]. by eapply wkt_owned. }
  destruct (entries_ok _ _ _ Hall) as (E1 & E2 & E3). destruct l as [|x l]; [done|].
  cbn [exec_copy]. change (flat_map (fun kv => exec_elem rec e kv) (x :: l)) with (flat_map (exec_elem rec e) (x :: l)).
  destruct (flat_map (exec_elem rec e) (x :: l)) as [|y l'] eqn:Ef; [by destruct E3|]. split; [|exact E2].
  cbn [norm map]. f_equal. exact E1.
Qed.

Lemma variant_of_found fs f : NoDup (GoName <$> fs) -> f ∈ fs ->
  variant_of (emitVariant <$> fs) (GoName f) = Some (snd (emitVariant f)) /\
  exists i, list_find (fun g => GoName g = GoName f) fs = Some (i, f).
Proof using.
  induction fs as [|g fs IH]; intros Hnd Hf; [by apply elem_of_nil in Hf|].
  rewrite fmap_cons in Hnd. apply NoDup_cons in Hnd as [Hg Hnd]. csimpl. simpl.
  apply elem_of_cons in Hf as [->|Hf].
  - rewrite bool_decide_eq_true_2 by done. split; [done|]. rewrite decide_True by done. eauto.
  - assert (GoName g <> GoName f) by (intros E; apply Hg; rewrite E; by apply list_elem_of_fmap_2).
    rewrite bool_decide_eq_false_2, decide_False by done. destruct (IH Hnd Hf) as [H1 [i H2]].
    split; [done|]. rewrite H2. simpl. eauto.
Qed.

Lemma oneof_ok oo f o v : NoDup (GoName <$> o_Fields oo) -> f ∈ o_Fields oo ->
  (forall f t, f ∈ o_Fields oo -> ty_message (f_type f) = Some t -> isWellKnownType t = false) ->
  wt env (f_type f) v -> method_ok v ->
  norm (exec_switch rec (emitVariant <$> o_Fields oo) (VOneof o (GoName f) v)) =
    norm (spec (type_in (OneofSlot oo)) (VOneof o (GoName f) v)) /\
  owned (exec_switch rec (emitVariant <$> o_Fields oo) (VOneof o (GoName f) v)) = true.
Proof using.
  intros Hnd Hf Hk Hw Hok. destruct (variant_of_found _ _ Hnd Hf) as [Hv [i Hi]].
  cbn [exec_switch redact]. rewrite Hv. cbn [emitVariant snd].
  rewrite (redact_ext v _ (fun _ => message_in (f_type f))) by (intros _; simpl; by rewrite Hi).
  destruct (message_in (f_type f)) as [t|] eqn:Hin.
  - pose proof (message_in_Some _ _ Hin) as [Ht _]. rewrite Ht. destruct (Hok _ _ Hw Hin) as [H1 H2].
    cbn [norm owned]. by rewrite H1.
  - rewrite (redact_leaf (f_type f)) by done. destruct (message_in_None _ Hin) as [Ht|(t & Ht & Hwk)].
    + rewrite Ht. destruct (is_bytes (f_type f)) eqn:Hb; cbn [norm owned].
      * destruct (copy_bytes_ok v (f_type f) Hw Ht Hb) as [H1 H2]. by rewrite H1.
      * split; [done|by eapply leaf_owned].
    + by rewrite (Hk f t Hf Ht) in Hwk.
Qed.

Lemma slots_oneof m oo : OneofSlot oo ∈ slots m -> oo ∈ real_oneofs m.
Proof using.
  unfold slots. rewrite elem_of_app, !list_elem_of_fmap. intros [(f & ? & _)|(x & E & H)]; [done|]. by injection E as ->.
Qed.

(** A slot is copied right when the messages in it are. *)
Lemma slot_from_parts v : method_ok v ->
  match v with
  | VList _ l => Forall method_ok l
  | VMap _ l => Forall (fun kv => method_ok (snd kv)) l
  | VOneof _ _ x => method_ok x
  | _ => True
  end -> slot_ok v.
Proof using Hsane.
  intros Hv Hparts s st Hw Hc (t & m & Hm & Hs).
  destruct s as [f|oo], st as [g n c|g n cases]; try done; simpl in Hc.
  - destruct Hc as [Hg ->]. unfold exec. rewrite Hg. destruct (vis (PlainSlot f)); [|done].
    inversion Hw; subst; try done.
    + unfold emitFieldCopyImpl. destruct (f_map f) as [[? T]|]; [done|].
      destruct (f_repeated f), (ty_message (f_type f)); simpl; try (by destruct (unless_wkt _)); by destruct (is_bytes _).
    + by apply single_ok.
    + unfold emitFieldCopyImpl. repeat match goal with H : _ = None |- _ => rewrite H | H : _ = false |- _ => rewrite H end. done.
    + by apply list_ok.
    + by eapply map_ok.
  - destruct Hc as (Hg & -> & Hk). unfold exec. rewrite Hg. destruct (vis (OneofSlot oo)); [|done].
    inversion Hw; subst; [done|]. apply oneof_ok; try done.
    eapply sane_names; [done|exact Hm|by apply slots_oneof].
Qed.

Lemma copies_ok v : method_ok v /\ slot_ok v.
Proof using Hsane Hmethod.
  assert (Htriv : forall v, (match v with VMsg _ _ => False | _ => True end) -> method_ok v).
  { intros v' Hv' T t Hw Hin. apply message_in_Some in Hin as [Ht Hk].
    destruct Hw as [| | |T u o b Hu Hk'|]; try done; try congruence. }
  induction v as [| | | | |o vs IH|o l IH|o l IH|o n v IH] using val_ind;
    try (split; [by apply Htriv|apply slot_from_parts; [by apply Htriv|done]]).
  - assert (Hm : method_ok (VMsg o vs)).
    { intros T t Hw Hin. pose proof (message_in_Some _ _ Hin) as [Ht Hk].
      inversion Hw as [| | | |T' u m o' vs' Hu _ Hm Hvs]; subst. rewrite Ht in Hu. injection Hu as <-.
      cbn [call redact]. rewrite Hm. destruct (Hmethod _ _ Hm) as [-> Hcs].
      assert (Hsl : forall s, s ∈ slots m -> exists t m, env !! t = Some m /\ s ∈ slots m) by eauto.
      cbn [norm owned]. revert Hsl Hvs Hcs IH. generalize (slots m) as ss. clear. intros ss Hsl Hvs.
      cut (Forall (fun s => copies s (stmt_of s)) ss -> Forall (fun v => method_ok v /\ slot_ok v) vs ->
        map norm (zmap (fun s x => exec rec lvl s x) (stmt_of <$> ss) vs) =
          map norm (zmap (fun s x => if vis s then spec (type_in s) x else VZero) ss vs) /\
        forallb owned (zmap (fun s x => exec rec lvl s x) (stmt_of <$> ss) vs) = true).
      { intros H Hcs IH. destruct (H Hcs IH) as [H1 H2]. by rewrite H1. }
      induction Hvs as [|s x ss vs Hx Hvs IHv]; [done|]. intros [Hc Hcs]%Forall_cons [[_ Hso] IH]%Forall_cons.
      destruct (Hso s (stmt_of s) Hx Hc) as [E1 E2]; [apply Hsl, list_elem_of_here|].
      destruct IHv as [E3 E4]; [intros; by apply Hsl, list_elem_of_further|done|done|].
      csimpl. cbn [zmap map forallb]. by rewrite E1, E2, E3, E4. }
    split; [done|]. by apply slot_from_parts.
  - split; [by apply Htriv|]. apply slot_from_parts; [by apply Htriv|].
    eapply Forall_impl; [exact IH|]. by intros x [? _].
  - split; [by apply Htriv|]. apply slot_from_parts; [by apply Htriv|].
    eapply Forall_impl; [exact IH|]. by intros x [? _].
  - split; [by apply Htriv|]. apply slot_from_parts; [by apply Htriv|]. apply IH.
Qed.
End Copies.

(** ** The guards are the policy *)

Lemma levelConst_visible lvl c : allowed lvl (levelConstName c) = class_visible lvl c.
Proof. by destruct c, lvl. Qed.

Lemma oneof_rank_level c : oneof_rank c = rank (MinLevelFor c).
Proof. by destruct c. Qed.

Lemma highest_rank_from fs h n :
  (foldl (fun h f => let r := oneof_rank (E_DataClassification f) in if (h <? r)%nat then r else h) h fs <=? n)%nat =
  (h <=? n)%nat && forallb (fun f => (oneof_rank (E_DataClassification f) <=? n)%nat) fs.
Proof.
  revert h. induction fs as [|f fs IH]; intros h; simpl; [by rewrite andb_true_r|]. rewrite IH, andb_assoc.
  f_equal. destruct (Nat.ltb_spec h (oneof_rank (E_DataClassification f))) as [H|H];
    destruct (Nat.leb_spec (oneof_rank (E_DataClassification f)) n), (Nat.leb_spec h n); simpl; lia.
Qed.

Lemma highest_rank_le fs : (highest_rank fs <= 4)%nat.
Proof.
  apply Nat.leb_le. unfold highest_rank. rewrite highest_rank_from. simpl. apply forallb_forall.
  intros f _. by destruct (E_DataClassification f).
Qed.

Lemma strictest_visible lvl oo : allowed lvl (strictestOneofLevel oo) = visible lvl (OneofSlot oo).
Proof.
  transitivity (highest_rank (o_Fields oo) <=? rank lvl)%nat.
  - unfold strictestOneofLevel. pose proof (highest_rank_le (o_Fields oo)).
    destruct (highest_rank (o_Fields oo)) as [|[|[|[|[|n]]]]]; try (by destruct lvl). lia.
  - unfold highest_rank. rewrite highest_rank_from. simpl. apply eq_true_iff_eq. rewrite !forallb_forall.
    unfold class_visible. by setoid_rewrite oneof_rank_level.
Qed.

(** ** The statements of the two methods, slot by slot *)
Definition plain (f : Field) : accessField := mkAccessField f (E_SubjectField f) (E_DataClassification f).

Definition view_stmt (s : Slot) : Stmt :=
  match s with
  | PlainSlot f => emitViewField (plain f)
  | OneofSlot oo => SSwitch (strictestOneofLevel oo) (o_GoName oo) (emitOneofView oo)
  end.

Definition clone_stmt (s : Slot) : Stmt :=
  match s with
  | PlainSlot f => emitCloneField (plain f)
  | OneofSlot oo => SSwitch None (o_GoName oo) (emitOneofClone oo)
  end.

Lemma view_stmts m : emitViewMethod m = view_stmt <$> slots m.
Proof. unfold emitViewMethod, slots, extractAccessFields. by rewrite fmap_app, <- !list_fmap_compose. Qed.

Lemma clone_stmts m : emitCloneMethod m = clone_stmt <$> slots m.
Proof. unfold emitCloneMethod, slots, extractAccessFields. by rewrite fmap_app, <- !list_fmap_compose. Qed.

Section Methods.
Context (env : Env) (Hsane : sane env).

Lemma in_env t : is_Some (env !! t) -> isWellKnownType t = false.
Proof using Hsane.
  intros [m Hm]. destruct (isWellKnownType t) eqn:E; [|done]. by rewrite (sane_wkt env Hsane t E) in Hm.
Qed.

Lemma variants_compile (fs : list Field) :
  (forall u, u ∈ targets (SSwitch None "" (emitVariant <$> fs)) -> is_Some (env !! u)) ->
  forall f t, f ∈ fs -> ty_message (f_type f) = Some t -> isWellKnownType t = false.
Proof using Hsane.
  intros H f t Hf Ht. apply in_env, H. cbn [targets]. apply list_elem_of_omap. exists (emitVariant f).
  split; [by apply list_elem_of_fmap_2|]. unfold emitVariant. by rewrite Ht.
Qed.

Lemma view_copies lvl : compiles env emitViewMethod -> forall t m, env !! t = Some m ->
  emitViewMethod m = view_stmt <$> slots m /\
  Forall (fun s => copies lvl (visible lvl) s (view_stmt s)) (slots m).
Proof using Hsane.
  intros Hc t m Hm. split; [apply view_stmts|]. apply Forall_forall. intros s Hs.
  specialize (Hc t m (view_stmt s) Hm). rewrite view_stmts in Hc.
  specialize (Hc (list_elem_of_fmap_2 _ _ _ Hs)). destruct s as [f|oo]; simpl.
  - split; [|done]. destruct (E_SubjectField f); [done|]. apply levelConst_visible.
  - split; [apply strictest_visible|]. split; [done|]. by apply variants_compile.
Qed.

Lemma clone_copies lvl : compiles env emitCloneMethod -> forall t m, env !! t = Some m ->
  emitCloneMethod m = clone_stmt <$> slots m /\
  Forall (fun s => copies lvl (fun _ => true) s (clone_stmt s)) (slots m).
Proof using Hsane.
  intros Hc t m Hm. split; [apply clone_stmts|]. apply Forall_forall. intros s Hs.
  specialize (Hc t m (clone_stmt s) Hm). rewrite clone_stmts in Hc.
  specialize (Hc (list_elem_of_fmap_2 _ _ _ Hs)). destruct s as [f|oo]; simpl.
  - split; [done|]. unfold emitFieldCopyImpl. simpl in Hc. destruct (f_map f) as [[k T]|]; [|done].
    destruct (ty_message T) as [u|]; [|done]. by rewrite (in_env u) by (apply Hc, list_elem_of_here).
  - split; [done|]. split; [done|]. by apply variants_compile.
Qed.

(** With everything visible, nothing is changed. *)
Lemma redact_all v hide :
  (forall T ty, wt env T v -> ty "" = message_in T -> redact env (fun _ => true) hide ty v = v) /\
  (forall t m s, env !! t = Some m -> s ∈ slots m -> wt_slot env s v ->
     redact env (fun _ => true) hide (type_in s) v = v).
Proof using Hsane.
  induction v as [| | | | |o vs IH|o l IH|o l IH|o n v IH] using val_ind; try done.
  - assert (Hm : forall T ty, wt env T (VMsg o vs) -> ty "" = message_in T ->
      redact env (fun _ => true) hide ty (VMsg o vs) = VMsg o vs).
    { intros T ty Hw Ht. inversion Hw as [| | | |T' u m o' vs' Hu Hk Hm Hvs]; subst. cbn [redact].
      rewrite Ht. unfold message_in, unless_wkt. rewrite Hu, Hk, Hm. f_equal.
      assert (Hsl : forall s, s ∈ slots m -> exists t m, env !! t = Some m /\ s ∈ slots m) by eauto.
      revert Hsl Hvs IH. generalize (slots m) as ss. clear. intros ss Hsl Hvs.
      induction Hvs as [|s x ss vs Hx Hvs IHv]; [done|]. intros [[_ Hs] IH]%Forall_cons. cbn [zmap]. f_equal.
      - destruct (Hsl s) as (t & m & Hm & Hin); [apply list_elem_of_here|]. by eapply Hs.
      - apply IHv; [|done]. intros. by apply Hsl, list_elem_of_further. }
    split; [done|]. intros t m s _ _ Hw. inversion Hw as [|f v Hfm Hr Hwt|f o' x|f o' l|f k T o' l|oo f o' v]; subst.
    apply (Hm (f_type f)); [done|]. simpl. by rewrite Hfm.
  - split; [intros T ty Hw; by inversion Hw|]. intros t m s _ _ Hw.
    inversion Hw as [|f v Hfm Hr Hwt|f o' x|f o' l' Hfm Hr Hl|f k T o' l'|oo f o' v]; subst; [by inversion Hwt|].
    cbn [redact]. f_equal. clear Hw. induction Hl as [|x l Hx Hl IHl]; [done|]. apply Forall_cons in IH as [[Hx' _] IH].
    cbn [map]. f_equal; [|by apply IHl]. eapply Hx'; [exact Hx|]. simpl. by rewrite Hfm.
  - split; [intros T ty Hw; by inversion Hw|]. intros t m s _ _ Hw.
    inversion Hw as [|f v Hfm Hr Hwt|f o' x|f o' l'|f k T o' l' Hfm Hl Hn|oo f o' v]; subst; [by inversion Hwt|].
    cbn [redact]. f_equal. clear Hw Hn. induction Hl as [|[y x] l Hx Hl IHl]; [done|].
    apply Forall_cons in IH as [[Hx' _] IH]. cbn [map fst snd] in *. f_equal; [|by apply IHl]. f_equal.
    eapply Hx'; [exact Hx|]. simpl. by rewrite Hfm.
  - split; [intros T ty Hw; by inversion Hw|]. intros t m s Hm Hs Hw.
    inversion Hw as [|f v' Hfm Hr Hwt|f o' x|f o' l'|f k T o' l'|oo f o' v' Hf Hwt]; subst; [by inversion Hwt|].
    cbn [redact]. f_equal. destruct IH as [IH _]. eapply IH; [exact Hwt|]. simpl.
    apply slots_oneof in Hs. destruct (variant_of_found _ _ (sane_names _ Hsane _ _ _ Hm Hs) Hf) as [_ [i Hi]].
    by rewrite Hi.
Qed.
End Methods.

(** ** LogValue *)

(** What the log may show of a hidden field: the size of a collection. *)
Definition shrink (v : val) : val :=
  match v with
  | VList o l => VList o (map (fun _ => VZero) l)
  | VMap o l => VMap o (map (fun _ => (SBool false, VZero)) l)
  | _ => VZero
  end.

Definition log_stmt (s : Slot) : string * LogStmt :=
  match s with
  | PlainSlot f => emitLogValueAttr (plain f)
  | OneofSlot oo => (o_Name oo, if oneofVisibleAtInternal oo then LAny None else LRedacted "ONEOF")
  end.

Lemma log_stmts m : emitLogValueMethod m = log_stmt <$> slots m.
Proof. unfold emitLogValueMethod, slots, extractAccessFields. by rewrite fmap_app, <- !list_fmap_compose. Qed.

Lemma upto_internal_visible c : upto_internal c = class_visible AccessLevelInternal c.
Proof. by destruct c. Qed.

(** Oneofs that are logged have no message variants. *)
Definition plain_oneofs (env : Env) : Prop := forall t m oo f, env !! t = Some m -> oo ∈ real_oneofs m ->
  visible AccessLevelInternal (OneofSlot oo) = true -> f ∈ o_Fields oo -> ty_message (f_type f) = None.

Section Log.
Context (env : Env) (Hsane : sane env) (Hplain : plain_oneofs env).
Notation shadow := (redact env (visible AccessLevelInternal) shrink).

Definition log_ok (v : val) : Prop := forall T t, wt env T v -> message_in T = Some t ->
  LogValue env t v = LogValue env t (shadow (fun _ => Some t) v).

Lemma size_redact vis hide ty v : size_of (redact env vis hide ty v) = size_of v.
Proof using.
  destruct v; simpl; rewrite ?length_map; try done. destruct (ty ""); [|done]. by destruct (env !! _).
Qed.

Lemma shadow_leaf T v ty : wt env T v -> message_in T = None -> shadow ty v = v.
Proof using.
  intros Hw Hn. destruct Hw as [| | | |T t m o vs Ht Hk]; try done.
  unfold message_in, unless_wkt in Hn. by rewrite Ht, Hk in Hn.
Qed.

Lemma shadow_message T t v ty : wt env T v -> message_in T = Some t -> ty "" = Some t ->
  shadow ty v = shadow (fun _ => Some t) v.
Proof using.
  intros Hw Ht Hty. apply message_in_Some in Ht as [Ht Hk].
  destruct Hw; try done. cbn [redact]. by rewrite Hty.
Qed.

Lemma log_slot v t m s : log_ok v -> env !! t = Some m -> s ∈ slots m -> wt_slot env s v ->
  log_line (LogValue env) (log_stmt s) v =
  log_line (LogValue env) (log_stmt s)
    (if visible AccessLevelInternal s then shadow (type_in s) v else shrink v).
Proof using Hplain.
  intros Hok Hm Hs Hw. destruct s as [f|oo].
  - assert (Hv : visible AccessLevelInternal (PlainSlot f) =
      af_isSubject (plain f) || upto_internal (af_classification (plain f)))
      by (simpl; by rewrite upto_internal_visible).
    unfold log_stmt, emitLogValueAttr. rewrite <- Hv. unfold log_line. cbn [fst snd]. f_equal.
    destruct ((match f_map f with Some _ => true | None => false end) || f_repeated f) eqn:Hc.
    { cbn [af_field plain]. rewrite Hc. f_equal. destruct (visible _ _); [by rewrite size_redact|].
      inversion Hw as [|f' v' Hfm Hr Hwt|f' o' x Hfm Hr|f' o' l'|f' k T o' l'|]; subst; simpl; rewrite ?length_map; try done.
      by rewrite Hfm, Hr in Hc. }
    cbn [af_field plain]. rewrite Hc. apply orb_false_iff in Hc as [Hc1 Hc2].
    destruct (f_map f) eqn:Hfm; [done|]. destruct (visible _ _); [|done]. simpl.
    destruct (message_in (f_type f)) as [u|] eqn:Hin.
    + pose proof (message_in_Some _ _ Hin) as [Hu Hk]. rewrite Hu. unfold unless_wkt. rewrite Hk.
      inversion Hw as [|f' v' ? Hr Hwt|f' o' x ? ? Hu'|f' o' l' ? Hr|f' k T o' l' ?|]; subst; try congruence; [done|].
      f_equal. rewrite (shadow_message (f_type f) u) by (try done; simpl; by rewrite Hfm). by eapply Hok.
    + assert (shadow (type_in (PlainSlot f)) v = v) as ->; [|done].
      inversion Hw as [|f' v' ? Hr Hwt|f' o' x ? ? Hu'|f' o' l' ? Hr|f' k T o' l' ?|]; subst; try done; try congruence.
      by apply (shadow_leaf (f_type f)).
  - assert (Hv : visible AccessLevelInternal (OneofSlot oo) = oneofVisibleAtInternal oo).
    { simpl. unfold oneofVisibleAtInternal. apply eq_true_iff_eq. rewrite !forallb_forall.
      by setoid_rewrite upto_internal_visible. }
    unfold log_stmt, log_line. cbn [fst snd]. rewrite <- Hv. f_equal.
    destruct (visible AccessLevelInternal (OneofSlot oo)) eqn:Hvis; [|done]. f_equal.
    inversion Hw as [|f' v' Hfm Hr Hwt|f' o' x|f' o' l'|f' k T o' l'|oo' f o' v' Hf Hwt]; subst; [done|]. cbn [redact].
    f_equal. symmetry. apply (shadow_leaf (f_type f)); [done|]. unfold message_in.
    by rewrite (Hplain t m oo f Hm (slots_oneof _ _ Hs) Hvis Hf).
Qed.

Lemma log_ok_all v : log_ok v.
Proof using Hplain.
  induction v as [| | | | |o vs IH|o l IH|o l IH|o n v IH] using val_ind; intros T t Hw Hin; try done.
  pose proof (message_in_Some _ _ Hin) as [Ht Hk].
  inversion Hw as [| | | |T' u m o' vs' Hu _ Hm Hvs]; subst. rewrite Ht in Hu. injection Hu as <-.
  cbn [redact]. rewrite Hm. cbn [LogValue]. rewrite Hm, log_stmts.
  assert (Hsl : Forall (fun s => s ∈ slots m) (slots m)) by by apply Forall_forall. clear Hw.
  revert Hsl Hvs IH. generalize (slots m) at 2 3 4 5 6 as ss. intros ss Hsl Hvs. revert Hsl.
  induction Hvs as [|s x ss vs' Hx Hvs IHv]; [done|]. intros [Hs Hsl]%Forall_cons [Hok IH]%Forall_cons.
  csimpl. cbn [zmap]. f_equal; [by eapply log_slot|by apply IHv].
Qed.
End Log.

(** ** Checks that can be run *)
Definition sane_b (env : Env) : bool :=
  forallb (fun tm => negb (isWellKnownType (fst tm)) &&
    forallb (fun oo => bool_decide (NoDup (GoName <$> o_Fields oo))) (real_oneofs (snd tm))) (map_to_list env).

Definition compiles_b (env : Env) (method : Message -> list Stmt) : bool :=
  forallb (fun tm => forallb (fun s => forallb (fun u => bool_decide (is_Some (env !! u))) (targets s))
    (method (snd tm))) (map_to_list env).

Lemma forallb_env (env : Env) (p : MsgName * Message -> bool) :
  forallb p (map_to_list env) = true -> forall t m, env !! t = Some m -> p (t, m) = true.
Proof.
  rewrite forallb_forall. intros H t m Hm. apply H, list_elem_of_In. by apply elem_of_map_to_list.
Qed.

Lemma sane_check env : sane_b env = true -> sane env.
Proof.
  intros H. split.
  - intros t Ht. destruct (env !! t) as [m|] eqn:Hm; [|done].
    apply (forallb_env env _ H) in Hm. simpl in Hm. by rewrite Ht in Hm.
  - intros t m oo Hm Hoo. apply (forallb_env env _ H) in Hm. simpl in Hm. apply andb_true_iff in Hm as [_ Hm].
    rewrite forallb_forall in Hm. apply (bool_decide_eq_true_1 _), Hm. by apply list_elem_of_In.
Qed.

Lemma compiles_check env method : compiles_b env method = true -> compiles env method.
Proof.
  intros H t m s Hm Hs u Hu. apply (forallb_env env _ H) in Hm. simpl in Hm. rewrite forallb_forall in Hm.
  specialize (Hm s (proj1 (list_elem_of_In _ _) Hs)). rewrite forallb_forall in Hm.
  apply (bool_decide_eq_true_1 _), Hm. by apply list_elem_of_In.
Qed.

(** ** Theorems *)

(** C25: the generated access methods.  Let the generated View and Clone methods
    compile ([compiles]; a well-known message in a oneof does not) and let a
    message value have its type, with no nil slice as the value of a map of
    bytes ([wt]; see [nil_map_value_dropped]).  Values are compared up to
    [norm]: a list, map or byte string that is empty equals a nil one, as on the
    wire.  At every level, View returns exactly the
    fields that MinLevelFor makes visible there, the subject field and, through
    nested messages, lists, maps and oneofs, what is visible inside of them;
    everything else is zero.  Clone returns everything.  Neither result shares
    anything mutable with the message, well-known messages and optional scalars
    apart (these are shared pointers).  And for messages in which no logged
    oneof holds a message ([plain_oneofs]; otherwise see [oneof_logged_raw]),
    LogValue is a function of what is visible at AccessLevelInternal and of the
    sizes of the withheld collections. *)
Theorem generated_methods env T t v :
  sane env -> compiles env emitViewMethod -> compiles env emitCloneMethod ->
  wt env T v -> message_in T = Some t ->
  (forall lvl,
     norm (View env lvl t v) = norm (redact env (visible lvl) (fun _ => VZero) (fun _ => Some t) v) /\
     owned (View env lvl t v) = true) /\
  norm (Clone env t v) = norm v /\ owned (Clone env t v) = true /\
  (plain_oneofs env ->
     LogValue env t v = LogValue env t (redact env (visible AccessLevelInternal) shrink (fun _ => Some t) v)).
Proof.
  intros Hs Hv Hc Hw Ht. split; [|split].
  - intros lvl. destruct (copies_ok env Hs _ lvl _ view_stmt (view_copies env Hs lvl Hv) v) as [H _]. by eapply H.
  - destruct (copies_ok env Hs _ _ _ clone_stmt (clone_copies env Hs AccessLevelPublic Hc) v) as [H _].
    destruct (H T t Hw Ht) as [H1 _]. rewrite (proj1 (redact_all env Hs v _) T) in H1; done.
  - destruct (copies_ok env Hs _ _ _ clone_stmt (clone_copies env Hs AccessLevelPublic Hc) v) as [H _].
    destruct (H T t Hw Ht) as [_ H2]. split; [done|]. intros Hp. by eapply log_ok_all.
Qed.

(** A customer with an id, an email address, a postal address and a oneof. *)
Definition str_ty : Ty := mkTy StringKind None "".
Definition str_field (go text : string) (c : DataClassification) : Field :=
  mkField go text str_ty None false false None false "" c false false.
Definition address_t : MsgName := ("demo.v1", "demo.v1.Address").
Definition customer_t : MsgName := ("demo.v1", "demo.v1.Customer").
Definition address_m : Message :=
  mkMessage address_t "Address" [str_field "Street" "street" PERSONAL; str_field "Country" "country" PUBLIC] [] false "" None 1 "" [].
Definition contact_oneof (f : Field) : Oneof := mkOneof "Contact" "contact" false [f].
Definition in_contact (go text : string) (ty : Ty) : Field :=
  mkField go text ty None false false (Some "Contact") false "" UNSPECIFIED false false.
Definition customer_m (contact : Field) : Message :=
  mkMessage customer_t "Customer"
    [mkField "Id" "id" str_ty None false false None true "" UNSPECIFIED false false; str_field "Email" "email" PERSONAL;
     mkField "Home" "home" (mkTy MessageKind (Some address_t) "") None false false None false "" UNSPECIFIED false false;
     mkField "Notes" "notes" str_ty None true false None false "" CREDENTIAL false false; contact]
    [contact_oneof contact] false "" None 1 "" [].
Definition demo_env (contact : Field) : Env := env_of [mkFile "demo.v1" "demo.proto" [address_m; customer_m contact]].
Definition phone : Field := in_contact "Phone" "phone" str_ty.
Definition txt (s : string) : val := VScalar (SStr s).
Definition home : val := VMsg Source [txt "Main St"; txt "BE"].
Definition customer : val :=
  VMsg Source [txt "c1"; txt "a@b"; home; VList Source [txt "x"; txt "y"]; VOneof Source "Phone" (txt "1")].

Lemma home_typed contact : wt (demo_env contact) (mkTy MessageKind (Some address_t) "") home.
Proof.
  eapply (wt_msg _ _ address_t address_m); [reflexivity|reflexivity|vm_compute; reflexivity|].
  repeat apply Forall2_cons_2; [..|apply Forall2_nil_2]; apply ws_single; try reflexivity; by apply wt_scalar.
Qed.

Lemma generated_methods_witness :
  View (demo_env phone) AccessLevelInternal customer_t customer =
    VMsg Own [txt "c1"; VZero; VMsg Own [VZero; txt "BE"]; VZero; VOneof Own "Phone" (txt "1")] /\
  norm (Clone (demo_env phone) customer_t customer) = norm customer /\
  owned (View (demo_env phone) AccessLevelInternal customer_t customer) = true.
Proof.
  split; [vm_compute; reflexivity|].
  destruct (generated_methods (demo_env phone) (mkTy MessageKind (Some customer_t) "") customer_t customer) as (H1 & H2 & _).
  - apply sane_check. vm_compute. reflexivity.
  - apply compiles_check. vm_compute. reflexivity.
  - apply compiles_check. vm_compute. reflexivity.
  - eapply (wt_msg _ _ customer_t (customer_m phone)); [reflexivity|reflexivity|vm_compute; reflexivity|].
    repeat apply Forall2_cons_2; [..|apply Forall2_nil_2].
    + apply ws_single; try reflexivity. by apply wt_scalar.
    + apply ws_single; try reflexivity. by apply wt_scalar.
    + apply ws_single; try reflexivity. apply home_typed.
    + apply ws_list; try reflexivity. repeat apply Forall_cons_2; try apply Forall_nil_2; by apply wt_scalar.
    + apply (ws_oneof _ (contact_oneof phone) phone); [apply list_elem_of_here|]. by apply wt_scalar.
  - reflexivity.
  - split; [exact H2|]. apply H1.
Defined.

(** A message in a oneof is logged as it is, with the fields that its own
    LogValue would redact: here the PERSONAL street. *)
Lemma oneof_logged_raw :
  let work := in_contact "Work" "work" (mkTy MessageKind (Some address_t) "") in
  let v := VMsg Source [txt "c1"; VZero; VZero; VZero; VOneof Source "Work" home] in
  LogValue (demo_env work) address_t home = [("street", AMarker "PERSONAL"); ("country", AScalar (txt "BE"))] /\
  last (LogValue (demo_env work) customer_t v) = Some ("contact", ARaw (VOneof Source "Work" home)).
Proof. vm_compute. split; reflexivity. Qed.

(** Well-known messages have no generated methods, but a oneof calls them, and so
    does Clone for the values of a map. *)
Definition stamp : MsgName := ("google.protobuf", "google.protobuf.Timestamp").

Lemma wkt_in_oneof_does_not_compile :
  ~ compiles (demo_env (in_contact "At" "at" (mkTy MessageKind (Some stamp) ""))) emitViewMethod.
Proof.
  intros H. set (at_ := in_contact "At" "at" (mkTy MessageKind (Some stamp) "")) in H.
  destruct (H customer_t (customer_m at_) (SSwitch None "Contact" [("At", VariantMessage stamp)])
    ltac:(vm_compute; reflexivity)) with (u := stamp) as [m Hm].
  - rewrite view_stmts. cbn. do 4 apply list_elem_of_further. apply list_elem_of_here.
  - apply list_elem_of_here.
  - vm_compute in Hm. discriminate.
Qed.

(** A nil slice in a map of bytes is dropped with its key. *)
Lemma nil_map_value_dropped rec :
  exec_copy rec (CopyMap ElemBytes) (VMap Source [(SStr "a", VZero); (SStr "b", VBytes Source [Byte.x01])]) =
  VMap Own [(SStr "b", VBytes Own [Byte.x01])].
Proof. reflexivity. Qed.
