(* ===== verification/Store.v ===== *)
(** * The store interfaces (es/store.go, es/state_cache.go) and their contract

    [Store] is the Go interface es.Store as a record of operations on a world
    [W], with the optional interfaces a caller finds by type assertion.
    [StoreLaws] states what the aggregate runtime relies on, in terms of the
    envelopes of each stream and the cached state; SqliteAggregate.v shows that
    the SQLite adapter keeps it.  [ScanAllStates] pages through the cache. *)
From S2P Require Import Prelude Errors Streams Events.

Record StateCacheReader (W : Type) := mkStateCacheReader {
  GetState : string -> string -> M W StateCacheRow;
  ListStates : string -> string -> string -> Z -> M W (list StateCacheRow)
}.
Arguments GetState {_} _ _ _.
Arguments ListStates {_} _ _ _ _ _.

Record StateCacheWriter (W : Type) := mkStateCacheWriter {
  WipeStateCacheForType : string -> string -> M W Z
}.
Arguments WipeStateCacheForType {_} _ _ _.

Record StateCacheUpserter (W : Type) := mkStateCacheUpserter {
  UpsertCachedState : StateCacheRow -> M W unit
}.
Arguments UpsertCachedState {_} _ _.

Record Store (W : Type) := mkStore {
  Append : AppendParams -> M W AppendResult;
  ReadStream : StreamID.t -> Z -> M W (list Envelope.t);
  ReadAll : Z -> Z -> M W (list Envelope.t);
  ReadAllForTenant : string -> Z -> Z -> M W (list Envelope.t);
  CurrentStreamVersion : StreamID.t -> M W Z;
  GetEventByID : string -> UUID -> M W Envelope.t;
  AsStateCacheReader : option (StateCacheReader W);
  AsStateCacheWriter : option (StateCacheWriter W);
  AsStateCacheUpserter : option (StateCacheUpserter W)
}.
Arguments Append {_} _ _.
Arguments ReadStream {_} _ _ _.
Arguments ReadAll {_} _ _ _.
Arguments ReadAllForTenant {_} _ _ _ _.
Arguments CurrentStreamVersion {_} _ _.
Arguments GetEventByID {_} _ _ _.
Arguments AsStateCacheReader {_} _.
Arguments AsStateCacheWriter {_} _.
Arguments AsStateCacheUpserter {_} _.

(** ** ScanAllStates

    The iterator, run by a [for] loop over it: [yield] is the loop body and
    returns whether the loop goes on.  [None]: out of fuel. *)
Section Scan.
Context {W : Type} (r : StateCacheReader W) (ctxErr : M W (option err))
  (yield : StateCacheRow -> option err -> M W bool).

Definition zero_StateCacheRow : StateCacheRow := mkStateCacheRow "" "" "" [] 0 false 0 zero_time.

(** Whether every row was accepted. *)
Fixpoint yieldRows (rows : list StateCacheRow) (w : W) : W * bool :=
  match rows with
  | [] => (w, true)
  | row :: rows' =>
      match yield row None w with
      | (w1, Ok true) => yieldRows rows' w1
      | (w1, _) => (w1, false)
      end
  end.

Fixpoint scanLoop (fuel : nat) (tenant typeURL after : string) (pageSize : Z) (w : W) : option W :=
  match fuel with
  | O => None
  | S fuel' =>
      match ctxErr w with
      | (w1, Ok (Some e)) | (w1, Err e) => Some (fst (yield zero_StateCacheRow (Some e) w1))
      | (w1, Ok None) =>
          match ListStates r tenant typeURL after pageSize w1 with
          | (w2, Err e) => Some (fst (yield zero_StateCacheRow (Some e) w2))
          | (w2, Ok []) => Some w2
          | (w2, Ok rows) =>
              match yieldRows rows w2 with
              | (w3, false) => Some w3
              | (w3, true) =>
                  if Z.of_nat (length rows) <? pageSize then Some w3
                  else scanLoop fuel' tenant typeURL
                         (default "" (sc_StreamID <$> last rows)) pageSize w3
              end
          end
      end
  end.

Definition ScanAllStates (fuel : nat) (tenant typeURL : string) (pageSize : Z) (w : W) : option W :=
  scanLoop fuel tenant typeURL "" (if pageSize <=? 0 then 1000 else pageSize) w.
End Scan.

(** ** The contract *)

(** A cached state, as Load sees it. *)
Record Cached := mkCached { c_State : bytes; c_Version : Z; c_Schema : Z }.

Definition row_cached (row : StateCacheRow) : Cached :=
  mkCached (sc_State row) (sc_Version row) (sc_StateSchemaVersion row).

(** What a store holds: the envelopes of every stream and its cached state. *)
Record View := mkView {
  stream : StreamID.t -> list Envelope.t;
  cache : StreamID.t -> option Cached
}.

(** Two views that agree on the valid streams. *)
Definition same_view (v1 v2 : View) : Prop :=
  forall sid, StreamID.Validate sid = None ->
    stream v1 sid = stream v2 sid /\ cache v1 sid = cache v2 sid.

#[export] Instance same_view_equivalence : Equivalence same_view.
Proof.
  split.
  - by intros v sid.
  - intros v1 v2 H sid Hv. by destruct (H sid Hv).
  - intros v1 v2 v3 H12 H23 sid Hv. destruct (H12 sid Hv) as [-> ->]. by apply H23.
Qed.

(** The cached state an Append leaves: the adapter's JSON normalisation of the
    new state, or the row that was there. *)
Definition cached_after (norm : bytes -> bytes) (p : AppendParams) (old : option Cached)
    : option Cached :=
  match ap_NewStateBytes p with
  | None => old
  | Some b =>
      Some (mkCached (norm b) (ap_ExpectedVersion p + Z.of_nat (length (ap_Events p)))
              (if ap_StateSchemaVersion p =? 0 then 1 else ap_StateSchemaVersion p))
  end.

(** What a successful Append does to the view. *)
Definition appended_view (norm : bytes -> bytes) (p : AppendParams) (v v' : View) : Prop :=
  let sid := ap_StreamID p in
  exists envs,
    Forall2 carries (ap_Events p) envs /\
    stream v' sid = stream v sid ++ envs /\
    cache v' sid = cached_after norm p (cache v sid) /\
    (forall sid', StreamID.Validate sid' = None -> sid' <> sid ->
       stream v' sid' = stream v sid' /\ cache v' sid' = cache v sid').

Class StoreLaws {W : Type} (St : Store W) (ok : W -> Prop) (view : W -> View)
    (accepts : EventToAppend -> Prop) (norm : bytes -> bytes) := {
  sl_dense : forall w sid, ok w -> StreamID.Validate sid = None ->
    Envelope.Version <$> stream (view w) sid = seqZ 1 (Z.of_nat (length (stream (view w) sid)));
  sl_short : forall w sid, ok w -> StreamID.Validate sid = None ->
    Z.of_nat (length (stream (view w) sid)) < 2 ^ 63;
  sl_read : forall sid v w w' r, ok w -> ReadStream St sid v w = (w', r) ->
    ok w' /\ same_view (view w') (view w) /\
    (forall envs, r = Ok envs -> StreamID.Validate sid = None /\
       (0 <= v < 2 ^ 63 -> envs = drop (Z.to_nat v) (stream (view w) sid)));
  sl_get : forall rd sid w w' r, ok w -> AsStateCacheReader St = Some rd ->
    StreamID.Validate sid = None ->
    GetState rd (StreamID.Tenant sid) (StreamID.Canonical sid) w = (w', r) ->
    ok w' /\ same_view (view w') (view w) /\
    (forall row, r = Ok row -> cache (view w) sid = Some (row_cached row));
  sl_get_silent : forall rd t s w w' r, ok w -> AsStateCacheReader St = Some rd ->
    GetState rd t s w = (w', r) -> ok w' /\ same_view (view w') (view w);
  sl_append_err : forall p w w' e, ok w -> Append St p w = (w', Err e) ->
    ok w' /\ same_view (view w') (view w);
  sl_append : forall p w w' res, ok w -> Append St p w = (w', Ok res) ->
    0 <= ap_ExpectedVersion p <= Z.of_nat (length (stream (view w) (ap_StreamID p))) ->
    ap_ExpectedVersion p + Z.of_nat (length (ap_Events p)) < 2 ^ 63 ->
    Forall accepts (ap_Events p) -> 0 <= ap_StateSchemaVersion p < 2 ^ 32 ->
    ok w' /\ StreamID.Validate (ap_StreamID p) = None /\
    ap_ExpectedVersion p = Z.of_nat (length (stream (view w) (ap_StreamID p))) /\
    ar_StartVersion res = ap_ExpectedVersion p + 1 /\
    ar_EndVersion res = ap_ExpectedVersion p + Z.of_nat (length (ap_Events p)) /\
    appended_view norm p (view w) (view w')
}.
