(* ===== verification/Aggregate.v ===== *)
(** * The aggregate runtime (aggregate/runtime.go, aggregate/rebuild.go)

    [Aggregate.Load] folds a stream from the cached state, [Aggregate.Handle]
    loads, decides and appends.  The store is an es.Store with the contract
    [StoreLaws]; codecs, deciders and the PII methods of events are parameters
    of the runtime, as in the code.  Spans, metrics and log records are left
    out.  When Load fails the code returns a partly folded state beside the
    error; no caller uses it and it is dropped here. *)
From S2P Require Import Prelude Errors Streams Events Store.

(** ** The parts of a runtime *)

Record EncodedEvent := mkEncodedEvent {
  ee_Payload : bytes;
  ee_TypeURL : string;
  ee_SchemaVersion : Z
}.

Record Codec (E : Type) := mkCodec {
  Encode : E -> res EncodedEvent;
  Decode : string -> Z -> bytes -> res E
}.
Arguments Encode {_} _ _.
Arguments Decode {_} _ _ _ _.

(** StateCodec.Encode returns the bytes and the type URL. *)
Record StateCodec (St : Type) := mkStateCodec {
  EncodeS : St -> res (bytes * string);
  DecodeS : bytes -> res St
}.
Arguments EncodeS {_} _ _.
Arguments DecodeS {_} _ _.

(** shred.PIIEncoder of one event; the encrypting and decrypting methods update
    the event in place, so they return the updated event. *)
Record PIIEncoder (W E : Type) := mkPIIEncoder {
  Subject : string;
  EncryptPII : string -> string -> M W E;
  DecryptPII : string -> string -> M W (E * list string)
}.
Arguments Subject {_ _} _.
Arguments EncryptPII {_ _} _ _ _.
Arguments DecryptPII {_ _} _ _ _.

(** The type assertions the runtime makes on an event. *)
Record EventMethods (W E : Type) := mkEventMethods {
  asPII : E -> option (PIIEncoder W E);
  asSumCloner : E -> option E;
  (** [proto.Clone]: [None] when the event is no proto.Message, [Some None]
      when the copy is not an [E]. *)
  asProtoClone : E -> option (option E)
}.
Arguments asPII {_ _} _ _.
Arguments asSumCloner {_ _} _ _.
Arguments asProtoClone {_ _} _ _.

Module Aggregate.
Record Runtime (W S C E : Type) := mkRuntime {
  rt_Store : Store W;
  rt_Decider : Decider S C E;
  rt_Codec : Codec E;
  rt_StateCodec : option (StateCodec S);
  rt_StateSchemaVersion : Z;
  (** Whether a Shredder is set; its state is part of the world. *)
  rt_Shredder : bool;
  rt_Methods : EventMethods W E;
  rt_OnRedacted : option (list string -> M W unit);
  rt_Clock : option (M W Time)
}.
Arguments rt_Store {_ _ _ _} _.
Arguments rt_Decider {_ _ _ _} _.
Arguments rt_Codec {_ _ _ _} _.
Arguments rt_StateCodec {_ _ _ _} _.
Arguments rt_StateSchemaVersion {_ _ _ _} _.
Arguments rt_Shredder {_ _ _ _} _.
Arguments rt_Methods {_ _ _ _} _.
Arguments rt_OnRedacted {_ _ _ _} _.
Arguments rt_Clock {_ _ _ _} _.

Record handleConfig := mkHandleConfig {
  commandID : UUID;
  correlationID : UUID;
  causationID : UUID;
  occurredAt : Time;
  actor : Actor.t
}.

Inductive HandleOption :=
  | WithCommandID (id : UUID)
  | WithCorrelationID (id : UUID)
  | WithCausationID (id : UUID)
  | WithOccurredAt (t : Time)
  | WithActor (a : Actor.t).

Definition apply_option (c : handleConfig) (o : HandleOption) : handleConfig :=
  match o with
  | WithCommandID id => mkHandleConfig id (correlationID c) (causationID c) (occurredAt c) (actor c)
  | WithCorrelationID id => mkHandleConfig (commandID c) id (causationID c) (occurredAt c) (actor c)
  | WithCausationID id => mkHandleConfig (commandID c) (correlationID c) id (occurredAt c) (actor c)
  | WithOccurredAt t => mkHandleConfig (commandID c) (correlationID c) (causationID c) t (actor c)
  | WithActor a => mkHandleConfig (commandID c) (correlationID c) (causationID c) (occurredAt c) a
  end.

Section Runtime.
Context {W S C E : Type} (RealClock : M W Time) (NewV7 : M W UUID) (r : Runtime W S C E).

Definition Now : M W Time := match rt_Clock r with Some c => c | None => RealClock end.

Definition stateSchemaVersion : Z :=
  if rt_StateSchemaVersion r =? 0 then 1 else rt_StateSchemaVersion r.

(** *** Load *)

(** The replay base: the cached state when there is a usable one. *)
Definition cachedBase (sid : StreamID.t) : M W (S * Z) :=
  let full := (Initial (rt_Decider r), 0) in
  match rt_StateCodec r, AsStateCacheReader (rt_Store r) with
  | Some sc, Some reader =>
      x ← try (GetState reader (StreamID.Tenant sid) (StreamID.Canonical sid));
      match x with
      | Err _ => mret full
      | Ok row =>
          if 0 <? sc_Version row then
            if sc_StateSchemaVersion row =? stateSchemaVersion then
              match DecodeS sc (sc_State row) with
              | Ok decoded => mret (decoded, sc_Version row)
              | Err _ => mret full
              end
            else mret full
          else mret full
      end
  | _, _ => mret full
  end.

(** The encryption subject of an event of stream [sid]. *)
Definition subjectOf (pii : PIIEncoder W E) (sid : StreamID.t) : string :=
  if bool_decide (Subject pii = "") then StreamID.ID sid else Subject pii.

Definition decryptEvent (sid : StreamID.t) (evt : E) : M W (E * list string) :=
  if rt_Shredder r then
    match asPII (rt_Methods r) evt with
    | Some pii =>
        wrap_err "aggregate: decrypt"
          (DecryptPII pii (StreamID.Tenant sid) (subjectOf pii sid))
    | None => mret (evt, [])
    end
  else mret (evt, []).

(** One envelope as the event Evolve sees, and its redacted fields. *)
Definition decodeEvent (sid : StreamID.t) (env : Envelope.t) : M W (E * list string) :=
  evt ← wrap_err "aggregate: decode event"
          (of_res (Decode (rt_Codec r) (Envelope.TypeURL env) (Envelope.SchemaVersion env)
                     (Envelope.Payload env)));
  decryptEvent sid evt.

(** The loop over the envelopes. *)
Fixpoint replay (sid : StreamID.t) (envs : list Envelope.t) (state : S) (version : Z)
    (redacted : list string) : M W (S * Z * list string) :=
  match envs with
  | [] => mret (state, version, redacted)
  | env :: envs' =>
      x ← decodeEvent sid env;
      replay sid envs' (Evolve (rt_Decider r) state (fst x)) (Envelope.Version env)
        (redacted ++ snd x)
  end.

Definition Load (sid : StreamID.t) : M W (S * Z) :=
  base ← cachedBase sid;
  envs ← wrap_err "aggregate: load" (ReadStream (rt_Store r) sid (snd base));
  x ← replay sid envs (fst base) (snd base) [];
  let '(state, version, redacted) := x in
  (match rt_OnRedacted r, redacted with
   | Some f, _ :: _ => try (f redacted) ≫= fun _ => mret tt
   | _, _ => mret tt
   end) ≫= fun _ =>
  mret (state, version).

Definition EncodeState (state : S) : res bytes :=
  match rt_StateCodec r with
  | None => Err (ENew "aggregate: EncodeState requires a StateCodec to be wired on the runtime")
  | Some sc => match EncodeS sc state with Ok (b, _) => Ok b | Err e => Err e end
  end.

Definition DecodeState (data : bytes) : res S :=
  match rt_StateCodec r with
  | None => Err (ENew "aggregate: DecodeState requires a StateCodec to be wired on the runtime")
  | Some sc => DecodeS sc data
  end.

(** *** Handle *)

Definition defaultHandleConfig (now : Time) : M W handleConfig :=
  cid ← NewV7; mret (mkHandleConfig cid cid cid now Actor.zero).

Definition cloneProtoEvent (e : E) : res E :=
  match asSumCloner (rt_Methods r) e with
  | Some c => Ok c
  | None =>
      match asProtoClone (rt_Methods r) e with
      | None => Err (ENew "aggregate: event does not implement proto.Message (required for crypto-shredding)")
      | Some None => Err (ENew "aggregate: proto.Clone returned another type")
      | Some (Some c) => Ok c
      end
  end.

(** The event that is encoded: an encrypted copy when it holds PII. A copy
    that is no PIIEncoder makes the type assertion panic. *)
Definition encryptEvent (sid : StreamID.t) (evt : E) : M W E :=
  if rt_Shredder r then
    match asPII (rt_Methods r) evt with
    | None => mret evt
    | Some _ =>
        cloned ← wrap_err "aggregate: clone event for encryption" (of_res (cloneProtoEvent evt));
        match asPII (rt_Methods r) cloned with
        | None => fail (ENew "panic: interface conversion")
        | Some pii =>
            wrap_err "aggregate: encrypt event"
              (EncryptPII pii (StreamID.Tenant sid) (subjectOf pii sid))
        end
    end
  else mret evt.

Definition buildEvent (cfg : handleConfig) (id : UUID) (enc : EncodedEvent) : EventToAppend :=
  mkEventToAppend id (ee_TypeURL enc) (ee_SchemaVersion enc) (occurredAt cfg) (correlationID cfg)
    (causationID cfg) (commandID cfg) (actor cfg) (ee_Payload enc) [] [].

Definition encodeEvent (sid : StreamID.t) (cfg : handleConfig) (evt : E) : M W EventToAppend :=
  toEncode ← encryptEvent sid evt;
  enc ← wrap_err "aggregate: encode event" (of_res (Encode (rt_Codec r) toEncode));
  id ← NewV7;
  mret (buildEvent cfg id enc).

Fixpoint encodeEvents (sid : StreamID.t) (cfg : handleConfig) (evts : list E)
    : M W (list EventToAppend) :=
  match evts with
  | [] => mret []
  | evt :: evts' =>
      ev ← encodeEvent sid cfg evt;
      evs ← encodeEvents sid cfg evts';
      mret (ev :: evs)
  end.

(** The parameters of the Append: the state fields are set with a StateCodec. *)
Definition buildParams (sid : StreamID.t) (version : Z) (state : S) (events : list E)
    (toAppend : list EventToAppend) (constraints : list ConstraintOp) : res AppendParams :=
  match rt_StateCodec r with
  | None => Ok (mkAppendParams sid version toAppend constraints None "" 0 false)
  | Some sc =>
      let newState := foldl (Evolve (rt_Decider r)) state events in
      match EncodeS sc newState with
      | Err e => Err (EWrap "aggregate: encode state" e)
      | Ok (stateBytes, typeURL) =>
          Ok (mkAppendParams sid version toAppend constraints (Some stateBytes) typeURL
                stateSchemaVersion
                (match IsTerminal (rt_Decider r) with Some f => f newState | None => false end))
      end
  end.

(** handleImpl up to the Append: [None] is a command without events. *)
Definition prepare (sid : StreamID.t) (cmd : C) (opts : list HandleOption)
    : M W (option AppendParams) :=
  now ← Now;
  cfg0 ← defaultHandleConfig now;
  let cfg := foldl apply_option cfg0 opts in
  loaded ← Load sid;
  let '(state, version) := loaded in
  if match IsTerminal (rt_Decider r) with Some f => f state | None => false end
  then fail (ESent ErrTerminal)
  else
    decided ← wrap_err "aggregate: decide" (of_res (Decide (rt_Decider r) state cmd));
    let '(events, constraints) := decided in
    match events with
    | [] => mret None
    | _ =>
        toAppend ← encodeEvents sid cfg events;
        params ← of_res (buildParams sid version state events toAppend constraints);
        mret (Some params)
    end.

Definition handleImpl (sid : StreamID.t) (cmd : C) (opts : list HandleOption) : M W AppendResult :=
  p ← prepare sid cmd opts;
  match p with
  | None => mret zero_AppendResult
  | Some params => Append (rt_Store r) params
  end.

(** Handle reads the clock before and after for the latency metric. *)
Definition Handle (sid : StreamID.t) (cmd : C) (opts : list HandleOption) : M W AppendResult :=
  _ ← Now;
  result ← try (handleImpl sid cmd opts);
  _ ← Now;
  of_res result.
End Runtime.
End Aggregate.

(** ** What the runtime relies on *)
Section Laws.
Context {W S C E : Type} (RealClock : M W Time) (NewV7 : M W UUID)
  (r : Aggregate.Runtime W S C E) (ok : W -> Prop) (view : W -> View)
  (meaning : W -> StreamID.t -> Envelope.t -> option E).

(** The world keeps its store and what its envelopes mean. *)
Definition extends (w w' : W) : Prop :=
  ok w' /\ same_view (view w') (view w) /\
  forall sid env e, meaning w sid env = Some e -> meaning w' sid env = Some e.

Definition quiet {A} (m : M W A) : Prop := forall w w' x, ok w -> m w = (w', x) -> extends w w'.

(** [meaning w sid env] is the event a replay of stream [sid] folds for [env]
    (after decryption, redacted where its key is gone).  Codecs give back the
    event they encoded; encrypting an event leaves other events as they are. *)
Class EventLaws := {
  el_now : quiet (Aggregate.Now RealClock r);
  el_now_total : forall w, ok w -> exists w' t, Aggregate.Now RealClock r w = (w', Ok t);
  el_uuid : quiet NewV7;
  el_redacted : forall f l, Aggregate.rt_OnRedacted r = Some f -> quiet (f l);
  el_read : forall sid v, quiet (ReadStream (Aggregate.rt_Store r) sid v);
  el_get : forall rd t s, AsStateCacheReader (Aggregate.rt_Store r) = Some rd -> quiet (GetState rd t s);
  el_append : forall p w w' x, ok w -> Append (Aggregate.rt_Store r) p w = (w', x) ->
    forall sid env e, meaning w sid env = Some e -> meaning w' sid env = Some e;
  el_decode_quiet : forall sid env, quiet (Aggregate.decodeEvent r sid env);
  el_decode : forall sid env w w' e red e', ok w ->
    Aggregate.decodeEvent r sid env w = (w', Ok (e, red)) -> meaning w sid env = Some e' -> e = e';
  el_encode_quiet : forall sid cfg e, quiet (Aggregate.encodeEvent NewV7 r sid cfg e);
  el_encode : forall sid cfg e w w' ev env, ok w -> StreamID.Validate sid = None ->
    Aggregate.encodeEvent NewV7 r sid cfg e w = (w', Ok ev) -> carries ev env ->
    meaning w' sid env = Some e
}.

(** The events of a stream. *)
Definition history (w : W) (sid : StreamID.t) (evs : list E) : Prop :=
  Forall2 (fun env e => meaning w sid env = Some e) (stream (view w) sid) evs.

Definition fold_events (evs : list E) : S :=
  foldl (Evolve (Aggregate.rt_Decider r)) (Initial (Aggregate.rt_Decider r)) evs.

(** A cached state that Load would use is the fold of the events up to its
    version. *)
Definition cache_coherent (evs : list E) (c : option Cached) : Prop :=
  forall cached sc s, c = Some cached -> Aggregate.rt_StateCodec r = Some sc ->
    0 < c_Version cached -> c_Schema cached = Aggregate.stateSchemaVersion r ->
    DecodeS sc (c_State cached) = Ok s ->
    c_Version cached <= Z.of_nat (length evs) /\
    s = fold_events (take (Z.to_nat (c_Version cached)) evs).

Definition coherent (w : W) (sid : StreamID.t) : Prop :=
  exists evs, history w sid evs /\ cache_coherent evs (cache (view w) sid).
End Laws.
Arguments el_now {_ _ _ _ _ _ _ _ _ _} {_}.
Arguments el_now_total {_ _ _ _ _ _ _ _ _ _} {_}.
Arguments el_uuid {_ _ _ _ _ _ _ _ _ _} {_}.
Arguments el_redacted {_ _ _ _ _ _ _ _ _ _} {_}.
Arguments el_read {_ _ _ _ _ _ _ _ _ _} {_}.
Arguments el_get {_ _ _ _ _ _ _ _ _ _} {_}.
Arguments el_append {_ _ _ _ _ _ _ _ _ _} {_}.
Arguments el_decode_quiet {_ _ _ _ _ _ _ _ _ _} {_}.
Arguments el_decode {_ _ _ _ _ _ _ _ _ _} {_}.
Arguments el_encode_quiet {_ _ _ _ _ _ _ _ _ _} {_}.
Arguments el_encode {_ _ _ _ _ _ _ _ _ _} {_}.

Section Facts.
Context {W S C E : Type} {RealClock : M W Time} {NewV7 : M W UUID}
  {r : Aggregate.Runtime W S C E} {ok : W -> Prop} {view : W -> View}
  {accepts : EventToAppend -> Prop} {norm : bytes -> bytes}
  {meaning : W -> StreamID.t -> Envelope.t -> option E}
  {SL : StoreLaws (Aggregate.rt_Store r) ok view accepts norm}
  {EL : EventLaws RealClock NewV7 r ok view meaning}.

Notation extends := (extends ok view meaning).
Notation quiet := (quiet ok view meaning).
Notation history := (history view meaning).
Notation coherent := (coherent r view meaning).

Lemma extends_refl w : ok w -> extends w w.
Proof. intros. by split_and!. Qed.

Lemma extends_trans w1 w2 w3 : extends w1 w2 -> extends w2 w3 -> extends w1 w3.
Proof.
  intros (_ & Hv & Hm) (Hok & Hv' & Hm'). split; [done|]. split; [by etrans|]. eauto.
Qed.

Lemma quiet_ret {A} (a : A) : quiet (mret a : M W A).
Proof. intros w w' x Hok [= <- <-]. by apply extends_refl. Qed.

Lemma quiet_fail {A} e : quiet (fail e : M W A).
Proof. intros w w' x Hok [= <- <-]. by apply extends_refl. Qed.

Lemma quiet_res {A} (x : res A) : quiet (of_res x : M W A).
Proof. intros w w' y Hok [= <- <-]. by apply extends_refl. Qed.

Lemma quiet_bind {A B} (m : M W A) (k : A -> M W B) :
  quiet m -> (forall a, quiet (k a)) -> quiet (m ≫= k).
Proof.
  intros Hm Hk w w' x Hok. unfold mbind, M_bind. destruct (m w) as [w1 [a|e]] eqn:H1.
  - intros H2. pose proof (Hm _ _ _ Hok H1) as H. eapply extends_trans; [exact H|].
    by eapply Hk; [apply H|].
  - intros [= <- <-]. by eapply Hm.
Qed.

Lemma quiet_wrap {A} msg (m : M W A) : quiet m -> quiet (wrap_err msg m).
Proof.
  intros Hm w w' x Hok. unfold wrap_err. destruct (m w) as [w1 [a|e]] eqn:H1;
    intros [= <- <-]; by eapply Hm.
Qed.

Lemma quiet_try {A} (m : M W A) : quiet m -> quiet (try m).
Proof.
  intros Hm w w' x Hok. unfold try. destruct (m w) as [w1 y] eqn:H1. intros [= <- <-]. by eapply Hm.
Qed.

Lemma quiet_match {A B} (o : option B) (k : B -> M W A) (m : M W A) :
  (forall b, o = Some b -> quiet (k b)) -> quiet m ->
  quiet (match o with Some b => k b | None => m end).
Proof. destruct o; eauto. Qed.
End Facts.

Create HintDb quiet.
#[export] Hint Resolve quiet_ret quiet_fail quiet_res quiet_bind quiet_wrap quiet_try
  el_now el_uuid el_read el_decode_quiet el_encode_quiet : quiet.
