(* ===== verification/AggregateFacts.v ===== *)
(** * Correctness of the aggregate runtime

    Load is the fold of the whole stream whatever the cache holds; Handle
    appends exactly what the decider decided on that state, keeps the cache
    coherent, and loses no concurrent update. *)
From S2P Require Import Prelude Errors Streams Events Store Aggregate.

Section Facts.
Context {W S C E : Type} {RealClock : M W Time} {NewV7 : M W UUID}
  {r : Aggregate.Runtime W S C E} {ok : W -> Prop} {view : W -> View}
  {accepts : EventToAppend -> Prop} {norm : bytes -> bytes}
  {meaning : W -> StreamID.t -> Envelope.t -> option E}
  {SL : StoreLaws (Aggregate.rt_Store r) ok view accepts norm}
  {EL : EventLaws RealClock NewV7 r ok view meaning}.

Notation extends := (extends ok view meaning).
Notation quiet := (quiet ok view meaning).
Notation history := (history view meaning).
Notation coherent := (coherent r view meaning).
Notation fold_from s evs := (foldl (Evolve (Aggregate.rt_Decider r)) s evs).

(** ** Load *)

Lemma history_extends w w' sid evs :
  extends w w' -> StreamID.Validate sid = None -> history w sid evs -> history w' sid evs.
Proof.
  intros (_ & Hv & Hm) Hsid H. unfold Aggregate.history in *.
  destruct (Hv sid Hsid) as [-> _]. eapply Forall2_impl; [exact H|]. eauto.
Qed.

Lemma history_unique w sid evs evs' : history w sid evs -> history w sid evs' -> evs = evs'.
Proof.
  intros H H'. unfold Aggregate.history in *. revert evs' H'.
  induction H as [|env e envs evs He _ IH]; intros evs' H'; inversion H'; subst; [done|].
  f_equal; [congruence|eauto].
Qed.

Lemma cachedBase_quiet sid : quiet (Aggregate.cachedBase r sid).
Proof.
  unfold Aggregate.cachedBase. destruct (Aggregate.rt_StateCodec r) as [sc|]; [|apply quiet_ret].
  destruct (AsStateCacheReader _) as [rd|] eqn:Hrd; [|apply quiet_ret].
  apply quiet_bind; [apply quiet_try; exact (el_get rd _ _ Hrd)|]. intros [row|e]; [|apply quiet_ret].
  repeat (case_match; try apply quiet_ret).
Qed.

(** The replay base is a fold of a prefix of the history. *)
Lemma cachedBase_spec sid w w' s v evs :
  ok w -> StreamID.Validate sid = None -> history w sid evs ->
  cache_coherent r evs (cache (view w) sid) ->
  Aggregate.cachedBase r sid w = (w', Ok (s, v)) ->
  0 <= v <= Z.of_nat (length evs) /\ s = fold_events r (take (Z.to_nat v) evs).
Proof.
  intros Hok Hsid Hh Hc. unfold Aggregate.cachedBase.
  assert (Hfull : 0 <= 0 <= Z.of_nat (length evs) /\
    Initial (Aggregate.rt_Decider r) = fold_events r (take (Z.to_nat 0) evs)) by (split; [lia|done]).
  destruct (Aggregate.rt_StateCodec r) as [sc|] eqn:Hsc; [|by intros [= <- <- <-]].
  destruct (AsStateCacheReader _) as [rd|] eqn:Hrd; [|by intros [= <- <- <-]].
  intros (w1 & x & Hx%try_Ok & H)%bind_Ok. destruct x as [row|e]; [|by injection H as <- <- <-].
  destruct (sl_get rd sid w w1 _ Hok Hrd Hsid Hx) as (_ & _ & Hrow).
  destruct (Z.ltb_spec 0 (sc_Version row)) as [Hv|_]; [|by injection H as <- <- <-].
  destruct (Z.eqb_spec (sc_StateSchemaVersion row) (Aggregate.stateSchemaVersion r)) as [Hs|_];
    [|by injection H as <- <- <-].
  destruct (DecodeS sc (sc_State row)) as [d|] eqn:Hd; [|by injection H as <- <- <-].
  injection H as <- <- <-.
  destruct (Hc (row_cached row) sc d (Hrow row eq_refl) Hsc Hv Hs Hd) as [Hle ->]. simpl in *.
  split; [lia|done].
Qed.

Lemma replay_quiet sid envs : forall s v red, quiet (Aggregate.replay r sid envs s v red).
Proof.
  induction envs as [|env envs IH]; intros s v red; simpl; [apply quiet_ret|].
  apply quiet_bind; [exact (el_decode_quiet sid env)|]. intros x. apply IH.
Qed.

Lemma replay_spec sid envs : forall s v red w w' s' v' red' evs,
  ok w -> Forall2 (fun env e => meaning w sid env = Some e) envs evs ->
  Aggregate.replay r sid envs s v red w = (w', Ok (s', v', red')) ->
  s' = fold_from s evs /\ v' = default v (last (Envelope.Version <$> envs)).
Proof.
  induction envs as [|env envs IH]; intros s v red w w' s' v' red' evs Hok HF.
  - inversion HF; subst. by intros [= <- <- <- <-].
  - inversion HF as [|? e ? evs' He HF']; subst. cbn [Aggregate.replay].
    intros (w1 & [e' rd] & Hd & H)%bind_Ok.
    pose proof (el_decode_quiet sid env w w1 _ Hok Hd) as (Hok1 & _ & Hm1).
    pose proof (el_decode _ _ _ _ _ _ _ Hok Hd He) as ->.
    apply (IH _ _ _ _ _ _ _ _ evs') in H as [-> ->]; [|done|].
    + split; [done|]. csimpl. rewrite last_cons. by destruct (last (Envelope.Version <$> envs)).
    + eapply Forall2_impl; [exact HF'|]. eauto.
Qed.

Lemma Load_quiet sid : quiet (Aggregate.Load r sid).
Proof.
  unfold Aggregate.Load. apply quiet_bind; [apply cachedBase_quiet|]. intros base.
  apply quiet_bind; [apply quiet_wrap; exact (el_read sid _)|]. intros envs.
  apply quiet_bind; [apply replay_quiet|]. intros [[s v] red].
  apply quiet_bind; [|intros; apply quiet_ret].
  destruct (Aggregate.rt_OnRedacted r) as [f|] eqn:Hf; [|apply quiet_ret].
  destruct red; [apply quiet_ret|]. apply quiet_bind; [|intros; apply quiet_ret].
  apply quiet_try. exact (el_redacted f _ Hf).
Qed.

Lemma last_seqZ m n : 0 < n -> last (seqZ m n) = Some (m + n - 1).
Proof.
  intros Hn. rewrite last_lookup, length_seqZ. apply lookup_seqZ. lia.
Qed.

Lemma last_drop_seqZ v n :
  0 <= v <= n -> default v (last (drop (Z.to_nat v) (seqZ 1 n))) = n.
Proof.
  intros Hv. replace n with (v + (n - v)) at 1 by lia. rewrite seqZ_app by lia.
  rewrite drop_app_length'; [|by rewrite length_seqZ].
  destruct (decide (v = n)) as [->|]; [by rewrite seqZ_nil by lia|].
  rewrite last_seqZ by lia. simpl. lia.
Qed.

Lemma Load_valid sid w w' x :
  ok w -> Aggregate.Load r sid w = (w', Ok x) -> StreamID.Validate sid = None.
Proof.
  intros Hok (w1 & base & Hbase & H)%bind_Ok.
  pose proof (cachedBase_quiet sid _ _ _ Hok Hbase) as (Hok1 & _).
  apply bind_Ok in H as (w2 & envs & Hread%wrap_err_Ok & _).
  destruct (sl_read _ _ _ _ _ Hok1 Hread) as (_ & _ & Hr). by destruct (Hr envs eq_refl).
Qed.

Lemma Load_spec sid w w' s v evs :
  ok w -> history w sid evs -> cache_coherent r evs (cache (view w) sid) ->
  Aggregate.Load r sid w = (w', Ok (s, v)) ->
  StreamID.Validate sid = None /\ s = fold_events r evs /\ v = Z.of_nat (length evs).
Proof.
  intros Hok Hh Hc (w1 & [s0 v0] & Hbase & H)%bind_Ok.
  pose proof (cachedBase_quiet sid _ _ _ Hok Hbase) as Hx1. pose proof Hx1 as (Hok1 & Hv1 & Hm1).
  apply bind_Ok in H as (w2 & envs & Hread%wrap_err_Ok & H). simpl in Hread.
  destruct (sl_read _ _ _ _ _ Hok1 Hread) as (_ & _ & Hr).
  destruct (Hr envs eq_refl) as [Hsid Hdrop]. clear Hr.
  pose proof (el_read sid v0 _ _ _ Hok1 Hread) as Hx2.
  destruct (cachedBase_spec sid w w1 s0 v0 evs Hok Hsid Hh Hc Hbase) as [Hv0 Hs0].
  destruct (Hv1 sid Hsid) as [Hst1 _]. rewrite Hst1 in Hdrop.
  pose proof (Forall2_length _ _ _ Hh) as Hlen.
  pose proof (sl_short w sid Hok Hsid) as Hshort.
  rewrite Hdrop in H by lia.
  apply bind_Ok in H as (w3 & [[s3 v3] red] & Hrep & H).
  apply (replay_spec _ _ _ _ _ _ _ _ _ _ (drop (Z.to_nat v0) evs)) in Hrep as [-> ->].
  - inv_bind. split; [done|]. split.
    + simpl. unfold fold_events. rewrite <- foldl_app. by rewrite take_drop.
    + simpl. rewrite fmap_drop, (sl_dense w sid Hok Hsid), Hlen. apply last_drop_seqZ. lia.
  - apply Hx2.
  - apply Forall2_drop. destruct Hx2 as (_ & _ & Hm2).
    eapply Forall2_impl; [exact Hh|]. eauto.
Qed.

(** ** Handle *)

Lemma encodeEvents_quiet sid cfg evts : quiet (Aggregate.encodeEvents NewV7 r sid cfg evts).
Proof.
  induction evts as [|e evts IH]; simpl; [apply quiet_ret|].
  apply quiet_bind; [exact (el_encode_quiet sid cfg e)|]. intros ev.
  apply quiet_bind; [exact IH|]. intros evs. apply quiet_ret.
Qed.

(** The appended events mean what was decided. *)
Lemma encodeEvents_spec sid cfg evts : forall w w' toAppend,
  ok w -> StreamID.Validate sid = None ->
  Aggregate.encodeEvents NewV7 r sid cfg evts w = (w', Ok toAppend) ->
  Forall2 (fun e ev => forall env, carries ev env -> meaning w' sid env = Some e) evts toAppend /\
  Forall (fun ev => exists e id enc, Encode (Aggregate.rt_Codec r) e = Ok enc /\
            ev = Aggregate.buildEvent cfg id enc) toAppend.
Proof.
  induction evts as [|e evts IH]; intros w w' toAppend Hok Hsid; cbn [Aggregate.encodeEvents].
  - intros [= <- <-]. by split.
  - intros (w1 & ev & Hev & H)%bind_Ok. apply bind_Ok in H as (w2 & evs & Hevs & H).
    injection H as <- <-. pose proof (el_encode_quiet sid cfg e _ _ _ Hok Hev) as (Hok1 & _ & _).
    pose proof (encodeEvents_quiet sid cfg evts _ _ _ Hok1 Hevs) as (_ & _ & Hm2).
    destruct (IH _ _ _ Hok1 Hsid Hevs) as [HF Hall]. split; constructor; try done.
    + intros env Hc. apply Hm2. exact (el_encode sid cfg e _ _ _ env Hok Hsid Hev Hc).
    + apply bind_Ok in Hev as (w3 & te & _ & Hev). apply bind_Ok in Hev as (w4 & enc & Henc & Hev).
      apply wrap_err_Ok, of_res_Ok in Henc as [_ Henc].
      apply bind_Ok in Hev as (w5 & id & _ & Hev). injection Hev as <- <-. eauto.
Qed.

Definition terminal (s : S) : bool :=
  match IsTerminal (Aggregate.rt_Decider r) with Some f => f s | None => false end.

(** What handleImpl hands to Append. *)
Definition prepared (w' : W) (sid : StreamID.t) (opts : list Aggregate.HandleOption)
    (evs new : list E) (ops : list ConstraintOp) (p : AppendParams) : Prop :=
  ap_StreamID p = sid /\ ap_ExpectedVersion p = Z.of_nat (length evs) /\
  ap_Constraints p = ops /\
  Forall2 (fun e ev => forall env, carries ev env -> meaning w' sid env = Some e) new (ap_Events p) /\
  Forall (fun ev => exists now cid w0 w1 e id enc,
     Aggregate.Now RealClock r w0 = (w1, Ok now) /\ Encode (Aggregate.rt_Codec r) e = Ok enc /\
     ev = Aggregate.buildEvent (foldl Aggregate.apply_option
            (Aggregate.mkHandleConfig cid cid cid now Actor.zero) opts) id enc) (ap_Events p) /\
  match Aggregate.rt_StateCodec r with
  | None => ap_NewStateBytes p = None /\ ap_StateSchemaVersion p = 0
  | Some sc => exists b t, EncodeS sc (fold_events r (evs ++ new)) = Ok (b, t) /\
      ap_NewStateBytes p = Some b /\ ap_StateTypeURL p = t /\
      ap_StateSchemaVersion p = Aggregate.stateSchemaVersion r /\
      ap_Terminal p = terminal (fold_events r (evs ++ new))
  end.

Lemma prepare_quiet sid cmd opts : quiet (Aggregate.prepare RealClock NewV7 r sid cmd opts).
Proof.
  unfold Aggregate.prepare. apply quiet_bind; [exact el_now|]. intros now.
  apply quiet_bind; [apply quiet_bind; [exact el_uuid|intros; apply quiet_ret]|]. intros cfg.
  apply quiet_bind; [apply Load_quiet|]. intros [s v]. case_match; [apply quiet_fail|].
  apply quiet_bind; [apply quiet_wrap, quiet_res|]. intros [events ops].
  destruct events as [|e events]; [apply quiet_ret|].
  apply quiet_bind; [apply encodeEvents_quiet|]. intros ta.
  apply quiet_bind; [apply quiet_res|]. intros p. apply quiet_ret.
Qed.

Lemma prepare_spec sid cmd opts w w' o :
  ok w -> (StreamID.Validate sid = None -> coherent w sid) ->
  Aggregate.prepare RealClock NewV7 r sid cmd opts w = (w', Ok o) ->
  StreamID.Validate sid = None /\
  exists evs new ops, history w sid evs /\ terminal (fold_events r evs) = false /\
    Decide (Aggregate.rt_Decider r) (fold_events r evs) cmd = Ok (new, ops) /\
    match o with
    | None => new = []
    | Some p => new <> [] /\ prepared w' sid opts evs new ops p
    end.
Proof.
  intros Hok Hcoh (w1 & now & Hnow & H)%bind_Ok.
  pose proof (el_now _ _ _ Hok Hnow) as Hx1.
  apply bind_Ok in H as (w2 & cfg & Hcfg & H). apply bind_Ok in Hcfg as (w2' & cid & Hid & Hcfg).
  injection Hcfg as <- <-. pose proof (el_uuid _ _ _ (proj1 Hx1) Hid) as Hx2.
  pose proof (extends_trans _ _ _ Hx1 Hx2) as Hx.
  apply bind_Ok in H as (w3 & [s v] & Hload & H).
  pose proof (Load_valid sid w2' w3 _ (proj1 Hx) Hload) as Hsid. split; [done|].
  destruct (Hcoh Hsid) as (evs & Hh & Hc).
  pose proof (history_extends _ _ _ _ Hx Hsid Hh) as Hh2.
  destruct (Load_spec sid w2' w3 s v evs (proj1 Hx) Hh2) as (_ & -> & ->);
    [by destruct Hx as (_ & Hv & _); destruct (Hv sid Hsid) as [_ ->]|done|].
  pose proof (Load_quiet sid _ _ _ (proj1 Hx) Hload) as Hx3.
  change (match IsTerminal _ with Some f => _ | None => _ end) with (terminal (fold_events r evs)) in H.
  destruct (terminal (fold_events r evs)) eqn:Hterm; [by inv_bind|].
  apply bind_Ok in H as (w4 & [new ops] & Hdec%wrap_err_Ok & H).
  apply of_res_Ok in Hdec as [-> Hdec]. exists evs, new, ops. split_and!; try done.
  destruct new as [|e new]; [by injection H as <- <-|].
  apply bind_Ok in H as (w5 & ta & Hta & H). apply bind_Ok in H as (w6 & p & Hp & H).
  apply of_res_Ok in Hp as [-> Hp]. injection H as <- <-. split; [done|].
  destruct (encodeEvents_spec _ _ _ _ _ _ (proj1 Hx3) Hsid Hta) as [HF Hall].
  assert (Hall' : Forall (fun ev => exists now cid w0 w1 e id enc,
     Aggregate.Now RealClock r w0 = (w1, Ok now) /\ Encode (Aggregate.rt_Codec r) e = Ok enc /\
     ev = Aggregate.buildEvent (foldl Aggregate.apply_option
            (Aggregate.mkHandleConfig cid cid cid now Actor.zero) opts) id enc) ta).
  { eapply Forall_impl; [exact Hall|]. intros ev (e' & id & enc & ? & ?).
    by exists now, cid, w, w1, e', id, enc. }
  unfold Aggregate.buildParams in Hp. unfold prepared.
  destruct (Aggregate.rt_StateCodec r) as [sc|]; [|by injection Hp as <-].
  unfold fold_events in Hp. rewrite <- foldl_app in Hp. fold (fold_events r (evs ++ e :: new)) in Hp.
  destruct (EncodeS sc _) as [[b t]|] eqn:Hb; [|done]. injection Hp as <-.
  split_and!; try done. by exists b, t.
Qed.

(** ** Appending what was prepared *)

(** Events built from the options and the clock are accepted by the store. *)
Definition options_accepted (opts : list Aggregate.HandleOption) : Prop :=
  forall now cid w0 w1 e id enc,
    Aggregate.Now RealClock r w0 = (w1, Ok now) -> Encode (Aggregate.rt_Codec r) e = Ok enc ->
    accepts (Aggregate.buildEvent (foldl Aggregate.apply_option
               (Aggregate.mkHandleConfig cid cid cid now Actor.zero) opts) id enc).

(** The state codec reads back what it wrote, through the store's JSON column. *)
Definition state_codec_roundtrip : Prop :=
  forall sc s b t, Aggregate.rt_StateCodec r = Some sc -> EncodeS sc s = Ok (b, t) ->
    DecodeS sc (norm b) = Ok s.

(** StateSchemaVersion is a uint32. *)
Definition schema_u32 : Prop := 0 <= Aggregate.rt_StateSchemaVersion r < 2 ^ 32.

Lemma prepared_schema w1 sid opts evs new ops p :
  schema_u32 -> prepared w1 sid opts evs new ops p -> 0 <= ap_StateSchemaVersion p < 2 ^ 32.
Proof.
  intros Hs (_ & _ & _ & _ & _ & Hst). unfold schema_u32 in Hs.
  destruct (Aggregate.rt_StateCodec r); [|destruct Hst as [_ ->]; lia].
  destruct Hst as (b & t & _ & _ & _ & -> & _). unfold Aggregate.stateSchemaVersion.
  destruct (Z.eqb_spec (Aggregate.rt_StateSchemaVersion r) 0); lia.
Qed.

Lemma stateSchemaVersion_pos : Aggregate.stateSchemaVersion r <> 0.
Proof. unfold Aggregate.stateSchemaVersion. destruct (Z.eqb_spec (Aggregate.rt_StateSchemaVersion r) 0); lia. Qed.

Lemma cache_coherent_after w1 sid opts evs new ops p old :
  state_codec_roundtrip -> prepared w1 sid opts evs new ops p ->
  cache_coherent r (evs ++ new) (cached_after norm p old).
Proof.
  intros Hrt (_ & Hex & _ & HF & _ & Hst) cached sc s Hc Hsc Hv Hs Hd. rewrite Hsc in Hst.
  destruct Hst as (b & t & Henc & Hb & _ & _ & _). unfold cached_after in Hc. rewrite Hb in Hc.
  injection Hc as <-. simpl in *. rewrite (Hrt sc _ _ _ Hsc Henc) in Hd. injection Hd as <-.
  rewrite Hex, <- (Forall2_length _ _ _ HF), <- Nat2Z.inj_add, <- length_app. split; [lia|].
  by rewrite Nat2Z.id, firstn_all.
Qed.

(** Append of prepared parameters in a world where other writers may have
    extended the stream by [extra]. *)
Lemma append_prepared w1 w2 w3 sid opts evs new ops p res extra :
  options_accepted opts -> state_codec_roundtrip -> schema_u32 ->
  ok w2 -> (forall sid env e, meaning w1 sid env = Some e -> meaning w2 sid env = Some e) ->
  history w2 sid (evs ++ extra) -> prepared w1 sid opts evs new ops p ->
  Z.of_nat (length evs + length new) < 2 ^ 63 ->
  Append (Aggregate.rt_Store r) p w2 = (w3, Ok res) ->
  extra = [] /\ ok w3 /\ StreamID.Validate sid = None /\ stream (view w2) sid `prefix_of` stream (view w3) sid /\
  history w3 sid (evs ++ new) /\
  cache_coherent r (evs ++ new) (cache (view w3) sid) /\
  ar_StartVersion res = Z.of_nat (length evs) + 1 /\
  ar_EndVersion res = Z.of_nat (length (evs ++ new)) /\
  (forall sid', StreamID.Validate sid' = None -> sid' <> sid ->
     stream (view w3) sid' = stream (view w2) sid' /\ cache (view w3) sid' = cache (view w2) sid').
Proof.
  intros Hacc Hrt Hsch Hok Hm Hh Hp Hroom HA. pose proof Hp as (Hsid & Hex & _ & HF & Hall & _).
  pose proof (Forall2_length _ _ _ Hh) as Hlen. rewrite length_app in Hlen.
  pose proof (Forall2_length _ _ _ HF) as Hlen2.
  destruct (sl_append p w2 w3 res Hok HA) as (Hok3 & Hv & Heq & Hs & He & envs & Hc & Hst & Hca & Hoth).
  { rewrite Hex, Hsid. lia. }
  { rewrite Hex, <- Hlen2. lia. }
  { eapply Forall_impl; [exact Hall|].
    intros ev (now & cid & wa & wb & e & id & enc & Hn & Henc & ->). eapply Hacc; done. }
  { by eapply prepared_schema. }
  rewrite Hsid in *. rewrite Hex in Heq, Hs, He.
  assert (extra = []) as -> by (apply length_zero_iff_nil; lia). rewrite app_nil_r in Hh.
  split; [done|]. split; [done|]. split; [done|]. split; [rewrite Hst; by eexists|].
  split; [|split; [|split; [done|split]]].
  - unfold Aggregate.history. rewrite Hst. apply Forall2_app.
    + eapply Forall2_impl; [exact Hh|]. intros env e Hme. exact (el_append p w2 w3 _ Hok HA _ _ _ Hme).
    + clear -Hok HF Hc Hm HA EL. revert HF Hc. generalize (ap_Events p) as evs'. intros evs' HF.
      revert envs. induction HF as [|e ev new evs' Hev _ IH]; intros envs Hc; inversion Hc; subst;
        constructor; [|by apply IH].
      apply (el_append p w2 w3 _ Hok HA), Hm. by apply Hev.
  - rewrite Hca. by eapply cache_coherent_after.
  - rewrite He, length_app, <- Hlen2. lia.
  - done.
Qed.

Lemma coherent_extends w w' sid :
  extends w w' -> StreamID.Validate sid = None -> coherent w sid -> coherent w' sid.
Proof.
  intros Hx Hsid (evs & Hh & Hc). exists evs. split; [by eapply history_extends|].
  destruct Hx as (_ & Hv & _). by destruct (Hv sid Hsid) as [_ ->].
Qed.

(** What a Handle call does to the history of every stream. *)
Definition handled (w w' : W) (sid : StreamID.t) (cmd : C) (x : res AppendResult) : Prop :=
  ok w' /\
  (forall sid', StreamID.Validate sid' = None -> coherent w sid' -> coherent w' sid') /\
  (forall sid' evs, StreamID.Validate sid' = None -> sid' <> sid \/ (exists e, x = Err e) ->
     history w sid' evs -> history w' sid' evs) /\
  (forall res, x = Ok res -> StreamID.Validate sid = None /\
     stream (view w) sid `prefix_of` stream (view w') sid /\
     exists evs new ops,
       history w sid evs /\ terminal (fold_events r evs) = false /\
       Decide (Aggregate.rt_Decider r) (fold_events r evs) cmd = Ok (new, ops) /\
       history w' sid (evs ++ new) /\
       (new = [] -> res = zero_AppendResult) /\
       (new <> [] -> ar_StartVersion res = Z.of_nat (length evs) + 1 /\
                     ar_EndVersion res = Z.of_nat (length (evs ++ new)))).

Lemma handled_pre w w1 w2 sid cmd x :
  extends w w1 -> (StreamID.Validate sid = None -> coherent w sid) ->
  handled w1 w2 sid cmd x -> handled w w2 sid cmd x.
Proof.
  intros Hx Hcoh (Hok & Hco & Hoth & Hres). split; [done|]. split; [|split].
  - intros sid' Hv Hc. apply Hco; [done|]. by eapply coherent_extends.
  - intros sid' evs Hv Hne Hh. apply Hoth; [done|done|]. by eapply history_extends.
  - intros res Hr. destruct (Hres res Hr) as (Hv & Hpre & evs & new & ops & Hh & Hrest). split; [done|].
    split; [destruct Hx as (_ & Hsv & _); by destruct (Hsv sid Hv) as [<- _]|].
    exists evs, new, ops. split; [|done]. destruct (Hcoh Hv) as (evs' & Hh' & _).
    pose proof (history_extends _ _ _ _ Hx Hv Hh') as Hh1.
    by rewrite (history_unique _ _ _ _ Hh Hh1).
Qed.

Lemma handled_post w w1 w2 sid cmd x :
  extends w1 w2 -> handled w w1 sid cmd x -> handled w w2 sid cmd x.
Proof.
  intros Hx (Hok & Hco & Hoth & Hres). split; [apply Hx|]. split; [|split].
  - intros sid' Hv Hc. eapply coherent_extends; eauto.
  - intros sid' evs Hv Hne Hh. eapply history_extends; eauto.
  - intros res Hr. destruct (Hres res Hr) as (Hv & Hpre & evs & new & ops & H1 & H2 & H3 & H4 & H5).
    split; [done|]. split; [destruct Hx as (_ & Hsv & _); by destruct (Hsv sid Hv) as [-> _]|]. exists evs, new, ops. split_and!; try done; [|apply H5..].
    by eapply history_extends.
Qed.

Lemma handled_err w w' sid cmd e : extends w w' -> handled w w' sid cmd (Err e).
Proof.
  intros Hx. split; [apply Hx|]. split; [|split; [|done]].
  - intros sid' Hv Hc. eapply coherent_extends; eauto.
  - intros sid' evs Hv _. by apply history_extends.
Qed.

Definition room (w : W) (sid : StreamID.t) (cmd : C) : Prop :=
  forall evs new ops, history w sid evs ->
    Decide (Aggregate.rt_Decider r) (fold_events r evs) cmd = Ok (new, ops) ->
    Z.of_nat (length evs + length new) < 2 ^ 63.

Lemma handleImpl_spec sid cmd opts w w' x :
  options_accepted opts -> state_codec_roundtrip -> schema_u32 -> (StreamID.Validate sid = None -> room w sid cmd) ->
  ok w -> (StreamID.Validate sid = None -> coherent w sid) ->
  Aggregate.handleImpl RealClock NewV7 r sid cmd opts w = (w', x) -> handled w w' sid cmd x.
Proof.
  intros Hacc Hrt Hsch Hroom Hok Hcoh. unfold Aggregate.handleImpl, mbind, M_bind.
  destruct (Aggregate.prepare RealClock NewV7 r sid cmd opts w) as [w1 [o|e]] eqn:Hprep;
    pose proof (prepare_quiet sid cmd opts _ _ _ Hok Hprep) as Hx.
  2:{ intros [= <- <-]. by apply handled_err. }
  apply prepare_spec in Hprep as (Hsid & evs & new & ops & Hh & Hterm & Hdec & Ho); [|done|done].
  pose proof (history_extends _ _ _ _ Hx Hsid Hh) as Hh1. destruct o as [p|].
  2:{ subst new. intros [= <- <-]. split; [apply Hx|]. split; [|split].
      - intros sid' Hv Hc. eapply coherent_extends; eauto.
      - intros sid' evs' Hv _. by apply history_extends.
      - intros res [= <-]. split; [done|]. split; [destruct Hx as (_ & Hsv & _); by destruct (Hsv sid Hsid) as [-> _]|].
        exists evs, [], ops. rewrite app_nil_r. by split_and!. }
  destruct Ho as [Hne Hp]. destruct x as [res|e]; intros HA.
  - destruct (append_prepared w1 w1 w' sid opts evs new ops p res [] Hacc Hrt Hsch)
      as (_ & Hok' & _ & Hpre & Hh' & Hc' & Hs & He & Hoth); try done; [apply Hx|by rewrite app_nil_r|by eapply Hroom|].
    split; [done|]. split; [|split].
    + intros sid' Hv Hcs. destruct (decide (sid' = sid)) as [->|Hn]; [by exists (evs ++ new)|].
      destruct (coherent_extends _ _ _ Hx Hv Hcs) as (evs' & Hh1' & Hc1').
      destruct (Hoth sid' Hv Hn) as [Hst Hca]. exists evs'. rewrite Hca. split; [|done].
      unfold Aggregate.history in *. rewrite Hst. eapply Forall2_impl; [exact Hh1'|].
      intros env e Hme. exact (el_append p w1 w' _ (proj1 Hx) HA _ _ _ Hme).
    + intros sid' evs' Hv [Hn|[e [=]]] Hh0. pose proof (history_extends _ _ _ _ Hx Hv Hh0) as Hh0'.
      destruct (Hoth sid' Hv Hn) as [Hst _].
      unfold Aggregate.history in *. rewrite Hst. eapply Forall2_impl; [exact Hh0'|].
      intros env e Hme. exact (el_append p w1 w' _ (proj1 Hx) HA _ _ _ Hme).
    + intros res' [= <-]. split; [done|].
      split; [destruct Hx as (_ & Hsv & _); by destruct (Hsv sid Hsid) as [<- _]|]. exists evs, new, ops. split_and!; done.
  - apply handled_err. eapply extends_trans; [exact Hx|].
    destruct (sl_append_err p w1 w' e (proj1 Hx) HA) as [? ?]. split; [done|]. split; [done|].
    intros ? ? ? Hme. exact (el_append p w1 w' _ (proj1 Hx) HA _ _ _ Hme).
Qed.

Lemma Handle_spec sid cmd opts w w' x :
  options_accepted opts -> state_codec_roundtrip -> schema_u32 -> ok w ->
  (StreamID.Validate sid = None -> coherent w sid) ->
  room w sid cmd ->
  Aggregate.Handle RealClock NewV7 r sid cmd opts w = (w', x) -> handled w w' sid cmd x.
Proof.
  intros Hacc Hrt Hsch Hok Hcoh Hroom. unfold Aggregate.Handle. intros H.
  destruct (el_now_total w Hok) as (w1 & t & Hn1). rewrite (bind_run _ _ _ _ _ Hn1) in H.
  pose proof (el_now _ _ _ Hok Hn1) as Hx1.
  destruct (Aggregate.handleImpl RealClock NewV7 r sid cmd opts w1) as [w2 y] eqn:Hi.
  rewrite (bind_run _ _ w1 w2 y) in H by (unfold try; by rewrite Hi).
  apply handleImpl_spec in Hi; [|done|done|done| |apply Hx1|].
  2:{ intros Hsid evs new ops Hh. apply Hroom. destruct (Hcoh Hsid) as (evs' & Hh' & _).
      pose proof (history_extends _ _ _ _ Hx1 Hsid Hh') as Hh1.
      by rewrite (history_unique _ _ _ _ Hh Hh1). }
  2:{ intros Hv. eapply coherent_extends; eauto. }
  destruct (el_now_total w2 (proj1 Hi)) as (w3 & t' & Hn2). rewrite (bind_run _ _ _ _ _ Hn2) in H.
  injection H as <- <-. pose proof (el_now _ _ _ (proj1 Hi) Hn2) as Hx3.
  eapply handled_post; [exact Hx3|]. by eapply handled_pre.
Qed.
End Facts.

Arguments options_accepted {_ _ _ _} _ _ _ _.
Arguments state_codec_roundtrip {_ _ _ _} _ _.
Arguments schema_u32 {_ _ _ _} _.
Arguments terminal {_ _ _ _} _ _.
Arguments room {_ _ _ _} _ _ _ _ _ _.
Arguments handled {_ _ _ _} _ _ _ _ _ _ _ _ _.

(** ** Runtimes without a Shredder *)
Section Plain.
Context {W S C E : Type} {RealClock : M W Time} {NewV7 : M W UUID}
  {r : Aggregate.Runtime W S C E} {ok : W -> Prop} {view : W -> View}
  {accepts : EventToAppend -> Prop} {norm : bytes -> bytes}
  {SL : StoreLaws (Aggregate.rt_Store r) ok view accepts norm}.

(** An envelope means what the codec decodes. *)
Definition plain_meaning (_ : W) (_ : StreamID.t) (env : Envelope.t) : option E :=
  match Decode (Aggregate.rt_Codec r) (Envelope.TypeURL env) (Envelope.SchemaVersion env)
          (Envelope.Payload env) with
  | Ok e => Some e
  | Err _ => None
  end.

Definition codec_roundtrip : Prop :=
  forall e enc, Encode (Aggregate.rt_Codec r) e = Ok enc ->
    Decode (Aggregate.rt_Codec r) (ee_TypeURL enc) (ee_SchemaVersion enc) (ee_Payload enc) = Ok e.

Definition store_silent {A} (m : M W A) : Prop :=
  forall w w' x, ok w -> m w = (w', x) -> ok w' /\ same_view (view w') (view w).

Lemma plain_quiet {A} (m : M W A) : store_silent m -> quiet ok view plain_meaning m.
Proof. intros Hm w w' x Hok H. destruct (Hm w w' x Hok H). by split. Qed.

Lemma plain_event_laws :
  Aggregate.rt_Shredder r = false -> codec_roundtrip ->
  store_silent (Aggregate.Now RealClock r) ->
  (forall w, ok w -> exists w' t, Aggregate.Now RealClock r w = (w', Ok t)) ->
  store_silent NewV7 ->
  (forall f l, Aggregate.rt_OnRedacted r = Some f -> store_silent (f l)) ->
  EventLaws RealClock NewV7 r ok view plain_meaning.
Proof.
  intros Hsh Hcodec Hnow Htot Hid Hred.
  assert (Hdec : forall sid env w, Aggregate.decodeEvent r sid env w =
    (w, match Decode (Aggregate.rt_Codec r) (Envelope.TypeURL env) (Envelope.SchemaVersion env)
               (Envelope.Payload env) with
        | Ok e => Ok (e, []) | Err e => Err (EWrap "aggregate: decode event" e) end)).
  { intros sid env w. unfold Aggregate.decodeEvent, Aggregate.decryptEvent. rewrite Hsh.
    unfold mbind, M_bind, wrap_err, of_res. by destruct (Decode _ _ _ _). }
  split; try done.
  - by apply plain_quiet.
  - by apply plain_quiet.
  - intros f l Hf. apply plain_quiet. by apply Hred.
  - intros sid v. apply plain_quiet. intros w w' x Hok H.
    by destruct (sl_read _ _ _ _ _ Hok H) as (? & ? & _).
  - intros rd t s Hrd. apply plain_quiet. intros w w' x Hok H. by eapply sl_get_silent.
  - intros sid env w w' x Hok. rewrite Hdec. intros [= <- _]. by apply extends_refl.
  - intros sid env w w' e red e' Hok. rewrite Hdec. unfold plain_meaning.
    destruct (Decode _ _ _ _); [|done]. congruence.
  - intros sid cfg e. unfold Aggregate.encodeEvent, Aggregate.encryptEvent. rewrite Hsh.
    apply quiet_bind; [apply quiet_ret|]. intros te. apply quiet_bind; [apply quiet_wrap, quiet_res|].
    intros enc. apply quiet_bind; [by apply plain_quiet|]. intros id. apply quiet_ret.
  - intros sid cfg e w w' ev env Hok _. unfold Aggregate.encodeEvent, Aggregate.encryptEvent. rewrite Hsh.
    intros H Hc. apply bind_Ok in H as (w1 & te & Hte & H). injection Hte as <- <-.
    apply bind_Ok in H as (w2 & enc & Henc%wrap_err_Ok & H). apply of_res_Ok in Henc as [-> Henc].
    apply bind_Ok in H as (w3 & id & _ & H). injection H as <- <-.
    destruct Hc as (_ & Ht & Hs & _ & _ & _ & _ & _ & Hp & _). simpl in Ht, Hs, Hp.
    unfold plain_meaning. by rewrite Ht, Hs, Hp, (Hcodec _ _ Henc).
Qed.
End Plain.
Arguments plain_meaning {_ _ _ _} _ _ _ _.
Arguments codec_roundtrip {_ _ _ _} _.

(** ** Theorems *)


(** C31: Handle.  On a coherent stream, for any command and options, whatever
    the store and the codecs answer: every stream that was coherent is coherent
    afterwards; the other streams, and on an error this stream too, keep their
    history; and if Handle succeeds, the stream was not terminal, the decider
    accepted the command on the replayed state, the envelopes of the stream are
    as they were, and its history was extended by exactly the decided events (none: the zero result; some: the versions
    right after the replayed ones). *)
Theorem handle_correct {W S C E} (RealClock : M W Time) (NewV7 : M W UUID)
    (r : Aggregate.Runtime W S C E) ok view accepts norm meaning
    (SL : StoreLaws (Aggregate.rt_Store r) ok view accepts norm)
    (EL : EventLaws RealClock NewV7 r ok view meaning) sid cmd opts w w' x :
  options_accepted RealClock r accepts opts -> state_codec_roundtrip r norm -> schema_u32 r ->
  ok w -> (StreamID.Validate sid = None -> coherent r view meaning w sid) -> room r view meaning w sid cmd ->
  Aggregate.Handle RealClock NewV7 r sid cmd opts w = (w', x) ->
  handled r ok view meaning w w' sid cmd x.
Proof. apply Handle_spec. Qed.

(** C32: no lost update.  Let a command be prepared (loaded and decided) in
    world [w], and let other writers extend the stream by any events before
    the Append.  If the Append succeeds, there were none: the history still
    was the one the decider saw, and it is now that history followed by the
    decided events. *)
Theorem handle_no_lost_update {W S C E} (RealClock : M W Time) (NewV7 : M W UUID)
    (r : Aggregate.Runtime W S C E) ok view accepts norm meaning
    (SL : StoreLaws (Aggregate.rt_Store r) ok view accepts norm)
    (EL : EventLaws RealClock NewV7 r ok view meaning) sid cmd opts w w1 w2 w3 evs extra p res :
  options_accepted RealClock r accepts opts -> state_codec_roundtrip r norm -> schema_u32 r ->
  ok w -> coherent r view meaning w sid -> room r view meaning w sid cmd ->
  history view meaning w sid evs ->
  Aggregate.prepare RealClock NewV7 r sid cmd opts w = (w1, Ok (Some p)) ->
  ok w2 -> (forall sid env e, meaning w1 sid env = Some e -> meaning w2 sid env = Some e) ->
  history view meaning w2 sid (evs ++ extra) ->
  Append (Aggregate.rt_Store r) p w2 = (w3, Ok res) ->
  extra = [] /\
  exists new ops, Decide (Aggregate.rt_Decider r) (fold_events r evs) cmd = Ok (new, ops) /\
    history view meaning w3 sid (evs ++ new).
Proof.
  intros Hacc Hrt Hsch Hok Hcoh Hroom Hh Hp Hok2 Hm Hh2 HA.
  apply prepare_spec in Hp as (Hsid & evs' & new & ops & Hh' & _ & Hdec & _ & Hp); [|done|done].
  rewrite (history_unique _ _ _ _ Hh' Hh) in *.
  destruct (append_prepared w1 w2 w3 sid opts evs new ops p res extra Hacc Hrt Hsch)
    as (-> & _ & _ & _ & Hh3 & _); try done; [by eapply Hroom|].
  split; [done|]. by exists new, ops.
Qed.
