(* ===== verification/Rebuild.v ===== *)
(** * RebuildStateCache (aggregate/rebuild.go)

    The operator helper that wipes the cached states of an aggregate type,
    reads the global log page by page, folds the events of every stream and
    writes the final states back. *)
From S2P Require Import Prelude Errors Streams Sharding Events Store Aggregate AggregateFacts.

Module Rebuild.
Record streamState (S : Type) := mkStreamState {
  ss_state : S;
  ss_version : Z;
  ss_streamID : StreamID.t
}.
Arguments mkStreamState {_} _ _ _.
Arguments ss_state {_} _.
Arguments ss_version {_} _.
Arguments ss_streamID {_} _.

Section Rebuild.
Context {W S C E : Type} (r : Aggregate.Runtime W S C E).

(** Go iterates maps in an arbitrary order: [order] arranges the entries. *)
Context (order : list (string * streamState S) -> list (string * streamState S)).

Definition pageSize : Z := 500.

Definition streamKey (tenant canonical : string) : string :=
  tenant +:+ String "|"%char canonical.

(** One envelope of the loop body: the streams and the cursor. *)
Definition rebuildEnv (x : gmap string (streamState S) * Z) (env : Envelope.t)
    : gmap string (streamState S) * Z :=
  let '(streams, cursor) := x in
  let cursor' := if cursor <? Envelope.GlobalPosition env then Envelope.GlobalPosition env else cursor in
  match Decode (Aggregate.rt_Codec r) (Envelope.TypeURL env) (Envelope.SchemaVersion env)
          (Envelope.Payload env) with
  | Err _ => (streams, cursor')
  | Ok evt =>
      let key := streamKey (Envelope.TenantID env) (StreamID.Canonical (Envelope.StreamID env)) in
      let s := default (mkStreamState (Initial (Aggregate.rt_Decider r)) 0 (Envelope.StreamID env))
                 (streams !! key) in
      (<[key := mkStreamState (Evolve (Aggregate.rt_Decider r) (ss_state s) evt)
                  (Envelope.Version env) (ss_streamID s)]> streams, cursor')
  end.

Definition readPage (tenant : string) (cursor : Z) : M W (list Envelope.t) :=
  if bool_decide (tenant = "") then ReadAll (Aggregate.rt_Store r) cursor pageSize
  else ReadAllForTenant (Aggregate.rt_Store r) tenant cursor pageSize.

(** The reading loop. [None]: out of fuel. *)
Fixpoint readLoop (fuel : nat) (tenant : string) (x : gmap string (streamState S) * Z) (w : W)
    : option (W * res (gmap string (streamState S))) :=
  match fuel with
  | O => None
  | Datatypes.S fuel' =>
      match readPage tenant (snd x) w with
      | (w1, Err e) => Some (w1, Err (EWrap "aggregate: read events" e))
      | (w1, Ok []) => Some (w1, Ok (fst x))
      | (w1, Ok envs) => readLoop fuel' tenant (foldl rebuildEnv x envs) w1
      end
  end.

Definition stateRow (sc : StateCodec S) (s : streamState S) : res StateCacheRow :=
  match EncodeS sc (ss_state s) with
  | Err e => Err (EWrap "aggregate: encode state" e)
  | Ok (bs, tu) =>
      Ok (mkStateCacheRow (StreamID.Tenant (ss_streamID s)) (StreamID.Canonical (ss_streamID s)) tu bs
            (ss_version s)
            (match IsTerminal (Aggregate.rt_Decider r) with Some f => f (ss_state s) | None => false end)
            0 zero_time)
  end.

(** The writing loop: how many rows were written, and the error that ended it. *)
Fixpoint writeLoop (sc : StateCodec S) (up : StateCacheUpserter W) (written : Z)
    (l : list (string * streamState S)) (w : W) : W * (Z * option err) :=
  match l with
  | [] => (w, (written, None))
  | (_, s) :: l' =>
      match stateRow sc s with
      | Err e => (w, (written, Some e))
      | Ok row =>
          match UpsertCachedState up row w with
          | (w1, Err e) => (w1, (written, Some (EWrap "aggregate: upsert state" e)))
          | (w1, Ok _) => writeLoop sc up (written + 1) l' w1
          end
      end
  end.

Definition RebuildStateCache (fuel : nat) (rb : StateCacheWriter W) (tenant : string) (w : W)
    : option (W * (Z * option err)) :=
  match Aggregate.rt_StateCodec r with
  | None => Some (w, (0, Some (ENew "aggregate: RebuildStateCache requires Runtime.StateCodec to be set")))
  | Some sc =>
      match EncodeS sc (Initial (Aggregate.rt_Decider r)) with
      | Err e => Some (w, (0, Some (EWrap "aggregate: probe state type URL" e)))
      | Ok (_, typeURL) =>
          match WipeStateCacheForType rb tenant typeURL w with
          | (w1, Err e) => Some (w1, (0, Some (EWrap "aggregate: wipe state_cache" e)))
          | (w1, Ok _) =>
              match readLoop fuel tenant (∅, 0) w1 with
              | None => None
              | Some (w2, Err e) => Some (w2, (0, Some e))
              | Some (w2, Ok streams) =>
                  match AsStateCacheUpserter (Aggregate.rt_Store r) with
                  | None => Some (w2, (0, Some (ENew "aggregate: adapter does not implement es.StateCacheUpserter")))
                  | Some up => Some (writeLoop sc up 0 (order (map_to_list streams)) w2)
                  end
              end
          end
      end
  end.
End Rebuild.
End Rebuild.

(** ** What the rebuild relies on *)

(** The log is the global sequence of envelopes; [keeps] is an operation that
    changes neither it nor a stream nor a cached state. *)
Section Keeps.
Context {W : Type} (ok : W -> Prop) (view : W -> View) (log : W -> list Envelope.t).

Definition same_store (w w' : W) : Prop :=
  ok w' /\ log w' = log w /\
  (forall sid, StreamID.Validate sid = None -> stream (view w') sid = stream (view w) sid).

Definition in_tenant (tenant : string) (e : Envelope.t) : Prop :=
  tenant = "" \/ Envelope.TenantID e = tenant.
#[global] Instance in_tenant_dec tenant e : Decision (in_tenant tenant e).
Proof. unfold in_tenant. apply _. Defined.

(** The page of [n] envelopes after position [from]. *)
Definition page (tenant : string) (from n : Z) (l : list Envelope.t) : list Envelope.t :=
  take (Z.to_nat n)
    (filter (fun e => from < Envelope.GlobalPosition e) (filter (in_tenant tenant) l)).
End Keeps.

Class LogLaws {W : Type} (St : Store W) (ok : W -> Prop) (view : W -> View)
    (log : W -> list Envelope.t) (norm : bytes -> bytes) := {
  ll_sorted : forall w, ok w ->
    StronglySorted (fun a b => Envelope.GlobalPosition a < Envelope.GlobalPosition b) (log w) /\
    Forall (fun e => 0 < Envelope.GlobalPosition e < 2 ^ 63) (log w);
  ll_valid : forall w e, ok w -> e ∈ log w ->
    StreamID.Validate (Envelope.StreamID e) = None /\
    Envelope.TenantID e = StreamID.Tenant (Envelope.StreamID e) /\
    0 <= Envelope.Version e < 2 ^ 63;
  ll_stream : forall w sid, ok w -> StreamID.Validate sid = None ->
    stream (view w) sid = filter (fun e => Envelope.StreamID e = sid) (log w);
  ll_read_all : forall from n w w' x, ok w -> 0 <= from < 2 ^ 63 -> 0 <= n ->
    ReadAll St from n w = (w', x) ->
    same_store ok view log w w' /\ (forall sid, cache (view w') sid = cache (view w) sid) /\
    (forall envs, x = Ok envs -> envs = page "" from n (log w));
  ll_read_tenant : forall t from n w w' x, ok w -> 0 <= from < 2 ^ 63 -> 0 <= n -> t <> "" ->
    ReadAllForTenant St t from n w = (w', x) ->
    same_store ok view log w w' /\ (forall sid, cache (view w') sid = cache (view w) sid) /\
    (forall envs, x = Ok envs -> envs = page t from n (log w));
  ll_wipe : forall wr t u w w' x, ok w -> AsStateCacheWriter St = Some wr ->
    WipeStateCacheForType wr t u w = (w', x) ->
    same_store ok view log w w' /\
    (forall sid c, cache (view w') sid = Some c -> cache (view w) sid = Some c);
  ll_upsert : forall up row sid w w' x, ok w -> AsStateCacheUpserter St = Some up ->
    StreamID.Validate sid = None -> sc_TenantID row = StreamID.Tenant sid ->
    sc_StreamID row = StreamID.Canonical sid -> 0 <= sc_Version row < 2 ^ 63 ->
    sc_StateSchemaVersion row = 0 ->
    UpsertCachedState up row w = (w', x) ->
    same_store ok view log w w' /\
    (forall sid', StreamID.Validate sid' = None ->
       cache (view w') sid' =
       match x with
       | Ok _ => if decide (sid' = sid) then Some (mkCached (norm (sc_State row)) (sc_Version row) 1)
                 else cache (view w) sid'
       | Err _ => cache (view w) sid'
       end)
}.

(** ** The fold over the log *)
Section Fold.
Context {W S C E : Type} (r : Aggregate.Runtime W S C E).
Notation rebuildEnv := (Rebuild.rebuildEnv r).
Notation fold_log l := (foldl rebuildEnv (∅, 0) l).

Definition log_sorted : list Envelope.t -> Prop :=
  StronglySorted (fun a b => Envelope.GlobalPosition a < Envelope.GlobalPosition b).

Lemma rebuildEnv_cursor x env :
  snd (rebuildEnv x env) = Z.max (snd x) (Envelope.GlobalPosition env).
Proof.
  destruct x as [m c]. unfold Rebuild.rebuildEnv.
  assert (H : (if c <? Envelope.GlobalPosition env then Envelope.GlobalPosition env else c) =
    Z.max c (Envelope.GlobalPosition env)).
  { destruct (Z.ltb_spec c (Envelope.GlobalPosition env)); lia. }
  by destruct (Decode _ _ _ _).
Qed.

(** The cursor is the position of the last envelope read. *)
Lemma cursor_last l :
  log_sorted l -> Forall (fun e => 0 < Envelope.GlobalPosition e < 2 ^ 63) l ->
  snd (fold_log l) = default 0 (Envelope.GlobalPosition <$> last l).
Proof.
  induction l as [|e l IH] using rev_ind; [done|]. intros Hs HF.
  apply StronglySorted_app_inv in Hs as (Hs & _ & Hlt). apply Forall_app in HF as [HF He].
  rewrite foldl_app. cbn [foldl]. rewrite rebuildEnv_cursor, IH, last_snoc by done. simpl.
  rewrite Forall_singleton in He.
  destruct (last l) as [e'|] eqn:Hl; simpl; [|lia].
  assert (Envelope.GlobalPosition e' < Envelope.GlobalPosition e); [|lia].
  apply Hlt; [by apply last_Some_elem_of|by apply list_elem_of_singleton].
Qed.

(** A page after the cursor continues where the fold stopped. *)
Lemma filter_cursor pre post :
  log_sorted (pre ++ post) -> Forall (fun e => 0 < Envelope.GlobalPosition e < 2 ^ 63) (pre ++ post) ->
  filter (fun e => snd (fold_log pre) < Envelope.GlobalPosition e) (pre ++ post) = post.
Proof.
  intros Hs HF. pose proof Hs as (Hs1 & _ & Hlt)%StronglySorted_app_inv.
  apply Forall_app in HF as [HF1 HF2]. rewrite cursor_last by done.
  rewrite filter_app, filter_keep_none, app_nil_l; [|].
  - apply filter_keep_all. apply Forall_forall. intros e He.
    destruct (last pre) as [e'|] eqn:Hl; simpl.
    + apply Hlt; [by apply last_Some_elem_of|done].
    + rewrite Forall_forall in HF2. by apply HF2.
  - apply Forall_forall. intros e He.
    destruct pre as [|e' pre _] using rev_ind; [by apply elem_of_nil in He|].
    rewrite last_snoc. simpl. apply StronglySorted_app_inv in Hs1 as (_ & _ & Hlt1).
    apply elem_of_app in He as [He|He]; [|apply list_elem_of_singleton in He as ->; lia].
    specialize (Hlt1 e e' He). rewrite list_elem_of_singleton in Hlt1. specialize (Hlt1 eq_refl). lia.
Qed.

(** The events this runtime's codec knows. *)
Definition decoded (l : list Envelope.t) : list (Envelope.t * E) :=
  omap (fun env =>
    match Decode (Aggregate.rt_Codec r) (Envelope.TypeURL env) (Envelope.SchemaVersion env)
            (Envelope.Payload env) with
    | Ok e => Some (env, e) | Err _ => None end) l.

(** What the rebuild computes for a stream. *)
Definition summary (sid : StreamID.t) (l : list (Envelope.t * E)) : option (Rebuild.streamState S) :=
  match last l with
  | None => None
  | Some x => Some (Rebuild.mkStreamState (fold_events r (snd <$> l)) (Envelope.Version (fst x)) sid)
  end.

Definition env_valid (e : Envelope.t) : Prop :=
  StreamID.Validate (Envelope.StreamID e) = None /\
  Envelope.TenantID e = StreamID.Tenant (Envelope.StreamID e) /\ 0 <= Envelope.Version e < 2 ^ 63.

Definition sid_key (sid : StreamID.t) : string :=
  Rebuild.streamKey (StreamID.Tenant sid) (StreamID.Canonical sid).

Lemma sid_key_inj s1 s2 :
  StreamID.Validate s1 = None -> StreamID.Validate s2 = None -> sid_key s1 = sid_key s2 -> s1 = s2.
Proof.
  intros H1 H2 H. apply quarantineKey_inj in H as [Ht Hc]; [|done|done].
  by apply StreamID.Canonical_inj.
Qed.

Lemma decoded_app l1 l2 : decoded (l1 ++ l2) = decoded l1 ++ decoded l2.
Proof. apply omap_app. Qed.

Lemma fold_log_lookup l sid :
  Forall env_valid l -> StreamID.Validate sid = None ->
  fst (fold_log l) !! sid_key sid = summary sid (decoded (filter (fun e => Envelope.StreamID e = sid) l)).
Proof.
  intros HF Hv. induction l as [|e l IH] using rev_ind; [done|].
  apply Forall_app in HF as [HF He]. rewrite Forall_singleton in He. destruct He as (Hev & Ht & _). specialize (IH HF).
  rewrite foldl_app, filter_app, decoded_app. cbn [foldl].
  destruct (fold_log l) as [m c]. unfold Rebuild.rebuildEnv. simpl in IH.
  rewrite Ht. fold (sid_key (Envelope.StreamID e)).
  destruct (Decode (Aggregate.rt_Codec r) _ _ _) as [evt|] eqn:Hd.
  - cbn [fst]. destruct (decide (Envelope.StreamID e = sid)) as [<-|Hne].
    + rewrite lookup_insert_eq, filter_cons_True, filter_nil by done.
      unfold decoded at 2. cbn [omap list_omap]. rewrite Hd. unfold summary in *.
      rewrite last_snoc, IH. f_equal. cbn [fst].
      destruct (last (decoded _)) as [x|] eqn:Hl; simpl.
      * f_equal. unfold fold_events. by rewrite fmap_app, foldl_app.
      * apply last_None in Hl. rewrite Hl. done.
    + rewrite lookup_insert_ne by (intros H%sid_key_inj; done).
      rewrite filter_cons_False, filter_nil, app_nil_r by done. exact IH.
  - cbn [fst]. rewrite IH. destruct (decide (Envelope.StreamID e = sid)) as [<-|Hne].
    + rewrite filter_cons_True, filter_nil by done. unfold decoded at 3. cbn [omap list_omap].
      by rewrite Hd, app_nil_r.
    + by rewrite filter_cons_False, filter_nil, app_nil_r by done.
Qed.

Lemma fold_log_keys l k s :
  Forall env_valid l -> fst (fold_log l) !! k = Some s ->
  k = sid_key (Rebuild.ss_streamID s) /\ StreamID.Validate (Rebuild.ss_streamID s) = None /\
  0 <= Rebuild.ss_version s < 2 ^ 63.
Proof.
  revert k s. induction l as [|e l IH] using rev_ind; [done|]. intros k s HF.
  apply Forall_app in HF as [HF He]. rewrite Forall_singleton in He. destruct He as (Hev & Ht & Hver).
  specialize (fun k s => IH k s HF). rewrite foldl_app. cbn [foldl].
  destruct (fold_log l) as [m c]. unfold Rebuild.rebuildEnv. simpl in IH.
  destruct (Decode _ _ _ _) as [evt|]; [|apply IH]. cbn [fst].
  rewrite Ht. fold (sid_key (Envelope.StreamID e)).
  intros [[<- <-]|[Hne Hl]]%lookup_insert_Some; [|by apply IH]. simpl.
  destruct (m !! sid_key (Envelope.StreamID e)) as [s'|] eqn:Hm; simpl; [|done].
  destruct (IH _ _ Hm) as (? & ? & ?). done.
Qed.
End Fold.

(** ** The loops *)
Section Loops.
Context {W S C E : Type} {r : Aggregate.Runtime W S C E}
  {order : list (string * Rebuild.streamState S) -> list (string * Rebuild.streamState S)}
  {ok : W -> Prop} {view : W -> View} {log : W -> list Envelope.t} {norm : bytes -> bytes}
  {LL : LogLaws (Aggregate.rt_Store r) ok view log norm}.
Notation fold_log l := (foldl (Rebuild.rebuildEnv r) (∅, 0) l).
Notation same_store := (same_store ok view log).

Lemma same_store_refl w : ok w -> same_store w w.
Proof. by intros. Qed.

Lemma same_store_trans w1 w2 w3 : same_store w1 w2 -> same_store w2 w3 -> same_store w1 w3.
Proof.
  intros (_ & Hl & Hs) (Hok & Hl' & Hs'). split; [done|]. split; [congruence|].
  intros sid Hv. rewrite Hs', Hs; done.
Qed.

Lemma scope_sorted w tenant :
  ok w -> log_sorted (filter (in_tenant tenant) (log w)) /\
    Forall (fun e => 0 < Envelope.GlobalPosition e < 2 ^ 63) (filter (in_tenant tenant) (log w)).
Proof.
  intros Hok. destruct (ll_sorted w Hok) as [Hs HF]. split; [by apply StronglySorted_filter|].
  apply Forall_forall. intros e [_ He]%list_elem_of_filter. rewrite Forall_forall in HF. by apply HF.
Qed.

Lemma readPage_spec tenant cursor w w' x :
  ok w -> 0 <= cursor < 2 ^ 63 -> Rebuild.readPage r tenant cursor w = (w', x) ->
  same_store w w' /\ (forall sid, cache (view w') sid = cache (view w) sid) /\
  (forall envs, x = Ok envs -> envs = page tenant cursor Rebuild.pageSize (log w)).
Proof.
  intros Hok Hc. unfold Rebuild.readPage. case_bool_decide as Ht.
  - subst tenant. by apply ll_read_all.
  - by apply ll_read_tenant.
Qed.

(** The paged loop reads the whole log once, in order, and ends. *)
Lemma readLoop_spec fuel tenant : forall pre post w,
  ok w -> filter (in_tenant tenant) (log w) = pre ++ post -> (length post < fuel)%nat ->
  exists w' y, Rebuild.readLoop r fuel tenant (fold_log pre) w = Some (w', y) /\
    same_store w w' /\ (forall sid, cache (view w') sid = cache (view w) sid) /\
    (forall m, y = Ok m -> m = fst (fold_log (pre ++ post))).
Proof.
  induction fuel as [|fuel IH]; intros pre post w Hok Hlog Hfuel; [lia|]. cbn [Rebuild.readLoop].
  destruct (scope_sorted w tenant Hok) as [Hs HF]. rewrite Hlog in Hs, HF.
  assert (Hcur : 0 <= snd (fold_log pre) < 2 ^ 63).
  { rewrite cursor_last; [|exact (proj1 (StronglySorted_app_inv _ _ _ Hs))|by apply Forall_app in HF as [? _]].
    destruct (last pre) as [e|] eqn:Hl; simpl; [|lia].
    apply Forall_app in HF as [HF _]. rewrite Forall_forall in HF.
    specialize (HF e (last_Some_elem_of _ _ Hl)). lia. }
  destruct (Rebuild.readPage r tenant (snd (fold_log pre)) w) as [w1 x] eqn:Hp.
  destruct (readPage_spec _ _ _ _ _ Hok Hcur Hp) as (Hsame & Hcache & Henvs).
  destruct x as [envs|e]; [|by do 2 eexists].
  specialize (Henvs envs eq_refl). unfold page in Henvs. rewrite Hlog in Henvs.
  rewrite filter_cursor in Henvs by done.
  destruct envs as [|env envs].
  - exists w1, (Ok (fst (fold_log pre))). split_and!; try done. intros m [= <-].
    destruct post; [by rewrite app_nil_r|done].
  - set (pg := env :: envs) in *.
    assert (Hpost : post = pg ++ drop (Z.to_nat Rebuild.pageSize) post).
    { rewrite Henvs. by rewrite take_drop. }
    destruct (IH (pre ++ pg) (drop (Z.to_nat Rebuild.pageSize) post) w1)
      as (w' & y & Hrun & Hsame' & Hcache' & Hm).
    + apply Hsame.
    + destruct Hsame as (_ & -> & _). by rewrite Hlog, <- app_assoc, <- Hpost.
    + apply (f_equal length) in Hpost. rewrite length_app in Hpost. simpl in Hpost. lia.
    + rewrite foldl_app in Hrun. exists w', y. split; [done|].
      split; [by eapply same_store_trans|]. split; [intros; by rewrite Hcache'|].
      intros m Hy. rewrite (Hm m Hy), <- app_assoc. by rewrite <- Hpost.
Qed.

Definition entry_ok (x : string * Rebuild.streamState S) : Prop :=
  StreamID.Validate (Rebuild.ss_streamID (snd x)) = None /\ 0 <= Rebuild.ss_version (snd x) < 2 ^ 63.

(** The cached state written for [s]. *)
Definition written_cache (sc : StateCodec S) (s : Rebuild.streamState S) (c : option Cached) : Prop :=
  exists b t, EncodeS sc (Rebuild.ss_state s) = Ok (b, t) /\
    c = Some (mkCached (norm b) (Rebuild.ss_version s) 1).

Lemma writeLoop_spec sc up l : forall n w w' m,
  AsStateCacheUpserter (Aggregate.rt_Store r) = Some up -> ok w -> Forall entry_ok l ->
  NoDup (Rebuild.ss_streamID ∘ snd <$> l) ->
  Rebuild.writeLoop r sc up n l w = (w', (m, None)) ->
  same_store w w' /\ m = n + Z.of_nat (length l) /\
  (forall x, x ∈ l -> written_cache sc (snd x) (cache (view w') (Rebuild.ss_streamID (snd x)))) /\
  (forall sid, StreamID.Validate sid = None -> sid ∉ (Rebuild.ss_streamID ∘ snd <$> l) ->
     cache (view w') sid = cache (view w) sid).
Proof.
  induction l as [|[k s] l IH]; intros n w w' m Hup Hok HF Hnd; cbn [Rebuild.writeLoop].
  - intros [= <- <-]. split_and!; [by apply same_store_refl|simpl; lia| |done].
    intros x Hx. by apply elem_of_nil in Hx.
  - apply Forall_cons in HF as [[Hv Hver] HF]. csimpl in Hnd. apply NoDup_cons in Hnd as [Hni Hnd].
    simpl in Hv, Hver, Hni. unfold Rebuild.stateRow.
    destruct (EncodeS sc (Rebuild.ss_state s)) as [[b t]|] eqn:Henc; [|done].
    destruct (UpsertCachedState up _ w) as [w1 [[]|]] eqn:Hu; [|done].
    apply (ll_upsert up _ (Rebuild.ss_streamID s)) in Hu as [Hsame Hca]; try done. simpl in Hca.
    intros Hrec. apply IH in Hrec as (Hsame' & -> & Hin & Hout); try done; [|apply Hsame].
    split_and!.
    + by eapply same_store_trans.
    + simpl. lia.
    + intros x [->|Hx]%elem_of_cons; [|by apply Hin]. simpl. exists b, t. split; [done|].
      rewrite Hout, Hca, decide_True by done. done.
    + intros sid Hsid. csimpl. rewrite not_elem_of_cons. intros [Hne Hnot].
      rewrite Hout, Hca, decide_False by done. done.
Qed.
End Loops.

Section Result.
Context {W S C E : Type} {r : Aggregate.Runtime W S C E}
  {order : list (string * Rebuild.streamState S) -> list (string * Rebuild.streamState S)}
  {ok : W -> Prop} {view : W -> View} {log : W -> list Envelope.t} {norm : bytes -> bytes}
  {LL : LogLaws (Aggregate.rt_Store r) ok view log norm}.
Context (order_perm : forall l, order l ≡ₚ l).

Definition in_scope (tenant : string) (sid : StreamID.t) : Prop :=
  tenant = "" \/ StreamID.Tenant sid = tenant.

#[local] Instance in_scope_dec tenant sid : Decision (in_scope tenant sid).
Proof. unfold in_scope. apply _. Defined.

Lemma scope_stream w tenant sid :
  ok w -> StreamID.Validate sid = None -> in_scope tenant sid ->
  filter (fun e => Envelope.StreamID e = sid) (filter (in_tenant tenant) (log w)) =
  stream (view w) sid.
Proof.
  intros Hok Hv Hsc. rewrite (ll_stream w sid Hok Hv).
  rewrite list_filter_filter. apply filter_ext_in. intros e He.
  split; [tauto|]. intros Hs. split; [done|]. unfold in_tenant.
  destruct (ll_valid w e Hok He) as (_ & -> & _). by rewrite Hs.
Qed.

Lemma log_valid w tenant : ok w -> Forall env_valid (filter (in_tenant tenant) (log w)).
Proof.
  intros Hok. apply Forall_forall. intros e [_ He]%list_elem_of_filter. by apply (ll_valid w e).
Qed.

(** What the rebuild leaves, stream by stream. *)
Definition rebuilt (sc : StateCodec S) (tenant : string) (w w' : W) : Prop :=
  forall sid, StreamID.Validate sid = None ->
    match summary r sid (decoded r (stream (view w) sid)) with
    | Some s => in_scope tenant sid -> written_cache (norm := norm) sc s (cache (view w') sid)
    | None => in_scope tenant sid -> forall c, cache (view w') sid = Some c -> cache (view w) sid = Some c
    end.

Lemma written_entries (l : list Envelope.t) :
  Forall env_valid l ->
  let m := fst (foldl (Rebuild.rebuildEnv r) (∅, 0) l) in
  Forall entry_ok (order (map_to_list m)) /\
  NoDup (Rebuild.ss_streamID ∘ snd <$> order (map_to_list m)) /\
  (forall k s, (k, s) ∈ order (map_to_list m) <-> m !! k = Some s).
Proof.
  intros HF m. assert (Hin : forall k s, (k, s) ∈ order (map_to_list m) <-> m !! k = Some s).
  { intros k s. rewrite order_perm. apply elem_of_map_to_list. }
  split; [|split; [|done]].
  - apply Forall_forall. intros [k s] Hks%Hin. by destruct (fold_log_keys r l k s HF Hks) as (_ & ? & ?).
  - rewrite order_perm. apply NoDup_fmap_2_strong; [|apply NoDup_map_to_list].
    intros [k s] [k' s'] Hk Hk' Heq. simpl in Heq. apply elem_of_map_to_list in Hk, Hk'.
    destruct (fold_log_keys r l k s HF Hk) as (-> & _ & _).
    destruct (fold_log_keys r l k' s' HF Hk') as (-> & _ & _). rewrite Heq in *. congruence.
Qed.

Lemma RebuildStateCache_spec fuel wr tenant w :
  ok w -> AsStateCacheWriter (Aggregate.rt_Store r) = Some wr -> (length (log w) < fuel)%nat ->
  exists w' n e, Rebuild.RebuildStateCache r order fuel wr tenant w = Some (w', (n, e)) /\
    (e = None -> same_store ok view log w w' /\
       exists sc, Aggregate.rt_StateCodec r = Some sc /\ rebuilt sc tenant w w').
Proof.
  intros Hok Hwr Hfuel. unfold Rebuild.RebuildStateCache.
  destruct (Aggregate.rt_StateCodec r) as [sc|]; [|by do 3 eexists].
  destruct (EncodeS sc _) as [[b0 tu]|]; [|by do 3 eexists].
  destruct (WipeStateCacheForType wr tenant tu w) as [w1 [nw|e]] eqn:Hw; [|by do 3 eexists].
  destruct (ll_wipe _ _ _ _ _ _ Hok Hwr Hw) as [Hs1 Hc1].
  destruct (readLoop_spec (r := r) (view := view) (log := log) (norm := norm) fuel tenant []
    (filter (in_tenant tenant) (log w1)) w1) as (w2 & y & Hrun & Hs2 & Hc2 & Hm);
    [apply Hs1|done| |].
  { destruct Hs1 as (_ & -> & _). eapply Nat.le_lt_trans; [apply length_filter|done]. }
  simpl in Hrun. rewrite Hrun. destruct y as [m|e]; [|by do 3 eexists].
  destruct (AsStateCacheUpserter (Aggregate.rt_Store r)) as [up|] eqn:Hup; [|by do 3 eexists].
  specialize (Hm m eq_refl). simpl in Hm.
  destruct (Rebuild.writeLoop r sc up 0 (order (map_to_list m)) w2) as [w3 [n e]] eqn:Hwl.
  exists w3, n, e. split; [done|]. intros ->.
  pose proof (log_valid w1 tenant (proj1 Hs1)) as Hval.
  destruct (written_entries _ Hval) as (Hent & Hnd & Hin). rewrite <- Hm in Hent, Hnd, Hin.
  destruct (writeLoop_spec (view := view) (log := log) (norm := norm) sc up _ _ _ _ _ Hup (proj1 Hs2) Hent Hnd Hwl)
    as (Hs3 & _ & Hwin & Hwout).
  split; [eapply same_store_trans; [exact Hs1|]; by eapply same_store_trans|].
  exists sc. split; [done|]. intros sid Hv.
  pose proof (fold_log_lookup r _ sid Hval Hv) as Hl. rewrite <- Hm in Hl.
  destruct (decide (in_scope tenant sid)) as [Hsc|Hsc]; [|case_match; intros H'; by destruct Hsc].
  rewrite (scope_stream w1 tenant sid (proj1 Hs1) Hv Hsc) in Hl.
  destruct Hs1 as (Hok1 & Hlog1 & Hst1). rewrite Hst1 in Hl by done.
  destruct (summary r sid (decoded r (stream (view w) sid))) as [s|] eqn:Hsum; intros _.
  - pose proof (Hwin (sid_key sid, s) (proj2 (Hin _ _) Hl)) as Hc. simpl in Hc.
    assert (Hid : Rebuild.ss_streamID s = sid); [|by rewrite Hid in Hc].
    unfold summary in Hsum. destruct (last _); [|done]. by injection Hsum as <-.
  - intros c Hc. apply Hc1. rewrite <- Hc2, <- Hc. symmetry. apply Hwout; [done|].
    intros ([k s] & Hsid & Hks)%list_elem_of_fmap. simpl in Hsid. apply Hin in Hks.
    destruct (fold_log_keys r _ k s Hval) as (Hk & _); [by rewrite <- Hm|].
    rewrite Hk, <- Hsid in Hks. congruence.
Qed.
End Result.

Lemma decoded_history {W S C E} (r : Aggregate.Runtime W S C E) (w : W) sid envs evs :
  Forall2 (fun env e => plain_meaning r w sid env = Some e) envs evs ->
  decoded r envs = zip envs evs.
Proof.
  induction 1 as [|env e envs evs He _ IH]; [done|]. unfold decoded, plain_meaning in *.
  csimpl. destruct (Decode _ _ _ _); [|done]. injection He as ->. by rewrite IH.
Qed.

Lemma summary_history {W S C E} (r : Aggregate.Runtime W S C E) (w : W) sid envs evs n :
  Forall2 (fun env e => plain_meaning r w sid env = Some e) envs evs ->
  Envelope.Version <$> envs = seqZ 1 n -> n = Z.of_nat (length envs) -> evs <> [] ->
  summary r sid (decoded r envs) =
    Some (Rebuild.mkStreamState (fold_events r evs) (Z.of_nat (length evs)) sid).
Proof.
  intros HF Hv Hn Hne. rewrite (decoded_history r w sid envs evs HF). unfold summary.
  pose proof (Forall2_length _ _ _ HF) as Hlen.
  rewrite snd_zip by lia.
  destruct envs as [|env envs _] using rev_ind; [by destruct evs|].
  destruct evs as [|ev evs _] using rev_ind; [done|].
  rewrite !length_app in Hlen. simpl in Hlen.
  rewrite zip_with_app by lia. simpl. rewrite last_snoc. simpl. do 2 f_equal.
  apply (f_equal last) in Hv. rewrite fmap_app in Hv. simpl in Hv.
  rewrite last_snoc, length_app in *. simpl in Hn. rewrite last_seqZ in Hv by lia.
  injection Hv as ->. simpl. lia.
Qed.

(** What follows the last event that was taken is what is after its position. *)
Lemma after_last l c taken left :
  log_sorted l -> filter (fun e => c < Envelope.GlobalPosition e) l = taken ++ left -> taken <> [] ->
  filter (fun e => default 0 (Envelope.GlobalPosition <$> list.last taken) < Envelope.GlobalPosition e) l = left.
Proof.
  intros Hs Htodo Hne. destruct taken as [|e taken _] using rev_ind; [done|]. rewrite last_snoc. simpl.
  set (pending := filter (fun e => c < Envelope.GlobalPosition e) l) in *.
  assert (Hst : log_sorted ((taken ++ [e]) ++ left)) by (rewrite <- Htodo; by apply StronglySorted_filter).
  assert (He : c < Envelope.GlobalPosition e).
  { assert (Hin : e ∈ pending) by (rewrite Htodo; set_solver). by apply list_elem_of_filter in Hin as [? _]. }
  trans (filter (fun x => Envelope.GlobalPosition e < Envelope.GlobalPosition x) pending).
  - unfold pending. rewrite list_filter_filter. apply filter_ext_in. lia.
  - rewrite Htodo. apply StronglySorted_app_inv in Hst as (Hst & _ & Hlt).
    apply StronglySorted_app_inv in Hst as (_ & _ & Hle).
    rewrite filter_app, filter_keep_none, filter_keep_all; [done|..]; apply Forall_forall; intros x Hx.
    + apply Hlt; [set_solver|done].
    + apply elem_of_app in Hx as [Hx| ->%list_elem_of_singleton]; [|lia].
      specialize (Hle x e Hx). cut (Envelope.GlobalPosition x < Envelope.GlobalPosition e); [lia|].
      apply Hle. set_solver.
Qed.

(** The events of a stream as Load folds them: decoded and, with a Shredder,
    decrypted. *)
Definition replayed {W S C E} (r : Aggregate.Runtime W S C E) (view : W -> View) (w : W) (sid : StreamID.t)
    (evs : list E) : Prop :=
  Forall2 (fun env e => Aggregate.decodeEvent r sid env w = (w, Ok (e, []))) (stream (view w) sid) evs.

(** Without a Shredder, decoding is all there is. *)
Lemma replayed_plain {W S C E} (r : Aggregate.Runtime W S C E) view w sid evs :
  Aggregate.rt_Shredder r = false -> replayed r view w sid evs -> history view (plain_meaning r) w sid evs.
Proof.
  intros Hno Hr. eapply Forall2_impl; [exact Hr|]. intros env e He. cbv beta in He.
  unfold Aggregate.decodeEvent in He. apply bind_Ok in He as (w1 & x & Hx & He). apply wrap_err_Ok in Hx.
  apply of_res_Ok in Hx as [-> Hx]. unfold Aggregate.decryptEvent in He. rewrite Hno in He.
  injection He as <-. unfold plain_meaning. by rewrite Hx.
Qed.

(** With or without a Shredder, the rebuild folds the events as the codec
    decodes them. *)
Lemma rebuild_folds_stored {W S C E} (r : Aggregate.Runtime W S C E)
    order ok view accepts log norm
    (SL : StoreLaws (Aggregate.rt_Store r) ok view accepts norm)
    (LL : LogLaws (Aggregate.rt_Store r) ok view log norm) fuel wr tenant w :
  (forall l, order l ≡ₚ l) -> ok w -> AsStateCacheWriter (Aggregate.rt_Store r) = Some wr ->
  (length (log w) < fuel)%nat ->
  exists w' n e, Rebuild.RebuildStateCache r order fuel wr tenant w = Some (w', (n, e)) /\
    (e = None -> log w' = log w /\
       exists sc, Aggregate.rt_StateCodec r = Some sc /\
       forall sid evs, StreamID.Validate sid = None -> in_scope tenant sid ->
         history view (plain_meaning r) w sid evs -> evs <> [] ->
         exists b t, EncodeS sc (fold_events r evs) = Ok (b, t) /\
           cache (view w') sid = Some (mkCached (norm b) (Z.of_nat (length evs)) 1)).
Proof.
  intros Hperm Hok Hwr Hfuel.
  destruct (RebuildStateCache_spec (order := order) Hperm fuel wr tenant w Hok Hwr Hfuel)
    as (w' & n & e & Hrun & Hpost).
  exists w', n, e. split; [done|]. intros He. destruct (Hpost He) as ((_ & Hlog & _) & sc & Hsc & Hreb).
  split; [done|]. exists sc. split; [done|]. intros sid evs Hv Hin Hh Hne.
  specialize (Hreb sid Hv).
  rewrite (summary_history r w sid _ evs _ Hh (sl_dense w sid Hok Hv) eq_refl Hne) in Hreb.
  exact (Hreb Hin).
Qed.

(** The runtime with another Shredder and other PII methods. *)
Definition with_shredder {W S C E} (sh : bool) (m : EventMethods W E) (r : Aggregate.Runtime W S C E)
    : Aggregate.Runtime W S C E :=
  Aggregate.mkRuntime W S C E (Aggregate.rt_Store r) (Aggregate.rt_Decider r) (Aggregate.rt_Codec r)
    (Aggregate.rt_StateCodec r) (Aggregate.rt_StateSchemaVersion r) sh m (Aggregate.rt_OnRedacted r)
    (Aggregate.rt_Clock r).

(** RebuildStateCache never decrypts: it does the same whatever Shredder and
    PII methods the runtime has, so for a runtime with a Shredder the rebuilt
    states are folds of the sealed events. *)
Lemma rebuild_never_decrypts {W S C E} sh m (r : Aggregate.Runtime W S C E) order fuel wr tenant w :
  Rebuild.RebuildStateCache (with_shredder sh m r) order fuel wr tenant w =
  Rebuild.RebuildStateCache r order fuel wr tenant w.
Proof.
  assert (Hpage : forall t c w, Rebuild.readPage (with_shredder sh m r) t c w = Rebuild.readPage r t c w) by done.
  assert (Hloop : forall n t x w, Rebuild.readLoop (with_shredder sh m r) n t x w = Rebuild.readLoop r n t x w).
  { induction n as [|n IH]; intros t x w'; [done|]. cbn [Rebuild.readLoop]. rewrite Hpage.
    destruct (Rebuild.readPage r t (snd x) w') as [w1 [[|e l]|]]; [done| |done]. apply IH. }
  assert (Hwrite : forall sc up l n w, Rebuild.writeLoop (with_shredder sh m r) sc up n l w = Rebuild.writeLoop r sc up n l w).
  { induction l as [|[k s] l IH]; intros n w'; [done|]. cbn [Rebuild.writeLoop].
    change (Rebuild.stateRow (with_shredder sh m r) sc s) with (Rebuild.stateRow r sc s).
    destruct (Rebuild.stateRow r sc s); [|done]. destruct (UpsertCachedState up _ w') as [w1 [[]|]]; [apply IH|done]. }
  unfold Rebuild.RebuildStateCache. cbn [with_shredder Aggregate.rt_StateCodec Aggregate.rt_Decider Aggregate.rt_Store].
  destruct (Aggregate.rt_StateCodec r) as [sc|]; [|done].
  destruct (EncodeS sc _) as [[b0 tu]|]; [|done]. destruct (WipeStateCacheForType wr tenant tu w) as [w1 [nw|e]]; [|done].
  rewrite Hloop. destruct (Rebuild.readLoop r fuel tenant (∅, 0) w1) as [[w2 [mm|e]]|]; [|done|done].
  destruct (AsStateCacheUpserter _); [|done]. by rewrite Hwrite.
Qed.

(** C33: RebuildStateCache restores the cache of a runtime without a Shredder.
    The rebuild ends (one page of events per turn of its loop), and if it
    reports no error then no event was touched, and the cached state of every
    stream in scope whose events Load can decode is the encoded fold of exactly
    the events Load folds, at the version of its last event and with state
    schema version 1.  (With a Shredder this fails, see
    [rebuild_never_decrypts]; at another schema version Load discards the
    rebuilt row.) *)
Theorem rebuild_restores_cache {W S C E} (r : Aggregate.Runtime W S C E)
    order ok view accepts log norm
    (SL : StoreLaws (Aggregate.rt_Store r) ok view accepts norm)
    (LL : LogLaws (Aggregate.rt_Store r) ok view log norm) fuel wr tenant w :
  Aggregate.rt_Shredder r = false ->
  (forall l, order l ≡ₚ l) -> ok w -> AsStateCacheWriter (Aggregate.rt_Store r) = Some wr ->
  (length (log w) < fuel)%nat ->
  exists w' n e, Rebuild.RebuildStateCache r order fuel wr tenant w = Some (w', (n, e)) /\
    (e = None -> log w' = log w /\
       exists sc, Aggregate.rt_StateCodec r = Some sc /\
       forall sid evs, StreamID.Validate sid = None -> in_scope tenant sid ->
         replayed r view w sid evs -> evs <> [] ->
         exists b t, EncodeS sc (fold_events r evs) = Ok (b, t) /\
           cache (view w') sid = Some (mkCached (norm b) (Z.of_nat (length evs)) 1)).
Proof.
  intros Hno Hperm Hok Hwr Hfuel.
  destruct (rebuild_folds_stored r order ok view accepts log norm SL LL fuel wr tenant w Hperm Hok Hwr Hfuel)
    as (w' & n & e & Hrun & Hpost).
  exists w', n, e. split; [done|]. intros He. destruct (Hpost He) as (Hlog & sc & Hsc & Hall).
  split; [done|]. exists sc. split; [done|]. intros sid evs Hv Hin Hr.
  by apply Hall, replayed_plain.
Qed.
