(* ===== verification/Projection.v ===== *)
(** * The projection runtime (projection: runtime.go, checkpoint.go, dedup.go,
      dispatcher.go)

    [Projection.RunOnce] reads one batch after the checkpoint, calls the
    handler per event and saves the position of the last event it is done
    with.  [ProjectionLaws] states what it relies on; the specification is a
    consumer of the log ([consumer_step]) that handles, skips or captures the
    next event. *)
From S2P Require Import Prelude Errors Streams Sharding Events Store Rebuild.

(** ** Interfaces *)

Record Checkpoint (W : Type) := mkCheckpoint {
  cp_Load : string -> string -> M W Z;
  cp_Save : string -> string -> Z -> M W unit
}.
Arguments cp_Load {_} _ _ _.
Arguments cp_Save {_} _ _ _ _.

(** es.ProjectionDLQWriter: name, tenant, position, event id, type URL, error. *)
Record ProjectionDLQWriter (W : Type) := mkProjectionDLQWriter {
  InsertProjectionDLQ : string -> string -> Z -> UUID -> string -> string -> M W unit
}.
Arguments InsertProjectionDLQ {_} _ _ _ _ _ _ _.

(** es/projection_admin.go, es/projection_dlq.go *)
Record ProjectionStatus := mkProjectionStatus {
  ps_Name : string;
  ps_TenantID : string;
  ps_Cursor : Z;
  ps_UpdatedAt : Time
}.

Record ProjectionDLQRow := mkProjectionDLQRow {
  pdr_ProjectionName : string;
  pdr_TenantID : string;
  pdr_GlobalPosition : Z;
  pdr_EventID : UUID;
  pdr_TypeURL : string;
  pdr_LastError : string;
  pdr_EnqueuedAt : Time
}.

Record ProjectionLocker (W : Type) := mkProjectionLocker {
  TryAcquireProjectionLock : string -> M W bool;
  ReleaseProjectionLock : string -> M W unit
}.
Arguments TryAcquireProjectionLock {_} _ _.
Arguments ReleaseProjectionLock {_} _ _.

Record DedupStore (W : Type) := mkDedupStore {
  HasProcessedEvent : string -> string -> UUID -> M W bool;
  MarkProcessedEvent : string -> string -> UUID -> M W unit;
  CleanupProcessedEvents : string -> Time -> M W Z
}.
Arguments HasProcessedEvent {_} _ _ _ _.
Arguments MarkProcessedEvent {_} _ _ _ _.
Arguments CleanupProcessedEvents {_} _ _ _.

Notation Handler W := (Envelope.t -> M W unit).

Module Projection.
Record Runtime (W : Type) := mkRuntime {
  Name : string;
  rt_Store : option (Store W);
  rt_Checkpoint : option (Checkpoint W);
  rt_Handler : option (Handler W);
  Tenant : string;
  BatchSize : Z;
  IdleSleep : Duration;
  LockKey : string;
  Shard : Z;
  TotalShards : Z;
  DLQOnFailure : bool;
  (** The interfaces the runtime asserts on the Store. *)
  AsLocker : option (ProjectionLocker W);
  AsDLQWriter : option (ProjectionDLQWriter W)
}.
Arguments Name {_} _.
Arguments rt_Store {_} _.
Arguments rt_Checkpoint {_} _.
Arguments rt_Handler {_} _.
Arguments Tenant {_} _.
Arguments BatchSize {_} _.
Arguments IdleSleep {_} _.
Arguments LockKey {_} _.
Arguments Shard {_} _.
Arguments TotalShards {_} _.
Arguments DLQOnFailure {_} _.
Arguments AsLocker {_} _.
Arguments AsDLQWriter {_} _.

Section Runtime.
Context {W : Type} (r : Runtime W).

Definition defaultBatchSize : Z := 100.
Definition defaultIdleSleep : Duration := 1000000000.

Definition batchSize : Z := if BatchSize r <=? 0 then defaultBatchSize else BatchSize r.
Definition idleSleep : Duration := if IdleSleep r <=? 0 then defaultIdleSleep else IdleSleep r.

Definition validate : option err :=
  if bool_decide (Name r = "") then Some (ENew "projection: Name is required")
  else
    match rt_Store r, rt_Checkpoint r, rt_Handler r with
    | None, _, _ => Some (ENew "projection: Store is required")
    | _, None, _ => Some (ENew "projection: Checkpoint is required")
    | _, _, None => Some (ENew "projection: Handler is required")
    | _, _, _ =>
        if (TotalShards r <? 0) || (Shard r <? 0) ||
           ((0 <? TotalShards r) && (TotalShards r <=? Shard r))
        then Some (ENew "projection: invalid sharding")
        else None
    end.

Definition inShard (env : Envelope.t) : bool :=
  ProjectionShard.inShard (Shard r) (TotalShards r) (Envelope.TenantID env) (Envelope.StreamID env).

Definition acquireLock : M W (option (ProjectionLocker W) * bool) :=
  if bool_decide (LockKey r = "") then mret (None, false)
  else
    match AsLocker r with
    | None => mret (None, false)
    | Some locker =>
        acquired ← wrap_err "projection: acquire lock" (TryAcquireProjectionLock locker (LockKey r));
        mret (Some locker, acquired)
    end.

(** What the loop over a batch ends with: last, successes, handlerErr. *)
Record Batch := mkBatch { last_ : Z; successes : Z; handlerErr : option err }.

Context (St : Store W) (cp : Checkpoint W) (handler : Handler W).

Fixpoint handleEvents (events : list Envelope.t) (last n : Z) (w : W) : W * Batch :=
  match events with
  | [] => (w, mkBatch last n None)
  | env :: events' =>
      if negb (inShard env) then handleEvents events' (Envelope.GlobalPosition env) n w
      else
        match handler env w with
        | (w1, Ok _) => handleEvents events' (Envelope.GlobalPosition env) (n + 1) w1
        | (w1, Err e) =>
            if DLQOnFailure r then
              match AsDLQWriter r with
              | None =>
                  (w1, mkBatch last n (Some (ENew
                    "projection: DLQOnFailure set but Store does not implement ProjectionDLQWriter")))
              | Some dlq =>
                  match InsertProjectionDLQ dlq (Name r) (Envelope.TenantID env)
                          (Envelope.GlobalPosition env) (Envelope.EventID env)
                          (Envelope.TypeURL env) (Error e) w1 with
                  | (w2, Err e') => (w2, mkBatch last n (Some (EWrap "projection: dlq capture" e')))
                  | (w2, Ok _) => handleEvents events' (Envelope.GlobalPosition env) n w2
                  end
              end
            else (w1, mkBatch last n (Some (EWrap "projection: handle event" e)))
        end
  end.

Definition readBatch (cursor : Z) : M W (list Envelope.t) :=
  if negb (bool_decide (Tenant r = "")) then ReadAllForTenant St (Tenant r) cursor batchSize
  else ReadAll St cursor batchSize.

(** RunOnce under the lock. *)
Definition runLocked (w : W) : W * (Z * option err) :=
  match cp_Load cp (Name r) (Tenant r) w with
  | (w1, Err e) => (w1, (0, Some (EWrap "projection: load checkpoint" e)))
  | (w1, Ok cursor) =>
      match readBatch cursor w1 with
      | (w2, Err e) => (w2, (0, Some (EWrap "projection: read events" e)))
      | (w2, Ok []) => (w2, (0, None))
      | (w2, Ok events) =>
          let '(w3, b) := handleEvents events 0 0 w2 in
          if 0 <? last_ b then
            match cp_Save cp (Name r) (Tenant r) (last_ b) w3 with
            | (w4, Err e) => (w4, (successes b, Some (EWrap "projection: save checkpoint" e)))
            | (w4, Ok _) => (w4, (successes b, handlerErr b))
            end
          else (w3, (successes b, handlerErr b))
      end
  end.

Definition release (l : option (ProjectionLocker W)) (acquired : bool) (w : W) : W :=
  match l with
  | Some locker => if acquired then fst (ReleaseProjectionLock locker (LockKey r) w) else w
  | None => w
  end.

Definition runOnceWith (w : W) : W * (Z * option err) :=
  match acquireLock w with
  | (w1, Err e) => (w1, (0, Some e))
  | (w1, Ok (l, acquired)) =>
      if negb (bool_decide (LockKey r = "")) && (match l with Some _ => true | None => false end)
         && negb acquired
      then (w1, (0, None))
      else let '(w2, x) := runLocked w1 in (release l acquired w2, x)
  end.
End Runtime.

Definition RunOnce {W} (r : Runtime W) (w : W) : W * (Z * option err) :=
  match validate r with
  | Some e => (w, (0, Some e))
  | None =>
      match rt_Store r, rt_Checkpoint r, rt_Handler r with
      | Some St, Some cp, Some h => runOnceWith r St cp h w
      | _, _, _ => (w, (0, None))
      end
  end.

(** Run: [ctxErr] is whether the context is done, [sleep] waits for the idle
    time or the context and says which.  [None]: out of fuel. *)
Fixpoint runLoop {W} (r : Runtime W) (ctxDone : M W bool) (sleep : Duration -> M W bool)
    (fuel : nat) (w : W) : option (W * option err) :=
  match fuel with
  | O => None
  | S fuel' =>
      match ctxDone w with
      | (w1, Ok false) =>
          match RunOnce r w1 with
          | (w2, (_, Some e)) => Some (w2, Some e)
          | (w2, (processed, None)) =>
              if processed =? 0 then
                match sleep (idleSleep r) w2 with
                | (w3, Ok false) => runLoop r ctxDone sleep fuel' w3
                | (w3, _) => Some (w3, None)
                end
              else runLoop r ctxDone sleep fuel' w2
          end
      | (w1, _) => Some (w1, None)
      end
  end.

Definition Run {W} (r : Runtime W) (ctxDone : M W bool) (sleep : Duration -> M W bool)
    (fuel : nat) (w : W) : option (W * option err) :=
  match validate r with
  | Some e => Some (w, Some e)
  | None => runLoop r ctxDone sleep fuel w
  end.

(** *** dedup.go, dispatcher.go *)

Definition WithDedup {W} (inner : Handler W) (store : DedupStore W) (projectionName : string)
    : Handler W := fun env =>
  seen ← wrap_err "dedup: lookup"
           (HasProcessedEvent store projectionName (Envelope.TenantID env) (Envelope.EventID env));
  if seen : bool then mret tt
  else
    inner env ≫= fun _ =>
    wrap_err "dedup: mark"
      (MarkProcessedEvent store projectionName (Envelope.TenantID env) (Envelope.EventID env)).

Record DispatcherConfig := mkDispatcherConfig { IgnoreUnknownCfg : bool }.
Inductive DispatcherOption := IgnoreUnknown.

Definition ApplyOptions (opts : list DispatcherOption) : DispatcherConfig :=
  foldl (fun _ opt => match opt with IgnoreUnknown => mkDispatcherConfig true end)
    (mkDispatcherConfig false) opts.

Definition Chain {W} (handlers : list (Handler W)) : Handler W := fun env =>
  forM_ handlers (fun h => h env).

(** *** checkpoint.go: MemoryCheckpoint *)
Definition memKey (name tenantID : string) : string := name +:+ "|" +:+ tenantID.

Definition MemLoad (name tenantID : string) : M (gmap string Z) Z := fun m =>
  (m, Ok (default 0 (m !! memKey name tenantID))).
Definition MemSave (name tenantID : string) (position : Z) : M (gmap string Z) unit := fun m =>
  (<[memKey name tenantID := position]> m, Ok tt).
End Projection.

(** ** Specification: a consumer of the log *)

(** The events still to come, those handled, and the positions captured for an
    operator. *)
Record consumer := mkConsumer {
  todo : list Envelope.t;
  handled : list Envelope.t;
  captured : gset (string * Z)
}.

Definition dlq_key (e : Envelope.t) : string * Z := (Envelope.TenantID e, Envelope.GlobalPosition e).

(** It takes the next event and skips it when it is of another shard, handles
    it, or captures it. *)
Inductive consumer_step (mine : Envelope.t -> bool) : consumer -> consumer -> Prop :=
  | step_skip e t h c : mine e = false -> consumer_step mine (mkConsumer (e :: t) h c) (mkConsumer t h c)
  | step_handle e t h c : mine e = true ->
      consumer_step mine (mkConsumer (e :: t) h c) (mkConsumer t (h ++ [e]) c)
  | step_capture e t h c : mine e = true ->
      consumer_step mine (mkConsumer (e :: t) h c) (mkConsumer t h ({[dlq_key e]} ∪ c)).

(** ** What the runtime relies on *)
Section Laws.
Context {W : Type} (ok : W -> Prop) (log : W -> list Envelope.t) (cursor : W -> Z)
  (hist : W -> list Envelope.t) (caps : W -> gset (string * Z)).

Definition unchanged (w w' : W) : Prop :=
  ok w' /\ log w' = log w /\ cursor w' = cursor w /\ hist w' = hist w /\ caps w' = caps w.

(** [log] is the global log, [cursor] the saved position of this projector,
    [hist] the events its handler acknowledged and [caps] its DLQ. *)
Class ProjectionLaws (r : Projection.Runtime W) (St : Store W) (cp : Checkpoint W) (h : Handler W) := {
  pl_sorted : forall w, ok w ->
    StronglySorted (fun a b => Envelope.GlobalPosition a < Envelope.GlobalPosition b) (log w) /\
    Forall (fun e => 0 < Envelope.GlobalPosition e < 2 ^ 63) (log w);
  pl_cursor : forall w, ok w -> 0 <= cursor w < 2 ^ 63;
  pl_read_all : forall from n w w' x, ok w -> 0 <= from < 2 ^ 63 -> 0 <= n ->
    ReadAll St from n w = (w', x) ->
    unchanged w w' /\ (forall envs, x = Ok envs -> envs = page "" from n (log w));
  pl_read_tenant : forall t from n w w' x, ok w -> 0 <= from < 2 ^ 63 -> 0 <= n -> t <> "" ->
    ReadAllForTenant St t from n w = (w', x) ->
    unchanged w w' /\ (forall envs, x = Ok envs -> envs = page t from n (log w));
  pl_load : forall w w' x, ok w ->
    cp_Load cp (Projection.Name r) (Projection.Tenant r) w = (w', x) ->
    unchanged w w' /\ (forall c, x = Ok c -> c = cursor w);
  pl_save : forall p w w' x, ok w -> 0 <= p < 2 ^ 63 ->
    cp_Save cp (Projection.Name r) (Projection.Tenant r) p w = (w', x) ->
    ok w' /\ log w' = log w /\ hist w' = hist w /\ caps w' = caps w /\
    cursor w' = match x with Ok _ => p | Err _ => cursor w end;
  pl_handle : forall e w w' x, ok w -> h e w = (w', x) ->
    ok w' /\ log w' = log w /\ cursor w' = cursor w /\ caps w' = caps w /\
    hist w' = match x with Ok _ => hist w ++ [e] | Err _ => hist w end;
  pl_dlq : forall d e msg w w' x, ok w -> Projection.AsDLQWriter r = Some d ->
    0 < Envelope.GlobalPosition e < 2 ^ 63 ->
    InsertProjectionDLQ d (Projection.Name r) (Envelope.TenantID e) (Envelope.GlobalPosition e)
      (Envelope.EventID e) (Envelope.TypeURL e) msg w = (w', x) ->
    ok w' /\ log w' = log w /\ cursor w' = cursor w /\ hist w' = hist w /\
    caps w' = match x with Ok _ => {[dlq_key e]} ∪ caps w | Err _ => caps w end;
  pl_lock : forall l k w w' x, ok w -> Projection.AsLocker r = Some l ->
    TryAcquireProjectionLock l k w = (w', x) -> unchanged w w';
  pl_unlock : forall l k w w' x, ok w -> Projection.AsLocker r = Some l ->
    ReleaseProjectionLock l k w = (w', x) -> unchanged w w'
}.

(** The abstract state of a world. *)
Definition consumer_of (r : Projection.Runtime W) (w : W) : consumer :=
  mkConsumer
    (filter (fun e => cursor w < Envelope.GlobalPosition e)
       (filter (in_tenant (Projection.Tenant r)) (log w)))
    (hist w) (caps w).
End Laws.
Arguments pl_sorted {_ _ _ _ _ _ _ _ _ _ _}.
Arguments pl_cursor {_ _ _ _ _ _ _ _ _ _ _}.
Arguments pl_read_all {_ _ _ _ _ _ _ _ _ _ _}.
Arguments pl_read_tenant {_ _ _ _ _ _ _ _ _ _ _}.
Arguments pl_load {_ _ _ _ _ _ _ _ _ _ _}.
Arguments pl_save {_ _ _ _ _ _ _ _ _ _ _}.
Arguments pl_handle {_ _ _ _ _ _ _ _ _ _ _}.
Arguments pl_dlq {_ _ _ _ _ _ _ _ _ _ _}.
Arguments pl_lock {_ _ _ _ _ _ _ _ _ _ _}.
Arguments pl_unlock {_ _ _ _ _ _ _ _ _ _ _}.

Section Refinement.
Context {W : Type} {ok : W -> Prop} {log : W -> list Envelope.t} {cursor : W -> Z}
  {hist : W -> list Envelope.t} {caps : W -> gset (string * Z)}
  {r : Projection.Runtime W} {St : Store W} {cp : Checkpoint W} {h : Handler W}
  {PL : ProjectionLaws ok log cursor hist caps r St cp h}.
Notation unchanged := (unchanged ok log cursor hist caps).
Notation abs := (consumer_of log cursor hist caps r).
Notation mine := (Projection.inShard r).

Lemma unchanged_refl w : ok w -> unchanged w w.
Proof. by intros. Qed.

Lemma unchanged_trans w1 w2 w3 : unchanged w1 w2 -> unchanged w2 w3 -> unchanged w1 w3.
Proof. intros (_ & H1 & H2 & H3 & H4) (Hok & ? & ? & ? & ?). split_and!; congruence. Qed.

Lemma unchanged_abs w w' : unchanged w w' -> abs w' = abs w.
Proof. intros (_ & Hl & Hc & Hh & Hd). unfold consumer_of. by rewrite Hl, Hc, Hh, Hd. Qed.

(** What the loop over a batch does: it takes a prefix of the events, each one
    a step of the specification, and ends with the position of the last event
    it took; the handler acknowledged [new]. *)
Definition batch_post (events rest : list Envelope.t) (last n : Z) (w w' : W)
    (b : Projection.Batch) : Prop :=
  ok w' /\ log w' = log w /\ cursor w' = cursor w /\
  exists taken left new,
    events = taken ++ left /\ (Projection.handlerErr b = None -> left = []) /\
    rtc (consumer_step mine) (mkConsumer (events ++ rest) (hist w) (caps w))
        (mkConsumer (left ++ rest) (hist w') (caps w')) /\
    hist w' = hist w ++ new /\
    (Projection.DLQOnFailure r = false ->
       caps w' = caps w /\ new = filter (fun e => mine e = true) taken) /\
    Projection.successes b = n + Z.of_nat (length new) /\
    Projection.last_ b = default last (Envelope.GlobalPosition <$> list.last taken).

Lemma batch_post_stop events rest last n w w' e :
  unchanged w w' -> (events <> [] -> e <> None) ->
  batch_post events rest last n w w' (Projection.mkBatch last n e).
Proof.
  intros (Hok & Hl & Hc & Hh & Hd) He. split_and!; try done.
  exists [], events, []. rewrite Hh, Hd, app_nil_r. split_and!; try done.
  - simpl. intros ->. destruct events; [done|]. by destruct He.
  - simpl. lia.
Qed.

(** Taking one event and going on with the rest. *)
Lemma batch_post_cons e events rest last n n1 w w1 w' b new1 :
  ok w1 -> log w1 = log w -> cursor w1 = cursor w -> hist w1 = hist w ++ new1 ->
  consumer_step mine (mkConsumer (e :: events ++ rest) (hist w) (caps w))
    (mkConsumer (events ++ rest) (hist w1) (caps w1)) ->
  (Projection.DLQOnFailure r = false ->
     caps w1 = caps w /\ new1 = filter (fun e => mine e = true) [e]) ->
  n1 = n + Z.of_nat (length new1) ->
  batch_post events rest (Envelope.GlobalPosition e) n1 w1 w' b ->
  batch_post (e :: events) rest last n w w' b.
Proof.
  intros Hok1 Hl1 Hc1 Hh1 Hstep Hd1 Hn1
    (Hok & Hl & Hc & taken & left & new & -> & Hle & Hst & Hhi & Hdl & Hsu & Hla).
  split_and!; try congruence. exists (e :: taken), left, (new1 ++ new). split_and!; try done.
  - by eapply rtc_l.
  - by rewrite Hhi, Hh1, app_assoc.
  - intros Hd. destruct (Hd1 Hd) as [<- ->], (Hdl Hd) as [-> ->]. split; [done|].
    by rewrite <- filter_app.
  - rewrite Hsu, Hn1, length_app. lia.
  - rewrite Hla, last_cons. by destruct (list.last taken).
Qed.

Lemma handleEvents_spec events rest : forall last n w w' b,
  ok w -> Forall (fun e => 0 < Envelope.GlobalPosition e < 2 ^ 63) events ->
  Projection.handleEvents r h events last n w = (w', b) ->
  batch_post events rest last n w w' b.
Proof.
  induction events as [|e events IH]; intros last n w w' b Hok HF; cbn [Projection.handleEvents].
  { intros [= <- <-]. by apply batch_post_stop. }
  apply Forall_cons in HF as [He HF]. destruct (mine e) eqn:Hm; simpl.
  - destruct (h e w) as [w1 [[]|er]] eqn:Hh;
      destruct (pl_handle _ _ _ _ Hok Hh) as (Hok1 & Hl1 & Hc1 & Hd1 & Hh1).
    + intros Hrec. eapply (batch_post_cons _ _ _ _ n (n + 1) _ w1 _ _ [e]); try done.
      * rewrite Hh1, Hd1. by constructor.
      * by rewrite filter_cons_True.
      * by eapply IH.
    + destruct (Projection.DLQOnFailure r) eqn:Hdlq; [|intros [= <- <-]; by apply batch_post_stop].
      destruct (Projection.AsDLQWriter r) as [dw|] eqn:Hw; [|intros [= <- <-]; by apply batch_post_stop].
      destruct (InsertProjectionDLQ dw _ _ _ _ _ _ w1) as [w2 [[]|e2]] eqn:Hi;
        destruct (pl_dlq _ _ _ _ _ _ Hok1 Hw He Hi) as (Hok2 & Hl2 & Hc2 & Hh2 & Hd2).
      2:{ intros [= <- <-]. apply batch_post_stop; [|done]. split_and!; congruence. }
      intros Hrec. eapply (batch_post_cons _ _ _ _ n n _ w2 _ _ []); try done; try congruence.
      * by rewrite app_nil_r, Hh2.
      * rewrite Hh2, Hh1, Hd2, Hd1. by constructor.
      * simpl. lia.
      * by eapply IH.
  - intros Hrec. eapply (batch_post_cons _ _ _ _ n n _ w _ _ []); try done.
    + by rewrite app_nil_r.
    + by constructor.
    + intros _. split; [done|]. by rewrite filter_cons_False by (by rewrite Hm).
    + simpl. lia.
    + by eapply IH.
Qed.

(** The pending events are sorted by position, and what follows one of them is
    exactly what is after its position. *)
Lemma todo_split w taken left :
  ok w -> todo (abs w) = taken ++ left -> taken <> [] ->
  filter (fun e => default 0 (Envelope.GlobalPosition <$> list.last taken) < Envelope.GlobalPosition e)
    (filter (in_tenant (Projection.Tenant r)) (log w)) = left.
Proof.
  intros Hok. apply after_last. apply StronglySorted_filter, (pl_sorted w Hok).
Qed.

Lemma readBatch_spec c w w' x :
  ok w -> 0 <= c < 2 ^ 63 -> Projection.readBatch r St c w = (w', x) ->
  unchanged w w' /\
  (forall envs, x = Ok envs -> envs = page (Projection.Tenant r) c (Projection.batchSize r) (log w)).
Proof.
  assert (Hb : 0 <= Projection.batchSize r).
  { unfold Projection.batchSize. case_match; [done|lia]. }
  intros Hok Hc. unfold Projection.readBatch. case_bool_decide as Ht; simpl.
  - rewrite Ht. by apply pl_read_all.
  - by apply pl_read_tenant.
Qed.
(** What a round of the runner establishes: it refines the consumer, and the
    saved cursor agrees with it unless saving failed. *)
Definition round_post (w w' : W) (n : Z) (e : option err) : Prop :=
  ok w' /\ log w' = log w /\
  exists a, rtc (consumer_step mine) (abs w) a /\ handled a = hist w' /\ captured a = caps w' /\
    Z.of_nat (length (hist w')) = Z.of_nat (length (hist w)) + n /\
    (abs w' = a \/ (e <> None /\ cursor w' = cursor w)).

(** The outcome of an error-free round of a fail-stop runner. *)
Definition batch_done (w w' : W) : Prop :=
  let k := Z.to_nat (Projection.batchSize r) in
  todo (abs w') = drop k (todo (abs w)) /\ caps w' = caps w /\
  hist w' = hist w ++ filter (fun e => mine e = true) (take k (todo (abs w))).

Lemma round_post_unchanged w w' e : unchanged w w' -> round_post w w' 0 e.
Proof.
  intros H. pose proof (unchanged_abs _ _ H) as Ha. destruct H as (? & ? & ? & Hh & ?).
  split_and!; try done. exists (abs w). rewrite Hh. split_and!; [done|done|by simpl|lia|by left].
Qed.

Lemma round_post_trans w1 w2 w3 w4 n e :
  unchanged w1 w2 -> round_post w2 w3 n e -> unchanged w3 w4 -> round_post w1 w4 n e.
Proof.
  intros H12 (Hok & Hl & a & Hst & Hh & Hc & Hn & Hcur) H34.
  pose proof (unchanged_abs _ _ H12) as H12a. pose proof (unchanged_abs _ _ H34) as H34a.
  destruct H12 as (_ & Hl12 & Hc12 & Hh12 & _), H34 as (Hok4 & Hl34 & Hc34 & Hh34 & Hd34).
  split_and!; try congruence. exists a. rewrite <- H12a. split_and!; try congruence.
Qed.

Lemma batchSize_pos : 0 < Projection.batchSize r.
Proof. unfold Projection.batchSize, Projection.defaultBatchSize. destruct (Z.leb_spec (Projection.BatchSize r) 0); lia. Qed.

(** The loop over the page that was read, and the save of the cursor. *)
Lemma runLocked_batch w w' n e (events := page (Projection.Tenant r) (cursor w) (Projection.batchSize r) (log w)) :
  ok w -> events <> [] ->
  (let '(w3, b) := Projection.handleEvents r h events 0 0 w in
   if 0 <? Projection.last_ b then
     match cp_Save cp (Projection.Name r) (Projection.Tenant r) (Projection.last_ b) w3 with
     | (w4, Err e) => (w4, (Projection.successes b, Some (EWrap "projection: save checkpoint" e)))
     | (w4, Ok _) => (w4, (Projection.successes b, Projection.handlerErr b))
     end
   else (w3, (Projection.successes b, Projection.handlerErr b))) = (w', (n, e)) ->
  round_post w w' n e /\
  (e = None -> Projection.DLQOnFailure r = false -> batch_done w w').
Proof.
  intros Hok Hne. set (rest := drop (Z.to_nat (Projection.batchSize r)) (todo (abs w))).
  assert (Htodo : todo (abs w) = events ++ rest) by (symmetry; apply take_drop).
  assert (HF : Forall (fun e => 0 < Envelope.GlobalPosition e < 2 ^ 63) events).
  { apply Forall_forall. intros x Hx. destruct (pl_sorted w Hok) as [_ HF]. rewrite Forall_forall in HF.
    apply HF. apply elem_of_take in Hx as (i & Hi & _). apply list_elem_of_lookup_2 in Hi.
    apply list_elem_of_filter in Hi as [_ Hi]. by apply list_elem_of_filter in Hi as [_ ?]. }
  destruct (Projection.handleEvents r h events 0 0 w) as [w3 b] eqn:Hh.
  apply (handleEvents_spec _ rest) in Hh as (Hok3 & Hl3 & Hc3 & taken & left & new & Hev & Hle & Hst & Hhi & Hdl & Hsu & Hla);
    [|done|done].
  replace (mkConsumer (events ++ rest) (hist w) (caps w)) with (abs w) in Hst
    by (unfold consumer_of; simpl; f_equal; exact Htodo).
  assert (Hn : forall w4, hist w4 = hist w3 ->
    Z.of_nat (length (hist w4)) = Z.of_nat (length (hist w)) + Projection.successes b).
  { intros w4 ->. rewrite Hhi, length_app, Hsu. lia. }
  destruct taken as [|e0 taken].
  { simpl in Hla, Hev. rewrite Hla. simpl. intros [= <- <- <-]. split.
    - split_and!; try done. exists (abs w3).
      assert (Ha : abs w3 = mkConsumer (left ++ rest) (hist w3) (caps w3)).
      { unfold consumer_of. rewrite Hl3, Hc3. f_equal. by rewrite <- Hev. }
      rewrite Ha at 1. split_and!; try done; [by apply Hn|by left].
    - intros He _. specialize (Hle He) as ->. by rewrite <- Hev in Hne. }
  assert (Hpos : 0 < Projection.last_ b < 2 ^ 63).
  { rewrite Hla. rewrite Hev in HF. apply Forall_app in HF as [HF _]. rewrite Forall_forall in HF.
    destruct (list.last (e0 :: taken)) as [x|] eqn:Hx; [|by apply last_None in Hx].
    by apply HF, last_Some_elem_of. }
  rewrite (proj2 (Z.ltb_lt _ _)) by lia.
  destruct (cp_Save cp _ _ _ w3) as [w4 x] eqn:Hs.
  destruct (pl_save (Projection.last_ b) _ _ _ Hok3 ltac:(lia) Hs) as (Hok4 & Hl4 & Hh4 & Hd4 & Hc4).
  rewrite <- Hh4, <- Hd4 in Hst.
  destruct x as [[]|es]; intros [= <- <- <-].
  - assert (Ha : abs w4 = mkConsumer (left ++ rest) (hist w4) (caps w4)).
    { unfold consumer_of. rewrite Hl4, Hl3, Hc4, Hla. f_equal.
      apply (todo_split w (e0 :: taken)); [done| |done]. by rewrite Htodo, Hev, <- app_assoc. }
    split.
    + split_and!; try congruence. eexists. split_and!; [exact Hst|done|done|by apply Hn|by left].
    + intros He Hd. specialize (Hle He) as ->. destruct (Hdl Hd) as [Hcd Hnew].
      rewrite app_nil_r in Hev. split_and!; [by rewrite Ha|by rewrite Hd4|].
      rewrite Hh4, Hhi, Hnew. by rewrite <- Hev.
  - split; [|done]. split_and!; try congruence. eexists.
    split_and!; [exact Hst|done|done|by apply Hn|right; split; [done|congruence]].
Qed.

Lemma projection_runLocked_spec w w' n e :
  ok w -> Projection.runLocked r St cp h w = (w', (n, e)) ->
  round_post w w' n e /\ (e = None -> Projection.DLQOnFailure r = false -> batch_done w w').
Proof.
  intros Hok. unfold Projection.runLocked.
  destruct (cp_Load cp _ _ w) as [w1 [c|er]] eqn:Hl; destruct (pl_load _ _ _ Hok Hl) as [Hu1 Hcur].
  2:{ intros [= <- <- <-]. split; [by apply round_post_unchanged|done]. }
  specialize (Hcur c eq_refl) as ->. pose proof (pl_cursor _ Hok) as Hc.
  destruct (Projection.readBatch r St (cursor w) w1) as [w2 x] eqn:Hr.
  destruct (readBatch_spec _ _ _ _ (proj1 Hu1) Hc Hr) as [Hu2 Henv].
  pose proof (unchanged_trans _ _ _ Hu1 Hu2) as Hu. clear Hr Hl.
  destruct x as [events|er].
  2:{ intros [= <- <- <-]. split; [by apply round_post_unchanged|done]. }
  specialize (Henv events eq_refl).
  assert (Hev : events = page (Projection.Tenant r) (cursor w2) (Projection.batchSize r) (log w2)).
  { destruct Hu as (_ & _ & -> & _), Hu2 as (_ & -> & _). done. }
  assert (Hdone : forall w', batch_done w2 w' -> batch_done w w').
  { intros w3. unfold batch_done. rewrite (unchanged_abs _ _ Hu).
    destruct Hu as (_ & _ & _ & -> & ->). done. }
  destruct events as [|e0 events].
  - intros [= <- <- <-]. split; [by apply round_post_unchanged|]. intros _ _.
    apply Hdone. assert (todo (abs w2) = []) as Ht.
    { apply (f_equal length) in Hev. unfold page in Hev. rewrite length_take in Hev. simpl in Hev.
      pose proof batchSize_pos. apply nil_length_inv. unfold consumer_of; simpl. lia. }
    unfold batch_done. rewrite Ht, take_nil, drop_nil, app_nil_r. done.
  - rewrite Hev. intros H. apply runLocked_batch in H as [H Hd]; [|apply Hu|by rewrite <- Hev].
    split; [|intros; by apply Hdone, Hd].
    eapply round_post_trans; [exact Hu|exact H|]. apply unchanged_refl. apply H.
Qed.

Lemma runOnceWith_spec w w' n e :
  ok w -> Projection.runOnceWith r St cp h w = (w', (n, e)) ->
  round_post w w' n e /\
  (e = None -> Projection.DLQOnFailure r = false -> Projection.LockKey r = "" -> batch_done w w').
Proof.
  intros Hok. unfold Projection.runOnceWith, Projection.acquireLock.
  case_bool_decide as Hk; simpl.
  { destruct (Projection.runLocked r St cp h w) as [w1 [n1 e1]] eqn:Hr. intros [= <- <- <-].
    apply projection_runLocked_spec in Hr as [? ?]; auto. }
  destruct (Projection.AsLocker r) as [l|] eqn:Hl.
  2:{ simpl. destruct (Projection.runLocked r St cp h w) as [w1 [n1 e1]] eqn:Hr. intros [= <- <- <-].
      apply projection_runLocked_spec in Hr as [? ?]; auto. }
  unfold wrap_err, mbind, M_bind, mret, M_ret. simpl.
  destruct (TryAcquireProjectionLock l _ w) as [w1 [a|er]] eqn:Ha;
    pose proof (pl_lock _ _ _ _ _ Hok Hl Ha) as Hu; simpl.
  2:{ intros [= <- <- <-]. split; [by apply round_post_unchanged|done]. }
  destruct a; simpl.
  2:{ intros [= <- <- <-]. split; [by apply round_post_unchanged|done]. }
  destruct (Projection.runLocked r St cp h w1) as [w2 [n1 e1]] eqn:Hr. intros [= <- <- <-].
  apply projection_runLocked_spec in Hr as [Hr _]; [|apply Hu]. split; [|done].
  destruct (ReleaseProjectionLock l _ w2) as [w3 x3] eqn:Hrel.
  eapply round_post_trans; [exact Hu|exact Hr|]. eapply pl_unlock; [apply Hr|done|exact Hrel].
Qed.
End Refinement.

(** Rounds until [k] are done or one reports an error. *)
Fixpoint runRounds {W} (r : Projection.Runtime W) (k : nat) (w : W) : W * option err :=
  match k with
  | O => (w, None)
  | S k' =>
      match Projection.RunOnce r w with
      | (w1, (_, Some e)) => (w1, Some e)
      | (w1, (_, None)) => runRounds r k' w1
      end
  end.

(** Every call of the runner's environment succeeds. *)
Class Reliable {W} (ok : W -> Prop) (r : Projection.Runtime W) (St : Store W) (cp : Checkpoint W)
    (h : Handler W) := {
  rel_read_all : forall from n w, ok w -> exists w' l, ReadAll St from n w = (w', Ok l);
  rel_read_tenant : forall t from n w, ok w -> exists w' l, ReadAllForTenant St t from n w = (w', Ok l);
  rel_load : forall a b w, ok w -> exists w' c, cp_Load cp a b w = (w', Ok c);
  rel_save : forall a b p w, ok w -> exists w', cp_Save cp a b p w = (w', Ok tt);
  rel_handle : forall e w, ok w -> exists w', h e w = (w', Ok tt)
}.

Section CatchUp.
Context {W : Type} {ok : W -> Prop} {log : W -> list Envelope.t} {cursor : W -> Z}
  {hist : W -> list Envelope.t} {caps : W -> gset (string * Z)}
  {r : Projection.Runtime W} {St : Store W} {cp : Checkpoint W} {h : Handler W}
  {PL : ProjectionLaws ok log cursor hist caps r St cp h} {RL : Reliable ok r St cp h}.
Notation abs := (consumer_of log cursor hist caps r).

Lemma handleEvents_reliable events : forall last n w,
  ok w -> exists w' b, Projection.handleEvents r h events last n w = (w', b) /\
    ok w' /\ Projection.handlerErr b = None.
Proof.
  induction events as [|e events IH]; intros last n w Hok; simpl; [by do 2 eexists|].
  destruct (Projection.inShard r e); simpl; [|by apply IH].
  destruct (rel_handle e w Hok) as [w1 Hh]. rewrite Hh.
  destruct (pl_handle _ _ _ _ Hok Hh) as [Hok1 _]. by apply IH.
Qed.

Lemma runLocked_reliable w :
  ok w -> exists w' n, Projection.runLocked r St cp h w = (w', (n, None)).
Proof.
  intros Hok. unfold Projection.runLocked.
  destruct (rel_load (Projection.Name r) (Projection.Tenant r) w Hok) as (w1 & c & Hl). rewrite Hl.
  destruct (pl_load _ _ _ Hok Hl) as [Hu1 Hc]. specialize (Hc c eq_refl) as ->.
  assert (Hr : exists w2 l, Projection.readBatch r St (cursor w) w1 = (w2, Ok l)).
  { unfold Projection.readBatch. case_match; [by apply rel_read_tenant, Hu1|by apply rel_read_all, Hu1]. }
  destruct Hr as (w2 & l & Hr). rewrite Hr.
  destruct (readBatch_spec _ _ _ _ (proj1 Hu1) (pl_cursor w Hok) Hr) as [Hu2 _].
  destruct l as [|e l]; [by do 2 eexists|].
  destruct (handleEvents_reliable (e :: l) 0 0 w2 (proj1 Hu2)) as (w3 & b & -> & Hok3 & Hb).
  case_match; [|rewrite Hb; by do 2 eexists].
  destruct (rel_save (Projection.Name r) (Projection.Tenant r) (Projection.last_ b) w3 Hok3) as [w4 ->].
  rewrite Hb. by do 2 eexists.
Qed.

(** One round of a reliable, unlocked, fail-stop runner. *)
Lemma round_reliable w :
  Projection.rt_Store r = Some St -> Projection.rt_Checkpoint r = Some cp ->
  Projection.rt_Handler r = Some h -> Projection.validate r = None ->
  Projection.LockKey r = "" -> Projection.DLQOnFailure r = false -> ok w ->
  exists w' n, Projection.RunOnce r w = (w', (n, None)) /\ ok w' /\
    batch_done (log := log) (cursor := cursor) (hist := hist) (caps := caps) (r := r) w w'.
Proof.
  intros HS HC HH Hv Hk Hd Hok. unfold Projection.RunOnce. rewrite Hv, HS, HC, HH.
  destruct (runLocked_reliable w Hok) as (w' & n & Hr).
  assert (Hw : Projection.runOnceWith r St cp h w = (w', (n, None))).
  { unfold Projection.runOnceWith, Projection.acquireLock. rewrite Hk. simpl. by rewrite Hr. }
  exists w', n. split; [done|]. destruct (runOnceWith_spec _ _ _ _ Hok Hw) as [Hp Hb].
  split; [apply Hp|by apply Hb].
Qed.
End CatchUp.


(** C17: a projection catches up.  When its environment answers, a fail-stop
    runner without a LockKey needs no more rounds than batches: after them every pending event of
    its tenant and shard was handled, once and in order of position, and none
    is left. *)
Theorem projection_catches_up {W} (r : Projection.Runtime W) ok log cursor hist caps St cp h
    (PL : ProjectionLaws ok log cursor hist caps r St cp h) (RL : Reliable ok r St cp h) w k :
  Projection.rt_Store r = Some St -> Projection.rt_Checkpoint r = Some cp ->
  Projection.rt_Handler r = Some h -> Projection.validate r = None ->
  Projection.LockKey r = "" -> Projection.DLQOnFailure r = false -> ok w ->
  let pending w := filter (fun e => cursor w < Envelope.GlobalPosition e)
                     (filter (in_tenant (Projection.Tenant r)) (log w)) in
  Z.of_nat (length (pending w)) <= Z.of_nat k * Projection.batchSize r ->
  exists w', runRounds r k w = (w', None) /\ pending w' = [] /\ caps w' = caps w /\
    hist w' = hist w ++ filter (fun e => Projection.inShard r e = true) (pending w).
Proof.
  intros HS HC HH Hv Hk Hd Hok pending. revert w Hok.
  pose proof (batchSize_pos (r := r)) as Hb.
  induction k as [|k IH]; intros w Hok Hlen.
  { destruct (pending w) eqn:Hp; [|simpl in Hlen; lia]. exists w. rewrite Hp, app_nil_r. done. }
  destruct (round_reliable w HS HC HH Hv Hk Hd Hok) as (w1 & n & Hr & Hok1 & Ht & Hc & Hh).
  change (todo (consumer_of log cursor hist caps r w1)) with (pending w1) in Ht.
  change (todo (consumer_of log cursor hist caps r w)) with (pending w) in Ht, Hh.
  destruct (IH w1 Hok1) as (w' & Hrun & Hp & Hc' & Hh').
  { rewrite Ht, length_drop. nia. }
  exists w'. cbn [runRounds]. rewrite Hr. split_and!; try congruence.
  rewrite Hh', Hh, Ht, <- app_assoc, <- filter_app, take_drop. done.
Qed.

(** ** The dedup gate *)
Section Dedup.
Context {W : Type} (ok : W -> Prop) (seen : W -> gset (string * UUID))
  (applied : W -> list Envelope.t).

(** [seen] are the (tenant, event id) pairs marked for the projection and
    [applied] the events the inner handler applied. *)
Class DedupLaws (inner : Handler W) (store : DedupStore W) (name : string) := {
  dd_has : forall t id w w' x, ok w -> HasProcessedEvent store name t id w = (w', x) ->
    ok w' /\ seen w' = seen w /\ applied w' = applied w /\
    (forall b, x = Ok b -> b = bool_decide ((t, id) ∈ seen w));
  dd_mark : forall t id w w' x, ok w -> MarkProcessedEvent store name t id w = (w', x) ->
    ok w' /\ applied w' = applied w /\
    seen w' = match x with Ok _ => {[(t, id)]} ∪ seen w | Err _ => seen w end;
  dd_inner : forall e w w' x, ok w -> inner e w = (w', x) ->
    ok w' /\ seen w' = seen w /\
    applied w' = match x with Ok _ => applied w ++ [e] | Err _ => applied w end
}.
End Dedup.
Arguments dd_has {_ _ _ _ _ _ _ _}.
Arguments dd_mark {_ _ _ _ _ _ _ _}.
Arguments dd_inner {_ _ _ _ _ _ _ _}.

Definition dedup_key (e : Envelope.t) : string * UUID := (Envelope.TenantID e, Envelope.EventID e).

(** The first occurrences of the events not seen yet. *)
Fixpoint fresh (s : gset (string * UUID)) (evs : list Envelope.t) : list Envelope.t :=
  match evs with
  | [] => []
  | e :: evs' =>
      if decide (dedup_key e ∈ s) then fresh s evs'
      else e :: fresh ({[dedup_key e]} ∪ s) evs'
  end.

Lemma withDedup_spec {W} ok seen applied inner store name
    {DL : DedupLaws (W := W) ok seen applied inner store name} e w w' x :
  ok w -> Projection.WithDedup inner store name e w = (w', x) ->
  ok w' /\
  match x with
  | Ok _ => seen w' = {[dedup_key e]} ∪ seen w /\ applied w' = applied w ++ fresh (seen w) [e]
  | Err _ => seen w' = seen w /\
      (applied w' = applied w \/ (dedup_key e ∉ seen w /\ applied w' = applied w ++ [e]))
  end.
Proof.
  intros Hok. unfold Projection.WithDedup, wrap_err, mbind, M_bind.
  destruct (HasProcessedEvent store name _ _ w) as [w1 [b|er]] eqn:H1;
    destruct (dd_has _ _ _ _ _ Hok H1) as (Hok1 & Hs1 & Ha1 & Hb).
  2:{ intros [= <- <-]. eauto. }
  specialize (Hb b eq_refl) as ->. change (Envelope.TenantID e, Envelope.EventID e) with (dedup_key e).
  destruct (bool_decide _) eqn:Hin; [apply bool_decide_eq_true in Hin|apply bool_decide_eq_false in Hin].
  { intros [= <- <-]. split; [done|]. rewrite Hs1, Ha1. simpl. rewrite decide_True by done.
    rewrite app_nil_r. split; [set_solver|done]. }
  destruct (inner e w1) as [w2 [u|er]] eqn:H2; destruct (dd_inner _ _ _ _ Hok1 H2) as (Hok2 & Hs2 & Ha2).
  2:{ intros [= <- <-]. split_and!; [done|congruence|left; congruence]. }
  destruct (MarkProcessedEvent store name _ _ w2) as [w3 [v|er]] eqn:H3;
    destruct (dd_mark _ _ _ _ _ Hok2 H3) as (Hok3 & Ha3 & Hs3); intros [= <- <-].
  - split_and!; [done|by rewrite Hs3, Hs2, Hs1|]. rewrite Ha3, Ha2, Ha1. simpl. by rewrite decide_False.
  - split_and!; [done|congruence|right; split; [done|congruence]].
Qed.

Lemma fresh_app s l1 l2 : fresh s (l1 ++ l2) = fresh s l1 ++ fresh (list_to_set (dedup_key <$> l1) ∪ s) l2.
Proof.
  revert s; induction l1 as [|e l1 IH]; intros s; simpl.
  { f_equal. set_solver. }
  case_decide; rewrite IH; simpl; do 2 f_equal; [|f_equal]; set_solver.
Qed.

Lemma fresh_NoDup s l : NoDup (dedup_key <$> fresh s l) /\ Forall (fun e => dedup_key e ∉ s) (fresh s l).
Proof.
  revert s; induction l as [|e l IH]; intros s; simpl; [by repeat constructor|].
  case_decide; [apply IH|]. destruct (IH ({[dedup_key e]} ∪ s)) as [Hnd HF]. rewrite Forall_forall in HF.
  split; simpl; constructor; try done.
  - intros (e' & Heq & He')%list_elem_of_fmap. apply HF in He'. rewrite <- Heq in He'.
    apply He', elem_of_union_l, elem_of_singleton_2. done.
  - apply Forall_forall. intros e' He' Hin. by apply (HF e' He'), elem_of_union_r.
Qed.

(** C18: with the dedup gate an event is applied at most once, whatever is
    delivered again.  Over any sequence of deliveries, the inner handler applies
    exactly the events not marked before, each one once, at its first delivery,
    as far as the gate got; only when writing the mark itself fails was the
    event at hand applied without being remembered. *)
Theorem dedup_applies_once {W} ok seen applied inner store name
    (DL : DedupLaws (W := W) ok seen applied inner store name) evs w w' x :
  ok w -> forM_ evs (Projection.WithDedup inner store name) w = (w', x) ->
  exists done rest, evs = done ++ rest /\
    NoDup (dedup_key <$> fresh (seen w) done) /\
    Forall (fun e => dedup_key e ∉ seen w) (fresh (seen w) done) /\
    seen w' = list_to_set (dedup_key <$> done) ∪ seen w /\
    match x with
    | Ok _ => rest = [] /\ applied w' = applied w ++ fresh (seen w) done
    | Err _ => exists e rest', rest = e :: rest' /\
        (applied w' = applied w ++ fresh (seen w) done \/
         (dedup_key e ∉ seen w' /\ applied w' = applied w ++ fresh (seen w) done ++ [e]))
    end.
Proof.
  intros Hok Hrun. cut (exists done rest, evs = done ++ rest /\
    seen w' = list_to_set (dedup_key <$> done) ∪ seen w /\
    match x with
    | Ok _ => rest = [] /\ applied w' = applied w ++ fresh (seen w) done
    | Err _ => exists e rest', rest = e :: rest' /\
        (applied w' = applied w ++ fresh (seen w) done \/
         (dedup_key e ∉ seen w' /\ applied w' = applied w ++ fresh (seen w) done ++ [e]))
    end).
  { intros (d & rest & He & Hs & Hx). exists d, rest.
    destruct (fresh_NoDup (seen w) d) as [Hnd HF]. done. }
  revert w Hok Hrun. induction evs as [|e evs IH]; intros w Hok; simpl.
  { intros [= <- <-]. exists [], []. simpl. rewrite app_nil_r, (left_id_L ∅ (∪)). done. }
  unfold mbind, M_bind. destruct (Projection.WithDedup inner store name e w) as [w1 y] eqn:H1.
  apply (withDedup_spec _ _ _ _ _ _ _ _ _ _ Hok) in H1 as [Hok1 Hy]. destruct y as [u|er].
  - destruct Hy as [Hs Ha]. intros Hrun.
    destruct (IH w1 Hok1 Hrun) as (d & rest & -> & Hs' & Hx). exists (e :: d), rest.
    assert (Hf : forall l, applied w1 ++ fresh (seen w1) d ++ l =
      applied w ++ fresh (seen w) (e :: d) ++ l).
    { intros l. change (e :: d) with ([e] ++ d). rewrite fresh_app, Ha, Hs.
      cbn [fmap list_fmap list_to_set]. rewrite (right_id_L ∅ (∪)), <- !app_assoc. done. }
    split_and!; [done|rewrite Hs', Hs; set_solver|]. pose proof (Hf []) as Hf0.
    rewrite !app_nil_r in Hf0. rewrite <- Hf0.
    destruct x; [done|]. destruct Hx as (e' & r' & -> & Hx). exists e', r'.
    split; [done|]. rewrite <- Hf. done.
  - destruct Hy as [Hs Ha]. intros [= <- <-]. exists [], (e :: evs). simpl.
    rewrite app_nil_r, (left_id_L ∅ (∪)). split_and!; try done. exists e, evs. split; [done|].
    rewrite Hs. done.
Qed.
