(* ===== verification/Linked.v ===== *)
(** * Linked projections (linked/projection.go)

    A projection handler that derives an event from each source event and
    appends it to a destination stream, under a uniqueness claim on the source
    event.  [LinkedLaws] states what it relies on: a claim is taken at most
    once, in the transaction of the append it guards. *)
From S2P Require Import Prelude Errors Streams Events Store Projection.

Module Linked.
(** Route.OccurredAt is never read. *)
Record Route (Msg : Type) := mkRoute {
  Skip : bool;
  DestinationStream : StreamID.t;
  DerivedEvent : option Msg;
  DerivedTypeURL : string;
  SchemaVersion : Z;
  ExpectedVersion : Z;
  rt_Actor : Actor.t
}.
Arguments mkRoute {_} _ _ _ _ _ _ _.
Arguments Skip {_} _.
Arguments DestinationStream {_} _.
Arguments DerivedEvent {_} _.
Arguments DerivedTypeURL {_} _.
Arguments SchemaVersion {_} _.
Arguments ExpectedVersion {_} _.
Arguments rt_Actor {_} _.

Record Config (W Msg : Type) := mkConfig {
  Name : string;
  Destination : option (Store W);
  SourceTypeURLs : list string;
  cfg_Route : option (Envelope.t -> M W (Route Msg));
  IdempotentEmit : option bool
}.
Arguments mkConfig {_ _} _ _ _ _ _.
Arguments Name {_ _} _.
Arguments Destination {_ _} _.
Arguments SourceTypeURLs {_ _} _.
Arguments cfg_Route {_ _} _.
Arguments IdempotentEmit {_ _} _.

(** What New returns: a configuration whose pointers are set. *)
Record Projection (W Msg : Type) := mkProjection {
  p_Name : string;
  p_Destination : Store W;
  p_SourceTypeURLs : list string;
  p_Route : Envelope.t -> M W (Route Msg);
  p_IdempotentEmit : option bool
}.
Arguments mkProjection {_ _} _ _ _ _ _.
Arguments p_Name {_ _} _.
Arguments p_Destination {_ _} _.
Arguments p_SourceTypeURLs {_ _} _.
Arguments p_Route {_ _} _ _.
Arguments p_IdempotentEmit {_ _} _.

Definition New {W Msg} (cfg : Config W Msg) : res (Projection W Msg) :=
  if bool_decide (Name cfg = "") then Err (ENew "linked: Config.Name is required")
  else
    match Destination cfg, cfg_Route cfg with
    | None, _ => Err (ENew "linked: Config.Destination is required")
    | Some _, None => Err (ENew "linked: Config.Route is required")
    | Some d, Some r => Ok (mkProjection (Name cfg) d (SourceTypeURLs cfg) r (IdempotentEmit cfg))
    end.

Section Linked.
(** [proto.Marshal], [uuid.NewV7] (uuid.Must panics on its error) and
    [UUID.String]. *)
Context {W Msg : Type} (Marshal : Msg -> res bytes) (NewV7 : M W UUID) (uuid_text : UUID -> string)
  (p : Projection W Msg).

Definition filtered_out (env : Envelope.t) : bool :=
  negb (bool_decide (p_SourceTypeURLs p = [])) && negb (bool_decide (Envelope.TypeURL env ∈ p_SourceTypeURLs p)).

Definition idempotent : bool := default true (p_IdempotentEmit p).
Definition scope : string := "linked:" +:+ p_Name p.

Definition derivedActor (route : Route Msg) : Actor.t :=
  if bool_decide (Actor.Principal (rt_Actor route) = "")
  then Actor.mk Actor.ActorService ("linked-projection:" +:+ p_Name p) "" "" ∅
  else rt_Actor route.

Definition derivedParams (env : Envelope.t) (route : Route Msg) (payload : bytes) (eventID commandID : UUID)
    : AppendParams :=
  mkAppendParams (DestinationStream route) (ExpectedVersion route)
    [mkEventToAppend eventID (DerivedTypeURL route)
       (if SchemaVersion route =? 0 then 1 else SchemaVersion route) (Envelope.OccurredAt env)
       (Envelope.CorrelationID env) (Envelope.EventID env) commandID (derivedActor route) payload [] []]
    (if idempotent then [mkConstraintOp ClaimConstraint scope (uuid_text (Envelope.EventID env))] else [])
    None "" 0 false.

Definition Handler (env : Envelope.t) : M W unit :=
  if filtered_out env then mret tt
  else
    let prefix := "linked " +:+ p_Name p +:+ ": " in
    route ← wrap_err (prefix +:+ "route") (p_Route p env);
    if Skip route then mret tt
    else
      match DerivedEvent route with
      | None => fail (ENew (prefix +:+ "route returned no DerivedEvent (and Skip=false)"))
      | Some msg =>
          payload ← wrap_err (prefix +:+ "marshal derived event") (of_res (Marshal msg));
          eventID ← NewV7;
          commandID ← NewV7;
          r ← try (Append (p_Destination p) (derivedParams env route payload eventID commandID));
          match r with
          | Ok _ => mret tt
          | Err e =>
              if errors_Is e ErrConstraintViolated && idempotent then mret tt
              else fail (EWrap (prefix +:+ "append derived") e)
          end
      end.
End Linked.
End Linked.
Import Linked.

(** ** The contract

    [claimed w t v]: the scope of the projection holds the value [v] in tenant
    [t].  [log] is what the destination store holds, [records] that an entry of
    it is an appended event, [routes] what Route may answer. *)
Section Laws.
Context {W Msg L : Type} (Marshal : Msg -> res bytes) (NewV7 : M W UUID) (uuid_text : UUID -> string)
  (p : Linked.Projection W Msg) (ok : W -> Prop) (claimed : W -> string -> string -> Prop) (log : W -> list L)
  (records : StreamID.t -> EventToAppend -> L -> Prop) (routes : Envelope.t -> Route Msg -> Prop).

Definition same_claims (w w' : W) : Prop := forall t v, claimed w' t v <-> claimed w t v.
Definition untouched (w w' : W) : Prop := ok w' /\ same_claims w w' /\ log w' = log w.
Definition leaves {A} (m : M W A) : Prop := forall w w' x, ok w -> m w = (w', x) -> untouched w w'.

Definition is_uuid (id : UUID) : Prop := 0 <= id < 2 ^ 128.

Class LinkedLaws := {
  kl_append : forall ps ev v w w' x, ok w -> ap_Events ps = [ev] ->
    ap_Constraints ps = [mkConstraintOp ClaimConstraint (scope p) v] -> ap_NewStateBytes ps = None ->
    Append (p_Destination p) ps w = (w', x) ->
    let t := StreamID.Tenant (ap_StreamID ps) in
    match x with
    | Ok _ => ok w' /\ ~ claimed w t v /\
        (forall t' v', claimed w' t' v' <-> claimed w t' v' \/ t' = t /\ v' = v) /\
        exists row, records (ap_StreamID ps) ev row /\ log w' = log w ++ [row]
    | Err e => untouched w w' /\ (errors_Is e ErrConstraintViolated = true -> claimed w t v)
    end;
  kl_uuid : leaves NewV7;
  kl_route : forall env, leaves (p_Route p env);
  kl_routes : forall env w w' rt, ok w -> p_Route p env w = (w', Ok rt) -> routes env rt;
  kl_text : forall a b, is_uuid a -> is_uuid b -> uuid_text a = uuid_text b -> a = b
}.

(** ** Runs

    Deliveries of source events, in any order and any number of times, and what
    others do to the destination in between: they may append, but not touch the
    claims of the projection's scope. *)
Inductive step :=
  | Delivered (env : Envelope.t) (x : res unit)
  | Others (rows : list L).

Inductive trace : W -> list step -> W -> Prop :=
  | trace_nil w : trace w [] w
  | trace_deliver w env w1 x tr w2 :
      Handler Marshal NewV7 uuid_text p env w = (w1, x) -> trace w1 tr w2 -> trace w (Delivered env x :: tr) w2
  | trace_others w rows w1 tr w2 :
      ok w1 -> same_claims w w1 -> log w1 = log w ++ rows -> trace w1 tr w2 -> trace w (Others rows :: tr) w2.

Definition others (tr : list step) : list L :=
  tr ≫= fun s => match s with Others rows => rows | Delivered _ _ => [] end.

(** The event a route derives. *)
Definition derives (env : Envelope.t) (rt : Route Msg) (ev : EventToAppend) : Prop :=
  exists msg payload id cid, DerivedEvent rt = Some msg /\ Marshal msg = Ok payload /\
    ap_Events (derivedParams uuid_text p env rt payload id cid) = [ev].

(** An event that was derived and appended: source, route and entry. *)
Notation Emission := (Envelope.t * Route Msg * L)%type.
Definition em_key (em : Emission) : string * UUID :=
  (StreamID.Tenant (DestinationStream (snd (fst em))), Envelope.EventID (fst (fst em))).
Definition em_claim (em : Emission) : string * string := (fst (em_key em), uuid_text (snd (em_key em))).

Definition emitted_ok (em : Emission) : Prop :=
  let '(env, rt, row) := em in
  filtered_out p env = false /\ routes env rt /\ Skip rt = false /\
  exists ev, derives env rt ev /\ records (DestinationStream rt) ev row.
End Laws.
Arguments kl_append {_ _ _ _ _ _ _ _ _ _ _ _}.
Arguments kl_uuid {_ _ _ _ _ _ _ _ _ _ _ _}.
Arguments kl_route {_ _ _ _ _ _ _ _ _ _ _ _}.
Arguments kl_routes {_ _ _ _ _ _ _ _ _ _ _ _}.
Arguments kl_text {_ _ _ _ _ _ _ _ _ _ _ _}.
Arguments Delivered {_} _ _.
Arguments Others {_} _.

Section Facts.
Context {W Msg L : Type} {Marshal : Msg -> res bytes} {NewV7 : M W UUID} {uuid_text : UUID -> string}
  {p : Linked.Projection W Msg} {ok : W -> Prop} {claimed : W -> string -> string -> Prop} {log : W -> list L}
  {records : StreamID.t -> EventToAppend -> L -> Prop} {routes : Envelope.t -> Route Msg -> Prop}
  {KL : LinkedLaws NewV7 uuid_text p ok claimed log records routes} (Hidem : idempotent p = true).
Notation untouched := (untouched ok claimed log).
Notation same_claims := (same_claims claimed).
Notation trace := (trace Marshal NewV7 uuid_text p ok claimed log).
Notation em_claim := (em_claim (L := L) uuid_text).
Notation emitted_ok := (emitted_ok Marshal uuid_text p records routes).

Lemma untouched_trans w1 w2 w3 : untouched w1 w2 -> untouched w2 w3 -> untouched w1 w3.
Proof using. intros (_ & H1 & L1) (Hok & H2 & L2). split; [done|]. split; [|congruence]. intros t v. by rewrite (H2 t v). Qed.

Lemma untouched_refl w : ok w -> untouched w w.
Proof using. by split. Qed.

(** A delivery answered without an event: filtered, skipped, or seen before. *)
Definition settled_by (env : Envelope.t) (claims : string -> string -> Prop) : Prop :=
  filtered_out p env = true \/ exists rt, routes env rt /\
    (Skip rt = true \/ claims (StreamID.Tenant (DestinationStream rt)) (uuid_text (Envelope.EventID env))).

Lemma Handler_spec env w w1 x :
  ok w -> Handler Marshal NewV7 uuid_text p env w = (w1, x) ->
  (untouched w w1 /\ (x = Ok tt -> settled_by env (claimed w))) \/
  (x = Ok tt /\ ok w1 /\ exists rt row, emitted_ok (env, rt, row) /\
     log w1 = log w ++ [row] /\ ~ claimed w (em_claim (env, rt, row)).1 (em_claim (env, rt, row)).2 /\
     forall t v, claimed w1 t v <-> claimed w t v \/ (t, v) = em_claim (env, rt, row)).
Proof using KL Hidem.
  intros Hok. unfold Handler. destruct (filtered_out p env) eqn:Hf.
  { intros [= <- <-]. left. split; [by apply untouched_refl|]. intros _. by left. }
  unfold mbind at 1, M_bind at 1, wrap_err at 1.
  destruct (p_Route p env w) as [w2 [rt|e]] eqn:Hr; pose proof (kl_route env _ _ _ Hok Hr) as Hu1;
    [|intros [= <- <-]; by left].
  apply kl_routes in Hr; [|done]. destruct (Skip rt) eqn:Hs.
  { intros [= <- <-]. left. split; [done|]. intros _. right. exists rt. by split; [|left]. }
  destruct (DerivedEvent rt) as [msg|] eqn:Hm; [|intros [= <- <-]; by left].
  unfold mbind at 1, M_bind at 1, wrap_err at 1, of_res.
  destruct (Marshal msg) as [payload|e] eqn:Hpl; [|intros [= <- <-]; by left].
  unfold mbind at 1, M_bind at 1. destruct (NewV7 w2) as [w3 [id|e]] eqn:Hid;
    pose proof (untouched_trans _ _ _ Hu1 (kl_uuid _ _ _ (proj1 Hu1) Hid)) as Hu2; [|intros [= <- <-]; by left].
  unfold mbind at 1, M_bind at 1. destruct (NewV7 w3) as [w4 [cid|e]] eqn:Hcid;
    pose proof (untouched_trans _ _ _ Hu2 (kl_uuid _ _ _ (proj1 Hu2) Hcid)) as Hu3; [|intros [= <- <-]; by left].
  unfold mbind, M_bind, try. set (ps := derivedParams uuid_text p env rt payload id cid).
  assert (Hc : ap_Constraints ps = [mkConstraintOp ClaimConstraint (scope p) (uuid_text (Envelope.EventID env))])
    by (subst ps; simpl; by rewrite Hidem).
  destruct (Append (p_Destination p) ps w4) as [w5 [ar|e]] eqn:HA;
    pose proof (kl_append ps _ _ _ _ _ (proj1 Hu3) eq_refl Hc eq_refl HA) as H5; simpl in H5.
  - intros [= <- <-]. destruct Hu3 as (_ & Hcl & Hl). destruct H5 as (Hok5 & Hnc & Hcl5 & row & Hrec & Hl5). right.
    split; [done|]. split; [done|]. exists rt, row. split.
    { split_and!; try done. eexists. split; [|exact Hrec]. by exists msg, payload, id, cid. }
    split; [by rewrite Hl5, Hl|]. split; [by intros Hc0; apply Hnc, Hcl|]. intros t v. rewrite Hcl5, (Hcl t v).
    unfold em_claim. simpl. intuition congruence.
  - destruct H5 as [Hu5 Hviol]. pose proof (untouched_trans _ _ _ Hu3 Hu5) as Hu.
    destruct (errors_Is e ErrConstraintViolated) eqn:He; rewrite ?Hidem; intros [= <- <-]; left; (split; [done|]); [|done].
    intros _. right. exists rt. split; [done|]. right. destruct Hu3 as (_ & Hcl & _). apply Hcl. by apply Hviol.
Qed.

Lemma settled_by_mono env (c c' : string -> string -> Prop) :
  (forall t v, c t v -> c' t v) -> settled_by env c -> settled_by env c'.
Proof using. intros H [Hf|(rt & Hr & [Hs|Hc])]; [by left|right..]; exists rt; eauto. Qed.

Lemma trace_spec w tr w' : trace w tr w' -> ok w -> exists ems,
  log w' ≡ₚ log w ++ (snd <$> ems) ++ others tr /\
  NoDup (em_claim <$> ems) /\
  (forall em, em ∈ ems -> ~ claimed w (em_claim em).1 (em_claim em).2 /\ emitted_ok em /\
     Delivered (fst (fst em)) (Ok tt) ∈ tr) /\
  (forall env, Delivered env (Ok tt) ∈ tr -> settled_by env (fun t v => claimed w t v \/ (t, v) ∈ em_claim <$> ems)).
Proof using KL Hidem.
  induction 1 as [w|w env w1 x tr w2 Hh Htr IH|w rows w1 tr w2 Hok1 Hcl Hl Htr IH]; intros Hok.
  - exists []. simpl. rewrite app_nil_r. split_and!; [done|constructor|..]; intros ? []%elem_of_nil.
  - destruct (Handler_spec _ _ _ _ Hok Hh) as [[(Hok1 & Hcl & Hl) Hx]|(-> & Hok1 & rt & row & Hem & Hl & Hnc & Hcl)];
      destruct (IH Hok1) as (ems & Hp & Hnd & Hems & Hdel).
    + exists ems. rewrite Hp, Hl. split_and!; [done|done|..].
      * intros em Hin. destruct (Hems em Hin) as (Hn & He & Hd). split_and!; [by rewrite <- (Hcl _ _)|done|by right].
      * intros env' [Heq|Hin]%elem_of_cons.
        -- injection Heq as -> <-. eapply settled_by_mono; [|by apply Hx]. intros; by left.
        -- eapply settled_by_mono; [|by apply Hdel]. simpl. intros t v. by rewrite (Hcl t v).
    + exists ((env, rt, row) :: ems). rewrite Hp, Hl, <- app_assoc. split_and!; [done|..].
      * rewrite fmap_cons. constructor; [|done]. intros (em & Heq & Hin)%list_elem_of_fmap.
        destruct (Hems em Hin) as (Hn & _). apply Hn, Hcl. right. rewrite Heq. by destruct (em_claim em).
      * intros em [->|Hin]%elem_of_cons; [split_and!; [done|done|by left]|].
        destruct (Hems em Hin) as (Hn & He & Hd). split_and!; [|done|by right]. intros Hc. apply Hn, Hcl. by left.
      * assert (Hall : forall t v, claimed w1 t v \/ (t, v) ∈ em_claim <$> ems ->
          claimed w t v \/ (t, v) ∈ em_claim <$> ((env, rt, row) :: ems)).
        { intros t v [[Hc|Heq]%Hcl|Hin]; [by left|right; rewrite fmap_cons, Heq; by left|right; rewrite fmap_cons; by right]. }
        intros env' [Heq|Hin]%elem_of_cons; [|eapply settled_by_mono; [exact Hall|by apply Hdel]].
        injection Heq as ->. right. exists rt. destruct Hem as (_ & Hr & _). split; [done|]. right. right.
        rewrite fmap_cons. by left.
  - destruct (IH Hok1) as (ems & Hp & Hnd & Hems & Hdel). exists ems. split_and!; [|done|..].
    + rewrite Hp, Hl. change (others (Others rows :: tr)) with (rows ++ others tr). solve_Permutation.
    + intros em Hin. destruct (Hems em Hin) as (Hn & He & Hd). split_and!; [by rewrite <- (Hcl _ _)|done|by right].
    + intros env [[=]|Hin]%elem_of_cons. eapply settled_by_mono; [|by apply Hdel]. simpl. intros t v. by rewrite (Hcl t v).
Qed.
End Facts.

(** C19: a linked projection derives each event once.  Let source events be
    delivered to the handler in any order and any number of times (replays,
    retries after failures), while others append to the destination without
    using the projection's claim scope, with IdempotentEmit on (the default) and
    no claim of the scope before.  Then everything the destination gained
    is what the others appended and the emissions of this projection; no two
    emissions have the same source event and destination tenant; each is the
    event that Route derived from a delivered source event; and every delivery
    that was answered without an error was filtered out, skipped by Route, or
    has its emission. *)
Theorem linked_exactly_once {W Msg L} (Marshal : Msg -> res bytes) (NewV7 : M W UUID) (uuid_text : UUID -> string)
    (p : Linked.Projection W Msg) (ok : W -> Prop) (claimed : W -> string -> string -> Prop) (log : W -> list L)
    records routes (KL : LinkedLaws NewV7 uuid_text p ok claimed log records routes) w tr w' :
  idempotent p = true -> ok w -> (forall t v, ~ claimed w t v) ->
  (forall env x, Delivered env x ∈ tr -> is_uuid (Envelope.EventID env)) ->
  trace Marshal NewV7 uuid_text p ok claimed log w tr w' ->
  exists ems : list (Envelope.t * Route Msg * L),
    log w' ≡ₚ log w ++ (snd <$> ems) ++ others tr /\
    NoDup (em_key <$> ems) /\
    (forall env rt row, (env, rt, row) ∈ ems -> Delivered env (Ok tt) ∈ tr /\ filtered_out p env = false /\
       routes env rt /\ Skip rt = false /\
       exists ev, derives Marshal uuid_text p env rt ev /\ records (DestinationStream rt) ev row) /\
    (forall env, Delivered env (Ok tt) ∈ tr -> filtered_out p env = true \/
       exists rt, routes env rt /\
         (Skip rt = true \/ (StreamID.Tenant (DestinationStream rt), Envelope.EventID env) ∈ em_key <$> ems)).
Proof.
  intros Hid Hok Hfresh Huuid Htr. destruct (trace_spec Hid _ _ _ Htr Hok) as (ems & Hp & Hnd & Hems & Hdel).
  exists ems. split; [done|]. split_and!.
  - change (em_claim uuid_text <$> ems) with (((fun k : string * UUID => (k.1, uuid_text k.2)) ∘ em_key) <$> ems) in Hnd.
    rewrite list_fmap_compose in Hnd. by apply NoDup_fmap_1 in Hnd.
  - intros env rt row Hin. destruct (Hems _ Hin) as (_ & (H1 & H2 & H3 & H4) & Hd). by split_and!.
  - intros env Hin. destruct (Hdel env Hin) as [Hf|(rt & Hr & [Hs|[Hc|Hin']])]; [by left|right; exists rt; split; [done|]..].
    + by left.
    + by apply Hfresh in Hc.
    + right. apply list_elem_of_fmap in Hin' as (em & Heq & Hem). apply list_elem_of_fmap. exists em. split; [|done].
      destruct em as [[env' rt'] row]. unfold em_claim, em_key in *. simpl in *. injection Heq as Ht Hv.
      destruct (Hems _ Hem) as (_ & _ & Hd). simpl in Hd. apply kl_text in Hv; [by rewrite Ht, Hv|by eapply Huuid..].
Qed.
