(* ===== verification/StateStream.v ===== *)
(** * The state-stream drain (state_stream/drain.go, es/state_stream.go,
      es/state_envelope.go)

    A drain delivers the current state of every stream whose cached version is
    above the subscriber's position, and advances the position.  [StreamLaws]
    states what it relies on, in terms of the cached states and the positions
    of the subscriber; SqliteStateStream.v shows that SQLite keeps it. *)
From S2P Require Import Prelude Errors Streams Sharding Events Store Rebuild Projection.

Record StateEnvelope := mkStateEnvelope {
  sv_TenantID : string;
  sv_StreamID : string;
  sv_TypeURL : string;
  sv_Version : Z;
  sv_StateSchemaVersion : Z;
  sv_State : bytes;
  sv_UpdatedAt : Time
}.

Record StateStreamSubscriberStatus := mkStateStreamSubscriberStatus {
  ss_Name : string;
  ss_TenantID : string;
  ss_StreamsBehind : Z;
  ss_MaxLagVersions : Z;
  ss_CheckedAt : Time
}.

Record StateStreamStore (W : Type) := mkStateStreamStore {
  ListStreamsBehind : string -> string -> Z -> M W (list StateEnvelope);
  AdvanceStateStreamPosition : string -> string -> string -> Z -> M W unit
}.
Arguments ListStreamsBehind {_} _ _ _ _.
Arguments AdvanceStateStreamPosition {_} _ _ _ _ _.

Record StateStreamAdmin (W : Type) := mkStateStreamAdmin {
  StateStreamStatus : string -> string -> M W StateStreamSubscriberStatus;
  ResetStateStreamSubscriber : string -> string -> M W Z;
  ResetStateStreamSubscriberForStream : string -> string -> string -> M W unit;
  ListStateStreamSubscribers : M W (list string)
}.
Arguments StateStreamStatus {_} _ _ _.

(** ** drain.go *)
Module StateDrain.
Record Drain (W : Type) := mkDrain {
  SubscriberName : string;
  (** The Store, as far as the drain asserts interfaces on it. *)
  HasStore : bool;
  AsStateStreamStore : option (StateStreamStore W);
  AsLocker : option (ProjectionLocker W);
  AsAdmin : option (StateStreamAdmin W);
  Publisher : option (StateEnvelope -> M W unit);
  Tenant : string;
  BatchSize : Z;
  LockKey : string;
  Shard : Z;
  TotalShards : Z;
  OnDeliveryError : option (StateEnvelope -> err -> W -> W)
}.
Arguments SubscriberName {_} _.
Arguments HasStore {_} _.
Arguments AsStateStreamStore {_} _.
Arguments AsLocker {_} _.
Arguments AsAdmin {_} _.
Arguments Publisher {_} _.
Arguments Tenant {_} _.
Arguments BatchSize {_} _.
Arguments LockKey {_} _.
Arguments Shard {_} _.
Arguments TotalShards {_} _.
Arguments OnDeliveryError {_} _.

Record RunResult := mkRunResult { Delivered : Z; Failed : Z }.

Section Drain.
Context {W : Type} (d : Drain W).

Definition defaultBatchSize : Z := 100.
Definition batchSize : Z := if BatchSize d <=? 0 then defaultBatchSize else BatchSize d.
Definition lockKey : string := "state_stream.drain:" +:+ SubscriberName d +:+ ":" +:+ Tenant d.

Definition validate : option err :=
  if bool_decide (SubscriberName d = "") then Some (ENew "state_stream: SubscriberName is required")
  else if negb (HasStore d) then Some (ENew "state_stream: Store is required")
  else
    match Publisher d with
    | None => Some (ENew "state_stream: Publisher is required")
    | Some _ =>
        if (TotalShards d <? 0) || (Shard d <? 0) ||
           ((0 <? TotalShards d) && (TotalShards d <=? Shard d))
        then Some (ENew "state_stream: invalid sharding")
        else None
    end.

Definition inShard (env : StateEnvelope) : bool :=
  StateStreamShard.inShard (Shard d) (TotalShards d) (sv_TenantID env) (sv_StreamID env).

Definition acquireLock : M W (option (ProjectionLocker W) * bool) :=
  if bool_decide (LockKey d = "") then mret (None, false)
  else
    match AsLocker d with
    | None => mret (None, false)
    | Some locker =>
        acquired ← wrap_err "state_stream: acquire lock" (TryAcquireProjectionLock locker lockKey);
        mret (Some locker, acquired)
    end.

Definition onDeliveryError (env : StateEnvelope) (e : err) (w : W) : W :=
  match OnDeliveryError d with None => w | Some f => f env e w end.

Context (st : StateStreamStore W) (publish : StateEnvelope -> M W unit).

(** One stream of the batch. *)
Definition deliver (env : StateEnvelope) (r : RunResult) (w : W) : W * RunResult :=
  if negb (inShard env) then (w, r)
  else
    match publish env w with
    | (w1, Err e) => (onDeliveryError env e w1, mkRunResult (Delivered r) (Failed r + 1))
    | (w1, Ok _) =>
        match AdvanceStateStreamPosition st (SubscriberName d) (sv_TenantID env) (sv_StreamID env)
                (sv_Version env) w1 with
        | (w2, Err e) =>
            (onDeliveryError env (EWrap "advance position" e) w2,
             mkRunResult (Delivered r) (Failed r + 1))
        | (w2, Ok _) => (w2, mkRunResult (Delivered r + 1) (Failed r))
        end
    end.

Fixpoint deliverAll (envs : list StateEnvelope) (r : RunResult) (w : W) : W * RunResult :=
  match envs with
  | [] => (w, r)
  | env :: envs' => let '(w1, r1) := deliver env r w in deliverAll envs' r1 w1
  end.
End Drain.

Definition runBatch {W} (d : Drain W) (publish : StateEnvelope -> M W unit) : M W RunResult := fun w =>
  match AsStateStreamStore d with
  | None => (w, Err (ENew "state_stream: Store does not implement es.StateStreamStore"))
  | Some st =>
      match ListStreamsBehind st (SubscriberName d) (Tenant d) (batchSize d) w with
      | (w1, Err e) => (w1, Err (EWrap "state_stream: list streams behind" e))
      | (w1, Ok envs) => let '(w2, r) := deliverAll d st publish envs (mkRunResult 0 0) w1 in (w2, Ok r)
      end
  end.

(** The loop of Run; [ctxErr] tells whether the context is done.  [None]: out
    of fuel. *)
Fixpoint runLoop {W} (d : Drain W) (publish : StateEnvelope -> M W unit) (ctxErr : M W bool)
    (fuel : nat) (total : Z) (w : W) : option (W * (Z * option err)) :=
  match fuel with
  | O => None
  | S fuel' =>
      match ctxErr w with
      | (w1, Ok false) =>
          match runBatch d publish w1 with
          | (w2, Err e) => Some (w2, (total, Some e))
          | (w2, Ok r) =>
              let total := total + Delivered r in
              if Delivered r + Failed r =? 0 then Some (w2, (total, None))
              else runLoop d publish ctxErr fuel' total w2
          end
      | (w1, _) => Some (w1, (total, None))
      end
  end.

Definition release {W} (d : Drain W) (l : option (ProjectionLocker W)) (acquired : bool) (w : W) : W :=
  match l with
  | Some locker => if acquired then fst (ReleaseProjectionLock locker (lockKey d) w) else w
  | None => w
  end.

(** Whether another runner holds the lock. *)
Definition locked_out {W} (d : Drain W) (l : option (ProjectionLocker W)) (acquired : bool) : bool :=
  negb (bool_decide (LockKey d = "")) && (match l with Some _ => true | None => false end)
  && negb acquired.

Definition Run {W} (d : Drain W) (ctxErr : M W bool) (fuel : nat) (w : W)
    : option (W * (Z * option err)) :=
  match validate d with
  | Some e => Some (w, (0, Some e))
  | None =>
      match acquireLock d w with
      | (w1, Err e) => Some (w1, (0, Some e))
      | (w1, Ok (l, acquired)) =>
          if locked_out d l acquired then Some (w1, (0, None))
          else
            match Publisher d with
            | None => None
            | Some publish =>
                match runLoop d publish ctxErr fuel 0 w1 with
                | None => None
                | Some (w2, x) => Some (release d l acquired w2, x)
                end
            end
      end
  end.

Definition RunOnce {W} (d : Drain W) : M W RunResult := fun w =>
  match validate d with
  | Some e => (w, Err e)
  | None =>
      match acquireLock d w with
      | (w1, Err e) => (w1, Err e)
      | (w1, Ok (l, acquired)) =>
          if locked_out d l acquired then (w1, Ok (mkRunResult 0 0))
          else
            match Publisher d with
            | None => (w1, Err (ENew "state_stream: Publisher is required"))
            | Some publish => let '(w2, x) := runBatch d publish w1 in (release d l acquired w2, x)
            end
      end
  end.

Definition Status {W} (d : Drain W) : M W StateStreamSubscriberStatus :=
  match AsAdmin d with
  | None => fail (ENew "state_stream: Store does not implement es.StateStreamAdmin")
  | Some admin => StateStreamStatus admin (SubscriberName d) (Tenant d)
  end.
End StateDrain.

(** ** What the drain relies on *)

Definition sv_key (e : StateEnvelope) : string * string := (sv_TenantID e, sv_StreamID e).

Section Laws.
Context {W : Type} (ok : W -> Prop) (cached : W -> gmap (string * string) StateEnvelope)
  (pos : W -> string * string -> option Z) (acked : W -> list StateEnvelope).

(** The subscriber's position in a stream. *)
Definition position (w : W) (k : string * string) : Z := default 0 (pos w k).

(** The streams of the tenant the subscriber has not seen at their version. *)
Definition behind (tenant : string) (w : W) : gmap (string * string) StateEnvelope :=
  filter (fun x => (tenant = "" \/ fst (fst x) = tenant) /\ position w (fst x) < sv_Version (snd x))
    (cached w).

Definition same_streams (w w' : W) : Prop :=
  ok w' /\ cached w' = cached w /\ pos w' = pos w /\ acked w' = acked w.

(** [cached] are the cached states, [pos] the positions of the subscriber and
    [acked] the states its publisher accepted. *)
Class StreamLaws (d : StateDrain.Drain W) (st : StateStreamStore W) (publish : StateEnvelope -> M W unit) := {
  sl_keys : forall w k e, ok w -> cached w !! k = Some e -> sv_key e = k /\ 0 <= sv_Version e < 2 ^ 63;
  sl_list : forall n w w' x, ok w -> 0 < n ->
    ListStreamsBehind st (StateDrain.SubscriberName d) (StateDrain.Tenant d) n w = (w', x) ->
    same_streams w w' /\
    (forall l, x = Ok l -> exists p,
       p ≡ₚ (map_to_list (behind (StateDrain.Tenant d) w)).*2 /\ l = take (Z.to_nat n) p);
  sl_advance : forall t s v w w' x, ok w -> 0 <= v < 2 ^ 63 ->
    AdvanceStateStreamPosition st (StateDrain.SubscriberName d) t s v w = (w', x) ->
    ok w' /\ cached w' = cached w /\ acked w' = acked w /\
    match x with
    | Ok _ => forall k, pos w' k =
        if decide (k = (t, s)) then Some (default v (Z.max v <$> pos w k)) else pos w k
    | Err _ => pos w' = pos w
    end;
  sl_publish : forall e w w' x, ok w -> publish e w = (w', x) ->
    ok w' /\ cached w' = cached w /\ pos w' = pos w /\
    acked w' = match x with Ok _ => acked w ++ [e] | Err _ => acked w end;
  sl_on_error : forall e er w, ok w -> same_streams w (StateDrain.onDeliveryError d e er w);
  sl_lock : forall l k w w' x, ok w -> StateDrain.AsLocker d = Some l ->
    TryAcquireProjectionLock l k w = (w', x) -> same_streams w w';
  sl_unlock : forall l k w w' x, ok w -> StateDrain.AsLocker d = Some l ->
    ReleaseProjectionLock l k w = (w', x) -> same_streams w w'
}.
End Laws.
Arguments sl_keys {_ _ _ _ _ _ _ _ _}.
Arguments sl_list {_ _ _ _ _ _ _ _ _}.
Arguments sl_advance {_ _ _ _ _ _ _ _ _}.
Arguments sl_publish {_ _ _ _ _ _ _ _ _}.
Arguments sl_on_error {_ _ _ _ _ _ _ _ _}.
Arguments sl_lock {_ _ _ _ _ _ _ _ _}.
Arguments sl_unlock {_ _ _ _ _ _ _ _ _}.

(** Maps whose values carry their keys. *)
Section Keyed.
Context (m : gmap (string * string) StateEnvelope) (Hkey : forall k e, m !! k = Some e -> sv_key e = k).

Lemma keyed_elem e : e ∈ (map_to_list m).*2 <-> m !! sv_key e = Some e.
Proof using Hkey.
  rewrite list_elem_of_fmap. split.
  - intros ([k e'] & -> & Hin%elem_of_map_to_list). simpl. by rewrite (Hkey k e' Hin).
  - intros H. exists (sv_key e, e). split; [done|]. by apply elem_of_map_to_list.
Qed.

Lemma keyed_NoDup : NoDup (sv_key <$> (map_to_list m).*2).
Proof using Hkey.
  assert (Heq : sv_key <$> (map_to_list m).*2 = (map_to_list m).*1).
  { rewrite <- list_fmap_compose. apply list_fmap_ext. intros i [k e] Hi%list_elem_of_lookup_2. simpl.
    apply elem_of_map_to_list in Hi. by apply Hkey. }
  rewrite Heq. apply NoDup_fst_map_to_list.
Qed.
End Keyed.

Section Facts.
Context {W : Type} {ok : W -> Prop} {cached : W -> gmap (string * string) StateEnvelope}
  {pos : W -> string * string -> option Z} {acked : W -> list StateEnvelope}
  {d : StateDrain.Drain W} {st : StateStreamStore W} {publish : StateEnvelope -> M W unit}
  {SL : StreamLaws ok cached pos acked d st publish}.
Notation same_streams := (same_streams ok cached pos acked).
Notation position := (position pos).
Notation behind := (behind cached pos (StateDrain.Tenant d)).

Lemma behind_lookup w k e :
  behind w !! k = Some e <->
  cached w !! k = Some e /\ (StateDrain.Tenant d = "" \/ fst k = StateDrain.Tenant d) /\
  position w k < sv_Version e.
Proof. unfold StateStream.behind. rewrite map_lookup_filter_Some. simpl. tauto. Qed.

(** What happened between two moments of a drain: [new] was delivered, each one
    the current state of a stream that was behind, and positions moved only
    forward, to versions that were delivered. *)
Definition progress (w w' : W) (new : list StateEnvelope) : Prop :=
  ok w' /\ cached w' = cached w /\ acked w' = acked w ++ new /\
  Forall (fun e => behind w !! sv_key e = Some e /\ StateDrain.inShard d e = true) new /\
  forall k, position w' k = position w k \/
    (position w k < position w' k /\
     exists e, e ∈ new /\ sv_key e = k /\ position w' k = sv_Version e).

Lemma progress_same w w' : same_streams w w' -> progress w w' [].
Proof.
  intros (Hok & Hc & Hp & Ha). split_and!; try done; [by rewrite app_nil_r|].
  intros k. left. unfold StateStream.position. by rewrite Hp.
Qed.

Lemma progress_le w w' new k : progress w w' new -> position w k <= position w' k.
Proof. intros (_ & _ & _ & _ & H). destruct (H k) as [->|[? _]]; lia. Qed.

Lemma progress_trans w1 w2 w3 n1 n2 :
  progress w1 w2 n1 -> progress w2 w3 n2 -> progress w1 w3 (n1 ++ n2).
Proof.
  intros H12 H23. pose proof (fun k => progress_le _ _ _ k H12) as Hle.
  destruct H12 as (_ & Hc1 & Ha1 & HF1 & Hp1), H23 as (Hok & Hc2 & Ha2 & HF2 & Hp2).
  split_and!; [done|congruence|by rewrite Ha2, Ha1, app_assoc| |].
  - apply Forall_app. split; [done|]. eapply Forall_impl; [exact HF2|]. intros e [Hb Hs]. split; [|done].
    apply behind_lookup in Hb as (Hb & Ht & Hlt). apply behind_lookup. rewrite <- Hc1. split_and!; try done.
    specialize (Hle (sv_key e)). lia.
  - intros k. destruct (Hp1 k) as [He1|(Hlt1 & e1 & Hin1 & Hk1 & He1)],
      (Hp2 k) as [He2|(Hlt2 & e2 & Hin2 & Hk2 & He2)].
    + left. congruence.
    + right. split; [lia|]. exists e2. split_and!; [set_solver|done|done].
    + right. split; [lia|]. exists e1. split_and!; [set_solver|done|congruence].
    + right. split; [lia|]. exists e2. split_and!; [set_solver|done|done].
Qed.

(** An accepted state. *)
Lemma progress_publish e w0 w w1 new :
  progress w0 w new -> behind w0 !! sv_key e = Some e -> StateDrain.inShard d e = true ->
  ok w1 -> cached w1 = cached w -> pos w1 = pos w -> acked w1 = acked w ++ [e] ->
  progress w0 w1 (new ++ [e]).
Proof.
  intros (_ & Hc & Ha & HF & Hp) Hb Hs Hok1 Hc1 Hp1 Ha1.
  split_and!; [done|congruence|by rewrite Ha1, Ha, app_assoc|apply Forall_app; by repeat constructor|].
  intros k. assert (Hpk : position w1 k = position w k) by (unfold StateStream.position; by rewrite Hp1).
  rewrite Hpk. destruct (Hp k) as [?|(? & e' & ? & ? & ?)]; [by left|right].
  split; [done|]. exists e'. split_and!; [set_solver|done|done].
Qed.

Lemma advance_position e w1 w2 k :
  (forall k, pos w2 k = if decide (k = sv_key e)
     then Some (default (sv_Version e) (Z.max (sv_Version e) <$> pos w1 k)) else pos w1 k) ->
  0 <= sv_Version e ->
  position w2 k = if decide (k = sv_key e) then Z.max (position w1 k) (sv_Version e) else position w1 k.
Proof.
  intros Hp2 Hver. unfold StateStream.position. rewrite Hp2.
  case_decide; [|done]. destruct (pos w1 k); simpl; lia.
Qed.

(** Its position advanced. *)
Lemma progress_advance e w0 w1 w2 new :
  progress w0 w1 new -> e ∈ new -> 0 <= sv_Version e ->
  ok w2 -> cached w2 = cached w1 -> acked w2 = acked w1 ->
  (forall k, pos w2 k = if decide (k = sv_key e)
     then Some (default (sv_Version e) (Z.max (sv_Version e) <$> pos w1 k)) else pos w1 k) ->
  progress w0 w2 new.
Proof.
  intros (_ & Hc & Ha & HF & Hp) Hin Hver Hok2 Hc2 Ha2 Hp2.
  split_and!; [done|congruence|congruence|done|]. intros k.
  rewrite (advance_position e w1 w2) by done. case_decide as Hk; [|apply Hp]. subst k.
  rewrite Forall_forall in HF. destruct (HF e Hin) as [(Hce & _ & Hlt)%behind_lookup _]. right.
  destruct (Hp (sv_key e)) as [->|(Hlt' & e' & Hin' & Hk' & ->)].
  - rewrite Z.max_r by lia. split; [done|]. by exists e.
  - destruct (HF e' Hin') as [Hb' _]. rewrite Hk' in Hb'. apply behind_lookup in Hb' as (Hc0 & _ & _).
    rewrite Hce in Hc0. injection Hc0 as <-. rewrite Z.max_id. split; [done|]. by exists e.
Qed.

Lemma deliver_spec e rr w0 w w' new rr' :
  progress w0 w new -> behind w0 !! sv_key e = Some e ->
  StateDrain.deliver d st publish e rr w = (w', rr') ->
  exists new', progress w0 w' (new ++ new').
Proof.
  intros Hpr Hb. unfold StateDrain.deliver. pose proof (proj1 Hpr) as Hok.
  destruct (StateDrain.inShard d e) eqn:Hs; simpl.
  2:{ intros [= <- <-]. exists []. by rewrite app_nil_r. }
  destruct (sl_keys w (sv_key e) e Hok) as [_ Hver].
  { destruct Hpr as (_ & -> & _). by apply behind_lookup in Hb as [? _]. }
  destruct (publish e w) as [w1 [u|er]] eqn:Hpub; destruct (sl_publish _ _ _ _ Hok Hpub) as (Hok1 & Hc1 & Hp1 & Ha1).
  2:{ intros [= <- <-]. exists []. eapply progress_trans; [exact Hpr|].
      apply progress_same. destruct (sl_on_error e er w1 Hok1) as (? & ? & ? & ?). split_and!; congruence. }
  pose proof (progress_publish e _ _ w1 _ Hpr Hb Hs Hok1 Hc1 Hp1 Ha1) as Hpr1.
  destruct (AdvanceStateStreamPosition st _ _ _ _ w1) as [w2 [v|er]] eqn:Hadv;
    destruct (sl_advance _ _ _ _ _ _ Hok1 Hver Hadv) as (Hok2 & Hc2 & Ha2 & Hp2);
    intros [= <- <-]; exists [e].
  - eapply (progress_advance e); [exact Hpr1|set_solver|lia|done|done|done|exact Hp2].
  - destruct (sl_on_error e (EWrap "advance position" er) w2 Hok2) as (? & ? & ? & ?).
    apply (progress_publish e w0 w); congruence || done.
Qed.

Lemma deliverAll_spec envs : forall rr w0 w w' new rr',
  progress w0 w new -> Forall (fun e => behind w0 !! sv_key e = Some e) envs ->
  StateDrain.deliverAll d st publish envs rr w = (w', rr') ->
  exists new', progress w0 w' (new ++ new').
Proof.
  induction envs as [|e envs IH]; intros rr w0 w w' new rr' Hpr HF; simpl.
  { intros [= <- _]. exists []. by rewrite app_nil_r. }
  apply Forall_cons in HF as [He HF].
  destruct (StateDrain.deliver d st publish e rr w) as [w1 rr1] eqn:Hd. intros Hrec.
  destruct (deliver_spec _ _ _ _ _ _ _ Hpr He Hd) as [n1 Hpr1].
  destruct (IH _ _ _ _ _ _ Hpr1 HF Hrec) as [n2 Hpr2]. exists (n1 ++ n2). by rewrite app_assoc.
Qed.

Lemma behind_keyed w : ok w -> forall k e, behind w !! k = Some e -> sv_key e = k.
Proof. intros Hok k e (Hc & _)%behind_lookup. by apply (sl_keys w k e). Qed.

Lemma batchSize_positive : 0 < StateDrain.batchSize d.
Proof.
  unfold StateDrain.batchSize, StateDrain.defaultBatchSize.
  destruct (Z.leb_spec (StateDrain.BatchSize d) 0); lia.
Qed.

(** A page holds streams that are behind. *)
Lemma page_behind w p n : ok w -> p ≡ₚ (map_to_list (behind w)).*2 ->
  Forall (fun e => behind w !! sv_key e = Some e) (take n p).
Proof.
  intros Hok Hp. apply Forall_take. apply Forall_forall. intros e He. rewrite Hp in He.
  by apply keyed_elem in He; [|apply behind_keyed].
Qed.

Lemma state_runBatch_spec w w' x :
  StateDrain.AsStateStreamStore d = Some st -> ok w ->
  StateDrain.runBatch d publish w = (w', x) -> exists new, progress w w' new.
Proof.
  intros Hst Hok. unfold StateDrain.runBatch. rewrite Hst.
  destruct (ListStreamsBehind st _ _ _ w) as [w1 y] eqn:Hl.
  destruct (sl_list _ _ _ _ Hok batchSize_positive Hl) as [Hs Hy].
  pose proof (progress_same _ _ Hs) as Hpr. destruct y as [l|e]; [|intros [= <- <-]; by exists []].
  destruct (Hy l eq_refl) as (p & Hp & ->).
  destruct (StateDrain.deliverAll d st publish _ _ w1) as [w2 rr] eqn:Hd. intros [= <- <-].
  apply (deliverAll_spec _ _ w _ _ []) in Hd as [new Hnew]; [by exists new|done|by apply page_behind].
Qed.

Lemma state_runLoop_spec ctxErr fuel : forall total w w' x,
  (forall w w' x, ok w -> ctxErr w = (w', x) -> same_streams w w') ->
  StateDrain.AsStateStreamStore d = Some st -> ok w ->
  StateDrain.runLoop d publish ctxErr fuel total w = Some (w', x) -> exists new, progress w w' new.
Proof.
  induction fuel as [|fuel IH]; intros total w w' x Hctx Hst Hok; [done|]. cbn [StateDrain.runLoop].
  destruct (ctxErr w) as [w1 y] eqn:Hc. pose proof (Hctx _ _ _ Hok Hc) as Hs1.
  pose proof (progress_same _ _ Hs1) as Hpr1.
  assert (Hstop : Some (w1, (total, None)) = Some (w', x) -> exists new, progress w w' new)
    by (intros [= <- _]; by exists []).
  destruct y as [[]|]; [exact Hstop| |exact Hstop].
  destruct (StateDrain.runBatch d publish w1) as [w2 z] eqn:Hb.
  destruct (state_runBatch_spec _ _ _ Hst (proj1 Hs1) Hb) as [n2 Hpr2].
  pose proof (progress_trans _ _ _ _ _ Hpr1 Hpr2) as Hpr.
  destruct z as [rr|e]; [|intros [= <- _]; by exists n2].
  case_match; [intros [= <- _]; by exists n2|]. intros Hrec.
  apply IH in Hrec as [n3 Hpr3]; [|done|done|apply Hpr]. exists (n2 ++ n3).
  by apply (progress_trans _ _ _ n2 n3 Hpr).
Qed.
Lemma acquireLock_spec w w' x :
  ok w -> StateDrain.acquireLock d w = (w', x) -> same_streams w w' /\
  (forall l a, x = Ok (l, a) -> l = None \/ (l = StateDrain.AsLocker d)).
Proof.
  intros Hok. unfold StateDrain.acquireLock. case_bool_decide.
  { intros [= <- <-]. split; [done|]. intros l a [= <- _]. by left. }
  destruct (StateDrain.AsLocker d) as [l|] eqn:Hl.
  2:{ intros [= <- <-]. split; [done|]. intros l a [= <- _]. by left. }
  unfold wrap_err, mbind, M_bind, mret, M_ret.
  destruct (TryAcquireProjectionLock l _ w) as [w1 [a|e]] eqn:Ht; intros [= <- <-];
    (split; [by eapply sl_lock|]); intros l' a'; [|done]. intros [= <- _]. by right.
Qed.

Lemma release_spec l a w :
  ok w -> l = None \/ l = StateDrain.AsLocker d -> same_streams w (StateDrain.release d l a w).
Proof.
  intros Hok Hl. unfold StateDrain.release. destruct l as [l|]; [|done]. destruct a; [|done].
  destruct Hl as [|Hl]; [done|]. destruct (ReleaseProjectionLock l _ w) as [w' x] eqn:Hr.
  by eapply sl_unlock.
Qed.

Lemma Run_spec ctxErr fuel w w' x :
  (forall w w' x, ok w -> ctxErr w = (w', x) -> same_streams w w') ->
  StateDrain.AsStateStreamStore d = Some st -> StateDrain.Publisher d = Some publish -> ok w ->
  StateDrain.Run d ctxErr fuel w = Some (w', x) -> exists new, progress w w' new.
Proof.
  intros Hctx Hst Hpub Hok. unfold StateDrain.Run.
  destruct (StateDrain.validate d); [intros [= <- _]; exists []; by apply progress_same|].
  destruct (StateDrain.acquireLock d w) as [w1 y] eqn:Hl. apply acquireLock_spec in Hl as [Hs1 Hy]; [|done].
  pose proof (progress_same _ _ Hs1) as Hpr1.
  destruct y as [[l a]|e]; [|intros [= <- _]; by exists []].
  case_match; [intros [= <- _]; by exists []|]. rewrite Hpub.
  destruct (StateDrain.runLoop d publish ctxErr fuel 0 w1) as [[w2 z]|] eqn:Hrun; [|done].
  intros [= <- _]. apply state_runLoop_spec in Hrun as [new Hpr2]; [|done|done|apply Hs1].
  exists ((([] : list StateEnvelope) ++ new) ++ []). eapply progress_trans; [by eapply progress_trans|].
  apply progress_same, release_spec; [apply Hpr2|by eapply Hy].
Qed.

(** *** A drain whose environment answers *)

Class Answering (ctxErr : M W bool) := {
  an_ctx : forall w, ok w -> exists w', ctxErr w = (w', Ok false) /\ same_streams w w';
  an_list : forall n w, ok w -> exists w' l,
    ListStreamsBehind st (StateDrain.SubscriberName d) (StateDrain.Tenant d) n w = (w', Ok l);
  an_publish : forall e w, ok w -> exists w', publish e w = (w', Ok tt);
  an_advance : forall t s v w, ok w -> exists w',
    AdvanceStateStreamPosition st (StateDrain.SubscriberName d) t s v w = (w', Ok tt)
}.

Lemma deliverAll_answering ctxErr `{!Answering ctxErr} envs : forall rr w,
  StateDrain.TotalShards d <= 0 -> ok w -> Forall (fun e => 0 <= sv_Version e < 2 ^ 63) envs ->
  NoDup (sv_key <$> envs) -> Forall (fun e => position w (sv_key e) < sv_Version e) envs ->
  exists w', StateDrain.deliverAll d st publish envs rr w =
      (w', StateDrain.mkRunResult (StateDrain.Delivered rr + Z.of_nat (length envs)) (StateDrain.Failed rr)) /\
    ok w' /\ cached w' = cached w /\ acked w' = acked w ++ envs /\
    (forall e, e ∈ envs -> position w' (sv_key e) = sv_Version e) /\
    (forall k, k ∉ sv_key <$> envs -> position w' k = position w k).
Proof.
  induction envs as [|e envs IH]; intros rr w Hsh Hok Hver Hnd Hlt; simpl.
  { exists w. rewrite Z.add_0_r, app_nil_r. destruct rr. split_and!; try done. set_solver. }
  apply Forall_cons in Hver as [Hv Hver], Hlt as [Hl Hlt]. apply NoDup_cons in Hnd as [Hni Hnd].
  unfold StateDrain.deliver.
  assert (Hin : StateDrain.inShard d e = true).
  { unfold StateDrain.inShard, StateStreamShard.inShard. by rewrite (proj2 (Z.leb_le _ _)) by lia. }
  rewrite Hin. simpl. destruct (an_publish e w Hok) as [w1 Hpub]. rewrite Hpub.
  destruct (sl_publish _ _ _ _ Hok Hpub) as (Hok1 & Hc1 & Hp1 & Ha1).
  destruct (an_advance (sv_TenantID e) (sv_StreamID e) (sv_Version e) w1 Hok1) as [w2 Hadv]. rewrite Hadv.
  destruct (sl_advance _ _ _ _ _ _ Hok1 Hv Hadv) as (Hok2 & Hc2 & Ha2 & Hp2).
  assert (Hpk : forall k, position w2 k =
    if decide (k = sv_key e) then Z.max (position w k) (sv_Version e) else position w k).
  { intros k. rewrite (advance_position e w1 w2) by (done || lia).
    unfold StateStream.position. by rewrite Hp1. }
  destruct (IH (StateDrain.mkRunResult (StateDrain.Delivered rr + 1) (StateDrain.Failed rr)) w2)
    as (w' & Hd & Hok' & Hc' & Ha' & Hin' & Hout'); try done.
  { apply Forall_forall. intros e' He'. rewrite Hpk, decide_False.
    - rewrite Forall_forall in Hlt. by apply Hlt.
    - intros Heq. apply Hni. rewrite <- Heq. by apply list_elem_of_fmap_2. }
  exists w'. rewrite Hd. simpl. split_and!; try congruence.
  - do 2 f_equal. lia.
  - rewrite Ha', Ha2, Ha1, <- app_assoc. done.
  - intros e' [->|He']%elem_of_cons; [|by apply Hin'].
    rewrite Hout' by done. rewrite Hpk, decide_True by done. lia.
  - intros k Hk. apply not_elem_of_cons in Hk as [Hk Hk']. rewrite Hout' by done.
    by rewrite Hpk, decide_False.
Qed.

(** What is behind after a page was delivered. *)
Lemma behind_after w w' p n :
  ok w -> ok w' -> cached w' = cached w -> p ≡ₚ (map_to_list (behind w)).*2 ->
  (forall e, e ∈ take n p -> position w' (sv_key e) = sv_Version e) ->
  (forall k, k ∉ sv_key <$> take n p -> position w' k = position w k) ->
  (map_to_list (behind w')).*2 ≡ₚ drop n p.
Proof.
  intros Hok Hok' Hc Hp Hin Hout.
  pose proof (keyed_NoDup _ (behind_keyed w Hok)) as Hnd. rewrite <- Hp in Hnd.
  assert (Hsplit : sv_key <$> p = (sv_key <$> take n p) ++ (sv_key <$> drop n p))
    by by rewrite <- fmap_app, take_drop.
  rewrite Hsplit in Hnd. apply NoDup_app in Hnd as (Hnd1 & Hdis & Hnd2).
  apply NoDup_Permutation.
  { apply (NoDup_fmap_1 sv_key), keyed_NoDup, behind_keyed, Hok'. }
  { by apply (NoDup_fmap_1 sv_key). }
  intros e. rewrite keyed_elem by (by apply behind_keyed). rewrite behind_lookup, Hc.
  assert (Hb : e ∈ p <-> behind w !! sv_key e = Some e)
    by (rewrite Hp; by apply keyed_elem, behind_keyed).
  rewrite behind_lookup in Hb. split.
  - intros (Hce & Ht & Hlt). destruct (decide (sv_key e ∈ sv_key <$> take n p)) as [Hk|Hk].
    + apply list_elem_of_fmap in Hk as (e' & Hke & He'). rewrite Hke, (Hin e' He') in Hlt.
      assert (He'p : e' ∈ p) by (rewrite <- (take_drop n p); set_solver). rewrite Hp in He'p.
      apply keyed_elem in He'p; [|by apply behind_keyed]. apply behind_lookup in He'p as (Hce' & _).
      rewrite Hke, Hce' in Hce. injection Hce as ->. lia.
    + rewrite Hout in Hlt by done. assert (He : e ∈ p) by (by apply Hb).
      rewrite <- (take_drop n p) in He. apply elem_of_app in He as [He|He]; [|done].
      destruct Hk. by apply list_elem_of_fmap_2.
  - intros He. assert (Hep : e ∈ p) by (rewrite <- (take_drop n p); set_solver).
    destruct (proj1 Hb Hep) as (Hce & Ht & Hlt). split_and!; try done.
    rewrite Hout; [done|]. intros Hk. apply (Hdis _ Hk). by apply list_elem_of_fmap_2.
Qed.
Lemma same_behind w w' : same_streams w w' -> behind w' = behind w.
Proof. intros (_ & Hc & Hp & _). unfold StateStream.behind, StateStream.position. by rewrite Hc, Hp. Qed.

(** One batch delivers a page. *)
Lemma runBatch_answering ctxErr `{!Answering ctxErr} w :
  StateDrain.AsStateStreamStore d = Some st -> StateDrain.TotalShards d <= 0 -> ok w ->
  exists w' p l, StateDrain.runBatch d publish w =
      (w', Ok (StateDrain.mkRunResult (Z.of_nat (length l)) 0)) /\
    p ≡ₚ (map_to_list (behind w)).*2 /\ l = take (Z.to_nat (StateDrain.batchSize d)) p /\
    ok w' /\ cached w' = cached w /\ acked w' = acked w ++ l /\
    (map_to_list (behind w')).*2 ≡ₚ drop (Z.to_nat (StateDrain.batchSize d)) p.
Proof.
  intros Hst Hsh Hok. unfold StateDrain.runBatch. rewrite Hst.
  destruct (an_list (StateDrain.batchSize d) w Hok) as (w1 & l & Hl). rewrite Hl.
  destruct (sl_list _ _ _ _ Hok batchSize_positive Hl) as [Hs1 Hx].
  destruct (Hx l eq_refl) as (p & Hp & ->). pose proof (same_behind _ _ Hs1) as Hb.
  assert (Hp1 : p ≡ₚ (map_to_list (behind w1)).*2) by by rewrite Hb.
  pose proof (page_behind w1 p (Z.to_nat (StateDrain.batchSize d)) (proj1 Hs1) Hp1) as HF.
  destruct (deliverAll_answering ctxErr (take (Z.to_nat (StateDrain.batchSize d)) p)
    (StateDrain.mkRunResult 0 0) w1) as (w2 & Hd & Hok2 & Hc2 & Ha2 & Hin & Hout); try done.
  - apply Hs1.
  - eapply Forall_impl; [exact HF|]. intros e (Hc & _)%behind_lookup.
    by apply (sl_keys w1 (sv_key e) e (proj1 Hs1)).
  - pose proof (keyed_NoDup _ (behind_keyed w1 (proj1 Hs1))) as Hnd. rewrite <- Hp1 in Hnd.
    eapply sublist_NoDup; [exact Hnd|]. apply fmap_sublist, sublist_take.
  - eapply Forall_impl; [exact HF|]. intros e (_ & _ & ?)%behind_lookup. done.
  - exists w2, p, (take (Z.to_nat (StateDrain.batchSize d)) p). rewrite Hd.
    destruct Hs1 as (Hok1 & Hc1 & _ & Ha1). simpl. split_and!; try congruence || done.
    by eapply (behind_after w1).
Qed.

Lemma runLoop_answering ctxErr `{!Answering ctxErr} fuel : forall total w,
  StateDrain.AsStateStreamStore d = Some st -> StateDrain.TotalShards d <= 0 -> ok w ->
  (size (behind w) < fuel)%nat ->
  exists w' new, StateDrain.runLoop d publish ctxErr fuel total w =
      Some (w', (total + Z.of_nat (length new), None)) /\
    ok w' /\ cached w' = cached w /\ acked w' = acked w ++ new /\
    new ≡ₚ (map_to_list (behind w)).*2 /\ behind w' = ∅.
Proof.
  induction fuel as [|fuel IH]; intros total w Hst Hsh Hok Hfuel; [lia|]. cbn [StateDrain.runLoop].
  destruct (an_ctx w Hok) as (w1 & -> & Hs1). pose proof (same_behind _ _ Hs1) as Hb1.
  destruct (runBatch_answering ctxErr w1 Hst Hsh (proj1 Hs1)) as
    (w2 & p & l & -> & Hp & -> & Hok2 & Hc2 & Ha2 & Hb2). simpl. rewrite Hb1 in Hp.
  destruct Hs1 as (_ & Hc1 & _ & Ha1). pose proof batchSize_positive as Hbs.
  assert (Hsz : forall m : gmap (string * string) StateEnvelope, length (map_to_list m).*2 = size m)
    by (intros m; by rewrite length_fmap, length_map_to_list).
  assert (Hlen : length p = size (behind w)) by (by rewrite Hp).
  destruct (Z.eqb_spec (Z.of_nat (length (take (Z.to_nat (StateDrain.batchSize d)) p)) + 0) 0) as [Hz|Hz];
    rewrite length_take in Hz.
  - assert (Hp0 : p = []) by (destruct p; [done|simpl in Hz; lia]). subst p.
    rewrite drop_nil in Hb2. apply symmetry, Permutation_nil in Hb2.
    exists w2, []. rewrite take_nil in *. simpl in *. split_and!; try congruence || done.
    apply map_size_empty_iff. by rewrite <- Hsz, Hb2.
  - destruct (IH (total + Z.of_nat (length (take (Z.to_nat (StateDrain.batchSize d)) p))) w2 Hst Hsh Hok2)
      as (w' & new & -> & Hok' & Hc' & Ha' & Hnew & Hb').
    { rewrite <- Hsz, Hb2, length_drop. lia. }
    exists w', (take (Z.to_nat (StateDrain.batchSize d)) p ++ new). split_and!; try congruence || done.
    + rewrite length_app. do 3 f_equal. lia.
    + by rewrite Ha', Ha2, Ha1, app_assoc.
    + by rewrite Hnew, Hb2, take_drop.
Qed.

(** *** A publisher that refuses *)

Lemma deliverAll_refused envs : forall rr w w' rr',
  (forall e w, ok w -> exists w' er, publish e w = (w', Err er)) ->
  StateDrain.TotalShards d <= 0 -> ok w ->
  StateDrain.deliverAll d st publish envs rr w = (w', rr') ->
  same_streams w w' /\ StateDrain.Delivered rr' = StateDrain.Delivered rr /\
  StateDrain.Failed rr' = StateDrain.Failed rr + Z.of_nat (length envs).
Proof.
  induction envs as [|e envs IH]; intros rr w w' rr' Href Hsh Hok; simpl.
  { intros [= <- <-]. split_and!; try done. lia. }
  unfold StateDrain.deliver.
  assert (Hin : StateDrain.inShard d e = true).
  { unfold StateDrain.inShard, StateStreamShard.inShard. by rewrite (proj2 (Z.leb_le _ _)) by lia. }
  rewrite Hin. simpl. destruct (Href e w Hok) as (w1 & er & Hpub). rewrite Hpub.
  destruct (sl_publish _ _ _ _ Hok Hpub) as (Hok1 & Hc1 & Hp1 & Ha1).
  destruct (sl_on_error e er w1 Hok1) as (Hok2 & Hc2 & Hp2 & Ha2).
  intros Hrec. apply IH in Hrec as ((Hok' & Hc' & Hp' & Ha') & Hd & Hf); try done.
  simpl in *. split_and!; try congruence || lia. split_and!; congruence.
Qed.

Lemma runLoop_refused ctxErr fuel : forall total w,
  (forall w, ok w -> exists w', ctxErr w = (w', Ok false) /\ same_streams w w') ->
  (forall n w, ok w -> exists w' l,
     ListStreamsBehind st (StateDrain.SubscriberName d) (StateDrain.Tenant d) n w = (w', Ok l)) ->
  (forall e w, ok w -> exists w' er, publish e w = (w', Err er)) ->
  StateDrain.AsStateStreamStore d = Some st -> StateDrain.TotalShards d <= 0 -> ok w ->
  behind w <> ∅ -> StateDrain.runLoop d publish ctxErr fuel total w = None.
Proof.
  induction fuel as [|fuel IH]; intros total w Hctx Hlist Href Hst Hsh Hok Hne; [done|]. cbn [StateDrain.runLoop].
  destruct (Hctx w Hok) as (w1 & -> & Hs1). unfold StateDrain.runBatch. rewrite Hst.
  destruct (Hlist (StateDrain.batchSize d) w1 (proj1 Hs1)) as (w2 & l & Hl). rewrite Hl.
  destruct (sl_list _ _ _ _ (proj1 Hs1) batchSize_positive Hl) as [Hs2 Hx].
  destruct (Hx l eq_refl) as (p & Hp & ->).
  destruct (StateDrain.deliverAll d st publish _ _ w2) as [w3 rr] eqn:Hd.
  apply deliverAll_refused in Hd as (Hs3 & HD & HF); [|done|done|apply Hs2]. simpl in HD, HF.
  assert (Hb : behind w3 = behind w)
    by (by rewrite (same_behind _ _ Hs3), (same_behind _ _ Hs2), (same_behind _ _ Hs1)).
  assert (Hlen : (0 < length p)%nat).
  { rewrite Hp, (same_behind _ _ Hs1), length_fmap, length_map_to_list. apply Nat.neq_0_lt_0.
    by intros ?%map_size_empty_inv. }
  rewrite length_take in HF. pose proof batchSize_positive.
  destruct (Z.eqb_spec (StateDrain.Delivered rr + StateDrain.Failed rr) 0) as [Hz|_]; [lia|].
  apply IH; try done; [apply Hs3|]. by rewrite Hb.
Qed.
End Facts.

(** C20: positions only advance, and only to what was delivered.  However a Run
    ends, the cached states are untouched; what the publisher accepted are
    current states of streams that were behind, of this drain's tenant and
    shard; and the position of every stream is unchanged or is the version of
    its state that was delivered. *)
Theorem state_drain_positions {W} (d : StateDrain.Drain W) ok cached pos acked st publish
    (SL : StreamLaws ok cached pos acked d st publish) ctxErr fuel w w' x :
  (forall w w' x, ok w -> ctxErr w = (w', x) -> same_streams ok cached pos acked w w') ->
  StateDrain.AsStateStreamStore d = Some st -> StateDrain.Publisher d = Some publish -> ok w ->
  StateDrain.Run d ctxErr fuel w = Some (w', x) ->
  cached w' = cached w /\
  exists new, acked w' = acked w ++ new /\
    Forall (fun e => cached w !! sv_key e = Some e /\ position pos w (sv_key e) < sv_Version e /\
                     (StateDrain.Tenant d = "" \/ sv_TenantID e = StateDrain.Tenant d) /\
                     StateDrain.inShard d e = true) new /\
    forall k, position pos w' k = position pos w k \/
      (position pos w k < position pos w' k /\
       exists e, e ∈ new /\ sv_key e = k /\ position pos w' k = sv_Version e).
Proof.
  intros Hctx Hst Hpub Hok Hrun. destruct (Run_spec _ _ _ _ _ Hctx Hst Hpub Hok Hrun) as
    (new & _ & Hc & Ha & HF & Hp).
  split; [done|]. exists new. split_and!; try done. eapply Forall_impl; [exact HF|].
  intros e [(? & ? & ?)%behind_lookup ?]. done.
Qed.

(** C21: the drain converges.  When store and publisher answer, an unsharded
    Run without a LockKey ends, after at most one batch per stream; it delivered the current state
    of every stream that was behind exactly once, reports that number, and
    leaves no stream behind. *)
Theorem state_drain_converges {W} (d : StateDrain.Drain W) ok cached pos acked st publish
    (SL : StreamLaws ok cached pos acked d st publish) ctxErr
    (AN : Answering (ok := ok) (cached := cached) (pos := pos) (acked := acked) (d := d) (st := st)
            (publish := publish) ctxErr) fuel w :
  StateDrain.AsStateStreamStore d = Some st -> StateDrain.Publisher d = Some publish ->
  StateDrain.validate d = None -> StateDrain.LockKey d = "" -> StateDrain.TotalShards d <= 0 -> ok w ->
  (size (behind cached pos (StateDrain.Tenant d) w) < fuel)%nat ->
  exists w' new, StateDrain.Run d ctxErr fuel w = Some (w', (Z.of_nat (length new), None)) /\
    cached w' = cached w /\ acked w' = acked w ++ new /\
    new ≡ₚ (map_to_list (behind cached pos (StateDrain.Tenant d) w)).*2 /\
    behind cached pos (StateDrain.Tenant d) w' = ∅.
Proof.
  intros Hst Hpub Hv Hk Hsh Hok Hfuel. unfold StateDrain.Run, StateDrain.acquireLock, StateDrain.locked_out.
  rewrite Hv, Hk, Hpub. simpl.
  destruct (runLoop_answering ctxErr fuel 0 w Hst Hsh Hok Hfuel) as (w' & new & -> & _ & ?).
  by exists w', new.
Qed.

(** A publisher that keeps refusing keeps Run busy.  With a stream behind
    and every delivery refused, Run goes through the same batch again and
    again: no number of batches is enough for it to return. *)
Theorem state_drain_spins {W} (d : StateDrain.Drain W) ok cached pos acked st publish
    (SL : StreamLaws ok cached pos acked d st publish) ctxErr fuel w :
  (forall w, ok w -> exists w', ctxErr w = (w', Ok false) /\ same_streams ok cached pos acked w w') ->
  (forall n w, ok w -> exists w' l,
     ListStreamsBehind st (StateDrain.SubscriberName d) (StateDrain.Tenant d) n w = (w', Ok l)) ->
  (forall e w, ok w -> exists w' er, publish e w = (w', Err er)) ->
  StateDrain.AsStateStreamStore d = Some st -> StateDrain.Publisher d = Some publish ->
  StateDrain.validate d = None -> StateDrain.LockKey d = "" -> StateDrain.TotalShards d <= 0 -> ok w ->
  behind cached pos (StateDrain.Tenant d) w <> ∅ ->
  StateDrain.Run d ctxErr fuel w = None.
Proof.
  intros Hctx Hl Href Hst Hpub Hv Hk Hsh Hok Hne.
  unfold StateDrain.Run, StateDrain.acquireLock, StateDrain.locked_out. rewrite Hv, Hk, Hpub. simpl.
  by rewrite (runLoop_refused ctxErr fuel 0 w).
Qed.
