(* ===== verification/Shred.v ===== *)
(** * Crypto-shredding (shred/shred.go, shred/cache.go, kms/keystore.go)

    Per-subject data keys (DEKs), wrapped by a key store, persisted by a
    subject store and cached in the process.  [ShredLaws] states what the
    Shredder relies on; the AES-GCM primitives are parameters ([AEAD]) with
    their round trip ([AEADLaws]). *)
From S2P Require Import Prelude Errors Streams Events.

(** crypto/aes and crypto/cipher: sealing and opening under a key and a nonce. *)
Class AEAD := {
  gcm_seal : bytes -> bytes -> bytes -> bytes;
  gcm_open : bytes -> bytes -> bytes -> option bytes
}.

Class AEADLaws (A : AEAD) := {
  seal_length : forall k iv pt, (length (gcm_seal k iv pt) = length pt + 16)%nat;
  open_seal : forall k iv pt, gcm_open k iv (gcm_seal k iv pt) = Some pt
}.

(** aes.NewCipher: the key sizes of AES. *)
Definition NewCipher (key : bytes) : option err :=
  let n := Z.of_nat (length key) in
  if (n =? 16) || (n =? 24) || (n =? 32) then None else Some (ENew "crypto/aes: invalid key size").

Definition NonceSize : nat := 12.
Definition Overhead : nat := 16.

(** ** Interfaces *)

Record KeyStore (W : Type) := mkKeyStore {
  WrapDEK : string -> bytes -> M W (bytes * Z);
  UnwrapDEK : string -> bytes -> Z -> M W bytes;
  CurrentKEKVersion : string -> M W Z
}.
Arguments WrapDEK {_} _ _ _.
Arguments UnwrapDEK {_} _ _ _ _.
Arguments CurrentKEKVersion {_} _ _.

Record SubjectKey := mkSubjectKey {
  sk_TenantID : string;
  sk_Subject : string;
  sk_DEKWrapped : bytes;
  sk_KEKVersion : Z;
  sk_CreatedAt : Time;
  sk_ShreddedAt : option Time
}.

Record SubjectStore (W : Type) := mkSubjectStore {
  GetSubjectKey : string -> string -> M W SubjectKey;
  UpsertSubjectKey : string -> string -> bytes -> Z -> M W unit;
  ForgetSubjectKey : string -> string -> M W unit;
  ListStaleSubjectKeys : string -> Z -> Z -> M W (list SubjectKey)
}.
Arguments GetSubjectKey {_} _ _ _.
Arguments UpsertSubjectKey {_} _ _ _ _ _.
Arguments ForgetSubjectKey {_} _ _ _.
Arguments ListStaleSubjectKeys {_} _ _ _ _.

(** ** cache.go *)
Module DekCache.
Notation t := (gmap string bytes).

Definition cacheKey (tenantID subject : string) : string := tenantID +:+ "|" +:+ subject.
Definition get (c : t) (tenantID subject : string) : option bytes := c !! cacheKey tenantID subject.
Definition set (tenantID subject : string) (dek : bytes) (c : t) : t :=
  <[cacheKey tenantID subject := dek]> c.
Definition forget (tenantID subject : string) (c : t) : t := delete (cacheKey tenantID subject) c.
End DekCache.

(** ** shred.go *)
Module Shredder.
Record t (W : Type) := mk { KMS : KeyStore W; Store : SubjectStore W; Rand : Z -> M W bytes }.
Arguments KMS {_} _.
Arguments Store {_} _.
Arguments Rand {_} _ _.

Definition wireV1AESGCM : Byte.byte := Byte.x01.

Section Shredder.
Context {A : AEAD} {W : Type} (s : t W).

(** The world of a Shredder: the stores and its cache. *)
Notation SW := (W * DekCache.t)%type.

Definition on_stores {B} (m : M W B) : M SW B := fun w =>
  let '(w1, x) := m (fst w) in ((w1, snd w), x).

Definition cache_set (tenantID subject : string) (dek : bytes) : M SW unit := fun w =>
  ((fst w, DekCache.set tenantID subject dek (snd w)), Ok tt).

Definition cache_forget (tenantID subject : string) : M SW unit := fun w =>
  ((fst w, DekCache.forget tenantID subject (snd w)), Ok tt).

(** [fmt.Errorf("%w: msg: %v", sentinel, err)] *)
Definition as_sentinel {B} (x : sentinel) (m : M SW B) : M SW B := fun w =>
  match m w with
  | (w', Err e) => (w', Err (EWrapPost (ESent x) (Error e)))
  | y => y
  end.

(** Generate a fresh DEK, wrap, persist. *)
Definition createSubjectKey (tenantID subject : string) : M SW bytes :=
  dek ← on_stores (Rand s 32);
  wk ← as_sentinel ErrKMSUnavailable (on_stores (WrapDEK (KMS s) tenantID dek));
  on_stores (UpsertSubjectKey (Store s) tenantID subject (fst wk) (snd wk)) ≫= fun _ =>
  cache_set tenantID subject dek ≫= fun _ =>
  mret dek.

Definition EnsureSubjectKey (tenantID subject : string) : M SW bytes := fun w =>
  match DekCache.get (snd w) tenantID subject with
  | Some dek => (w, Ok dek)
  | None =>
      match on_stores (GetSubjectKey (Store s) tenantID subject) w with
      | (w1, Ok row) =>
          match sk_ShreddedAt row with
          | Some _ => (w1, Err (ENew "shred: subject has been shredded"))
          | None =>
              (dek ← as_sentinel ErrKMSUnavailable
                       (on_stores (UnwrapDEK (KMS s) tenantID (sk_DEKWrapped row) (sk_KEKVersion row)));
               cache_set tenantID subject dek ≫= fun _ => mret dek) w1
          end
      | (w1, Err e) =>
          if negb (errors_Is e ErrSubjectKeyNotFound) then (w1, Err e)
          else createSubjectKey tenantID subject w1
      end
  end.

Definition aesGCMSealField (dek plaintext : bytes) : M SW bytes :=
  guard_err (NewCipher dek) ≫= fun _ =>
  iv ← on_stores (Rand s (Z.of_nat NonceSize));
  mret (wireV1AESGCM :: iv ++ gcm_seal dek iv plaintext).

Definition aesGCMOpenField (dek sealed : bytes) : res bytes :=
  match sealed with
  | [] => Err (EWrapPost (ESent ErrCryptoIntegrity) "empty ciphertext")
  | v :: body =>
      if negb (bool_decide (v = wireV1AESGCM))
      then Err (EWrapPost (ESent ErrCryptoIntegrity) "unsupported wire version")
      else
        match NewCipher dek with
        | Some e => Err e
        | None =>
            if bool_decide (length body < NonceSize + Overhead)%nat
            then Err (EWrapPost (ESent ErrCryptoIntegrity) "ciphertext shorter than nonce+tag")
            else
              match gcm_open dek (take NonceSize body) (drop NonceSize body) with
              | None => Err (EWrapPost (ESent ErrCryptoIntegrity) "message authentication failed")
              | Some pt => Ok pt
              end
        end
  end.

Definition EncryptField (tenantID subject : string) (plaintext : bytes) : M SW bytes :=
  dek ← EnsureSubjectKey tenantID subject;
  aesGCMSealField dek plaintext.

Definition DecryptField (tenantID subject : string) (sealed : bytes) : M SW bytes := fun w =>
  match DekCache.get (snd w) tenantID subject with
  | Some dek => (w, aesGCMOpenField dek sealed)
  | None =>
      match on_stores (GetSubjectKey (Store s) tenantID subject) w with
      | (w1, Err e) =>
          if errors_Is e ErrSubjectKeyNotFound then (w1, Err (ENew "shred: no DEK for subject"))
          else (w1, Err e)
      | (w1, Ok row) =>
          match sk_ShreddedAt row with
          | Some _ => (w1, Err (ESent ErrShredded))
          | None =>
              (dek ← as_sentinel ErrKMSUnavailable
                       (on_stores (UnwrapDEK (KMS s) tenantID (sk_DEKWrapped row) (sk_KEKVersion row)));
               cache_set tenantID subject dek ≫= fun _ =>
               of_res (aesGCMOpenField dek sealed)) w1
          end
      end
  end.

Definition ForgetSubject (tenantID subject : string) : M SW unit :=
  on_stores (ForgetSubjectKey (Store s) tenantID subject) ≫= fun _ =>
  cache_forget tenantID subject.

Definition ClearCache : M SW unit := fun w => ((fst w, ∅), Ok tt).

(** One stale row of RewrapDEKs. *)
Definition rewrapRow (tenantID : string) (row : SubjectKey) : M W unit :=
  dek ← wrap_err "shred: unwrap DEK" (UnwrapDEK (KMS s) tenantID (sk_DEKWrapped row) (sk_KEKVersion row));
  wk ← wrap_err "shred: re-wrap DEK" (WrapDEK (KMS s) tenantID dek);
  wrap_err "shred: upsert re-wrapped DEK"
    (UpsertSubjectKey (Store s) tenantID (sk_Subject row) (fst wk) (snd wk)).

(** The rows of a page; the count so far is returned with an error. *)
Fixpoint rewrapRows (tenantID : string) (total : Z) (rows : list SubjectKey) (w : W)
    : W * (Z * option err) :=
  match rows with
  | [] => (w, (total, None))
  | row :: rows' =>
      match rewrapRow tenantID row w with
      | (w1, Err e) => (w1, (total, Some e))
      | (w1, Ok _) => rewrapRows tenantID (total + 1) rows' w1
      end
  end.

(** [None]: out of fuel. *)
Fixpoint rewrapLoop (fuel : nat) (tenantID : string) (current pageSize total : Z) (w : W)
    : option (W * (Z * option err)) :=
  match fuel with
  | O => None
  | S fuel' =>
      match ListStaleSubjectKeys (Store s) tenantID current pageSize w with
      | (w1, Err e) => Some (w1, (total, Some (EWrap "shred: list stale subject keys" e)))
      | (w1, Ok []) => Some (w1, (total, None))
      | (w1, Ok stale) =>
          match rewrapRows tenantID total stale w1 with
          | (w2, (total, Some e)) => Some (w2, (total, Some e))
          | (w2, (total, None)) => rewrapLoop fuel' tenantID current pageSize total w2
          end
      end
  end.

Definition RewrapDEKs (fuel : nat) (tenantID : string) (pageSize : Z) (w : W)
    : option (W * (Z * option err)) :=
  let pageSize := if pageSize <=? 0 then 100 else pageSize in
  match CurrentKEKVersion (KMS s) tenantID w with
  | (w1, Err e) => Some (w1, (0, Some (EWrap "shred: read current KEK version" e)))
  | (w1, Ok current) =>
      if current =? 0 then Some (w1, (0, None))
      else rewrapLoop fuel tenantID current pageSize 0 w1
  end.
End Shredder.
End Shredder.

(** RedactedField and RedactedFields.Has. *)
Record RedactedField := mkRedactedField { rf_Name : string; rf_Subject : string; rf_Reason : string }.
Definition RedactedFields_Has (rs : list RedactedField) (name : string) : bool :=
  existsb (fun r => bool_decide (rf_Name r = name)) rs.

(** ** What the Shredder relies on *)

(** A row of the subject keys: the wrapped DEK, its KEK version, shredded or not. *)
Record KeyRow := mkKeyRow { kr_wrapped : bytes; kr_version : Z; kr_shredded : bool }.

Definition row_of (k : SubjectKey) : KeyRow :=
  mkKeyRow (sk_DEKWrapped k) (sk_KEKVersion k) (if sk_ShreddedAt k then true else false).

Section Laws.
Context {W : Type} (ok : W -> Prop) (rows : W -> gmap (string * string) KeyRow)
  (wraps : W -> string -> bytes -> Z -> bytes -> Prop) (current : W -> string -> Z).

(** [wraps w t b v dek]: the key store unwraps [b] under version [v] to [dek].
    No operation takes that away, or lowers a KEK version. *)
Definition keys_kept (w w' : W) : Prop :=
  ok w' /\ (forall t b v dek, wraps w t b v dek -> wraps w' t b v dek) /\
  (forall t, current w t <= current w' t).

Definition rows_kept (w w' : W) : Prop := keys_kept w w' /\ rows w' = rows w.

(** Rows of the tenant below the version, not shredded. *)
Definition stale (t : string) (v : Z) (w : W) : gmap (string * string) KeyRow :=
  filter (fun x => fst (fst x) = t /\ kr_version (snd x) < v /\ kr_shredded (snd x) = false) (rows w).

Class ShredLaws (s : Shredder.t W) := {
  kl_functional : forall w t b v d1 d2, ok w -> wraps w t b v d1 -> wraps w t b v d2 -> d1 = d2;
  kl_versions : forall w k r, ok w -> rows w !! k = Some r -> 0 <= kr_version r;
  kl_rand : forall n w w' x, 0 <= n -> ok w -> Shredder.Rand s n w = (w', x) ->
    rows_kept w w' /\ (forall b, x = Ok b -> Z.of_nat (length b) = n);
  kl_wrap : forall t dek w w' x, ok w -> WrapDEK (Shredder.KMS s) t dek w = (w', x) ->
    rows_kept w w' /\ (forall b v, x = Ok (b, v) -> wraps w' t b v dek /\ current w t <= v /\ 0 <= v < 2 ^ 32);
  kl_unwrap : forall t b v w w' x, 0 <= v -> ok w -> UnwrapDEK (Shredder.KMS s) t b v w = (w', x) ->
    rows_kept w w' /\ (forall dek, x = Ok dek -> wraps w t b v dek);
  kl_current : forall t w w' x, ok w -> CurrentKEKVersion (Shredder.KMS s) t w = (w', x) ->
    rows_kept w w' /\ (forall v, x = Ok v -> v = current w t /\ 0 <= v < 2 ^ 32);
  kl_get : forall t u w w' x, ok w -> GetSubjectKey (Shredder.Store s) t u w = (w', x) ->
    rows_kept w w' /\
    match x with
    | Ok k => rows w !! (t, u) = Some (row_of k)
    | Err e => errors_Is e ErrSubjectKeyNotFound = true -> rows w !! (t, u) = None
    end;
  kl_upsert : forall t u b v w w' x, ok w -> 0 <= v < 2 ^ 32 ->
    UpsertSubjectKey (Shredder.Store s) t u b v w = (w', x) ->
    keys_kept w w' /\
    rows w' = match x with
      | Ok _ => <[(t, u) := mkKeyRow b v (default false (kr_shredded <$> rows w !! (t, u)))]> (rows w)
      | Err _ => rows w
      end;
  kl_forget : forall t u w w' x, ok w -> ForgetSubjectKey (Shredder.Store s) t u w = (w', x) ->
    keys_kept w w' /\
    rows w' = match x with
      | Ok _ => alter (fun r => mkKeyRow [] (kr_version r) true) (t, u) (rows w)
      | Err _ => rows w
      end;
  kl_stale : forall t v n w w' x, ok w -> 0 <= v < 2 ^ 32 -> 0 < n ->
    ListStaleSubjectKeys (Shredder.Store s) t v n w = (w', x) ->
    rows_kept w w' /\
    (forall l, x = Ok l -> exists p,
       p ≡ₚ map_to_list (stale t v w) /\
       ((fun k => ((sk_TenantID k, sk_Subject k), row_of k)) <$> l) = take (Z.to_nat n) p)
}.
End Laws.
Arguments kl_functional {_ _ _ _ _ _ _}.
Arguments kl_versions {_ _ _ _ _ _ _}.
Arguments kl_rand {_ _ _ _ _ _ _}.
Arguments kl_wrap {_ _ _ _ _ _ _}.
Arguments kl_unwrap {_ _ _ _ _ _ _}.
Arguments kl_current {_ _ _ _ _ _ _}.
Arguments kl_get {_ _ _ _ _ _ _}.
Arguments kl_upsert {_ _ _ _ _ _ _}.
Arguments kl_forget {_ _ _ _ _ _ _}.
Arguments kl_stale {_ _ _ _ _ _ _}.

(** Tenants without the separator of the cache key. *)
Definition tenant_plain (t : string) : Prop := str_free "|" t = true.

Lemma cacheKey_inj t u t' u' :
  tenant_plain t -> tenant_plain t' ->
  DekCache.cacheKey t u = DekCache.cacheKey t' u' -> t = t' /\ u = u'.
Proof. intros Ht Ht' H. by apply (str_sep_inj_l "|"). Qed.

Lemma open_seal_field {A : AEAD} {AL : AEADLaws A} dek iv pt :
  NewCipher dek = None -> length iv = NonceSize ->
  Shredder.aesGCMOpenField dek (Shredder.wireV1AESGCM :: iv ++ gcm_seal dek iv pt) = Ok pt.
Proof.
  intros Hd Hiv. unfold Shredder.aesGCMOpenField. rewrite bool_decide_eq_true_2 by done. cbn [negb].
  rewrite Hd. rewrite bool_decide_eq_false_2.
  - rewrite take_app_length', drop_app_length' by done. by rewrite open_seal.
  - rewrite length_app, Hiv, seal_length. unfold Overhead. lia.
Qed.

Section Facts.
Context {A : AEAD} {AL : AEADLaws A} {W : Type} {ok : W -> Prop}
  {rows : W -> gmap (string * string) KeyRow} {wraps : W -> string -> bytes -> Z -> bytes -> Prop}
  {current : W -> string -> Z} {s : Shredder.t W} {SL : ShredLaws ok rows wraps current s}.
Notation rows_kept := (rows_kept ok rows wraps current).
Notation keys_kept := (keys_kept ok wraps current).
Notation SW := (W * DekCache.t)%type.

(** The subject's row is live and wraps [dek]. *)
Definition holds (w : W) (t u : string) (dek : bytes) : Prop :=
  exists b v, rows w !! (t, u) = Some (mkKeyRow b v false) /\ wraps w t b v dek.

(** Every cached key is a DEK, and the one of its live row. *)
Definition cache_ok (w : W) (c : DekCache.t) : Prop :=
  forall t u dek, tenant_plain t -> DekCache.get c t u = Some dek -> holds w t u dek.

Definition shred_ok (w : SW) : Prop := ok (fst w) /\ cache_ok (fst w) (snd w).

(** Keys may be added, none changed. *)
Definition grows (w w' : W) : Prop := keys_kept w w' /\ rows w ⊆ rows w'.

Lemma keys_kept_refl w : ok w -> keys_kept w w.
Proof. intros Hok. split_and!; try done. Qed.

Lemma keys_kept_trans w1 w2 w3 : keys_kept w1 w2 -> keys_kept w2 w3 -> keys_kept w1 w3.
Proof. intros (_ & H1 & H2) (Hok & H3 & H4). split_and!; [done|auto|]. intros t. by trans (current w2 t). Qed.

Lemma grows_refl w : ok w -> grows w w.
Proof. intros Hok. by split; [apply keys_kept_refl|]. Qed.

Lemma grows_trans w1 w2 w3 : grows w1 w2 -> grows w2 w3 -> grows w1 w3.
Proof. intros [? ?] [? ?]. split; [by eapply keys_kept_trans|by etrans]. Qed.

Lemma rows_kept_grows w w' : rows_kept w w' -> grows w w'.
Proof. intros [? Hr]. split; [done|by rewrite Hr]. Qed.

Lemma holds_functional w t u d1 d2 : ok w -> holds w t u d1 -> holds w t u d2 -> d1 = d2.
Proof.
  intros Hok (b & v & Hr & H1) (b' & v' & Hr' & H2). rewrite Hr in Hr'. injection Hr' as -> ->.
  by eapply kl_functional.
Qed.

Lemma holds_grows w w' t u dek : grows w w' -> holds w t u dek -> holds w' t u dek.
Proof.
  intros [(_ & Hw & _) Hr] (b & v & Hrow & Hd). exists b, v. split; [|auto]. by eapply lookup_weaken.
Qed.

Lemma cache_ok_grows w w' c : grows w w' -> cache_ok w c -> cache_ok w' c.
Proof. intros Hg Hc t u dek Ht Hget. eapply holds_grows; [done|]. by apply Hc. Qed.

Lemma cache_ok_set w c t u dek :
  tenant_plain t -> holds w t u dek -> cache_ok w c -> cache_ok w (DekCache.set t u dek c).
Proof.
  intros Ht Hh Hc t' u' dek' Ht' Hget. unfold DekCache.get, DekCache.set in Hget.
  destruct (decide (DekCache.cacheKey t u = DekCache.cacheKey t' u')) as [Hk|Hk].
  - rewrite Hk, lookup_insert_eq in Hget. injection Hget as <-.
    by apply cacheKey_inj in Hk as [<- <-].
  - rewrite lookup_insert_ne in Hget by done. by apply Hc.
Qed.

(** A call to the stores that keeps their rows. *)
Lemma on_stores_inv {B} (m : M W B) (w w' : SW) x :
  Shredder.on_stores m w = (w', x) -> m (fst w) = (fst w', x) /\ snd w' = snd w.
Proof. unfold Shredder.on_stores. destruct (m (fst w)). by intros [= <- <-]. Qed.

Lemma as_sentinel_inv {B} sn (m : M SW B) w w' x :
  Shredder.as_sentinel sn m w = (w', x) ->
  exists y, m w = (w', y) /\ (forall a, x = Ok a -> y = Ok a).
Proof.
  unfold Shredder.as_sentinel. destruct (m w) as [w1 [a|e]]; intros [= <- <-]; eexists; split; done.
Qed.

Lemma as_sentinel_err {B} sn sn' (m : M SW B) w w' e :
  Shredder.as_sentinel sn m w = (w', Err e) -> errors_Is e sn' = bool_decide (sn = sn').
Proof. unfold Shredder.as_sentinel. destruct (m w) as [w1 [a|e']]; [done|]. by intros [= _ <-]. Qed.

(** Unwrapping the DEK of a live row and caching it. *)
Lemma unwrap_spec {B} t u k (cont : bytes -> M SW B) w w' x :
  shred_ok w -> tenant_plain t -> rows (fst w) !! (t, u) = Some (row_of k) -> sk_ShreddedAt k = None ->
  (dek ← Shredder.as_sentinel ErrKMSUnavailable
           (Shredder.on_stores (UnwrapDEK (Shredder.KMS s) t (sk_DEKWrapped k) (sk_KEKVersion k)));
   Shredder.cache_set t u dek ≫= fun _ => cont dek) w = (w', x) ->
  (exists e, x = Err e /\ errors_Is e ErrShredded = false /\ shred_ok w' /\ grows (fst w) (fst w')) \/
  exists w1 dek, shred_ok w1 /\ grows (fst w) (fst w1) /\ holds (fst w1) t u dek /\ cont dek w1 = (w', x).
Proof.
  intros [Hok Hc] Ht Hrow Hsh. unfold mbind at 1, M_bind at 1.
  destruct (Shredder.as_sentinel _ _ w) as [w1 y] eqn:H1.
  assert (He : forall e, y = Err e -> errors_Is e ErrShredded = false)
    by (intros e ->; by rewrite (as_sentinel_err _ ErrShredded _ _ _ _ H1)).
  apply as_sentinel_inv in H1 as (z & [Hm Hs]%on_stores_inv & Hz).
  destruct (kl_unwrap _ _ _ _ _ _ (kl_versions _ _ _ Hok Hrow) Hok Hm) as [Hk Hdek]. pose proof (rows_kept_grows _ _ Hk) as Hg.
  assert (Hok1 : shred_ok w1). { split; [apply Hk|]. rewrite Hs. exact (cache_ok_grows _ _ _ Hg Hc). }
  destruct y as [dek|e]; [|intros [= <- <-]; left; exists e; by split_and!; [|apply He| |]].
  specialize (Hdek dek (Hz dek eq_refl)). intros Hrun. right.
  assert (Hh : holds (fst w) t u dek).
  { exists (sk_DEKWrapped k), (sk_KEKVersion k). unfold row_of in Hrow. by rewrite Hsh in Hrow. }
  exists (fst w1, DekCache.set t u dek (snd w1)), dek. split_and!; [|done| |exact Hrun].
  - split; [apply Hok1|]. apply cache_ok_set; [done| |apply Hok1]. by eapply holds_grows.
  - by eapply holds_grows.
Qed.

Lemma createSubjectKey_spec t u w w' x :
  shred_ok w -> tenant_plain t -> rows (fst w) !! (t, u) = None ->
  Shredder.createSubjectKey s t u w = (w', x) ->
  shred_ok w' /\ grows (fst w) (fst w') /\ (forall dek, x = Ok dek -> holds (fst w') t u dek).
Proof.
  intros [Hok Hc] Ht Hrow. unfold Shredder.createSubjectKey. unfold mbind at 1, M_bind at 1.
  destruct (Shredder.on_stores (Shredder.Rand s 32) w) as [w1 y1] eqn:H1.
  apply on_stores_inv in H1 as [H1 Hs1]. destruct (kl_rand 32 _ _ _ ltac:(lia) Hok H1) as [Hk1 _].
  pose proof (rows_kept_grows _ _ Hk1) as Hg1. pose proof (proj1 (proj1 Hg1)) as Hok1.
  assert (Hc1 : cache_ok (fst w1) (snd w1)) by (rewrite Hs1; exact (cache_ok_grows _ _ _ Hg1 Hc)).
  destruct y1 as [dek|e]; [|by intros [= <- <-]]. unfold mbind at 1, M_bind at 1.
  destruct (Shredder.as_sentinel _ _ w1) as [w2 y2] eqn:H2.
  apply as_sentinel_inv in H2 as (z & [H2 Hs2]%on_stores_inv & Hz).
  destruct (kl_wrap _ _ _ _ _ Hok1 H2) as [Hk2 Hw2]. pose proof (rows_kept_grows _ _ Hk2) as Hg2.
  pose proof (proj1 (proj1 Hg2)) as Hok2. pose proof (grows_trans _ _ _ Hg1 Hg2) as Hg12.
  assert (Hc2 : cache_ok (fst w2) (snd w2)) by (rewrite Hs2; exact (cache_ok_grows _ _ _ Hg2 Hc1)).
  destruct y2 as [[b v]|e]; [|by intros [= <- <-]]. destruct (Hw2 b v (Hz _ eq_refl)) as (Hwr & _ & Hv).
  unfold mbind at 1, M_bind at 1.
  destruct (Shredder.on_stores (UpsertSubjectKey _ t u _ _) w2) as [w3 y3] eqn:H3.
  apply on_stores_inv in H3 as [H3 Hs3]. simpl in H3.
  destruct (kl_upsert _ _ _ _ _ _ _ Hok2 Hv H3) as [Hk3 Hr3].
  assert (Hrow2 : rows (fst w2) !! (t, u) = None) by (destruct Hk2 as [_ ->], Hk1 as [_ ->]; done).
  assert (Hg3 : grows (fst w2) (fst w3)).
  { split; [done|]. rewrite Hr3. destruct y3; [by apply insert_subseteq|done]. }
  assert (Hc3 : cache_ok (fst w3) (snd w3)) by (rewrite Hs3; exact (cache_ok_grows _ _ _ Hg3 Hc2)).
  pose proof (grows_trans _ _ _ Hg12 Hg3) as Hg. pose proof (proj1 Hk3) as Hok3.
  destruct y3 as [[]|e]; [|by intros [= <- <-]].
  assert (Hh : holds (fst w3) t u dek).
  { exists b, v. rewrite Hr3, lookup_insert_eq, Hrow2. split; [done|]. by apply Hk3. }
  intros [= <- <-]. split_and!; [split; [done|by apply cache_ok_set]|done|by intros ? [= <-]].
Qed.
Lemma EnsureSubjectKey_spec t u w w' x :
  shred_ok w -> tenant_plain t -> Shredder.EnsureSubjectKey s t u w = (w', x) ->
  shred_ok w' /\ grows (fst w) (fst w') /\ (forall dek, x = Ok dek -> holds (fst w') t u dek).
Proof.
  intros Hok Ht. unfold Shredder.EnsureSubjectKey.
  destruct (DekCache.get (snd w) t u) as [dek|] eqn:Hget.
  { intros [= <- <-]. split_and!; [done|apply grows_refl, Hok|]. intros ? [= <-]. by apply Hok. }
  destruct (Shredder.on_stores (GetSubjectKey _ t u) w) as [w1 y1] eqn:H1.
  apply on_stores_inv in H1 as [H1 Hs1]. destruct (kl_get _ _ _ _ _ (proj1 Hok) H1) as [Hk1 Hy].
  pose proof (rows_kept_grows _ _ Hk1) as Hg1.
  assert (Hok1 : shred_ok w1).
  { split; [apply Hk1|]. rewrite Hs1. exact (cache_ok_grows _ _ _ Hg1 (proj2 Hok)). }
  destruct y1 as [k|e].
  - destruct (sk_ShreddedAt k) eqn:Hsh; [by intros [= <- <-]|]. intros H2.
    apply (unwrap_spec t u k) in H2; [|done|done|by destruct Hk1 as [_ ->]|done].
    destruct H2 as [(e & -> & _ & Hok' & Hg')|(w2 & dek & Hok2 & Hg2 & Hh & [= <- <-])].
    + split_and!; [done|by eapply grows_trans|done].
    + split_and!; [done|by eapply grows_trans|by intros ? [= <-]].
  - destruct (errors_Is e ErrSubjectKeyNotFound) eqn:Hnf; simpl; [|by intros [= <- <-]].
    intros H2. apply createSubjectKey_spec in H2 as (Hok' & Hg' & Hh); [|done|done|].
    + split_and!; [done|by eapply grows_trans|done].
    + destruct Hk1 as [_ ->]. by apply Hy.
Qed.

(** Sealing touches no key. *)
Lemma seal_spec dek pt w w' x :
  shred_ok w -> Shredder.aesGCMSealField s dek pt w = (w', x) ->
  shred_ok w' /\ grows (fst w) (fst w') /\
  (forall sealed, x = Ok sealed -> Shredder.aesGCMOpenField dek sealed = Ok pt).
Proof.
  intros Hok. unfold Shredder.aesGCMSealField. destruct (NewCipher dek) as [e|] eqn:Hn; simpl.
  { intros [= <- <-]. split_and!; [done|apply grows_refl, Hok|done]. }
  unfold mbind, M_bind. simpl. destruct (Shredder.on_stores (Shredder.Rand s _) w) as [w1 y] eqn:H1.
  apply on_stores_inv in H1 as [H1 Hs1]. destruct (kl_rand (Z.of_nat NonceSize) _ _ _ ltac:(lia) (proj1 Hok) H1) as [Hk1 Hl].
  pose proof (rows_kept_grows _ _ Hk1) as Hg1.
  assert (Hok1 : shred_ok w1).
  { split; [apply Hk1|]. rewrite Hs1. exact (cache_ok_grows _ _ _ Hg1 (proj2 Hok)). }
  destruct y as [iv|e]; intros [= <- <-]; [|done]. split_and!; [done|done|]. intros sealed [= <-].
  apply open_seal_field; [done|]. specialize (Hl iv eq_refl). unfold NonceSize in *. lia.
Qed.

Lemma EncryptField_spec t u pt w w' x :
  shred_ok w -> tenant_plain t -> Shredder.EncryptField s t u pt w = (w', x) ->
  shred_ok w' /\ grows (fst w) (fst w') /\
  (forall sealed, x = Ok sealed -> exists dek, holds (fst w') t u dek /\
     Shredder.aesGCMOpenField dek sealed = Ok pt).
Proof.
  intros Hok Ht. unfold Shredder.EncryptField, mbind, M_bind.
  destruct (Shredder.EnsureSubjectKey s t u w) as [w1 y] eqn:H1.
  apply EnsureSubjectKey_spec in H1 as (Hok1 & Hg1 & Hh); [|done|done].
  destruct y as [dek|e]; [|by intros [= <- <-]]. intros H2.
  apply seal_spec in H2 as (Hok2 & Hg2 & Hs); [|done].
  split_and!; [done|by eapply grows_trans|]. intros sealed Hx. exists dek.
  split; [|by apply Hs]. eapply holds_grows; [done|]. by apply Hh.
Qed.

Lemma DecryptField_spec t u sealed w w' x :
  shred_ok w -> tenant_plain t -> Shredder.DecryptField s t u sealed w = (w', x) ->
  shred_ok w' /\ grows (fst w) (fst w') /\
  (forall pt, x = Ok pt -> exists dek, holds (fst w') t u dek /\ Shredder.aesGCMOpenField dek sealed = Ok pt).
Proof.
  intros Hok Ht. unfold Shredder.DecryptField.
  destruct (DekCache.get (snd w) t u) as [dek|] eqn:Hget.
  { intros [= <- <-]. split_and!; [done|apply grows_refl, Hok|]. intros pt Hx. exists dek.
    split; [by apply Hok|done]. }
  destruct (Shredder.on_stores (GetSubjectKey _ t u) w) as [w1 y1] eqn:H1.
  apply on_stores_inv in H1 as [H1 Hs1]. destruct (kl_get _ _ _ _ _ (proj1 Hok) H1) as [Hk1 Hy].
  pose proof (rows_kept_grows _ _ Hk1) as Hg1.
  assert (Hok1 : shred_ok w1).
  { split; [apply Hk1|]. rewrite Hs1. exact (cache_ok_grows _ _ _ Hg1 (proj2 Hok)). }
  destruct y1 as [k|e]; [|case_match; by intros [= <- <-]].
  destruct (sk_ShreddedAt k) eqn:Hsh; [by intros [= <- <-]|]. intros H2.
  apply (unwrap_spec t u k) in H2; [|done|done|by destruct Hk1 as [_ ->]|done].
  destruct H2 as [(e & -> & _ & Hok' & Hg')|(w2 & dek & Hok2 & Hg2 & Hh & [= <- <-])].
  - split_and!; [done|by eapply grows_trans|done].
  - split_and!; [done|by eapply grows_trans|]. intros pt Hx. by exists dek.
Qed.

(** The subject store finds the rows it has, the key store unwraps what it wrapped. *)
Definition answers (t u : string) : Prop :=
  (forall w r, ok w -> rows w !! (t, u) = Some r ->
     exists w' k, GetSubjectKey (Shredder.Store s) t u w = (w', Ok k)) /\
  (forall w b v dek, ok w -> wraps w t b v dek ->
     exists w' d, UnwrapDEK (Shredder.KMS s) t b v w = (w', Ok d)).

Lemma DecryptField_returns t u sealed pt dek w w' x :
  shred_ok w -> tenant_plain t -> holds (fst w) t u dek -> Shredder.aesGCMOpenField dek sealed = Ok pt ->
  answers t u -> Shredder.DecryptField s t u sealed w = (w', x) -> x = Ok pt.
Proof.
  intros Hok Ht Hh Hopen [Hget Hunw]. unfold Shredder.DecryptField.
  destruct (DekCache.get (snd w) t u) as [dek'|] eqn:Hc.
  { intros [= _ <-]. apply Hok in Hc; [|done].
    by rewrite <- (holds_functional (fst w) t u dek dek' (proj1 Hok) Hh Hc). }
  destruct Hh as (b & v & Hrow & Hw). destruct (Hget _ _ (proj1 Hok) Hrow) as (w1 & k & Hk).
  destruct (kl_get _ _ _ _ _ (proj1 Hok) Hk) as [Hkept Hrow']. rewrite Hrow in Hrow'.
  unfold Shredder.on_stores at 1. rewrite Hk. unfold row_of in Hrow'.
  destruct (sk_ShreddedAt k); [done|]. injection Hrow' as Hb Hv. subst b v.
  apply Hkept in Hw as Hw'. destruct (Hunw w1 _ _ _ (proj1 (proj1 Hkept)) Hw') as (w'' & d & Hu).
  destruct (kl_unwrap _ _ _ _ _ _ (kl_versions _ _ _ (proj1 Hok) Hrow) (proj1 (proj1 Hkept)) Hu) as [_ Hd].
  unfold mbind at 1, M_bind at 1, Shredder.as_sentinel, Shredder.on_stores. cbn [fst snd]. rewrite Hu.
  specialize (Hd d eq_refl). rewrite (kl_functional _ _ _ _ _ _ (proj1 (proj1 Hkept)) Hd Hw'). by intros [= _ <-].
Qed.

Lemma DecryptField_shredded t u sealed b v w w' x :
  shred_ok w -> tenant_plain t -> rows (fst w) !! (t, u) = Some (mkKeyRow b v true) ->
  Shredder.DecryptField s t u sealed w = (w', x) ->
  match GetSubjectKey (Shredder.Store s) t u (fst w) with
  | (_, Ok _) => x = Err (ESent ErrShredded)
  | (_, Err e) => exists e', x = Err e' /\ (errors_Is e ErrShredded = false -> errors_Is e' ErrShredded = false)
  end.
Proof.
  intros [Hok Hc] Ht Hrow. unfold Shredder.DecryptField.
  destruct (DekCache.get (snd w) t u) as [dek|] eqn:Hg.
  { apply Hc in Hg as (b' & v' & Hr' & _); [|done]. rewrite Hrow in Hr'. discriminate. }
  unfold Shredder.on_stores. destruct (GetSubjectKey _ t u (fst w)) as [w1 [k|e]] eqn:Hk.
  - destruct (kl_get _ _ _ _ _ Hok Hk) as [_ Hrk]. rewrite Hrow in Hrk. unfold row_of in Hrk.
    destruct (sk_ShreddedAt k); [by intros [= _ <-]|done].
  - case_match; intros [= _ <-]; by eexists.
Qed.

(** While the subject's key is held, a decryption that fails does not look like
    one of a shredded subject, unless the store's own error does. *)
Lemma DecryptField_held t u sealed pt dek w w' x :
  (forall w w' e, GetSubjectKey (Shredder.Store s) t u w = (w', Err e) -> errors_Is e ErrShredded = false) ->
  shred_ok w -> tenant_plain t -> holds (fst w) t u dek -> Shredder.aesGCMOpenField dek sealed = Ok pt ->
  Shredder.DecryptField s t u sealed w = (w', x) ->
  x = Ok pt \/ exists e, x = Err e /\ errors_Is e ErrShredded = false.
Proof.
  intros Hhon Hok Ht Hh Hopen. unfold Shredder.DecryptField.
  destruct (DekCache.get (snd w) t u) as [dek'|] eqn:Hc.
  { intros [= _ <-]. left. apply Hok in Hc; [|done].
    by rewrite <- (holds_functional (fst w) t u dek dek' (proj1 Hok) Hh Hc). }
  destruct (Shredder.on_stores (GetSubjectKey _ t u) w) as [w1 y1] eqn:H1.
  apply on_stores_inv in H1 as [H1 Hs1]. destruct (kl_get _ _ _ _ _ (proj1 Hok) H1) as [Hk1 Hy].
  pose proof (rows_kept_grows _ _ Hk1) as Hg1.
  assert (Hok1 : shred_ok w1) by (split; [apply Hk1|rewrite Hs1; exact (cache_ok_grows _ _ _ Hg1 (proj2 Hok))]).
  destruct y1 as [k|e].
  - destruct (sk_ShreddedAt k) eqn:Hsh.
    { destruct Hh as (b & v & Hrow & _). rewrite Hrow in Hy. unfold row_of in Hy. by rewrite Hsh in Hy. }
    intros H2. destruct (unwrap_spec t u k _ _ _ _ Hok1 Ht ltac:(by destruct Hk1 as [_ ->]) Hsh H2)
      as [(e & -> & He & _)|(w2 & dek' & Hok2 & Hg2 & Hh' & [= <- <-])].
    + right. by exists e.
    + left. by rewrite <- (holds_functional (fst w2) t u dek dek' (proj1 Hok2)
        (holds_grows _ _ _ _ _ Hg2 (holds_grows _ _ _ _ _ Hg1 Hh)) Hh').
  - apply Hhon in H1. case_match; intros [= _ <-]; right; by eexists.
Qed.

Lemma ForgetSubject_spec t u w w' x :
  shred_ok w -> tenant_plain t -> Shredder.ForgetSubject s t u w = (w', x) ->
  ok (fst w') /\ keys_kept (fst w) (fst w') /\
  match x with
  | Ok _ => shred_ok w' /\
      rows (fst w') = alter (fun r => mkKeyRow [] (kr_version r) true) (t, u) (rows (fst w))
  | Err _ => shred_ok w' /\ rows (fst w') = rows (fst w)
  end.
Proof.
  intros [Hok Hc] Ht. unfold Shredder.ForgetSubject, mbind, M_bind.
  destruct (Shredder.on_stores (ForgetSubjectKey _ t u) w) as [w1 y] eqn:H1.
  apply on_stores_inv in H1 as [H1 Hs1]. destruct (kl_forget _ _ _ _ _ Hok H1) as [Hk Hr].
  destruct y as [[]|e]; intros [= <- <-]; simpl.
  - split_and!; [apply Hk|done| |done]. split; [apply Hk|]. simpl. rewrite Hs1.
    intros t' u' dek Ht' Hget. unfold DekCache.get, DekCache.forget in Hget.
    destruct (decide (DekCache.cacheKey t u = DekCache.cacheKey t' u')) as [Hk'|Hk'].
    { by rewrite Hk', lookup_delete_eq in Hget. }
    rewrite lookup_delete_ne in Hget by done. destruct (Hc t' u' dek Ht' Hget) as (b & v & Hrow & Hwr).
    exists b, v. rewrite Hr, lookup_alter_ne by (intros [= -> ->]; done). split; [done|]. by apply Hk.
  - split_and!; [apply Hk|done| |done]. split; [apply Hk|]. rewrite Hs1.
    apply (cache_ok_grows (fst w)); [|done]. split; [done|by rewrite Hr].
Qed.

(** *** RewrapDEKs *)
Notation stale := (stale rows).

(** What re-wrapping below version [v] may have done to the row of a subject:
    nothing, or the same DEK is now wrapped under a version from [v] on. *)
Definition rewrapped (t : string) (v : Z) (w w' : W) : Prop :=
  keys_kept w w' /\
  forall k, rows w' !! k = rows w !! k \/
    exists b b' n n' dek, fst k = t /\ rows w !! k = Some (mkKeyRow b n false) /\ n < v /\
      rows w' !! k = Some (mkKeyRow b' n' false) /\ v <= n' /\ wraps w' t b n dek /\ wraps w' t b' n' dek.

Lemma rewrapped_kept t v w w' : rows_kept w w' -> rewrapped t v w w'.
Proof. intros [? Hr]. split; [done|]. intros k. left. by rewrite Hr. Qed.

Lemma rewrapped_trans t v w1 w2 w3 :
  rewrapped t v w1 w2 -> rewrapped t v w2 w3 -> rewrapped t v w1 w3.
Proof.
  intros [Hk1 H1] [Hk2 H2]. split; [by eapply keys_kept_trans|]. intros k.
  pose proof (proj1 (proj2 Hk2)) as Hmono.
  destruct (H1 k) as [E1|(b & b' & n & n' & dek & Ht & Hr & Hn & Hr' & Hn' & Hw & Hw')];
    destruct (H2 k) as [E2|(b2 & b2' & n2 & n2' & dek2 & Ht2 & Hr2 & Hn2 & Hr2' & Hn2' & Hw2 & Hw2')].
  - left. congruence.
  - right. exists b2, b2', n2, n2', dek2. split_and!; try done. congruence.
  - right. exists b, b', n, n', dek. split_and!; try done; [congruence|auto|auto].
  - rewrite Hr' in Hr2. injection Hr2 as -> ->. lia.
Qed.

(** Re-wrapping keeps every DEK, and shredded rows shredded. *)
Lemma rewrapped_holds t v w w' t' u dek : rewrapped t v w w' -> holds w t' u dek -> holds w' t' u dek.
Proof.
  intros [Hk H] (b & n & Hr & Hw). apply Hk in Hw.
  destruct (H (t', u)) as [E|(b1 & b' & n1 & n' & dek' & Ht & Hr1 & _ & Hr' & _ & Hw1 & Hw')].
  - exists b, n. by rewrite E.
  - simpl in Ht. subst t'. rewrite Hr in Hr1. injection Hr1 as <- <-.
    exists b', n'. split; [done|]. by rewrite (kl_functional _ _ _ _ _ _ (proj1 Hk) Hw Hw1).
Qed.

Lemma stale_lookup t v w k r :
  stale t v w !! k = Some r <->
  rows w !! k = Some r /\ fst k = t /\ kr_version r < v /\ kr_shredded r = false.
Proof. unfold Shred.stale. by rewrite map_lookup_filter_Some. Qed.

Lemma stale_kept t v w w' : rows w' = rows w -> stale t v w' = stale t v w.
Proof. intros Hr. unfold Shred.stale. by rewrite Hr. Qed.

(** One stale row: either nothing happened to it, or it is no longer stale. *)
Lemma rewrapRow_spec t v k w w' x :
  ok w -> stale t v w !! (t, sk_Subject k) = Some (row_of k) -> v <= current w t ->
  Shredder.rewrapRow s t k w = (w', x) ->
  rewrapped t v w w' /\
  stale t v w' = match x with Ok _ => delete (t, sk_Subject k) (stale t v w) | Err _ => stale t v w end.
Proof.
  intros Hok Hst Hcur. unfold Shredder.rewrapRow, mbind, M_bind, wrap_err.
  destruct (UnwrapDEK _ t _ _ w) as [w1 [dek|e]] eqn:H1;
    destruct (kl_unwrap _ _ _ _ _ _ (kl_versions _ _ _ Hok (proj1 (proj1 (stale_lookup _ _ _ _ _) Hst))) Hok H1)
      as [Hk1 Hd].
  2:{ intros [= <- <-]. split; [by apply rewrapped_kept|]. apply stale_kept, Hk1. }
  specialize (Hd dek eq_refl). pose proof (proj1 (proj1 Hk1)) as Hok1.
  destruct (WrapDEK _ t dek w1) as [w2 [[b' n']|e]] eqn:H2;
    destruct (kl_wrap _ _ _ _ _ Hok1 H2) as [Hk2 Hw].
  2:{ intros [= <- <-]. split; [eapply rewrapped_trans; by apply rewrapped_kept|].
      apply stale_kept. destruct Hk2 as [_ ->]. apply Hk1. }
  destruct (Hw b' n' eq_refl) as (Hwr & Hge & Hrange). pose proof (proj1 (proj1 Hk2)) as Hok2. simpl.
  destruct (UpsertSubjectKey _ t _ _ _ w2) as [w3 y] eqn:H3.
  destruct (kl_upsert _ _ _ _ _ _ _ Hok2 Hrange H3) as [Hk3 Hr3].
  assert (Hr : rows w2 = rows w) by (destruct Hk2 as [_ ->]; apply Hk1).
  assert (Hk : keys_kept w w3) by (eapply keys_kept_trans; [|exact Hk3]; eapply keys_kept_trans; [apply Hk1|apply Hk2]).
  destruct y as [[]|e]; intros [= <- <-].
  2:{ split; [split; [done|intros k'; left; congruence]|]. apply stale_kept. congruence. }
  apply stale_lookup in Hst as (Hrow & _ & Hlt & Hsh). unfold row_of in *. simpl in *.
  destruct (sk_ShreddedAt k); [done|]. rewrite Hr, Hrow in Hr3. simpl in Hr3.
  assert (Hv : v <= n') by (pose proof (proj2 (proj2 (proj1 Hk1)) t); lia).
  split.
  - split; [done|]. intros k'. rewrite Hr3. destruct (decide ((t, sk_Subject k) = k')) as [<-|Hne].
    + right. rewrite lookup_insert_eq. do 5 eexists. split_and!; try done; [by apply Hk|by apply Hk3].
    + left. by rewrite lookup_insert_ne.
  - apply map_eq. intros k'. unfold Shred.stale. rewrite Hr3.
    destruct (decide ((t, sk_Subject k) = k')) as [<-|Hne].
    + rewrite lookup_delete_eq. apply map_lookup_filter_None. right. intros r.
      rewrite lookup_insert_eq. intros [= <-]. simpl. lia.
    + rewrite lookup_delete_ne by done. by rewrite !map_lookup_filter, lookup_insert_ne.
Qed.

Lemma rewrapRows_spec t v l : forall total w w' n e,
  ok w -> v <= current w t -> NoDup (sk_Subject <$> l) ->
  Forall (fun k => stale t v w !! (t, sk_Subject k) = Some (row_of k)) l ->
  Shredder.rewrapRows s t total l w = (w', (n, e)) ->
  rewrapped t v w w' /\ v <= current w' t /\
  n + Z.of_nat (size (stale t v w')) = total + Z.of_nat (size (stale t v w)) /\
  (e = None -> n = total + Z.of_nat (length l)).
Proof.
  induction l as [|k l IH]; intros total w w' n e Hok Hcur Hnd HF; simpl.
  { intros [= <- <- <-]. split_and!; [by apply rewrapped_kept; split; [apply keys_kept_refl|]|done|done|lia]. }
  apply Forall_cons in HF as [Hk HF]. apply NoDup_cons in Hnd as [Hni Hnd].
  destruct (Shredder.rewrapRow s t k w) as [w1 y] eqn:H1.
  apply (rewrapRow_spec t v) in H1 as [Hrw Hst]; [|done|done|done].
  assert (Hcur1 : v <= current w1 t) by (pose proof (proj2 (proj2 (proj1 Hrw)) t); lia).
  destruct y as [u|er]; [|intros [= <- <- <-]; rewrite Hst; split_and!; try done; lia].
  intros Hrec. apply IH in Hrec as (Hrw' & Hcur' & Hn & He); [|apply Hrw|done|done|].
  - split_and!; [by eapply rewrapped_trans|done| |intros ->; specialize (He eq_refl); lia].
    rewrite Hn, Hst. pose proof (map_size_delete_Some _ _ (mk_is_Some _ _ Hk)) as Hsz.
    assert (Hpos : size (stale t v w) <> 0%nat) by (intros Hz; apply map_size_empty_inv in Hz; by rewrite Hz in Hk).
    lia.
  - rewrite Hst. apply Forall_forall. intros k' Hk'. rewrite Forall_forall in HF.
    rewrite lookup_delete_ne; [by apply HF|]. intros [= Heq]. apply Hni. rewrite Heq. by apply list_elem_of_fmap_2.
Qed.

(** A page of stale rows. *)
Lemma stale_page t v n w w' l :
  ok w -> 0 <= v < 2 ^ 32 -> 0 < n -> ListStaleSubjectKeys (Shredder.Store s) t v n w = (w', Ok l) ->
  rows_kept w w' /\ NoDup (sk_Subject <$> l) /\
  Forall (fun k => stale t v w' !! (t, sk_Subject k) = Some (row_of k)) l /\
  (l = [] -> stale t v w' = ∅).
Proof.
  intros Hok Hv Hn H. destruct (kl_stale _ _ _ _ _ _ Hok Hv Hn H) as [Hk Hl].
  destruct (Hl l eq_refl) as (p & Hp & Heq). rewrite (stale_kept t v w w') by apply Hk.
  assert (Hin : Forall (fun k => stale t v w !! (t, sk_Subject k) = Some (row_of k) /\ sk_TenantID k = t) l).
  { apply Forall_forall. intros k Hkl.
    assert (Hx : ((sk_TenantID k, sk_Subject k), row_of k) ∈ p).
    { rewrite <- (take_drop (Z.to_nat n) p), <- Heq. apply elem_of_app. left.
      by apply (list_elem_of_fmap_2 (fun k => ((sk_TenantID k, sk_Subject k), row_of k))). }
    rewrite Hp in Hx. apply elem_of_map_to_list in Hx. pose proof Hx as (_ & Ht & _)%stale_lookup.
    simpl in Ht. rewrite Ht in Hx. done. }
  split_and!; [done| |by eapply Forall_impl; [exact Hin|intros k [? _]]|].
  - apply (NoDup_fmap_1 (pair t)).
    assert (Hfst : pair t <$> (sk_Subject <$> l) = (take (Z.to_nat n) p).*1).
    { rewrite <- Heq, <- !list_fmap_compose. apply list_fmap_ext. intros i k Hi%list_elem_of_lookup_2.
      rewrite Forall_forall in Hin. destruct (Hin k Hi) as [_ <-]. done. }
    rewrite Hfst. eapply sublist_NoDup; [|apply fmap_sublist, sublist_take]. rewrite Hp.
    apply NoDup_fst_map_to_list.
  - intros ->. simpl in Heq. assert (p = []) as ->.
    { destruct p; [done|]. destruct (Z.to_nat n) eqn:Hz; [lia|]. done. }
    apply Permutation_nil in Hp. by apply map_to_list_empty_iff.
Qed.

Lemma rewrapLoop_spec t v n fuel : forall total w,
  ok w -> 0 <= v < 2 ^ 32 -> 0 < n -> v <= current w t -> (size (stale t v w) < fuel)%nat ->
  exists w' m e, Shredder.rewrapLoop s fuel t v n total w = Some (w', (m, e)) /\
    rewrapped t v w w' /\ m + Z.of_nat (size (stale t v w')) = total + Z.of_nat (size (stale t v w)) /\
    (e = None -> stale t v w' = ∅).
Proof.
  induction fuel as [|fuel IH]; intros total w Hok Hv Hn Hcur Hfuel; [lia|]. cbn [Shredder.rewrapLoop].
  destruct (ListStaleSubjectKeys (Shredder.Store s) t v n w) as [w1 [l|er]] eqn:Hl.
  2:{ destruct (kl_stale _ _ _ _ _ _ Hok Hv Hn Hl) as [Hk _]. do 3 eexists. split; [done|].
      rewrite (stale_kept t v w w1) by apply Hk. split_and!; [by apply rewrapped_kept|done|done]. }
  apply stale_page in Hl as (Hk & Hnd & HF & Hnil); try done.
  pose proof (stale_kept t v w w1 (proj2 Hk)) as Hst1. pose proof (rewrapped_kept t v _ _ Hk) as Hrw1.
  assert (Hcur1 : v <= current w1 t) by (pose proof (proj2 (proj2 (proj1 Hk)) t); lia).
  destruct l as [|k l].
  { do 3 eexists. split; [done|]. rewrite Hst1. split_and!; [done|done|]. intros _. rewrite <- Hst1. by apply Hnil. }
  destruct (Shredder.rewrapRows s t total (k :: l) w1) as [w2 [m e]] eqn:Hr.
  apply (rewrapRows_spec t v) in Hr as (Hrw2 & Hcur2 & Hm & He); [|apply Hk|done|done|done].
  pose proof (rewrapped_trans _ _ _ _ _ Hrw1 Hrw2) as Hrw. rewrite Hst1 in Hm.
  destruct e as [e|]; [do 3 eexists; split; [done|]; done|].
  specialize (He eq_refl). cbn [length] in He.
  destruct (IH m w2) as (w' & m' & e' & Hrun & Hrw' & Hm' & He'); [apply Hrw2|done|done|done|lia|].
  exists w', m', e'. split_and!; [done|by eapply rewrapped_trans|lia|done].
Qed.

Lemma RewrapDEKs_spec t pageSize fuel w :
  ok w -> (S (size (stale t (current w t) w)) <= fuel)%nat ->
  exists w' n e, Shredder.RewrapDEKs s fuel t pageSize w = Some (w', (n, e)) /\
    rewrapped t (current w t) w w' /\
    n + Z.of_nat (size (stale t (current w t) w')) = Z.of_nat (size (stale t (current w t) w)) /\
    (e = None -> stale t (current w t) w' = ∅).
Proof.
  intros Hok Hfuel. unfold Shredder.RewrapDEKs.
  destruct (CurrentKEKVersion (Shredder.KMS s) t w) as [w1 [c|er]] eqn:Hc;
    destruct (kl_current _ _ _ _ Hok Hc) as [Hk Hcur];
    pose proof (rewrapped_kept t (current w t) _ _ Hk) as Hrw1;
    pose proof (stale_kept t (current w t) w w1 (proj2 Hk)) as Hst1.
  - destruct (Hcur c eq_refl) as [-> Hrange].
    destruct (Z.eqb_spec (current w t) 0) as [Hz|Hz].
    + do 3 eexists. split; [done|]. rewrite Hst1.
      assert (Hst : stale t (current w t) w = ∅).
      { apply map_empty. intros k. apply map_lookup_filter_None. right. intros r Hr.
        pose proof (kl_versions w k r Hok Hr). simpl. lia. }
      by rewrite Hst.
    + destruct (rewrapLoop_spec t (current w t) (if pageSize <=? 0 then 100 else pageSize) fuel 0 w1)
        as (w' & n & e & Hrun & Hrw & Hn & He); [apply Hk|done|destruct (Z.leb_spec pageSize 0); lia|apply Hk|rewrite Hst1; lia|].
      exists w', n, e. rewrite Hst1 in Hn. split_and!; [done|by eapply rewrapped_trans|done|done].
  - do 3 eexists. split; [done|]. rewrite Hst1. by split_and!.
Qed.

(** *** Histories

    What may happen between two calls: calls of the Shredder for tenants without
    the separator, of which ForgetSubject only for the subjects in [F]; a KEK
    rotation, or another call of the stores that keeps the subject keys; a
    restart, which empties the cache; calls of the Shredders of other processes
    with caches of their own, ForgetSubject excepted. *)
Inductive shred_step (F : string -> string -> Prop) : SW -> SW -> Prop :=
  | ss_encrypt t u pt w w' x : tenant_plain t -> Shredder.EncryptField s t u pt w = (w', x) -> shred_step F w w'
  | ss_decrypt t u b w w' x : tenant_plain t -> Shredder.DecryptField s t u b w = (w', x) -> shred_step F w w'
  | ss_forget t u w w' x : tenant_plain t -> F t u -> Shredder.ForgetSubject s t u w = (w', x) -> shred_step F w w'
  | ss_rewrap fuel t n w w' c y : (S (size (stale t (current w t) w)) <= fuel)%nat ->
      Shredder.RewrapDEKs s fuel t n w = Some (w', y) -> shred_step F (w, c) (w', c)
  | ss_stores w w' c : rows_kept w w' -> shred_step F (w, c) (w', c)
  | ss_restart w c : shred_step F (w, c) (w, ∅)
  | ss_peer_encrypt t u pt w w' c c1 c2 x : tenant_plain t -> shred_ok (w, c1) ->
      Shredder.EncryptField s t u pt (w, c1) = ((w', c2), x) -> shred_step F (w, c) (w', c)
  | ss_peer_decrypt t u b w w' c c1 c2 x : tenant_plain t -> shred_ok (w, c1) ->
      Shredder.DecryptField s t u b (w, c1) = ((w', c2), x) -> shred_step F (w, c) (w', c).

Definition is_shredded (w : W) (t u : string) : Prop := exists b v, rows w !! (t, u) = Some (mkKeyRow b v true).

(** What a step keeps: the DEKs of the subjects outside of [F], and tombstones. *)
Definition step_keeps (F : string -> string -> Prop) (w w' : W) : Prop :=
  (forall t u dek, ~ F t u -> holds w t u dek -> holds w' t u dek) /\
  (forall t u, is_shredded w t u -> is_shredded w' t u).

Lemma grows_keeps F w w' : grows w w' -> step_keeps F w w'.
Proof.
  intros Hg. split; [intros t u dek _; by apply holds_grows|]. intros t u (b & v & Hr). exists b, v.
  destruct Hg as [_ Hsub]. by eapply lookup_weaken.
Qed.

Lemma rewrapped_keeps F t v w w' : rewrapped t v w w' -> step_keeps F w w'.
Proof.
  intros Hrw. split; [intros t' u dek _; by eapply rewrapped_holds|]. intros t' u (b & n & Hr). exists b, n.
  destruct Hrw as [_ Hrw]. destruct (Hrw (t', u)) as [->|(? & ? & ? & ? & ? & _ & Hr' & _)]; [done|]. congruence.
Qed.

Lemma forget_keeps F t u x w w' : shred_ok w -> tenant_plain t -> F t u ->
  Shredder.ForgetSubject s t u w = (w', x) -> shred_ok w' /\ step_keeps F (fst w) (fst w').
Proof.
  intros Hok Ht HF H. apply ForgetSubject_spec in H as (_ & Hk & Hx); [|done|done].
  destruct x as [[]|e]; destruct Hx as [Hok' Hr]; (split; [done|]).
  - split.
    + intros t' u' dek Hn (b & v & Hrow & Hw). exists b, v. rewrite Hr, lookup_alter_ne by congruence.
      split; [done|]. by apply Hk.
    + intros t' u' (b & v & Hrow). destruct (decide ((t, u) = (t', u'))) as [Heq|Hne].
      * exists [], v. by rewrite Hr, Heq, lookup_alter_eq, Hrow.
      * exists b, v. by rewrite Hr, lookup_alter_ne.
  - apply grows_keeps. split; [done|by rewrite Hr].
Qed.

Lemma shred_step_spec F w w' : shred_step F w w' -> shred_ok w -> shred_ok w' /\ step_keeps F (fst w) (fst w').
Proof.
  destruct 1 as [t u pt w w' x Ht H|t u b w w' x Ht H|t u w w' x Ht HF H|fuel t n w w' c y Hf H|w w' c Hk|w c
    |t u pt w w' c c1 c2 x Ht Hok1 H|t u b w w' c c1 c2 x Ht Hok1 H]; intros Hok.
  - apply EncryptField_spec in H as (? & ? & _); [|done|done]. split; [done|by apply grows_keeps].
  - apply DecryptField_spec in H as (? & ? & _); [|done|done]. split; [done|by apply grows_keeps].
  - by eapply forget_keeps.
  - destruct (RewrapDEKs_spec t n fuel w (proj1 Hok) Hf) as (w1 & m & e & Hrun & Hrw & _).
    rewrite H in Hrun. injection Hrun as <- _. split; [|by eapply rewrapped_keeps].
    split; [apply Hrw|]. intros t' u dek Ht' Hget. eapply rewrapped_holds; [done|]. by apply Hok.
  - apply rows_kept_grows in Hk. split; [|by apply grows_keeps]. split; [apply Hk|].
    eapply cache_ok_grows; [done|apply Hok].
  - split; [split; [apply Hok|]|apply grows_keeps, grows_refl, Hok]. intros t u dek _ Hget.
    unfold DekCache.get in Hget. simpl in Hget. by rewrite lookup_empty in Hget.
  - apply EncryptField_spec in H as (_ & Hg & _); [|done|done]. split; [|by apply grows_keeps].
    split; [apply Hg|]. eapply cache_ok_grows; [done|apply Hok].
  - apply DecryptField_spec in H as (_ & Hg & _); [|done|done]. split; [|by apply grows_keeps].
    split; [apply Hg|]. eapply cache_ok_grows; [done|apply Hok].
Qed.

Lemma shred_steps_spec F w w' : rtc (shred_step F) w w' -> shred_ok w -> shred_ok w' /\ step_keeps F (fst w) (fst w').
Proof.
  induction 1 as [w|w1 w2 w3 Hstep _ IH]; intros Hok; [by split; [|split; auto]|].
  destruct (shred_step_spec _ _ _ Hstep Hok) as [Hok2 [K1 S1]]. destruct (IH Hok2) as [Hok3 [K2 S2]].
  split; [done|]. split; auto.
Qed.
End Facts.

(** A live row is not shredded. *)
Lemma shredded_not_live {W} rows wraps (w : W) t u dek b v :
  rows w !! (t, u) = Some (mkKeyRow b v true) -> ~ holds (rows := rows) (wraps := wraps) w t u dek.
Proof. intros H (b' & v' & H' & _). rewrite H in H'. discriminate. Qed.

(** C22: what EncryptField sealed, DecryptField opens.  After any history of the
    Shredder in which the subject was not forgotten (encryptions and decryptions,
    of other processes too, re-wrapping, rotations, restarts; each call runs
    alone, and no tenant id has the separator of the cache key), decrypting
    yields the plaintext or an error, never other bytes; and it does yield the
    plaintext when the subject store and the key store answer. *)
Theorem shred_roundtrip {A : AEAD} (AL : AEADLaws A) {W} (s : Shredder.t W) ok rows wraps current
    (SL : ShredLaws ok rows wraps current s) t u pt w1 w2 sealed w3 w4 x :
  shred_ok (ok := ok) (rows := rows) (wraps := wraps) w1 -> tenant_plain t ->
  Shredder.EncryptField s t u pt w1 = (w2, Ok sealed) ->
  rtc (shred_step (ok := ok) (rows := rows) (wraps := wraps) (current := current) (s := s)
         (fun t' u' => (t', u') <> (t, u))) w2 w3 ->
  Shredder.DecryptField s t u sealed w3 = (w4, x) ->
  (forall pt', x = Ok pt' -> pt' = pt) /\
  ((forall w r, ok w -> rows w !! (t, u) = Some r ->
      exists w' k, GetSubjectKey (Shredder.Store s) t u w = (w', Ok k)) ->
   (forall w b v dek, ok w -> wraps w t b v dek ->
      exists w' d, UnwrapDEK (Shredder.KMS s) t b v w = (w', Ok d)) ->
   x = Ok pt).
Proof.
  intros Hok1 Ht He Hsteps Hd.
  apply (EncryptField_spec (SL := SL)) in He as (Hok2 & _ & Hs); [|done|done].
  destruct (shred_steps_spec (SL := SL) _ _ _ Hsteps Hok2) as (Hok3 & Hkeep & _).
  destruct (Hs sealed eq_refl) as (dek & Hh & Hopen). apply Hkeep in Hh; [|by intros []]. split.
  - intros pt' ->. apply (DecryptField_spec (SL := SL)) in Hd as (Hok4 & Hg & Hx); [|done|done].
    destruct (Hx pt' eq_refl) as (dek' & Hh' & Hopen').
    rewrite (holds_functional (SL := SL) (fst w4) t u dek dek') in Hopen; [congruence|apply Hok4| |done].
    by eapply holds_grows.
  - intros Hget Hunw. by apply (DecryptField_returns (SL := SL) t u sealed pt dek w3 w4).
Qed.

(** C23: a forgotten subject stays forgotten, in the process that forgot it.
    ForgetSubject makes a tombstone of the subject's key, if it has one, and
    touches no other key.  With a tombstone, after any history of the Shredder
    (further calls, which may forget more subjects, restarts, encryptions of
    other processes; each call runs alone, and no tenant id has the separator of
    the cache key), the row is still a tombstone, the subject's fields can be
    neither decrypted nor encrypted, and decryption reports exactly ErrShredded
    when the store answers.  A subject without a key has no tombstone
    afterwards: nothing changed. *)
Theorem shred_forgets {A : AEAD} (AL : AEADLaws A) {W} (s : Shredder.t W) ok rows wraps current
    (SL : ShredLaws ok rows wraps current s) t u w w1 :
  shred_ok (ok := ok) (rows := rows) (wraps := wraps) w -> tenant_plain t ->
  Shredder.ForgetSubject s t u w = (w1, Ok tt) ->
  match rows (fst w) !! (t, u) with
  | None => rows (fst w1) = rows (fst w)
  | Some r =>
      rows (fst w1) = <[(t, u) := mkKeyRow [] (kr_version r) true]> (rows (fst w)) /\
      forall w2, rtc (shred_step (ok := ok) (rows := rows) (wraps := wraps) (current := current) (s := s)
                        (fun _ _ => True)) w1 w2 ->
        is_shredded (rows := rows) (fst w2) t u /\
        (forall sealed w3 x, Shredder.DecryptField s t u sealed w2 = (w3, x) ->
           is_shredded (rows := rows) (fst w3) t u /\ (exists e, x = Err e) /\
           ((exists w' k, GetSubjectKey (Shredder.Store s) t u (fst w2) = (w', Ok k)) ->
            x = Err (ESent ErrShredded))) /\
        (forall pt w3 x, Shredder.EncryptField s t u pt w2 = (w3, x) ->
           is_shredded (rows := rows) (fst w3) t u /\ exists e, x = Err e)
  end.
Proof.
  intros Hok Ht Hf. apply (ForgetSubject_spec (SL := SL)) in Hf as (_ & _ & Hok1 & Hrows); [|done|done].
  destruct (rows (fst w) !! (t, u)) as [r|] eqn:Hr.
  2:{ rewrite Hrows. apply map_eq. intros k. destruct (decide ((t, u) = k)) as [<-|Hne].
      - by rewrite lookup_alter_eq, Hr.
      - by rewrite lookup_alter_ne. }
  assert (Heq : rows (fst w1) = <[(t, u) := mkKeyRow [] (kr_version r) true]> (rows (fst w))).
  { rewrite Hrows. apply map_eq. intros k. destruct (decide ((t, u) = k)) as [<-|Hne].
    - by rewrite lookup_alter_eq, lookup_insert_eq, Hr.
    - by rewrite lookup_alter_ne, lookup_insert_ne by done. }
  split; [done|]. intros w2 Hsteps. destruct (shred_steps_spec (SL := SL) _ _ _ Hsteps Hok1) as (Hok2 & _ & Hsh).
  destruct (Hsh t u) as (b & v & Hrow); [exists [], (kr_version r); by rewrite Heq, lookup_insert_eq|].
  split; [by exists b, v|]. split.
  - intros sealed w3 x Hd. pose proof Hd as Hd'.
    apply (DecryptField_spec (SL := SL)) in Hd as (Hok3 & [_ Hsub] & Hx); [|done|done].
    assert (Hrow3 : rows (fst w3) !! (t, u) = Some (mkKeyRow b v true)) by by eapply lookup_weaken.
    split_and!; [by exists b, v| |].
    + destruct x as [pt|e]; [|by eexists]. destruct (Hx pt eq_refl) as (dek & Hh & _).
      by destruct (shredded_not_live rows wraps _ _ _ dek _ _ Hrow3).
    + intros (w' & k & Hk). apply (DecryptField_shredded (SL := SL) t u sealed b v w2 w3) in Hd'; [|done|done|done].
      by rewrite Hk in Hd'.
  - intros pt w3 x Hd.
    apply (EncryptField_spec (SL := SL)) in Hd as (Hok3 & [_ Hsub] & Hx); [|done|done].
    assert (Hrow3 : rows (fst w3) !! (t, u) = Some (mkKeyRow b v true)) by by eapply lookup_weaken.
    split; [by exists b, v|]. destruct x as [y|e]; [|by eexists]. destruct (Hx y eq_refl) as (dek & Hh & _).
    by destruct (shredded_not_live rows wraps _ _ _ dek _ _ Hrow3).
Qed.

(** C27: RewrapDEKs finishes and loses no key.  It ends after at most one page
    per stale row; every subject keeps the DEK it had, shredded rows are as they
    were, the count is the number of rows re-wrapped, and without an error no
    live row of the tenant is left under an older KEK version. *)
Theorem rewrap_completes {W} (s : Shredder.t W) ok rows wraps current
    (SL : ShredLaws ok rows wraps current s) t pageSize fuel w :
  ok w -> (S (size (stale rows t (current w t) w)) <= fuel)%nat ->
  exists w' n e, Shredder.RewrapDEKs s fuel t pageSize w = Some (w', (n, e)) /\
    (forall t' u dek, holds (rows := rows) (wraps := wraps) w t' u dek ->
       holds (rows := rows) (wraps := wraps) w' t' u dek) /\
    (forall k r, rows w !! k = Some r -> kr_shredded r = true -> rows w' !! k = Some r) /\
    n + Z.of_nat (size (stale rows t (current w t) w')) = Z.of_nat (size (stale rows t (current w t) w)) /\
    (e = None -> stale rows t (current w t) w' = ∅).
Proof.
  intros Hok Hfuel. destruct (RewrapDEKs_spec (SL := SL) t pageSize fuel w Hok Hfuel) as (w' & n & e & Hrun & Hrw & Hn & He).
  exists w', n, e. split_and!; [done| | |done|done].
  - intros t' u dek. by apply (rewrapped_holds (SL := SL) t (current w t)).
  - intros k r Hr Hsh. destruct Hrw as [_ Hrw].
    destruct (Hrw k) as [->|(b & b' & m & m' & dek & _ & Hr' & _)]; [done|]. by rewrite Hr in Hr'; simplify_eq.
Qed.
