(* ===== verification/Base64.v ===== *)
(** * Base64 (encoding/base64's RawStdEncoding)

    The encoding of encrypted string fields: the standard alphabet, no padding.
    DecodeString skips line breaks and does not look at the unused bits of the
    last character, as the package documents. *)
From S2P Require Import Prelude.

Module Base64.

Definition alphabet : bytes :=
  bytes_of_str "ABCDEFGHIJKLMNOPQRSTUVWXYZabcdefghijklmnopqrstuvwxyz0123456789+/".

Definition z_of (b : Byte.byte) : Z := Z.of_N (Byte.to_N b).
Definition of_z (z : Z) : Byte.byte := default Byte.x00 (Byte.of_N (Z.to_N (z mod 256))).

(** The character of a sextet, and back. *)
Definition char (i : Z) : Byte.byte := default Byte.x00 (alphabet !! Z.to_nat i).
Definition sextet (c : Byte.byte) : option Z :=
  match list_find (fun x => x = c) alphabet with Some (i, _) => Some (Z.of_nat i) | None => None end.

Fixpoint encode (l : bytes) : bytes :=
  match l with
  | a :: b :: c :: l' =>
      char (z_of a / 4) :: char (z_of a mod 4 * 16 + z_of b / 16) ::
      char (z_of b mod 16 * 4 + z_of c / 64) :: char (z_of c mod 64) :: encode l'
  | [a; b] =>
      [char (z_of a / 4); char (z_of a mod 4 * 16 + z_of b / 16); char (z_of b mod 16 * 4)]
  | [a] => [char (z_of a / 4); char (z_of a mod 4 * 16)]
  | [] => []
  end.

Fixpoint quanta (l : list Z) : option bytes :=
  match l with
  | a :: b :: c :: d :: l' =>
      r ← quanta l';
      Some (of_z (a * 4 + b / 16) :: of_z (b mod 16 * 16 + c / 4) :: of_z (c mod 4 * 64 + d) :: r)
  | [a; b; c] => Some [of_z (a * 4 + b / 16); of_z (b mod 16 * 16 + c / 4)]
  | [a; b] => Some [of_z (a * 4 + b / 16)]
  | [_] => None
  | [] => Some []
  end.

Definition line_break (c : Byte.byte) : bool := bool_decide (c = Byte.x0a) || bool_decide (c = Byte.x0d).

Definition decode (l : bytes) : option bytes :=
  l' ← mapM sextet (List.filter (fun c => negb (line_break c)) l); quanta l'.

(** ** The round trip *)
Lemma z_of_range b : 0 <= z_of b < 256.
Proof. unfold z_of. pose proof (Byte.to_N_bounded b). lia. Qed.

Lemma of_z_of b : of_z (z_of b) = b.
Proof.
  unfold of_z. rewrite Z.mod_small by apply z_of_range. unfold z_of. by rewrite N2Z.id, Byte.of_to_N.
Qed.

Definition char_ok (i : Z) : bool :=
  bool_decide (sextet (char i) = Some i) && negb (line_break (char i)).

Lemma char_sextet i : 0 <= i < 64 -> sextet (char i) = Some i /\ line_break (char i) = false.
Proof.
  intros Hi. assert (H : forallb (fun n => char_ok (Z.of_nat n)) (seq 0 64) = true) by (vm_compute; reflexivity).
  rewrite forallb_forall in H. specialize (H (Z.to_nat i)). rewrite Z2Nat.id in H by lia.
  assert (Hin : In (Z.to_nat i) (seq 0 64)) by (apply in_seq; lia).
  specialize (H Hin). unfold char_ok in H. apply andb_true_iff in H as [H1 H2].
  split; [by apply bool_decide_eq_true in H1|]. by apply negb_true_iff in H2.
Qed.

(** The sextets of an encoding. *)
Fixpoint sextets (l : bytes) : list Z :=
  match l with
  | a :: b :: c :: l' =>
      z_of a / 4 :: z_of a mod 4 * 16 + z_of b / 16 :: z_of b mod 16 * 4 + z_of c / 64 :: z_of c mod 64 :: sextets l'
  | [a; b] => [z_of a / 4; z_of a mod 4 * 16 + z_of b / 16; z_of b mod 16 * 4]
  | [a] => [z_of a / 4; z_of a mod 4 * 16]
  | [] => []
  end.

Lemma encode_sextets_quanta n : forall l, (length l <= n)%nat ->
  encode l = char <$> sextets l /\ Forall (fun i => 0 <= i < 64) (sextets l) /\ quanta (sextets l) = Some l.
Proof.
  induction n as [|n IH]; intros l Hl.
  { destruct l; [|simpl in Hl; lia]. split; [done|]. split; [apply Forall_nil_2|done]. }
  assert (Hr : forall b, 0 <= z_of b < 256) by apply z_of_range.
  assert (Hq : forall z b, z = z_of b -> of_z z = b) by (intros z b ->; apply of_z_of).
  destruct l as [|a [|b [|c l]]].
  - split; [done|]. split; [apply Forall_nil_2|done].
  - pose proof (Hr a). cbn [encode sextets quanta]. split; [done|]. split.
    + repeat (apply Forall_cons; split; [Z.to_euclidean_division_equations; lia|]). apply Forall_nil_2.
    + do 2 f_equal. apply Hq. Z.to_euclidean_division_equations. lia.
  - pose proof (Hr a). pose proof (Hr b). cbn [encode sextets quanta]. split; [done|]. split.
    + repeat (apply Forall_cons; split; [Z.to_euclidean_division_equations; lia|]). apply Forall_nil_2.
    + do 2 f_equal; [|f_equal]; apply Hq; Z.to_euclidean_division_equations; lia.
  - pose proof (Hr a). pose proof (Hr b). pose proof (Hr c).
    destruct (IH l) as (E1 & E2 & E3); [simpl in Hl; lia|]. cbn [encode sextets quanta]. rewrite E1, E3.
    split; [done|]. split.
    + repeat (apply Forall_cons; split; [Z.to_euclidean_division_equations; lia|]). done.
    + simpl. do 2 f_equal; [|f_equal; [|f_equal]]; apply Hq; Z.to_euclidean_division_equations; lia.
Qed.

Lemma decode_encode l : decode (encode l) = Some l.
Proof.
  destruct (encode_sextets_quanta (length l) l) as (E1 & E2 & E3); [done|]. rewrite E1. unfold decode.
  assert (Hf : List.filter (fun c => negb (line_break c)) (char <$> sextets l) = char <$> sextets l).
  { clear -E2. induction E2 as [|i k Hi Hk IH]; [done|]. destruct (char_sextet i Hi) as [H1 H2].
    csimpl. simpl. rewrite H2. simpl. by rewrite IH. }
  rewrite Hf, mapM_fmap_Forall_Some; [done|].
  eapply Forall_impl; [exact E2|]. intros i Hi. apply (char_sextet i Hi).
Qed.

Lemma encode_nonempty l : l <> [] -> encode l <> [].
Proof. by destruct l as [|a [|b [|c l]]]. Qed.
End Base64.
