(* ===== verification/CodegenPii.v ===== *)
(** * The code generator: crypto-shredding methods (cmd/protoc-gen-es-go/main.go)

    classifyFields decides from the options of a field how it is encrypted, and
    emitPIIMethods prints PIIFields, Subject, EncryptPII and DecryptPII of an
    event.  The printed code is syntax here ([PStep], [Body]); [EncryptPII] and
    [DecryptPII] run it on an event and a Shredder.  An event is its string and
    bytes fields by Go name: the other fields occur in none of these methods. *)
From S2P Require Import Prelude Errors Streams Shred Aggregate Base64 Codegen.
Import Access Codegen.

Module CodegenPii.

Inductive piiKind := piiKindNone | piiKindBytes | piiKindString | piiKindRejected.

#[export] Instance piiKind_eq_dec : EqDecision piiKind.
Proof. solve_decision. Defined.
#[export] Instance DataClassification_eq_dec : EqDecision DataClassification.
Proof. solve_decision. Defined.

Record piiField := mkPiiField {
  goName : string;
  protoName : string;
  isSubject : bool;
  subjectField : string;
  classification : DataClassification;
  kind : piiKind
}.

Definition isEncryptedClassification (c : DataClassification) : bool :=
  match c with
  | PERSONAL | QUASI_IDENTIFIER | SENSITIVE | FINANCIAL | CARDHOLDER | CREDENTIAL | UNSTRUCTURED => true
  | _ => false
  end.

(** The kind of a field; the kind of a map field is MessageKind. *)
Definition fieldKind (f : Field) : piiKind :=
  if E_SubjectField f then piiKindNone
  else if bool_decide (E_DataClassification f = SAD) then piiKindRejected
  else if isEncryptedClassification (E_DataClassification f) then
    match ty_kind (f_type f) with
    | BytesKind => piiKindBytes
    | StringKind => piiKindString
    | _ => piiKindNone
    end
  else piiKindNone.

Definition classifyField (f : Field) : piiField :=
  mkPiiField (GoName f) (TextName f) (E_SubjectField f) (E_Subject f) (E_DataClassification f) (fieldKind f).

Definition is_pii (pf : piiField) : bool := negb (bool_decide (kind pf = piiKindNone)).

Definition classifyFields (v : Message) : list piiField * bool :=
  let fields := classifyField <$> Fields v in (fields, existsb is_pii fields).

(** upperGoFieldName: the loop over the bytes with its flag. *)
Fixpoint upper_from (upper : bool) (s : string) : string :=
  match s with
  | "" => ""
  | String c s' =>
      if bool_decide (c = "_"%char) then upper_from true s'
      else String (if upper && byte_in 97 122 c then ascii_of_nat (nat_of_ascii c - 32) else c)
             (upper_from false s')
  end.
Definition upperGoFieldName (protoName : string) : string := upper_from true protoName.

(** ** The printed methods *)

(** [subject], or [e.Get<name>()]. *)
Inductive SubjExpr := SubjArg | SubjGetter (name : string).

(** One [if] block of EncryptPII, and of DecryptPII; [b64] when the field is a
    string. *)
Record PStep := mkPStep { st_go : string; st_proto : string; st_b64 : bool; st_subj : SubjExpr }.

(** The body of EncryptPII or DecryptPII. *)
Inductive Body := Reject (names : list string) | Steps (l : list PStep).

Record PIIMethods := mkPIIMethods {
  pm_name : string;
  PIIFields : list string;
  pm_Subject : option string;
  pm_Encrypt : Body;
  pm_Decrypt : Body
}.

Definition subjExpr (pf : piiField) : SubjExpr :=
  if bool_decide (subjectField pf = "") then SubjArg else SubjGetter (upperGoFieldName (subjectField pf)).

Definition emitStep (pf : piiField) : list PStep :=
  match kind pf with
  | piiKindBytes => [mkPStep (goName pf) (protoName pf) false (subjExpr pf)]
  | piiKindString => [mkPStep (goName pf) (protoName pf) true (subjExpr pf)]
  | piiKindNone | piiKindRejected => []
  end.

Definition emitPIIMethods (v : Message) : option PIIMethods :=
  let '(fields, hasPII) := classifyFields v in
  if negb hasPII then None
  else
    let piiFields := List.filter is_pii fields in
    let sad := List.filter (fun pf => bool_decide (kind pf = piiKindRejected)) piiFields in
    let hasSAD := negb (bool_decide (length sad = 0%nat)) in
    let body := if hasSAD then Reject (protoName <$> sad) else Steps (concat (emitStep <$> piiFields)) in
    Some (mkPIIMethods (m_GoName v) (protoName <$> piiFields)
            (goName <$> List.find isSubject fields) body body).

(** What Go's type checker asks of the printed methods: a field that is compared
    with "" and assigned a string is a plain string, one that is assigned a
    byte slice a plain or optional bytes field, and a getter that is used as a
    subject returns a string. *)
Definition plain (f : Field) : bool :=
  negb (f_repeated f) && match f_map f with None => negb (in_oneof f) | Some _ => false end.

Definition string_getter (v : Message) (go : string) : bool :=
  existsb (fun f => bool_decide (GoName f = go) && negb (f_repeated f) &&
                    bool_decide (ty_kind (f_type f) = StringKind)) (Fields v).

Definition step_compiles (v : Message) (f : Field) : bool :=
  match fieldKind f with
  | piiKindNone | piiKindRejected => true
  | piiKindBytes => plain f
  | piiKindString => plain f && negb (HasOptionalKeyword f)
  end &&
  match fieldKind f, subjExpr (classifyField f) with
  | (piiKindBytes | piiKindString), SubjGetter go => string_getter v go
  | _, _ => true
  end.

Definition pii_compiles (v : Message) : bool :=
  forallb (step_compiles v) (Fields v) &&
  match List.find E_SubjectField (Fields v) with
  | Some f => negb (existsb is_pii (fst (classifyFields v))) || string_getter v (GoName f)
  | None => true
  end.

(** ** What they do *)
Notation Event := (gmap string bytes).

Definition get (e : Event) (go : string) : bytes := default [] (e !! go).

Definition subject_of (e : Event) (subject : string) (x : SubjExpr) : string :=
  match x with SubjArg => subject | SubjGetter go => str_of_bytes (get e go) end.

Definition Subject_of (pm : PIIMethods) (e : Event) : string :=
  match pm_Subject pm with Some go => str_of_bytes (get e go) | None => "" end.

(** What a step stores for a sealed value, and reads back. *)
Definition wire (b64 : bool) (sealed : bytes) : bytes := if b64 then Base64.encode sealed else sealed.
Definition unwire (b64 : bool) (stored : bytes) : option bytes :=
  if b64 then Base64.decode stored else Some stored.

Definition sad_error (name : string) : err := ENew ("SAD MUST NOT be persisted: " +:+ name).

Section Run.
Context {A : AEAD} {W : Type} (s : Shredder.t W).
Notation SW := (W * DekCache.t)%type.

(** The methods update the event in place: it is part of the state, and stays
    as far as it was updated when they return an error. *)
Definition encryptStep (name tenantID subject : string) (st : PStep) : M (SW * Event) unit := fun '(w, e) =>
  if bool_decide (get e (st_go st) = []) then ((w, e), Ok tt)
  else
    match Shredder.EncryptField s tenantID (subject_of e subject (st_subj st)) (get e (st_go st)) w with
    | (w1, Ok sealed) => ((w1, <[st_go st := wire (st_b64 st) sealed]> e), Ok tt)
    | (w1, Err x) => ((w1, e), Err (EWrap (name +:+ ".EncryptPII " +:+ st_proto st) x))
    end.

Fixpoint encryptSteps (name tenantID subject : string) (l : list PStep) : M (SW * Event) unit :=
  match l with
  | [] => mret tt
  | st :: l' => encryptStep name tenantID subject st ≫= fun _ => encryptSteps name tenantID subject l'
  end.

Definition EncryptPII (pm : PIIMethods) (tenantID subject : string) : M (SW * Event) unit :=
  match pm_Encrypt pm with
  | Reject _ => fail (sad_error (pm_name pm))
  | Steps l => encryptSteps (pm_name pm) tenantID subject l
  end.

(** DecryptPII returns the fields redacted so far also with an error. *)
Fixpoint decryptSteps (name tenantID subject : string) (l : list PStep) (redacted : list RedactedField)
    (we : SW * Event) : (SW * Event) * (list RedactedField * option err) :=
  match l with
  | [] => (we, (redacted, None))
  | st :: l' =>
      let '(w, e) := we in
      if bool_decide (get e (st_go st) = []) then decryptSteps name tenantID subject l' redacted we
      else
        match unwire (st_b64 st) (get e (st_go st)) with
        | None =>
            (we, (redacted, Some (ENew (name +:+ ".DecryptPII " +:+ st_proto st +:+ " base64: illegal base64 data"))))
        | Some sealed =>
            let u := subject_of e subject (st_subj st) in
            match Shredder.DecryptField s tenantID u sealed w with
            | (w1, Ok pt) => decryptSteps name tenantID subject l' redacted (w1, <[st_go st := pt]> e)
            | (w1, Err x) =>
                if errors_Is x ErrShredded then
                  (** [e.X = nil] comes first: an override that names the field
                      itself reads the empty value. *)
                  let e1 := <[st_go st := []]> e in
                  decryptSteps name tenantID subject l'
                    (redacted ++ [mkRedactedField (st_proto st) (subject_of e1 subject (st_subj st)) "shredded"])
                    (w1, e1)
                else
                  ((w1, e), (redacted, Some (EWrap (name +:+ ".DecryptPII " +:+ st_proto st) x)))
            end
        end
  end.

Definition DecryptPII (pm : PIIMethods) (tenantID subject : string) (we : SW * Event)
    : (SW * Event) * (list RedactedField * option err) :=
  match pm_Decrypt pm with
  | Reject _ => (we, ([], Some (sad_error (pm_name pm))))
  | Steps l => decryptSteps (pm_name pm) tenantID subject l [] we
  end.

(** The interface through which aggregate.Runtime calls them. *)
Definition pii_encoder (pm : PIIMethods) (e : Event) : PIIEncoder SW Event :=
  mkPIIEncoder SW Event (Subject_of pm e)
    (fun t u w => let '((w1, e1), x) := EncryptPII pm t u (w, e) in
       (w1, match x with Ok _ => Ok e1 | Err y => Err y end))
    (fun t u w => let '((w1, e1), (red, x)) := DecryptPII pm t u (w, e) in
       (w1, match x with None => Ok (e1, rf_Name <$> red) | Some y => Err y end)).
End Run.
End CodegenPii.
