(* ===== verification/CodegenPiiFacts.v ===== *)
(** * What the generated crypto-shredding methods do

    EncryptPII seals every text field whose classification is one of the schema
    and withholds it from internal readers, under the key of its subject, and
    changes nothing else; DecryptPII gives the event back, without the fields of
    the subjects that were shredded, which it lists, as long as no field is
    keyed by a field that is itself sealed.  A message with a SAD field is refused before anything
    happens.  The lemmas at the end are about descriptors for which the printed
    code does not compile or does not protect a value. *)
From S2P Require Import Prelude Errors Streams Shred Aggregate Base64 Codegen CodegenPii.
Import Access Codegen CodegenPii.

(** ** What is to be protected, from the options of a field *)

(** View withholds the field from a reader of level Internal. *)
Definition withheld (c : DataClassification) : bool := negb (allowed AccessLevelInternal (levelConstName c)).

(** The schema has a name for the classification. *)
Definition recognised (c : DataClassification) : bool := match c with Unrecognised _ => false | _ => true end.

(** What the methods seal.  It is less than what View withholds: a number that
    the schema does not name is withheld, but nothing is sealed for it (see
    [unknown_classification_not_encrypted]). *)
Definition sealed_class (c : DataClassification) : bool := recognised c && withheld c.

Definition is_text (f : Field) : bool :=
  bool_decide (ty_kind (f_type f) = StringKind) || bool_decide (ty_kind (f_type f) = BytesKind).

Definition rejected (f : Field) : bool := negb (E_SubjectField f) && bool_decide (E_DataClassification f = SAD).

Definition secret (f : Field) : bool :=
  negb (E_SubjectField f) && negb (bool_decide (E_DataClassification f = SAD)) &&
  sealed_class (E_DataClassification f) && is_text f.

(** The subject whose key seals a field of event [e]. *)
Definition subject_for (subject : string) (e : Event) (f : Field) : string :=
  if bool_decide (E_Subject f = "") then subject
  else str_of_bytes (get e (upperGoFieldName (E_Subject f))).

(** No field is keyed by another field that is itself encrypted. *)
Definition overrides_plain (v : Message) : bool :=
  forallb (fun f => forallb (fun g => negb (secret f && secret g && negb (bool_decide (E_Subject f = "")) &&
    bool_decide (GoName g = upperGoFieldName (E_Subject f)))) (Fields v)) (Fields v).

Lemma sealed_encrypted c : c <> SAD -> isEncryptedClassification c = sealed_class c.
Proof. destruct c; intros H; try reflexivity. by destruct H. Qed.

Lemma fieldKind_secret f :
  fieldKind f = if rejected f then piiKindRejected
                else if secret f then
                  (if bool_decide (ty_kind (f_type f) = StringKind) then piiKindString else piiKindBytes)
                else piiKindNone.
Proof.
  unfold fieldKind, rejected, secret, is_text. destruct (E_SubjectField f); [done|]. cbn [negb andb].
  case_bool_decide as Hsad; [done|]. cbn [negb andb]. rewrite sealed_encrypted by done.
  destruct (sealed_class _); [|done]. by destruct (ty_kind (f_type f)).
Qed.

(** ** The steps of a message *)
Definition step_of (f : Field) : PStep :=
  mkPStep (GoName f) (TextName f) (bool_decide (ty_kind (f_type f) = StringKind)) (subjExpr (classifyField f)).

Definition steps (v : Message) : list PStep := step_of <$> List.filter secret (Fields v).

Lemma subject_of_step subject e f : subject_of e subject (st_subj (step_of f)) = subject_for subject e f.
Proof. unfold step_of, subjExpr, subject_for. cbn [st_subj subjectField classifyField]. by case_bool_decide. Qed.

(** The message has no field of the given sort. *)
Notation none p v := (existsb p (Fields v) = false).

Lemma is_pii_spec f : is_pii (classifyField f) = rejected f || secret f.
Proof.
  unfold is_pii. cbn [kind classifyField]. rewrite fieldKind_secret.
  destruct (rejected f), (secret f); try done. by destruct (bool_decide (_ = StringKind)).
Qed.

Lemma kind_rejected f : bool_decide (kind (classifyField f) = piiKindRejected) = rejected f.
Proof.
  cbn [kind classifyField]. rewrite fieldKind_secret. destruct (rejected f), (secret f); try done.
  by destruct (bool_decide (_ = StringKind)).
Qed.

Lemma emitStep_spec f : rejected f = false -> secret f = true -> emitStep (classifyField f) = [step_of f].
Proof.
  intros Hr Hs. unfold emitStep, step_of. cbn [kind classifyField]. rewrite fieldKind_secret, Hr, Hs. by case_bool_decide.
Qed.

Lemma sad_fields l :
  protoName <$> List.filter (fun pf => bool_decide (kind pf = piiKindRejected))
    (List.filter is_pii (classifyField <$> l)) = TextName <$> List.filter rejected l.
Proof.
  induction l as [|f l IH]; [done|]. rewrite fmap_cons. cbn [List.filter]. rewrite is_pii_spec.
  destruct (rejected f) eqn:Hr; cbn [orb].
  - cbn [List.filter]. rewrite kind_rejected, Hr. rewrite !fmap_cons. by rewrite IH.
  - destruct (secret f); [|done]. cbn [List.filter]. by rewrite kind_rejected, Hr.
Qed.

Lemma emitted_steps l :
  existsb rejected l = false ->
  concat (emitStep <$> List.filter is_pii (classifyField <$> l)) = step_of <$> List.filter secret l.
Proof.
  induction l as [|f l IH]; [done|]. cbn [existsb]. rewrite orb_false_iff. intros [Hr Hl].
  rewrite fmap_cons. cbn [List.filter]. rewrite is_pii_spec, Hr. cbn [orb].
  destruct (secret f) eqn:Hs; [|by apply IH]. rewrite !fmap_cons. cbn [concat].
  by rewrite emitStep_spec, IH.
Qed.

Lemma has_pii l : existsb is_pii (classifyField <$> l) = existsb rejected l || existsb secret l.
Proof.
  induction l as [|f l IH]; [done|]. rewrite fmap_cons. cbn [existsb]. rewrite IH, is_pii_spec.
  by destruct (rejected f), (secret f), (existsb rejected l).
Qed.

Lemma filter_empty_none {A} (p : A -> bool) l : length (List.filter p l) = 0%nat <-> existsb p l = false.
Proof. induction l as [|x l IH]; [done|]. simpl. by destruct (p x). Qed.

Lemma emit_spec v :
  match emitPIIMethods v with
  | None => none rejected v /\ none secret v
  | Some pm => pm_Encrypt pm = pm_Decrypt pm /\
      (none rejected v -> pm_Encrypt pm = Steps (steps v)) /\
      (existsb rejected (Fields v) = true -> pm_Encrypt pm = Reject (TextName <$> List.filter rejected (Fields v)))
  end.
Proof.
  unfold emitPIIMethods, classifyFields. rewrite has_pii.
  pose proof (f_equal length (sad_fields (Fields v))) as Hl. rewrite !length_fmap in Hl.
  pose proof (filter_empty_none rejected (Fields v)) as Hn.
  destruct (existsb rejected _) eqn:Hr.
  - cbn [orb negb pm_Encrypt pm_Decrypt]. split; [done|]. split; [done|]. intros _.
    rewrite bool_decide_eq_false_2 by (rewrite Hl, Hn; done). cbn [negb]. by rewrite sad_fields.
  - destruct (existsb secret _) eqn:Hs; [|done]. cbn [orb negb pm_Encrypt pm_Decrypt]. split; [done|]. split; [|done].
    rewrite bool_decide_eq_true_2 by (rewrite Hl, Hn; done). cbn [negb]. intros _. by rewrite emitted_steps.
Qed.

(** ** Running the steps *)
Section Run.
Context {A : AEAD} {AL : AEADLaws A} {W : Type} {ok : W -> Prop}
  {rows : W -> gmap (string * string) KeyRow} {wraps : W -> string -> bytes -> Z -> bytes -> Prop}
  {current : W -> string -> Z} {s : Shredder.t W} {SL : ShredLaws ok rows wraps current s}.
Context (name t subject : string) (Ht : tenant_plain t).
Notation SW := (W * DekCache.t)%type.
Notation shred_ok := (shred_ok (ok := ok) (rows := rows) (wraps := wraps)).
Notation holds := (holds (rows := rows) (wraps := wraps)).
Notation grows := (grows (ok := ok) (rows := rows) (wraps := wraps) (current := current)).

Notation gos l := (st_go <$> l).
Notation subj e st := (subject_of e subject (st_subj st)).

(** No step writes a field twice, or the subject of another step. *)
Definition stable (l : list PStep) : Prop :=
  NoDup (gos l) /\ forall st g, In st l -> st_subj st = SubjGetter g -> ~ In g (gos l).

Lemma gos_cons g st l : g <> st_go st -> ~ In g (gos l) -> ~ In g (gos (st :: l)).
Proof. intros H1 H2 [E|E]; [by apply H1|by apply H2]. Qed.

Lemma stable_cons st l : stable (st :: l) ->
  ~ In (st_go st) (gos l) /\ stable l /\
  (forall e b, subj (<[st_go st := b]> e) st = subj e st) /\
  (forall st' e b, In st' l -> subj (<[st_go st := b]> e) st' = subj e st').
Proof.
  intros [Hnd Hg]. rewrite fmap_cons in Hnd. apply NoDup_cons in Hnd as [Hni Hnd]. rewrite list_elem_of_In in Hni.
  assert (Hs : forall st' e b, In st' (st :: l) -> subj (<[st_go st := b]> e) st' = subj e st').
  { intros st' e b Hin. unfold subject_of. destruct (st_subj st') as [|g] eqn:E; [done|]. unfold get.
    rewrite lookup_insert_ne; [done|]. intros <-. destruct (Hg st' _ Hin E). by left. }
  split_and!; [done|split; [done|]| |].
  - intros st' g Hin E Hin'. eapply (Hg st' g); [by right|done|by right].
  - intros e b. apply Hs. by left.
  - intros st' e b Hin. apply Hs. by right.
Qed.

Lemma get_insert_ne (e : Event) g g' b : g' <> g -> get (<[g := b]> e) g' = get e g'.
Proof. intros H. unfold get. by rewrite lookup_insert_ne by done. Qed.

(** In [e2] the step's field holds what seals its value in [e]. *)
Definition sealed (w : W) (e e2 : Event) (st : PStep) : Prop :=
  get e (st_go st) <> [] -> exists dek c, holds w t (subj e st) dek /\
    Shredder.aesGCMOpenField dek c = Ok (get e (st_go st)) /\ e2 !! st_go st = Some (wire (st_b64 st) c).

Lemma encryptSteps_spec l : forall e e2 w w2,
  stable l -> shred_ok w -> encryptSteps s name t subject l (w, e) = ((w2, e2), Ok tt) ->
  shred_ok w2 /\ grows (fst w) (fst w2) /\ (forall st, In st l -> sealed (fst w2) e e2 st) /\
  (forall g, ~ In g (gos l) \/ get e g = [] -> e2 !! g = e !! g).
Proof.
  induction l as [|st l IH]; intros e e2 w w2 Hst Hok.
  { intros [= <- <-]. split_and!; [done|apply grows_refl, Hok|done|done]. }
  apply stable_cons in Hst as (Hni & Hst & _ & Hsub).
  cbn [encryptSteps]. unfold mbind, M_bind. unfold encryptStep at 1. case_bool_decide as He.
  { intros H. destruct (IH _ _ _ _ Hst Hok H) as (H1 & H2 & H3 & H4). split_and!; [done|done| |].
    - intros st' [<-|Hin]; [by intros Hne; destruct Hne|by apply H3].
    - intros g [Hg|Hg]; apply H4; [left|by right]. intros Hin. apply Hg. by right. }
  destruct (Shredder.EncryptField _ _ _ _ w) as [w1 [c|x]] eqn:HE; [|done]. intros H.
  apply (EncryptField_spec (SL := SL)) in HE as (Hok1 & Hg1 & Hc); [|done|done].
  destruct (IH _ _ _ _ Hst Hok1 H) as (H1 & H2 & H3 & H4). split_and!; [done|by eapply grows_trans| |].
  - intros st' [<-|Hin] Hne.
    + destruct (Hc c eq_refl) as (dek & Hh & Ho). exists dek, c. split_and!; [by eapply holds_grows|done|].
      rewrite H4 by by left. by rewrite lookup_insert_eq.
    + assert (Hgo : st_go st' <> st_go st) by (intros E; apply Hni; rewrite <- E; apply in_map_iff; by exists st').
      destruct (H3 st' Hin) as (dek & c' & Hh & Ho & Hl); [by rewrite get_insert_ne|].
      rewrite Hsub in Hh by done. rewrite get_insert_ne in Ho by done. by exists dek, c'.
  - intros g Hg. assert (Hne : g <> st_go st) by (intros ->; destruct Hg as [Hg|]; [apply Hg; by left|done]).
    rewrite H4; [by rewrite lookup_insert_ne|]. destruct Hg as [Hg|Hg].
    + left. intros Hin. apply Hg. by right.
    + right. by rewrite get_insert_ne.
Qed.

(** *** Decryption, when some subjects were shredded *)
Context (sh : string -> bool).

Definition lost (e : Event) (st : PStep) : bool := negb (bool_decide (get e (st_go st) = [])) && sh (subj e st).

Definition remaining (e : Event) (l : list PStep) : Event :=
  foldr (fun st acc => if lost e st then <[st_go st := []]> acc else acc) e l.
Definition redactions (e : Event) (l : list PStep) : list RedactedField :=
  (fun st => mkRedactedField (st_proto st) (subj e st) "shredded") <$> List.filter (lost e) l.

Lemma lost_insert e g b l :
  ~ In g (gos l) -> (forall st, In st l -> subj (<[g := b]> e) st = subj e st) ->
  remaining (<[g := b]> e) l = <[g := b]> (remaining e l) /\ redactions (<[g := b]> e) l = redactions e l.
Proof.
  intros Hni Hs. unfold remaining, redactions.
  assert (Hl : forall st, In st l -> lost (<[g := b]> e) st = lost e st).
  { intros st Hin. unfold lost. rewrite Hs by done. rewrite get_insert_ne; [done|].
    intros <-. apply Hni, in_map_iff. by exists st. }
  assert (Hgen : forall l', incl l' l ->
    foldr (fun st acc => if lost (<[g := b]> e) st then <[st_go st := []]> acc else acc) (<[g := b]> e) l' =
      <[g := b]> (foldr (fun st acc => if lost e st then <[st_go st := []]> acc else acc) e l') /\
    (fun st => mkRedactedField (st_proto st) (subj (<[g := b]> e) st) "shredded") <$>
      List.filter (lost (<[g := b]> e)) l' =
    (fun st => mkRedactedField (st_proto st) (subj e st) "shredded") <$> List.filter (lost e) l').
  { induction l' as [|st l' IH]; intros Hi; [done|]. assert (Hin : In st l) by (apply Hi; by left).
    destruct IH as [IH1 IH2]; [intros x Hx; apply Hi; by right|]. simpl. rewrite Hl, IH1 by done. split.
    - destruct (lost e st); [|done]. rewrite insert_insert_ne; [done|].
      intros E. apply Hni. rewrite <- E. apply in_map_iff. by exists st.
    - destruct (lost e st); [|done]. rewrite !fmap_cons, IH2. by rewrite Hs. }
  apply Hgen, incl_refl.
Qed.

(** The subject store's own errors are not ErrShredded, which only the Shredder
    returns. *)
Definition honest : Prop := forall t u w w' x,
  GetSubjectKey (Shredder.Store s) t u w = (w', Err x) -> errors_Is x ErrShredded = false.

(** What the steps need of the world they run in. *)
Definition ready (w : W) (e e2 : Event) (st : PStep) : Prop :=
  get e (st_go st) <> [] ->
  exists c, e2 !! st_go st = Some (wire (st_b64 st) c) /\ c <> [] /\
  if sh (subj e st) then exists b v, rows w !! (t, subj e st) = Some (mkKeyRow b v true)
  else exists dek, holds w t (subj e st) dek /\ Shredder.aesGCMOpenField dek c = Ok (get e (st_go st)).

Lemma ready_grows w w' e e2 st : grows w w' -> ready w e e2 st -> ready w' e e2 st.
Proof.
  intros Hg H Hne. destruct (H Hne) as (c & Hc & Hcn & Hsh). exists c. split_and!; [done|done|].
  destruct (sh _).
  - destruct Hsh as (b & v & Hr). exists b, v. eapply lookup_weaken; [done|]. apply Hg.
  - destruct Hsh as (dek & Hh & Ho). exists dek. split; [by eapply holds_grows|done].
Qed.

Lemma get_wire b64 c (e2 : Event) g :
  e2 !! g = Some (wire b64 c) -> c <> [] -> get e2 g <> [] /\ unwire b64 (get e2 g) = Some c.
Proof.
  intros Hl Hc. unfold get. rewrite Hl. simpl. destruct b64; [|done].
  split; [by apply Base64.encode_nonempty|]. apply Base64.decode_encode.
Qed.

Lemma subj_agree l e e2 st :
  stable l -> In st l -> (forall g, ~ In g (gos l) -> e2 !! g = e !! g) -> subj e2 st = subj e st.
Proof.
  intros [_ Hg] Hin He. unfold subject_of. destruct (st_subj st) as [|g] eqn:E; [done|].
  unfold get. rewrite He; [done|]. by eapply Hg.
Qed.

Lemma ready_insert w e e2 st go b b' :
  st_go st <> go -> subj (<[go := b]> e) st = subj e st ->
  ready w e e2 st -> ready w (<[go := b]> e) (<[go := b']> e2) st.
Proof.
  intros Hgo Hs H. unfold ready. rewrite Hs, get_insert_ne, lookup_insert_ne by done. exact H.
Qed.

Notation answers u := (answers (ok := ok) (rows := rows) (wraps := wraps) (s := s) t u).

(** What one step of DecryptPII gets: the plaintext, the verdict that the
    subject was shredded, or an error that stops DecryptPII. *)
Lemma decrypt_one w w1 y e e2 st c :
  honest -> shred_ok w -> get e (st_go st) <> [] -> ready (fst w) e e2 st ->
  e2 !! st_go st = Some (wire (st_b64 st) c) ->
  Shredder.DecryptField s t (subj e st) c w = (w1, y) ->
  (y = (if sh (subj e st) then Err (ESent ErrShredded) else Ok (get e (st_go st))) \/
   exists x, y = Err x /\ errors_Is x ErrShredded = false /\ ~ answers (subj e st)) /\
  shred_ok w1 /\ grows (fst w) (fst w1).
Proof.
  intros Hhon Hok Hne Hr Hc HD. destruct (Hr Hne) as (c' & Hc' & _ & Hsh).
  rewrite Hc in Hc'. injection Hc' as Hw. assert (c' = c) as ->.
  { destruct (st_b64 st); [|done]. apply (f_equal Base64.decode) in Hw. unfold wire in Hw.
    rewrite !Base64.decode_encode in Hw. by injection Hw. }
  pose proof HD as HD'. apply (DecryptField_spec (SL := SL)) in HD' as (Hok1 & Hg1 & _); [|done|done].
  split; [|done]. destruct (sh (subj e st)).
  - destruct Hsh as (b & v & Hrow). pose proof (DecryptField_shredded (SL := SL) _ _ _ _ _ _ _ _ Hok Ht Hrow HD) as H.
    destruct (GetSubjectKey _ _ _ _) as [w' [k|x]] eqn:Hg; [by left|]. destruct H as (x' & -> & Hx'). right. exists x'.
    split_and!; [done|by eapply Hx', Hhon|]. intros [Ha _].
    destruct (Ha _ _ (proj1 Hok) Hrow) as (? & ? & Hg'). congruence.
  - destruct Hsh as (dek & Hh & Ho).
    destruct (DecryptField_held (SL := SL) _ _ _ _ _ _ _ _ (Hhon _ _) Hok Ht Hh Ho HD) as [->|(x & -> & Hx)]; [by left|].
    right. exists x. split_and!; [done|done|]. intros Ha.
    by apply (DecryptField_returns (SL := SL) _ _ _ _ _ _ _ _ Hok Ht Hh Ho) in HD.
Qed.

Lemma decryptSteps_spec l : forall red e e2 w w4 e4 red' x,
  honest -> stable l -> shred_ok w -> (forall st, In st l -> ready (fst w) e e2 st) ->
  (forall g, ~ In g (gos l) \/ get e g = [] -> e2 !! g = e !! g) ->
  decryptSteps s name t subject l red (w, e2) = ((w4, e4), (red', x)) ->
  (x = None -> e4 = remaining e l /\ red' = red ++ redactions e l) /\
  ((forall st, In st l -> get e (st_go st) <> [] -> answers (subj e st)) -> x = None) /\
  shred_ok w4 /\ grows (fst w) (fst w4).
Proof.
  induction l as [|st l IH]; intros red e e2 w w4 e4 red' x Hhon Hst Hok Hr He.
  { intros [= <- <- <- <-]. split_and!; [|done|done|apply grows_refl, Hok]. split; [|by rewrite app_nil_r].
    apply map_eq. intros g. apply He. left. intros []. }
  pose proof (subj_agree _ e e2 st Hst (or_introl eq_refl) (fun g Hg => He g (or_introl Hg))) as Hse.
  apply stable_cons in Hst as (Hni & Hst & Hself & Hsub).
  assert (Hgo : forall st', In st' l -> st_go st' <> st_go st).
  { intros st' Hin E. apply Hni. rewrite <- E. apply in_map_iff. by exists st'. }
  cbn [decryptSteps]. destruct (decide (get e (st_go st) = [])) as [Hem|Hne].
  - assert (Hem2 : get e2 (st_go st) = []) by (unfold get; by rewrite (He (st_go st) (or_intror Hem))).
    rewrite bool_decide_eq_true_2 by done. intros H.
    assert (Hl : lost e st = false) by (unfold lost; by rewrite bool_decide_eq_true_2).
    unfold remaining, redactions. cbn [foldr List.filter]. rewrite Hl.
    destruct (IH _ e e2 _ _ _ _ _ Hhon Hst Hok (fun st' Hin => Hr st' (or_intror Hin))
      ltac:(intros g Hg; apply He; destruct (decide (g = st_go st)) as [->|]; [by right|];
            destruct Hg as [Hg|Hg]; [left; by apply gos_cons|by right]) H) as (IH1 & IH2 & IH3).
    split_and!; [exact IH1| |apply IH3|apply IH3]. intros Ha. apply IH2. intros st' Hin. apply Ha. by right.
  - destruct (Hr st (or_introl eq_refl) Hne) as (c & Hc & Hcn & _).
    destruct (get_wire _ _ _ _ Hc Hcn) as [Hg2 Hu]. rewrite bool_decide_eq_false_2, Hu, Hse by done.
    destruct (Shredder.DecryptField s t (subj e st) c w) as [w1 y] eqn:HD.
    destruct (decrypt_one _ _ _ _ _ _ _ Hhon Hok Hne (Hr st (or_introl eq_refl)) Hc HD) as (Hy & Hok1 & Hg1).
    assert (Hl : lost e st = sh (subj e st)) by (unfold lost; by rewrite bool_decide_eq_false_2).
    unfold remaining, redactions. cbn [foldr List.filter]. rewrite Hl.
    destruct Hy as [->|(z & -> & Hz & Hna)].
    2: { rewrite Hz. intros [= <- _ _ <-]. split_and!; [done| |done|done]. intros Ha. destruct Hna. apply Ha; [by left|done]. }
    destruct (sh (subj e st)) eqn:Hb.
    + cbn [errors_Is]. rewrite bool_decide_eq_true_2, Hself, Hse by done. intros H.
      destruct (lost_insert e (st_go st) [] l Hni (fun st' Hin => Hsub st' e [] Hin)) as [Hrem Hred].
      eapply (IH _ (<[st_go st := []]> e)) in H as (H1 & H2 & H3 & H4); [|done|done|done| |].
      * split_and!; [|intros Ha; apply H2; intros st' Hin; rewrite get_insert_ne, Hsub by auto; apply Ha; by right
          |done|by eapply grows_trans].
        intros ->. destruct (H1 eq_refl) as [-> ->]. rewrite Hrem, Hred. by rewrite <- app_assoc.
      * intros st' Hin. apply (ready_grows (fst w)); [done|].
        apply ready_insert; [by apply Hgo|by apply Hsub|]. apply Hr. by right.
      * intros g Hg. destruct (decide (g = st_go st)) as [->|Hne']; [by rewrite !lookup_insert_eq|].
        rewrite !lookup_insert_ne by done. apply He. rewrite get_insert_ne in Hg by done.
        destruct Hg as [Hg|Hg]; [left; by apply gos_cons|by right].
    + intros H. eapply (IH _ e) in H as (H1 & H2 & H3 & H4); [|done|done|done| |].
      * split_and!; [done| |done|by eapply grows_trans]. intros Ha. apply H2. intros st' Hin. apply Ha. by right.
      * intros st' Hin. apply (ready_grows (fst w)); [done|]. unfold ready. rewrite lookup_insert_ne by (apply not_eq_sym, Hgo, Hin).
        apply Hr. by right.
      * intros g Hg. destruct (decide (g = st_go st)) as [->|Hne'].
        { rewrite lookup_insert_eq. unfold get in Hne |- *. by destruct (e !! st_go st). }
        rewrite lookup_insert_ne by done. apply He. destruct Hg as [Hg|Hg]; [left; by apply gos_cons|by right].
Qed.
End Run.

(** ** The theorem about the printed methods *)
Lemma steps_in v st : In st (steps v) <-> exists f, st = step_of f /\ In f (Fields v) /\ secret f = true.
Proof.
  unfold steps. rewrite <- list_elem_of_In, list_elem_of_fmap. setoid_rewrite list_elem_of_In.
  setoid_rewrite filter_In. naive_solver.
Qed.

Lemma steps_go v g : In g (st_go <$> steps v) <-> exists f, g = GoName f /\ In f (Fields v) /\ secret f = true.
Proof.
  rewrite <- list_elem_of_In, list_elem_of_fmap. setoid_rewrite list_elem_of_In. setoid_rewrite steps_in.
  split; [intros (st & -> & f & -> & Hf)|intros (f & -> & Hf)]; [by exists f|]. exists (step_of f). eauto.
Qed.

Lemma steps_stable v : NoDup (GoName <$> Fields v) -> overrides_plain v = true -> stable (steps v).
Proof.
  intros Hnd Ho. split.
  - replace (st_go <$> steps v) with (GoName <$> List.filter secret (Fields v))
      by (unfold steps; by rewrite <- list_fmap_compose). induction (Fields v) as [|f l IH]; [constructor|].
    rewrite fmap_cons in Hnd. apply NoDup_cons in Hnd as [Hni Hnd]. cbn [List.filter]. destruct (secret f); [|by apply IH].
    rewrite fmap_cons. apply NoDup_cons. split; [|by apply IH]. intros Hin. apply Hni.
    apply list_elem_of_fmap in Hin as (g & -> & Hg). apply list_elem_of_In, filter_In in Hg as [Hg _].
    apply list_elem_of_fmap. exists g. by rewrite list_elem_of_In.
  - intros st go (f & -> & Hf & Hs)%steps_in Hsub (g & -> & Hg & Hsg)%steps_go.
    unfold overrides_plain in Ho. rewrite forallb_forall in Ho. specialize (Ho f Hf).
    rewrite forallb_forall in Ho. specialize (Ho g Hg). rewrite Hs, Hsg in Ho.
    unfold step_of, subjExpr in Hsub. cbn [st_subj subjectField classifyField] in Hsub.
    case_bool_decide as He; [done|]. injection Hsub as Hsub. cbn [negb andb] in Ho.
    by rewrite bool_decide_eq_true_2 in Ho.
Qed.

(** The event without the secret fields of the shredded subjects, and the list
    of those fields. *)
Definition without_shredded (sh : string -> bool) (subject : string) (v : Message) (e : Event) : Event :=
  remaining subject sh e (steps v).
Definition shredded_fields (sh : string -> bool) (subject : string) (v : Message) (e : Event) : list RedactedField :=
  redactions subject sh e (steps v).

Section Later.
Context {A : AEAD} {W : Type} (ok : W -> Prop)
  (rows : W -> gmap (string * string) KeyRow) (wraps : W -> string -> bytes -> Z -> bytes -> Prop)
  (s : Shredder.t W).

(** EncryptPII took [e] in [w] to [e2]: the secret fields are sealed under the
    key of their subject, the rest of the event is as it was. *)
Definition protected (w : W) (t subject : string) (v : Message) (e e2 : Event) : Prop :=
  (forall f, In f (Fields v) -> secret f = true -> get e (GoName f) <> [] ->
     exists dek c, holds (rows := rows) (wraps := wraps) w t (subject_for subject e f) dek /\
       Shredder.aesGCMOpenField dek c = Ok (get e (GoName f)) /\
       e2 !! GoName f = Some (wire (bool_decide (ty_kind (f_type f) = StringKind)) c)) /\
  (forall go, (forall f, In f (Fields v) -> secret f = true -> GoName f = go -> get e go = []) ->
     e2 !! go = e !! go).

(** What has become of the subjects of [e] from [w2] to [w3]: those in [sh] were
    shredded, the others kept their key. *)
Definition later (sh : string -> bool) (t subject : string) (v : Message) (e : Event) (w2 w3 : W) : Prop :=
  forall f, In f (Fields v) -> secret f = true -> get e (GoName f) <> [] ->
    if sh (subject_for subject e f)
    then exists b n, rows w3 !! (t, subject_for subject e f) = Some (mkKeyRow b n true)
    else forall dek, holds (rows := rows) (wraps := wraps) w2 t (subject_for subject e f) dek ->
                     holds (rows := rows) (wraps := wraps) w3 t (subject_for subject e f) dek.

(** The stores answer for the subjects of [e]. *)
Definition all_answer (t subject : string) (v : Message) (e : Event) : Prop :=
  forall f, In f (Fields v) -> secret f = true -> get e (GoName f) <> [] ->
    answers (ok := ok) (rows := rows) (wraps := wraps) (s := s) t (subject_for subject e f).
End Later.

Section Methods.
Context {A : AEAD} {AL : AEADLaws A} {W : Type} {ok : W -> Prop}
  {rows : W -> gmap (string * string) KeyRow} {wraps : W -> string -> bytes -> Z -> bytes -> Prop}
  {current : W -> string -> Z} {s : Shredder.t W} {SL : ShredLaws ok rows wraps current s}.
Context (v : Message) (pm : PIIMethods) (Hpm : emitPIIMethods v = Some pm)
  (Hnd : NoDup (GoName <$> Fields v)) (Hov : overrides_plain v = true).
Context (t subject : string) (Ht : tenant_plain t).
Notation SW := (W * DekCache.t)%type.
Notation shred_ok := (shred_ok (ok := ok) (rows := rows) (wraps := wraps)).
Notation grows := (grows (ok := ok) (rows := rows) (wraps := wraps) (current := current)).

Lemma EncryptPII_protects e e2 (w1 w2 : SW) :
  shred_ok w1 -> EncryptPII s pm t subject (w1, e) = ((w2, e2), Ok tt) ->
  none rejected v /\ shred_ok w2 /\ grows (fst w1) (fst w2) /\ protected rows wraps (fst w2) t subject v e e2.
Proof.
  intros Hok. pose proof (emit_spec v) as Hem. rewrite Hpm in Hem. destruct Hem as (_ & Hsteps & Hrej).
  unfold EncryptPII. destruct (existsb rejected (Fields v)) eqn:Hr; [by rewrite Hrej|]. rewrite Hsteps by done.
  intros HE. apply (encryptSteps_spec (SL := SL)) in HE as (Hok2 & Hg & Hsealed & Hrest); [|done|by apply steps_stable|done].
  split_and!; [done|done|done|]. split.
  - intros f Hf Hs Hne. destruct (Hsealed (step_of f)) as (dek & c & Hh & Ho & Hl); [apply steps_in; eauto|done|].
    rewrite subject_of_step in Hh. eauto.
  - intros go Hgo. apply Hrest. destruct (in_dec String.string_dec go (st_go <$> steps v)) as [Hin|]; [|by left].
    apply steps_go in Hin as (f & -> & Hf & Hs). right. by apply (Hgo f).
Qed.

Lemma DecryptPII_reveals sh e e2 w2 (w3 w4 : SW) e4 red x :
  honest (s := s) -> none rejected v -> protected rows wraps w2 t subject v e e2 ->
  shred_ok w3 -> later rows wraps sh t subject v e w2 (fst w3) ->
  DecryptPII s pm t subject (w3, e2) = ((w4, e4), (red, x)) ->
  (x = None -> e4 = without_shredded sh subject v e /\ red = shredded_fields sh subject v e) /\
  (all_answer ok rows wraps s t subject v e -> x = None) /\ shred_ok w4 /\ grows (fst w3) (fst w4).
Proof.
  intros Hhon Hr [Hsealed Hrest] Hok3 Hlater. pose proof (emit_spec v) as Hem. rewrite Hpm in Hem.
  destruct Hem as (Hsame & Hsteps & _). unfold DecryptPII. rewrite <- Hsame, Hsteps by done. intros HD.
  eapply (decryptSteps_spec (SL := SL) _ _ _ Ht sh _ _ e) in HD as (H1 & H2 & H3); [|done|by apply steps_stable|done| |].
  - split_and!; [done| |apply H3|apply H3]. intros Ha. apply H2. intros st (f & -> & Hf & Hs)%steps_in Hne.
    rewrite subject_of_step. by apply Ha.
  - intros st (f & -> & Hf & Hs)%steps_in Hne. specialize (Hlater f Hf Hs Hne).
    destruct (Hsealed f Hf Hs Hne) as (dek & c & Hh & Ho & Hl). exists c. split_and!; [done|by intros ->|].
    rewrite subject_of_step. destruct (sh _); [done|]. exists dek. split; [by apply Hlater|done].
  - intros g Hg. apply Hrest. intros f Hf Hs <-. destruct Hg as [Hg|Hg]; [|done]. destruct Hg. apply steps_go. eauto.
Qed.
End Methods.

(** C24: the generated crypto-shredding methods, for a message in which no
    field is keyed by a field that is itself sealed ([overrides_plain]), a
    tenant id without a bar, and DEK caches that agree with the store.  A
    message gets the methods unless no field is to be sealed or refused.  With a
    SAD field both return an error and neither the event nor the stores change.
    Otherwise a successful EncryptPII seals exactly the non-empty text fields
    whose classification the schema names and whose level is above Internal
    (an unrecognised classification is withheld by View and not sealed), each
    under the key of its own subject.  DecryptPII of the result, in any later
    state in which the subjects that were not shredded still hold the key they
    had, gives the original event with the fields of the shredded subjects
    emptied, and lists exactly those, or returns an error; and it returns none
    when the stores answer. *)
Theorem pii_methods {A : AEAD} (AL : AEADLaws A) {W} (s : Shredder.t W) ok rows wraps current
    (SL : ShredLaws ok rows wraps current s) (v : Message) (t subject : string) (e : Event)
    (w1 : W * DekCache.t) :
  honest (s := s) -> NoDup (GoName <$> Fields v) -> overrides_plain v = true -> tenant_plain t ->
  shred_ok (ok := ok) (rows := rows) (wraps := wraps) w1 ->
  match emitPIIMethods v with
  | None => existsb rejected (Fields v) = false /\ existsb secret (Fields v) = false
  | Some pm =>
      (existsb rejected (Fields v) = true ->
       EncryptPII s pm t subject (w1, e) = ((w1, e), Err (sad_error (pm_name pm))) /\
       DecryptPII s pm t subject (w1, e) = ((w1, e), ([], Some (sad_error (pm_name pm))))) /\
      (existsb rejected (Fields v) = false -> forall w2 e2,
       EncryptPII s pm t subject (w1, e) = ((w2, e2), Ok tt) ->
       protected rows wraps (fst w2) t subject v e e2 /\
       forall sh w3 w4 e4 red x,
         shred_ok (ok := ok) (rows := rows) (wraps := wraps) w3 ->
         later rows wraps sh t subject v e (fst w2) (fst w3) ->
         DecryptPII s pm t subject (w3, e2) = ((w4, e4), (red, x)) ->
         (x = None -> e4 = without_shredded sh subject v e /\ red = shredded_fields sh subject v e) /\
         (all_answer ok rows wraps s t subject v e -> x = None))
  end.
Proof.
  intros Hhon Hnd Hov Ht Hok. pose proof (emit_spec v) as Hem.
  destruct (emitPIIMethods v) as [pm|] eqn:Hpm; [|done]. destruct Hem as (Hsame & _ & Hrej). split.
  - intros Hr. unfold EncryptPII, DecryptPII. by rewrite <- Hsame, Hrej.
  - intros Hr w2 e2 HE. destruct (EncryptPII_protects (SL := SL) v pm Hpm Hnd Hov t subject Ht _ _ _ _ Hok HE) as (_ & _ & _ & Hp).
    split; [done|]. intros sh w3 w4 e4 red x Hok3 Hlater HD.
    destruct (DecryptPII_reveals (SL := SL) v pm Hpm Hnd Hov t subject Ht _ _ _ _ _ _ _ _ _ Hhon Hr Hp Hok3 Hlater HD) as (H1 & H2 & _).
    done.
Qed.

(** ** Descriptors for which the methods do not do what they are for *)
Definition pii_text (go text owner : string) (repeated : bool) (c : DataClassification) : Field :=
  mkField go text (mkTy StringKind None "") None repeated false None false owner c false false.
Definition pii_message (l : list Field) : Message :=
  mkMessage ("demo.v1", "demo.v1.Noted") "Noted" l [] false "" None 1 "" [].

(** The kind of a repeated field is that of its elements: the code for a single
    string is printed for a list of strings, and Go rejects it. *)
Lemma repeated_pii_does_not_compile :
  let v := pii_message [pii_text "Notes" "notes" "" true PERSONAL] in
  (exists pm, emitPIIMethods v = Some pm /\ pm_Encrypt pm = Steps [mkPStep "Notes" "notes" true SubjArg]) /\
  pii_compiles v = false.
Proof. split; [eexists; split|]; reflexivity. Qed.

(** The personal data in a message field is not encrypted: an event whose only
    personal data is inside an address gets no methods at all. *)
Lemma nested_pii_not_encrypted c :
  let home := mkField "Home" "home" (mkTy MessageKind (Some ("demo.v1", "demo.v1.Address")) "") None false false
                None false "" c false false in
  c <> SAD -> emitPIIMethods (pii_message [home]) = None.
Proof. intros home Hc. by destruct c. Qed.

(** upperGoFieldName drops the underscore before a digit, protoc-gen-go keeps
    it: the override calls a getter that does not exist. *)
Lemma override_with_digit_does_not_compile :
  let v := pii_message [pii_text "User_2" "user_2" "" false UNSPECIFIED; pii_text "Name" "name" "user_2" false PERSONAL] in
  upperGoFieldName "user_2" = "User2" /\ pii_compiles v = false /\
  pii_compiles (pii_message [pii_text "UserId" "user_id" "" false UNSPECIFIED;
                             pii_text "Name" "name" "user_id" false PERSONAL]) = true.
Proof. split_and!; reflexivity. Qed.

(** A classification the plugin does not know is shown to operators only, but is
    stored in plaintext. *)
Lemma unknown_classification_not_encrypted n :
  let v := pii_message [pii_text "Name" "name" "" false (Unrecognised n)] in
  levelConstName (Unrecognised n) = Some AccessLevelOperator /\ emitPIIMethods v = None.
Proof. split; reflexivity. Qed.
