(* ===== verification/Migrating.v ===== *)
(** * Upcasting codecs (gen/test/unitsmigration/v1/migrating_codec.go,
      gen/test/piimigration/v1/migrating_codec.go)

    The two hand-written codecs that read events of schema version 1 in the shape
    of version 2.  Changing an encrypted field from bytes to string keeps what
    DecryptPII gives; the unit conversion is exact within the range of int64. *)
From S2P Require Import Prelude Errors Streams Events Store Aggregate Shred Base64 Codegen CodegenPii CodegenPiiFacts.
Import Codegen CodegenPii.

Module Units.
Record MeasurementRecorded := mkMeasurementRecorded { MeasurementId : string; LatencyUs : Z }.

Section Units.
(** The generated codec, and proto.Unmarshal of the frozen legacy message. *)
Context (Inner : Codec MeasurementRecorded) (UnmarshalV1 : bytes -> res (string * Z)).

Definition msToUs (ms : Z) : Z := i64 (ms * 1000).

Definition Encode : MeasurementRecorded -> res EncodedEvent := Aggregate.Encode Inner.

Definition Decode (typeURL : string) (schemaVersion : Z) (payload : bytes) : res MeasurementRecorded :=
  if 2 <=? schemaVersion then Aggregate.Decode Inner typeURL schemaVersion payload
  else if bool_decide (typeURL = "test.unitsmigration.v1.MeasurementRecorded") then
    match UnmarshalV1 payload with
    | Err e => Err (EWrap "MigratingCodec.Decode upcast MeasurementRecorded v1" e)
    | Ok old => Ok (mkMeasurementRecorded (fst old) (msToUs (snd old)))
    end
  else Aggregate.Decode Inner typeURL schemaVersion payload.
End Units.
End Units.

Module Pii.
(** legacy.HiredV1: the fields that became strings are bytes. *)
Record HiredV1 := mkHiredV1 { v1_EmployeeId : bytes; v1_LegalName : bytes; v1_Email : bytes }.

Definition encodeLegacyField (b : bytes) : bytes := if bool_decide (length b = 0%nat) then [] else Base64.encode b.

(** The event in its current shape, by Go field name. *)
Definition hired (id name email : bytes) : Event :=
  <["EmployeeId" := id]> (<["LegalName" := name]> (<["Email" := email]> ∅)).

Section Pii.
Context (Inner : Codec (string * Event)) (UnmarshalV1 : bytes -> res HiredV1).

Definition Encode : string * Event -> res EncodedEvent := Aggregate.Encode Inner.

Definition Decode (typeURL : string) (schemaVersion : Z) (payload : bytes) : res (string * Event) :=
  if 2 <=? schemaVersion then Aggregate.Decode Inner typeURL schemaVersion payload
  else if bool_decide (typeURL = "test.piimigration.v1.Hired") then
    match UnmarshalV1 payload with
    | Err e => Err (EWrap "MigratingCodec.Decode upcast Hired v1" e)
    | Ok old => Ok ("Hired", hired (v1_EmployeeId old) (encodeLegacyField (v1_LegalName old)) (encodeLegacyField (v1_Email old)))
    end
  else Aggregate.Decode Inner typeURL schemaVersion payload.
End Pii.
End Pii.

(** ** The unit conversion *)
Lemma msToUs_exact ms : - (2 ^ 63 / 1000) <= ms <= 2 ^ 63 / 1000 -> Units.msToUs ms = ms * 1000.
Proof. intros H. unfold Units.msToUs. apply i64_small. change (2 ^ 63 / 1000) with 9223372036854775 in H. lia. Qed.

(** Above that it wraps, and a long latency becomes a negative one. *)
Lemma msToUs_wraps : Units.msToUs (2 ^ 63 / 1000 + 1) < 0.
Proof. vm_compute. reflexivity. Qed.

(** ** The change of an encrypted field from bytes to string *)
Section Migrated.
Context {A : AEAD} {W : Type} (s : Shredder.t W) (name t subject : string).
Notation SW := (W * DekCache.t)%type.

Definition as_string (st : PStep) : PStep := mkPStep (st_go st) (st_proto st) true (st_subj st).
Definition as_bytes (st : PStep) : PStep := mkPStep (st_go st) (st_proto st) false (st_subj st).

(** [e'] is [e] with the fields of the steps in base64. *)
Definition upcast_of (l : list PStep) (e e' : Event) : Prop :=
  (forall g, In g (st_go <$> l) -> get e' g = Pii.encodeLegacyField (get e g)) /\
  (forall g, ~ In g (st_go <$> l) -> get e' g = get e g).

Lemma encodeLegacyField_spec b :
  (Pii.encodeLegacyField b = [] <-> b = []) /\ (b <> [] -> Base64.decode (Pii.encodeLegacyField b) = Some b).
Proof.
  unfold Pii.encodeLegacyField. case_bool_decide as Hl.
  - apply nil_length_inv in Hl as ->. done.
  - assert (Hb : b <> []) by (intros ->; done). split.
    + split; [|done]. intros He. by destruct (Base64.encode_nonempty b Hb).
    + intros _. apply Base64.decode_encode.
Qed.

Lemma get_insert (e : Event) g b g' : get (<[g := b]> e) g' = if decide (g' = g) then b else get e g'.
Proof. unfold get. case_decide as H; [subst; by rewrite lookup_insert_eq|by rewrite lookup_insert_ne]. Qed.

Lemma upcast_insert st l e e' b :
  ~ In (st_go st) (st_go <$> l) -> upcast_of (st :: l) e e' -> upcast_of l (<[st_go st := b]> e) (<[st_go st := b]> e').
Proof.
  intros Hni [H1 H2]. split; intros g Hg; rewrite !get_insert; case_decide as Hd; subst; try done.
  - apply H1. by right.
  - apply H2. intros [?|?]; [by apply Hd|done].
Qed.

Lemma migrated_steps l : forall red (w : SW) e e',
  stable l -> upcast_of l e e' ->
  let '((w1, e1), r1) := decryptSteps s name t subject (as_string <$> l) red (w, e') in
  let '((w2, e2), r2) := decryptSteps s name t subject (as_bytes <$> l) red (w, e) in
  w1 = w2 /\ r1 = r2 /\ (snd r1 = None -> forall g, get e1 g = get e2 g).
Proof.
  induction l as [|st l IH]; intros red w e e' Hst Hup.
  { simpl. split_and!; [done|done|]. intros _ g. apply Hup. intros []. }
  assert (Hsub : subject_of e' subject (st_subj st) = subject_of e subject (st_subj st)).
  { unfold subject_of. destruct (st_subj st) as [|g] eqn:Hg; [done|]. f_equal. apply Hup.
    eapply (proj2 Hst); [by left|done]. }
  pose proof (stable_cons subject st l Hst) as (Hni & Hst' & Hself & _).
  assert (Hgo : get e' (st_go st) = Pii.encodeLegacyField (get e (st_go st))) by (apply Hup; by left).
  destruct (encodeLegacyField_spec (get e (st_go st))) as [Hnil Hdec].
  rewrite !fmap_cons. cbn [decryptSteps as_string as_bytes st_go st_proto st_b64 st_subj unwire].
  destruct (decide (get e (st_go st) = [])) as [Hz|Hz].
  - assert (Hz' : get e' (st_go st) = []) by (rewrite Hgo; by apply Hnil).
    rewrite !bool_decide_eq_true_2 by done. apply IH; [done|]. split.
    + intros g Hg. apply Hup. by right.
    + intros g Hg. destruct (decide (g = st_go st)) as [->|Hne]; [congruence|].
      apply Hup. intros [?|?]; [by apply Hne|done].
  - assert (Hz' : get e' (st_go st) <> []) by (rewrite Hgo; by rewrite Hnil).
    rewrite !bool_decide_eq_false_2 by done. rewrite Hgo, Hdec, Hsub by done.
    destruct (Shredder.DecryptField s t _ (get e (st_go st)) w) as [w1 [pt|x]].
    + apply IH; [done|]. by apply upcast_insert.
    + destruct (errors_Is x ErrShredded); [|by split_and!].
      rewrite !Hself, Hsub. apply IH; [done|]. by apply upcast_insert.
Qed.
End Migrated.

(** Reading an old event through the upcasting codec loses nothing: DecryptPII of
    the upcast event gives the plaintext, the redactions and the error that
    DecryptPII of the event in its old shape gave, and leaves the same stores. *)
Theorem migrated_pii {A : AEAD} {W} (s : Shredder.t W) Inner UnmarshalV1 payload old ver t subject w :
  UnmarshalV1 payload = Ok old -> ver < 2 ->
  let l := [mkPStep "LegalName" "legal_name" true SubjArg; mkPStep "Email" "email" true SubjArg] in
  exists e', Pii.Decode Inner UnmarshalV1 "test.piimigration.v1.Hired" ver payload = Ok ("Hired", e') /\
  let '((w1, e1), r1) := decryptSteps s "Hired" t subject l [] (w, e') in
  let '((w2, e2), r2) := decryptSteps s "Hired" t subject (as_bytes <$> l) []
      (w, Pii.hired (Pii.v1_EmployeeId old) (Pii.v1_LegalName old) (Pii.v1_Email old)) in
  w1 = w2 /\ r1 = r2 /\ (snd r1 = None -> forall g, get e1 g = get e2 g).
Proof.
  intros Hu Hv l. unfold Pii.Decode. rewrite (proj2 (Z.leb_gt _ _)) by lia. rewrite bool_decide_eq_true_2, Hu by done.
  eexists. split; [done|]. apply (migrated_steps s "Hired" t subject l).
  - split; [|by intros st g [<-|[<-|[]]]]. apply (bool_decide_unpack _). vm_compute. exact I.
  - split; intros g Hg; unfold Pii.hired; rewrite !get_insert.
    + destruct Hg as [<-|[<-|[]]]; done.
    + repeat case_decide; subst; try done; destruct Hg; vm_compute; eauto.
Qed.
