(* ===== verification/CodegenSum.v ===== *)
(** * The code generator: sum types, dispatchers, durable services and the manifest
    (cmd/protoc-gen-es-go/main.go, emit_restate.go, emit_dbos.go)

    The plugin finds the messages that the options mark, checks them, and prints
    code for them: a codec per sum type, a dispatcher per Event sum type and per
    projection, a service per aggregate for the durable runtimes.  The checks are
    definitions with their errors; the printed switches are lists of cases, with
    the functions that run them.  [resolve] gives the message a field refers to,
    as protogen links it. *)
From S2P Require Import Prelude Errors Streams Events Store Aggregate Projection Codegen CodegenPii.
Import Access Codegen CodegenPii.

Module CodegenSum.

(** ** Plugin parameters *)
Fixpoint indexByte (s : string) (b : ascii) : option nat :=
  match s with
  | "" => None
  | String c s' => if bool_decide (c = b) then Some 0%nat else S <$> indexByte s' b
  end.

(** The loop of splitParams; [cur] is [s[start:i]]. *)
Fixpoint split_from (cur s : string) : list string :=
  match s with
  | "" => if bool_decide (cur = "") then [] else [cur]
  | String c s' =>
      if bool_decide (c = ","%char) then cur :: split_from "" s' else split_from (cur +:+ String c "") s'
  end.
Definition splitParams (s : string) : list string := split_from "" s.

Definition pluginParam (raw key : string) : string :=
  let hit p := match indexByte p "=" with
    | Some eq => if bool_decide (String.substring 0 eq p = key)
                 then Some (String.substring (S eq) (String.length p) p) else None
    | None => None end in
  default "" (head (omap hit (splitParams raw))).

(** ** Registry and annotations *)
Definition FullName (m : Message) : string := snd (m_name m).

Fixpoint walkMessage (m : Message) : list Message :=
  m :: (fix walk (ms : list Message) : list Message :=
          match ms with [] => [] | x :: ms' => walkMessage x ++ walk ms' end) (Messages m).

(** Later entries overwrite earlier ones of the same name. *)
Definition buildMessageRegistry (files : list File) : gmap string Message :=
  foldl (fun reg m => <[FullName m := m]> reg) ∅ (concat ((fun f => concat (walkMessage <$> f_Messages f)) <$> files)).

Definition extractSumTypeName (m : Message) : option string :=
  if bool_decide (E_SumType m = "") then None else Some (E_SumType m).

Definition getSchemaVersion (m : Message) : Z := if E_SchemaVersion m =? 0 then 1 else E_SchemaVersion m.

Section Find.
Context (resolve : MsgName -> option Message).

Definition field_message (f : Field) : option Message := ty_message (f_type f) ≫= resolve.

Record sumType := mkSumType { interfaceName : string; container : Message; variants : list Message }.

(** The variants of a oneof; [bad] is the error for one that is no message. *)
Fixpoint oneof_messages (bad : string -> string) (fields : list Field) : res (list Message) :=
  match fields with
  | [] => Ok []
  | f :: fields' =>
      match field_message f with
      | None => Err (ENew (bad (GoName f)))
      | Some m => match oneof_messages bad fields' with Ok ms => Ok (m :: ms) | Err e => Err e end
      end
  end.

Definition sumTypeOf (msg : Message) (name : string) : res sumType :=
  match Oneofs msg with
  | [o] =>
      match oneof_messages (fun go => m_GoName msg +:+ "." +:+ go +:+ ": sum_type oneof variants must be message types")
              (o_Fields o) with
      | Ok vs => Ok (mkSumType name msg vs)
      | Err e => Err e
      end
  | _ => Err (ENew (m_GoName msg +:+ ": es.v1.sum_type requires exactly one oneof"))
  end.

Fixpoint findSumTypes_in (msgs : list Message) : res (list sumType) :=
  match msgs with
  | [] => Ok []
  | msg :: msgs' =>
      match extractSumTypeName msg with
      | None => findSumTypes_in msgs'
      | Some name =>
          match sumTypeOf msg name with
          | Err e => Err e
          | Ok st => match findSumTypes_in msgs' with Ok sts => Ok (st :: sts) | Err e => Err e end
          end
      end
  end.
Definition findSumTypes (file : File) : res (list sumType) := findSumTypes_in (f_Messages file).

(** ** Projection specs *)
Record projectionSpec := mkProjectionSpec { host : Message; ps_name : string; ps_events : list Message }.

Definition onMethod (m : Message) : string := "On" +:+ m_GoName m.

(** The loop over the event names, with the method names seen. *)
Fixpoint spec_events (registry : gmap string Message) (msg : Message) (seenMethod : gmap string string)
    (names : list string) : res (list Message) :=
  match names with
  | [] => Ok []
  | evtName :: names' =>
      match registry !! evtName with
      | None => Err (ENew (m_GoName msg +:+ ": (es.v1.projection).events references unknown type"))
      | Some eventMsg =>
          match seenMethod !! onMethod eventMsg with
          | Some _ => Err (ENew (m_GoName msg +:+ ": projection method name collides"))
          | None =>
              match spec_events registry msg (<[onMethod eventMsg := evtName]> seenMethod) names' with
              | Ok l => Ok (eventMsg :: l)
              | Err e => Err e
              end
          end
      end
  end.

Definition specOf (registry : gmap string Message) (msg : Message) (spec : Projection) : res projectionSpec :=
  if bool_decide (p_Name spec = "") then Err (ENew (m_GoName msg +:+ ": (es.v1.projection).name is required"))
  else if bool_decide (p_Events spec = []) then
    Err (ENew (m_GoName msg +:+ ": (es.v1.projection).events list cannot be empty"))
  else
    match spec_events registry msg ∅ (p_Events spec) with
    | Ok evs => Ok (mkProjectionSpec msg (p_Name spec) evs)
    | Err e => Err e
    end.

Fixpoint findProjectionSpecs_in (registry : gmap string Message) (msgs : list Message) : res (list projectionSpec) :=
  match msgs with
  | [] => Ok []
  | msg :: msgs' =>
      match E_Projection msg with
      | None => findProjectionSpecs_in registry msgs'
      | Some spec =>
          match specOf registry msg spec with
          | Err e => Err e
          | Ok ps => match findProjectionSpecs_in registry msgs' with Ok l => Ok (ps :: l) | Err e => Err e end
          end
      end
  end.
Definition findProjectionSpecs (file : File) (registry : gmap string Message) : res (list projectionSpec) :=
  findProjectionSpecs_in registry (f_Messages file).

(** ** Aggregates with annotated commands (findAggregatesWithAnnotatedCommands) *)
Definition hasStreamID (m : Message) : bool := existsb E_StreamId (Fields m).
Definition hasTenantID (m : Message) : bool := existsb E_TenantId (Fields m).

Record aggregate := mkAggregate {
  ag_name : string;
  ag_state : Message;
  ag_commands : list Message;
  ag_events : string
}.

(** Messages of the file with the option, the last one of a name. *)
Definition stateByName (file : File) : gmap string Message :=
  foldl (fun m msg => if bool_decide (E_Aggregate msg = "") then m else <[E_Aggregate msg := msg]> m) ∅ (f_Messages file).

(** The first variant without one of the two annotations. *)
Definition offender (path : string) (vs : list Message) : option err :=
  head (omap (fun v =>
    if negb (hasStreamID v) then
      Some (ENew (path +:+ ": command variant " +:+ m_GoName v +:+ " is missing a field annotated [(es.v1.stream_id) = true]"))
    else if negb (hasTenantID v) then
      Some (ENew (path +:+ ": command variant " +:+ m_GoName v +:+ " is missing a field annotated [(es.v1.tenant_id) = true]"))
    else None) vs).

(** Step 2: the commands that the Command sum types of the file attach. *)
Fixpoint attachCommands (file : File) (states : nat) (msgs : list Message) (commands : list Message) : res (list Message) :=
  match msgs with
  | [] => Ok commands
  | m :: msgs' =>
      if bool_decide (E_SumType m = "") then attachCommands file states msgs' commands
      else
        match Oneofs m with
        | [o] =>
            if negb (bool_decide (E_SumType m = "Command")) then attachCommands file states msgs' commands
            else
              match oneof_messages (fun go => m_GoName m +:+ "." +:+ go +:+ ": oneof field is not a message variant")
                      (o_Fields o) with
              | Err e => Err e
              | Ok vs =>
                  if negb (existsb (fun v => hasStreamID v || hasTenantID v) vs)
                  then attachCommands file states msgs' commands
                  else
                    match offender (f_Path file) vs with
                    | Some e => Err e
                    | None =>
                        if (1 <? states)%nat
                        then Err (ENew (f_Path file +:+ ": annotated commands but multiple aggregates declared in one file"))
                        else attachCommands file states msgs' (commands ++ vs)
                    end
              end
        | _ => Err (ENew (m_GoName m +:+ ": sum_type message must have exactly one oneof"))
        end
  end.

(** Step 3: some file of the same proto package has an Event sum type. *)
Definition has_event_sum (file : File) (allFiles : list File) : bool :=
  existsb (fun f => bool_decide (f_Package f = f_Package file) &&
                    existsb (fun m => bool_decide (E_SumType m = "Event")) (f_Messages f)) allFiles.

(** Commands are only attached when the file has one aggregate. *)
Definition findAggregatesWithAnnotatedCommands (file : File) (allFiles : list File) : res (list aggregate) :=
  let states := stateByName file in
  if bool_decide (size states = 0%nat) then Ok []
  else
    match attachCommands file (size states) (f_Messages file) [] with
    | Err e => Err e
    | Ok [] => Ok []
    | Ok cmds =>
        match map_to_list states with
        | (name, st) :: _ =>
            if has_event_sum file allFiles then Ok [mkAggregate name st cmds "Event"]
            else Err (ENew (f_Path file +:+ ": aggregate has annotated commands but no Event sum type in the same proto package"))
        | [] => Ok []
        end
    end.

(** collectVariants: the last annotated field wins. *)
Record commandVariantInfo := mkCommandVariantInfo { cv_msg : Message; streamIDFld : Field; tenantIDFld : Field }.

Definition variantInfo (cmd : Message) : res commandVariantInfo :=
  match last (List.filter E_StreamId (Fields cmd)), last (List.filter E_TenantId (Fields cmd)) with
  | Some sf, Some tf => Ok (mkCommandVariantInfo cmd sf tf)
  | _, _ => Err (ENew (m_GoName cmd +:+ ": missing annotations (post-validation bug)"))
  end.

Fixpoint collectVariants_in (cmds : list Message) : res (list commandVariantInfo) :=
  match cmds with
  | [] => Ok []
  | c :: cmds' =>
      match variantInfo c with
      | Err e => Err e
      | Ok i => match collectVariants_in cmds' with Ok l => Ok (i :: l) | Err e => Err e end
      end
  end.
Definition collectVariants (agg : aggregate) : res (list commandVariantInfo) := collectVariants_in (ag_commands agg).
End Find.

(** [string(s[0]-32) + s[1:]]: a byte below 32 wraps; the result is a code point,
    which from 128 on takes two bytes. *)
Definition rune_string (n : Z) : string :=
  if n <? 128 then String (ascii_of_nat (Z.to_nat n)) ""
  else String (ascii_of_nat (Z.to_nat (192 + n / 64))) (String (ascii_of_nat (Z.to_nat (128 + n mod 64))) "").

Definition capitalize (s : string) : string :=
  match s with
  | "" => ""
  | String c s' => rune_string (wrap_u 8 (Z.of_nat (nat_of_ascii c) - 32)) +:+ s'
  end.

(** ** The printed code *)

(** A case of the codec's switches: the Go type, the type URL, the version. *)
Record codecCase := mkCodecCase { cc_go : string; cc_url : string; cc_version : Z }.
Record SumCode := mkSumCode { sc_iface : string; sc_cases : list codecCase }.

(** [Action] of a variant is the type URL of its case. *)
Definition emitSumType (st : sumType) : SumCode :=
  mkSumCode (interfaceName st)
    ((fun v => mkCodecCase (m_GoName v) (FullName v) (getSchemaVersion v)) <$> variants st).

(** Go rejects a switch with a duplicate case. *)
Definition sum_compiles (c : SumCode) : Prop :=
  NoDup (cc_go <$> sc_cases c) /\ NoDup (cc_url <$> sc_cases c).

Definition by_go (c : SumCode) (go : string) : option codecCase :=
  snd <$> list_find (fun x => cc_go x = go) (sc_cases c).
Definition by_url (c : SumCode) (url : string) : option codecCase :=
  snd <$> list_find (fun x => cc_url x = url) (sc_cases c).

Section Run.
(** Message values, with proto.Marshal and proto.Unmarshal at a Go type. *)
Context {V : Type} (Marshal : string -> V -> res bytes) (Unmarshal : string -> bytes -> res V).

(** A value of the sealed interface: its dynamic type and the message. *)
Notation Sum := (string * V)%type.

Definition Encode (c : SumCode) (v : Sum) : res EncodedEvent :=
  match by_go c (fst v) with
  | None => Err (ENew (sc_iface c +:+ "Codec.Encode: unknown variant type"))
  | Some x =>
      match Marshal (fst v) (snd v) with
      | Err e => Err e
      | Ok b => Ok (mkEncodedEvent b (cc_url x) (cc_version x))
      end
  end.

Definition Decode (c : SumCode) (typeURL : string) (_ : Z) (payload : bytes) : res Sum :=
  match by_url c typeURL with
  | None => Err (ENew (sc_iface c +:+ "Codec.Decode: unknown type_url"))
  | Some x =>
      match Unmarshal (cc_go x) payload with
      | Err e => Err e
      | Ok m => Ok (cc_go x, m)
      end
  end.

Definition codec (c : SumCode) : Codec Sum := mkCodec Sum (Encode c) (Decode c).

(** emitProjection: [On] are the methods of the Projection implementation. *)
Definition isOurType (c : SumCode) (typeURL : string) : bool :=
  match by_url c typeURL with Some _ => true | None => false end.

Definition ProjectionDispatcher {W} (c : SumCode) (opts : list Projection.DispatcherOption)
    (On : string -> V -> Handler W) : Handler W := fun env =>
  let cfg := Projection.ApplyOptions opts in
  if negb (isOurType c (Envelope.TypeURL env)) then
    if Projection.IgnoreUnknownCfg cfg then mret tt
    else fail (ENew "projection: unknown TypeURL")
  else
    match Decode c (Envelope.TypeURL env) (Envelope.SchemaVersion env) (Envelope.Payload env) with
    | Err e => fail (EWrap "projection: decode" e)
    | Ok evt =>
        match by_go c (fst evt) with
        | Some x => On (cc_go x) (snd evt) env
        | None => fail (ENew "projection: unreachable variant")
        end
    end.

(** emitProjectionSpec: the cases are the events of the spec. *)
Definition emitProjectionSpec (ps : projectionSpec) : SumCode :=
  mkSumCode (m_GoName (host ps) +:+ "Handler")
    ((fun v => mkCodecCase (onMethod v) (FullName v) 0) <$> ps_events ps).

Definition SpecDispatcher {W} (c : SumCode) (opts : list Projection.DispatcherOption)
    (On : string -> V -> Handler W) : Handler W := fun env =>
  match by_url c (Envelope.TypeURL env) with
  | Some x =>
      match Unmarshal (cc_url x) (Envelope.Payload env) with
      | Err e => fail (EWrap "projection decode" e)
      | Ok m => On (cc_go x) m env
      end
  | None =>
      if Projection.IgnoreUnknownCfg (Projection.ApplyOptions opts) then mret tt
      else fail (ENew "projection: unknown TypeURL")
  end.

(** A method of RestateService or DBOSService: the getters of the command's
    tenant and stream ids, the aggregate's name in the stream id. *)
Record ServiceMethod := mkServiceMethod { sm_name : string; sm_tenant : string; sm_stream : string; sm_type : string }.

Definition emitService (agg : aggregate) (vs : list commandVariantInfo) : list ServiceMethod :=
  (fun v => mkServiceMethod (m_GoName (cv_msg v)) (GoName (tenantIDFld v)) (GoName (streamIDFld v)) (ag_name agg)) <$> vs.

(** The DBOS method derives options from the command; the Restate method has
    none ([cmdOpts] gives the empty list).  [handle] is HandleCmd, whose context
    carries the tenant and the runtime's context. *)
Definition service_call {W S Opt} (get : V -> string -> string) (cmdOpts : V -> res (list Opt))
    (handle : string -> StreamID.t -> V -> list Opt -> M W S) (sm : ServiceMethod) (cmd : V) : M W S :=
  let tenant := get cmd (sm_tenant sm) in
  match StreamID.NewStreamID tenant (sm_type sm) (get cmd (sm_stream sm)) with
  | Err e => fail e
  | Ok sid =>
      match cmdOpts cmd with
      | Err e => fail e
      | Ok opts => handle tenant sid cmd opts
      end
  end.
End Run.

(** ** The manifest *)
Record manifestField := mkManifestField {
  mf_name : string;
  mf_proto_type : string;
  mf_classification : DataClassification + unit;
  mf_encryption : string;
  mf_dsar_export : bool;
  mf_audit_on_read : bool;
  mf_retention : string;
  mf_subject_override : string
}.

(** The classification [inr tt] is DATA_CLASSIFICATION_SUBJECT_FIELD. *)
Definition manifestAttrs (pf : piiField) (protoType : string) : manifestField :=
  let encryption := match kind pf with
    | piiKindNone => "none"
    | piiKindBytes => "subject_bytes"
    | piiKindString => "subject_string_base64"
    | piiKindRejected => "rejected_sad"
    end in
  let '(dsarExport, auditOnRead, retention) :=
    match classification pf with
    | INTERNAL => (false, false, "standard")
    | SENSITIVE => (true, true, "shorter")
    | FINANCIAL => (true, false, "tax_locked")
    | CARDHOLDER => (true, true, "pci_scope")
    | CREDENTIAL => (false, true, "standard")
    | SAD => (false, false, "standard")
    | _ => (true, false, "standard")
    end in
  let '(dsarExport, auditOnRead, retention) :=
    if isSubject pf then (true, false, "standard") else (dsarExport, auditOnRead, retention) in
  mkManifestField (protoName pf) protoType (if isSubject pf then inr tt else inl (classification pf))
    encryption dsarExport auditOnRead retention (subjectField pf).

Definition kind_string (k : Kind) : string :=
  match k with
  | BoolKind => "bool" | EnumKind => "enum" | Int32Kind => "int32" | Sint32Kind => "sint32" | Uint32Kind => "uint32"
  | Int64Kind => "int64" | Sint64Kind => "sint64" | Uint64Kind => "uint64" | Sfixed32Kind => "sfixed32"
  | Fixed32Kind => "fixed32" | FloatKind => "float" | Sfixed64Kind => "sfixed64" | Fixed64Kind => "fixed64"
  | DoubleKind => "double" | StringKind => "string" | BytesKind => "bytes" | MessageKind => "message"
  | GroupKind => "group"
  end.

(** The name of a full name: what follows the last dot. *)
Fixpoint last_part (cur s : string) : string :=
  match s with
  | "" => cur
  | String c s' => if bool_decide (c = "."%char) then last_part "" s' else last_part (cur +:+ String c "") s'
  end.

Definition scalarOrComposite (t : Ty) : string :=
  match ty_kind t with
  | MessageKind | GroupKind => "message:" +:+ last_part "" (default "" (snd <$> ty_message t))
  | EnumKind => "enum:" +:+ ty_enum t
  | k => kind_string k
  end.

Definition protoTypeString (f : Field) : string :=
  match f_map f with
  | Some (k, v) => "map<" +:+ kind_string k +:+ ", " +:+ scalarOrComposite v +:+ ">"
  | None => let base := scalarOrComposite (f_type f) in if f_repeated f then "repeated " +:+ base else base
  end.

Definition pfFor (fields : list piiField) (name : string) : option piiField :=
  List.find (fun pf => bool_decide (protoName pf = name)) fields.

Record aggregateInfo := mkAggregateInfo {
  ai_name : string;
  stateMessage : Message;
  stateFields : list piiField;
  stateProto : list string;
  ai_subjectField : string
}.

(** The last subject field is the one recorded. *)
Definition aggregateInfoOf (msg : Message) : aggregateInfo :=
  let fields := fst (classifyFields msg) in
  mkAggregateInfo (E_Aggregate msg) msg fields (protoTypeString <$> Fields msg)
    (default "" (last (omap (fun f =>
       match pfFor fields (TextName f) with
       | Some pf => if isSubject pf then Some (TextName f) else None
       | None => None
       end) (Fields msg)))).

Definition findAggregates (file : File) : list aggregateInfo :=
  aggregateInfoOf <$> List.filter (fun m => negb (bool_decide (E_Aggregate m = ""))) (f_Messages file).

(** The entries of one message. *)
Definition messageFields (v : Message) : list manifestField :=
  (fun pf => manifestAttrs pf
     (default "" (protoTypeString <$> List.find (fun f => bool_decide (TextName f = protoName pf)) (Fields v))))
  <$> fst (classifyFields v).
Definition emitMessageList (msgs : list Message) : list (string * list manifestField) :=
  (fun v => (FullName v, messageFields v)) <$> msgs.

Fixpoint attrs_with (fields : list piiField) (protos : list string) : list manifestField :=
  match fields, protos with
  | pf :: fields', p :: protos' => manifestAttrs pf p :: attrs_with fields' protos'
  | _, _ => []
  end.

Record manifest := mkManifest {
  mn_aggregates : list (string * string * string * list manifestField);
  mn_commands : list (string * list manifestField);
  mn_events : list (string * list manifestField)
}.

Definition emitPIIManifest (aggregates : list aggregateInfo) (commands events : list Message) : manifest :=
  mkManifest
    ((fun ai => (ai_name ai, FullName (stateMessage ai), ai_subjectField ai, attrs_with (stateFields ai) (stateProto ai)))
     <$> aggregates)
    (emitMessageList commands) (emitMessageList events).

(** ** generateFile *)
Record Generated := mkGenerated {
  g_sums : list SumCode;
  g_dispatchers : list SumCode;
  g_pii : list PIIMethods;
  g_specs : list SumCode;
  g_helpers : list Message;
  g_manifest : option manifest
}.

(** [None] is no output file at all. *)
Definition generateFile (resolve : MsgName -> option Message) (file : File) (registry : gmap string Message)
    : res (option Generated) :=
  match findSumTypes resolve file with
  | Err e => Err e
  | Ok sumTypes =>
      match findProjectionSpecs file registry with
      | Err e => Err e
      | Ok specs =>
          if bool_decide (sumTypes = [] ) && bool_decide (specs = []) && bool_decide (helpers file = []) then Ok None
          else
            let events := concat (variants <$> List.filter (fun st => bool_decide (interfaceName st = "Event")) sumTypes) in
            let commands := concat (variants <$> List.filter (fun st => bool_decide (interfaceName st = "Command")) sumTypes) in
            let aggs := findAggregates file in
            Ok (Some (mkGenerated (emitSumType <$> sumTypes)
              (emitSumType <$> List.filter (fun st => bool_decide (interfaceName st = "Event")) sumTypes)
              (omap emitPIIMethods events) (emitProjectionSpec <$> specs) (helpers file)
              (if bool_decide (events = []) && bool_decide (commands = []) && bool_decide (aggs = []) then None
               else Some (emitPIIManifest aggs commands events))))
      end
  end.
End CodegenSum.
