(* ===== verification/CodegenSumFacts.v ===== *)
(** * What the generated codecs, dispatchers and services do

    A codec decodes what it encoded, a dispatcher calls the one method of the
    event's type, a descriptor set that passes the plugin's checks gets a service
    whose methods address a stream of the command's own tenant, and the manifest
    names as encrypted exactly the fields the generated methods encrypt. *)
From S2P Require Import Prelude Errors Streams Events Store Aggregate Projection Codegen CodegenPii CodegenPiiFacts CodegenSum.
Import Access Codegen CodegenPii CodegenSum.

(** ** Parameters *)
Lemma split_from_app cur p s : str_free "," p = true ->
  split_from cur (p +:+ String ","%char s) = (cur +:+ p) :: split_from "" s.
Proof.
  revert cur. induction p as [|c p IH]; intros cur; rewrite ?str_app_nil_l, ?str_app_cons; simpl.
  - intros _. by rewrite str_app_empty_r.
  - unfold str_free. cbn [str_forall]. rewrite andb_true_iff, negb_true_iff, bool_decide_eq_false. intros [Hc Hp].
    rewrite bool_decide_eq_false_2 by done. rewrite IH by done. by rewrite str_app_assoc.
Qed.

(** Parameters without commas come back as they were joined. *)
Lemma splitParams_join l : Forall (fun p => str_free "," p = true) l ->
  splitParams (foldr (fun p s => p +:+ String ","%char s) "" l) = l.
Proof.
  unfold splitParams. induction 1 as [|p l Hp _ IH]; [done|]. simpl. rewrite split_from_app by done.
  by rewrite IH.
Qed.

(** ** Codecs and dispatchers *)
Lemma by_url_case c x : sum_compiles c -> x ∈ sc_cases c -> by_url c (cc_url x) = Some x.
Proof.
  intros [_ Hnd] Hx. unfold by_url. destruct (list_find _ _) as [[i y]|] eqn:Hf; simpl.
  - apply list_find_Some in Hf as (Hi & Hy & _). apply list_elem_of_lookup in Hx as [j Hj].
    assert (i = j) as ->; [|congruence]. eapply (NoDup_lookup _ _ _ (cc_url x) Hnd); rewrite list_lookup_fmap.
    + by rewrite Hi, <- Hy.
    + by rewrite Hj.
  - apply list_find_None in Hf. rewrite Forall_forall in Hf. by destruct (Hf x Hx).
Qed.

Lemma by_go_in c go x : by_go c go = Some x -> x ∈ sc_cases c /\ cc_go x = go.
Proof.
  unfold by_go. destruct (list_find _ _) as [[i y]|] eqn:Hf; [|done]. intros [= <-].
  apply list_find_Some in Hf as (Hi & Hy & _). split; [by eapply list_elem_of_lookup_2|done].
Qed.

Lemma by_url_None c url : by_url c url = None <-> url ∉ cc_url <$> sc_cases c.
Proof.
  unfold by_url. rewrite fmap_None, list_find_None, Forall_forall, list_elem_of_fmap. naive_solver.
Qed.

Section Codec.
Context {V : Type} (Marshal : string -> V -> res bytes) (Unmarshal : string -> bytes -> res V) (c : SumCode).

Lemma Encode_inv v enc : Encode Marshal c v = Ok enc ->
  exists x, x ∈ sc_cases c /\ cc_go x = fst v /\ by_go c (fst v) = Some x /\ Marshal (fst v) (snd v) = Ok (ee_Payload enc) /\
    ee_TypeURL enc = cc_url x /\ ee_SchemaVersion enc = cc_version x.
Proof.
  unfold Encode. destruct (by_go c (fst v)) as [x|] eqn:Hg; [|done].
  destruct (Marshal _ _) as [b|] eqn:Hm; [|done]. intros [= <-]. apply by_go_in in Hg as Hg'. destruct Hg'. by exists x.
Qed.

Lemma Decode_Encode v enc n :
  sum_compiles c -> (forall go m b, Marshal go m = Ok b -> Unmarshal go b = Ok m) ->
  Encode Marshal c v = Ok enc -> Decode Unmarshal c (ee_TypeURL enc) n (ee_Payload enc) = Ok v.
Proof.
  intros Hc Hrt (x & Hx & Hgo & _ & Hm & Hu & _)%Encode_inv. unfold Decode.
  rewrite Hu, by_url_case, Hgo, (Hrt _ _ _ Hm) by done. by destruct v.
Qed.
End Codec.

(** The generated codec and dispatcher of a sum type.  Encode succeeds on
    the declared variants only and labels an event with the type URL and schema
    version of its own variant; Decode gives the event back whatever version it
    is told; and the dispatcher hands the envelope that carries it to the one
    method of that variant.  An envelope of another type is skipped with
    IgnoreUnknown and refused without. *)
Theorem generated_codec {V W} (Marshal : string -> V -> res bytes) (Unmarshal : string -> bytes -> res V)
    (st : sumType) (opts : list Projection.DispatcherOption) (On : string -> V -> Handler W) :
  sum_compiles (emitSumType st) ->
  (forall go m b, Marshal go m = Ok b -> Unmarshal go b = Ok m) ->
  (forall v enc, Encode Marshal (emitSumType st) v = Ok enc ->
     (exists m, m ∈ variants st /\ fst v = m_GoName m /\ ee_TypeURL enc = FullName m /\
        ee_SchemaVersion enc = getSchemaVersion m) /\
     (forall n, Decode Unmarshal (emitSumType st) (ee_TypeURL enc) n (ee_Payload enc) = Ok v) /\
     (forall env, Envelope.TypeURL env = ee_TypeURL enc -> Envelope.Payload env = ee_Payload enc ->
        ProjectionDispatcher Unmarshal (emitSumType st) opts On env = On (fst v) (snd v) env)) /\
  (forall env, Envelope.TypeURL env ∉ FullName <$> variants st ->
     ProjectionDispatcher Unmarshal (emitSumType st) opts On env =
       if Projection.IgnoreUnknownCfg (Projection.ApplyOptions opts) then mret tt
       else fail (ENew "projection: unknown TypeURL")).
Proof.
  intros Hc Hrt. split.
  - intros v enc He. pose proof (Encode_inv _ _ _ _ He) as (x & Hx & Hgo & Hby & Hm & Hu & Hs). split_and!.
    + apply list_elem_of_fmap in Hx as (m & -> & Hm'). by exists m.
    + intros n. by eapply Decode_Encode.
    + intros env Ht Hp. unfold ProjectionDispatcher, isOurType. rewrite Ht, Hp.
      rewrite (Decode_Encode Marshal Unmarshal _ v enc) by done.
      rewrite Hu, by_url_case, Hby by done. cbn [negb]. by rewrite Hgo.
  - intros env Hn. unfold ProjectionDispatcher, isOurType.
    assert (Hnone : by_url (emitSumType st) (Envelope.TypeURL env) = None).
    { apply by_url_None. intros Hin. apply Hn. unfold emitSumType in Hin. cbn [sc_cases] in Hin.
      by rewrite <- list_fmap_compose in Hin. }
    by rewrite Hnone.
Qed.

(** ** Projection specs *)
Lemma spec_events_ok registry msg names : forall seen evs,
  (forall k m, registry !! k = Some m -> FullName m = k) ->
  spec_events registry msg seen names = Ok evs ->
  FullName <$> evs = names /\ NoDup (onMethod <$> evs) /\
  (forall m, m ∈ evs -> seen !! onMethod m = None /\ registry !! FullName m = Some m).
Proof.
  induction names as [|n names IH]; intros seen evs Hreg; simpl.
  { intros [= <-]. split_and!; [done|constructor|by intros m ?%elem_of_nil]. }
  destruct (registry !! n) as [m|] eqn:Hn; [|done]. destruct (seen !! onMethod m) eqn:Hs; [done|].
  destruct (spec_events _ _ _ _) as [l|] eqn:Hl; [|done]. intros [= <-].
  destruct (IH _ _ Hreg Hl) as (H1 & H2 & H3). rewrite !fmap_cons. split_and!.
  - by rewrite H1, (Hreg _ _ Hn).
  - apply NoDup_cons. split; [|done]. intros (y & Hy & Hin)%list_elem_of_fmap.
    destruct (H3 y Hin) as [H _]. by rewrite Hy, lookup_insert_eq in H.
  - intros y [->|Hin]%elem_of_cons; [split; [done|by rewrite (Hreg _ _ Hn)]|]. destruct (H3 y Hin) as [H H'].
    split; [|done]. destruct (decide (onMethod m = onMethod y)) as [He|Hne]; [by rewrite He, lookup_insert_eq in H|].
    by rewrite lookup_insert_ne in H.
Qed.

(** The registry is keyed by full names. *)
Lemma registry_names files k m : buildMessageRegistry files !! k = Some m -> FullName m = k.
Proof.
  unfold buildMessageRegistry. generalize (concat ((fun f => concat (walkMessage <$> f_Messages f)) <$> files)) as l.
  intros l. assert (Hg : forall l (reg : gmap string Message), (forall k m, reg !! k = Some m -> FullName m = k) ->
    foldl (fun reg m => <[FullName m := m]> reg) reg l !! k = Some m -> FullName m = k).
  { clear. induction l as [|x l IH]; intros reg Hr; simpl; [by apply Hr|]. apply IH. intros k' m'.
    destruct (decide (FullName x = k')) as [<-|Hne]; [rewrite lookup_insert_eq; congruence|].
    rewrite lookup_insert_ne by done. apply Hr. }
  apply Hg. by intros ? ? ?%lookup_empty_Some.
Qed.

(** A spec that was accepted names its events in order, each with a method of
    its own: the printed interface and switch compile. *)
Lemma accepted_spec files msg spec ps :
  specOf (buildMessageRegistry files) msg spec = Ok ps ->
  ps_name ps = p_Name spec /\ p_Name spec <> "" /\ p_Events spec <> [] /\
  FullName <$> ps_events ps = p_Events spec /\ sum_compiles (emitProjectionSpec ps).
Proof.
  unfold specOf. case_bool_decide as Hn; [done|]. case_bool_decide as He; [done|].
  destruct (spec_events _ _ _ _) as [evs|] eqn:Hs; [|done]. intros [= <-]. simpl.
  apply spec_events_ok in Hs as (H1 & H2 & H3); [|apply registry_names].
  split_and!; try done. unfold sum_compiles, emitProjectionSpec. cbn [sc_cases ps_events].
  rewrite <- !list_fmap_compose. split; [exact H2|].
  apply (NoDup_fmap_2_strong FullName); [|by apply NoDup_fmap_1 in H2].
  intros x y Hx Hy E. apply H3 in Hx as [_ Hx]. apply H3 in Hy as [_ Hy]. rewrite E in Hx. congruence.
Qed.

(** ** Services *)
Lemma offender_None path vs : offender path vs = None ->
  forall v, v ∈ vs -> hasStreamID v = true /\ hasTenantID v = true.
Proof.
  unfold offender. induction vs as [|x vs IH]; intros H v; [by intros ?%elem_of_nil|].
  csimpl in H. destruct (hasStreamID x) eqn:Hs; [|done]. destruct (hasTenantID x) eqn:Ht; [|done]. simpl in H.
  intros [->|Hin]%elem_of_cons; [done|]. by apply IH.
Qed.

Definition annotated (v : Message) : Prop := hasStreamID v = true /\ hasTenantID v = true.

Lemma attachCommands_annotated resolve file states msgs : forall cmds out,
  Forall annotated cmds -> attachCommands resolve file states msgs cmds = Ok out ->
  Forall annotated out /\ (out <> cmds -> (states <= 1)%nat).
Proof.
  induction msgs as [|m msgs IH]; intros cmds out Hc; simpl; [by intros [= <-]|].
  case_bool_decide; [by apply IH|]. destruct (Oneofs m) as [|o [|? ?]]; [done| |done].
  destruct (negb _); [by apply IH|]. destruct (oneof_messages _ _ _) as [vs|]; [|done].
  destruct (negb _); [by apply IH|]. destruct (offender _ vs) eqn:Ho; [done|].
  destruct (Nat.ltb_spec 1 states); [done|]. intros H'.
  split; [|lia]. apply IH in H' as [H1 _]; [done|]. apply Forall_app. split; [done|].
  apply Forall_forall. by eapply offender_None.
Qed.

Lemma last_filter {A} (p : A -> bool) l : existsb p l = true ->
  exists x, last (List.filter p l) = Some x /\ x ∈ l /\ p x = true.
Proof.
  intros Hex. destruct (last (List.filter p l)) as [x|] eqn:Hl.
  - exists x. apply last_Some_elem_of, list_elem_of_In, filter_In in Hl as [Hin Hp]. by rewrite list_elem_of_In.
  - apply last_None, (f_equal length), filter_empty_none in Hl. congruence.
Qed.

Lemma variantInfo_annotated v : annotated v -> exists i, variantInfo v = Ok i /\ cv_msg i = v /\
  streamIDFld i ∈ Fields v /\ E_StreamId (streamIDFld i) = true /\
  tenantIDFld i ∈ Fields v /\ E_TenantId (tenantIDFld i) = true.
Proof.
  intros [(sf & Hs & ? & ?)%last_filter (tf & Ht & ? & ?)%last_filter]. unfold variantInfo. rewrite Hs, Ht.
  by eexists.
Qed.

Lemma collectVariants_annotated cmds : Forall annotated cmds ->
  exists vs, collectVariants_in cmds = Ok vs /\ cv_msg <$> vs = cmds /\
    Forall (fun v => E_StreamId (streamIDFld v) = true /\ E_TenantId (tenantIDFld v) = true) vs.
Proof.
  induction 1 as [|c cmds Hc _ (vs & IH1 & IH2 & IH3)]; [by exists []|].
  destruct (variantInfo_annotated c Hc) as (i & Hi & Hm & _ & Hs & _ & Ht). exists (i :: vs).
  cbn [collectVariants_in]. rewrite Hi, IH1, fmap_cons, Hm, IH2. split_and!; [done|done|]. by constructor.
Qed.

Lemma service_call_addresses {V W S Opt} (get : V -> string -> string) (cmdOpts : V -> res (list Opt))
    (handle : string -> StreamID.t -> V -> list Opt -> M W S) sm cmd w :
  (exists e, service_call get cmdOpts handle sm cmd w = (w, Err e)) \/
  exists sid opts, cmdOpts cmd = Ok opts /\ StreamID.Validate sid = None /\
    StreamID.Tenant sid = get cmd (sm_tenant sm) /\ StreamID.Type_ sid = sm_type sm /\
    StreamID.ID sid = get cmd (sm_stream sm) /\
    service_call get cmdOpts handle sm cmd w = handle (StreamID.Tenant sid) sid cmd opts w.
Proof.
  unfold service_call, StreamID.NewStreamID. destruct (StreamID.Validate _) eqn:Hv; [left; by eexists|].
  destruct (cmdOpts cmd) as [opts|]; [|left; by eexists]. right. by do 2 eexists.
Qed.

(** The generated services.  When the plugin accepts a file it emits at most
    one service, for the one aggregate the file declares; every command of it
    has a field for the tenant and one for the stream (so the plugin's second
    check never fails); and a method of the service calls HandleCmd with a valid
    stream id that belongs to the tenant put in the context and to the
    aggregate, or does nothing at all. *)
Theorem generated_services resolve file allFiles aggs {V W S Opt} (get : V -> string -> string)
    (cmdOpts : V -> res (list Opt)) (handle : string -> StreamID.t -> V -> list Opt -> M W S) :
  findAggregatesWithAnnotatedCommands resolve file allFiles = Ok aggs ->
  (length aggs <= 1)%nat /\
  forall agg, agg ∈ aggs ->
    stateByName file = {[ag_name agg := ag_state agg]} /\ has_event_sum file allFiles = true /\
    exists vs, collectVariants agg = Ok vs /\ cv_msg <$> vs = ag_commands agg /\ ag_commands agg <> [] /\
      Forall2 (fun v sm => E_StreamId (streamIDFld v) = true /\ E_TenantId (tenantIDFld v) = true /\
        sm_tenant sm = GoName (tenantIDFld v) /\ sm_stream sm = GoName (streamIDFld v) /\
        forall cmd w,
          (exists e, service_call get cmdOpts handle sm cmd w = (w, Err e)) \/
          exists sid opts, cmdOpts cmd = Ok opts /\ StreamID.Validate sid = None /\
            StreamID.Tenant sid = get cmd (sm_tenant sm) /\ StreamID.Type_ sid = ag_name agg /\
            StreamID.ID sid = get cmd (sm_stream sm) /\
            service_call get cmdOpts handle sm cmd w = handle (StreamID.Tenant sid) sid cmd opts w)
        vs (emitService agg vs).
Proof.
  unfold findAggregatesWithAnnotatedCommands. case_bool_decide as Hz.
  { intros [= <-]. split; [simpl; lia|]. by intros agg ?%elem_of_nil. }
  destruct (attachCommands _ _ _ _ _) as [cmds|] eqn:Ha; [|done].
  apply attachCommands_annotated in Ha as [Hann Hone]; [|constructor].
  destruct cmds as [|c cmds]; [intros [= <-]; split; [simpl; lia|]; by intros agg ?%elem_of_nil|].
  destruct (map_to_list (stateByName file)) as [|[name st] l] eqn:Hl.
  { intros [= <-]. split; [simpl; lia|]. by intros agg ?%elem_of_nil. }
  destruct (has_event_sum file allFiles) eqn:He; [|done]. intros [= <-]. split; [simpl; lia|].
  intros agg ->%list_elem_of_singleton. cbn [ag_name ag_state ag_commands]. split_and!; [|done|].
  - assert (Hsz : length (map_to_list (stateByName file)) = size (stateByName file)) by apply length_map_to_list.
    rewrite Hl in Hsz. destruct l; [|simpl in Hsz; specialize (Hone ltac:(done)); lia].
    by rewrite <- (list_to_map_to_list (stateByName file)), Hl.
  - destruct (collectVariants_annotated _ Hann) as (vs & H1 & H2 & H3). exists vs. split_and!; [done|done|done|].
    unfold emitService. apply Forall2_fmap_r, Forall_Forall2_diag.
    eapply Forall_impl; [exact H3|]. intros v [Hs Ht]. split_and!; try done. intros cmd w. apply service_call_addresses.
Qed.

(** ** The manifest *)

(** The manifest of a message lists its fields in order, and says "none" for
    exactly those that the generated methods neither encrypt nor refuse. *)
Lemma manifest_truthful v :
  mf_name <$> messageFields v = TextName <$> Fields v /\
  (forall mf, mf ∈ messageFields v -> mf_encryption mf <> "none" ->
     exists pm, emitPIIMethods v = Some pm /\ mf_name mf ∈ PIIFields pm) /\
  (forall pm name, emitPIIMethods v = Some pm -> name ∈ PIIFields pm ->
     exists mf, mf ∈ messageFields v /\ mf_name mf = name /\ mf_encryption mf <> "none").
Proof.
  unfold messageFields, classifyFields. cbn [fst].
  assert (Hname : forall pf t, mf_name (manifestAttrs pf t) = protoName pf)
    by (intros pf t; unfold manifestAttrs; by destruct (classification pf), (isSubject pf)).
  assert (Henc : forall pf t, mf_encryption (manifestAttrs pf t) <> "none" <-> is_pii pf = true).
  { intros pf t. unfold manifestAttrs, is_pii. destruct (classification pf), (isSubject pf), (kind pf); done. }
  split_and!.
  - rewrite <- !list_fmap_compose. apply list_fmap_ext. intros i f _. apply Hname.
  - intros mf (pf & -> & Hpf)%list_elem_of_fmap Hne%Henc. unfold emitPIIMethods, classifyFields.
    assert (Hex : existsb is_pii (classifyField <$> Fields v) = true)
      by (apply existsb_exists; exists pf; by rewrite <- list_elem_of_In).
    rewrite Hex. eexists. split; [reflexivity|]. cbn [PIIFields]. rewrite Hname. apply list_elem_of_fmap.
    exists pf. split; [done|]. apply list_elem_of_In, filter_In. by rewrite <- list_elem_of_In.
  - intros pm name. unfold emitPIIMethods, classifyFields. destruct (negb _); [done|]. intros [= <-]. cbn [PIIFields].
    intros (pf & -> & Hpf)%list_elem_of_fmap. apply list_elem_of_In, filter_In in Hpf as [Hpf Hp].
    eexists. split; [apply list_elem_of_fmap; exists pf; split; [reflexivity|by apply list_elem_of_In]|].
    rewrite Hname, Henc. done.
Qed.

(** capitalize subtracts 32 from whatever the first byte is. *)
Lemma capitalize_uppercase :
  capitalize "invoice" = "Invoice" /\ capitalize "Invoice" = ")nvoice" /\ capitalize "_x" = "?x".
Proof. split_and!; reflexivity. Qed.

(** ** Witnesses: an account with two commands and an event *)
Definition id_field (go text : string) (stream tenant : bool) : Field :=
  mkField go text (mkTy StringKind None "") None false false None false "" UNSPECIFIED stream tenant.
Definition variant (name : string) : Message :=
  mkMessage ("demo.v1", "demo.v1." +:+ name) name
    [id_field "TenantId" "tenant_id" false true; id_field "AccountId" "account_id" true false] [] false "" None 0 "" [].
Definition case_field (name : string) : Field :=
  mkField name name (mkTy MessageKind (Some ("demo.v1", "demo.v1." +:+ name)) "") None false false (Some "Variant")
    false "" UNSPECIFIED false false.
Definition sum_message (sum : string) (names : list string) : Message :=
  mkMessage ("demo.v1", "demo.v1." +:+ sum +:+ "s") (sum +:+ "s") (case_field <$> names)
    [mkOneof "Variant" "variant" false (case_field <$> names)] false sum None 0 "" [].
Definition account_m : Message :=
  mkMessage ("demo.v1", "demo.v1.Account") "Account" [id_field "Id" "id" false false] [] false "" None 0 "account" [].
Definition account_file : File :=
  mkFile "demo.v1" "account.proto"
    [account_m; variant "Open"; variant "Close"; variant "Opened"; sum_message "Command" ["Open"; "Close"];
     sum_message "Event" ["Opened"]].
Definition account_resolve (t : MsgName) : option Message := buildMessageRegistry [account_file] !! snd t.
Definition account_sum : sumType := mkSumType "Command" (sum_message "Command" ["Open"; "Close"]) [variant "Open"; variant "Close"].

Lemma generated_codec_witness :
  findSumTypes account_resolve account_file =
    Ok [account_sum; mkSumType "Event" (sum_message "Event" ["Opened"]) [variant "Opened"]] /\
  Decode (fun _ b => Ok b) (emitSumType account_sum) "demo.v1.Close" 7 [Byte.x01] = Ok ("Close", [Byte.x01]).
Proof.
  split; [vm_compute; reflexivity|].
  destruct (generated_codec (W := nat) (fun _ b => Ok b) (fun _ b => Ok b) account_sum [] (fun _ _ _ => mret tt)) as [H _].
  - split; apply (bool_decide_unpack _); vm_compute; exact I.
  - intros go m b [= ->]. reflexivity.
  - destruct (H ("Close", [Byte.x01]) (mkEncodedEvent [Byte.x01] "demo.v1.Close" 1) eq_refl) as (_ & Hd & _).
    exact (Hd 7).
Defined.

Definition account_service : aggregate := mkAggregate "account" account_m [variant "Open"; variant "Close"] "Event".

Lemma generated_services_witness :
  let get (cmd : gmap string string) (go : string) := default "" (cmd !! go) in
  let handle (t : string) (sid : StreamID.t) (_ : gmap string string) (_ : list unit) : M nat StreamID.t := mret sid in
  exists vs sm, collectVariants account_service = Ok vs /\ emitService account_service vs !! 0%nat = Some sm /\
    service_call get (fun _ => Ok []) handle sm {["TenantId" := "acme"; "AccountId" := "a1"]} 0%nat =
      (0%nat, Ok (StreamID.mk "acme" "account" "a1")).
Proof.
  intros get handle.
  destruct (generated_services account_resolve account_file [account_file] [account_service] get
    (fun _ => Ok []) handle) as [_ H]; [vm_compute; reflexivity|].
  destruct (H account_service ltac:(by apply list_elem_of_here)) as (_ & _ & vs & Hvs & _ & _ & HF).
  assert (Hlen : is_Some (emitService account_service vs !! 0%nat)).
  { injection Hvs as <-. vm_compute. eauto. }
  destruct Hlen as [sm Hsm]. exists vs, sm. split; [exact Hvs|]. split; [exact Hsm|].
  injection Hvs as <-. vm_compute in Hsm. injection Hsm as <-. vm_compute. reflexivity.
Defined.
