(* ===== verification/ShredAggregate.v ===== *)
(** * An aggregate with crypto-shredding, end to end

    The aggregate runtime (aggregate/runtime.go) with a Shredder, the codec that
    the plugin generates for the event sum type, and the generated EncryptPII and
    DecryptPII of its variants: what is appended is sealed, and a replay after
    some subjects were forgotten folds the events without their fields. *)
From S2P Require Import Prelude Errors Streams Events Store Aggregate Shred Codegen CodegenPii CodegenPiiFacts CodegenSum CodegenSumFacts.
Import Access Codegen CodegenPii.

(** An event of the sum type: the Go type of the variant and its fields. *)
Notation SumEvent := (string * Event)%type.

Section Methods.
Context {A : AEAD} {W : Type} (s : Shredder.t W) (msgs : string -> option Message).
Notation SW := (W * DekCache.t)%type.

(** The variant of an event and its methods, when it has any. *)
Definition pii_of (x : SumEvent) : option (Message * PIIMethods) :=
  v ← msgs (fst x); pm ← emitPIIMethods v; Some (v, pm).

(** The methods of a variant, as the runtime asserts them on an event. *)
Definition variant_pii (x : SumEvent) : option (PIIEncoder SW SumEvent) :=
  y ← pii_of x;
  let enc := pii_encoder s (snd y) (snd x) in
  Some (mkPIIEncoder SW SumEvent (Subject enc)
    (fun t u w => let '(w1, z) := Aggregate.EncryptPII enc t u w in
       (w1, match z with Ok e => Ok (fst x, e) | Err a => Err a end))
    (fun t u w => let '(w1, z) := Aggregate.DecryptPII enc t u w in
       (w1, match z with Ok (e, red) => Ok ((fst x, e), red) | Err a => Err a end))).

(** CloneSum returns an equal event. *)
Definition sum_methods : EventMethods SW SumEvent :=
  mkEventMethods SW SumEvent variant_pii (fun x => Some x) (fun x => Some (Some x)).

(** The variants have distinct Go names of fields, and no override names an
    encrypted field. *)
Definition msgs_fine : Prop :=
  forall go v, msgs go = Some v -> NoDup (GoName <$> Fields v) /\ overrides_plain v = true.
End Methods.

Section Runtime.
Context {A : AEAD} {AL : AEADLaws A} {W : Type} {ok : W -> Prop}
  {rows : W -> gmap (string * string) KeyRow} {wraps : W -> string -> bytes -> Z -> bytes -> Prop}
  {current : W -> string -> Z} {s : Shredder.t W} {SL : ShredLaws ok rows wraps current s}.
Notation SW := (W * DekCache.t)%type.
Notation shred_ok := (shred_ok (ok := ok) (rows := rows) (wraps := wraps)).
Notation grows := (grows (ok := ok) (rows := rows) (wraps := wraps) (current := current)).
Context {S C : Type} (NewV7 : M SW UUID) (r : Aggregate.Runtime SW S C SumEvent)
  (msgs : string -> option Message) (st : CodegenSum.sumType)
  (Marshal : string -> Event -> res bytes) (Unmarshal : string -> bytes -> res Event).
Context (Hsh : Aggregate.rt_Shredder r = true)
  (Hcodec : Aggregate.rt_Codec r = CodegenSum.codec Marshal Unmarshal (CodegenSum.emitSumType st))
  (Hmeth : Aggregate.rt_Methods r = sum_methods s msgs)
  (Hcomp : CodegenSum.sum_compiles (CodegenSum.emitSumType st))
  (Hwire : forall go e b, Marshal go e = Ok b -> Unmarshal go b = Ok e)
  (Hmsgs : msgs_fine msgs).
Context (sid : StreamID.t) (Ht : tenant_plain (StreamID.Tenant sid)).

(** The subject of an event: its subject field, else the id of the stream. *)
Definition subject_in (pm : PIIMethods) (e : Event) : string :=
  if bool_decide (Subject_of pm e = "") then StreamID.ID sid else Subject_of pm e.

(** What a stored event carries: its fields, those to be protected sealed under
    keys that are held in [w]. *)
Definition stored (w : W) (x : SumEvent) (env : Envelope.t) : Prop :=
  exists e2, Decode (Aggregate.rt_Codec r) (Envelope.TypeURL env) (Envelope.SchemaVersion env) (Envelope.Payload env)
      = Ok (fst x, e2) /\
    match pii_of msgs x with
    | Some (v, pm) => none rejected v /\
        protected rows wraps w (StreamID.Tenant sid) (subject_in pm (snd x)) v (snd x) e2
    | None => e2 = snd x
    end.

(** The event as it is read when the subjects in [sh] are shredded, and the names
    of the fields that are lost. *)
Definition shredded_event (sh : string -> bool) (x : SumEvent) : SumEvent :=
  match pii_of msgs x with
  | Some (v, pm) => (fst x, without_shredded sh (subject_in pm (snd x)) v (snd x))
  | None => x
  end.
Definition shredded_names (sh : string -> bool) (x : SumEvent) : list string :=
  match pii_of msgs x with
  | Some (v, pm) => rf_Name <$> shredded_fields sh (subject_in pm (snd x)) v (snd x)
  | None => []
  end.

(** The subjects of [x]: those in [sh] are shredded in [w3], the others hold in
    [w3] the keys they held in [w2]. *)
Definition subjects_later (sh : string -> bool) (w2 w3 : W) (x : SumEvent) : Prop :=
  match pii_of msgs x with
  | Some (v, pm) => later rows wraps sh (StreamID.Tenant sid) (subject_in pm (snd x)) v (snd x) w2 w3
  | None => True
  end.

Lemma pii_of_Some x v pm : pii_of msgs x = Some (v, pm) ->
  emitPIIMethods v = Some pm /\ NoDup (GoName <$> Fields v) /\ overrides_plain v = true.
Proof using Hmsgs.
  unfold pii_of. destruct (msgs (fst x)) as [v'|] eqn:Hv; [|done]. simpl.
  destruct (emitPIIMethods v') as [pm'|] eqn:Hpm; [|done]. intros [= <- <-]. split; [done|]. by eapply Hmsgs.
Qed.

Lemma subject_kept w t u v pm e e2 :
  emitPIIMethods v = Some pm -> NoDup (GoName <$> Fields v) -> protected rows wraps w t u v e e2 ->
  Subject_of pm e2 = Subject_of pm e.
Proof.
  intros Hpm Hnd [_ Hrest]. unfold emitPIIMethods, classifyFields in Hpm. destruct (negb _); [done|].
  injection Hpm as <-. unfold Subject_of. cbn [pm_Subject].
  destruct (List.find isSubject _) as [pf|] eqn:Hf; [|done]. simpl. unfold get. rewrite Hrest; [done|].
  apply find_some in Hf as [Hin Hs]. apply list_elem_of_In, list_elem_of_fmap in Hin as (f & -> & Hf).
  intros g Hg Hsec Heq. exfalso. cbn in Hs, Heq. apply list_elem_of_In in Hg.
  apply list_elem_of_lookup in Hf as [i Hi]. apply list_elem_of_lookup in Hg as [j Hj].
  assert (i = j) as ->.
  { eapply (NoDup_lookup _ _ _ (GoName f) Hnd); rewrite list_lookup_fmap; [by rewrite Hi|by rewrite Hj, <- Heq]. }
  rewrite Hi in Hj. injection Hj as ->. unfold secret in Hsec. by rewrite Hs in Hsec.
Qed.

(** [w] to [w'] keeps the keys. *)
Definition keys_silent {B} (m : M SW B) : Prop :=
  forall w w' y, shred_ok w -> m w = (w', y) -> shred_ok w' /\ grows (fst w) (fst w').

Lemma stored_grows w w' x env : grows w w' -> stored w x env -> stored w' x env.
Proof.
  intros Hg (e2 & Hd & H). exists e2. split; [done|]. destruct (pii_of msgs x) as [[v pm]|]; [|done].
  destruct H as [Hr [Hp Hrest]]. split; [done|]. split; [|done]. intros f Hf Hs Hne.
  destruct (Hp f Hf Hs Hne) as (dek & c & Hh & Ho). exists dek, c. split; [by eapply holds_grows|done].
Qed.

Lemma encode_stored cfg x w w' ev env :
  keys_silent NewV7 -> shred_ok w -> Aggregate.encodeEvent NewV7 r sid cfg x w = (w', Ok ev) -> carries ev env ->
  stored (fst w') x env /\ shred_ok w' /\ grows (fst w) (fst w').
Proof using SL AL Hsh Hcodec Hmeth Hcomp Hwire Hmsgs Ht.
  intros HV7 Hok H Hc. unfold Aggregate.encodeEvent in H.
  apply bind_Ok in H as (w1 & y & Hy & H). apply bind_Ok in H as (w2 & enc & Henc%wrap_err_Ok & H).
  apply of_res_Ok in Henc as [-> Henc]. apply bind_Ok in H as (w3 & id & Hid & H). injection H as <- <-.
  destruct Hc as (_ & Htu & Hsv & _ & _ & _ & _ & _ & Hp & _). simpl in Htu, Hsv, Hp.
  assert (Hdec : Decode (Aggregate.rt_Codec r) (Envelope.TypeURL env) (Envelope.SchemaVersion env) (Envelope.Payload env) = Ok y).
  { rewrite Htu, Hp, Hcodec. rewrite Hcodec in Henc. cbn [Decode CodegenSum.codec].
    by apply (Decode_Encode Marshal Unmarshal). }
  assert (Hmain : stored (fst w1) x env /\ shred_ok w1 /\ grows (fst w) (fst w1)).
  { unfold Aggregate.encryptEvent in Hy. rewrite Hsh, Hmeth in Hy. cbn [asPII sum_methods] in Hy.
    unfold stored, variant_pii in *. destruct (pii_of msgs x) as [[v pm]|] eqn:Hpii.
    - destruct (pii_of_Some _ _ _ Hpii) as (Hpm & Hnd & Hov). cbn in Hy. unfold wrap_err, mbind, M_bind in Hy.
      unfold Aggregate.cloneProtoEvent, of_res in Hy. rewrite Hmeth in Hy. cbn in Hy. rewrite Hpii in Hy. cbn in Hy.
      change (Aggregate.subjectOf _ sid) with (subject_in pm (snd x)) in Hy.
      destruct (CodegenPii.EncryptPII s pm _ _ (w, snd x)) as [[w1' e2] [[]|z]] eqn:HE; [|done].
      injection Hy as <- <-.
      destruct (EncryptPII_protects (SL := SL) v pm Hpm Hnd Hov _ _ Ht _ _ _ _ Hok HE) as (Hr & Hok1 & Hg & Hpr).
      split; [|done]. by exists e2.
    - cbn in Hy. injection Hy as <- <-. split; [|split; [done|apply grows_refl, Hok]]. exists (snd x). by destruct x. }
  destruct Hmain as (Hst & Hok1 & Hg1). destruct (HV7 _ _ _ Hok1 Hid) as [Hok3 Hg3].
  split_and!; [by eapply stored_grows|done|by eapply grows_trans].
Qed.

Lemma decode_stored sh x env w2 w3 w4 x' red :
  honest (s := s) -> stored w2 x env -> subjects_later sh w2 (fst w3) x -> shred_ok w3 ->
  Aggregate.decodeEvent r sid env w3 = (w4, Ok (x', red)) ->
  x' = shredded_event sh x /\ red = shredded_names sh x /\ shred_ok w4 /\ grows (fst w3) (fst w4).
Proof using SL AL Hsh Hmeth Hmsgs Ht.
  intros Hhon (e2 & Hd & Hst) Hl Hok H. unfold Aggregate.decodeEvent in H.
  apply bind_Ok in H as (w3' & y & Hy%wrap_err_Ok & H). apply of_res_Ok in Hy as [-> Hy]. rewrite Hd in Hy. injection Hy as <-.
  unfold Aggregate.decryptEvent in H. rewrite Hsh, Hmeth in H. cbn [asPII sum_methods] in H.
  unfold variant_pii, shredded_event, shredded_names, subjects_later in *.
  assert (Hpx : pii_of msgs (fst x, e2) = pii_of msgs x) by done. rewrite Hpx in H.
  destruct (pii_of msgs x) as [[v pm]|] eqn:Hpii.
  - destruct (pii_of_Some _ _ _ Hpii) as (Hpm & Hnd & Hov). destruct Hst as [Hr Hp]. cbn in H. unfold wrap_err in H. cbn in H.
    change (Aggregate.subjectOf _ sid) with (subject_in pm e2) in H.
    assert (Hsub : subject_in pm e2 = subject_in pm (snd x)) by (unfold subject_in; by erewrite subject_kept).
    rewrite Hsub in H.
    destruct (CodegenPii.DecryptPII s pm _ _ (w3, e2)) as [[w4' e4] [red' [z|]]] eqn:HD; [done|]. injection H as <- <- <-.
    destruct (DecryptPII_reveals (SL := SL) v pm Hpm Hnd Hov _ _ Ht _ _ _ _ _ _ _ _ _ Hhon Hr Hp Hok Hl HD)
      as (H1 & _ & H3 & H4).
    by destruct (H1 eq_refl) as [-> ->].
  - cbn in H. injection H as <- <- <-. subst e2. split_and!; [by destruct x|done|done|apply grows_refl, Hok].
Qed.
Lemma subjects_later_grows sh w2 w3 w4 x : grows w3 w4 -> subjects_later sh w2 w3 x -> subjects_later sh w2 w4 x.
Proof.
  intros Hg. unfold subjects_later. destruct (pii_of msgs x) as [[v pm]|]; [|done]. intros Hl f Hf Hs Hne.
  specialize (Hl f Hf Hs Hne). destruct (sh _).
  - destruct Hl as (b & n & Hr). exists b, n. eapply lookup_weaken; [done|]. apply Hg.
  - intros dek Hh. eapply holds_grows; [done|]. by apply Hl.
Qed.

(** The envelopes carry the events [xs], each stored in some earlier world. *)
Definition carries_events (sh : string -> bool) (w3 : W) : list Envelope.t -> list SumEvent -> Prop :=
  Forall2 (fun env x => exists w2, stored w2 x env /\ subjects_later sh w2 w3 x).

Lemma replay_stored sh envs xs : forall state v red w3 w4 state' v' red',
  honest (s := s) -> carries_events sh (fst w3) envs xs -> shred_ok w3 ->
  Aggregate.replay r sid envs state v red w3 = (w4, Ok (state', v', red')) ->
  state' = foldl (Evolve (Aggregate.rt_Decider r)) state (shredded_event sh <$> xs) /\
  red' = red ++ concat (shredded_names sh <$> xs).
Proof using SL AL Hsh Hmeth Hmsgs Ht.
  revert xs. induction envs as [|env envs IH]; intros xs state v red w3 w4 state' v' red' Hhon HF Hok H;
    inversion HF as [|? x ? xs' (w2 & Hst & Hl) HF']; subst.
  { injection H as <- <- <- <-. by rewrite app_nil_r. }
  cbn [Aggregate.replay] in H. apply bind_Ok in H as (w5 & [x' red1] & Hd & H).
  destruct (decode_stored sh x env w2 w3 w5 x' red1 Hhon Hst Hl Hok Hd) as (-> & -> & Hok5 & Hg).
  apply (IH xs') in H as [-> ->]; [|done| |done].
  - split; [done|]. rewrite fmap_cons. cbn [concat snd]. by rewrite app_assoc.
  - eapply Forall2_impl; [exact HF'|]. intros env' y (w & Hs & Hy). exists w. split; [done|].
    by eapply subjects_later_grows.
Qed.
End Runtime.

(** A runtime with a Shredder whose codec, CloneSum and PII methods were
    generated from the event sum type [st] and its variants [msgs]. *)
Record generated_runtime {A : AEAD} {W S C : Type} (s : Shredder.t W)
    (r : Aggregate.Runtime (W * DekCache.t) S C SumEvent) (msgs : string -> option Message)
    (st : CodegenSum.sumType) : Prop := {
  gr_shredder : Aggregate.rt_Shredder r = true;
  gr_codec : exists Marshal Unmarshal,
    Aggregate.rt_Codec r = CodegenSum.codec Marshal Unmarshal (CodegenSum.emitSumType st) /\
    forall go e b, Marshal go e = Ok b -> Unmarshal go b = Ok e;
  gr_compiles : CodegenSum.sum_compiles (CodegenSum.emitSumType st);
  gr_methods : Aggregate.rt_Methods r = sum_methods s msgs;
  gr_msgs : msgs_fine msgs
}.

(** C26: an aggregate with crypto-shredding, for messages in which no field is
    keyed by a sealed field, tenants without a bar in their id, and DEK caches
    that agree with the store (a process that forgot a subject elsewhere and
    still has its DEK cached is not covered).  An event that the runtime encodes
    for a stream is stored with its secret fields sealed under its subjects'
    keys.  When the stream is later loaded by a runtime without a state cache,
    after any subjects were forgotten while the others kept their keys, and the
    load succeeds, the state is the fold of exactly the events that were
    handled, with nothing but the fields of the forgotten subjects emptied.
    (With a state cache the plaintext outlives the subject's key.) *)
Theorem shredded_aggregate {A : AEAD} (AL : AEADLaws A) {W S C} (s : Shredder.t W) ok rows wraps current
    (SL : ShredLaws ok rows wraps current s) (NewV7 : M (W * DekCache.t) UUID)
    (r : Aggregate.Runtime (W * DekCache.t) S C SumEvent) msgs st sid :
  generated_runtime s r msgs st -> honest (s := s) -> tenant_plain (StreamID.Tenant sid) ->
  keys_silent (ok := ok) (rows := rows) (wraps := wraps) (current := current) NewV7 ->
  keys_silent (ok := ok) (rows := rows) (wraps := wraps) (current := current) (ReadStream (Aggregate.rt_Store r) sid 0) ->
  (forall cfg x w w' ev env, shred_ok (ok := ok) (rows := rows) (wraps := wraps) w ->
     Aggregate.encodeEvent NewV7 r sid cfg x w = (w', Ok ev) -> carries ev env ->
     stored (rows := rows) (wraps := wraps) r msgs sid (fst w') x env) /\
  (forall sh xs w w1 envs w2 state version, Aggregate.rt_StateCodec r = None ->
     shred_ok (ok := ok) (rows := rows) (wraps := wraps) w ->
     ReadStream (Aggregate.rt_Store r) sid 0 w = (w1, Ok envs) ->
     carries_events (rows := rows) (wraps := wraps) r msgs sid sh (fst w) envs xs ->
     Aggregate.Load r sid w = (w2, Ok (state, version)) ->
     state = foldl (Evolve (Aggregate.rt_Decider r)) (Initial (Aggregate.rt_Decider r)) (shredded_event msgs sid sh <$> xs)).
Proof.
  intros [Hsh (Marshal & Unmarshal & Hcodec & Hwire) Hcomp Hmeth Hmsgs] Hhon Ht HV7 Hread. split.
  - intros cfg x w w' ev env Hok He Hc.
    by apply (encode_stored (SL := SL) NewV7 r msgs st Marshal Unmarshal Hsh Hcodec Hmeth Hcomp Hwire Hmsgs sid Ht cfg x w w' ev env).
  - intros sh xs w w1 envs w2 state version Hno Hok Hr Hxs HL.
    destruct (Hread _ _ _ Hok Hr) as [Hok1 Hg1].
    unfold Aggregate.Load in HL. apply bind_Ok in HL as (w0 & base & Hb & HL).
    unfold Aggregate.cachedBase in Hb. rewrite Hno in Hb.
    injection Hb as <- <-.
    apply bind_Ok in HL as (w3 & envs' & He & HL). apply wrap_err_Ok in He. cbn [snd fst] in He, HL.
    rewrite Hr in He. injection He as <- <-. apply bind_Ok in HL as (w4 & [[state' v'] red'] & Hrep & HL).
    apply (replay_stored (SL := SL) r msgs Hsh Hmeth Hmsgs sid Ht sh envs xs) in Hrep as [-> _]; [|done| |done].
    + apply bind_Ok in HL as (w5 & [] & _ & HL). by injection HL as _ <- _.
    + eapply Forall2_impl; [exact Hxs|]. intros env y (w' & Hs & Hy). exists w'. split; [done|].
      by eapply subjects_later_grows.
Qed.
