(* ===== verification/Kms.v ===== *)
(** * Key stores (adapters/kms/inproc/inproc.go, adapters/kms/file/file.go)

    Both keep, per tenant, the list of its KEKs (version n is the nth) and wrap
    DEKs with AES-GCM; the file store also persists the lists.  The world they
    run in is a parameter: [keks] reads their map and [set_keks] replaces it. *)
From S2P Require Import Prelude Errors Streams Events Shred.

Notation Keks := (gmap string (list bytes)).

Section Aead.
Context {A : AEAD} {W : Type} (rand : Z -> M W bytes).

(** nonce || ciphertext || tag. *)
Definition aesGCMSeal (key plaintext : bytes) : M W bytes :=
  guard_err (NewCipher key) ≫= fun _ =>
  nonce ← rand (Z.of_nat NonceSize);
  mret (nonce ++ gcm_seal key nonce plaintext).

Definition aesGCMOpen (key sealed : bytes) : res bytes :=
  match NewCipher key with
  | Some e => Err e
  | None =>
      if bool_decide (length sealed < NonceSize)%nat
      then Err (ENew "ciphertext shorter than nonce")
      else
        match gcm_open key (take NonceSize sealed) (drop NonceSize sealed) with
        | None => Err (ENew "cipher: message authentication failed")
        | Some pt => Ok pt
        end
  end.
End Aead.

(** keks[tenantID]; a missing tenant has none. *)
Definition tenant_keks (m : Keks) (tenantID : string) : list bytes := default [] (m !! tenantID).

(** k.keks[tenantID] = append(k.keks[tenantID], kek) *)
Definition append_kek (tenantID : string) (kek : bytes) (m : Keks) : Keks :=
  <[tenantID := tenant_keks m tenantID ++ [kek]]> m.

(** ** inproc.go *)
Module Inproc.
Section Inproc.
Context {A : AEAD} {W : Type} (keks : W -> Keks) (set_keks : Keks -> W -> W) (rand : Z -> M W bytes).

Definition read_keks (tenantID : string) : M W (list bytes) := fun w => (w, Ok (tenant_keks (keks w) tenantID)).

Definition append_ (tenantID : string) (kek : bytes) : M W unit := fun w =>
  (set_keks (append_kek tenantID kek (keks w)) w, Ok tt).

Definition SetKEK (tenantID : string) (kek : bytes) : M W unit :=
  if negb (Z.of_nat (length kek) =? 32) then fail (ENew "inproc kms: KEK must be 32 bytes")
  else append_ tenantID kek.

Definition RotateKEK (tenantID : string) : M W Z :=
  kek ← wrap_err "inproc kms: rotate KEK" (rand 32);
  append_ tenantID kek ≫= fun _ =>
  ks ← read_keks tenantID;
  mret (u32 (Z.of_nat (length ks))).

Definition CurrentKEKVersion (tenantID : string) : M W Z :=
  ks ← read_keks tenantID;
  mret (u32 (Z.of_nat (length ks))).

(** The tenant's last KEK and its version, if it has one. *)
Definition last_kek (ks : list bytes) : option (bytes * Z) :=
  match last ks with Some k => Some (k, u32 (Z.of_nat (length ks))) | None => None end.

(** The map is read again under the write lock. *)
Definition activeKEK (tenantID : string) : M W (bytes * Z) :=
  ks ← read_keks tenantID;
  match last_kek ks with
  | Some r => mret r
  | None =>
      kek ← wrap_err "inproc kms: generate KEK" (rand 32);
      existing ← read_keks tenantID;
      match last_kek existing with
      | Some r => mret r
      | None => fun w => (set_keks (<[tenantID := [kek]]> (keks w)) w, Ok (kek, 1))
      end
  end.

Definition WrapDEK (tenantID : string) (dek : bytes) : M W (bytes * Z) :=
  kv ← activeKEK tenantID;
  wrapped ← aesGCMSeal rand (fst kv) dek;
  mret (wrapped, snd kv).

Definition UnwrapDEK (tenantID : string) (wrapped : bytes) (kekVersion : Z) : M W bytes :=
  ks ← read_keks tenantID;
  if (kekVersion =? 0) || (Z.of_nat (length ks) <? kekVersion)
  then fail (ENew "inproc kms: KEK version not available")
  else of_res (aesGCMOpen (default [] (ks !! Z.to_nat (kekVersion - 1))) wrapped).

Definition keyStore : KeyStore W := mkKeyStore W WrapDEK UnwrapDEK CurrentKEKVersion.
End Inproc.
End Inproc.

(** ** file.go

    The world of a process: its map, the contents of the file (the map that
    encoding/json reads back from it), and an oracle for the file system. *)
Module FileKMS.
Record World := mkWorld { f_keks : Keks; f_disk : option Keks; f_tick : nat }.

Section FileKMS.
Context {A : AEAD} (sys : nat -> option err) (rnd : nat -> Z -> bytes).

Definition syscall (f : World -> World) : M World unit := fun w =>
  match sys (f_tick w) with
  | Some e => (mkWorld (f_keks w) (f_disk w) (S (f_tick w)), Err e)
  | None => let w' := f w in (mkWorld (f_keks w') (f_disk w') (S (f_tick w)), Ok tt)
  end.

Definition rand (n : Z) : M World bytes := fun w =>
  (mkWorld (f_keks w) (f_disk w) (S (f_tick w)), Ok (rnd (f_tick w) n)).

(** A process start: New and load. *)
Definition New : M World unit := fun w =>
  match sys (f_tick w) with
  | Some e => (mkWorld ∅ (f_disk w) (S (f_tick w)), Err (EWrap "kms/file: load" e))
  | None => (mkWorld (default ∅ (f_disk w)) (f_disk w) (S (f_tick w)), Ok tt)
  end.

(** MkdirAll, WriteFile of the temporary file, Rename. *)
Definition save : M World unit :=
  syscall (fun w => w) ≫= fun _ =>
  syscall (fun w => w) ≫= fun _ =>
  syscall (fun w => mkWorld (f_keks w) (Some (f_keks w)) (f_tick w)).

Definition append_ (tenantID : string) (kek : bytes) : M World unit := fun w =>
  (mkWorld (append_kek tenantID kek (f_keks w)) (f_disk w) (f_tick w), Ok tt).

Definition read_keks (tenantID : string) : M World (list bytes) := fun w =>
  (w, Ok (tenant_keks (f_keks w) tenantID)).

Definition CurrentKEKVersion (tenantID : string) : M World Z :=
  ks ← read_keks tenantID;
  mret (u32 (Z.of_nat (length ks))).

Definition activeKEK (tenantID : string) : M World (bytes * Z) :=
  ks ← read_keks tenantID;
  match Inproc.last_kek ks with
  | Some r => mret r
  | None =>
      kek ← wrap_err "kms/file: generate KEK" (rand 32);
      append_ tenantID kek ≫= fun _ =>
      wrap_err "kms/file: save" save ≫= fun _ =>
      mret (kek, 1)
  end.

Definition WrapDEK (tenantID : string) (dek : bytes) : M World (bytes * Z) :=
  kv ← activeKEK tenantID;
  wrapped ← aesGCMSeal rand (fst kv) dek;
  mret (wrapped, snd kv).

(** Version 0 is the most recent. *)
Definition UnwrapDEK (tenantID : string) (wrapped : bytes) (kekVersion : Z) : M World bytes :=
  ks ← read_keks tenantID;
  if kekVersion =? 0 then
    match last ks with
    | None => fail (ENew "kms/file: no KEK versions for tenant")
    | Some kek => of_res (aesGCMOpen kek wrapped)
    end
  else if Z.of_nat (length ks) <? kekVersion then fail (ENew "kms/file: KEK version not available")
  else of_res (aesGCMOpen (default [] (ks !! Z.to_nat (kekVersion - 1))) wrapped).

Definition RotateKEK (tenantID : string) : M World Z :=
  kek ← wrap_err "kms/file: generate KEK" (rand 32);
  append_ tenantID kek ≫= fun _ =>
  wrap_err "kms/file: save after rotate" save ≫= fun _ =>
  ks ← read_keks tenantID;
  mret (u32 (Z.of_nat (length ks))).
End FileKMS.
End FileKMS.

(** ** What survives a restart *)

(** The file holds every KEK the process has. *)
Definition durable (w : FileKMS.World) : Prop := default ∅ (FileKMS.f_disk w) = FileKMS.f_keks w.

Section Durable.
Context {A : AEAD} (sys : nat -> option err) (rnd : nat -> Z -> bytes).

Lemma save_Ok w w' u : FileKMS.save sys w = (w', Ok u) -> durable w' /\ FileKMS.f_keks w' = FileKMS.f_keks w.
Proof.
  unfold FileKMS.save, mbind, M_bind, FileKMS.syscall. repeat (case_match; simplify_eq/=; try done).
  intros [= <- _]. simplify_eq/=. done.
Qed.

(** A KEK that was handed out without a failed save before it is on disk. *)
Lemma activeKEK_durable t w w' kek v :
  durable w -> FileKMS.activeKEK sys rnd t w = (w', Ok (kek, v)) -> durable w'.
Proof.
  intros Hd. unfold FileKMS.activeKEK, mbind, M_bind, FileKMS.read_keks. cbn [fst snd].
  destruct (Inproc.last_kek _) as [[k n]|]; [by intros [= <- _ _]|].
  unfold wrap_err, FileKMS.rand, FileKMS.append_. cbn.
  destruct (FileKMS.save sys _) as [w1 [u|e]] eqn:Hs; [|done]. apply save_Ok in Hs as [? _]. by intros [= <- _ _].
Qed.

Lemma RotateKEK_durable t w w' v :
  FileKMS.RotateKEK sys rnd t w = (w', Ok v) -> durable w'.
Proof.
  unfold FileKMS.RotateKEK, mbind, M_bind, FileKMS.read_keks, wrap_err, FileKMS.rand, FileKMS.append_. cbn.
  destruct (FileKMS.save sys _) as [w1 [u|e]] eqn:Hs; [|done]. apply save_Ok in Hs as [? _]. by intros [= <- _].
Qed.
End Durable.

Section KekFacts.
Context {A : AEAD} {AL : AEADLaws A}.

Lemma open_seal_kek kek iv dek :
  NewCipher kek = None -> length iv = NonceSize -> aesGCMOpen kek (iv ++ gcm_seal kek iv dek) = Ok dek.
Proof using AL.
  intros Hn Hiv. unfold aesGCMOpen. rewrite Hn, bool_decide_eq_false_2.
  - by rewrite take_app_length', drop_app_length', open_seal.
  - rewrite length_app, Hiv. lia.
Qed.

Lemma last_kek_spec ks kek v :
  Z.of_nat (length ks) < 2 ^ 32 -> Inproc.last_kek ks = Some (kek, v) ->
  v = Z.of_nat (length ks) /\ 0 < v /\ ks !! Z.to_nat (v - 1) = Some kek.
Proof.
  intros Hl. unfold Inproc.last_kek. destruct (last ks) as [k|] eqn:Hlast; [|done]. intros [= -> <-].
  rewrite u32_small by lia. rewrite last_lookup in Hlast.
  destruct ks as [|k0 ks]; [done|]. split_and!; [done|simpl; lia|]. rewrite <- Hlast. f_equal. simpl. lia.
Qed.

Lemma last_kek_None ks : Inproc.last_kek ks = None -> ks = [].
Proof. unfold Inproc.last_kek. destruct (last ks) eqn:Hl; [done|]. by apply last_None in Hl. Qed.

Lemma tenant_keks_empty t : Z.of_nat (length (tenant_keks ∅ t)) < 2 ^ 32.
Proof. unfold tenant_keks. by rewrite lookup_empty. Qed.

Lemma file_activeKEK_spec sys rnd t w w' kek v :
  Z.of_nat (length (tenant_keks (FileKMS.f_keks w) t)) < 2 ^ 32 ->
  FileKMS.activeKEK sys rnd t w = (w', Ok (kek, v)) ->
  0 < v /\ tenant_keks (FileKMS.f_keks w') t !! Z.to_nat (v - 1) = Some kek.
Proof.
  intros Hl. unfold FileKMS.activeKEK, mbind, M_bind, FileKMS.read_keks. cbn [fst snd].
  destruct (Inproc.last_kek _) as [[k n]|] eqn:Hlk.
  { intros [= <- -> ->]. by destruct (last_kek_spec _ _ _ Hl Hlk) as (_ & ? & ?). }
  apply last_kek_None in Hlk. unfold wrap_err, FileKMS.rand, FileKMS.append_. cbn.
  destruct (FileKMS.save sys _) as [w1 [u|e]] eqn:Hs; [|done]. apply save_Ok in Hs as [_ Hk]. cbn in Hk.
  intros [= <- <- <-]. split; [lia|]. rewrite Hk. unfold append_kek, tenant_keks in *.
  rewrite lookup_insert_eq. cbn. by rewrite Hlk.
Qed.
End KekFacts.

(** The key file survives a restart.  While the file holds the KEKs of the
    process, every DEK WrapDEK wraps can be unwrapped by the next process that
    loads the file, under the version that was returned. *)
Theorem file_kms_restart {A : AEAD} (AL : AEADLaws A) sys rnd
    (rnd_length : forall i n, 0 <= n -> Z.of_nat (length (rnd i n)) = n) t dek w w1 w2 wrapped v :
  (forall t, Z.of_nat (length (tenant_keks (FileKMS.f_keks w) t)) < 2 ^ 32) -> durable w ->
  FileKMS.WrapDEK sys rnd t dek w = (w1, Ok (wrapped, v)) -> FileKMS.New sys w1 = (w2, Ok tt) ->
  FileKMS.UnwrapDEK t wrapped v w2 = (w2, Ok dek).
Proof.
  intros Hl Hd. unfold FileKMS.WrapDEK, mbind, M_bind.
  destruct (FileKMS.activeKEK sys rnd t w) as [w' [[kek v']|e]] eqn:Ha; [|done].
  pose proof (activeKEK_durable _ _ _ _ _ _ _ Hd Ha) as Hd'.
  apply file_activeKEK_spec in Ha as [Hpos Hk]; [|done]. unfold aesGCMSeal. simpl.
  destruct (NewCipher kek) as [e|] eqn:Hn; [done|]. unfold mbind, M_bind. cbn. intros [= <- <- <-].
  unfold FileKMS.New. destruct (sys _); [done|]. cbn. intros [= <-].
  unfold FileKMS.UnwrapDEK, FileKMS.read_keks, mbind, M_bind. cbn. rewrite Hd'.
  destruct (Z.eqb_spec v' 0); [lia|]. pose proof (lookup_lt_Some _ _ _ Hk).
  destruct (Z.ltb_spec (Z.of_nat (length (tenant_keks (FileKMS.f_keks w') t))) v'); [lia|].
  rewrite Hk. cbn. unfold of_res. f_equal. apply open_seal_kek; [done|].
  pose proof (rnd_length (FileKMS.f_tick w') (Z.of_nat NonceSize) ltac:(lia)). lia.
Qed.

(** A save that fails leaves the new KEK in the process: the next WrapDEK uses
    it without saving, and after a restart the DEK it wrapped cannot be
    unwrapped. *)
Theorem file_kek_lost_after_failed_save {A : AEAD} (sys : nat -> option err) rnd t dek e :
  sys 1%nat = Some e -> (forall i, i <> 1%nat -> sys i = None) ->
  (forall i, Z.of_nat (length (rnd i 32)) = 32) ->
  let w0 := FileKMS.mkWorld ∅ None 0 in
  let w1 := fst (FileKMS.WrapDEK sys rnd t dek w0) in
  let w2 := fst (FileKMS.WrapDEK sys rnd t dek w1) in
  let w3 := fst (FileKMS.New sys w2) in
  (exists e', snd (FileKMS.WrapDEK sys rnd t dek w0) = Err e') /\
  (exists wrapped, snd (FileKMS.WrapDEK sys rnd t dek w1) = Ok (wrapped, 1) /\
     forall v, v <> 0 -> 0 <= v -> exists e', snd (FileKMS.UnwrapDEK t wrapped v w3) = Err e').
Proof.
  intros H1 Hother Hlen w0.
  assert (Hw1 : exists e', FileKMS.WrapDEK sys rnd t dek w0 =
    (FileKMS.mkWorld {[t := [rnd 0%nat 32]]} None 2, Err e')).
  { unfold FileKMS.WrapDEK, FileKMS.activeKEK, FileKMS.read_keks, mbind, M_bind, tenant_keks. cbn.
    rewrite lookup_empty. cbn. unfold FileKMS.save, FileKMS.syscall, wrap_err, mbind, M_bind. cbn. rewrite H1.
    unfold append_kek, tenant_keks. rewrite lookup_empty. by eexists. }
  destruct Hw1 as [e1 Hw1]. intros w1. unfold w1. rewrite Hw1. split; [by eexists|].
  unfold FileKMS.WrapDEK, FileKMS.activeKEK, FileKMS.read_keks, mbind, M_bind, tenant_keks. cbn.
  rewrite lookup_singleton_eq. cbn.
  unfold aesGCMSeal, NewCipher, guard_err. rewrite Hlen. cbn. unfold mbind, M_bind. cbn.
  eexists. split; [reflexivity|]. intros v Hv Hpos. unfold FileKMS.New. cbn. rewrite Hother by lia. cbn.
  unfold FileKMS.UnwrapDEK, FileKMS.read_keks, mbind, M_bind, tenant_keks. cbn. rewrite ?lookup_empty. cbn.
  change (Z.of_nat 0) with 0. destruct (Z.eqb_spec v 0); [done|]. rewrite (proj2 (Z.ltb_lt 0 v)) by lia. by eexists.
Qed.
