(* ===== verification/MemSubjects.v ===== *)
(** * The in-memory subject store of the tests (estest/subjectstore.go)

    [MemSubjectStore] keeps its rows under the text tenant|subject.  For tenants
    without a bar it is a map from tenants and subjects to rows, on which a
    forgotten subject stays forgotten until it is written again. *)
From S2P Require Import Prelude Errors Streams Events Shred.

Module MemSubjects.
(** The rows, and the readings of the clock so far. *)
Record World := mkWorld { rows : gmap string SubjectKey; ticks : nat }.

Section MemSubjects.
Context (now : nat -> Time).

Definition NewMemSubjectStore : World := mkWorld ∅ 0.
Definition memSubjectStoreKey (tenant subject : string) : string := tenant +:+ "|" +:+ subject.

Definition GetSubjectKey (tenantID subject : string) : M World SubjectKey := fun w =>
  match rows w !! memSubjectStoreKey tenantID subject with
  | None => (w, Err (ESent ErrSubjectKeyNotFound))
  | Some row => (w, Ok row)
  end.

Definition UpsertSubjectKey (tenantID subject : string) (dekWrapped : bytes) (kekVersion : Z) : M World unit := fun w =>
  (mkWorld (<[memSubjectStoreKey tenantID subject := mkSubjectKey tenantID subject dekWrapped kekVersion (now (ticks w)) None]> (rows w))
     (S (ticks w)), Ok tt).

Definition ForgetSubject (tenantID subject : string) : M World unit := fun w =>
  match rows w !! memSubjectStoreKey tenantID subject with
  | None => (w, Err (ESent ErrSubjectKeyNotFound))
  | Some row =>
      (mkWorld (<[memSubjectStoreKey tenantID subject :=
          mkSubjectKey (sk_TenantID row) (sk_Subject row) [] (sk_KEKVersion row) (sk_CreatedAt row) (Some (now (ticks w)))]> (rows w))
        (S (ticks w)), Ok tt)
  end.

Definition ListStaleSubjectKeys (tenantID : string) (currentVersion limit : Z) : M World (list SubjectKey) := mret [].

Definition store : SubjectStore World := mkSubjectStore World GetSubjectKey UpsertSubjectKey ForgetSubject ListStaleSubjectKeys.
End MemSubjects.
End MemSubjects.

(** ** The specification: a map by tenant and subject *)
Section MemFacts.
Import MemSubjects.
Context (now : nat -> Time).

(** The rows are those of [m], whose tenants have no bar. *)
Definition represents (w : World) (m : gmap (string * string) SubjectKey) : Prop :=
  forall t u, tenant_plain t -> rows w !! memSubjectStoreKey t u = m !! (t, u).

Lemma key_inj t u t' u' : tenant_plain t -> tenant_plain t' -> memSubjectStoreKey t u = memSubjectStoreKey t' u' -> (t, u) = (t', u').
Proof. intros Ht Ht' H. by destruct (cacheKey_inj _ _ _ _ Ht Ht' H) as [-> ->]. Qed.

Lemma represents_insert w m t u row n : tenant_plain t -> represents w m ->
  represents (mkWorld (<[memSubjectStoreKey t u := row]> (rows w)) n) (<[(t, u) := row]> m).
Proof.
  intros Ht Hr t' u' Ht'. simpl. destruct (decide ((t, u) = (t', u'))) as [[= -> ->]|Hn]; [by rewrite !lookup_insert_eq|].
  rewrite !lookup_insert_ne; [by apply Hr|done|]. intros H. by apply Hn, key_inj.
Qed.

(** Every call on a tenant without a bar does to the rows what it does to the map. *)
Lemma mem_store_refines w m t u : represents w m -> tenant_plain t ->
  GetSubjectKey t u w = (w, match m !! (t, u) with Some row => Ok row | None => Err (ESent ErrSubjectKeyNotFound) end) /\
  (forall d v, exists w', UpsertSubjectKey now t u d v w = (w', Ok tt) /\
     represents w' (<[(t, u) := mkSubjectKey t u d v (now (ticks w)) None]> m)) /\
  match m !! (t, u) with
  | None => ForgetSubject now t u w = (w, Err (ESent ErrSubjectKeyNotFound))
  | Some row => exists w', ForgetSubject now t u w = (w', Ok tt) /\
      represents w' (<[(t, u) := mkSubjectKey (sk_TenantID row) (sk_Subject row) [] (sk_KEKVersion row) (sk_CreatedAt row) (Some (now (ticks w)))]> m)
  end.
Proof.
  intros Hr Ht. unfold GetSubjectKey, ForgetSubject. rewrite (Hr t u Ht). split_and!.
  - by destruct (m !! (t, u)).
  - intros d v. eexists. split; [reflexivity|]. by apply represents_insert.
  - destruct (m !! (t, u)) as [row|]; [|done]. eexists. split; [reflexivity|]. by apply represents_insert.
Qed.

(** With a bar in the tenant, one tenant reads the key of another. *)
Lemma mem_store_mixes_tenants :
  let w := fst (UpsertSubjectKey now "a|b" "c" [Byte.x01] 1 NewMemSubjectStore) in
  exists row, GetSubjectKey "a" "b|c" w = (w, Ok row) /\ sk_TenantID row = "a|b".
Proof. eexists. split; reflexivity. Qed.
End MemFacts.
