(* ===== verification/Conformance.v ===== *)
(** * The store conformance suite (estest/conformance.go)

    The seven tests every storage adapter must pass, as programs on an es.Store
    that record whether a check failed.  [ConformingStore] is a specification of
    a store by what it holds (the envelopes of every stream, the claims, the
    events by id and the highest position); every store that meets it passes the
    suite.  SqliteConformance.v shows that the SQLite adapter meets it. *)
From stdpp Require Import pretty.
From S2P Require Import Prelude Errors Streams Events Store.

Module Suite.
Section Suite.
Context {W : Type} (s : Store W) (uuid_New : nat -> UUID) (time_Now : nat -> Time).

(** [%d] of a number that is not negative. *)
Definition format_uint (n : Z) : string := pretty (Z.to_N n).

(** The store, tenantCounter.n, the ids and times drawn so far, and whether the
    test has failed. *)
Record T := mkT { t_world : W; t_tenants : Z; t_draws : nat; t_failed : bool }.

(** A test function: [None] once t.Fatalf has stopped it. *)
Definition Test (A : Type) : Type := T -> T * option A.
#[global] Instance Test_ret : MRet Test := fun A a t => (t, Some a).
#[global] Instance Test_bind : MBind Test := fun A B k m t =>
  match m t with (t', Some a) => k a t' | (t', None) => (t', None) end.

Definition fatal {A} : Test A := fun t => (mkT (t_world t) (t_tenants t) (t_draws t) true, None).
(** [if bad { t.Fatalf(...) }] and [if bad { t.Errorf(...) }]. *)
Definition fatal_if (bad : bool) : Test unit := if bad then fatal else mret tt.
Definition error_if (bad : bool) : Test unit := fun t =>
  (if bad then mkT (t_world t) (t_tenants t) (t_draws t) true else t, Some tt).

Definition call {A} (m : M W A) : Test (res A) := fun t =>
  let '(w, r) := m (t_world t) in (mkT w (t_tenants t) (t_draws t) (t_failed t), Some r).
Definition must {A} (r : res A) : Test A := match r with Ok a => mret a | Err _ => fatal end.
(** [if !errors.Is(err, sent) { t.Fatalf(...) }] *)
Definition must_fail {A} (r : res A) (sent : sentinel) : Test unit :=
  match r with Ok _ => fatal | Err e => fatal_if (negb (errors_Is e sent)) end.

Definition draw {A} (f : nat -> A) : Test A := fun t =>
  (mkT (t_world t) (t_tenants t) (S (t_draws t)) (t_failed t), Some (f (t_draws t))).

(** [.Truncate(time.Microsecond)] *)
Definition truncate_us (t : Time) : Time := t - t mod 1000.

Definition made (typeURL : string) (id : UUID) (at_ : Time) (corr caus cmd : UUID) : EventToAppend :=
  mkEventToAppend id typeURL 1 (truncate_us at_) corr caus cmd
    (Actor.mk Actor.ActorUser "u:test" "" "" ∅) (bytes_of_str "test-payload") [] [].

Definition MakeEvent (typeURL : string) : Test EventToAppend :=
  id ← draw uuid_New; at_ ← draw time_Now;
  corr ← draw uuid_New; caus ← draw uuid_New; cmd ← draw uuid_New;
  mret (made typeURL id at_ corr caus cmd).

Definition MustStream (tenant typ id : string) : Test StreamID.t := must (StreamID.NewStreamID tenant typ id).

Definition freshTenant (prefix : string) : Test string := fun t =>
  let n := u64 (t_tenants t + 1) in
  (mkT (t_world t) n (t_draws t) (t_failed t), Some (prefix +:+ "-" +:+ format_uint n)).

Definition params (sid : StreamID.t) (expected : Z) (evs : list EventToAppend) (ops : list ConstraintOp) : AppendParams :=
  mkAppendParams sid expected evs ops None "" 0 false.

(** [_, err := s.Append(...); if err != nil { t.Fatalf(...) }] *)
Definition append (sid : StreamID.t) (expected : Z) (evs : list EventToAppend) (ops : list ConstraintOp) : Test AppendResult :=
  r ← call (Append s (params sid expected evs ops)); must r.
Definition read (sid : StreamID.t) (from : Z) : Test (list Envelope.t) :=
  r ← call (ReadStream s sid from); must r.

Definition neqb {A} `{EqDecision A} (x y : A) : bool := negb (bool_decide (x = y)).

Definition testAppendAndReadStream : Test unit :=
  tenant ← freshTenant "rw";
  sid ← MustStream tenant "user" "1";
  ev ← MakeEvent "myapp.user.v1.UserRegistered";
  result ← append sid 0 [ev] [];
  _ ← fatal_if (neqb (ar_StartVersion result) 1 || neqb (ar_EndVersion result) 1);
  _ ← fatal_if (ar_StartGlobalPosition result =? 0);
  events ← read sid 0;
  match events with
  | [got] =>
      _ ← error_if (neqb (Envelope.EventID got) (ea_EventID ev));
      _ ← error_if (neqb (Envelope.Version got) 1);
      _ ← error_if (neqb (Envelope.GlobalPosition got) (ar_StartGlobalPosition result));
      _ ← error_if (neqb (Envelope.TypeURL got) (ea_TypeURL ev));
      _ ← error_if (neqb (Actor.Principal (Envelope.Actor got)) "u:test");
      _ ← error_if (neqb (str_of_bytes (Envelope.Payload got)) "test-payload");
      error_if (neqb (StreamID.Type_ (Envelope.StreamID got)) "user" || neqb (StreamID.ID (Envelope.StreamID got)) "1")
  | _ => fatal
  end.

Definition testOptimisticConcurrency : Test unit :=
  tenant ← freshTenant "oc";
  sid ← MustStream tenant "user" "1";
  ev1 ← MakeEvent "Initial"; _ ← append sid 0 [ev1] [];
  ev2 ← MakeEvent "First"; _ ← append sid 1 [ev2] [];
  ev3 ← MakeEvent "Second"; r ← call (Append s (params sid 1 [ev3] []));
  _ ← must_fail r ErrConflict;
  events ← read sid 0;
  fatal_if (neqb (length events) 2%nat).

Definition emailClaim : ConstraintOp := mkConstraintOp ClaimConstraint "email" "a@example.com".

Definition testUniqueConstraintClaim : Test unit :=
  tenant ← freshTenant "uc";
  sid1 ← MustStream tenant "user" "1";
  sid2 ← MustStream tenant "user" "2";
  ev1 ← MakeEvent "Created"; _ ← append sid1 0 [ev1] [emailClaim];
  ev2 ← MakeEvent "Created"; r ← call (Append s (params sid2 0 [ev2] [emailClaim]));
  _ ← must_fail r ErrConstraintViolated;
  events ← read sid2 0;
  fatal_if (neqb (length events) 0%nat).

(** The two nested loops, over the pairs of an index and a tenant. *)
Fixpoint monotonicLoop (rounds : list (Z * string)) (last : Z) : Test unit :=
  match rounds with
  | [] => mret tt
  | (i, tenant) :: rounds' =>
      sid ← MustStream tenant "user" ("u" +:+ format_uint i);
      ev ← MakeEvent "Created";
      result ← append sid 0 [ev] [];
      _ ← fatal_if (ar_StartGlobalPosition result <=? last);
      monotonicLoop rounds' (ar_StartGlobalPosition result)
  end.

Definition testGlobalPositionMonotonic : Test unit :=
  a ← freshTenant "mono-a";
  b ← freshTenant "mono-b";
  monotonicLoop (seqZ 0 5 ≫= fun i => [(i, a); (i, b)]) 0.

Fixpoint appendLoop (sid : StreamID.t) (rounds : list Z) : Test unit :=
  match rounds with
  | [] => mret tt
  | i :: rounds' => ev ← MakeEvent "Event"; _ ← append sid (u64 i) [ev] []; appendLoop sid rounds'
  end.

Definition testReadStreamFromVersion : Test unit :=
  tenant ← freshTenant "paginate";
  sid ← MustStream tenant "user" "1";
  _ ← appendLoop sid (seqZ 0 3);
  events ← read sid 2;
  match events with
  | [e] =>
      _ ← error_if (neqb (Envelope.Version e) 3);
      r ← call (CurrentStreamVersion s sid);
      v ← must r;
      error_if (neqb v 3)
  | _ => fatal
  end.

Definition testGetEventByID : Test unit :=
  tenant ← freshTenant "byid";
  sid ← MustStream tenant "user" "1";
  ev ← MakeEvent "Created"; _ ← append sid 0 [ev] [];
  r ← call (GetEventByID s tenant (ea_EventID ev));
  got ← must r;
  _ ← error_if (neqb (Envelope.EventID got) (ea_EventID ev));
  id ← draw uuid_New;
  r' ← call (GetEventByID s tenant id);
  must_fail r' ErrEventNotFound.

Definition testMultiEventAppend : Test unit :=
  tenant ← freshTenant "multi";
  sid ← MustStream tenant "user" "1";
  ev1 ← MakeEvent "First"; ev2 ← MakeEvent "Second"; ev3 ← MakeEvent "Third";
  result ← append sid 0 [ev1; ev2; ev3] [];
  _ ← error_if (neqb (ar_StartVersion result) 1 || neqb (ar_EndVersion result) 3);
  _ ← error_if (neqb (u64 (ar_EndGlobalPosition result - ar_StartGlobalPosition result)) 2);
  stored ← read sid 0;
  _ ← fatal_if (neqb (length stored) 3%nat);
  error_if (neqb (Envelope.Version <$> stored) (seqZ 1 (Z.of_nat (length stored)))).

(** t.Run: a subtest that stops does not stop the suite; its failure is the
    suite's. *)
Definition Run (test : Test unit) (t : T) : T := fst (test t).

Definition tests : list (Test unit) :=
  [testAppendAndReadStream; testOptimisticConcurrency; testUniqueConstraintClaim; testGlobalPositionMonotonic;
   testReadStreamFromVersion; testGetEventByID; testMultiEventAppend].

Definition RunStoreConformance (t : T) : T := foldl (fun t test => Run test t) t tests.
End Suite.
End Suite.

(** ** The specification *)

(** The claims after a list of operations of one stream, or None when one of them
    claims what is held. *)
Fixpoint claims_after (tenant stream : string) (ops : list ConstraintOp) (m : gmap (string * string * string) string)
    : option (gmap (string * string * string) string) :=
  match ops with
  | [] => Some m
  | op :: ops' =>
      let k := (tenant, co_Scope op, co_Value op) in
      if co_Op op =? ClaimConstraint then
        match m !! k with Some _ => None | None => claims_after tenant stream ops' (<[k := stream]> m) end
      else if co_Op op =? ReleaseConstraint then claims_after tenant stream ops' (delete k m)
      else None
  end.

(** What a store holds. *)
Record Held := mkHeld {
  h_stream : StreamID.t -> list Envelope.t;
  h_claims : gmap (string * string * string) string;
  h_event : string -> UUID -> option Envelope.t;
  h_top : Z
}.

(** The same up to [n] positions that were drawn in vain. *)
Definition unchanged (n : Z) (h h' : Held) : Prop :=
  (forall sid, StreamID.Validate sid = None -> h_stream h' sid = h_stream h sid) /\
  h_claims h' = h_claims h /\ (forall t id, h_event h' t id = h_event h t id) /\
  h_top h <= h_top h' <= h_top h + n.

(** [envs] were appended to the stream [sid]. *)
Definition extended (sid : StreamID.t) (envs : list Envelope.t) (h h' : Held) : Prop :=
  let n := Z.of_nat (length envs) in
  h_stream h' sid = h_stream h sid ++ envs /\
  (forall sid', StreamID.Validate sid' = None -> sid' <> sid -> h_stream h' sid' = h_stream h sid') /\
  Forall (fun e => Envelope.StreamID e = sid /\ h_event h' (StreamID.Tenant sid) (Envelope.EventID e) = Some e) envs /\
  (forall t id, ~ (t = StreamID.Tenant sid /\ id ∈ Envelope.EventID <$> envs) -> h_event h' t id = h_event h t id) /\
  Envelope.Version <$> envs = seqZ (Z.of_nat (length (h_stream h sid)) + 1) n /\
  Envelope.GlobalPosition <$> envs = seqZ (h_top h + 1) n /\ h_top h' = h_top h + n.

Class ConformingStore {W : Type} (St : Store W) (ok : W -> Prop) (held : W -> Held)
    (accepts : StreamID.t -> EventToAppend -> Prop) := {
  cs_top : forall w, ok w -> 0 <= h_top (held w);
  cs_append : forall sid evs ops m w, ok w -> StreamID.Validate sid = None -> evs <> [] ->
    h_top (held w) + Z.of_nat (length evs) <= max_i64 -> Forall (accepts sid) evs ->
    NoDup (ea_EventID <$> evs) -> Forall (fun ev => h_event (held w) (StreamID.Tenant sid) (ea_EventID ev) = None) evs ->
    claims_after (StreamID.Tenant sid) (StreamID.Canonical sid) ops (h_claims (held w)) = Some m ->
    let expected := Z.of_nat (length (h_stream (held w) sid)) in
    exists w' res envs, Append St (Suite.params sid expected evs ops) w = (w', Ok res) /\ ok w' /\
      Forall2 carries evs envs /\ extended sid envs (held w) (held w') /\ h_claims (held w') = m /\
      ar_StartVersion res = expected + 1 /\ ar_EndVersion res = expected + Z.of_nat (length evs) /\
      ar_StartGlobalPosition res = h_top (held w) + 1 /\ ar_EndGlobalPosition res = h_top (held w) + Z.of_nat (length evs);
  cs_conflict : forall sid expected evs w, ok w -> StreamID.Validate sid = None -> evs <> [] ->
    0 <= expected < Z.of_nat (length (h_stream (held w) sid)) -> Forall (accepts sid) evs ->
    exists w' e, Append St (Suite.params sid expected evs []) w = (w', Err e) /\ errors_Is e ErrConflict = true /\
      ok w' /\ unchanged (Z.of_nat (length evs)) (held w) (held w');
  cs_claimed : forall sid expected evs ops w, ok w -> StreamID.Validate sid = None -> evs <> [] ->
    claims_after (StreamID.Tenant sid) (StreamID.Canonical sid) ops (h_claims (held w)) = None ->
    Forall (fun op => co_Op op = ClaimConstraint) ops ->
    exists w' e, Append St (Suite.params sid expected evs ops) w = (w', Err e) /\
      errors_Is e ErrConstraintViolated = true /\ ok w' /\ unchanged (Z.of_nat (length evs)) (held w) (held w');
  cs_read : forall sid v w, ok w -> StreamID.Validate sid = None -> 0 <= v < 2 ^ 63 ->
    exists w', ReadStream St sid v w = (w', Ok (drop (Z.to_nat v) (h_stream (held w) sid))) /\
      ok w' /\ unchanged 0 (held w) (held w');
  cs_current : forall sid w, ok w -> StreamID.Validate sid = None ->
    exists w', CurrentStreamVersion St sid w = (w', Ok (Z.of_nat (length (h_stream (held w) sid)))) /\
      ok w' /\ unchanged 0 (held w) (held w');
  cs_event : forall t id w, ok w ->
    exists w' r, GetEventByID St t id w = (w', r) /\ ok w' /\ unchanged 0 (held w) (held w') /\
      match h_event (held w) t id with
      | Some e => r = Ok e
      | None => exists e, r = Err e /\ errors_Is e ErrEventNotFound = true
      end
}.

(** ** A conforming store passes *)
Section Passes.
Import Suite.
Context {W : Type} {St : Store W} {ok : W -> Prop} {held : W -> Held} {accepts : StreamID.t -> EventToAppend -> Prop}
  {CS : ConformingStore St ok held accepts} (uuid_New : nat -> UUID) (time_Now : nat -> Time).

(** uuid.New does not repeat, and the adapter takes the events of the suite, whose
    texts are ASCII. *)
Context (Huuid : Inj (=) (=) uuid_New)
  (Hacc : forall sid typeURL n corr caus cmd id, StreamID.Validate sid = None ->
     str_ascii (StreamID.Tenant sid) = true -> str_ascii typeURL = true ->
     accepts sid (made typeURL id (time_Now n) corr caus cmd)).

(** The ids from the [j]-th on are unknown, the streams and claims of the tenants
    [ts] are unused, and there is room for [n] more positions. *)
Record ready (ts : list string) (n : Z) (w : W) (j : nat) : Prop := mk_ready {
  rd_ok : ok w;
  rd_room : h_top (held w) + n <= max_i64;
  rd_ids : forall k tenant, (j <= k)%nat -> h_event (held w) tenant (uuid_New k) = None;
  rd_streams : forall sid, StreamID.Validate sid = None -> StreamID.Tenant sid ∈ ts -> h_stream (held w) sid = [];
  rd_claims : forall tenant scope value, tenant ∈ ts -> h_claims (held w) !! (tenant, scope, value) = None
}.

Lemma ready_draws ts n w j j' : (j <= j')%nat -> ready ts n w j -> ready ts n w j'.
Proof. intros Hj [? ? Hi ? ?]. split; try done. intros k tenant Hk. apply Hi. lia. Qed.

Lemma ready_fewer t ts n w j : ready (t :: ts) n w j -> ready ts n w j.
Proof. intros [? ? ? Hs Hc]. split; try done; [intros; apply Hs|intros; apply Hc]; set_solver. Qed.

Lemma ready_unchanged ts n m w w' j : ready ts (n + m) w j -> ok w' -> unchanged m (held w) (held w') -> ready ts n w' j.
Proof.
  intros [? ? Hi Hs Hc] Hok (Us & Uc & Ue & Ut). split; [done|lia| | |].
  - intros. rewrite Ue. by apply Hi.
  - intros. rewrite Us by done. by apply Hs.
  - intros. rewrite Uc. by apply Hc.
Qed.

Lemma claims_after_other t stream ops : forall m m' t' scope value,
  claims_after t stream ops m = Some m' -> t' <> t -> m' !! (t', scope, value) = m !! (t', scope, value).
Proof.
  induction ops as [|op ops IH]; intros m m' t' scope value; cbn [claims_after]; [by intros [= ->]|].
  intros H Hn. assert (Hk : (t, co_Scope op, co_Value op) <> (t', scope, value)) by congruence.
  destruct (co_Op op =? ClaimConstraint).
  - destruct (m !! _); [done|]. apply IH with (t' := t') (scope := scope) (value := value) in H; [|done].
    by rewrite H, lookup_insert_ne.
  - destruct (co_Op op =? ReleaseConstraint); [|done].
    apply IH with (t' := t') (scope := scope) (value := value) in H; [|done]. by rewrite H, lookup_delete_ne.
Qed.

(** An Append of events that were drawn since [j]. *)
Lemma append_run sid evs ks ops m ts n w j j' :
  0 <= n -> ready ts (n + Z.of_nat (length evs)) w j -> StreamID.Validate sid = None -> StreamID.Tenant sid ∉ ts ->
  evs <> [] -> Forall (accepts sid) evs -> ea_EventID <$> evs = uuid_New <$> ks -> NoDup ks ->
  Forall (fun i => j <= i < j')%nat ks ->
  claims_after (StreamID.Tenant sid) (StreamID.Canonical sid) ops (h_claims (held w)) = Some m ->
  let expected := Z.of_nat (length (h_stream (held w) sid)) in
  exists w' res envs, Append St (params sid expected evs ops) w = (w', Ok res) /\ ready ts n w' j' /\
    Forall2 carries evs envs /\ extended sid envs (held w) (held w') /\ h_claims (held w') = m /\
    ar_StartVersion res = expected + 1 /\ ar_EndVersion res = expected + Z.of_nat (length evs) /\
    ar_StartGlobalPosition res = h_top (held w) + 1 /\ ar_EndGlobalPosition res = h_top (held w) + Z.of_nat (length evs).
Proof.
  intros Hn [Hok Hroom Hi Hs Hc] Hv Ht Hne Ha Hids Hnd Hr Hm expected.
  rewrite Forall_forall in Hr.
  assert (Hunknown : forall id, id ∈ uuid_New <$> ks -> exists i, id = uuid_New i /\ (j <= i < j')%nat).
  { intros id (i & -> & Hin)%list_elem_of_fmap. eauto. }
  destruct (cs_append (ConformingStore := CS) sid evs ops m w) as (w' & res & envs & HA & Hok' & Hcar & Hext & Hcl & Hres);
    try done.
  { lia. }
  { rewrite Hids. by apply NoDup_fmap. }
  { apply Forall_forall. intros ev Hin. destruct (Hunknown (ea_EventID ev)) as (i & -> & ?).
    { rewrite <- Hids. by apply list_elem_of_fmap_2. } apply Hi. lia. }
  exists w', res, envs. split; [done|]. split; [|done].
  destruct Hext as (_ & Ho & _ & He & _ & _ & Htop). rewrite <- (Forall2_length _ _ _ Hcar) in Htop.
  assert (Heids : Envelope.EventID <$> envs = uuid_New <$> ks).
  { rewrite <- Hids. clear -Hcar. induction Hcar as [|ev e evs envs Hc _ IH]; [done|]. rewrite !fmap_cons, IH. f_equal. apply Hc. }
  split; [done|lia| | |].
  - intros k tenant Hk. rewrite He; [apply Hi|].
    + assert (Hj : exists i, i ∈ ks) by (destruct ks; [destruct evs; done|eexists; by left]).
      destruct Hj as [i Hin]. specialize (Hr i Hin). lia.
    + intros [-> Hin]. rewrite Heids in Hin. destruct (Hunknown _ Hin) as (i & ->%Huuid & ?). lia.
  - intros sid' Hv' Hin. rewrite Ho; [by apply Hs|done|]. by intros ->.
  - intros tenant scope value Hin. rewrite Hcl, (claims_after_other _ _ _ _ _ _ _ _ Hm); [by apply Hc|]. by intros ->.
Qed.

(** ** Running a test *)
Lemma tbind_run {A B} (m : Test (W := W) A) (k : A -> Test (W := W) B) t t' a :
  m t = (t', Some a) -> (m ≫= k) t = k a t'.
Proof. intros H. unfold mbind, Test_bind. by rewrite H. Qed.

Lemma neqb_false {A} `{EqDecision A} (x y : A) : x = y -> neqb x y = false.
Proof. intros ->. unfold neqb. by rewrite bool_decide_eq_true_2. Qed.

Lemma error_pass {B} (b : bool) (k : unit -> Test (W := W) B) t : b = false -> (error_if b ≫= k) t = k tt t.
Proof. by intros ->. Qed.
Lemma fatal_pass {B} (b : bool) (k : unit -> Test (W := W) B) t : b = false -> (fatal_if b ≫= k) t = k tt t.
Proof. by intros ->. Qed.
Lemma last_error_pass (b : bool) (t : T (W := W)) : b = false -> error_if b t = (t, Some tt).
Proof. by intros ->. Qed.
Lemma last_fatal_pass (b : bool) (t : T (W := W)) : b = false -> fatal_if b t = (t, Some tt).
Proof. by intros ->. Qed.

Lemma call_run {A} (m : M W A) w c j f w' r : m w = (w', r) -> call m (mkT w c j f) = (mkT w' c j f, Some r).
Proof. intros H. unfold call. simpl. by rewrite H. Qed.

Lemma append_test sid ex evs ops w c j w' r :
  Append St (params sid ex evs ops) w = (w', Ok r) -> append St sid ex evs ops (mkT w c j false) = (mkT w' c j false, Some r).
Proof. intros H. unfold append. erewrite tbind_run by by apply call_run. done. Qed.

(** A read by a test. *)
Lemma read_test sid v w c j ts n : ready ts n w j -> StreamID.Validate sid = None -> 0 <= v < 2 ^ 63 ->
  exists w', read St sid v (mkT w c j false) = (mkT w' c j false, Some (drop (Z.to_nat v) (h_stream (held w) sid))) /\
    ready ts n w' j /\ unchanged 0 (held w) (held w').
Proof.
  intros Hr Hv Hb. destruct (cs_read (ConformingStore := CS) sid v w) as (w' & HR & Hok & Hu); try done; [apply Hr|].
  exists w'. split; [|split; [|done]].
  - unfold read. erewrite tbind_run by by apply call_run. done.
  - apply (ready_unchanged _ _ 0 w); [|done|done]. by rewrite Z.add_0_r.
Qed.

Definition tenantOf (prefix : string) (c : Z) : string := prefix +:+ "-" +:+ format_uint (u64 c).

Lemma stream_run t c j (w : W) id : t <> "" -> StreamID.slugRe id = true ->
  MustStream t "user" id (mkT w c j false) = (mkT w c j false, Some (StreamID.mk t "user" id)) /\
  StreamID.Validate (StreamID.mk t "user" id) = None.
Proof.
  intros Ht Hid. assert (Hv : StreamID.Validate (StreamID.mk t "user" id) = None).
  { unfold StreamID.Validate. simpl. rewrite decide_False by done. by rewrite Hid. }
  split; [|done]. unfold MustStream, StreamID.NewStreamID. by rewrite Hv.
Qed.

Lemma tenantOf_nonempty prefix c : prefix <> "" -> tenantOf prefix c <> "".
Proof. by destruct prefix. Qed.

Lemma tenantOf_ascii prefix c : str_ascii prefix = true -> str_ascii (tenantOf prefix c) = true.
Proof. intros Hp. apply str_ascii_app; [done|]. apply (str_ascii_app "-"); [done|]. apply pretty_ascii. Qed.

(** A test begins with a tenant and a stream. *)
Lemma opened_valid prefix c : prefix <> "" -> StreamID.Validate (StreamID.mk (tenantOf prefix c) "user" "1") = None.
Proof. intros Hp. unfold StreamID.Validate. by rewrite decide_False by by apply tenantOf_nonempty. Qed.

Lemma opening {B} prefix c j w (k : string -> StreamID.t -> Test (W := W) B) : prefix <> "" ->
  (tenant ← freshTenant prefix; sid ← MustStream tenant "user" "1"; k tenant sid) (mkT w c j false) =
    k (tenantOf prefix (c + 1)) (StreamID.mk (tenantOf prefix (c + 1)) "user" "1") (mkT w (u64 (c + 1)) j false).
Proof.
  intros Hp. erewrite tbind_run by reflexivity. apply tbind_run. apply stream_run; [by apply tenantOf_nonempty|done].
Qed.

(** One event is made and appended to a stream. *)
Definition made_at (typeURL : string) (j : nat) : EventToAppend :=
  made typeURL (uuid_New j) (time_Now (S j)) (uuid_New (S (S j))) (uuid_New (S (S (S j)))) (uuid_New (S (S (S (S j))))).

Lemma make_run {B} typeURL c j w (k : EventToAppend -> Test (W := W) B) :
  (MakeEvent uuid_New time_Now typeURL ≫= k) (mkT w c j false) = k (made_at typeURL j) (mkT w c (5 + j) false).
Proof. done. Qed.

Lemma one_append sid typeURL ex ops m ts n (w : W) j :
  0 <= n -> ready ts (n + 1) w j -> StreamID.Validate sid = None -> StreamID.Tenant sid ∉ ts ->
  str_ascii (StreamID.Tenant sid) = true -> str_ascii typeURL = true ->
  claims_after (StreamID.Tenant sid) (StreamID.Canonical sid) ops (h_claims (held w)) = Some m ->
  ex = Z.of_nat (length (h_stream (held w) sid)) ->
  exists w' res e,
    (forall B c (k : EventToAppend -> AppendResult -> Test B),
      (ev ← MakeEvent uuid_New time_Now typeURL; r ← append St sid ex [ev] ops; k ev r) (mkT w c j false) =
      k (made_at typeURL j) res (mkT w' c (5 + j) false)) /\
    ready ts n w' (5 + j) /\ carries (made_at typeURL j) e /\ extended sid [e] (held w) (held w') /\ h_claims (held w') = m /\
    ar_StartVersion res = ex + 1 /\ ar_EndVersion res = ex + 1 /\ ar_StartGlobalPosition res = h_top (held w) + 1.
Proof.
  intros Hn Hr Hv Ht Hta Htu Hm ->.
  destruct (append_run sid [made_at typeURL j] [j] ops m ts n w j (5 + j))
    as (w' & res & envs & HA & Hr' & Hcar & Hext & Hcl & Hs & He & Hp & _); try done.
  - repeat constructor. by apply Hacc.
  - apply NoDup_singleton.
  - repeat constructor; lia.
  - apply Forall2_cons_inv_l in Hcar as (e & l & Hc & ->%Forall2_nil_inv_l & ->). exists w', res, e.
    split; [|done]. intros B c k. rewrite make_run. exact (tbind_run _ _ _ _ _ (append_test _ _ _ _ _ _ _ _ _ HA)).
Qed.

(** A call that is refused. *)
Lemma refused_run {A B} (m : M W A) (k : Test B) w w' e c j sent :
  m w = (w', Err e) -> errors_Is e sent = true ->
  (r ← call m; _ ← must_fail r sent; k) (mkT w c j false) = k (mkT w' c j false).
Proof.
  intros Hm He. rewrite (tbind_run _ _ _ _ _ (call_run _ _ _ _ _ _ _ Hm)). cbn [must_fail]. rewrite He. done.
Qed.

Lemma empty_stream t ts n w j id : ready (t :: ts) n w j -> StreamID.Validate (StreamID.mk t "user" id) = None ->
  h_stream (held w) (StreamID.mk t "user" id) = [].
Proof. intros Hr Hv. apply (rd_streams _ _ _ _ Hr); [done|by left]. Qed.

(** What a test leaves for the tests after it. *)
Definition passes (test : Test (W := W) unit) (c c' : Z) (used : list string) (n : Z) : Prop := forall ts m w j,
  0 <= m -> ready (used ++ ts) (m + n) w j -> NoDup (used ++ ts) ->
  exists w' j', test (mkT w c j false) = (mkT w' c' j' false, Some tt) /\ ready ts m w' j'.

Lemma test_append_and_read c : passes (testAppendAndReadStream St uuid_New time_Now) c (u64 (c + 1)) [tenantOf "rw" (c + 1)] 1.
Proof.
  intros ts n w j Hn Hr [Ht _]%NoDup_cons. pose proof (tenantOf_ascii "rw" (c + 1) eq_refl) as Hasc. unfold testAppendAndReadStream. rewrite opening by done.
  set (sid := StreamID.mk _ "user" "1") in *. assert (Hv : StreamID.Validate sid = None) by by apply opened_valid.
  pose proof (empty_stream _ _ _ _ _ _ Hr Hv) as Hempty. fold sid in Hempty.
  destruct (one_append sid "myapp.user.v1.UserRegistered" 0 [] (h_claims (held w)) ts n w j)
    as (w1 & res & e & -> & Hr1 & Hcar & Hext & _ & Hs & He & Hp); try done; [by eapply ready_fewer|by rewrite Hempty|].
  rewrite Hs, He, Hp. rewrite fatal_pass by done.
  assert (Htop : 0 <= h_top (held w)) by (apply (cs_top (ConformingStore := CS)), Hr).
  rewrite fatal_pass by (apply Z.eqb_neq; lia).
  destruct (read_test sid 0 w1 (u64 (c + 1)) (5 + j) ts n Hr1 Hv) as (w2 & HR & Hr2 & _); [done|].
  rewrite (tbind_run _ _ _ _ _ HR). destruct Hext as (-> & _ & Hf & _ & Hver & Hgp & _). rewrite Hempty in *.
  apply Forall_singleton in Hf as [Hsid _]. destruct Hcar as (Hid & Hty & _ & _ & _ & _ & _ & Hact & Hpay & _).
  injection Hver as Hver. injection Hgp as Hgp. change (Z.to_nat 0) with 0%nat. cbn [drop app].
  rewrite Hid, Hver, Hgp, Hty, Hact, Hpay, Hsid. do 2 eexists. split; [|exact Hr2].
  repeat rewrite error_pass by by apply neqb_false. by apply last_error_pass.
Qed.

Lemma test_optimistic c : passes (testOptimisticConcurrency St uuid_New time_Now) c (u64 (c + 1)) [tenantOf "oc" (c + 1)] 3.
Proof.
  intros ts n w j Hn Hr [Ht _]%NoDup_cons. pose proof (tenantOf_ascii "oc" (c + 1) eq_refl) as Hasc. unfold testOptimisticConcurrency. rewrite opening by done.
  set (sid := StreamID.mk _ "user" "1") in *. assert (Hv : StreamID.Validate sid = None) by by apply opened_valid.
  pose proof (empty_stream _ _ _ _ _ _ Hr Hv) as Hempty. fold sid in Hempty.
  apply ready_fewer in Hr.
  destruct (one_append sid "Initial" 0 [] (h_claims (held w)) ts (n + 2) w j) as (w1 & ? & e1 & -> & Hr1 & _ & X1 & _);
    [lia|by rewrite <- Z.add_assoc|done..|by rewrite Hempty|].
  destruct X1 as (Hs1 & _). rewrite Hempty in Hs1.
  destruct (one_append sid "First" 1 [] (h_claims (held w1)) ts (n + 1) w1 (5 + j)) as (w2 & ? & e2 & -> & Hr2 & _ & X2 & _);
    [lia|by rewrite <- Z.add_assoc|done..|by rewrite Hs1|].
  destruct X2 as (Hs2 & _). rewrite Hs1 in Hs2. rewrite make_run.
  destruct (cs_conflict (ConformingStore := CS) sid 1 [made_at "Second" (5 + (5 + j))] w2) as (w3 & e & HA & He & Hok & Hu);
    [apply Hr2|done|done|rewrite Hs2; simpl; lia|repeat constructor; by apply Hacc|].
  rewrite (refused_run _ _ _ _ _ _ _ _ HA He).
  assert (Hr3 : ready ts n w3 (5 + (5 + (5 + j)))) by (apply (ready_unchanged _ _ 1 w2); [|done|done]; by apply (ready_draws _ _ _ (5 + (5 + j))); [lia|]).
  destruct (read_test sid 0 w3 (u64 (c + 1)) _ ts n Hr3 Hv) as (w4 & HR & Hr4 & _); [done|].
  rewrite (tbind_run _ _ _ _ _ HR). destruct Hu as (-> & _); [|done]. rewrite Hs2. do 2 eexists. split; [|exact Hr4].
  by apply last_fatal_pass.
Qed.

Lemma email_claim t stream m : claims_after t stream [emailClaim] m =
  match m !! (t, "email", "a@example.com") with
  | Some _ => None
  | None => Some (<[(t, "email", "a@example.com") := stream]> m)
  end.
Proof. done. Qed.

Lemma test_claim c : passes (testUniqueConstraintClaim St uuid_New time_Now) c (u64 (c + 1)) [tenantOf "uc" (c + 1)] 2.
Proof.
  intros ts n w j Hn Hr [Ht _]%NoDup_cons. pose proof (tenantOf_ascii "uc" (c + 1) eq_refl) as Hasc. unfold testUniqueConstraintClaim. rewrite opening by done.
  set (t := tenantOf "uc" (c + 1)) in *. set (sid1 := StreamID.mk _ "user" "1") in *.
  assert (Hv1 : StreamID.Validate sid1 = None) by by apply opened_valid.
  destruct (stream_run t (u64 (c + 1)) j w "2") as [Hrun Hv2]; [by apply tenantOf_nonempty|done|].
  rewrite (tbind_run _ _ _ _ _ Hrun). set (sid2 := StreamID.mk t "user" "2") in *.
  pose proof (empty_stream _ _ _ _ _ _ Hr Hv1) as E1. pose proof (empty_stream _ _ _ _ _ _ Hr Hv2) as E2. fold sid1 in E1. fold sid2 in E2.
  assert (Hfree : h_claims (held w) !! (t, "email", "a@example.com") = None) by (apply (rd_claims _ _ _ _ Hr); by left).
  apply ready_fewer in Hr.
  destruct (one_append sid1 "Created" 0 [emailClaim] (<[(t, "email", "a@example.com") := StreamID.Canonical sid1]> (h_claims (held w)))
    ts (n + 1) w j) as (w1 & ? & e1 & -> & Hr1 & _ & X1 & Hc & _);
    [lia|by rewrite <- Z.add_assoc|done|done|done|done|rewrite email_claim; change (StreamID.Tenant sid1) with t; by rewrite Hfree|by rewrite E1|].
  destruct X1 as (_ & Ho & _). rewrite make_run.
  destruct (cs_claimed (ConformingStore := CS) sid2 0 [made_at "Created" (5 + j)] [emailClaim] w1) as (w2 & e & HA & He & Hok & Hu);
    [apply Hr1|done|done|rewrite email_claim; change (StreamID.Tenant sid2) with t; by rewrite Hc, lookup_insert_eq|by repeat constructor|].
  rewrite (refused_run _ _ _ _ _ _ _ _ HA He).
  assert (Hr2 : ready ts n w2 (5 + (5 + j))) by (apply (ready_unchanged _ _ 1 w1); [|done|done]; by apply (ready_draws _ _ _ (5 + j)); [lia|]).
  destruct (read_test sid2 0 w2 (u64 (c + 1)) _ ts n Hr2 Hv2) as (w3 & HR & Hr3 & _); [done|].
  rewrite (tbind_run _ _ _ _ _ HR). destruct Hu as (-> & _); [|done]. rewrite Ho, E2 by done. do 2 eexists. split; [|exact Hr3].
  by apply last_fatal_pass.
Qed.

Lemma monotonic_loop ts c rounds : forall n w j last, 0 <= n ->
  ready ts (n + Z.of_nat (length rounds)) w j -> last <= h_top (held w) -> NoDup rounds ->
  Forall (fun x => (snd x <> "" /\ str_ascii (snd x) = true) /\ snd x ∉ ts /\ StreamID.slugRe ("u" +:+ format_uint (fst x)) = true /\ 0 <= fst x) rounds ->
  (forall x, x ∈ rounds -> h_stream (held w) (StreamID.mk (snd x) "user" ("u" +:+ format_uint (fst x))) = []) ->
  exists w' j', monotonicLoop St uuid_New time_Now rounds last (mkT w c j false) = (mkT w' c j' false, Some tt) /\ ready ts n w' j'.
Proof.
  induction rounds as [|[i t] rounds IH]; intros n w j last Hn Hr Hlast Hnd Hall Hs.
  { exists w, j. split; [done|]. by rewrite Z.add_0_r in Hr. }
  apply NoDup_cons in Hnd as [Hnin Hnd]. apply Forall_cons in Hall as [([Hne Hasc] & Hts & Hslug & Hi) Hall]. cbn [fst snd] in *.
  destruct (stream_run t c j w ("u" +:+ format_uint i)) as [Hrun Hv]; [done|done|].
  cbn [monotonicLoop]. rewrite (tbind_run _ _ _ _ _ Hrun). set (sid := StreamID.mk t "user" _) in *.
  destruct (one_append sid "Created" 0 [] (h_claims (held w)) ts (n + Z.of_nat (length rounds)) w j)
    as (w1 & res & e & -> & Hr1 & _ & X & _ & _ & _ & Hp); [lia| |done|done|done|done|done| |].
  { replace (n + _ + 1) with (n + Z.of_nat (length ((i, t) :: rounds))) by (simpl; lia). done. }
  { by rewrite (Hs (i, t) ltac:(by left) : h_stream (held w) sid = []). }
  rewrite fatal_pass by (rewrite Hp; apply Z.leb_gt; lia).
  destruct X as (_ & Ho & _ & _ & _ & _ & Htop). apply IH; try done.
  - rewrite Hp, Htop. simpl. lia.
  - intros x Hx. rewrite Ho; [apply Hs; by right| |].
    + rewrite Forall_forall in Hall. destruct (Hall x Hx) as ([Hne' _] & _ & Hslug' & _).
      unfold StreamID.Validate; simpl. rewrite decide_False by done. simpl in Hslug'. by rewrite Hslug'.
    + intros Heq. apply Hnin. rewrite Forall_forall in Hall. destruct (Hall x Hx) as (_ & _ & _ & Hi').
      subst sid. destruct x as [i' t']. cbn [fst snd] in *. injection Heq as -> Hfmt.
      change (pretty (Z.to_N i') = pretty (Z.to_N i)) in Hfmt. apply (inj (pretty (A := N))) in Hfmt. apply Z2N.inj in Hfmt as ->; done.
Qed.

Lemma fresh_run {B} prefix c j w (k : string -> Test (W := W) B) :
  (freshTenant prefix ≫= k) (mkT w c j false) = k (tenantOf prefix (c + 1)) (mkT w (u64 (c + 1)) j false).
Proof. done. Qed.

Lemma rounds_eq (a b : string) : (seqZ 0 5 ≫= fun i => [(i, a); (i, b)]) =
  [(0, a); (0, b); (1, a); (1, b); (2, a); (2, b); (3, a); (3, b); (4, a); (4, b)].
Proof. done. Qed.

Lemma test_monotonic c : passes (testGlobalPositionMonotonic St uuid_New time_Now) c (u64 (u64 (c + 1) + 1))
  [tenantOf "mono-a" (c + 1); tenantOf "mono-b" (u64 (c + 1) + 1)] 10.
Proof.
  intros ts n w j Hn Hr Hnd. unfold testGlobalPositionMonotonic. rewrite !fresh_run, rounds_eq.
  set (a := tenantOf "mono-a" (c + 1)) in *. set (b := tenantOf "mono-b" (u64 (c + 1) + 1)) in *.
  assert (Ha : a <> "") by by apply tenantOf_nonempty. assert (Hb : b <> "") by by apply tenantOf_nonempty.
  assert (Haa : str_ascii a = true) by by apply tenantOf_ascii. assert (Hba : str_ascii b = true) by by apply tenantOf_ascii.
  apply NoDup_cons in Hnd as [Hna [Hnb _]%NoDup_cons].
  assert (Hab : a <> b) by (intros E; apply Hna; rewrite E; by left).
  set (rounds := (0, a) :: _).
  assert (Hall : Forall (fun x => (snd x <> "" /\ str_ascii (snd x) = true) /\ snd x ∉ ts /\ StreamID.slugRe ("u" +:+ format_uint (fst x)) = true /\ 0 <= fst x) rounds).
  { assert (a ∉ ts) by (intros E; apply Hna; by right). repeat constructor; done. }
  apply (monotonic_loop ts); try done.
  - by apply ready_fewer, ready_fewer in Hr.
  - apply (cs_top (ConformingStore := CS)), Hr.
  - clearbody a b. repeat (constructor; [intros E; repeat (apply elem_of_cons in E as [E|E]; [congruence|]); by apply elem_of_nil in E|]). constructor.
  - intros x Hx. rewrite Forall_forall in Hall. destruct (Hall x Hx) as ([Hne _] & _ & Hslug & _).
    apply (rd_streams _ _ _ _ Hr).
    + unfold StreamID.Validate; simpl. rewrite decide_False by done. simpl in Hslug. by rewrite Hslug.
    + subst rounds. simpl. set_solver.
Qed.

Lemma append_loop_run sid ts c rounds : forall n (w : W) j v, 0 <= n -> 0 <= v ->
  ready ts (n + Z.of_nat (length rounds)) w j -> StreamID.Validate sid = None -> StreamID.Tenant sid ∉ ts ->
  str_ascii (StreamID.Tenant sid) = true -> v + Z.of_nat (length rounds) < 2 ^ 64 ->
  v = Z.of_nat (length (h_stream (held w) sid)) -> rounds = seqZ v (Z.of_nat (length rounds)) ->
  exists w' j' envs, appendLoop St uuid_New time_Now sid rounds (mkT w c j false) = (mkT w' c j' false, Some tt) /\
    ready ts n w' j' /\ h_stream (held w') sid = h_stream (held w) sid ++ envs /\ Envelope.Version <$> envs = seqZ (v + 1) (Z.of_nat (length rounds)).
Proof.
  induction rounds as [|i rounds IH]; intros n w j v Hn Hv0 Hr Hv Ht Hasc Hb Hlen Hseq.
  { exists w, j, []. rewrite app_nil_r. split; [done|]. split; [by rewrite Z.add_0_r in Hr|done]. }
  rewrite seqZ_cons in Hseq by (simpl; lia). injection Hseq as -> Hseq.
  destruct (one_append sid "Event" (u64 v) [] (h_claims (held w)) ts (n + Z.of_nat (length rounds)) w j)
    as (w1 & ? & e & Hrun & Hr1 & _ & X & _); [lia| |done|done|done|done|done| |].
  { replace (n + _ + 1) with (n + Z.of_nat (length (v :: rounds))) by (simpl; lia). done. }
  { rewrite u64_small; [done|]. cbn [length] in Hb. lia. }
  cbn [appendLoop]. rewrite Hrun. destruct X as (Hs & _ & _ & _ & Hver & _ & Htop). rewrite <- Hlen in Hver. injection Hver as Hver.
  rewrite <- Z.add_1_r in Hseq.
  destruct (IH n w1 (5 + j)%nat (v + 1)) as (w2 & j2 & envs & -> & Hr2 & Hs2 & Hv2); try done; try (cbn [length] in *; lia).
  { rewrite Hs, length_app, Nat2Z.inj_add, <- Hlen. done. }
  { rewrite Hseq at 1. f_equal. simpl. lia. }
  exists w2, j2, (e :: envs). split; [done|]. split; [done|]. rewrite Hs2, Hs, <- app_assoc. split; [done|].
  rewrite fmap_cons, Hver, Hv2, (seqZ_cons (v + 1)) by (simpl; lia). f_equal. f_equal; simpl; lia.
Qed.

Lemma test_from_version c : passes (testReadStreamFromVersion St uuid_New time_Now) c (u64 (c + 1)) [tenantOf "paginate" (c + 1)] 3.
Proof.
  intros ts n w j Hn Hr [Ht _]%NoDup_cons. pose proof (tenantOf_ascii "paginate" (c + 1) eq_refl) as Hasc. unfold testReadStreamFromVersion. rewrite opening by done.
  set (sid := StreamID.mk _ "user" "1") in *. assert (Hv : StreamID.Validate sid = None) by by apply opened_valid.
  pose proof (empty_stream _ _ _ _ _ _ Hr Hv) as Hempty. fold sid in Hempty. apply ready_fewer in Hr.
  destruct (append_loop_run sid ts (u64 (c + 1)) (seqZ 0 3) n w j 0) as (w1 & j1 & envs & Hrun & Hr1 & Hs & Hver); try done.
  { by rewrite Hempty. }
  rewrite (tbind_run _ _ _ _ _ Hrun). rewrite Hempty in Hs. cbn [app] in Hs.
  destruct (read_test sid 2 w1 (u64 (c + 1)) j1 ts n Hr1 Hv) as (w2 & HR & Hr2 & Hu); [lia|].
  rewrite (tbind_run _ _ _ _ _ HR), Hs. change (seqZ (0 + 1) _) with [1; 2; 3] in Hver.
  destruct envs as [|? [|? [|e [|]]]]; try discriminate Hver. injection Hver as _ _ Hver.
  change (drop (Z.to_nat 2) _) with [e]. cbn iota. rewrite error_pass by by apply neqb_false.
  destruct (cs_current (ConformingStore := CS) sid w2) as (w3 & HC & Hok & Hu3); [apply Hr2|done|].
  rewrite (tbind_run _ _ _ _ _ (call_run _ _ _ _ _ _ _ HC)). cbn [must].
  erewrite tbind_run by reflexivity. destruct Hu as (-> & _); [|done]. rewrite Hs. exists w3, j1. split; [by apply last_error_pass|].
  apply (ready_unchanged _ _ 0 w2); [|done|done]. by rewrite Z.add_0_r.
Qed.

Lemma test_by_id c : passes (testGetEventByID St uuid_New time_Now) c (u64 (c + 1)) [tenantOf "byid" (c + 1)] 1.
Proof.
  intros ts n w j Hn Hr [Ht _]%NoDup_cons. pose proof (tenantOf_ascii "byid" (c + 1) eq_refl) as Hasc. unfold testGetEventByID. rewrite opening by done.
  set (t := tenantOf "byid" (c + 1)) in *. set (sid := StreamID.mk t "user" "1") in *.
  assert (Hv : StreamID.Validate sid = None) by by apply opened_valid.
  pose proof (empty_stream _ _ _ _ _ _ Hr Hv) as Hempty. fold sid in Hempty.
  destruct (one_append sid "Created" 0 [] (h_claims (held w)) ts n w j)
    as (w1 & ? & e & -> & Hr1 & Hcar & Hext & _); try done; [by eapply ready_fewer|by rewrite Hempty|].
  destruct Hext as (_ & _ & Hf & _). apply Forall_singleton in Hf as [_ Hf]. destruct Hcar as (Hid & _). rewrite Hid in Hf.
  destruct (cs_event (ConformingStore := CS) t (ea_EventID (made_at "Created" j)) w1) as (w2 & r & HG & Hok2 & Hu2 & Hans); [apply Hr1|].
  change (StreamID.Tenant sid) with t in Hf. rewrite Hf in Hans. subst r.
  rewrite (tbind_run _ _ _ _ _ (call_run _ _ _ _ _ _ _ HG)). cbn [must]. erewrite tbind_run by reflexivity.
  rewrite error_pass by by apply neqb_false. erewrite tbind_run by reflexivity. cbn [t_world t_tenants t_draws t_failed].
  assert (Hr2 : ready ts n w2 (5 + j)) by (apply (ready_unchanged _ _ 0 w1); [by rewrite Z.add_0_r|done|done]).
  destruct (cs_event (ConformingStore := CS) t (uuid_New (5 + j)) w2) as (w3 & r & HG3 & Hok3 & Hu3 & Hans); [done|].
  rewrite (rd_ids _ _ _ _ Hr2) in Hans by lia. destruct Hans as (e' & -> & He').
  rewrite (tbind_run _ _ _ _ _ (call_run _ _ _ _ _ _ _ HG3)). cbn [must_fail]. rewrite He'.
  exists w3, (S (5 + j)). split; [done|]. apply (ready_unchanged _ _ 0 w2); [|done|done]. rewrite Z.add_0_r.
  by apply (ready_draws _ _ _ (5 + j)); [lia|].
Qed.

Lemma test_multi c : passes (testMultiEventAppend St uuid_New time_Now) c (u64 (c + 1)) [tenantOf "multi" (c + 1)] 3.
Proof.
  intros ts n w j Hn Hr [Ht _]%NoDup_cons. pose proof (tenantOf_ascii "multi" (c + 1) eq_refl) as Hasc. unfold testMultiEventAppend. rewrite opening by done.
  set (sid := StreamID.mk _ "user" "1") in *. assert (Hv : StreamID.Validate sid = None) by by apply opened_valid.
  pose proof (empty_stream _ _ _ _ _ _ Hr Hv) as Hempty. fold sid in Hempty. rewrite !make_run.
  set (evs := [made_at "First" j; _; _]).
  destruct (append_run sid evs [j; (5 + j)%nat; (5 + (5 + j))%nat] [] (h_claims (held w)) ts n w j (5 + (5 + (5 + j))))
    as (w1 & res & envs & HA & Hr1 & Hcar & Hext & _ & Hs & He & Hp & Hq); try done.
  { by eapply ready_fewer. }
  { repeat constructor; by apply Hacc. }
  { repeat (constructor; [intros E; repeat (apply elem_of_cons in E as [E|E]; [lia|]); by apply elem_of_nil in E|]). constructor. }
  { repeat constructor; lia. }
  destruct Hext as (Hst & _ & _ & _ & Hver & _). rewrite Hempty in HA, Hs, He, Hst, Hver.
  rewrite (tbind_run _ _ _ _ _ (append_test _ _ _ _ _ _ _ _ _ HA)), Hs, He, Hp, Hq.
  rewrite error_pass by done. rewrite error_pass.
  2: { apply neqb_false. rewrite u64_small; simpl; lia. }
  destruct (read_test sid 0 w1 (u64 (c + 1)) _ ts n Hr1 Hv) as (w2 & HR & Hr2 & _); [done|].
  rewrite (tbind_run _ _ _ _ _ HR), Hst. change (drop _ _) with envs.
  apply Forall2_length in Hcar. rewrite <- Hcar in *. exists w2, (5 + (5 + (5 + j)))%nat. split; [|done].
  rewrite fatal_pass by by apply neqb_false. rewrite last_error_pass; [done|]. apply neqb_false. exact Hver.
Qed.

(** The tenants of a run that starts at the counter [c]. *)
Definition suite_tenants (c : Z) : list string :=
  [tenantOf "rw" (c + 1); tenantOf "oc" (c + 2); tenantOf "uc" (c + 3); tenantOf "mono-a" (c + 4); tenantOf "mono-b" (c + 5);
   tenantOf "paginate" (c + 6); tenantOf "byid" (c + 7); tenantOf "multi" (c + 8)].

Lemma suite_tenants_distinct c : NoDup (suite_tenants c).
Proof.
  repeat (constructor; [intros E; repeat (apply elem_of_cons in E as [E|E]; [by inversion E|]); by apply elem_of_nil in E|]).
  constructor.
Qed.

(** One more test of the suite. *)
Lemma run_test test c c' used n ts m w j :
  passes test c c' used n -> 0 <= m -> ready (used ++ ts) (m + n) w j -> NoDup (used ++ ts) ->
  exists w' j', Run test (mkT w c j false) = mkT w' c' j' false /\ ready ts m w' j' /\ NoDup ts.
Proof.
  intros Hp Hm Hr Hnd. destruct (Hp ts m w j Hm Hr Hnd) as (w' & j' & H & Hr'). exists w', j'. unfold Run. rewrite H.
  split; [done|]. split; [done|]. by apply NoDup_app in Hnd as (_ & _ & ?).
Qed.

Lemma passes_at {test prefix n} : (forall c, passes test c (u64 (c + 1)) [tenantOf prefix (c + 1)] n) ->
  forall c c', c' = c + 1 -> 0 <= c -> c' < 2 ^ 64 -> passes test c c' [tenantOf prefix c'] n.
Proof. intros H c c' -> ? ?. pose proof (H c) as Hc. by rewrite u64_small in Hc by lia. Qed.

Lemma monotonic_at c c' c'' : c' = c + 1 -> c'' = c + 2 -> 0 <= c -> c'' < 2 ^ 64 ->
  passes (testGlobalPositionMonotonic St uuid_New time_Now) c c'' [tenantOf "mono-a" c'; tenantOf "mono-b" c''] 10.
Proof.
  intros -> -> ? ?. pose proof (test_monotonic c) as Hc. rewrite (u64_small (c + 1)) in Hc by lia.
  rewrite <- Z.add_assoc, u64_small in Hc by lia. done.
Qed.

Lemma suite_passes c w j : 0 <= c -> c + 8 < 2 ^ 64 -> ready (suite_tenants c) 23 w j ->
  exists w' j', RunStoreConformance St uuid_New time_Now (mkT w c j false) = mkT w' (c + 8) j' false /\ ok w'.
Proof.
  intros Hc Hb H0. pose proof (suite_tenants_distinct c) as N0. unfold RunStoreConformance, tests. cbn [foldl].
  destruct (run_test _ _ _ _ _ _ 22 _ _ (passes_at test_append_and_read c (c + 1) ltac:(lia) ltac:(lia) ltac:(lia)) ltac:(lia) H0 N0)
    as (w1 & j1 & -> & H1 & N1).
  destruct (run_test _ _ _ _ _ _ 19 _ _ (passes_at test_optimistic (c + 1) (c + 2) ltac:(lia) ltac:(lia) ltac:(lia)) ltac:(lia) H1 N1)
    as (w2 & j2 & -> & H2 & N2).
  destruct (run_test _ _ _ _ _ _ 17 _ _ (passes_at test_claim (c + 2) (c + 3) ltac:(lia) ltac:(lia) ltac:(lia)) ltac:(lia) H2 N2)
    as (w3 & j3 & -> & H3 & N3).
  destruct (run_test _ _ _ _ _ _ 7 _ _ (monotonic_at (c + 3) (c + 4) (c + 5) ltac:(lia) ltac:(lia) ltac:(lia) ltac:(lia)) ltac:(lia) H3 N3)
    as (w4 & j4 & -> & H4 & N4).
  destruct (run_test _ _ _ _ _ _ 4 _ _ (passes_at test_from_version (c + 5) (c + 6) ltac:(lia) ltac:(lia) ltac:(lia)) ltac:(lia) H4 N4)
    as (w5 & j5 & -> & H5 & N5).
  destruct (run_test _ _ _ _ _ _ 3 _ _ (passes_at test_by_id (c + 6) (c + 7) ltac:(lia) ltac:(lia) ltac:(lia)) ltac:(lia) H5 N5)
    as (w6 & j6 & -> & H6 & N6).
  destruct (run_test _ _ _ _ _ _ 0 _ _ (passes_at test_multi (c + 7) (c + 8) ltac:(lia) ltac:(lia) ltac:(lia)) ltac:(lia) H6 N6)
    as (w7 & j7 & -> & H7 & N7).
  exists w7, j7. split; [done|apply H7].
Qed.
End Passes.
