(* ===== verification/KmsConformance.v ===== *)
(** * The key-store conformance suite (estest/kms.go)

    The tests every kms.KeyStore must pass, and [ConformingKMS], a specification
    of a key store by the KEKs it holds.  A store that meets it passes the suite;
    the in-process and the file store meet it, and the file store also passes the
    test across instances. *)
From S2P Require Import Prelude Errors Streams Events Store Shred Kms Conformance.

(** A DEK as both stores wrap it. *)
Notation sealed k iv dek := (iv ++ gcm_seal k iv dek).

Module KmsSuite.
Import Suite.

(** The factories of an adapter: a fresh store, a new instance on the storage of
    the last one, and the optional KEKRotator. *)
Record KMSConformance (W : Type) := mkKMSConformance {
  New : M W (KeyStore W);
  PersistentNew : option (M W (KeyStore W));
  Rotating : bool;
  RotateKEK : option (string -> M W Z)
}.
Arguments New {_} _.
Arguments PersistentNew {_} _.
Arguments Rotating {_} _.
Arguments RotateKEK {_} _.

Section KmsSuite.
Context {W : Type} (c : KMSConformance W) (rand : Z -> M W bytes).

(** A call whose error stops the test. *)
Definition ok_or_fatal {A} (m : M W A) : Test (W := W) A := r ← call m; must r.
Definition mustRandKey : Test (W := W) bytes := ok_or_fatal (rand 32).
Definition new : Test (W := W) (KeyStore W) := ok_or_fatal (New c).

Definition kmsTestWrapUnwrapRoundTrip : Test (W := W) unit :=
  ks ← new;
  dek ← mustRandKey;
  wv ← ok_or_fatal (WrapDEK ks "acme" dek);
  _ ← fatal_if (snd wv =? 0);
  got ← ok_or_fatal (UnwrapDEK ks "acme" (fst wv) (snd wv));
  error_if (neqb got dek).

(** [got, err := UnwrapDEK(...)] in a loop that goes on after an error. *)
Definition unwrapsTo (ks : KeyStore W) (tenant : string) (w : bytes) (v : Z) (dek : bytes) : Test (W := W) unit :=
  r ← call (UnwrapDEK ks tenant w v);
  match r with Err _ => error_if true | Ok got => error_if (neqb got dek) end.

Definition kmsTestWrapDistinct : Test (W := W) unit :=
  ks ← new;
  dek ← mustRandKey;
  wv1 ← ok_or_fatal (WrapDEK ks "acme" dek);
  wv2 ← ok_or_fatal (WrapDEK ks "acme" dek);
  _ ← error_if (neqb (snd wv1) (snd wv2));
  _ ← error_if (bool_decide (fst wv1 = fst wv2));
  _ ← unwrapsTo ks "acme" (fst wv1) (snd wv1) dek;
  unwrapsTo ks "acme" (fst wv2) (snd wv1) dek.

Definition kmsTestUnknownVersionFails : Test (W := W) unit :=
  ks ← new;
  r ← call (UnwrapDEK ks "acme" (bytes_of_str "garbage-but-non-empty") 1);
  match r with Ok _ => fatal | Err _ => mret tt end.

Definition kmsTestCurrentVersionProgresses : Test (W := W) unit :=
  ks ← new;
  v0 ← ok_or_fatal (CurrentKEKVersion ks "acme");
  _ ← error_if (neqb v0 0);
  dek ← mustRandKey;
  _ ← ok_or_fatal (WrapDEK ks "acme" dek);
  v1 ← ok_or_fatal (CurrentKEKVersion ks "acme");
  error_if (v1 =? 0).

Definition kmsTestMultiTenantIsolation : Test (W := W) unit :=
  ks ← new;
  dek ← mustRandKey;
  wvA ← ok_or_fatal (WrapDEK ks "tenant-a" dek);
  _ ← ok_or_fatal (WrapDEK ks "tenant-b" dek);
  r ← call (UnwrapDEK ks "tenant-b" (fst wvA) (snd wvA));
  match r with Err _ => mret tt | Ok got => fatal_if (bool_decide (got = dek)) end.

Definition kmsTestPersistsAcrossInstances (open : M W (KeyStore W)) : Test (W := W) unit :=
  first ← ok_or_fatal open;
  dek ← mustRandKey;
  wv ← ok_or_fatal (WrapDEK first "acme" dek);
  second ← ok_or_fatal open;
  got ← ok_or_fatal (UnwrapDEK second "acme" (fst wv) (snd wv));
  _ ← fatal_if (neqb got dek);
  v ← ok_or_fatal (CurrentKEKVersion second "acme");
  error_if (neqb v (snd wv)).

Definition kmsTestRotationCoexistence : Test (W := W) unit :=
  ks ← new;
  match RotateKEK c with
  | None => fatal
  | Some rotate =>
      oldDEK ← mustRandKey;
      old ← ok_or_fatal (WrapDEK ks "acme" oldDEK);
      newVersion ← ok_or_fatal (rotate "acme");
      _ ← fatal_if (newVersion <=? snd old);
      got ← ok_or_fatal (UnwrapDEK ks "acme" (fst old) (snd old));
      _ ← error_if (neqb got oldDEK);
      newDEK ← mustRandKey;
      nw ← ok_or_fatal (WrapDEK ks "acme" newDEK);
      _ ← error_if (neqb (snd nw) newVersion);
      r ← call (UnwrapDEK ks "acme" (fst nw) (snd old));
      error_if (match r with Ok _ => true | Err _ => false end)
  end.

(** A test that is skipped does nothing. *)
Definition kmsTests : list (Test (W := W) unit) :=
  [kmsTestWrapUnwrapRoundTrip; kmsTestWrapDistinct; kmsTestUnknownVersionFails; kmsTestCurrentVersionProgresses;
   kmsTestMultiTenantIsolation;
   match PersistentNew c with None => mret tt | Some open => kmsTestPersistsAcrossInstances open end;
   if Rotating c then kmsTestRotationCoexistence else mret tt].

Definition RunKMSConformance (t : T (W := W)) : T := foldl (fun t test => Run test t) t kmsTests.
End KmsSuite.
End KmsSuite.

(** ** The specification *)
Section Spec.
Context {A : AEAD} {W : Type} (keks : W -> Keks) (tick : W -> nat) (ok : W -> Prop).

(** A call that leaves the KEKs [m] and draws random bytes at most six times. *)
Definition after (w w' : W) (m : Keks) : Prop := ok w' /\ keks w' = m /\ (tick w <= tick w' <= tick w + 6)%nat.

(** The [i]-th draw happened in a call. *)
Definition drawn (w w' : W) (i : nat) : Prop := (tick w <= i < tick w')%nat.

Class ConformingKMS (c : KmsSuite.KMSConformance W) (ks : KeyStore W) (rand : Z -> M W bytes) (rnd : nat -> Z -> bytes) := {
  ck_new : forall w, ok w -> exists w', KmsSuite.New c w = (w', Ok ks) /\ after w w' ∅;
  ck_open : forall open w, KmsSuite.PersistentNew c = Some open -> ok w -> exists w', open w = (w', Ok ks) /\ after w w' (keks w);
  ck_rand : forall n w, ok w -> exists w', rand n w = (w', Ok (rnd (tick w) n)) /\ after w w' (keks w) /\ drawn w w' (tick w);
  ck_wrap_first : forall t dek w, ok w -> tenant_keks (keks w) t = [] ->
    exists w' i j, WrapDEK ks t dek w = (w', Ok (sealed (rnd i 32) (rnd j 12) dek, 1)) /\
      after w w' (append_kek t (rnd i 32) (keks w)) /\ drawn w w' i /\ drawn w w' j;
  ck_wrap_again : forall t dek k w, ok w -> last (tenant_keks (keks w) t) = Some k -> NewCipher k = None ->
    exists w' j, WrapDEK ks t dek w = (w', Ok (sealed k (rnd j 12) dek, u32 (Z.of_nat (length (tenant_keks (keks w) t))))) /\
      after w w' (keks w) /\ drawn w w' j;
  ck_unwrap : forall t b v k w, ok w -> 0 < v -> tenant_keks (keks w) t !! Z.to_nat (v - 1) = Some k ->
    UnwrapDEK ks t b v w = (w, aesGCMOpen k b);
  ck_unknown : forall t b v w, ok w -> 0 < v -> Z.of_nat (length (tenant_keks (keks w) t)) < v ->
    exists e, UnwrapDEK ks t b v w = (w, Err e);
  ck_current : forall t w, ok w -> CurrentKEKVersion ks t w = (w, Ok (u32 (Z.of_nat (length (tenant_keks (keks w) t)))));
  ck_rotator : KmsSuite.Rotating c = true -> is_Some (KmsSuite.RotateKEK c);
  ck_rotate : forall rotate t w, KmsSuite.RotateKEK c = Some rotate -> ok w ->
    exists w' i, rotate t w = (w', Ok (u32 (Z.of_nat (length (tenant_keks (keks w) t) + 1)))) /\
      after w w' (append_kek t (rnd i 32) (keks w)) /\ drawn w w' i
}.
End Spec.

(** ** A conforming store passes *)
Section KmsPasses.
Import Suite KmsSuite.
Context {A : AEAD} {AL : AEADLaws A} {W : Type} {keks : W -> Keks} {tick : W -> nat} {ok : W -> Prop}
  {c : KMSConformance W} {ks : KeyStore W} {rand : Z -> M W bytes} {rnd : nat -> Z -> bytes}
  {CK : ConformingKMS keks tick ok c ks rand rnd}.
Notation after := (after keks tick ok).
Notation drawn := (drawn tick).

(** Random bytes have the length that was asked for, and in the draws below [hi]
    nonces do not repeat and a key opens nothing that another one sealed. *)
Context (Hlen : forall i n, 0 <= n -> Z.of_nat (length (rnd i n)) = n) (hi : nat)
  (Hnonce : forall i j, (i < j < hi)%nat -> rnd i 12 <> rnd j 12)
  (Hauth : forall i j iv dek, (i < hi)%nat -> (j < hi)%nat -> i <> j -> gcm_open (rnd j 32) iv (gcm_seal (rnd i 32) iv dek) = None).

Lemma kek_cipher i : NewCipher (rnd i 32) = None.
Proof. unfold NewCipher. rewrite Hlen by lia. done. Qed.

Lemma nonce_length i : length (rnd i 12) = NonceSize.
Proof. pose proof (Hlen i 12). unfold NonceSize. lia. Qed.

Lemma open_own i j dek : aesGCMOpen (rnd i 32) (sealed (rnd i 32) (rnd j 12) dek) = Ok dek.
Proof. apply open_seal_kek; [apply kek_cipher|apply nonce_length]. Qed.

Lemma open_other i k j dek : (i < hi)%nat -> (k < hi)%nat -> i <> k ->
  exists e, aesGCMOpen (rnd k 32) (sealed (rnd i 32) (rnd j 12) dek) = Err e.
Proof.
  intros Hi Hk Hn. unfold aesGCMOpen. rewrite kek_cipher. case_bool_decide as Hs; [by eexists|].
  rewrite take_app_length', drop_app_length' by (by rewrite nonce_length). rewrite Hauth by done. by eexists.
Qed.

Lemma sealed_distinct k i j dek : (i < j < hi)%nat -> sealed k (rnd i 12) dek <> sealed k (rnd j 12) dek.
Proof.
  intros Hij H. apply (Hnonce i j Hij). apply (f_equal (take NonceSize)) in H.
  by rewrite !take_app_length' in H by (by rewrite nonce_length).
Qed.

(** A test that passes, drawing at most [6 * n] times. *)
Definition kms_passes (test : Test (W := W) unit) (n : nat) : Prop := forall w,
  ok w -> (tick w + 6 * n <= hi)%nat ->
  exists w', test (mkT w 0 0 false) = (mkT w' 0 0 false, Some tt) /\ ok w' /\ (tick w <= tick w' <= tick w + 6 * n)%nat.

Lemma call_ok {B C} (m : M W B) (k : B -> Test C) w w' b : m w = (w', Ok b) ->
  (ok_or_fatal m ≫= k) (mkT w 0 0 false) = k b (mkT w' 0 0 false).
Proof. intros H. unfold ok_or_fatal, mbind, Test_bind, call. simpl. by rewrite H. Qed.

Lemma call_any {B C} (m : M W B) (k : res B -> Test C) w w' r : m w = (w', r) ->
  (call m ≫= k) (mkT w 0 0 false) = k r (mkT w' 0 0 false).
Proof. intros H. unfold mbind, Test_bind, call. simpl. by rewrite H. Qed.

Lemma tenant_append t k m t' : tenant_keks (append_kek t k m) t' = if decide (t' = t) then tenant_keks m t ++ [k] else tenant_keks m t'.
Proof.
  unfold append_kek, tenant_keks. case_decide as H; [subst; by rewrite lookup_insert_eq|by rewrite lookup_insert_ne].
Qed.

Lemma tenant_empty t : tenant_keks ∅ t = [].
Proof. unfold tenant_keks. by rewrite lookup_empty. Qed.

(** Every test begins with a fresh store. *)
Lemma new_run w : ok w -> exists w',
  (forall C (k : KeyStore W -> Test C), (new c ≫= k) (mkT w 0 0 false) = k ks (mkT w' 0 0 false)) /\ after w w' ∅.
Proof. intros Hw. destruct (ck_new keks tick ok w Hw) as (w' & H & Ha). exists w'. split; [intros; by apply call_ok|done]. Qed.

Lemma rand_run w : ok w -> exists w',
  (forall C (k : bytes -> Test C), (mustRandKey rand ≫= k) (mkT w 0 0 false) = k (rnd (tick w) 32) (mkT w' 0 0 false)) /\
  after w w' (keks w).
Proof.
  intros Hw. destruct (ck_rand keks tick ok 32 w Hw) as (w' & H & Ha & _). exists w'.
  split; [intros; by apply call_ok|done].
Qed.

Lemma first_run t dek w : ok w -> tenant_keks (keks w) t = [] -> exists w' i j,
  (forall C (k : bytes * Z -> Test C),
     (ok_or_fatal (WrapDEK ks t dek) ≫= k) (mkT w 0 0 false) = k (sealed (rnd i 32) (rnd j 12) dek, 1) (mkT w' 0 0 false)) /\
  after w w' (append_kek t (rnd i 32) (keks w)) /\ drawn w w' i /\ drawn w w' j.
Proof.
  intros Hw Ht. destruct (ck_wrap_first keks tick ok t dek w Hw Ht) as (w' & i & j & H & Ha).
  exists w', i, j. split; [intros; by apply call_ok|done].
Qed.

Lemma again_run t dek i l w : ok w -> tenant_keks (keks w) t = l ++ [rnd i 32] -> exists w' j,
  (forall C (k : bytes * Z -> Test C), (ok_or_fatal (WrapDEK ks t dek) ≫= k) (mkT w 0 0 false) =
     k (sealed (rnd i 32) (rnd j 12) dek, u32 (Z.of_nat (length l + 1))) (mkT w' 0 0 false)) /\
  after w w' (keks w) /\ drawn w w' j.
Proof.
  intros Hw Ht. destruct (ck_wrap_again keks tick ok t dek (rnd i 32) w Hw) as (w' & j & H & Ha);
    [by rewrite Ht, last_snoc|apply kek_cipher|]. rewrite Ht, length_app in H. exists w', j. split; [intros; by apply call_ok|done].
Qed.

Lemma unwrap_run {C} t i j dek v (k : bytes -> Test C) w : ok w -> 0 < v ->
  tenant_keks (keks w) t !! Z.to_nat (v - 1) = Some (rnd i 32) ->
  (ok_or_fatal (UnwrapDEK ks t (sealed (rnd i 32) (rnd j 12) dek) v) ≫= k) (mkT w 0 0 false) = k dek (mkT w 0 0 false).
Proof.
  intros Hw Hv Ht. apply call_ok. rewrite (ck_unwrap keks tick ok t _ v (rnd i 32)) by done. by rewrite open_own.
Qed.

Lemma unwraps_run t i j dek v w : ok w -> 0 < v -> tenant_keks (keks w) t !! Z.to_nat (v - 1) = Some (rnd i 32) ->
  unwrapsTo ks t (sealed (rnd i 32) (rnd j 12) dek) v dek (mkT w 0 0 false) = (mkT w 0 0 false, Some tt).
Proof.
  intros Hw Hv Ht. unfold unwrapsTo.
  rewrite (call_any _ _ w w (Ok dek)); [by apply last_error_pass, neqb_false|].
  rewrite (ck_unwrap keks tick ok t _ v (rnd i 32)) by done. by rewrite open_own.
Qed.

Lemma pass_round_trip : kms_passes (kmsTestWrapUnwrapRoundTrip c rand) 4.
Proof.
  intros w Hw Hb. unfold kmsTestWrapUnwrapRoundTrip.
  destruct (new_run w Hw) as (w1 & -> & Hw1 & K1 & T1). destruct (rand_run w1 Hw1) as (w2 & -> & Hw2 & K2 & T2).
  destruct (first_run "acme" (rnd (tick w1) 32) w2 Hw2) as (w3 & i & j & -> & (Hw3 & K3 & T3) & _); [by rewrite K2, K1, tenant_empty|].
  cbn [fst snd]. rewrite fatal_pass by done. rewrite unwrap_run; [|done|done|by rewrite K3, K2, K1, tenant_append, tenant_empty].
  exists w3. split; [by apply last_error_pass, neqb_false|]. split; [done|lia].
Qed.

Lemma pass_distinct : kms_passes (kmsTestWrapDistinct c rand) 4.
Proof.
  intros w Hw Hb. unfold kmsTestWrapDistinct.
  destruct (new_run w Hw) as (w1 & -> & Hw1 & K1 & T1). destruct (rand_run w1 Hw1) as (w2 & -> & Hw2 & K2 & T2).
  set (dek := rnd (tick w1) 32).
  destruct (first_run "acme" dek w2 Hw2) as (w3 & i & j & -> & (Hw3 & K3 & T3) & Di & Dj); [by rewrite K2, K1, tenant_empty|].
  assert (Ht : tenant_keks (keks w3) "acme" = [] ++ [rnd i 32]) by by rewrite K3, K2, K1, tenant_append, tenant_empty.
  destruct (again_run "acme" dek i [] w3 Hw3 Ht) as (w4 & j' & -> & (Hw4 & K4 & T4) & Dj').
  unfold KmsConformance.drawn in *. cbn [fst snd]. rewrite error_pass by by apply neqb_false.
  rewrite error_pass by (apply bool_decide_eq_false_2, sealed_distinct; lia).
  rewrite <- K4 in Ht.
  rewrite (tbind_run _ _ _ _ _ (unwraps_run "acme" i j dek 1 w4 Hw4 ltac:(lia) ltac:(by rewrite Ht))).
  exists w4. split; [|split; [done|lia]]. apply unwraps_run; [done|lia|by rewrite Ht].
Qed.

Lemma pass_unknown : kms_passes (kmsTestUnknownVersionFails c) 1.
Proof.
  intros w Hw Hb. unfold kmsTestUnknownVersionFails. destruct (new_run w Hw) as (w1 & -> & Hw1 & K1 & T1).
  destruct (ck_unknown keks tick ok "acme" (bytes_of_str "garbage-but-non-empty") 1 w1 Hw1) as [e He];
    [done|by rewrite K1, tenant_empty|].
  rewrite (call_any _ _ _ _ _ He). exists w1. split; [done|]. split; [done|lia].
Qed.

Lemma current_run {C} t (k : Z -> Test C) w : ok w ->
  (ok_or_fatal (CurrentKEKVersion ks t) ≫= k) (mkT w 0 0 false) =
    k (u32 (Z.of_nat (length (tenant_keks (keks w) t)))) (mkT w 0 0 false).
Proof. intros Hw. apply call_ok. by apply (ck_current keks tick ok). Qed.

Lemma pass_current : kms_passes (kmsTestCurrentVersionProgresses c rand) 3.
Proof.
  intros w Hw Hb. unfold kmsTestCurrentVersionProgresses. destruct (new_run w Hw) as (w1 & -> & Hw1 & K1 & T1).
  rewrite current_run, K1, tenant_empty, error_pass by done. destruct (rand_run w1 Hw1) as (w2 & -> & Hw2 & K2 & T2).
  destruct (first_run "acme" (rnd (tick w1) 32) w2 Hw2) as (w3 & i & j & -> & (Hw3 & K3 & T3) & _); [by rewrite K2, K1, tenant_empty|].
  rewrite current_run by done. exists w3.
  split; [by rewrite K3, K2, K1, tenant_append, tenant_empty|]. split; [done|lia].
Qed.

(** The tenants of the last of these tests are its own. *)
Lemma pass_isolation w : ok w -> (tick w + 6 * 4 <= hi)%nat ->
  exists w', kmsTestMultiTenantIsolation c rand (mkT w 0 0 false) = (mkT w' 0 0 false, Some tt) /\ ok w' /\
    (tick w <= tick w' <= tick w + 6 * 4)%nat /\ tenant_keks (keks w') "acme" = [].
Proof.
  intros Hw Hb. unfold kmsTestMultiTenantIsolation.
  destruct (new_run w Hw) as (w1 & -> & Hw1 & K1 & T1). destruct (rand_run w1 Hw1) as (w2 & -> & Hw2 & K2 & T2).
  set (dek := rnd (tick w1) 32).
  destruct (first_run "tenant-a" dek w2 Hw2) as (w3 & i & j & -> & (Hw3 & K3 & T3) & Di & _); [by rewrite K2, K1, tenant_empty|].
  destruct (first_run "tenant-b" dek w3 Hw3) as (w4 & i' & j' & -> & (Hw4 & K4 & T4) & Di' & _);
    [by rewrite K3, K2, K1, tenant_append, tenant_empty|].
  unfold KmsConformance.drawn in *. cbn [fst snd].
  destruct (open_other i i' j dek) as [e He]; [lia..|].
  rewrite (call_any _ _ w4 w4 (Err e)).
  { exists w4. split; [done|]. split; [done|]. split; [lia|]. by rewrite K4, K3, K2, K1, !tenant_append, tenant_empty. }
  rewrite (ck_unwrap keks tick ok "tenant-b" _ 1 (rnd i' 32)); [by rewrite He|done|done|].
  by rewrite K4, K3, K2, K1, !tenant_append, tenant_empty.
Qed.

Lemma pass_persists open : PersistentNew c = Some open -> (forall w, ok w -> tenant_keks (keks w) "acme" = [] ->
  (tick w + 6 * 4 <= hi)%nat -> exists w', kmsTestPersistsAcrossInstances rand open (mkT w 0 0 false) = (mkT w' 0 0 false, Some tt) /\
    ok w' /\ (tick w <= tick w' <= tick w + 6 * 4)%nat).
Proof.
  intros Ho w Hw Ha Hb. unfold kmsTestPersistsAcrossInstances.
  destruct (ck_open keks tick ok open w Ho Hw) as (w1 & E1 & Hw1 & K1 & T1). rewrite (call_ok _ _ _ _ _ E1).
  destruct (rand_run w1 Hw1) as (w2 & -> & Hw2 & K2 & T2). set (dek := rnd (tick w1) 32).
  destruct (first_run "acme" dek w2 Hw2) as (w3 & i & j & -> & (Hw3 & K3 & T3) & _); [by rewrite K2, K1|].
  destruct (ck_open keks tick ok open w3 Ho Hw3) as (w4 & E4 & Hw4 & K4 & T4). rewrite (call_ok _ _ _ _ _ E4).
  cbn [fst snd]. assert (Ht : tenant_keks (keks w4) "acme" = [rnd i 32]) by by rewrite K4, K3, K2, K1, tenant_append, Ha.
  rewrite unwrap_run; [|done|done|by rewrite Ht]. rewrite fatal_pass by by apply neqb_false.
  rewrite current_run, Ht by done. exists w4. split; [done|]. split; [done|lia].
Qed.

Lemma pass_rotation : Rotating c = true -> kms_passes (kmsTestRotationCoexistence c rand) 6.
Proof.
  intros Hrot w Hw Hb. destruct (ck_rotator keks tick ok Hrot) as [rotate Hr]. unfold kmsTestRotationCoexistence.
  destruct (new_run w Hw) as (w1 & -> & Hw1 & K1 & T1). rewrite Hr.
  destruct (rand_run w1 Hw1) as (w2 & -> & Hw2 & K2 & T2). set (dek := rnd (tick w1) 32).
  destruct (first_run "acme" dek w2 Hw2) as (w3 & i & j & -> & (Hw3 & K3 & T3) & Di & _); [by rewrite K2, K1, tenant_empty|].
  assert (Ht3 : tenant_keks (keks w3) "acme" = [rnd i 32]) by by rewrite K3, K2, K1, tenant_append, tenant_empty.
  destruct (ck_rotate keks tick ok rotate "acme" w3 Hr Hw3) as (w4 & i' & E4 & (Hw4 & K4 & T4) & Di').
  rewrite (call_ok _ _ _ _ _ E4), Ht3. cbn [fst snd].
  assert (Ht4 : tenant_keks (keks w4) "acme" = [rnd i 32] ++ [rnd i' 32]) by by rewrite K4, tenant_append, Ht3.
  rewrite fatal_pass by done. rewrite unwrap_run; [|done|done|by rewrite Ht4]. rewrite error_pass by by apply neqb_false.
  destruct (rand_run w4 Hw4) as (w5 & -> & Hw5 & K5 & T5). set (dek' := rnd (tick w4) 32).
  destruct (again_run "acme" dek' i' [rnd i 32] w5 Hw5) as (w6 & j' & -> & (Hw6 & K6 & T6) & _); [by rewrite K5|].
  unfold KmsConformance.drawn in *. cbn [fst snd]. rewrite error_pass by by apply neqb_false.
  destruct (open_other i' i j' dek') as [e He]; [lia..|].
  rewrite (call_any _ _ w6 w6 (Err e)).
  { exists w6. split; [done|]. split; [done|lia]. }
  rewrite (ck_unwrap keks tick ok "acme" _ 1 (rnd i 32)); [by rewrite He|done|done|by rewrite K6, K5, Ht4].
Qed.

Lemma run_kms test n w : kms_passes test n -> ok w -> (tick w + 6 * n <= hi)%nat ->
  exists w', Run test (mkT w 0 0 false) = mkT w' 0 0 false /\ ok w' /\ (tick w <= tick w' <= tick w + 6 * n)%nat.
Proof. intros Hp Hw Hb. destruct (Hp w Hw Hb) as (w' & H & Hrest). exists w'. unfold Run. by rewrite H. Qed.

Lemma kms_suite_passes w : ok w -> (tick w + 156 <= hi)%nat ->
  exists w', RunKMSConformance c rand (mkT w 0 0 false) = mkT w' 0 0 false /\ ok w'.
Proof.
  intros Hw Hb. unfold RunKMSConformance, kmsTests. cbn [foldl].
  destruct (run_kms _ _ w pass_round_trip Hw) as (w1 & -> & Hw1 & T1); [lia|].
  destruct (run_kms _ _ w1 pass_distinct Hw1) as (w2 & -> & Hw2 & T2); [lia|].
  destruct (run_kms _ _ w2 pass_unknown Hw2) as (w3 & -> & Hw3 & T3); [lia|].
  destruct (run_kms _ _ w3 pass_current Hw3) as (w4 & -> & Hw4 & T4); [lia|].
  destruct (pass_isolation w4 Hw4) as (w5 & E5 & Hw5 & T5 & Ha); [lia|]. unfold Run at 3. rewrite E5. cbn [fst].
  assert (Hpers : exists w6, Run (match PersistentNew c with None => mret tt | Some open => kmsTestPersistsAcrossInstances rand open end)
    (mkT w5 0 0 false) = mkT w6 0 0 false /\ ok w6 /\ (tick w5 <= tick w6 <= tick w5 + 24)%nat).
  { destruct (PersistentNew c) as [open|] eqn:Ho; [|exists w5; split; [done|]; split; [done|lia]].
    destruct (pass_persists open Ho w5 Hw5 Ha) as (w6 & E6 & Hw6 & T6); [lia|]. exists w6. unfold Run. rewrite E6. split; [done|]. split; [done|lia]. }
  destruct Hpers as (w6 & -> & Hw6 & T6).
  destruct (Rotating c) eqn:Hrot; [|by exists w6].
  destruct (run_kms _ _ w6 (pass_rotation Hrot) Hw6) as (w7 & -> & Hw7 & _); [lia|]. by exists w7.
Qed.
End KmsPasses.

(** ** The two stores *)
Section Stores.
Import KmsSuite.
Context {A : AEAD} (rnd : nat -> Z -> bytes) (Hlen : forall i n, 0 <= n -> Z.of_nat (length (rnd i n)) = n).

(** The in-process store in a world of its own. *)
Definition InprocWorld : Type := Keks * nat.
Definition inproc_start : InprocWorld := (∅, 0%nat).
Definition inproc_rand (n : Z) : M InprocWorld bytes := fun w => ((fst w, S (snd w)), Ok (rnd (snd w) n)).
Definition set_inproc (m : Keks) (w : InprocWorld) : InprocWorld := (m, snd w).
Definition inproc_ks : KeyStore InprocWorld := Inproc.keyStore fst set_inproc inproc_rand.

Definition inproc_conformance : KMSConformance InprocWorld :=
  mkKMSConformance _ (fun w => ((∅, snd w), Ok inproc_ks)) None true (Some (Inproc.RotateKEK fst set_inproc inproc_rand)).

Lemma cipher_32 i : NewCipher (rnd i 32) = None.
Proof. unfold NewCipher. rewrite Hlen by lia. done. Qed.

Lemma last_kek_nil t (m : Keks) : tenant_keks m t = [] -> Inproc.last_kek (tenant_keks m t) = None.
Proof. by intros ->. Qed.

Lemma append_first t k m : tenant_keks m t = [] -> <[t := [k]]> m = append_kek t k m.
Proof. intros H. unfold append_kek. by rewrite H. Qed.

Lemma inproc_conforms : ConformingKMS fst snd (fun _ => True) inproc_conformance inproc_ks inproc_rand rnd.
Proof using Hlen.
  split.
  - intros w _. unfold after. eexists. split; [done|]. simpl. split_and!; done || lia.
  - done.
  - intros n w _. eexists. split; [done|]. unfold after, drawn. simpl. split_and!; done || lia.
  - intros t dek w _ Ht. unfold after, drawn. simpl. unfold Inproc.WrapDEK, Inproc.activeKEK, Inproc.read_keks, mbind, M_bind. cbn.
    rewrite Ht. cbn. rewrite Ht. cbn. unfold aesGCMSeal. rewrite cipher_32. cbn. rewrite (append_first t _ _ Ht).
    do 3 eexists. split; [reflexivity|]. simpl. split_and!; done || lia.
  - intros t dek k w _ Hl Hc. unfold after, drawn. simpl. unfold Inproc.WrapDEK, Inproc.activeKEK, Inproc.read_keks, mbind, M_bind. cbn.
    unfold Inproc.last_kek. rewrite Hl. cbn. unfold aesGCMSeal. rewrite Hc. cbn.
    do 2 eexists. split; [reflexivity|]. simpl. split_and!; done || lia.
  - intros t b v k w _ Hv Hk. simpl. unfold Inproc.UnwrapDEK, Inproc.read_keks, mbind, M_bind. cbn.
    apply lookup_lt_Some in Hk as Hlt. rewrite (proj2 (Z.eqb_neq v 0)), (proj2 (Z.ltb_ge _ v)) by lia. cbn. by rewrite Hk.
  - intros t b v w _ Hv Hl. simpl. unfold Inproc.UnwrapDEK, Inproc.read_keks, mbind, M_bind. cbn.
    rewrite (proj2 (Z.ltb_lt _ v)), orb_true_r by lia. by eexists.
  - done.
  - intros _. by eexists.
  - intros rotate t w [= <-] _. unfold after, drawn, Inproc.RotateKEK, Inproc.append_, Inproc.read_keks, wrap_err, mbind, M_bind. cbn.
    exists (append_kek t (rnd (snd w) 32) (fst w), S (snd w)), (snd w). split; [|simpl; split_and!; done || lia].
    unfold mret, M_ret. by rewrite tenant_append, decide_True, length_app by done.
Qed.

(** The file store, when no system call fails: New is on a path of its own, and
    PersistentNew on the path of the store that was opened last. *)
Context (sys : nat -> option err) (Hsys : forall t, sys t = None).

Definition file_ks : KeyStore FileKMS.World :=
  mkKeyStore _ (FileKMS.WrapDEK sys rnd) FileKMS.UnwrapDEK FileKMS.CurrentKEKVersion.
Definition file_open : M FileKMS.World (KeyStore FileKMS.World) := FileKMS.New sys ≫= fun _ => mret file_ks.
Definition file_conformance : KMSConformance FileKMS.World :=
  mkKMSConformance _ (fun w => file_open (FileKMS.mkWorld ∅ None (FileKMS.f_tick w))) (Some file_open) true
    (Some (FileKMS.RotateKEK sys rnd)).

Lemma save_run w : FileKMS.save sys w =
  (FileKMS.mkWorld (FileKMS.f_keks w) (Some (FileKMS.f_keks w)) (S (S (S (FileKMS.f_tick w)))), Ok tt).
Proof using Hsys. unfold FileKMS.save, FileKMS.syscall, mbind, M_bind. repeat (rewrite ?Hsys; simpl). done. Qed.

Lemma file_conforms : ConformingKMS FileKMS.f_keks FileKMS.f_tick durable file_conformance file_ks (FileKMS.rand rnd) rnd.
Proof using Hlen Hsys.
  split; unfold after, drawn, durable.
  - intros w _. simpl. unfold file_open, FileKMS.New, mbind, M_bind. rewrite Hsys. eexists. split; [reflexivity|]. simpl. split_and!; done || lia.
  - intros open w [= <-] Hd. unfold file_open, FileKMS.New, mbind, M_bind. rewrite Hsys. eexists. split; [reflexivity|]. simpl. split_and!; done || lia.
  - intros n w Hd. eexists. split; [reflexivity|]. simpl. split_and!; done || lia.
  - intros t dek w Hd Ht. simpl. unfold FileKMS.WrapDEK, FileKMS.activeKEK, FileKMS.read_keks, mbind, M_bind. cbn.
    rewrite Ht. cbn. unfold wrap_err. rewrite save_run. cbn. unfold aesGCMSeal. rewrite cipher_32. cbn.
    do 3 eexists. split; [reflexivity|]. simpl. split_and!; done || lia.
  - intros t dek k w Hd Hl Hc. simpl. unfold FileKMS.WrapDEK, FileKMS.activeKEK, FileKMS.read_keks, mbind, M_bind. cbn.
    unfold Inproc.last_kek. rewrite Hl. cbn. unfold aesGCMSeal. rewrite Hc. cbn.
    do 2 eexists. split; [reflexivity|]. simpl. split_and!; done || lia.
  - intros t b v k w _ Hv Hk. simpl. unfold FileKMS.UnwrapDEK, FileKMS.read_keks, mbind, M_bind. cbn.
    apply lookup_lt_Some in Hk as Hlt. rewrite (proj2 (Z.eqb_neq v 0)), (proj2 (Z.ltb_ge _ v)) by lia. by rewrite Hk.
  - intros t b v w _ Hv Hl. simpl. unfold FileKMS.UnwrapDEK, FileKMS.read_keks, mbind, M_bind. cbn.
    rewrite (proj2 (Z.eqb_neq v 0)), (proj2 (Z.ltb_lt _ v)) by lia. by eexists.
  - done.
  - intros _. by eexists.
  - intros rotate t w [= <-] Hd. unfold FileKMS.RotateKEK, FileKMS.append_, FileKMS.read_keks, wrap_err, mbind, M_bind. cbn.
    rewrite save_run. cbn. unfold mret, M_ret. rewrite tenant_append, decide_True, length_app by done.
    do 2 eexists. split; [reflexivity|]. simpl. split_and!; done || lia.
Qed.
End Stores.

(** Both key stores are compliant.  When random bytes are as long as asked for,
    and in the run no nonce repeats and no key opens what another key sealed,
    every test of the key-store conformance suite passes: on the in-process
    store, and, when no system call fails, on the file store, across instances. *)
Theorem kms_conformance {A : AEAD} (AL : AEADLaws A) (rnd : nat -> Z -> bytes) (sys : nat -> option err) :
  (forall i n, 0 <= n -> Z.of_nat (length (rnd i n)) = n) ->
  (forall i j, (i < j < 156)%nat -> rnd i 12 <> rnd j 12) ->
  (forall i j iv dek, (i < 156)%nat -> (j < 156)%nat -> i <> j -> gcm_open (rnd j 32) iv (gcm_seal (rnd i 32) iv dek) = None) ->
  (forall t, sys t = None) ->
  Suite.t_failed (KmsSuite.RunKMSConformance (inproc_conformance rnd) (inproc_rand rnd) (Suite.mkT inproc_start 0 0 false)) = false /\
  Suite.t_failed (KmsSuite.RunKMSConformance (file_conformance rnd sys) (FileKMS.rand rnd)
    (Suite.mkT (FileKMS.mkWorld ∅ None 0) 0 0 false)) = false.
Proof.
  intros Hlen Hnonce Hauth Hsys. split.
  - pose proof (inproc_conforms rnd Hlen) as CK.
    destruct (kms_suite_passes (CK := CK) Hlen 156 Hnonce Hauth inproc_start) as (w' & H & _); [done|simpl; lia|exact (f_equal Suite.t_failed H)].
  - pose proof (file_conforms rnd Hlen sys Hsys) as CK.
    destruct (kms_suite_passes (CK := CK) Hlen 156 Hnonce Hauth (FileKMS.mkWorld ∅ None 0)) as (w' & H & _); [done|simpl; lia|exact (f_equal Suite.t_failed H)].
Qed.
