(* ===== verification/Retention.v ===== *)
(** * The retention worker (shred/retention.go)

    A sweep lists the subjects of each tenant whose key is older than the
    window and forgets them, page by page.  [RetentionLaws] states what it
    relies on beyond [ShredLaws]. *)
From S2P Require Import Prelude Errors Streams Events Shred.

Record RetentionScanner (W : Type) := mkRetentionScanner {
  ListSubjectsCreatedBefore : string -> Time -> Z -> M W (list SubjectKey)
}.
Arguments ListSubjectsCreatedBefore {_} _ _ _ _.

Module Retention.
Section Retention.
Context {W : Type}.
Notation SW := (W * DekCache.t)%type.

Record RetentionWorker := mkRetentionWorker {
  rw_Shredder : option (Shredder.t W);
  Scanner : option (RetentionScanner W);
  (** Whether Shredder.Store implements RetentionScanner. *)
  StoreScanner : option (RetentionScanner W);
  Tenants : option (M SW (list string));
  MaxAge : Duration;
  Interval : Duration;
  BatchSize : Z;
  OnShredded : option (string -> string -> M SW unit);
  now : M SW Time
}.

Definition resolveScanner (rw : RetentionWorker) : option (RetentionScanner W) :=
  match Scanner rw with
  | Some s => Some s
  | None => StoreScanner rw
  end.

Definition validate (rw : RetentionWorker) : option err :=
  match rw_Shredder rw, Tenants rw with
  | None, _ => Some (ENew "shred: RetentionWorker.Shredder is required")
  | _, None => Some (ENew "shred: RetentionWorker.Tenants is required")
  | _, _ => if MaxAge rw <=? 0 then Some (ENew "shred: RetentionWorker.MaxAge must be > 0") else None
  end.

Definition StaticTenants (tenantIDs : list string) : M SW (list string) := mret tenantIDs.

Context (rw : RetentionWorker) (s : Shredder.t W) (ctxErr : M SW bool).

Definition batchSize : Z := if BatchSize rw <=? 0 then 100 else BatchSize rw.

(** An error of the callback is logged and dropped. *)
Definition onShredded (tenantID subject : string) (w : SW) : SW :=
  match OnShredded rw with
  | None => w
  | Some f => fst (f tenantID subject w)
  end.

(** The rows of a page. *)
Fixpoint forgetRows (total : Z) (rows : list SubjectKey) (w : SW) : SW * (Z * option err) :=
  match rows with
  | [] => (w, (total, None))
  | row :: rows' =>
      match Shredder.ForgetSubject s (sk_TenantID row) (sk_Subject row) w with
      | (w1, Err e) => (w1, (total, Some (EWrap "shred: retention forget" e)))
      | (w1, Ok _) => forgetRows (total + 1) rows' (onShredded (sk_TenantID row) (sk_Subject row) w1)
      end
  end.

(** [None]: out of fuel. *)
Fixpoint sweepTenant (fuel : nat) (scanner : RetentionScanner W) (tenantID : string) (cutoff : Time)
    (total : Z) (w : SW) : option (SW * (Z * option err)) :=
  match fuel with
  | O => None
  | S fuel' =>
      match ctxErr w with
      | (w1, Ok false) =>
          match Shredder.on_stores (ListSubjectsCreatedBefore scanner tenantID cutoff batchSize) w1 with
          | (w2, Err e) => Some (w2, (total, Some (EWrap "shred: retention scan" e)))
          | (w2, Ok []) => Some (w2, (total, None))
          | (w2, Ok rows) =>
              match forgetRows total rows w2 with
              | (w3, (total, Some e)) => Some (w3, (total, Some e))
              | (w3, (total, None)) =>
                  if Z.of_nat (length rows) <? batchSize then Some (w3, (total, None))
                  else sweepTenant fuel' scanner tenantID cutoff total w3
              end
          end
      | (w1, _) => Some (w1, (total, None))
      end
  end.

(** The loop over the tenants; the first error is kept and the sweep goes on. *)
Fixpoint sweepTenants (fuel : nat) (scanner : RetentionScanner W) (cutoff : Time) (tenants : list string)
    (total : Z) (firstErr : option err) (w : SW) : option (SW * (Z * option err)) :=
  match tenants with
  | [] => Some (w, (total, firstErr))
  | tenantID :: tenants' =>
      match ctxErr w with
      | (w1, Ok false) =>
          match sweepTenant fuel scanner tenantID cutoff 0 w1 with
          | None => None
          | Some (w2, (count, e)) =>
              sweepTenants fuel scanner cutoff tenants' (total + count)
                (match firstErr with Some _ => firstErr | None => e end) w2
          end
      | (w1, _) => Some (w1, (total, None))
      end
  end.

End Retention.
Arguments RetentionWorker : clear implicits.

Definition RunOnce {W} (rw : RetentionWorker W) (ctxErr : M (W * DekCache.t) bool) (fuel : nat)
    (w : W * DekCache.t) : option (W * DekCache.t * (Z * option err)) :=
  match validate rw, rw_Shredder rw, Tenants rw with
  | Some e, _, _ => Some (w, (0, Some e))
  | None, Some s, Some tenantSource =>
      match resolveScanner rw with
      | None => Some (w, (0, Some (ESent ErrRetentionScannerNotSupported)))
      | Some scanner =>
          match tenantSource w with
          | (w1, Err e) => Some (w1, (0, Some (EWrap "shred: retention worker: tenant source" e)))
          | (w1, Ok tenants) =>
              match now rw w1 with
              | (w2, Err e) => Some (w2, (0, Some e))
              | (w2, Ok t) => sweepTenants rw s ctxErr fuel scanner (t - MaxAge rw) tenants 0 None w2
              end
          end
      end
  | None, _, _ => Some (w, (0, None))
  end.

(** Run: sweeps until the context is done; [wait] is the select on the ticker
    and tells whether the context ended it.  Errors of a sweep are logged. *)
Fixpoint runLoop {W} (rw : RetentionWorker W) (ctxErr : M (W * DekCache.t) bool)
    (wait : M (W * DekCache.t) bool) (fuel : nat) (w : W * DekCache.t)
    : option (W * DekCache.t * option err) :=
  match fuel with
  | O => None
  | S fuel' =>
      match RunOnce rw ctxErr fuel w with
      | None => None
      | Some (w1, _) =>
          match wait w1 with
          | (w2, Ok false) => runLoop rw ctxErr wait fuel' w2
          | (w2, _) => Some (w2, None)
          end
      end
  end.

Definition Run {W} (rw : RetentionWorker W) (ctxErr wait : M (W * DekCache.t) bool) (fuel : nat)
    (w : W * DekCache.t) : option (W * DekCache.t * option err) :=
  match validate rw with
  | Some e => Some (w, Some e)
  | None =>
      match resolveScanner rw with
      | None => Some (w, Some (ESent ErrRetentionScannerNotSupported))
      | Some _ => runLoop rw ctxErr wait fuel w
      end
  end.
End Retention.

(** ** What a sweep relies on *)
Section Laws.
Context {W : Type} (ok : W -> Prop) (rows : W -> gmap (string * string) KeyRow)
  (wraps : W -> string -> bytes -> Z -> bytes -> Prop) (current : W -> string -> Z)
  (expired : string -> Time -> W -> gmap (string * string) KeyRow).

(** [expired t c w]: the live rows of tenant [t] whose key is older than [c]. *)
Class RetentionLaws (s : Shredder.t W) (scanner : RetentionScanner W) := {
  rl_sub : forall t c w k r, ok w -> expired t c w !! k = Some r ->
    fst k = t /\ rows w !! k = Some r /\ kr_shredded r = false;
  rl_list : forall t c n w w' x, ok w -> 0 < n -> ListSubjectsCreatedBefore scanner t c n w = (w', x) ->
    rows_kept ok rows wraps current w w' /\ (forall t c, expired t c w' = expired t c w) /\
    (forall l, x = Ok l -> exists p,
       p ≡ₚ map_to_list (expired t c w) /\
       ((fun k => ((sk_TenantID k, sk_Subject k), row_of k)) <$> l) = take (Z.to_nat n) p);
  rl_forget : forall t u w w' x, ok w -> ForgetSubjectKey (Shredder.Store s) t u w = (w', x) ->
    forall t' c, expired t' c w' =
      match x with Ok _ => delete (t, u) (expired t' c w) | Err _ => expired t' c w end
}.

(** The callback and the context touch no key. *)
Definition keeps_keys {B} (m : M (W * DekCache.t) B) : Prop :=
  forall w w' x, ok (fst w) -> m w = (w', x) ->
    keys_kept ok wraps current (fst w) (fst w') /\ rows (fst w') = rows (fst w) /\
    (forall t c, expired t c (fst w') = expired t c (fst w)).
End Laws.
Arguments rl_sub {_ _ _ _ _ _ _ _ _}.
Arguments rl_list {_ _ _ _ _ _ _ _ _}.
Arguments rl_forget {_ _ _ _ _ _ _ _ _}.

Section Facts.
Context {W : Type} {ok : W -> Prop} {rows : W -> gmap (string * string) KeyRow}
  {wraps : W -> string -> bytes -> Z -> bytes -> Prop} {current : W -> string -> Z}
  {expired : string -> Time -> W -> gmap (string * string) KeyRow}
  {s : Shredder.t W} {scanner : RetentionScanner W}
  {SL : ShredLaws ok rows wraps current s} {RL : RetentionLaws ok rows wraps current expired s scanner}
  {rw : Retention.RetentionWorker W} {ctxErr : M (W * DekCache.t) bool}
  (Hcb : forall t u f, Retention.OnShredded rw = Some f ->
     keeps_keys ok rows wraps current expired (f t u))
  (Hctx : keeps_keys ok rows wraps current expired ctxErr).
Notation SW := (W * DekCache.t)%type.
Notation keys_kept := (keys_kept ok wraps current).

Definition tombstone (r : KeyRow) : KeyRow := mkKeyRow [] (kr_version r) true.

(** A sweep of tenant [t]: rows are as they were, or were expired and are now
    tombstones; other tenants see no difference. *)
Definition swept (t : string) (c : Time) (w w' : W) : Prop :=
  keys_kept w w' /\ expired t c w' ⊆ expired t c w /\
  (forall t' c', t' <> t -> expired t' c' w' = expired t' c' w) /\
  forall k, rows w' !! k = rows w !! k \/
    exists r, expired t c w !! k = Some r /\ rows w' !! k = Some (tombstone r).

Lemma swept_refl t c w : ok w -> swept t c w w.
Proof using. intros Hok. split; [by apply keys_kept_refl|]. split; [done|]. split; [done|]. intros k. by left. Qed.

Lemma swept_same t c w w' :
  keys_kept w w' -> rows w' = rows w -> (forall t c, expired t c w' = expired t c w) -> swept t c w w'.
Proof using. intros Hk Hr He. split; [done|]. split; [by rewrite He|]. split; [auto|].
  intros k. left. by rewrite Hr. Qed.

Lemma swept_trans t c w1 w2 w3 : ok w1 -> swept t c w1 w2 -> swept t c w2 w3 -> swept t c w1 w3.
Proof using RL.
  intros Hok (Hk1 & Hs1 & Ho1 & H1) (Hk2 & Hs2 & Ho2 & H2).
  split; [by eapply keys_kept_trans|]. split; [by etrans|]. split; [intros t' c' Ht; by rewrite Ho2, Ho1|].
  intros k. destruct (H2 k) as [E2|(r & Hr & Hr')].
  - destruct (H1 k) as [E1|(r & Hr & Hr')]; [left; congruence|right; exists r; split; congruence].
  - right. exists r. split; [by eapply lookup_weaken|done].
Qed.

Lemma forget_swept t c u r w w' x :
  ok (fst w) -> expired t c (fst w) !! (t, u) = Some r -> Shredder.ForgetSubject s t u w = (w', x) ->
  swept t c (fst w) (fst w') /\
  expired t c (fst w') = match x with Ok _ => delete (t, u) (expired t c (fst w)) | Err _ => expired t c (fst w) end.
Proof using SL RL.
  intros Hok Hex. unfold Shredder.ForgetSubject, mbind, M_bind.
  destruct (Shredder.on_stores (ForgetSubjectKey _ t u) w) as [w1 y] eqn:H1.
  apply on_stores_inv in H1 as [H1 _]. destruct (kl_forget _ _ _ _ _ Hok H1) as [Hk Hr].
  pose proof (rl_forget _ _ _ _ _ Hok H1) as He.
  destruct y as [[]|e]; intros [= <- <-]; simpl; (split; [|by rewrite He]).
  2:{ by apply swept_same. }
  split; [done|]. split; [rewrite He; apply delete_subseteq|]. split.
  - intros t' c' Ht. rewrite He, delete_id; [done|].
    destruct (expired t' c' (fst w) !! (t, u)) eqn:Hx; [|done]. by destruct (rl_sub _ _ _ _ _ Hok Hx) as [? _].
  - intros k. rewrite Hr. destruct (decide ((t, u) = k)) as [<-|Hne]; [|left; by rewrite lookup_alter_ne].
    right. exists r. split; [done|]. rewrite lookup_alter_eq.
    by destruct (rl_sub _ _ _ _ _ Hok Hex) as (_ & -> & _).
Qed.

Lemma onShredded_same t c t' u w :
  ok (fst w) -> swept t c (fst w) (fst (Retention.onShredded rw t' u w)) /\
    (forall t c, expired t c (fst (Retention.onShredded rw t' u w)) = expired t c (fst w)).
Proof using Hcb.
  intros Hok. unfold Retention.onShredded. destruct (Retention.OnShredded rw) as [f|] eqn:Hf; [|by split; [apply swept_refl|]].
  destruct (f t' u w) as [w' x] eqn:Hrun. destruct (Hcb t' u f eq_refl w w' x Hok Hrun) as (? & ? & ?).
  simpl. split; [by apply swept_same|done].
Qed.

Lemma forgetRows_spec t c l : forall total w w' n e,
  ok (fst w) -> NoDup (sk_Subject <$> l) ->
  Forall (fun k => sk_TenantID k = t /\ expired t c (fst w) !! (t, sk_Subject k) = Some (row_of k)) l ->
  Retention.forgetRows rw s total l w = (w', (n, e)) ->
  swept t c (fst w) (fst w') /\
  n + Z.of_nat (size (expired t c (fst w'))) = total + Z.of_nat (size (expired t c (fst w))) /\
  (e = None -> n = total + Z.of_nat (length l)).
Proof using Hcb SL RL.
  induction l as [|k l IH]; intros total w w' n e Hok Hnd HF; simpl.
  { intros [= <- <- <-]. split_and!; [by apply swept_refl|done|lia]. }
  apply Forall_cons in HF as [[Ht Hk] HF]. apply NoDup_cons in Hnd as [Hni Hnd]. rewrite Ht.
  destruct (Shredder.ForgetSubject s t (sk_Subject k) w) as [w1 y] eqn:H1.
  apply (forget_swept t c _ _ _ _ _ Hok Hk) in H1 as [Hs1 He1].
  destruct y as [u|er]; [|intros [= <- <- <-]; rewrite He1; split_and!; [done|lia|done]].
  destruct (onShredded_same t c t (sk_Subject k) w1 (proj1 (proj1 Hs1))) as [Hs2 He2].
  pose proof (swept_trans _ _ _ _ _ Hok Hs1 Hs2) as Hs12. intros Hrec.
  apply IH in Hrec as (Hs3 & Hn & He); [|apply Hs2|done|].
  - split_and!; [by eapply swept_trans| |intros ->; specialize (He eq_refl); lia].
    rewrite Hn, He2, He1. pose proof (map_size_delete_Some _ _ (mk_is_Some _ _ Hk)) as Hsz.
    assert (Hpos : size (expired t c (fst w)) <> 0%nat)
      by (intros Hz; apply map_size_empty_inv in Hz; by rewrite Hz in Hk). lia.
  - rewrite He2, He1. apply Forall_forall. intros k' Hk'. rewrite Forall_forall in HF.
    destruct (HF k' Hk') as [Ht' Hx']. split; [done|]. rewrite lookup_delete_ne; [done|].
    intros [= Heq]. apply Hni. rewrite Heq. by apply list_elem_of_fmap_2.
Qed.

Lemma retention_batch_pos : 0 < Retention.batchSize rw.
Proof using. unfold Retention.batchSize. destruct (Z.leb_spec (Retention.BatchSize rw) 0); lia. Qed.

(** A page of expired subjects. *)
Lemma expired_page t c w w' l :
  ok (fst w) -> Shredder.on_stores (ListSubjectsCreatedBefore scanner t c (Retention.batchSize rw)) w = (w', Ok l) ->
  swept t c (fst w) (fst w') /\ expired t c (fst w') = expired t c (fst w) /\ NoDup (sk_Subject <$> l) /\
  Forall (fun k => sk_TenantID k = t /\ expired t c (fst w') !! (t, sk_Subject k) = Some (row_of k)) l /\
  (Z.of_nat (length l) < Retention.batchSize rw -> length l = size (expired t c (fst w'))).
Proof using SL RL.
  intros Hok [H _]%on_stores_inv. destruct (rl_list _ _ _ _ _ _ Hok retention_batch_pos H) as (Hk & He & Hl).
  destruct (Hl l eq_refl) as (p & Hp & Heq). rewrite He. pose proof retention_batch_pos as Hb.
  assert (Hin : Forall (fun k => sk_TenantID k = t /\ expired t c (fst w) !! (t, sk_Subject k) = Some (row_of k)) l).
  { apply Forall_forall. intros k Hkl.
    assert (Hx : ((sk_TenantID k, sk_Subject k), row_of k) ∈ p).
    { rewrite <- (take_drop (Z.to_nat (Retention.batchSize rw)) p), <- Heq. apply elem_of_app. left.
      by apply (list_elem_of_fmap_2 (fun k => ((sk_TenantID k, sk_Subject k), row_of k))). }
    rewrite Hp in Hx. apply elem_of_map_to_list in Hx. destruct (rl_sub _ _ _ _ _ Hok Hx) as [Ht _].
    simpl in Ht. rewrite Ht in Hx. done. }
  split_and!; [apply swept_same; [apply Hk|apply Hk|done]|done| |done|].
  - apply (NoDup_fmap_1 (pair t)).
    assert (Hfst : pair t <$> (sk_Subject <$> l) = (take (Z.to_nat (Retention.batchSize rw)) p).*1).
    { rewrite <- Heq, <- !list_fmap_compose. apply list_fmap_ext. intros i k Hi%list_elem_of_lookup_2.
      rewrite Forall_forall in Hin. destruct (Hin k Hi) as [<- _]. done. }
    rewrite Hfst. eapply sublist_NoDup; [|apply fmap_sublist, sublist_take]. rewrite Hp.
    apply NoDup_fst_map_to_list.
  - intros Hlt. apply (f_equal length) in Heq. rewrite length_fmap, length_take in Heq.
    rewrite <- length_map_to_list, <- Hp. lia.
Qed.

(** The context is never done. *)
Definition live : Prop := forall w, ok (fst w) -> exists w', ctxErr w = (w', Ok false).

Lemma sweepTenant_spec t c fuel : forall total w,
  ok (fst w) -> (size (expired t c (fst w)) < fuel)%nat ->
  exists w' n e, Retention.sweepTenant rw s ctxErr fuel scanner t c total w = Some (w', (n, e)) /\
    swept t c (fst w) (fst w') /\
    n + Z.of_nat (size (expired t c (fst w'))) = total + Z.of_nat (size (expired t c (fst w))) /\
    (e = None -> live -> expired t c (fst w') = ∅).
Proof using Hcb Hctx SL RL.
  induction fuel as [|fuel IH]; intros total w Hok Hfuel; [lia|]. cbn [Retention.sweepTenant].
  destruct (ctxErr w) as [w1 y] eqn:Hc. destruct (Hctx w w1 _ Hok Hc) as (Hk1 & Hr1 & He1).
  pose proof (swept_same t c _ _ Hk1 Hr1 He1) as Hs1. pose proof (proj1 Hk1) as Hok1.
  assert (Hstop : (forall w', ctxErr w <> (w', Ok false)) -> live -> expired t c (fst w1) = ∅)
    by (intros Hn Hlive; destruct (Hlive w Hok) as [w' Hw']; by destruct (Hn w')).
  destruct y as [[]|er]; [do 3 eexists; split; [done|]; rewrite He1; rewrite He1 in Hstop; split_and!;
    [done|done|intros _; apply Hstop; rewrite Hc; congruence]| |do 3 eexists; split; [done|]; rewrite He1; rewrite He1 in Hstop; split_and!;
    [done|done|intros _; apply Hstop; rewrite Hc; congruence]].
  destruct (Shredder.on_stores _ w1) as [w2 [l|er]] eqn:Hl.
  2:{ apply on_stores_inv in Hl as [Hl _]. destruct (rl_list _ _ _ _ _ _ Hok1 retention_batch_pos Hl) as (Hk & He & _).
      do 3 eexists. split; [done|]. rewrite He, He1. split_and!; [|done|done].
      eapply swept_trans; [done|exact Hs1|]. apply swept_same; [apply Hk|apply Hk|done]. }
  apply expired_page in Hl as (Hs2 & He2 & Hnd & HF & Hlen); [|done].
  pose proof (swept_trans _ _ _ _ _ Hok Hs1 Hs2) as Hs12. pose proof (proj1 (proj1 Hs2)) as Hok2.
  rewrite <- (He1 t c), <- He2 in *. pose proof retention_batch_pos as Hb.
  destruct l as [|k l].
  { do 3 eexists. split; [done|]. split_and!; [done|done|]. intros _ _.
    apply map_size_empty_inv. symmetry. apply Hlen. simpl. lia. }
  destruct (Retention.forgetRows rw s total (k :: l) w2) as [w3 [m e]] eqn:Hf.
  apply (forgetRows_spec t c) in Hf as (Hs3 & Hm & He); [|done|done|done].
  pose proof (swept_trans _ _ _ _ _ Hok Hs12 Hs3) as Hs.
  destruct e as [e|]; [do 3 eexists; split; [done|]; by split_and!|]. specialize (He eq_refl).
  destruct (Z.ltb_spec (Z.of_nat (length (k :: l))) (Retention.batchSize rw)) as [Hlt|Hge].
  - do 3 eexists. split; [done|]. split_and!; [done|done|]. intros _ _.
    specialize (Hlen Hlt). apply map_size_empty_inv. lia.
  - simpl length in He. destruct (IH m w3) as (w' & n & e & Hrun & Hs4 & Hn & He'); [apply Hs3|lia|].
    exists w', n, e. split_and!; [done|by eapply swept_trans|lia|done].
Qed.
(** The sweeps of several tenants. *)
Definition swept_all (ts : list string) (c : Time) (w w' : W) : Prop :=
  keys_kept w w' /\ (forall t, expired t c w' ⊆ expired t c w) /\
  (forall t, t ∉ ts -> expired t c w' = expired t c w) /\
  forall k, rows w' !! k = rows w !! k \/
    exists r, fst k ∈ ts /\ expired (fst k) c w !! k = Some r /\ rows w' !! k = Some (tombstone r).

Lemma swept_one t c ts w w' : ok w -> swept t c w w' -> swept_all (t :: ts) c w w'.
Proof using RL.
  intros Hok (Hk & Hs & Ho & Hr). split; [done|]. split.
  - intros t'. destruct (decide (t' = t)) as [->|Hne]; [done|by rewrite Ho].
  - split; [intros t' [Hne _]%not_elem_of_cons; by apply Ho|].
    intros k. destruct (Hr k) as [?|(r & Hx & Hr')]; [by left|right]. exists r.
    destruct (rl_sub _ _ _ _ _ Hok Hx) as [<- _]. split; [by left|done].
Qed.

Lemma swept_all_trans t ts c w1 w2 w3 :
  swept_all (t :: ts) c w1 w2 -> swept_all ts c w2 w3 -> swept_all (t :: ts) c w1 w3.
Proof using.
  intros (Hk1 & Hs1 & Ho1 & H1) (Hk2 & Hs2 & Ho2 & H2). split; [by eapply keys_kept_trans|].
  split; [intros t'; exact (transitivity (Hs2 t') (Hs1 t'))|].
  split; [intros t' Ht; rewrite Ho2, Ho1; [done|done|by intros ?; apply Ht; right]|].
  intros k. destruct (H2 k) as [E2|(r & Hin & Hx & Hr)].
  - destruct (H1 k) as [E1|(r & Hin & Hx & Hr)]; [left; congruence|right; exists r; split_and!; [done|done|congruence]].
  - right. exists r. split_and!; [by right|by eapply lookup_weaken|done].
Qed.

(** How many subjects of the tenants are due. *)
Definition due (ts : list string) (c : Time) (w : W) : nat := sum_list_with (fun t => size (expired t c w)) ts.

Lemma due_ext ts c w w' : (forall t, t ∈ ts -> expired t c w' = expired t c w) -> due ts c w' = due ts c w.
Proof using.
  intros H. unfold due. induction ts as [|t ts IH]; simpl; [done|].
  rewrite (H t), IH; [done| |by left]. intros t' Ht'. apply H. by right.
Qed.

Lemma sweepTenants_spec c fuel ts : forall total firstErr w,
  ok (fst w) -> (forall t, t ∈ ts -> (size (expired t c (fst w)) < fuel)%nat) ->
  exists w' n e, Retention.sweepTenants rw s ctxErr fuel scanner c ts total firstErr w = Some (w', (n, e)) /\
    swept_all ts c (fst w) (fst w') /\
    (NoDup ts -> n + Z.of_nat (due ts c (fst w')) = total + Z.of_nat (due ts c (fst w))) /\
    (e = None -> live -> firstErr = None /\ forall t, t ∈ ts -> expired t c (fst w') = ∅).
Proof using Hcb Hctx SL RL.
  induction ts as [|t ts IH]; intros total firstErr w Hok Hfuel; cbn [Retention.sweepTenants].
  { do 3 eexists. split; [done|]. split.
    - split; [by apply keys_kept_refl|]. split; [done|]. split; [done|]. intros k. by left.
    - split; [done|]. intros -> _. split; [done|]. intros t Ht. by apply elem_of_nil in Ht. }
  destruct (ctxErr w) as [w1 y] eqn:Hc. destruct (Hctx w w1 _ Hok Hc) as (Hk1 & Hr1 & He1).
  pose proof (swept_same t c _ _ Hk1 Hr1 He1) as Hs1.
  assert (Hdone : y <> Ok false ->
    swept_all (t :: ts) c (fst w) (fst w1) /\
    (NoDup (t :: ts) -> total + Z.of_nat (due (t :: ts) c (fst w1)) = total + Z.of_nat (due (t :: ts) c (fst w))) /\
    (@None err = None -> live -> firstErr = None /\ forall u, u ∈ t :: ts -> expired u c (fst w1) = ∅)).
  { intros Hy. split; [by apply swept_one|]. split; [intros _; by rewrite (due_ext _ _ (fst w) (fst w1)) by auto|].
    intros _ Hlive. destruct (Hlive w Hok) as [w' Hw']. rewrite Hc in Hw'. congruence. }
  destruct y as [[]|er]; [do 3 eexists; split; [done|]; by apply Hdone| |do 3 eexists; split; [done|]; by apply Hdone].
  clear Hdone.
  destruct (sweepTenant_spec t c fuel 0 w1 (proj1 Hk1)) as (w2 & n & e & -> & Hs2 & Hn & He2).
  { rewrite He1. apply Hfuel. by left. }
  pose proof (swept_trans _ _ _ _ _ Hok Hs1 Hs2) as Hs12.
  pose proof (swept_one t c ts _ _ Hok Hs12) as Ha. destruct Hs12 as (Hk12 & Hsub & Ho12 & _).
  destruct (IH (total + n) (match firstErr with Some _ => firstErr | None => e end) w2)
    as (w' & m & e' & Hrun & Hs' & Hm & He').
  - apply Hk12.
  - intros t' Ht'. eapply Nat.le_lt_trans; [apply map_subseteq_size, Ha|]. apply Hfuel. by right.
  - exists w', m, e'. split; [done|]. split; [by eapply swept_all_trans|]. split.
    { intros [Hni Hnd]%NoDup_cons. specialize (Hm Hnd). unfold due in *. simpl. rewrite He1 in Hn.
      destruct Hs' as (_ & _ & Ho' & _). rewrite (Ho' t Hni).
      assert (Hd : due ts c (fst w2) = due ts c (fst w)).
      { apply due_ext. intros t' Ht'. apply Ho12. by intros ->. }
      unfold due in Hd. rewrite Hd in Hm. lia. }
    intros Hnone Hlive. destruct (He' Hnone Hlive) as [Hfirst Hall]. destruct firstErr; [done|]. subst e. split; [done|].
    intros t' [->|Ht']%elem_of_cons; [|by apply Hall].
    destruct Hs' as (_ & Hsub' & _ & _). specialize (Hsub' t). rewrite (He2 eq_refl Hlive) in Hsub'.
    apply map_empty. intros k. apply eq_None_not_Some. intros [r Hr]. by apply (lookup_weaken _ _ _ _ Hr) in Hsub'.
Qed.
End Facts.

(** C28: a retention sweep forgets exactly the expired subjects.  A RunOnce ends,
    whenever its context is cancelled; every subject key it changed belonged to a
    swept tenant, was live and listed by the scanner as older than the window,
    and is now a tombstone without key bytes; and the count is the number of keys
    forgotten.  If the context is never done and no error is reported, the
    scanner lists no expired key of those tenants any more.  (A sweep that is cut
    short by its context reports no error either.) *)
Theorem retention_sweeps {W} (rw : Retention.RetentionWorker W) ctxErr ok rows wraps current expired s scanner
    (SL : ShredLaws ok rows wraps current s) (RL : RetentionLaws ok rows wraps current expired s scanner)
    src tenants t w w1 w2 fuel :
  Retention.validate rw = None -> Retention.rw_Shredder rw = Some s ->
  Retention.resolveScanner rw = Some scanner -> Retention.Tenants rw = Some src ->
  (forall t u f, Retention.OnShredded rw = Some f -> keeps_keys ok rows wraps current expired (f t u)) ->
  keeps_keys ok rows wraps current expired ctxErr -> keeps_keys ok rows wraps current expired src ->
  keeps_keys ok rows wraps current expired (Retention.now rw) ->
  ok (fst w) -> src w = (w1, Ok tenants) -> Retention.now rw w1 = (w2, Ok t) ->
  (forall u, u ∈ tenants -> (size (expired u (t - Retention.MaxAge rw)%Z (fst w)) < fuel)%nat) ->
  exists w' n e, Retention.RunOnce rw ctxErr fuel w = Some (w', (n, e)) /\
    (forall k, rows (fst w') !! k = rows (fst w) !! k \/
       exists r, fst k ∈ tenants /\ expired (fst k) (t - Retention.MaxAge rw) (fst w) !! k = Some r /\
         rows (fst w') !! k = Some (mkKeyRow [] (kr_version r) true)) /\
    (NoDup tenants -> n = Z.of_nat (sum_list_with (fun u => size (expired u (t - Retention.MaxAge rw) (fst w))) tenants)
       - Z.of_nat (sum_list_with (fun u => size (expired u (t - Retention.MaxAge rw) (fst w'))) tenants)) /\
    (e = None -> (forall w, ok (fst w) -> exists w', ctxErr w = (w', Ok false)) ->
     forall u, u ∈ tenants -> expired u (t - Retention.MaxAge rw) (fst w') = ∅).
Proof.
  intros Hv Hs Hsc Hsrc Hcb Hctx Hks Hkn Hok H1 H2 Hfuel. unfold Retention.RunOnce.
  rewrite Hv, Hs, Hsrc, Hsc, H1, H2. destruct (Hks _ _ _ Hok H1) as (Hk1 & Hr1 & He1).
  destruct (Hkn _ _ _ (proj1 Hk1) H2) as (Hk2 & Hr2 & He2).
  destruct (sweepTenants_spec (SL := SL) (RL := RL) Hcb Hctx (t - Retention.MaxAge rw) fuel tenants 0 None w2)
    as (w' & n & e & Hrun & (_ & _ & _ & Hrows) & Hn & He).
  - apply Hk2.
  - intros u Hu. rewrite He2, He1. by apply Hfuel.
  - exists w', n, e. split; [done|]. rewrite Hr2, Hr1 in Hrows. split.
    + intros k. specialize (Hrows k). rewrite He2, He1 in Hrows. done.
    + split; [|intros Hnone Hlive; by apply He]. intros Hnd. specialize (Hn Hnd).
      rewrite (due_ext tenants _ (fst w) (fst w2)) in Hn by (intros u _; by rewrite He2, He1).
      unfold due in Hn. lia.
Qed.
