(* ===== verification/Dsar.v ===== *)
(** * Subject exports (shred/dsar.go)

    RunSubjectExport walks the tenant's log and collects what an inspector
    finds about one subject; it can be resumed where it stopped. *)
From S2P Require Import Prelude Errors Streams Events Store Rebuild.

Module Dsar.
Record SubjectExportRequest := mkSubjectExportRequest {
  rq_TenantID : string;
  rq_Subject : string;
  rq_FromPosition : Z;
  rq_BatchSize : Z;
  rq_MaxRecords : Z
}.

Record SubjectExportRecord := mkSubjectExportRecord {
  rc_EventID : UUID;
  rc_TenantID : string;
  rc_StreamID : string;
  rc_TypeURL : string;
  rc_SchemaVersion : Z;
  rc_Version : Z;
  rc_GlobalPosition : Z;
  rc_OccurredAt : Time;
  rc_RecordedAt : Time;
  rc_CorrelationID : UUID;
  rc_CausationID : UUID;
  rc_CommandID : UUID;
  rc_Payload : bytes
}.

Record SubjectExportResult := mkSubjectExportResult {
  Records : list SubjectExportRecord;
  LastPosition : Z;
  Truncated : bool
}.

Definition validate (r : SubjectExportRequest) : option err :=
  if bool_decide (rq_TenantID r = "") then Some (ENew "shred: SubjectExportRequest.TenantID is required")
  else if bool_decide (rq_Subject r = "") then Some (ENew "shred: SubjectExportRequest.Subject is required")
  else None.

(** The ids are kept as numbers; their text form is a rendering. *)
Definition record_of (env : Envelope.t) (payload : bytes) : SubjectExportRecord :=
  mkSubjectExportRecord (Envelope.EventID env) (Envelope.TenantID env)
    (StreamID.Canonical (Envelope.StreamID env)) (Envelope.TypeURL env) (Envelope.SchemaVersion env)
    (Envelope.Version env) (Envelope.GlobalPosition env) (Envelope.OccurredAt env) (Envelope.RecordedAt env)
    (Envelope.CorrelationID env) (Envelope.CausationID env) (Envelope.CommandID env) payload.

Section Exporting.
Context {W : Type}.
(** SubjectInspector; [None] is the skip signal. *)
Notation SubjectInspector := (Envelope.t -> string -> M W (option bytes)).

Fixpoint ChainInspect (c : list SubjectInspector) (env : Envelope.t) (subject : string) : M W (option bytes) :=
  match c with
  | [] => mret None
  | ins :: c' =>
      out ← ins env subject;
      match out with
      | Some _ => mret out
      | None => ChainInspect c' env subject
      end
  end.

Context (ctxErr : M W (option err)) (read : string -> Z -> Z -> M W (list Envelope.t))
  (inspect : SubjectInspector) (req : SubjectExportRequest).

Definition batchSize : Z := if rq_BatchSize req <=? 0 then 200 else rq_BatchSize req.

(** What the loop over a page ends with: stopped at MaxRecords, or the records
    and the last position. *)
Inductive page_end :=
  | Stopped (records : list SubjectExportRecord) (last : Z)
  | Continued (records : list SubjectExportRecord) (last : Z).

Fixpoint inspectPage (envs : list Envelope.t) (records : list SubjectExportRecord) (last : Z) : M W page_end :=
  match envs with
  | [] => mret (Continued records last)
  | env :: envs' =>
      payload ← wrap_err "shred: DSAR inspect" (inspect env (rq_Subject req));
      let last := Envelope.GlobalPosition env in
      match payload with
      | None => inspectPage envs' records last
      | Some p =>
          let records := records ++ [record_of env p] in
          if (0 <? rq_MaxRecords req) && (rq_MaxRecords req <=? Z.of_nat (length records))
          then mret (Stopped records last)
          else inspectPage envs' records last
      end
  end.

(** [None]: out of fuel. *)
Fixpoint exportLoop (fuel : nat) (cursor : Z) (records : list SubjectExportRecord) (last : Z) (w : W)
    : option (W * res SubjectExportResult) :=
  match fuel with
  | O => None
  | S fuel' =>
      match ctxErr w with
      | (w1, Ok (Some e)) | (w1, Err e) => Some (w1, Err e)
      | (w1, Ok None) =>
          match read (rq_TenantID req) cursor batchSize w1 with
          | (w2, Err e) => Some (w2, Err (EWrap "shred: DSAR read" e))
          | (w2, Ok []) => Some (w2, Ok (mkSubjectExportResult records last false))
          | (w2, Ok envs) =>
              match inspectPage envs records last w2 with
              | (w3, Err e) => Some (w3, Err e)
              | (w3, Ok (Stopped records last)) => Some (w3, Ok (mkSubjectExportResult records last true))
              | (w3, Ok (Continued records last)) =>
                  if Z.of_nat (length envs) <? batchSize
                  then Some (w3, Ok (mkSubjectExportResult records last false))
                  else exportLoop fuel' last records last w3
              end
          end
      end
  end.
End Exporting.

Definition RunSubjectExport {W} (ctxErr : M W (option err)) (read : string -> Z -> Z -> M W (list Envelope.t))
    (inspector : option (Envelope.t -> string -> M W (option bytes))) (req : SubjectExportRequest)
    (fuel : nat) (w : W) : option (W * res SubjectExportResult) :=
  match validate req, inspector with
  | Some e, _ => Some (w, Err e)
  | None, None => Some (w, Err (ENew "shred: RunSubjectExport: inspector is required"))
  | None, Some inspect => exportLoop ctxErr read inspect req fuel (rq_FromPosition req) [] 0 w
  end.
End Dsar.

Section Facts.
Context {W : Type} {ok : W -> Prop} {log : W -> list Envelope.t} (view : Envelope.t -> option bytes)
  {ctxErr : M W (option err)} {read : string -> Z -> Z -> M W (list Envelope.t)}
  {inspect : Envelope.t -> string -> M W (option bytes)} {req : Dsar.SubjectExportRequest}.

(** What an export relies on: a log in position order, pages of it, and an
    inspector that finds [view e] in event [e]. *)
Class ExportLaws := {
  el_sorted : forall w, ok w -> log_sorted (log w) /\
    Forall (fun e => 0 < Envelope.GlobalPosition e < 2 ^ 63) (log w);
  el_ctx : forall w, ok w -> exists w', ctxErr w = (w', Ok None) /\ ok w' /\ log w' = log w;
  el_read : forall from n w w' x, ok w -> 0 <= from < 2 ^ 63 -> 0 <= n ->
    read (Dsar.rq_TenantID req) from n w = (w', x) ->
    ok w' /\ log w' = log w /\ (forall envs, x = Ok envs -> envs = page (Dsar.rq_TenantID req) from n (log w));
  el_inspect : forall e w w' x, ok w -> inspect e (Dsar.rq_Subject req) w = (w', x) ->
    ok w' /\ log w' = log w /\ (forall p, x = Ok p -> p = view e)
}.
Context {EL : ExportLaws}.

(** The records of a list of events. *)
Definition found (envs : list Envelope.t) : list Dsar.SubjectExportRecord :=
  omap (fun e => Dsar.record_of e <$> view e) envs.

Lemma found_app a b : found (a ++ b) = found a ++ found b.
Proof. apply omap_app. Qed.

(** MaxRecords is not reached yet. *)
Definition below_max (records : list Dsar.SubjectExportRecord) : Prop :=
  0 < Dsar.rq_MaxRecords req -> Z.of_nat (length records) < Dsar.rq_MaxRecords req.

Lemma inspectPage_spec envs : forall records last w w' x,
  ok w -> below_max records -> Dsar.inspectPage inspect req envs records last w = (w', x) ->
  ok w' /\ log w' = log w /\
  match x with
  | Err _ => True
  | Ok (Dsar.Continued records' last') =>
      records' = records ++ found envs /\ below_max records' /\
      last' = default last (Envelope.GlobalPosition <$> list.last envs)
  | Ok (Dsar.Stopped records' last') =>
      exists a b, envs = a ++ b /\ a <> [] /\ records' = records ++ found a /\
        last' = default last (Envelope.GlobalPosition <$> list.last a) /\
        0 < Dsar.rq_MaxRecords req /\ Z.of_nat (length records') = Dsar.rq_MaxRecords req
  end.
Proof using EL.
  induction envs as [|e envs IH]; intros records last w w' x Hok Hmax; cbn [Dsar.inspectPage].
  { intros [= <- <-]. split_and!; try done. by rewrite app_nil_r. }
  unfold mbind, M_bind, wrap_err.
  destruct (inspect e _ w) as [w1 [p|er]] eqn:Hi; destruct (el_inspect _ _ _ _ Hok Hi) as (Hok1 & Hl1 & Hp);
    [|by intros [= <- <-]].
  specialize (Hp p eq_refl). subst p.
  assert (Hlast : forall l, default (Envelope.GlobalPosition e) (Envelope.GlobalPosition <$> list.last l) =
    default last (Envelope.GlobalPosition <$> list.last (e :: l))).
  { intros l. rewrite last_cons. by destruct (list.last l). }
  assert (Hcons : forall recs y, recs = records ++ found [e] -> below_max recs ->
    Dsar.inspectPage inspect req envs recs (Envelope.GlobalPosition e) w1 = (w', y) -> y = x ->
    ok w' /\ log w' = log w /\
    match x with
    | Err _ => True
    | Ok (Dsar.Continued records' last') =>
        records' = records ++ found (e :: envs) /\ below_max records' /\
        last' = default last (Envelope.GlobalPosition <$> list.last (e :: envs))
    | Ok (Dsar.Stopped records' last') =>
        exists a b, e :: envs = a ++ b /\ a <> [] /\ records' = records ++ found a /\
          last' = default last (Envelope.GlobalPosition <$> list.last a) /\
          0 < Dsar.rq_MaxRecords req /\ Z.of_nat (length records') = Dsar.rq_MaxRecords req
    end).
  { intros recs y -> Hm Hrec ->. apply IH in Hrec as (Hok' & Hl' & Hx); [|done|done].
    split_and!; [done|congruence|]. destruct x as [[r l|r l]|]; [| |done].
    - destruct Hx as (a & b & -> & Ha & -> & -> & Hm0 & Hlen). exists (e :: a), b.
      change (e :: a) with ([e] ++ a) at 3. rewrite found_app, app_assoc. split_and!; try done.
    - destruct Hx as (-> & Hb & ->). change (e :: envs) with ([e] ++ envs) at 1.
      rewrite found_app, app_assoc. split_and!; try done. }
  destruct (view e) as [p|] eqn:Hv.
  - assert (Hfe : found [e] = [Dsar.record_of e p]) by (unfold found; simpl; by rewrite Hv).
    destruct ((0 <? Dsar.rq_MaxRecords req) && _) eqn:Hc.
    + intros [= <- <-]. apply andb_true_iff in Hc as [Hc1 Hc2]. apply Z.ltb_lt in Hc1. apply Z.leb_le in Hc2.
      split_and!; try done. exists [e], envs. rewrite Hfe. split_and!; try done.
      specialize (Hmax Hc1). rewrite length_app in *. simpl in *. lia.
    + intros Hrec. eapply Hcons; [by rewrite Hfe| |exact Hrec|done]. intros H0. apply andb_false_iff in Hc as [Hc|Hc].
      * apply Z.ltb_ge in Hc. lia.
      * apply Z.leb_gt in Hc. done.
  - intros Hrec. eapply Hcons; [|exact Hmax|exact Hrec|done]. unfold found. simpl. rewrite Hv. by rewrite app_nil_r.
Qed.

(** A call that always succeeds. *)
Definition answers {A} (m : M W A) : Prop := forall w, ok w -> exists w' a, m w = (w', Ok a).

Lemma inspectPage_answers envs : (forall e, answers (inspect e (Dsar.rq_Subject req))) ->
  forall records last, answers (Dsar.inspectPage inspect req envs records last).
Proof using EL.
  intros Ha. induction envs as [|e envs IH]; intros records last w Hok; cbn [Dsar.inspectPage]; [by do 2 eexists|].
  unfold mbind, M_bind, wrap_err. destruct (Ha e w Hok) as (w1 & p & Hi). rewrite Hi.
  destruct (el_inspect _ _ _ _ Hok Hi) as (Hok1 & _ & _).
  destruct p; [|by apply IH]. case_match; [by do 2 eexists|by apply IH].
Qed.

Notation scope w := (filter (in_tenant (Dsar.rq_TenantID req)) (log w)).

(** What an export returns when it went through [seen] of the events [pending]. *)
Definition exported (pending : list Envelope.t) (r : Dsar.SubjectExportResult) : Prop :=
  exists seen rest, pending = seen ++ rest /\
    Dsar.Records r = found seen /\
    Dsar.LastPosition r = default 0 (Envelope.GlobalPosition <$> list.last seen) /\
    (Dsar.Truncated r = false -> rest = []) /\
    (Dsar.Truncated r = true -> seen <> [] /\ Z.of_nat (length (Dsar.Records r)) = Dsar.rq_MaxRecords req) /\
    (0 < Dsar.rq_MaxRecords req -> Z.of_nat (length (Dsar.Records r)) <= Dsar.rq_MaxRecords req).

Lemma export_scope_sorted w : ok w -> log_sorted (scope w) /\
  Forall (fun e => 0 < Envelope.GlobalPosition e < 2 ^ 63) (scope w).
Proof using EL.
  intros Hok. destruct (el_sorted w Hok) as [Hs HF]. split; [by apply StronglySorted_filter|].
  apply Forall_forall. intros e [_ He]%list_elem_of_filter. rewrite Forall_forall in HF. by apply HF.
Qed.

Lemma default_last_app (d : Z) a b : b <> [] ->
  default d (Envelope.GlobalPosition <$> list.last (a ++ b)) = default d (Envelope.GlobalPosition <$> list.last b).
Proof using.
  intros Hb. destruct b as [|x b _] using rev_ind; [done|]. by rewrite app_assoc, !last_snoc.
Qed.

Lemma exportLoop_spec from fuel : forall seen rest cursor w,
  ok w -> 0 <= from < 2 ^ 63 ->
  filter (fun e => from < Envelope.GlobalPosition e) (scope w) = seen ++ rest ->
  cursor = default from (Envelope.GlobalPosition <$> list.last seen) -> below_max (found seen) ->
  (length rest < fuel)%nat ->
  exists w' x, Dsar.exportLoop ctxErr read inspect req fuel cursor (found seen)
      (default 0 (Envelope.GlobalPosition <$> list.last seen)) w = Some (w', x) /\
    ok w' /\ log w' = log w /\ (forall r, x = Ok r -> exported (seen ++ rest) r) /\
    ((forall p n, answers (read (Dsar.rq_TenantID req) p n)) ->
     (forall e, answers (inspect e (Dsar.rq_Subject req))) -> exists r, x = Ok r).
Proof using EL.
  induction fuel as [|fuel IH]; intros seen rest cursor w Hok Hfrom Hpend Hcur Hmax Hfuel; [lia|].
  cbn [Dsar.exportLoop]. destruct (el_ctx w Hok) as (w1 & -> & Hok1 & Hl1).
  destruct (export_scope_sorted w Hok) as [Hs HF].
  assert (Hcr : 0 <= cursor < 2 ^ 63).
  { subst cursor. destruct (list.last seen) as [e|] eqn:Hls; [|done]. simpl. rewrite Forall_forall in HF.
    cut (0 < Envelope.GlobalPosition e < 2 ^ 63); [lia|]. apply HF.
    assert (He : e ∈ seen ++ rest) by (apply elem_of_app; left; by apply last_Some_elem_of).
    rewrite <- Hpend in He. by apply list_elem_of_filter in He as [_ ?]. }
  assert (Hrest : filter (fun e => cursor < Envelope.GlobalPosition e) (scope w) = rest).
  { destruct seen as [|e seen]; [by subst cursor|]. rewrite <- (after_last _ _ _ _ Hs Hpend) by done.
    subst cursor. destruct (list.last (e :: seen)) eqn:Hls; [done|]. by apply last_None in Hls. }
  assert (Hbs : 0 < Dsar.batchSize req) by (unfold Dsar.batchSize; destruct (Z.leb_spec (Dsar.rq_BatchSize req) 0); lia).
  destruct (read _ cursor _ w1) as [w2 [envs|er]] eqn:Hr;
    destruct (el_read _ _ _ _ _ Hok1 Hcr (Z.lt_le_incl _ _ Hbs) Hr) as (Hok2 & Hl2 & He); [|do 2 eexists; split_and!; [done|done|congruence|done|];
      intros Ha _; destruct (Ha cursor (Dsar.batchSize req) w1 Hok1) as (? & ? & Hra); congruence].
  specialize (He envs eq_refl). rewrite Hl1 in He. unfold page in He. rewrite Hrest in He.
  assert (Hsplit : rest = envs ++ drop (Z.to_nat (Dsar.batchSize req)) rest) by (rewrite He at 1; by rewrite take_drop).
  destruct envs as [|e envs].
  { do 2 eexists. split; [done|]. split_and!; [done|congruence| |by eexists]. intros r [= <-].
    assert (rest = []) as -> by (destruct rest; [done|]; destruct (Z.to_nat (Dsar.batchSize req)) eqn:Hz; [lia|done]).
    exists seen, []. simpl. split_and!; try done. intros Hm. specialize (Hmax Hm). lia. }
  set (pg := e :: envs) in *.
  destruct (Dsar.inspectPage inspect req pg (found seen) _ w2) as [w3 x] eqn:Hi.
  pose proof Hi as Hi'. apply inspectPage_spec in Hi as (Hok3 & Hl3 & Hx); [|done|done].
  destruct x as [[records last|records last]|er]; [| |do 2 eexists; split_and!; [done|done|congruence|done|];
    intros _ Ha; destruct (inspectPage_answers pg Ha (found seen) (default 0 (Envelope.GlobalPosition <$> list.last seen)) w2 Hok2) as (? & ? & Hia); rewrite Hi' in Hia; congruence].
  - destruct Hx as (a & b & Hab & Hane & -> & -> & Hm0 & Hlen). do 2 eexists. split; [done|].
    split_and!; [done|congruence| |by eexists]. intros r [= <-]. rewrite <- found_app in Hlen.
    exists (seen ++ a), (b ++ drop (Z.to_nat (Dsar.batchSize req)) rest). simpl. rewrite found_app in *.
    split_and!; try done.
    + rewrite Hsplit at 1. rewrite Hab. by rewrite <- !app_assoc.
    + destruct (list.last a) eqn:Hla; [|by apply last_None in Hla]. by rewrite default_last_app, Hla.
    + intros _. split; [|done]. by destruct seen, a.
    + intros _. lia.
  - destruct Hx as (-> & Hmax' & ->). rewrite <- found_app in *.
    assert (Hlast : default (default 0 (Envelope.GlobalPosition <$> list.last seen)) (Envelope.GlobalPosition <$> list.last pg) =
      default 0 (Envelope.GlobalPosition <$> list.last (seen ++ pg))).
    { rewrite default_last_app by done. destruct (list.last pg) eqn:Hlp; [done|]. by apply last_None in Hlp. }
    rewrite Hlast. apply (f_equal length) in He as Hlen. rewrite length_take in Hlen.
    destruct (Z.ltb_spec (Z.of_nat (length pg)) (Dsar.batchSize req)) as [Hlt|Hge].
    + do 2 eexists. split; [done|]. split_and!; [done|congruence| |by eexists]. intros r [= <-].
      exists (seen ++ pg), []. simpl. rewrite drop_ge in Hsplit by lia. rewrite app_nil_r in Hsplit.
      split_and!; try done; [by rewrite app_nil_r, <- Hsplit|]. intros Hm. specialize (Hmax' Hm). lia.
    + destruct (IH (seen ++ pg) (drop (Z.to_nat (Dsar.batchSize req)) rest)
        (default 0 (Envelope.GlobalPosition <$> list.last (seen ++ pg))) w3) as (w' & y & Hrun & Hok' & Hl' & Hy & Hans); try done.
      * rewrite Hl3, Hl2, Hl1. rewrite Hpend, Hsplit at 1. by rewrite <- app_assoc.
      * destruct (list.last (seen ++ pg)) eqn:Hlp; [done|]. apply last_None in Hlp. by destruct seen.
      * rewrite length_drop. subst pg. simpl in *. lia.
      * exists w', y. split_and!; [done|done|congruence| |done]. rewrite <- app_assoc, <- Hsplit in Hy. done.
Qed.
End Facts.

