(* ===== verification/Deciders.v ===== *)
(** * Histories of a decider

    What the aggregate runtime lets happen to one stream, seen by the decider of
    its aggregate: commands are decided one after the other on the folded state,
    commands on a terminal stream are refused, and the events and constraint
    operations of an accepted command are committed together. *)
From S2P Require Import Prelude Errors Events.

Section Histories.
Context {S C E : Type} (d : Decider S C E).

Definition terminal (s : S) : bool :=
  match IsTerminal d with Some f => f s | None => false end.

(** The state, the events and the constraint operations after some accepted
    commands, each of which satisfies [ok]. *)
Inductive history (ok : C -> Prop) : S -> list E -> list ConstraintOp -> Prop :=
  | h_start : history ok (Initial d) [] []
  | h_command s es ops c new nops :
      history ok s es ops -> terminal s = false -> ok c -> Decide d s c = Ok (new, nops) ->
      history ok (foldl (Evolve d) s new) (es ++ new) (ops ++ nops).

(** What holds at the start and is kept by every accepted command holds. *)
Lemma history_invariant (ok : C -> Prop) (I : S -> list E -> list ConstraintOp -> Prop) :
  I (Initial d) [] [] ->
  (forall s es ops c new nops, I s es ops -> terminal s = false -> ok c ->
     Decide d s c = Ok (new, nops) -> I (foldl (Evolve d) s new) (es ++ new) (ops ++ nops)) ->
  forall s es ops, history ok s es ops -> I s es ops.
Proof. intros H0 Hs s es ops H. induction H; eauto. Qed.

(** The state is the fold of the events. *)
Lemma history_fold ok s es ops : history ok s es ops -> s = foldl (Evolve d) (Initial d) es.
Proof. induction 1 as [|s es ops c new nops H IH]; [done|]. by rewrite foldl_app, <- IH. Qed.

(** One accepted command, for the witnesses. *)
Definition play (c : C) (x : S * list E * list ConstraintOp) : option (S * list E * list ConstraintOp) :=
  let '(s, es, ops) := x in
  if terminal s then None
  else match Decide d s c with
       | Ok (new, nops) => Some (foldl (Evolve d) s new, es ++ new, ops ++ nops)
       | Err _ => None
       end.

Fixpoint plays (cs : list C) (x : S * list E * list ConstraintOp)
    : option (S * list E * list ConstraintOp) :=
  match cs with
  | [] => Some x
  | c :: cs' => match play c x with Some y => plays cs' y | None => None end
  end.

Lemma plays_history ok cs : Forall ok cs -> forall x y,
  history ok (fst (fst x)) (snd (fst x)) (snd x) -> plays cs x = Some y ->
  history ok (fst (fst y)) (snd (fst y)) (snd y).
Proof.
  induction 1 as [|c cs Hc Hcs IH]; intros [[s es] ops] y Hx; simpl; [by intros [= <-]|].
  destruct (terminal s) eqn:Ht; [done|]. destruct (Decide d s c) as [[new nops]|] eqn:Hd; [|done].
  apply IH. simpl in *. by eapply h_command.
Qed.
End Histories.

(** The values of [scope] that a stream has claimed and not released. *)
Definition apply_claim (scope : string) (h : gset string) (o : ConstraintOp) : gset string :=
  if negb (bool_decide (co_Scope o = scope)) then h
  else if co_Op o =? ClaimConstraint then {[co_Value o]} ∪ h
  else if co_Op o =? ReleaseConstraint then h ∖ {[co_Value o]}
  else h.

Definition claims (scope : string) (ops : list ConstraintOp) : gset string :=
  foldl (apply_claim scope) ∅ ops.

Lemma claims_app scope ops ops' :
  claims scope (ops ++ ops') = foldl (apply_claim scope) (claims scope ops) ops'.
Proof. apply foldl_app. Qed.
