(* ===== verification/Party.v ===== *)
(** * The party example aggregate (examples/party)

    A party is registered under a unique email address; changes of its name,
    email and date of birth are proposed by one person and approved by another.
    The decider and its state helpers (decider.go, state.go) as functions, and
    the two rules they enforce: nobody approves a change of their own, and the
    email claims the stream holds are exactly its current address. *)
From S2P Require Import Prelude Errors Events Deciders.

Module Party.

Inductive Status : Set := STATUS_UNSPECIFIED | STATUS_ACTIVE | STATUS_SUSPENDED | STATUS_CLOSED.

#[export] Instance Status_eq_dec : EqDecision Status.
Proof. solve_decision. Defined.

(** Messages are pointers: a nil one is [None]. *)
Record Name := mkName { First : string; Last : string }.
Record Address := mkAddress {
  Line1 : string; Line2 : string; City : string; PostalCode : string; Country : string }.

(** The oneof of a pending change. *)
Inductive Proposed :=
  | PendingChange_Name (n : option Name)
  | PendingChange_Email (e : string)
  | PendingChange_DateOfBirth (d : string).

Record PendingChange := mkPendingChange {
  ChangeId : string;
  ProposedBy : string;
  Reason : string;
  proposed : option Proposed
}.

Record State := mkState {
  PartyId : string;
  PName : option Name;
  Email : string;
  Phone : string;
  PAddress : option Address;
  DateOfBirth : string;
  status : Status;
  PendingChanges : list PendingChange;
  CreatedBy : string
}.

Inductive Command :=
  | Register (name : option Name) (email phone : string) (address : option Address)
      (dob actor : string)
  | ProposeName (change : string) (n : option Name) (by_ reason : string)
  | ProposeEmail (change e by_ reason : string)
  | ProposeDateOfBirth (change d by_ reason : string)
  | Approve (change by_ comment : string)
  | Reject (change by_ reason : string)
  | Withdraw (change by_ : string)
  | UpdatePhone (phone actor : string)
  | UpdateAddress (address : option Address) (actor : string)
  | Suspend (actor reason : string)
  | Reactivate (actor comment : string)
  | Close (actor reason : string)
  (** Anything else a [Command] variable can hold (nil). *)
  | OtherCommand.

Inductive Event :=
  | Registered (name : option Name) (email phone : string) (address : option Address)
      (dob actor : string)
  | NameChangeProposed (change : string) (n : option Name) (by_ reason : string)
  | NameChangeApplied (change by_ : string) (n : option Name)
  | EmailChangeProposed (change e by_ reason : string)
  | EmailChangeApplied (change by_ old new : string)
  | DateOfBirthChangeProposed (change d by_ reason : string)
  | DateOfBirthChangeApplied (change by_ d : string)
  | ChangeRejected (change by_ reason : string)
  | ChangeWithdrawn (change by_ : string)
  | PhoneUpdated (phone actor : string)
  | AddressUpdated (address : option Address) (actor : string)
  | Suspended (actor reason : string)
  | Reactivated (actor comment : string)
  | Closed (actor reason : string).

Definition ErrAlreadyRegistered : err := ENew "party: already registered".
Definition ErrNotRegistered : err := ENew "party: not registered".
Definition ErrNotActive : err := ENew "party: not active".
Definition ErrNotSuspended : err := ENew "party: not suspended".
Definition ErrAlreadyClosed : err := ENew "party: already closed".
Definition ErrPendingExists : err := ENew "party: pending change of same kind already exists".
Definition ErrNoSuchChange : err := ENew "party: no such pending change".
Definition ErrSelfApproval : err := ENew "party: self-approval forbidden".
Definition ErrSelfReject : err := ENew "party: self-reject forbidden".
Definition ErrNotProposer : err := ENew "party: only the proposer can withdraw".
Definition ErrInvalidInput : err := ENew "party: invalid input".

Definition initial : State := mkState "" None "" "" None "" STATUS_UNSPECIFIED [] "".

(** ** state.go *)

(** hasPending at the three types it is used at. *)
Definition is_name (p : Proposed) : bool := match p with PendingChange_Name _ => true | _ => false end.
Definition is_email (p : Proposed) : bool := match p with PendingChange_Email _ => true | _ => false end.
Definition is_dob (p : Proposed) : bool :=
  match p with PendingChange_DateOfBirth _ => true | _ => false end.

Definition hasPending (kind : Proposed -> bool) (s : State) : bool :=
  existsb (fun pc => match proposed pc with Some p => kind p | None => false end) (PendingChanges s).

Fixpoint find_from (i : nat) (l : list PendingChange) (changeID : string) : option (PendingChange * nat) :=
  match l with
  | [] => None
  | pc :: l' => if bool_decide (ChangeId pc = changeID) then Some (pc, i) else find_from (S i) l' changeID
  end.

Definition findPending (s : State) (changeID : string) : option (PendingChange * nat) :=
  find_from 0 (PendingChanges s) changeID.

Definition set_pending (l : list PendingChange) (s : State) : State :=
  mkState (PartyId s) (PName s) (Email s) (Phone s) (PAddress s) (DateOfBirth s) (status s) l
    (CreatedBy s).

(** [append(s.PendingChanges[:i], s.PendingChanges[i+1:]...)] *)
Definition removePending (s : State) (i : nat) : State :=
  set_pending (take i (PendingChanges s) ++ drop (S i) (PendingChanges s)) s.

(** [if _, i := findPending(s, id); i >= 0 { removePending(s, i) }] *)
Definition dropPending (s : State) (changeID : string) : State :=
  match findPending s changeID with Some (_, i) => removePending s i | None => s end.

(** ** decider.go *)

Definition uniqueScopeEmail : string := "party.email".

Notation decision := (res (list Event * list ConstraintOp)).

Definition requireActive (s : State) : option err :=
  if bool_decide (PartyId s = "") then Some ErrNotRegistered
  else if negb (bool_decide (status s = STATUS_ACTIVE)) then Some ErrNotActive
  else None.

Definition validateEmail (email : string) : option err :=
  match str_index "@" email with None => Some ErrInvalidInput | Some _ => None end.

Definition decideRegister (s : State) (name : option Name) (email phone : string)
    (address : option Address) (dob actor : string) : decision :=
  if negb (bool_decide (PartyId s = "")) then Err ErrAlreadyRegistered
  else
    match name with
    | None => Err ErrInvalidInput
    | Some n =>
        if bool_decide (First n = "") || bool_decide (Last n = "") then Err ErrInvalidInput
        else
          match validateEmail email with
          | Some e => Err e
          | None =>
              Ok ([Registered name email phone address dob actor],
                  [mkConstraintOp ClaimConstraint uniqueScopeEmail email])
          end
    end.

Definition decidePropose (s : State) (proposedBy changeID : string) (pendingExists : bool)
    (event : Event) : decision :=
  match requireActive s with
  | Some e => Err e
  | None =>
      if bool_decide (changeID = "") || bool_decide (proposedBy = "") then Err ErrInvalidInput
      else if pendingExists then Err ErrPendingExists
      else Ok ([event], [])
  end.

Definition decideApprove (s : State) (change by_ : string) : decision :=
  match requireActive s with
  | Some e => Err e
  | None =>
      match findPending s change with
      | None => Err ErrNoSuchChange
      | Some (pc, _) =>
          if bool_decide (ProposedBy pc = by_) then Err ErrSelfApproval
          else
            match proposed pc with
            | Some (PendingChange_Name n) => Ok ([NameChangeApplied (ChangeId pc) by_ n], [])
            | Some (PendingChange_Email e) =>
                Ok ([EmailChangeApplied (ChangeId pc) by_ (Email s) e],
                    [mkConstraintOp ReleaseConstraint uniqueScopeEmail (Email s);
                     mkConstraintOp ClaimConstraint uniqueScopeEmail e])
            | Some (PendingChange_DateOfBirth d) =>
                Ok ([DateOfBirthChangeApplied (ChangeId pc) by_ d], [])
            | None => Err ErrInvalidInput
            end
      end
  end.

Definition decideReject (s : State) (change by_ reason : string) : decision :=
  match findPending s change with
  | None => Err ErrNoSuchChange
  | Some (pc, _) =>
      if bool_decide (ProposedBy pc = by_) then Err ErrSelfReject
      else Ok ([ChangeRejected (ChangeId pc) by_ reason], [])
  end.

Definition decideWithdraw (s : State) (change by_ : string) : decision :=
  match findPending s change with
  | None => Err ErrNoSuchChange
  | Some (pc, _) =>
      if negb (bool_decide (ProposedBy pc = by_)) then Err ErrNotProposer
      else Ok ([ChangeWithdrawn (ChangeId pc) by_], [])
  end.

(** [if err := requireActive(s); err != nil { return err }; return event] *)
Definition ifActive (s : State) (event : Event) : decision :=
  match requireActive s with Some e => Err e | None => Ok ([event], []) end.

Definition decide_ (s : State) (c : Command) : decision :=
  match c with
  | Register name email phone address dob actor => decideRegister s name email phone address dob actor
  | ProposeName change n by_ reason =>
      decidePropose s by_ change (hasPending is_name s) (NameChangeProposed change n by_ reason)
  | ProposeEmail change e by_ reason =>
      match validateEmail e with
      | Some x => Err x
      | None =>
          decidePropose s by_ change (hasPending is_email s) (EmailChangeProposed change e by_ reason)
      end
  | ProposeDateOfBirth change d by_ reason =>
      decidePropose s by_ change (hasPending is_dob s) (DateOfBirthChangeProposed change d by_ reason)
  | Approve change by_ _ => decideApprove s change by_
  | Reject change by_ reason => decideReject s change by_ reason
  | Withdraw change by_ => decideWithdraw s change by_
  | UpdatePhone phone actor => ifActive s (PhoneUpdated phone actor)
  | UpdateAddress address actor => ifActive s (AddressUpdated address actor)
  | Suspend actor reason => ifActive s (Suspended actor reason)
  | Reactivate actor comment =>
      if negb (bool_decide (status s = STATUS_SUSPENDED)) then Err ErrNotSuspended
      else Ok ([Reactivated actor comment], [])
  | Close actor reason =>
      if bool_decide (PartyId s = "") then Err ErrNotRegistered
      else if bool_decide (status s = STATUS_CLOSED) then Err ErrAlreadyClosed
      else Ok ([Closed actor reason],
               [mkConstraintOp ReleaseConstraint uniqueScopeEmail (Email s)])
  | OtherCommand => Err ErrInvalidInput
  end.

Definition set_name (n : option Name) (s : State) : State :=
  mkState (PartyId s) n (Email s) (Phone s) (PAddress s) (DateOfBirth s) (status s)
    (PendingChanges s) (CreatedBy s).
Definition set_email (e : string) (s : State) : State :=
  mkState (PartyId s) (PName s) e (Phone s) (PAddress s) (DateOfBirth s) (status s)
    (PendingChanges s) (CreatedBy s).
Definition set_dob (d : string) (s : State) : State :=
  mkState (PartyId s) (PName s) (Email s) (Phone s) (PAddress s) d (status s) (PendingChanges s)
    (CreatedBy s).
Definition set_status (st : Status) (s : State) : State :=
  mkState (PartyId s) (PName s) (Email s) (Phone s) (PAddress s) (DateOfBirth s) st
    (PendingChanges s) (CreatedBy s).
Definition add_pending (change by_ reason : string) (p : Proposed) (s : State) : State :=
  set_pending (PendingChanges s ++ [mkPendingChange change by_ reason (Some p)]) s.

Definition evolve (s : State) (e : Event) : State :=
  match e with
  | Registered name email phone address dob actor =>
      mkState actor name email phone address dob STATUS_ACTIVE (PendingChanges s) actor
  | NameChangeProposed change n by_ reason => add_pending change by_ reason (PendingChange_Name n) s
  | NameChangeApplied change _ n => set_name n (dropPending s change)
  | EmailChangeProposed change x by_ reason => add_pending change by_ reason (PendingChange_Email x) s
  | EmailChangeApplied change _ _ new => set_email new (dropPending s change)
  | DateOfBirthChangeProposed change d by_ reason =>
      add_pending change by_ reason (PendingChange_DateOfBirth d) s
  | DateOfBirthChangeApplied change _ d => set_dob d (dropPending s change)
  | ChangeRejected change _ _ | ChangeWithdrawn change _ => dropPending s change
  | PhoneUpdated phone _ =>
      mkState (PartyId s) (PName s) (Email s) phone (PAddress s) (DateOfBirth s) (status s)
        (PendingChanges s) (CreatedBy s)
  | AddressUpdated address _ =>
      mkState (PartyId s) (PName s) (Email s) (Phone s) address (DateOfBirth s) (status s)
        (PendingChanges s) (CreatedBy s)
  | Suspended _ _ => set_status STATUS_SUSPENDED s
  | Reactivated _ _ => set_status STATUS_ACTIVE s
  | Closed _ _ => set_status STATUS_CLOSED s
  end.

Definition decider : Decider State Command Event := mkDecider initial decide_ evolve None.

(** ** What the decider enforces *)

(** The change an event proposes: its id, who proposed it, and what. *)
Definition proposal_of (e : Event) : option (string * string * Proposed) :=
  match e with
  | NameChangeProposed change n by_ _ => Some (change, by_, PendingChange_Name n)
  | EmailChangeProposed change x by_ _ => Some (change, by_, PendingChange_Email x)
  | DateOfBirthChangeProposed change d by_ _ => Some (change, by_, PendingChange_DateOfBirth d)
  | _ => None
  end.

Definition proposals (es : list Event) : list (string * string * Proposed) := omap proposal_of es.

(** An event that settles a change: after [es], it settles one that was proposed
    with the same content, by somebody else if it is applied or rejected, by the
    same person if it is withdrawn. *)
Definition reviewed (es : list Event) (e : Event) : Prop :=
  match e with
  | NameChangeApplied change by_ n =>
      exists p, (change, p, PendingChange_Name n) ∈ proposals es /\ p <> by_
  | EmailChangeApplied change by_ _ new =>
      exists p, (change, p, PendingChange_Email new) ∈ proposals es /\ p <> by_
  | DateOfBirthChangeApplied change by_ d =>
      exists p, (change, p, PendingChange_DateOfBirth d) ∈ proposals es /\ p <> by_
  | ChangeRejected change by_ _ => exists p x, (change, p, x) ∈ proposals es /\ p <> by_
  | ChangeWithdrawn change by_ => exists x, (change, by_, x) ∈ proposals es
  | _ => True
  end.

Definition four_eyes (es : list Event) : Prop :=
  forall es1 e es2, es = es1 ++ e :: es2 -> reviewed es1 e.

Definition is_registered (e : Event) : bool :=
  match e with Registered _ _ _ _ _ _ => true | _ => false end.

Definition kind_of (pc : PendingChange) : option nat :=
  match proposed pc with
  | Some (PendingChange_Name _) => Some 0%nat
  | Some (PendingChange_Email _) => Some 1%nat
  | Some (PendingChange_DateOfBirth _) => Some 2%nat
  | None => None
  end.

(** The email addresses the stream holds: its own while it is open. *)
Definition email_claims (s : State) : gset string :=
  if bool_decide (PartyId s = "") || bool_decide (status s = STATUS_CLOSED) then ∅ else {[Email s]}.

Record sound (s : State) (es : list Event) (ops : list ConstraintOp) : Prop := mkSound {
  so_pending : forall pc, pc ∈ PendingChanges s -> exists p, proposed pc = Some p /\
    (ChangeId pc, ProposedBy pc, p) ∈ proposals es;
  so_kinds : NoDup (kind_of <$> PendingChanges s);
  so_reviewed : four_eyes es;
  so_claims : claims uniqueScopeEmail ops = email_claims s;
  so_once : length (List.filter is_registered es) = if bool_decide (PartyId s = "") then 0%nat else 1%nat
}.

Lemma four_eyes_snoc es e : four_eyes es -> reviewed es e -> four_eyes (es ++ [e]).
Proof.
  intros H He es1 x es2 E. destruct es2 as [|y es2 _] using rev_ind.
  - apply app_inj_tail in E as [-> <-]. done.
  - rewrite app_comm_cons, app_assoc in E. apply app_inj_tail in E as [-> _]. by eapply H.
Qed.

Lemma find_from_Some i l id pc j : find_from i l id = Some (pc, j) -> pc ∈ l /\ ChangeId pc = id.
Proof.
  revert i; induction l as [|x l IH]; intros i; simpl; [done|]. case_bool_decide.
  - intros [= <- _]. split; [by left|done].
  - intros H'%IH. split; [right|]; apply H'.
Qed.

Lemma findPending_Some s id pc j : findPending s id = Some (pc, j) -> pc ∈ PendingChanges s /\ ChangeId pc = id.
Proof. apply find_from_Some. Qed.

Lemma dropPending_sublist s id : PendingChanges (dropPending s id) `sublist_of` PendingChanges s.
Proof.
  unfold dropPending. destruct (findPending s id) as [[pc i]|]; [|done]. simpl.
  etrans; [|by rewrite <- (take_drop i (PendingChanges s))].
  apply sublist_app; [done|]. rewrite <- Nat.add_1_r, <- drop_drop. apply sublist_drop.
Qed.

Lemma dropPending_rest s id :
  PartyId (dropPending s id) = PartyId s /\ Email (dropPending s id) = Email s /\
  status (dropPending s id) = status s.
Proof. unfold dropPending. by destruct (findPending s id) as [[pc i]|]. Qed.

Lemma requireActive_None s : requireActive s = None -> PartyId s <> "" /\ status s = STATUS_ACTIVE.
Proof. unfold requireActive. repeat case_bool_decide; done. Qed.

(** A change of the state that drops pending changes or none. *)
Lemma sound_step s es ops s' e nops :
  sound s es ops -> PendingChanges s' `sublist_of` PendingChanges s -> reviewed es e ->
  foldl (apply_claim uniqueScopeEmail) (email_claims s) nops = email_claims s' ->
  proposal_of e = None -> (PartyId s' = "" <-> PartyId s = "") -> is_registered e = false ->
  sound s' (es ++ [e]) (ops ++ nops).
Proof.
  intros [Hp Hk Hr Hc Ho] Hsub He Hcl Hn Hid Hre. split.
  - intros pc Hpc. destruct (Hp pc) as (p & Hpp & Hin); [by eapply elem_of_sublist|].
    exists p. split; [done|]. unfold proposals. rewrite omap_app. apply elem_of_app. by left.
  - eapply sublist_NoDup; [exact Hk|]. by apply fmap_sublist.
  - by apply four_eyes_snoc.
  - by rewrite claims_app, Hc.
  - rewrite List.filter_app, length_app, Ho. simpl. rewrite Hre. simpl.
    repeat case_bool_decide; (lia || tauto).
Qed.

Lemma sound_propose s es ops change by_ reason p e :
  sound s es ops -> proposal_of e = Some (change, by_, p) ->
  (forall pc, pc ∈ PendingChanges s -> kind_of pc <> kind_of (mkPendingChange change by_ reason (Some p))) ->
  sound (add_pending change by_ reason p s) (es ++ [e]) (ops ++ []).
Proof.
  intros [Hp Hk Hr Hc Ho] He Hfresh. unfold proposals in *. split; simpl.
  - intros pc [Hpc|Hpc%list_elem_of_singleton]%elem_of_app; unfold proposals; rewrite omap_app.
    + destruct (Hp pc Hpc) as (p' & ? & ?). exists p'. split; [done|]. apply elem_of_app. by left.
    + subst pc. exists p. split; [done|]. apply elem_of_app. right. simpl. rewrite He. by left.
  - rewrite fmap_app. apply NoDup_app. split; [done|]. split; [|apply NoDup_singleton].
    intros k (pc & -> & Hpc)%list_elem_of_fmap Hk2%list_elem_of_singleton. by eapply Hfresh.
  - apply four_eyes_snoc; [done|]. by destruct e.
  - by rewrite app_nil_r.
  - rewrite List.filter_app, length_app, Ho. by destruct e.
Qed.

Lemma hasPending_fresh s (kind : Proposed -> bool) change by_ reason p :
  hasPending kind s = false ->
  (forall c b r q, kind_of (mkPendingChange c b r (Some q)) =
     kind_of (mkPendingChange change by_ reason (Some p)) -> kind q = true) ->
  forall pc, pc ∈ PendingChanges s -> kind_of pc <> kind_of (mkPendingChange change by_ reason (Some p)).
Proof.
  intros Hh Hk pc Hpc E. unfold hasPending in Hh.
  assert (Ht : existsb (fun pc => match proposed pc with Some p => kind p | None => false end)
    (PendingChanges s) = true); [|congruence].
  apply existsb_exists. exists pc. split; [by apply list_elem_of_In|].
  destruct pc as [c b r [q|]]; [by eapply Hk|by destruct p].
Qed.

Lemma propose_sound s es ops by_ change reason kind p e new nops :
  sound s es ops -> decidePropose s by_ change (hasPending kind s) e = Ok (new, nops) ->
  proposal_of e = Some (change, by_, p) ->
  (forall c b r q, kind_of (mkPendingChange c b r (Some q)) =
     kind_of (mkPendingChange change by_ reason (Some p)) -> kind q = true) ->
  evolve s e = add_pending change by_ reason p s ->
  sound (foldl evolve s new) (es ++ new) (ops ++ nops).
Proof.
  intros Hs Hd He Hk Hev. unfold decidePropose in Hd. destruct (requireActive s); [done|].
  destruct (bool_decide (change = "") || _); [done|].
  destruct (hasPending kind s) eqn:Hh; [done|]. injection Hd as <- <-. simpl. rewrite Hev.
  eapply sound_propose; [done|done|]. by eapply hasPending_fresh.
Qed.

(** An event that only an open party has, on a state with the same identity,
    address and pending changes. *)
Lemma open_sound s es ops e s' :
  sound s es ops -> reviewed es e -> proposal_of e = None -> is_registered e = false ->
  PendingChanges s' `sublist_of` PendingChanges s -> PartyId s' = PartyId s ->
  email_claims s' = email_claims s -> sound s' (es ++ [e]) (ops ++ []).
Proof.
  intros Hs He Hp Hr Hsub Hid Hcl. eapply sound_step; [done|done|done| |done|by rewrite Hid|done].
  by rewrite Hcl.
Qed.

Lemma dropped_claims s id : email_claims (dropPending s id) = email_claims s.
Proof. unfold email_claims. by destruct (dropPending_rest s id) as (-> & -> & ->). Qed.

Lemma pending_proposal s es ops id pc i :
  sound s es ops -> findPending s id = Some (pc, i) ->
  exists p, proposed pc = Some p /\ ChangeId pc = id /\ (id, ProposedBy pc, p) ∈ proposals es.
Proof.
  intros Hs [Hin <-]%findPending_Some. destruct (so_pending _ _ _ Hs pc Hin) as (p & ? & ?). eauto.
Qed.

Lemma active_claims s : requireActive s = None -> email_claims s = {[Email s]}.
Proof.
  intros [Hid Hst]%requireActive_None. unfold email_claims.
  rewrite !bool_decide_eq_false_2; [done|congruence|done].
Qed.

Lemma approve_sound s es ops change by_ new nops :
  sound s es ops -> decideApprove s change by_ = Ok (new, nops) ->
  sound (foldl evolve s new) (es ++ new) (ops ++ nops).
Proof.
  intros Hs Hd. unfold decideApprove in Hd. destruct (requireActive s) eqn:Ha; [done|].
  destruct (findPending s change) as [[pc i]|] eqn:Hf; [|done].
  destruct (pending_proposal s es ops change pc i Hs Hf) as (p & Hp & Hid & Hin).
  case_bool_decide as Hself; [done|]. rewrite Hp, Hid in Hd.
  pose proof (dropPending_sublist s change) as Hsub.
  pose proof (dropPending_rest s change) as (Hpid & Hem & Hst).
  pose proof (dropped_claims s change) as Hcl.
  destruct p as [n|x|d]; injection Hd as <- <-; cbn [foldl evolve].
  - apply open_sound with s; [done|simpl; eauto|done|done|exact Hsub|exact Hpid|exact Hcl].
  - eapply sound_step; [done|exact Hsub|simpl; eauto| |done|simpl; by rewrite Hpid|done].
    rewrite active_claims by done. apply requireActive_None in Ha as [Hid' Hst'].
    unfold email_claims, set_email; cbn [PartyId Email status]. rewrite Hpid, Hst.
    rewrite !bool_decide_eq_false_2 by congruence. simpl.
    unfold apply_claim. cbn -[union difference singleton]. set_solver.
  - apply open_sound with s; [done|simpl; eauto|done|done|exact Hsub|exact Hpid|exact Hcl].
Qed.

Lemma register_sound s es ops name email phone address dob actor new nops :
  sound s es ops -> actor <> "" -> decideRegister s name email phone address dob actor = Ok (new, nops) ->
  sound (foldl evolve s new) (es ++ new) (ops ++ nops).
Proof.
  intros Hs Hact Hd. unfold decideRegister in Hd. case_bool_decide as Hid; [|done]. simpl in Hd.
  destruct name as [n|]; [|done]. destruct (bool_decide (First n = "") || _); [done|].
  destruct (validateEmail email); [done|]. injection Hd as <- <-.
  destruct Hs as [Hp Hk Hr Hc Ho]. rewrite bool_decide_eq_true_2 in Ho by done. simpl. split; simpl.
  - intros pc Hpc. destruct (Hp pc Hpc) as (p & ? & ?). exists p. split; [done|].
    unfold proposals. rewrite omap_app. apply elem_of_app. by left.
  - done.
  - by apply four_eyes_snoc.
  - rewrite claims_app, Hc. unfold email_claims, apply_claim; simpl.
    rewrite (bool_decide_eq_true_2 (PartyId s = "")), (bool_decide_eq_false_2 (actor = "")) by done.
    cbn -[union difference singleton]. set_solver.
  - rewrite List.filter_app, length_app, Ho. by rewrite bool_decide_eq_false_2.
Qed.

(** Commands that name their actor where the party id is taken from it. *)
Definition named (c : Command) : Prop :=
  match c with Register _ _ _ _ _ actor => actor <> "" | _ => True end.

Lemma decide_sound s es ops c new nops :
  sound s es ops -> named c -> decide_ s c = Ok (new, nops) ->
  sound (foldl evolve s new) (es ++ new) (ops ++ nops).
Proof.
  intros Hs Hn Hd. destruct c; cbn [decide_] in Hd; unfold ifActive in Hd.
  - by eapply register_sound.
  - eapply propose_sound; [done|exact Hd|done| |done]. by intros ? ? ? [].
  - destruct (validateEmail e); [done|]. eapply propose_sound; [done|exact Hd|done| |done]. by intros ? ? ? [].
  - eapply propose_sound; [done|exact Hd|done| |done]. by intros ? ? ? [].
  - by eapply approve_sound.
  - unfold decideReject in Hd. destruct (findPending s change) as [[pc i]|] eqn:Hf; [|done].
    destruct (pending_proposal s es ops change pc i Hs Hf) as (p & Hp & Hid & Hin).
    case_bool_decide; [done|]. rewrite Hid in Hd. injection Hd as <- <-. cbn [foldl evolve].
    apply open_sound with s; [done|simpl; eauto|done|done|apply dropPending_sublist|apply dropPending_rest|
      apply dropped_claims].
  - unfold decideWithdraw in Hd. destruct (findPending s change) as [[pc i]|] eqn:Hf; [|done].
    destruct (pending_proposal s es ops change pc i Hs Hf) as (p & Hp & Hid & Hin).
    case_bool_decide; [|done]. rewrite Hid in Hd. simpl in Hd. injection Hd as <- <-. subst by_. cbn [foldl evolve].
    apply open_sound with s; [done|simpl; eauto|done|done|apply dropPending_sublist|apply dropPending_rest|
      apply dropped_claims].
  - destruct (requireActive s); [done|]. injection Hd as <- <-. by apply open_sound with s.
  - destruct (requireActive s); [done|]. injection Hd as <- <-. by apply open_sound with s.
  - destruct (requireActive s) eqn:Ha; [done|]. injection Hd as <- <-. apply open_sound with s; try done.
    rewrite (active_claims s) by done. apply requireActive_None in Ha as [Hid _].
    unfold email_claims; simpl. by rewrite bool_decide_eq_false_2.
  - case_bool_decide as Hst; [|done]. injection Hd as <- <-. apply open_sound with s; try done.
    unfold email_claims; simpl. by rewrite Hst.
  - case_bool_decide as Hid; [done|]. case_bool_decide as Hst; [done|]. injection Hd as <- <-.
    eapply sound_step; [done|done|done| |done|done|done]. unfold email_claims, apply_claim; simpl.
    rewrite !(bool_decide_eq_false_2 (_ = "")), (bool_decide_eq_false_2 (status s = _)) by done.
    cbn -[union difference singleton]. set_solver.
  - done.
Qed.
End Party.

(** C39: the rules of the party aggregate.  After any accepted commands whose
    Register names its actor: every applied change was proposed before with
    exactly that content, by somebody other than the one who approved it, a
    rejection is never by the proposer and a withdrawal always is; there is at
    most one pending change of a kind, each proposed before; the stream was
    registered at most once; and the email claims it holds in the store are
    exactly its current address, none before it is registered and after it is
    closed. *)
Theorem party_rules s es ops :
  history Party.decider Party.named s es ops ->
  Party.four_eyes es /\ NoDup (Party.kind_of <$> Party.PendingChanges s) /\
  (forall pc, pc ∈ Party.PendingChanges s -> exists p, Party.proposed pc = Some p /\
     (Party.ChangeId pc, Party.ProposedBy pc, p) ∈ Party.proposals es) /\
  (length (List.filter Party.is_registered es) <= 1)%nat /\
  claims Party.uniqueScopeEmail ops = Party.email_claims s.
Proof.
  intros H. assert (Party.sound s es ops) as [Hp Hk Hr Hc Ho].
  { revert s es ops H. apply history_invariant.
    - split; simpl; [by intros pc Hpc%not_elem_of_nil|apply NoDup_nil_2|by intros [|? ?] x es2|done|done].
    - intros s es ops c new nops Hs _ Hn Hd. by eapply Party.decide_sound. }
  split_and!; try done. rewrite Ho. case_bool_decide; lia.
Qed.

Definition demo_party : list Party.Command :=
  [Party.Register (Some (Party.mkName "Ada" "L")) "a@x" "" None "" "ada";
   Party.ProposeEmail "c1" "b@x" "ada" ""; Party.Approve "c1" "bob" ""].

Lemma party_rules_witness :
  exists s es ops, plays Party.decider demo_party (Party.initial, [], []) = Some (s, es, ops) /\
    Party.Email s = "b@x" /\ Party.four_eyes es /\ claims Party.uniqueScopeEmail ops = {["b@x"]}.
Proof.
  destruct (plays Party.decider demo_party (Party.initial, [], [])) as [[[s es] ops]|] eqn:E;
    [|vm_compute in E; discriminate].
  assert (H : history Party.decider Party.named s es ops).
  { refine (plays_history Party.decider Party.named demo_party _ _ _ _ E); [|apply h_start].
    repeat constructor. discriminate. }
  exists s, es, ops. split; [reflexivity|]. destruct (party_rules s es ops H) as (H1 & _ & _ & _ & H2).
  vm_compute in E. injection E as <- <- <-. split; [reflexivity|]. split; [exact H1|].
  rewrite H2. reflexivity.
Defined.

(** A Register without an actor leaves the party without an id, so the stream
    can be registered again and then holds two addresses. *)
Lemma unnamed_register_twice :
  match plays Party.decider
    [Party.Register (Some (Party.mkName "Ada" "L")) "a@x" "" None "" "";
     Party.Register (Some (Party.mkName "Ada" "L")) "b@x" "" None "" ""] (Party.initial, [], []) with
  | Some (s, es, ops) => length es = 2%nat /\ claims Party.uniqueScopeEmail ops = {["a@x"; "b@x"]}
  | None => False
  end.
Proof. vm_compute. split; reflexivity. Qed.
