(* ===== verification/Examples.v ===== *)
(** * Example deciders: orders, fulfillment tasks, employees
    (examples/orderfulfillment/decider.go, examples/employee/decider.go)

    Each decider as functions, and the shape of every stream it can produce. *)
From S2P Require Import Prelude Errors Events Deciders.

Module Order.
Inductive Status : Set := STATUS_UNSPECIFIED | STATUS_PLACED | STATUS_SHIPPED | STATUS_COMPLETED.

#[export] Instance Status_eq_dec : EqDecision Status.
Proof. solve_decision. Defined.

Record State := mkState {
  OrderId : string;
  CustomerId : string;
  Warehouse : string;
  status : Status;
  PlacedAtMs : Z;
  ShippedAtMs : Z;
  Carrier : string;
  Tracking : string
}.

Inductive Command :=
  | PlaceOrder (id customer warehouse : string) (at_ : Z)
  | Ship (carrier tracking : string) (at_ : Z)
  | Complete (at_ : Z)
  (** Anything else a [Command] variable can hold (nil). *)
  | OtherCommand.

Inductive Event :=
  | OrderPlaced (id customer warehouse : string) (at_ : Z)
  | OrderShipped (id warehouse carrier tracking : string) (at_ : Z)
  | OrderCompleted (at_ : Z).

Definition ErrOrderAlreadyPlaced : err := ENew "order: already placed".
Definition ErrOrderNotPlaced : err := ENew "order: not yet placed".
Definition ErrOrderAlreadyShipped : err := ENew "order: already shipped".
Definition ErrOrderNotShipped : err := ENew "order: not yet shipped".
Definition ErrOrderUnknownCmd : err := ENew "order: unknown command".

Definition initial : State := mkState "" "" "" STATUS_UNSPECIFIED 0 0 "" "".

Definition decide_ (s : State) (c : Command) : res (list Event * list ConstraintOp) :=
  match c with
  | PlaceOrder id customer warehouse at_ =>
      if negb (bool_decide (OrderId s = "")) then Err ErrOrderAlreadyPlaced
      else Ok ([OrderPlaced id customer warehouse at_], [])
  | Ship carrier tracking at_ =>
      if bool_decide (OrderId s = "") then Err ErrOrderNotPlaced
      else if negb (bool_decide (status s = STATUS_PLACED)) then Err ErrOrderAlreadyShipped
      else Ok ([OrderShipped (OrderId s) (Warehouse s) carrier tracking at_], [])
  | Complete at_ =>
      if negb (bool_decide (status s = STATUS_SHIPPED)) then Err ErrOrderNotShipped
      else Ok ([OrderCompleted at_], [])
  | OtherCommand => Err ErrOrderUnknownCmd
  end.

Definition evolve (s : State) (e : Event) : State :=
  match e with
  | OrderPlaced id customer warehouse at_ =>
      mkState id customer warehouse STATUS_PLACED at_ (ShippedAtMs s) (Carrier s) (Tracking s)
  | OrderShipped _ _ carrier tracking at_ =>
      mkState (OrderId s) (CustomerId s) (Warehouse s) STATUS_SHIPPED (PlacedAtMs s) at_ carrier tracking
  | OrderCompleted _ =>
      mkState (OrderId s) (CustomerId s) (Warehouse s) STATUS_COMPLETED (PlacedAtMs s) (ShippedAtMs s)
        (Carrier s) (Tracking s)
  end.

Definition isTerminal (s : State) : bool := bool_decide (status s = STATUS_COMPLETED).

Definition decider : Decider State Command Event := mkDecider initial decide_ evolve (Some isTerminal).

Definition named (c : Command) : Prop :=
  match c with PlaceOrder id _ _ _ => id <> "" | _ => True end.

(** Placed, then shipped from the warehouse it was placed at, then completed. *)
Definition lifecycle (s : State) (es : list Event) : Prop :=
  (s = initial /\ es = []) \/
  exists id cu wh a, id <> "" /\ OrderId s = id /\ Warehouse s = wh /\
    ((status s = STATUS_PLACED /\ es = [OrderPlaced id cu wh a]) \/
     exists ca tr b, Carrier s = ca /\ Tracking s = tr /\
       ((status s = STATUS_SHIPPED /\ es = [OrderPlaced id cu wh a; OrderShipped id wh ca tr b]) \/
        exists d, status s = STATUS_COMPLETED /\
          es = [OrderPlaced id cu wh a; OrderShipped id wh ca tr b; OrderCompleted d])).

Lemma order_lifecycle s es ops : history decider named s es ops -> lifecycle s es.
Proof.
  revert s es ops. apply (history_invariant _ _ (fun s es _ => lifecycle s es)); [by left|].
  intros s es ops c new nops Hl Ht Hn Hd.
  unfold terminal in Ht; simpl in Ht, Hd. unfold isTerminal in Ht. apply bool_decide_eq_false in Ht.
  destruct Hl as [[-> ->]|(id & cu & wh & a & Hid & HI & HW & Hst)].
  - destruct c as [i k w x|ca tr x|x|]; simpl in Hd; try done. injection Hd as <- <-. right.
    exists i, k, w, x. split_and!; try done. by left.
  - right. exists id, cu, wh, a.
    destruct Hst as [[Hs ->]|(ca & tr & b & HC & HT & [[Hs ->]|(d & Hs & _)])]; [| |done];
      destruct c as [i k w x|ca' tr' x|x|]; simpl in Hd; rewrite ?HI, ?HW, ?Hs in Hd;
      rewrite ?(bool_decide_eq_false_2 (id = "")) in Hd by done; simpl in Hd; try done;
      injection Hd as <- <-; simpl; split_and!; try done; right.
    + exists ca', tr', x. split_and!; try done. by left.
    + exists ca, tr, b. split_and!; try done. right. by exists x.
Qed.
End Order.

Module Fulfillment.
Inductive Status : Set := STATUS_UNSPECIFIED | STATUS_PENDING | STATUS_PICKED | STATUS_SHIPPED.

#[export] Instance Status_eq_dec : EqDecision Status.
Proof. solve_decision. Defined.

Record State := mkState {
  TaskId : string;
  OrderId : string;
  Warehouse : string;
  status : Status;
  CreatedAtMs : Z;
  PickedAtMs : Z;
  ShippedAtMs : Z;
  Picker : string
}.

Inductive Command :=
  | Pick (picker : string) (at_ : Z)
  | MarkShipped (at_ : Z)
  (** Anything else a [Command] variable can hold (nil). *)
  | OtherCommand.

Inductive Event :=
  | Created (task order warehouse : string) (at_ : Z)
  | Picked (picker : string) (at_ : Z)
  | Shipped (at_ : Z).

Definition ErrFulfillmentNotCreated : err := ENew "fulfillment: task not yet created".
Definition ErrFulfillmentNotPicked : err := ENew "fulfillment: task not yet picked".
Definition ErrFulfillmentAlreadyPicked : err := ENew "fulfillment: already picked".
Definition ErrFulfillmentUnknownCmd : err := ENew "fulfillment: unknown command".

Definition initial : State := mkState "" "" "" STATUS_UNSPECIFIED 0 0 0 "".

Definition decide_ (s : State) (c : Command) : res (list Event * list ConstraintOp) :=
  match c with
  | Pick picker at_ =>
      if bool_decide (TaskId s = "") then Err ErrFulfillmentNotCreated
      else if negb (bool_decide (status s = STATUS_PENDING)) then Err ErrFulfillmentAlreadyPicked
      else Ok ([Picked picker at_], [])
  | MarkShipped at_ =>
      if negb (bool_decide (status s = STATUS_PICKED)) then Err ErrFulfillmentNotPicked
      else Ok ([Shipped at_], [])
  | OtherCommand => Err ErrFulfillmentUnknownCmd
  end.

Definition evolve (s : State) (e : Event) : State :=
  match e with
  | Created task order warehouse at_ =>
      mkState task order warehouse STATUS_PENDING at_ (PickedAtMs s) (ShippedAtMs s) (Picker s)
  | Picked picker at_ =>
      mkState (TaskId s) (OrderId s) (Warehouse s) STATUS_PICKED (CreatedAtMs s) at_ (ShippedAtMs s) picker
  | Shipped at_ =>
      mkState (TaskId s) (OrderId s) (Warehouse s) STATUS_SHIPPED (CreatedAtMs s) (PickedAtMs s) at_
        (Picker s)
  end.

Definition isTerminal (s : State) : bool := bool_decide (status s = STATUS_SHIPPED).

Definition decider : Decider State Command Event := mkDecider initial decide_ evolve (Some isTerminal).

(** No command creates a task: on a stream without the Created event of the
    linked projection every command is refused. *)
Lemma nothing_before_created s es ops : history decider (fun _ => True) s es ops -> s = initial /\ es = [].
Proof.
  revert s es ops. apply (history_invariant _ _ (fun s es _ => s = initial /\ es = [])); [done|].
  by intros s es ops [] new nops [-> ->] _ _ [= <- <-].
Qed.

(** After Created, the commands pick the task once and then ship it once. *)
Lemma after_created task order wh a c1 c2 new1 new2 n1 n2 :
  task <> "" ->
  let s0 := evolve initial (Created task order wh a) in
  decide_ s0 c1 = Ok (new1, n1) ->
  let s1 := foldl evolve s0 new1 in
  decide_ s1 c2 = Ok (new2, n2) ->
  (exists p x y, new1 = [Picked p x] /\ new2 = [Shipped y]) /\
  isTerminal (foldl evolve s1 new2) = true.
Proof.
  intros Ht s0 H1 s1 H2. destruct c1 as [p x|x|]; simpl in H1;
    rewrite ?(bool_decide_eq_false_2 (task = "")) in H1 by done; simpl in H1; try done.
  injection H1 as <- <-. destruct c2 as [p2 x2|x2|]; simpl in H2;
    rewrite ?(bool_decide_eq_false_2 (task = "")) in H2 by done; simpl in H2; try done.
  injection H2 as <- <-. eauto 8.
Qed.
End Fulfillment.

Module Employee.
Inductive Status : Set := STATUS_UNSPECIFIED | STATUS_ACTIVE | STATUS_TERMINATED.

#[export] Instance Status_eq_dec : EqDecision Status.
Proof. solve_decision. Defined.

Record State := mkState {
  EmployeeId : string;
  LegalName : string;
  Email : string;
  DateOfBirth : string;
  Department : string;
  CurrentRole : string;
  status : Status
}.

Inductive Command :=
  | Hire (id name email dob department role : string)
  | Promote (role : string)
  | Terminate (reason : string)
  (** Anything else a [Command] variable can hold (nil). *)
  | OtherCommand.

Inductive Event :=
  | Hired (id name email dob department role : string)
  | Promoted (id role : string)
  | Terminated (id reason : string).

Definition ErrAlreadyHired : err := ENew "employee: already hired".
Definition ErrNotHired : err := ENew "employee: not hired".
Definition ErrTerminated : err := ENew "employee: already terminated".
Definition ErrUnknownCmd : err := ENew "employee: unknown command".

Definition initial : State := mkState "" "" "" "" "" "" STATUS_UNSPECIFIED.

Definition decide_ (s : State) (c : Command) : res (list Event * list ConstraintOp) :=
  match c with
  | Hire id name email dob department role =>
      if negb (bool_decide (EmployeeId s = "")) then Err ErrAlreadyHired
      else Ok ([Hired id name email dob department role], [])
  | Promote role =>
      if bool_decide (EmployeeId s = "") then Err ErrNotHired
      else if bool_decide (status s = STATUS_TERMINATED) then Err ErrTerminated
      else Ok ([Promoted (EmployeeId s) role], [])
  | Terminate reason =>
      if bool_decide (EmployeeId s = "") then Err ErrNotHired
      else if bool_decide (status s = STATUS_TERMINATED) then Err ErrTerminated
      else Ok ([Terminated (EmployeeId s) reason], [])
  | OtherCommand => Err ErrUnknownCmd
  end.

Definition evolve (s : State) (e : Event) : State :=
  match e with
  | Hired id name email dob department role => mkState id name email dob department role STATUS_ACTIVE
  | Promoted _ role =>
      mkState (EmployeeId s) (LegalName s) (Email s) (DateOfBirth s) (Department s) role (status s)
  | Terminated _ _ =>
      mkState (EmployeeId s) (LegalName s) (Email s) (DateOfBirth s) (Department s) (CurrentRole s)
        STATUS_TERMINATED
  end.

Definition isTerminal (s : State) : bool := bool_decide (status s = STATUS_TERMINATED).

Definition decider : Decider State Command Event := mkDecider initial decide_ evolve (Some isTerminal).

Definition named (c : Command) : Prop :=
  match c with Hire id _ _ _ _ _ => id <> "" | _ => True end.

(** Hired once, promoted any number of times, terminated at most once and last;
    the role is that of the last promotion. *)
Definition lifecycle (s : State) (es : list Event) : Prop :=
  (s = initial /\ es = []) \/
  exists id n e d dep role promos, id <> "" /\ EmployeeId s = id /\
    CurrentRole s = default role (last promos) /\
    ((status s = STATUS_ACTIVE /\ es = Hired id n e d dep role :: (Promoted id <$> promos)) \/
     exists why, status s = STATUS_TERMINATED /\
       es = Hired id n e d dep role :: (Promoted id <$> promos) ++ [Terminated id why]).

Lemma employee_lifecycle s es ops : history decider named s es ops -> lifecycle s es.
Proof.
  revert s es ops. apply (history_invariant _ _ (fun s es _ => lifecycle s es)); [by left|].
  intros s es ops c new nops Hl Ht Hn Hd.
  unfold terminal in Ht; simpl in Ht, Hd. unfold isTerminal in Ht. apply bool_decide_eq_false in Ht.
  destruct Hl as [[-> ->]|(id & n & e & d & dep & role & promos & Hid & HI & HR & [[Hs ->]|(why & Hs & _)])];
    [| |done].
  - destruct c as [i n e d dep role|role|why|]; simpl in Hd; try done. injection Hd as <- <-. right.
    exists i, n, e, d, dep, role, []. split_and!; try done. by left.
  - right. destruct c as [i' n' e' d' dep' role'|role'|why|]; simpl in Hd; rewrite ?HI in Hd;
      rewrite ?(bool_decide_eq_false_2 (id = "")) in Hd by done; simpl in Hd; try done;
      rewrite (bool_decide_eq_false_2 (status s = _)) in Hd by done; injection Hd as <- <-; simpl.
    + exists id, n, e, d, dep, role, (promos ++ [role']). rewrite last_snoc, fmap_app.
      split_and!; try done. by left.
    + exists id, n, e, d, dep, role, promos. split_and!; try done. right. by exists why.
Qed.
End Employee.
