(* ===== verification/Invoice.v ===== *)
(** * The invoice example aggregate (examples/invoice/decider.go)

    The decider of the worked example as data, its life cycle as a step
    relation, and concrete codecs used to run it on a store. *)
From S2P Require Import Prelude Errors Events.

Module Invoice.
Inductive Status := STATUS_UNSPECIFIED | STATUS_OPEN | STATUS_PAID | STATUS_VOIDED.

Record LineItem := mkLineItem { Sku : string; Name : string; Quantity : Z; UnitCents : Z }.

Record t := mk {
  InvoiceId : string;
  CustomerId : string;
  Currency : string;
  TotalCents : Z;
  status : Status;
  LineItems : list LineItem;
  CreatedAtMs : Z;
  ClosedAtMs : Z;
  PaymentRef : string;
  VoidReason : string
}.

Inductive Command :=
  | Create (invoiceId customerId currency : string) (items : list LineItem) (at_ : Z)
  | MarkPaid (paymentRef : string) (at_ : Z)
  | Void (reason : string) (at_ : Z)
  (** Anything else a [Command] variable can hold (nil). *)
  | OtherCommand.

Inductive Event :=
  | Created (invoiceId customerId currency : string) (total : Z) (items : list LineItem) (at_ : Z)
  | Paid (paymentRef : string) (at_ : Z)
  | Voided (reason : string) (at_ : Z).

#[global] Instance Status_eq_dec : EqDecision Status.
Proof. solve_decision. Defined.
#[global] Instance LineItem_eq_dec : EqDecision LineItem.
Proof. solve_decision. Defined.
#[global] Instance t_eq_dec : EqDecision t.
Proof. solve_decision. Defined.
#[global] Instance Event_eq_dec : EqDecision Event.
Proof. solve_decision. Defined.

#[global] Instance Status_countable : Countable Status.
Proof.
  refine (inj_countable' (fun s => match s with
      | STATUS_UNSPECIFIED => 0 | STATUS_OPEN => 1 | STATUS_PAID => 2 | STATUS_VOIDED => 3 end)
    (fun n => if decide (n = 1) then STATUS_OPEN else if decide (n = 2) then STATUS_PAID
              else if decide (n = 3) then STATUS_VOIDED else STATUS_UNSPECIFIED) _).
  by intros [].
Defined.
Ltac decode_fields := cbn -[encode decode]; repeat (rewrite decode_encode; cbn -[encode decode]).

(** Records are encoded field by field, as lists of numbers. *)
#[global] Instance LineItem_countable : Countable LineItem.
Proof.
  refine (inj_countable
    (fun l => [encode (Sku l); encode (Name l); encode (Quantity l); encode (UnitCents l)])
    (fun ps => match ps with
      | [a; b; c; d] => a ← decode a; b ← decode b; c ← decode c; d ← decode d; Some (mkLineItem a b c d)
      | _ => None end) _).
  intros []. by decode_fields.
Defined.
#[global] Instance t_countable : Countable t.
Proof.
  refine (inj_countable
    (fun s => [encode (InvoiceId s); encode (CustomerId s); encode (Currency s); encode (TotalCents s);
               encode (status s); encode (LineItems s); encode (CreatedAtMs s); encode (ClosedAtMs s);
               encode (PaymentRef s); encode (VoidReason s)])
    (fun ps => match ps with
      | [a; b; c; d; e; f; g; h; i; j] =>
          a ← decode a; b ← decode b; c ← decode c; d ← decode d; e ← decode e; f ← decode f;
          g ← decode g; h ← decode h; i ← decode i; j ← decode j; Some (mk a b c d e f g h i j)
      | _ => None end) _).
  intros []. by decode_fields.
Defined.
#[global] Instance Event_countable : Countable Event.
Proof.
  refine (inj_countable
    (fun e => match e with
      | Created a b c d l t => [encode a; encode b; encode c; encode d; encode l; encode t]
      | Paid a t => [1%positive; encode a; encode t]
      | Voided a t => [2%positive; encode a; encode t] end)
    (fun ps => match ps with
      | [a; b; c; d; l; t] =>
          a ← decode a; b ← decode b; c ← decode c; d ← decode d; l ← decode l; t ← decode t;
          Some (Created a b c d l t)
      | [k; a; t] => a ← decode a; t ← decode t; Some (if decide (k = 1%positive) then Paid a t else Voided a t)
      | _ => None end) _).
  intros []; by decode_fields.
Defined.

Definition ErrAlreadyCreated : err := ENew "invoice: already created".
Definition ErrNotCreated : err := ENew "invoice: not yet created".
Definition ErrAlreadyClosed : err := ENew "invoice: already closed (paid or voided)".
Definition ErrEmptyLineItems : err := ENew "invoice: requires at least one line item".
Definition ErrEmptyCurrency : err := ENew "invoice: currency is required".
Definition ErrUnknownCmd : err := ENew "invoice: unknown command".

Definition initial : t := mk "" "" "" 0 STATUS_UNSPECIFIED [] 0 0 "" "".

(** [total += li.Quantity * li.UnitCents] on int64. *)
Definition totalOf (items : list LineItem) : Z :=
  foldl (fun total li => i64 (total + i64 (Quantity li * UnitCents li))) 0 items.

Definition decide_ (s : t) (c : Command) : res (list Event * list ConstraintOp) :=
  match c with
  | Create invoiceId customerId currency items at_ =>
      if negb (bool_decide (InvoiceId s = "")) then Err ErrAlreadyCreated
      else
        match items with
        | [] => Err ErrEmptyLineItems
        | _ =>
            if bool_decide (currency = "") then Err ErrEmptyCurrency
            else Ok ([Created invoiceId customerId currency (totalOf items) items at_], [])
        end
  | MarkPaid ref_ at_ =>
      if bool_decide (InvoiceId s = "") then Err ErrNotCreated
      else if negb (bool_decide (status s = STATUS_OPEN)) then Err ErrAlreadyClosed
      else Ok ([Paid ref_ at_], [])
  | Void reason at_ =>
      if bool_decide (InvoiceId s = "") then Err ErrNotCreated
      else if negb (bool_decide (status s = STATUS_OPEN)) then Err ErrAlreadyClosed
      else Ok ([Voided reason at_], [])
  | OtherCommand => Err ErrUnknownCmd
  end.

Definition evolve (s : t) (e : Event) : t :=
  match e with
  | Created invoiceId customerId currency total items at_ =>
      mk invoiceId customerId currency total STATUS_OPEN items at_ (ClosedAtMs s) (PaymentRef s)
        (VoidReason s)
  | Paid ref_ at_ =>
      mk (InvoiceId s) (CustomerId s) (Currency s) (TotalCents s) STATUS_PAID (LineItems s)
        (CreatedAtMs s) at_ ref_ (VoidReason s)
  | Voided reason at_ =>
      mk (InvoiceId s) (CustomerId s) (Currency s) (TotalCents s) STATUS_VOIDED (LineItems s)
        (CreatedAtMs s) at_ (PaymentRef s) reason
  end.

Definition isTerminal (s : t) : bool :=
  bool_decide (status s = STATUS_PAID) || bool_decide (status s = STATUS_VOIDED).

Definition decider : Decider t Command Event := mkDecider initial decide_ evolve (Some isTerminal).

(** Commands the runtime lets through, one after the other: the state and the
    events so far. The runtime refuses commands on a terminal stream. *)
Inductive reachable : t -> list Event -> Prop :=
  | reach_initial : reachable initial []
  | reach_step s es c new ops :
      reachable s es -> isTerminal s = false ->
      (forall i cu cy l a, c = Create i cu cy l a -> i <> "") ->
      decide_ s c = Ok (new, ops) -> reachable (foldl evolve s new) (es ++ new).

(** The life cycle: nothing, one Created, or one Created and one close. *)
Definition lifecycle (s : t) (es : list Event) : Prop :=
  (s = initial /\ es = []) \/
  (exists i cu cy l a, i <> "" /\ l <> [] /\ cy <> "" /\
     ((status s = STATUS_OPEN /\ es = [Created i cu cy (totalOf l) l a]) \/
      (exists ref_ b, status s = STATUS_PAID /\ PaymentRef s = ref_ /\
         es = [Created i cu cy (totalOf l) l a; Paid ref_ b]) \/
      (exists why b, status s = STATUS_VOIDED /\ VoidReason s = why /\
         es = [Created i cu cy (totalOf l) l a; Voided why b])) /\
     InvoiceId s = i /\ LineItems s = l /\ TotalCents s = totalOf l).

Lemma lifecycle_step s es c new ops :
  lifecycle s es -> isTerminal s = false ->
  (forall i cu cy l a, c = Create i cu cy l a -> i <> "") ->
  decide_ s c = Ok (new, ops) -> lifecycle (foldl evolve s new) (es ++ new).
Proof.
  intros Hl Ht Hc Hd.
  destruct Hl as [[-> ->]|(i & cu & cy & l & a & Hi & Hl & Hcy & Hst & HI & HL & HT)].
  - destruct c as [i cu cy l a| | |]; simpl in Hd; try done. specialize (Hc _ _ _ _ _ eq_refl).
    destruct l as [|x l]; [done|]. case_bool_decide; [done|]. injection Hd as <- <-. right.
    exists i, cu, cy, (x :: l), a. split_and!; try done. by left.
  - assert (status s = STATUS_OPEN /\ es = [Created i cu cy (totalOf l) l a]) as [Hop ->].
    { destruct Hst as [?|[(? & ? & H & _)|(? & ? & H & _)]]; [done|..];
        unfold isTerminal in Ht; rewrite H in Ht; done. }
    right. exists i, cu, cy, l, a.
    destruct c as [i' cu' cy' l' a'|ref_ b|why b|]; simpl in Hd; rewrite ?HI in Hd;
      rewrite ?(bool_decide_eq_false_2 (i = "")) in Hd by done; simpl in Hd; try done;
      rewrite Hop, bool_decide_eq_true_2 in Hd by done; simpl in Hd; injection Hd as <- <-; simpl.
    + split_and!; try done. right; left. by exists ref_, b.
    + split_and!; try done. right; right. by exists why, b.
Qed.

Lemma reachable_lifecycle s es : reachable s es -> lifecycle s es.
Proof. induction 1; [by left|]. by eapply lifecycle_step. Qed.
End Invoice.

(** The invoice life cycle.  In every state the runtime can reach, the
    history is empty, one Created, or one Created followed by exactly one Paid
    or Voided; the state's total is the int64 sum of its line items; and a
    closed invoice accepts no further command. *)
Theorem invoice_lifecycle s es :
  Invoice.reachable s es ->
  Invoice.lifecycle s es /\ (length es <= 2)%nat /\
  (Invoice.isTerminal s = true <-> length es = 2%nat) /\
  (Invoice.isTerminal s = true -> forall c, exists e, Invoice.decide_ s c = Err e).
Proof.
  intros Hr%Invoice.reachable_lifecycle. split; [done|].
  destruct Hr as [[-> ->]|(i & cu & cy & l & a & Hi & Hl & Hcy & Hst & HI & HL & HT)];
    [split_and!; simpl; try done; lia|].
  destruct Hst as [[Hs ->]|[(ref_ & b & Hs & _ & ->)|(why & b & Hs & _ & ->)]];
    unfold Invoice.isTerminal; rewrite Hs; (split; [simpl; lia|]); (split; [done|]); try done;
    intros _ c; destruct c as [i' cu' cy' l' a'|ref' b'|why' b'|]; simpl; rewrite ?HI, ?Hs;
    rewrite ?(bool_decide_eq_false_2 (i = "")) by done; simpl; eexists; reflexivity.
Qed.

Definition demo_items : list Invoice.LineItem :=
  [Invoice.mkLineItem "s" "w" 3 5; Invoice.mkLineItem "t" "" 1 2].

Lemma invoice_lifecycle_witness :
  let s := foldl Invoice.evolve Invoice.initial
             [Invoice.Created "i" "c" "E" 17 demo_items 5; Invoice.Paid "p" 9] in
  Invoice.lifecycle s [Invoice.Created "i" "c" "E" 17 demo_items 5; Invoice.Paid "p" 9].
Proof.
  apply invoice_lifecycle.
  apply (Invoice.reach_step (foldl Invoice.evolve Invoice.initial
    [Invoice.Created "i" "c" "E" 17 demo_items 5])
    [Invoice.Created "i" "c" "E" 17 demo_items 5] (Invoice.MarkPaid "p" 9) [Invoice.Paid "p" 9] []);
    [|reflexivity|done|reflexivity].
  apply (Invoice.reach_step Invoice.initial [] (Invoice.Create "i" "c" "E" demo_items 5)
    [Invoice.Created "i" "c" "E" 17 demo_items 5] []);
    [apply Invoice.reach_initial|reflexivity|by intros ? ? ? ? ? [= <- _ _ _ _]|reflexivity].
Defined.
