(* ===== verification/ReadModels.v ===== *)
(** * Read models of the examples (examples/statestream/index.go,
      examples/customerview/view.go)

    The search index is a receiver of state-stream deliveries: whatever is
    repeated or reordered, it ends with the newest state of every stream, and its
    index by customer agrees with its rows.  The customer view is a projection
    whose handlers pick a row by Go's map order; that order is an argument. *)
From S2P Require Import Prelude Errors Streams Events Store StateStream Invoice.

Module Index.

(** The fields of the invoice state that are mirrored. *)
Record Mirrored := mkMirrored {
  mi_InvoiceId : string; mi_CustomerId : string; mi_Currency : string; mi_TotalCents : Z; mi_Status : Invoice.Status
}.

Record Row := mkRow {
  InvoiceID : string;
  CustomerID : string;
  Currency : string;
  TotalCents : Z;
  Status : Invoice.Status;
  Version : Z;
  Terminal : bool
}.

Record t := mk { byID : gmap string Row; byCust : gmap string (gset string) }.
Definition NewIndex : t := mk ∅ ∅.

Definition isTerminal (s : Invoice.Status) : bool :=
  match s with Invoice.STATUS_PAID | Invoice.STATUS_VOIDED => true | _ => false end.

Definition removeFromCustomer (customerID streamID : string) (m : gmap string (gset string)) : gmap string (gset string) :=
  match m !! customerID with
  | None => m
  | Some set =>
      let set' := set ∖ {[streamID]} in
      if bool_decide (size set' = 0%nat) then delete customerID m else <[customerID := set']> m
  end.

Section Index.
(** protojson.Unmarshal into an Invoice. *)
Context (Unmarshal : bytes -> res Mirrored).

Definition rowOf (env : StateEnvelope) (state : Mirrored) : Row :=
  mkRow (mi_InvoiceId state) (mi_CustomerId state) (mi_Currency state) (mi_TotalCents state) (mi_Status state)
    (sv_Version env) (isTerminal (mi_Status state)).

(** The upsert once the version is new. *)
Definition upsert (sid : string) (row : Row) (i : t) : t :=
  let cust := match byID i !! sid with
    | Some old => if bool_decide (CustomerID old = CustomerID row) then byCust i
                  else removeFromCustomer (CustomerID old) sid (byCust i)
    | None => byCust i
    end in
  mk (<[sid := row]> (byID i))
     (<[CustomerID row := default ∅ (cust !! CustomerID row) ∪ {[sid]}]> cust).

Definition PublishState (env : StateEnvelope) : M t unit := fun i =>
  if negb (bool_decide (sv_TypeURL env = "myapp.invoice.v1.Invoice")) then (i, Ok tt)
  else
    match Unmarshal (sv_State env) with
    | Err e => (i, Err e)
    | Ok state =>
        match byID i !! sv_StreamID env with
        | Some existing =>
            if sv_Version env <=? Version existing then (i, Ok tt)
            else (upsert (sv_StreamID env) (rowOf env state) i, Ok tt)
        | None => (upsert (sv_StreamID env) (rowOf env state) i, Ok tt)
        end
    end.

Definition Lookup (i : t) (streamID : string) : option Row := byID i !! streamID.
Definition FindByCustomer (i : t) (customerID : string) : list Row :=
  omap (fun sid => byID i !! sid) (elements (default ∅ (byCust i !! customerID))).
Definition Len (i : t) : Z := Z.of_nat (size (byID i)).

(** A sequence of deliveries. *)
Definition deliveries (envs : list StateEnvelope) (i : t) : t := foldl (fun i env => fst (PublishState env i)) i envs.
End Index.
End Index.

Module View.
(** A row; its CustomerID is the key it is kept under. *)
Record Row := mkRow {
  OpenInvoiceCount : Z; PaidInvoiceCount : Z; VoidedInvoiceCount : Z;
  OpenOrderCount : Z; ShippedOrderCount : Z; CompletedOrderCount : Z;
  TotalInvoiceCents : Z; LastEventGP : Z
}.
Definition zero : Row := mkRow 0 0 0 0 0 0 0 0.

Record t := mk { rows : gmap string Row; orderToCustomer : gmap string string }.
Definition NewView : t := mk ∅ ∅.
Definition Get (v : t) (customerID : string) : option Row := rows v !! customerID.

(** Every row with its customer, in the order of the iteration. *)
Definition All (order : list string) (v : t) : list (string * Row) :=
  omap (fun c => pair c <$> rows v !! c) order.

Inductive Event :=
  | Created (customer : string) (cents : Z)
  | Paid
  | Voided
  | OrderPlaced (customer order : string)
  | OrderShipped (order : string)
  | OrderCompleted.

(** Update the row of a customer, which is made when it is missing. *)
Definition on_row (customer : string) (f : Row -> Row) (v : t) : t :=
  mk (<[customer := f (default zero (rows v !! customer))]> (rows v)) (orderToCustomer v).

(** Update the first row in the order of the iteration that satisfies [p]. *)
Definition on_first (order : list string) (p : Row -> bool) (f : Row -> Row) (v : t) : t :=
  match List.find (fun c => match rows v !! c with Some r => p r | None => false end) order with
  | Some c => on_row c f v
  | None => v
  end.

(** [order] is the order of [range v.rows] in this call. *)
Definition handle (order : list string) (gp : Z) (e : Event) (v : t) : t :=
  match e with
  | Created c cents =>
      on_row c (fun r => mkRow (OpenInvoiceCount r + 1) (PaidInvoiceCount r) (VoidedInvoiceCount r) (OpenOrderCount r)
        (ShippedOrderCount r) (CompletedOrderCount r) (i64 (TotalInvoiceCents r + cents)) gp) v
  | Paid =>
      on_first order (fun r => 0 <? OpenInvoiceCount r)
        (fun r => mkRow (OpenInvoiceCount r - 1) (PaidInvoiceCount r + 1) (VoidedInvoiceCount r) (OpenOrderCount r)
          (ShippedOrderCount r) (CompletedOrderCount r) (TotalInvoiceCents r) gp) v
  | Voided =>
      on_first order (fun r => 0 <? OpenInvoiceCount r)
        (fun r => mkRow (OpenInvoiceCount r - 1) (PaidInvoiceCount r) (VoidedInvoiceCount r + 1) (OpenOrderCount r)
          (ShippedOrderCount r) (CompletedOrderCount r) (TotalInvoiceCents r) gp) v
  | OrderPlaced c o =>
      let v' := on_row c (fun r => mkRow (OpenInvoiceCount r) (PaidInvoiceCount r) (VoidedInvoiceCount r) (OpenOrderCount r + 1)
        (ShippedOrderCount r) (CompletedOrderCount r) (TotalInvoiceCents r) gp) v in
      mk (rows v') (<[o := c]> (orderToCustomer v'))
  | OrderShipped o =>
      match orderToCustomer v !! o with
      | None => v
      | Some c => on_row c (fun r => mkRow (OpenInvoiceCount r) (PaidInvoiceCount r) (VoidedInvoiceCount r)
          (OpenOrderCount r - 1) (ShippedOrderCount r + 1) (CompletedOrderCount r) (TotalInvoiceCents r) gp) v
      end
  | OrderCompleted =>
      on_first order (fun r => 0 <? ShippedOrderCount r)
        (fun r => mkRow (OpenInvoiceCount r) (PaidInvoiceCount r) (VoidedInvoiceCount r) (OpenOrderCount r)
          (ShippedOrderCount r - 1) (CompletedOrderCount r + 1) (TotalInvoiceCents r) gp) v
  end.
End View.

(** ** The index mirrors the newest states *)
Section IndexFacts.
Import Index.
Context (Unmarshal : bytes -> res Mirrored).

(** A delivery that carries a state of the stream. *)
Definition concerns (env : StateEnvelope) (sid : string) (st : Mirrored) : Prop :=
  sv_TypeURL env = "myapp.invoice.v1.Invoice" /\ sv_StreamID env = sid /\ Unmarshal (sv_State env) = Ok st.

(** The row of a stream comes from a delivery of the highest version. *)
Definition newest (envs : list StateEnvelope) (i : t) : Prop := forall sid,
  match Lookup i sid with
  | Some row => (exists env st, env ∈ envs /\ concerns env sid st /\ row = rowOf env st) /\
      forall env st, env ∈ envs -> concerns env sid st -> sv_Version env <= Version row
  | None => forall env st, env ∈ envs -> ~ concerns env sid st
  end.

(** The index by customer agrees with the rows. *)
Definition indexed (i : t) : Prop := forall c sid,
  sid ∈ default ∅ (byCust i !! c) <-> exists r, Lookup i sid = Some r /\ CustomerID r = c.

Lemma removeFromCustomer_in c c' sid sid' m :
  sid' ∈ (default ∅ (removeFromCustomer c sid m !! c') : gset string) <->
  sid' ∈ (default ∅ (m !! c') : gset string) /\ ~ (c' = c /\ sid' = sid).
Proof.
  unfold removeFromCustomer. destruct (m !! c) as [set|] eqn:Hm.
  2: { split; [|tauto]. intros H. split; [done|]. intros [-> ->]. rewrite Hm in H. simpl in H. set_solver. }
  destruct (decide (c' = c)) as [->|Hne].
  - rewrite Hm. simpl. case_bool_decide as Hz.
    + rewrite lookup_delete_eq. simpl. apply size_empty_inv in Hz. set_solver.
    + rewrite lookup_insert_eq. simpl. set_solver.
  - case_bool_decide; rewrite ?lookup_delete_ne, ?lookup_insert_ne by done; naive_solver.
Qed.

Lemma upsert_indexed sid row i : indexed i -> indexed (upsert sid row i).
Proof.
  intros Hi c s. unfold upsert, Lookup. cbn [byID byCust].
  set (cust := match byID i !! sid with Some old => _ | None => _ end).
  assert (Hcust : forall c s, s ∈ default ∅ (cust !! c) <->
    s ∈ default ∅ (byCust i !! c) /\ ~ (s = sid /\ exists old, byID i !! sid = Some old /\ CustomerID old = c /\ c <> CustomerID row)).
  { intros c0 s0. unfold cust. destruct (byID i !! sid) as [old|] eqn:Ho.
    - case_bool_decide as He; [naive_solver|]. rewrite removeFromCustomer_in. naive_solver.
    - naive_solver. }
  destruct (decide (c = CustomerID row)) as [->|Hc].
  - rewrite lookup_insert_eq. simpl. rewrite elem_of_union, elem_of_singleton, Hcust, (Hi (CustomerID row) s).
    destruct (decide (s = sid)) as [->|Hs].
    + rewrite lookup_insert_eq. naive_solver.
    + rewrite lookup_insert_ne by done. unfold Lookup. naive_solver.
  - rewrite lookup_insert_ne by done. rewrite Hcust, (Hi c s). destruct (decide (s = sid)) as [->|Hs].
    + rewrite lookup_insert_eq. unfold Lookup. naive_solver.
    + rewrite lookup_insert_ne by done. unfold Lookup. naive_solver.
Qed.

Lemma newest_snoc_other envs env i :
  newest envs i -> (forall st, ~ concerns env (sv_StreamID env) st) -> newest (envs ++ [env]) i.
Proof.
  intros Hn Ho sid. assert (Hno : forall st, ~ concerns env sid st).
  { intros st Hc. destruct (Ho st). destruct Hc as (? & <- & ?). done. }
  specialize (Hn sid). destruct (Lookup i sid) as [row|].
  - destruct Hn as [(e & st & He & Hc & Hr) Hmax]. split; [exists e, st; split_and!; [set_solver|done|done]|].
    intros e' st' [He'| ->%list_elem_of_singleton]%elem_of_app Hc'; [by eapply Hmax|by destruct (Hno st')].
  - intros e' st' [He'| ->%list_elem_of_singleton]%elem_of_app; [by eapply Hn|apply Hno].
Qed.

Lemma publish_step envs env i : newest envs i -> indexed i ->
  let i' := fst (PublishState Unmarshal env i) in newest (envs ++ [env]) i' /\ indexed i'.
Proof.
  intros Hn Hi. unfold PublishState. case_bool_decide as Ht; cbn [negb].
  2: { split; [|done]. apply newest_snoc_other; [done|]. by intros st (? & _). }
  destruct (Unmarshal (sv_State env)) as [st|e] eqn:Hu.
  2: { split; [|done]. apply newest_snoc_other; [done|]. intros st (_ & _ & ?). congruence. }
  assert (Henv : concerns env (sv_StreamID env) st) by done.
  assert (Hfun : forall sid st', concerns env sid st' -> sid = sv_StreamID env /\ st' = st).
  { intros sid st' (_ & <- & H). split; [done|]. congruence. }
  assert (Hup : (forall e s', e ∈ envs -> concerns e (sv_StreamID env) s' -> sv_Version e <= sv_Version env) ->
    newest (envs ++ [env]) (upsert (sv_StreamID env) (rowOf env st) i)).
  { intros Hmax sid. unfold upsert, Lookup. cbn [byID]. destruct (decide (sid = sv_StreamID env)) as [->|Hne].
    - rewrite lookup_insert_eq. split; [exists env, st; split_and!; [set_solver|done|done]|].
      intros e s' [He| ->%list_elem_of_singleton]%elem_of_app Hc; [by eapply Hmax|done].
    - rewrite lookup_insert_ne by done. specialize (Hn sid). unfold Lookup in Hn. destruct (byID i !! sid) as [row|].
      + destruct Hn as [(e & s' & He & Hc & Hr) Hm]. split; [exists e, s'; split_and!; [set_solver|done|done]|].
        intros e' s'' [He'| ->%list_elem_of_singleton]%elem_of_app Hc'; [by eapply Hm|]. by destruct (Hfun _ _ Hc').
      + intros e' s'' [He'| ->%list_elem_of_singleton]%elem_of_app Hc'; [by eapply Hn|]. by destruct (Hfun _ _ Hc'). }
  pose proof (Hn (sv_StreamID env)) as Hs. unfold Lookup in Hs. destruct (byID i !! sv_StreamID env) as [old|] eqn:Ho.
  - destruct Hs as [_ Hmax]. destruct (Z.leb_spec (sv_Version env) (Version old)); cbn [fst].
    + split; [|done]. intros sid. specialize (Hn sid). unfold Lookup in *. destruct (byID i !! sid) as [row|] eqn:Hl.
      * destruct Hn as [(e & s' & He & Hc & Hr) Hm]. split; [exists e, s'; split_and!; [set_solver|done|done]|].
        intros e' s'' [He'| ->%list_elem_of_singleton]%elem_of_app Hc'; [by eapply Hm|].
        destruct (Hfun _ _ Hc') as [-> _]. rewrite Ho in Hl. by injection Hl as <-.
      * intros e' s'' [He'| ->%list_elem_of_singleton]%elem_of_app Hc'; [by eapply Hn|].
        destruct (Hfun _ _ Hc') as [-> _]. congruence.
    + split; [|by apply upsert_indexed]. apply Hup. intros e s' He Hc. specialize (Hmax e s' He Hc). lia.
  - cbn [fst]. split; [|by apply upsert_indexed]. apply Hup. intros e s' He Hc. by destruct (Hs e s' He).
Qed.

Lemma deliveries_ok envs : newest envs (deliveries Unmarshal envs NewIndex) /\ indexed (deliveries Unmarshal envs NewIndex).
Proof.
  induction envs as [|env envs [IH1 IH2]] using rev_ind.
  - split.
    + intros sid. unfold Lookup. simpl. rewrite lookup_empty. by intros e st ?%elem_of_nil.
    + intros c sid. unfold Lookup. simpl. rewrite !lookup_empty. simpl. set_solver.
  - unfold deliveries. rewrite foldl_app. by apply publish_step.
Qed.
End IndexFacts.

(** The search index under at-least-once delivery.  Whatever deliveries of a
    state stream arrive, in whatever order and however often, the row of a
    stream is that of a delivery with the highest version, a stream is missing
    only if no delivery of it could be read, a search by customer finds exactly
    the customer's rows, and repeating deliveries changes nothing. *)
Theorem index_mirrors (Unmarshal : bytes -> res Index.Mirrored) envs :
  let i := Index.deliveries Unmarshal envs Index.NewIndex in
  newest Unmarshal envs i /\
  (forall c r, r ∈ Index.FindByCustomer i c <-> exists sid, Index.Lookup i sid = Some r /\ Index.CustomerID r = c) /\
  (forall l, (forall env, env ∈ l -> env ∈ envs) -> Index.deliveries Unmarshal l i = i).
Proof.
  intros i. destruct (deliveries_ok Unmarshal envs) as [Hn Hi]. fold i in Hn, Hi. split_and!; [done| |].
  - intros c r. unfold Index.FindByCustomer. rewrite list_elem_of_omap. split.
    + intros (sid & Hin & Hl). apply elem_of_elements, (Hi c sid) in Hin. destruct Hin as (r' & Hr' & Hc). exists sid.
      unfold Index.Lookup in *. rewrite Hr' in Hl. injection Hl as <-. done.
    + intros (sid & Hl & Hc). exists sid. split; [|done]. apply elem_of_elements, (Hi c sid). by exists r.
  - intros l Hl. assert (Hstep : forall env, env ∈ envs -> fst (Index.PublishState Unmarshal env i) = i).
    { intros env Hin. unfold Index.PublishState. case_bool_decide as Ht; [|done]. cbn [negb].
      destruct (Unmarshal (sv_State env)) as [st|e] eqn:Hu; [|done]. specialize (Hn (sv_StreamID env)).
      unfold Index.Lookup in Hn. destruct (Index.byID i !! sv_StreamID env) as [row|].
      - destruct Hn as [_ Hmax]. by rewrite (proj2 (Z.leb_le _ _) (Hmax env st Hin (conj Ht (conj eq_refl Hu)))).
      - by destruct (Hn env st Hin). }
    induction l as [|env l IH]; [done|]. cbn [Index.deliveries foldl]. rewrite Hstep by (apply Hl; set_solver).
    apply IH. intros e He. apply Hl. set_solver.
Qed.

(** The index does not look at the tenant, although receivers are told to tell
    deliveries apart by tenant, stream and version: the invoice of another tenant
    with the same stream id replaces the first, or is taken for a duplicate. *)
Lemma index_mixes_tenants :
  let inv c := Index.mkMirrored "i" c "EUR" 1 Invoice.STATUS_OPEN in
  let decode b := match b with [] => Ok (inv "ann") | _ => Ok (inv "bob") end in
  let i := Index.deliveries decode
    [mkStateEnvelope "acme" "invoice:1" "myapp.invoice.v1.Invoice" 3 1 [] 0;
     mkStateEnvelope "other" "invoice:1" "myapp.invoice.v1.Invoice" 2 1 [Byte.x01] 0] Index.NewIndex in
  Index.FindByCustomer i "bob" = [] /\ Index.Len i = 1.
Proof. split; vm_compute; reflexivity. Qed.

(** ** The customer view keeps its totals *)
Section ViewFacts.
Import View.

Definition sum_rows (f : Row -> Z) (v : t) : Z := foldr Z.add 0 ((fun kv => f (snd kv)) <$> map_to_list (rows v)).

Lemma sum_perm (l k : list Z) : l ≡ₚ k -> foldr Z.add 0 l = foldr Z.add 0 k.
Proof. induction 1; simpl; lia. Qed.

Lemma sum_insert f (m : gmap string Row) c r : m !! c = None ->
  foldr Z.add 0 ((fun kv => f (snd kv)) <$> map_to_list (<[c := r]> m)) =
  f r + foldr Z.add 0 ((fun kv => f (snd kv)) <$> map_to_list m).
Proof. intros Hc. rewrite (sum_perm _ _ (fmap_Permutation _ _ _ (map_to_list_insert m c r Hc))). done. Qed.

Lemma sum_on_row f c g v : f zero = 0 ->
  let old := default zero (rows v !! c) in sum_rows f (on_row c g v) = sum_rows f v + f (g old) - f old.
Proof.
  intros Hz old. unfold sum_rows, on_row. cbn [rows]. destruct (rows v !! c) as [r|] eqn:Hc; subst old; simpl.
  - rewrite <- (insert_delete_id (rows v) c r Hc) at 2. rewrite <- (insert_delete_eq (rows v) c).
    rewrite !sum_insert by apply lookup_delete_eq. lia.
  - rewrite sum_insert by done. lia.
Qed.

Lemma sum_on_row_delta f c g v d : f zero = 0 -> (forall r, f (g r) = f r + d) ->
  sum_rows f (on_row c g v) = sum_rows f v + d.
Proof. intros Hz Hf. rewrite sum_on_row, Hf by done. lia. Qed.

Lemma sum_on_first f order p g v : f zero = 0 -> (forall r, f (g r) = f r) ->
  sum_rows f (on_first order p g v) = sum_rows f v.
Proof. intros Hz Hf. unfold on_first. destruct (List.find _ _); [|done]. rewrite sum_on_row, Hf by done. lia. Qed.

(** Every invoice is in one of three counts, every order in one of three. *)
Definition invoices (r : Row) : Z := OpenInvoiceCount r + PaidInvoiceCount r + VoidedInvoiceCount r.
Definition orders (r : Row) : Z := OpenOrderCount r + ShippedOrderCount r + CompletedOrderCount r.

Definition created (es : list (list string * Z * Event)) : Z :=
  Z.of_nat (length (List.filter (fun x => match snd x with Created _ _ => true | _ => false end) es)).
Definition placed (es : list (list string * Z * Event)) : Z :=
  Z.of_nat (length (List.filter (fun x => match snd x with OrderPlaced _ _ => true | _ => false end) es)).

Definition handled (es : list (list string * Z * Event)) : t :=
  foldl (fun v x => handle (fst (fst x)) (snd (fst x)) (snd x) v) NewView es.

(** Whatever events arrive, and in whatever order the rows are visited, the
    invoices in the view are the created ones and the orders the placed ones. *)
Lemma view_totals es : sum_rows invoices (handled es) = created es /\ sum_rows orders (handled es) = placed es.
Proof.
  induction es as [|[[order gp] e] es [IH1 IH2]] using rev_ind; [by split|].
  unfold handled, created, placed in *. rewrite foldl_app, !List.filter_app, !length_app. cbn [foldl].
  set (v := foldl _ NewView es) in *.
  destruct e as [c cents| | |c o|o| ]; cbn [handle fst snd List.filter length];
    rewrite ?Nat.add_0_r, ?Nat2Z.inj_add, <- ?IH1, <- ?IH2.
  - split; [apply sum_on_row_delta|rewrite (sum_on_row_delta _ _ _ _ 0); [lia|..]]; try done;
      intros r; unfold invoices, orders; simpl; lia.
  - split; apply sum_on_first; try done; intros r; unfold invoices, orders; simpl; lia.
  - split; apply sum_on_first; try done; intros r; unfold invoices, orders; simpl; lia.
  - set (g := fun r => mkRow _ _ _ _ _ _ _ _). change (sum_rows invoices (on_row c g v) = sum_rows invoices v /\
      sum_rows orders (on_row c g v) = sum_rows orders v + 1).
    split; [rewrite (sum_on_row_delta _ _ _ _ 0); [lia|..]|apply sum_on_row_delta]; try done;
      intros r; unfold g, invoices, orders; simpl; lia.
  - destruct (orderToCustomer v !! o); [|done].
    split; (rewrite (sum_on_row_delta _ _ _ _ 0); [lia|..]); try done; intros r; unfold invoices, orders; simpl; lia.
  - split; apply sum_on_first; try done; intros r; unfold invoices, orders; simpl; lia.
Qed.

(** A shipment that is delivered twice takes an order from the open ones twice. *)
Lemma shipped_twice_negative :
  let v := handled [([], 1, OrderPlaced "ann" "o1"); ([], 2, OrderShipped "o1"); ([], 2, OrderShipped "o1")] in
  (OpenOrderCount <$> Get v "ann") = Some (-1).
Proof. vm_compute. reflexivity. Qed.
End ViewFacts.
