(* ===== verification/PathMatch.v ===== *)
(** * Go's path.Match, as EventFilter uses it

    The pattern is read once into tokens; a malformed pattern matches nothing,
    as the callers of path.Match here see it.  [*] matches any bytes but '/',
    [?] and classes match one UTF-8 rune (an invalid byte is the rune U+FFFD). *)
From S2P Require Import Prelude Errors Events.

Module PathMatch.
Notation byteZ := Z_of_byte.

(** utf8.DecodeRune: the rune and the bytes after it. *)
Definition cont (lo hi : Z) (b : bytes) : option (Z * bytes) :=
  match b with
  | x :: b' => if (lo <=? byteZ x) && (byteZ x <=? hi) then Some (byteZ x - 0x80, b') else None
  | [] => None
  end.
Definition tail_byte := cont 0x80 0xBF.

Definition RuneError : Z := 0xFFFD.

Definition two (x : Z) (b : bytes) : option (Z * bytes) :=
  '(c1, b1) ← tail_byte b; Some ((x - 0xC0) * 64 + c1, b1).
Definition three (x lo hi : Z) (b : bytes) : option (Z * bytes) :=
  '(c1, b1) ← cont lo hi b; '(c2, b2) ← tail_byte b1; Some (((x - 0xE0) * 64 + c1) * 64 + c2, b2).
Definition four (x lo hi : Z) (b : bytes) : option (Z * bytes) :=
  '(c1, b1) ← cont lo hi b; '(c2, b2) ← tail_byte b1; '(c3, b3) ← tail_byte b2;
  Some ((((x - 0xF0) * 64 + c1) * 64 + c2) * 64 + c3, b3).

(** [None] on the empty string; the flag says whether the encoding was valid. *)
Definition DecodeRune (b : bytes) : option (Z * bool * bytes) :=
  match b with
  | [] => None
  | c :: b' =>
      let x := byteZ c in
      let multi :=
        if x <? 0xC2 then None
        else if x <=? 0xDF then two x b'
        else if x =? 0xE0 then three x 0xA0 0xBF b'
        else if x =? 0xED then three x 0x80 0x9F b'
        else if x <=? 0xEF then three x 0x80 0xBF b'
        else if x =? 0xF0 then four x 0x90 0xBF b'
        else if x <=? 0xF3 then four x 0x80 0xBF b'
        else if x =? 0xF4 then four x 0x80 0x8F b'
        else None in
      if x <? 0x80 then Some (x, true, b')
      else
        match multi with
        | Some (r, b'') => Some (r, true, b'')
        | None => Some (RuneError, false, b')
        end
  end.

Inductive token :=
  | Star
  | AnyRune
  | Lit (c : Byte.byte)
  | Class_ (negated : bool) (ranges : list (Z * Z)).

(** getEsc: one bound of a class, and the rest, which must not be empty. *)
Definition getEsc (p : bytes) : option (Z * bytes) :=
  let rune q :=
    match DecodeRune q with
    | Some (r, true, (_ :: _) as rest) => Some (r, rest)
    | _ => None
    end in
  match p with
  | [] => None
  | c :: p' =>
      if bool_decide (c = Byte.x2d \/ c = Byte.x5d) then None
      else if bool_decide (c = Byte.x5c) then rune p'
      else rune p
  end.

(** The ranges of a class, after '[' and '^'. *)
Fixpoint getRanges (fuel : nat) (p : bytes) (acc : list (Z * Z)) : option (list (Z * Z) * bytes) :=
  match fuel with
  | O => None
  | S fuel' =>
      if bool_decide (head p = Some Byte.x5d) && negb (bool_decide (acc = [])) then Some (acc, tail p)
      else
        '(lo, p1) ← getEsc p;
        if bool_decide (head p1 = Some Byte.x2d)
        then '(hi, p2) ← getEsc (tail p1); getRanges fuel' p2 (acc ++ [(lo, hi)])
        else getRanges fuel' p1 (acc ++ [(lo, lo)])
  end.

Fixpoint tokens (fuel : nat) (p : bytes) : option (list token) :=
  match fuel with
  | O => None
  | S fuel' =>
      match p with
      | [] => Some []
      | c :: p' =>
          if bool_decide (c = Byte.x2a) then (cons Star) <$> tokens fuel' p'
          else if bool_decide (c = Byte.x3f) then (cons AnyRune) <$> tokens fuel' p'
          else if bool_decide (c = Byte.x5c) then
            match p' with
            | [] => None
            | c' :: p'' => (cons (Lit c')) <$> tokens fuel' p''
            end
          else if bool_decide (c = Byte.x5b) then
            let negated := bool_decide (head p' = Some Byte.x5e) in
            let p1 := if negated then tail p' else p' in
            '(ranges, p2) ← getRanges (S (length p1)) p1 [];
            (cons (Class_ negated ranges)) <$> tokens fuel' p2
          else (cons (Lit c)) <$> tokens fuel' p'
      end
  end.

Definition in_ranges (r : Z) (ranges : list (Z * Z)) : bool :=
  existsb (fun x => (fst x <=? r) && (r <=? snd x)) ranges.

(** [matches ts] is structural on the tokens, [star] on the name. *)
Fixpoint matches (ts : list token) : bytes -> bool :=
  match ts with
  | [] => fun s => bool_decide (s = [])
  | Star :: ts' =>
      fix star (s : bytes) : bool :=
        matches ts' s ||
        match s with
        | [] => false
        | c :: s' => if bool_decide (c = Byte.x2f) then false else star s'
        end
  | AnyRune :: ts' => fun s =>
      match s, DecodeRune s with
      | c :: _, Some (_, _, rest) => if bool_decide (c = Byte.x2f) then false else matches ts' rest
      | _, _ => false
      end
  | Lit c :: ts' => fun s =>
      match s with
      | c' :: rest => if bool_decide (c = c') then matches ts' rest else false
      | [] => false
      end
  | Class_ negated ranges :: ts' => fun s =>
      match DecodeRune s with
      | Some (r, _, rest) => if eqb (in_ranges r ranges) negated then false else matches ts' rest
      | None => false
      end
  end.

(** The boolean of path.Match. *)
Definition Match_ (pattern name : string) : bool :=
  let p := bytes_of_str pattern in
  match tokens (S (length p)) p with
  | Some ts => matches ts (bytes_of_str name)
  | None => false
  end.
End PathMatch.

Example path_match_glob : PathMatch.Match_ "invoice:*" "invoice:42" = true /\
  PathMatch.Match_ "*:vip-*" "order:vip-7" = true /\ PathMatch.Match_ "*:vip-*" "order:7" = false /\
  PathMatch.Match_ "inv?ice:[0-9]*" "invoice:4x" = true /\ PathMatch.Match_ "[^a-c]x" "bx" = false /\
  PathMatch.Match_ "a[" "a[" = false /\ PathMatch.Match_ "a\*" "a*" = true /\ PathMatch.Match_ "*" "a/b" = false.
Proof. vm_compute. split_and!; reflexivity. Qed.

(** A pattern of literals matches only itself. *)
Lemma match_literal s t : Forall (fun c => c ∉ [Byte.x2a; Byte.x3f; Byte.x5c; Byte.x5b]) (bytes_of_str s) ->
  PathMatch.Match_ s t = bool_decide (s = t).
Proof.
  intros Hl. unfold PathMatch.Match_.
  assert (Ht : forall b, Forall (fun c => c ∉ [Byte.x2a; Byte.x3f; Byte.x5c; Byte.x5b]) b ->
    forall n, (length b < n)%nat -> PathMatch.tokens n b = Some (PathMatch.Lit <$> b)).
  { induction b as [|c b IH]; intros HF n Hn; (destruct n as [|n]; [simpl in Hn; lia|]); [done|].
    apply Forall_cons in HF as [Hc HF]. rewrite fmap_cons. cbn [PathMatch.tokens].
    rewrite !not_elem_of_cons in Hc. rewrite !bool_decide_false by tauto.
    rewrite IH; [done|done|simpl in Hn; lia]. }
  rewrite (Ht _ Hl) by lia.
  assert (Hm : forall b c, PathMatch.matches (PathMatch.Lit <$> b) c = bool_decide (b = c)).
  { induction b as [|x b IH]; intros c; simpl; [apply bool_decide_ext; split; congruence|].
    destruct c as [|y c]; [by rewrite bool_decide_false|].
    destruct (decide (x = y)) as [->|Hne].
    - rewrite bool_decide_true by done. rewrite IH. apply bool_decide_ext. split; [by intros ->|by intros [= ->]].
    - rewrite bool_decide_false by done. rewrite bool_decide_false; [done|]. by intros [= ? _]. }
  rewrite Hm. apply bool_decide_ext. split; [|by intros ->].
  intros H. by rewrite <- (str_of_bytes_of_str s), <- (str_of_bytes_of_str t), H.
Qed.
