(* ===== verification/CmdWorkflow.v ===== *)
(** * The command workflow (cmdworkflow: bus.go, codec.go, options.go, queue.go,
      runtime.go, subscriber.go, dlq.go; adapters/cmdworkflow/inproc)

    HandleCmd appends a command's events through the aggregate runtime, reads
    them back, and hands them with the new state to every subscriber, each with
    its own retry budget and policy.  Every effect is a named step of a
    [WorkflowRuntime].  A computation of this file may not end (a subscriber
    that retries forever, compensations that keep failing): [P W A] is the
    state-and-error monad with [None] for "out of fuel". *)
From S2P Require Import Prelude Errors Streams Events Store Aggregate PathMatch.

Definition P (W A : Type) : Type := W -> option (W * res A).

#[export] Instance P_ret W : MRet (P W) := fun A a w => Some (w, Ok a).
#[export] Instance P_bind W : MBind (P W) := fun A B k m w =>
  match m w with
  | Some (w', Ok a) => k a w'
  | Some (w', Err e) => Some (w', Err e)
  | None => None
  end.

Section Partial.
Context {W A : Type}.
Definition run (m : M W A) : P W A := fun w => Some (m w).
Definition diverge : P W A := fun _ => None.
Definition throw (e : err) : P W A := fun w => Some (w, Err e).
Definition done_res (x : res A) : P W A := fun w => Some (w, x).
Definition p_wrap (msg : string) (m : P W A) : P W A := fun w =>
  match m w with
  | Some (w', Err e) => Some (w', Err (EWrap msg e))
  | x => x
  end.
End Partial.

Module CmdWorkflow.

(** ** The context

    What the package and its adapters read of a context.Context: the step prefix,
    the queue, the timeout of an attempt, whether cancellation was cut off, and
    what a durable adapter stashed under its key: the engine's context of an
    invocation, or of a step of it. *)
Inductive engineCtx := Invocation (id : string) | StepOf (id : string).

Record Ctx := mkCtx {
  ctx_prefix : option string;
  ctx_queue : option string;
  ctx_timeout : option Duration;
  ctx_detached : bool;
  ctx_handle : option engineCtx
}.
Definition Background : Ctx := mkCtx None None None false None.

Definition WithTimeout (c : Ctx) (d : Duration) : Ctx :=
  mkCtx (ctx_prefix c) (ctx_queue c) (Some d) (ctx_detached c) (ctx_handle c).
(** context.WithoutCancel keeps the values and drops the deadline. *)
Definition WithoutCancel (c : Ctx) : Ctx := mkCtx (ctx_prefix c) (ctx_queue c) None true (ctx_handle c).

(** *** queue.go *)
Definition DefaultQueue : string := "default".
Definition WithQueue (c : Ctx) (name : string) : Ctx :=
  mkCtx (ctx_prefix c) (Some (if bool_decide (name = "") then DefaultQueue else name)) (ctx_timeout c)
    (ctx_detached c) (ctx_handle c).
(** [None] is the nil context. *)
Definition QueueFromContext (c : option Ctx) : string :=
  match c with
  | None => DefaultQueue
  | Some c =>
      match ctx_queue c with
      | None => DefaultQueue
      | Some v => if bool_decide (v = "") then DefaultQueue else v
      end
  end.

Definition withStepPrefix (c : Ctx) (prefix : string) : Ctx :=
  mkCtx (Some prefix) (ctx_queue c) (ctx_timeout c) (ctx_detached c) (ctx_handle c).
Definition stepPrefix (c : Ctx) : string := default "" (ctx_prefix c).

(** ** runtime.go *)
Record WorkflowRuntime (W : Type) := mkWorkflowRuntime {
  Future : Type;
  Run : Ctx -> string -> (Ctx -> P W bytes) -> P W bytes;
  RunAsync : Ctx -> string -> (Ctx -> P W bytes) -> W -> option (W * Future);
  Wait : Future -> P W bytes;
  Spawn : Ctx -> string -> (Ctx -> P W unit) -> P W unit
}.
Arguments Future {_} _.
Arguments Run {_} _ _ _ _.
Arguments RunAsync {_} _ _ _ _.
Arguments Wait {_} _ _.
Arguments Spawn {_} _ _ _ _.

(** ** subscriber.go *)
Inductive DeliveryMode := Sync | Async.

(** The named policies, and any other value of the Go integer. *)
Inductive ExhaustedPolicy := DLQ | Compensate | Drop | OtherPolicy (n : Z).

Definition DeliveryMode_String (m : DeliveryMode) : string :=
  match m with Sync => "Sync" | Async => "Async" end.
Definition ExhaustedPolicy_String (p : ExhaustedPolicy) : string :=
  match p with DLQ => "DLQ" | Compensate => "Compensate" | Drop => "Drop" | OtherPolicy _ => "Unknown" end.

Record EventFilter := mkEventFilter {
  TypeURLs : list string;
  StreamGlob : string;
  Tenants : list string;
  Custom : option (Envelope.t -> bool)
}.

Definition Matches (f : EventFilter) (env : Envelope.t) : bool :=
  if negb (bool_decide (TypeURLs f = [])) && negb (bool_decide (Envelope.TypeURL env ∈ TypeURLs f)) then false
  else if negb (bool_decide (Tenants f = [])) && negb (bool_decide (Envelope.TenantID env ∈ Tenants f)) then false
  else if negb (bool_decide (StreamGlob f = "")) &&
          negb (PathMatch.Match_ (StreamGlob f) (StreamID.Canonical (Envelope.StreamID env))) then false
  else
    match Custom f with
    | Some p => p env
    | None => true
    end.

Record Subscriber (W S C E : Type) := mkSubscriber {
  Name : string;
  Filter : EventFilter;
  Mode : DeliveryMode;
  MaxRetries : Z;
  OnExhausted : ExhaustedPolicy;
  AttemptTimeout : Duration;
  Handle : option (Ctx -> list Envelope.t -> S -> list E -> M W unit);
  CompensateFn : option (Ctx -> list Envelope.t -> S -> list E -> M W C)
}.
Arguments Name {_ _ _ _} _.
Arguments Filter {_ _ _ _} _.
Arguments Mode {_ _ _ _} _.
Arguments MaxRetries {_ _ _ _} _.
Arguments OnExhausted {_ _ _ _} _.
Arguments AttemptTimeout {_ _ _ _} _.
Arguments Handle {_ _ _ _} _.
Arguments CompensateFn {_ _ _ _} _.

(** ** dlq.go *)
Record SubscriberDLQRow := mkSubscriberDLQRow {
  sr_SubscriberName : string;
  sr_TenantID : string;
  sr_StreamID : string;
  sr_EventIDs : list string;
  sr_TypeURLs : list string;
  sr_LastError : string;
  sr_Attempts : Z;
  sr_EnqueuedAt : Time
}.

(** ** options.go *)
Inductive HandleCmdOption :=
  | WithIdempotencyKey (key : string)
  | WithAggregateOption (opt : Aggregate.HandleOption).

Record handleCmdConfig := mkHandleCmdConfig {
  idempotencyKey : string;
  aggOpts : list Aggregate.HandleOption
}.

Definition apply_cmd_option (c : handleCmdConfig) (o : HandleCmdOption) : handleCmdConfig :=
  match o with
  | WithIdempotencyKey key => mkHandleCmdConfig key (aggOpts c)
  | WithAggregateOption opt => mkHandleCmdConfig (idempotencyKey c) (aggOpts c ++ [opt])
  end.

Definition idempKeyNamespace : UUID := 0xc0ffee000b054be79000000000000000.

(** [uuid.NewSHA1] is a parameter, as in DeriveCommandID. *)
Definition deriveCommandIDFromKey (NewSHA1 : UUID -> bytes -> UUID) (key : string) : UUID :=
  NewSHA1 idempKeyNamespace (bytes_of_str key).

(** ** codec.go *)
Record wireAppendResult := mkWireAppendResult {
  wr_StartVersion : Z;
  wr_EndVersion : Z;
  wr_StartGlobalPosition : Z;
  wr_EndGlobalPosition : Z;
  wr_RecordedAt : Time
}.

Record wireEnvelope := mkWireEnvelope {
  we_EventID : UUID;
  we_TenantID : string;
  we_StreamCanon : string;
  we_StreamTenant : string;
  we_StreamType : string;
  we_StreamRawID : string;
  we_Version : Z;
  we_GlobalPosition : Z;
  we_TypeURL : string;
  we_SchemaVersion : Z;
  we_OccurredAt : Time;
  we_RecordedAt : Time;
  we_CorrelationID : UUID;
  we_CausationID : UUID;
  we_CommandID : UUID;
  we_ActorPrincipal : string;
  we_ActorKind : Z;
  we_ActorOnBehalfOf : string;
  we_ActorAPIKeyID : string;
  we_ActorAttributes : gmap string string;
  we_Payload : bytes;
  we_PayloadJSON : bytes;
  we_KeyRefs : bytes
}.
End CmdWorkflow.

(** encoding/gob on the two wire types, and the text of a UUID. *)
Class Gob := {
  gob_result : CmdWorkflow.wireAppendResult -> bytes;
  ungob_result : bytes -> res CmdWorkflow.wireAppendResult;
  gob_envelopes : list CmdWorkflow.wireEnvelope -> bytes;
  ungob_envelopes : bytes -> res (list CmdWorkflow.wireEnvelope);
  uuid_text : UUID -> string
}.

(** Decoding gives back the value that was encoded. *)
Class GobLaws (G : Gob) := {
  ungob_gob_result : forall r, ungob_result (gob_result r) = Ok r;
  ungob_gob_envelopes : forall l, ungob_envelopes (gob_envelopes l) = Ok l
}.

Module Bus.
Import CmdWorkflow.

Section Codec.
Context {G : Gob}.

Definition encodeAppendResult (r : AppendResult) : bytes :=
  gob_result (mkWireAppendResult (ar_StartVersion r) (ar_EndVersion r) (ar_StartGlobalPosition r)
                (ar_EndGlobalPosition r) (ar_RecordedAt r)).

Definition decodeAppendResult (b : bytes) : res AppendResult :=
  match ungob_result b with
  | Err e => Err e
  | Ok w => Ok (mkAppendResult (wr_StartVersion w) (wr_EndVersion w) (wr_StartGlobalPosition w)
                  (wr_EndGlobalPosition w) (wr_RecordedAt w))
  end.

Definition toWire (env : Envelope.t) : wireEnvelope :=
  mkWireEnvelope (Envelope.EventID env) (Envelope.TenantID env) (StreamID.Canonical (Envelope.StreamID env))
    (StreamID.Tenant (Envelope.StreamID env)) (StreamID.Type_ (Envelope.StreamID env))
    (StreamID.ID (Envelope.StreamID env)) (Envelope.Version env) (Envelope.GlobalPosition env)
    (Envelope.TypeURL env) (Envelope.SchemaVersion env) (Envelope.OccurredAt env) (Envelope.RecordedAt env)
    (Envelope.CorrelationID env) (Envelope.CausationID env) (Envelope.CommandID env)
    (Actor.Principal (Envelope.Actor env)) (Actor.Kind (Envelope.Actor env))
    (Actor.OnBehalfOf (Envelope.Actor env)) (Actor.APIKeyID (Envelope.Actor env))
    (Actor.Attributes (Envelope.Actor env)) (Envelope.Payload env) (Envelope.PayloadJSON env) (Envelope.KeyRefs env).

(** Hash and PrevHash stay empty. *)
Definition fromWire (w : wireEnvelope) : Envelope.t :=
  Envelope.mk (we_EventID w) (we_TenantID w)
    (StreamID.mk (we_StreamTenant w) (we_StreamType w) (we_StreamRawID w))
    (we_Version w) (we_GlobalPosition w) (we_TypeURL w) (we_SchemaVersion w) (we_OccurredAt w) (we_RecordedAt w)
    (we_CorrelationID w) (we_CausationID w) (we_CommandID w)
    (Actor.mk (we_ActorKind w) (we_ActorPrincipal w) (we_ActorOnBehalfOf w) (we_ActorAPIKeyID w)
       (we_ActorAttributes w))
    (we_Payload w) (we_PayloadJSON w) (we_KeyRefs w) [] [].

Definition encodeEnvelopes (envs : list Envelope.t) : bytes := gob_envelopes (toWire <$> envs).

Definition decodeEnvelopes (b : bytes) : res (list Envelope.t) :=
  match ungob_envelopes b with
  | Err e => Err e
  | Ok wires => Ok (fromWire <$> wires)
  end.
End Codec.

(** ** bus.go *)
Record AggregateRunner (W S C : Type) := mkAggregateRunner {
  r_Handle : StreamID.t -> C -> list Aggregate.HandleOption -> M W AppendResult;
  r_Load : StreamID.t -> M W (S * Z);
  r_EncodeState : S -> res bytes;
  r_DecodeState : bytes -> res S;
  r_Now : M W Time
}.
Arguments r_Handle {_ _ _} _ _ _ _.
Arguments r_Load {_ _ _} _ _.
Arguments r_EncodeState {_ _ _} _ _.
Arguments r_DecodeState {_ _ _} _ _.
Arguments r_Now {_ _ _} _.

(** The aggregate runtime is a runner. *)
Definition runner_of {W S C E} (RealClock : M W Time) (NewV7 : M W UUID) (r : Aggregate.Runtime W S C E)
    : AggregateRunner W S C :=
  mkAggregateRunner W S C (Aggregate.Handle RealClock NewV7 r) (Aggregate.Load r)
    (Aggregate.EncodeState r) (Aggregate.DecodeState r) (Aggregate.Now RealClock r).

Record Workflow (W S C E : Type) := mkWorkflow {
  runner : AggregateRunner W S C;
  store : Store W;
  wf : WorkflowRuntime W;
  codec : Codec E;
  subscribers : list (Subscriber W S C E);
  dlq : option (SubscriberDLQRow -> M W unit);
  asyncSend : option (Ctx -> string -> bytes -> string -> M W unit)
}.
Arguments mkWorkflow {_ _ _ _} _ _ _ _ _ _ _.
Arguments runner {_ _ _ _} _.
Arguments store {_ _ _ _} _.
Arguments wf {_ _ _ _} _.
Arguments codec {_ _ _ _} _.
Arguments subscribers {_ _ _ _} _.
Arguments dlq {_ _ _ _} _.
Arguments asyncSend {_ _ _ _} _.

Section Wiring.
Context {W S C E : Type}.

Definition New (runner : AggregateRunner W S C) (store : Store W) (wf : WorkflowRuntime W) (codec : Codec E)
    : Workflow W S C E := mkWorkflow runner store wf codec [] None None.

Definition WithDLQ (b : Workflow W S C E) (dlq : SubscriberDLQRow -> M W unit) : Workflow W S C E :=
  mkWorkflow (runner b) (store b) (wf b) (codec b) (subscribers b) (Some dlq) (asyncSend b).

Definition SetAsyncSend (b : Workflow W S C E) (fn : Ctx -> string -> bytes -> string -> M W unit)
    : Workflow W S C E :=
  mkWorkflow (runner b) (store b) (wf b) (codec b) (subscribers b) (dlq b) (Some fn).

(** A panic is an error here. *)
Definition Register (b : Workflow W S C E) (s : Subscriber W S C E) : res (Workflow W S C E) :=
  if bool_decide (Name s = "") then Err (ENew "panic: cmdworkflow: Subscriber.Name is required")
  else
    match Handle s with
    | None => Err (ENew "panic: cmdworkflow: Subscriber.Handle is required")
    | Some _ =>
        match OnExhausted s, CompensateFn s, Mode s with
        | Compensate, None, _ => Err (ENew ("panic: cmdworkflow: Subscriber " +:+ Name s +:+ ": OnExhausted=Compensate requires Compensate fn"))
        | Compensate, _, Async => Err (ENew ("panic: cmdworkflow: Subscriber " +:+ Name s +:+
            ": Async + Compensate is disallowed (saga compensation requires Sync)"))
        | _, _, _ =>
            if bool_decide (Name s ∈ (Name <$> subscribers b))
            then Err (ENew ("panic: cmdworkflow: duplicate Subscriber.Name: " +:+ Name s))
            else Ok (mkWorkflow (runner b) (store b) (wf b) (codec b) (subscribers b ++ [s]) (dlq b) (asyncSend b))
        end
    end.

Fixpoint With (b : Workflow W S C E) (subs : list (Subscriber W S C E)) : res (Workflow W S C E) :=
  match subs with
  | [] => Ok b
  | s :: subs' =>
      match Register b s with
      | Err e => Err e
      | Ok b' => With b' subs'
      end
  end.
End Wiring.

Section Bus.
(** [retryFuel] bounds the attempts of a subscriber that retries forever. *)
Context {W S C E : Type} {G : Gob} (NewSHA1 : UUID -> bytes -> UUID) (retryFuel : nat)
  (b : Workflow W S C E).
Notation Sub := (Subscriber W S C E).

(** *** The steps *)
Definition appendStep (ctx : Ctx) (sid : StreamID.t) (cmd : C) (opts : list Aggregate.HandleOption)
    : P W AppendResult :=
  raw ← Run (wf b) ctx (stepPrefix ctx +:+ "append") (fun _ =>
          run (ar ← r_Handle (runner b) sid cmd opts; mret (encodeAppendResult ar)));
  done_res (decodeAppendResult raw).

Definition readBack (sid : StreamID.t) (result : AppendResult) : M W bytes :=
  envs ← ReadStream (store b) sid (u64 (ar_StartVersion result - 1));
  let want := i64 (u64 (ar_EndVersion result - ar_StartVersion result + 1)) in
  mret (encodeEnvelopes (if want <? Z.of_nat (length envs) then take (Z.to_nat want) envs else envs)).

Definition readEnvelopesStep (ctx : Ctx) (sid : StreamID.t) (result : AppendResult) : P W (list Envelope.t) :=
  raw ← Run (wf b) ctx (stepPrefix ctx +:+ "read-envelopes") (fun _ => run (readBack sid result));
  done_res (decodeEnvelopes raw).

Definition readStateStep (ctx : Ctx) (sid : StreamID.t) : P W S :=
  raw ← Run (wf b) ctx (stepPrefix ctx +:+ "read-state") (fun _ =>
          run (x ← r_Load (runner b) sid; of_res (r_EncodeState (runner b) (fst x))));
  done_res (r_DecodeState (runner b) raw).

Definition decodeEvents (envs : list Envelope.t) : res (list E) :=
  mapR (fun env =>
    match Decode (codec b) (Envelope.TypeURL env) (Envelope.SchemaVersion env) (Envelope.Payload env) with
    | Ok e => Ok e
    | Err e => Err (EWrap "decode event" e)
    end) envs.

(** *** Retries *)
Definition callHandle (sub : Sub) (ctx : Ctx) (envs : list Envelope.t) (state : S) (events : list E) : M W unit :=
  match Handle sub with
  | Some h => h (if 0 <? AttemptTimeout sub then WithTimeout ctx (AttemptTimeout sub) else ctx) envs state events
  | None => fail (ENew "panic: nil Handle")
  end.

(** The loop: the last error, [None] after a success.  [attempt] and the bound
    are Go ints. *)
Fixpoint retryLoop (fuel : nat) (ctx : Ctx) (envs : list Envelope.t) (state : S) (events : list E) (sub : Sub)
    (attempt : Z) (lastErr : option err) : P W (option err) :=
  match fuel with
  | O => diverge
  | Datatypes.S fuel' =>
      if (MaxRetries sub <? 0) || (attempt <=? i64 (MaxRetries sub + 1)) then fun w =>
        match callHandle sub ctx envs state events w with
        | (w1, Ok _) => Some (w1, Ok None)
        | (w1, Err e) => retryLoop fuel' ctx envs state events sub (i64 (attempt + 1)) (Some e) w1
        end
      else mret lastErr
  end.

Definition runRetries (ctx : Ctx) (envs : list Envelope.t) (state : S) (events : list E) (sub : Sub)
    : P W (option err) :=
  retryLoop retryFuel ctx envs state events sub 1 None.

(** envs[0].EventID.String() of a batch that is not empty. *)
Definition firstID (envs : list Envelope.t) : string :=
  match envs with env :: _ => uuid_text (Envelope.EventID env) | [] => "" end.

(** The bytes are the text of the last error, none for a success. *)
Definition syncStep (envs : list Envelope.t) (state : S) (events : list E) (sub : Sub) (ctx : Ctx) : P W bytes :=
  r ← runRetries ctx envs state events sub;
  mret (match r with Some e => bytes_of_str (Error e) | None => [] end).

Definition runSyncSubscriber (ctx : Ctx) (envs : list Envelope.t) (state : S) (events : list E) (sub : Sub)
    (w : W) : option (W * Future (wf b)) :=
  RunAsync (wf b) ctx (stepPrefix ctx +:+ Name sub +:+ ":cmd:" +:+ firstID envs) (syncStep envs state events sub) w.

(** *** Policies; [rec] is the nested HandleCmd. *)
Section Policies.
Context (rec : Ctx -> StreamID.t -> C -> P W S).

Definition dlqRow (sid : StreamID.t) (envs : list Envelope.t) (sub : Sub) (lastErr : err) (now : Time)
    : SubscriberDLQRow :=
  mkSubscriberDLQRow (Name sub) (match envs with env :: _ => Envelope.TenantID env | [] => "" end)
    (StreamID.Canonical sid) ((fun e => uuid_text (Envelope.EventID e)) <$> envs) (Envelope.TypeURL <$> envs)
    (Error lastErr) (i64 (MaxRetries sub + 1)) now.

Definition onExhausted (ctx : Ctx) (sid : StreamID.t) (envs : list Envelope.t) (state : S) (events : list E)
    (sub : Sub) (lastErr : err) : P W unit :=
  match OnExhausted sub with
  | Drop => mret tt
  | DLQ =>
      match dlq b with
      | None => throw (EWrap ("cmdworkflow: subscriber " +:+ Name sub +:+ " exhausted (no DLQ wired)") lastErr)
      | Some insert =>
          _ ← Run (wf b) ctx (stepPrefix ctx +:+ Name sub +:+ ":" +:+ firstID envs +:+ ":dlq") (fun _ =>
                run (now ← r_Now (runner b); _ ← insert (dlqRow sid envs sub lastErr now); mret []));
          mret tt
      end
  | Compensate =>
      match CompensateFn sub with
      | None => throw (ENew "cmdworkflow: OnExhausted=Compensate but Compensate fn is nil (should have been caught at Register)")
      | Some f =>
          let detached := WithoutCancel ctx in
          cmd ← p_wrap ("cmdworkflow: subscriber " +:+ Name sub +:+ " compensate fn") (run (f detached envs state events));
          let nestedPrefix := stepPrefix detached +:+ "compensate:" +:+ Name sub +:+ ":" +:+ firstID envs +:+ ":" in
          _ ← rec (withStepPrefix detached nestedPrefix) sid cmd;
          mret tt
      end
  | OtherPolicy _ => throw (ENew "cmdworkflow: unknown OnExhausted policy")
  end.

(** Retries, then the policy: what an async delivery does. *)
Definition settle (ctx : Ctx) (sid : StreamID.t) (envs : list Envelope.t) (state : S) (events : list E) (sub : Sub)
    : P W unit :=
  r ← runRetries ctx envs state events sub;
  match r with
  | None => mret tt
  | Some e => onExhausted ctx sid envs state events sub e
  end.

Definition asyncBody (sid : StreamID.t) (envs : list Envelope.t) (sub : Sub) (ctx : Ctx) : P W unit :=
  events ← done_res (decodeEvents envs);
  x ← run (r_Load (runner b) sid);
  settle ctx sid envs (fst x) events sub.

Definition spawnAsync (ctx : Ctx) (sid : StreamID.t) (envs : list Envelope.t) (sub : Sub) : P W unit :=
  match asyncSend b with
  | Some send =>
      run (send ctx (Name sub) (encodeEnvelopes envs) (StreamID.Type_ sid +:+ ":" +:+ Name sub +:+ ":" +:+ firstID envs))
  | None => Spawn (wf b) ctx (Name sub +:+ ":" +:+ firstID envs) (asyncBody sid envs sub)
  end.

(** *** The fan-out *)
Record syncEntry := mkSyncEntry {
  se_sub : Sub;
  se_envs : list Envelope.t;
  se_events : list E;
  se_future : Future (wf b)
}.

(** The envelopes of a batch that pass the filter, with their events. *)
Definition filtered (sub : Sub) (envs : list Envelope.t) (events : list E) : list (Envelope.t * E) :=
  List.filter (fun x => Matches (Filter sub) (fst x)) (combine envs events).

Fixpoint fanOut (ctx : Ctx) (sid : StreamID.t) (envs : list Envelope.t) (state : S) (events : list E)
    (subs : list Sub) (syncs : list syncEntry) : P W (list syncEntry) :=
  match subs with
  | [] => mret syncs
  | sub :: subs' =>
      let batch := filtered sub envs events in
      match batch with
      | [] => fanOut ctx sid envs state events subs' syncs
      | _ =>
          match Mode sub with
          | Async => _ ← spawnAsync ctx sid batch.*1 sub; fanOut ctx sid envs state events subs' syncs
          | Sync => fun w =>
              match runSyncSubscriber ctx batch.*1 state batch.*2 sub w with
              | None => None
              | Some (w1, f) =>
                  fanOut ctx sid envs state events subs' (syncs ++ [mkSyncEntry sub batch.*1 batch.*2 f]) w1
              end
          end
      end
  end.

Fixpoint waitAll (syncs : list syncEntry) : P W (list (syncEntry * err)) :=
  match syncs with
  | [] => mret []
  | s :: syncs' =>
      raw ← p_wrap ("cmdworkflow: subscriber " +:+ Name (se_sub s)) (Wait (wf b) (se_future s));
      more ← waitAll syncs';
      mret (if bool_decide (raw = []) then more else (s, ENew (str_of_bytes raw)) :: more)
  end.

(** Whether a compensation ran. *)
Fixpoint applyPolicies (ctx : Ctx) (sid : StreamID.t) (state : S) (toApply : list (syncEntry * err))
    (mutated : bool) : P W bool :=
  match toApply with
  | [] => mret mutated
  | (s, e) :: toApply' =>
      _ ← onExhausted ctx sid (se_envs s) state (se_events s) (se_sub s) e;
      applyPolicies ctx sid state toApply'
        (match OnExhausted (se_sub s) with Compensate => true | _ => mutated end)
  end.

(** Steps 2 to 6 of HandleCmd: everything after the append. *)
Definition dispatch (ctx : Ctx) (sid : StreamID.t) (appendResult : AppendResult) : P W S :=
  if (ar_StartVersion appendResult =? 0) && (ar_EndVersion appendResult =? 0) then
    x ← run (r_Load (runner b) sid); mret (fst x)
  else
    envs ← readEnvelopesStep ctx sid appendResult;
    state ← readStateStep ctx sid;
    events ← p_wrap "cmdworkflow: decode events" (done_res (decodeEvents envs));
    syncs ← fanOut ctx sid envs state events (subscribers b) [];
    toApply ← waitAll syncs;
    mutated ← applyPolicies ctx sid state toApply false;
    if (mutated : bool) then x ← run (r_Load (runner b) sid); mret (fst x) else mret state.
End Policies.

Definition handleOptions (opts : list HandleCmdOption) : list Aggregate.HandleOption :=
  let cfg := foldl apply_cmd_option (mkHandleCmdConfig "" []) opts in
  if bool_decide (idempotencyKey cfg = "") then aggOpts cfg
  else aggOpts cfg ++ [Aggregate.WithCommandID (deriveCommandIDFromKey NewSHA1 (idempotencyKey cfg))].

(** [fuel] bounds the nesting of compensations. *)
Fixpoint HandleCmd (fuel : nat) (ctx : Ctx) (sid : StreamID.t) (cmd : C) (opts : list HandleCmdOption) : P W S :=
  match fuel with
  | O => diverge
  | Datatypes.S fuel' =>
      appendResult ← appendStep ctx sid cmd (handleOptions opts);
      dispatch (fun ctx sid cmd => HandleCmd fuel' ctx sid cmd []) ctx sid appendResult
  end.

Definition DispatchAsync (fuel : nat) (ctx : Ctx) (subscriberName : string) (envBytes : bytes) : P W unit :=
  match list_find (fun s => Name s = subscriberName) (subscribers b) with
  | None => throw (ENew ("cmdworkflow: DispatchAsync: subscriber " +:+ subscriberName +:+ " not registered"))
  | Some (_, sub) =>
      envs ← p_wrap "cmdworkflow: DispatchAsync: decode envelopes" (done_res (decodeEnvelopes envBytes));
      match envs with
      | [] => throw (ENew "cmdworkflow: DispatchAsync: empty envelope batch")
      | env :: _ =>
          events ← p_wrap "cmdworkflow: DispatchAsync: decode events" (done_res (decodeEvents envs));
          x ← p_wrap "cmdworkflow: DispatchAsync: load state" (run (r_Load (runner b) (Envelope.StreamID env)));
          settle (fun ctx sid cmd => HandleCmd fuel ctx sid cmd []) ctx (Envelope.StreamID env) envs (fst x) events sub
      end
  end.
End Bus.
End Bus.
