(* ===== verification/Edge.v ===== *)
(** * The edges of the system: publishers, authorization and the Connect edge
    (adapters/publisher/, authz/, adapters/authz/cedar/, adapters/httpedge/connect/)

    The in-process and the Restate publisher the outbox drain can be given, the
    Cedar policy, and the HTTP entry that maps framework errors to Connect codes.
    The HTTP client, the Cedar engine and the command bus are parameters. *)
From S2P Require Import Prelude Errors Streams Events Store Aggregate CmdWorkflow.
From stdpp Require Import pretty.
Import CmdWorkflow.
#[local] Open Scope Z_scope.

(** ** inproc.go *)
Module Inproc.
Section Inproc.
Context {W : Type}.
Notation Subscriber := (Envelope.t -> M W unit).

Definition New : list Subscriber := [].
Definition Subscribe (s : Subscriber) (subs : list Subscriber) : list Subscriber := subs ++ [s].

Fixpoint Publish (subs : list Subscriber) (env : Envelope.t) : M W unit :=
  match subs with
  | [] => mret tt
  | s :: subs' => s env ≫= fun _ => Publish subs' env
  end.
End Inproc.
End Inproc.

(** ** restate/publisher.go *)
Module RestatePublisher.
Record Config := mkConfig { IngressURL : string; Service : string; Handler : string; AuthToken : string }.
Record Publisher := mkPublisher { cfg : Config; url : string }.

Fixpoint drop_slashes (s : string) : string :=
  match s with String c s' => if bool_decide (c = "/"%char) then drop_slashes s' else s | "" => "" end.
(** [strings.TrimRight(s, "/")] *)
Definition trim_right_slash (s : string) : string :=
  str_rev_app (drop_slashes (str_rev_app s "")) "".

Definition New (c : Config) : res Publisher :=
  if bool_decide (IngressURL c = "") then Err (ENew "restate: Config.IngressURL is required")
  else if bool_decide (Service c = "") then Err (ENew "restate: Config.Service is required")
  else if bool_decide (Handler c = "") then Err (ENew "restate: Config.Handler is required")
  else Ok (mkPublisher c (trim_right_slash (IngressURL c) +:+ "/" +:+ Service c +:+ "/" +:+ Handler c)).

Definition FormatUint (n : Z) : string := pretty (Z.to_N n).

Record Request := mkRequest { r_url : string; r_headers : list (string * string); r_body : bytes }.

Section Publish.
Context {W : Type} (uuid_String : UUID -> string)
  (NewRequest : string -> res unit)
  (Do : Request -> M W (Z * string)).

Definition headers (p : Publisher) (env : Envelope.t) : list (string * string) :=
  [("Content-Type", "application/x-protobuf");
   ("Idempotency-Key", uuid_String (Envelope.EventID env));
   ("X-EventStore-Tenant", Envelope.TenantID env);
   ("X-EventStore-Stream", StreamID.Canonical (Envelope.StreamID env));
   ("X-EventStore-Version", FormatUint (Envelope.Version env));
   ("X-EventStore-Global-Position", FormatUint (Envelope.GlobalPosition env));
   ("X-EventStore-Type-URL", Envelope.TypeURL env);
   ("X-EventStore-Schema-Version", FormatUint (Envelope.SchemaVersion env))] ++
  (if bool_decide (AuthToken (cfg p) = "") then [] else [("Authorization", "Bearer " +:+ AuthToken (cfg p))]).

(** [Do] returns the status and the body, of which the error keeps a part. *)
Definition Publish (p : Publisher) (env : Envelope.t) : M W unit :=
  _ ← wrap_err "restate: build request" (of_res (NewRequest (url p)));
  resp ← wrap_err ("restate: POST " +:+ url p) (Do (mkRequest (url p) (headers p env) (Envelope.Payload env)));
  if (200 <=? fst resp) && (fst resp <? 300) then mret tt
  else fail (ENew ("restate: POST " +:+ url p +:+ ": status " +:+ FormatUint (fst resp) +:+ ": " +:+ snd resp)).
End Publish.
End RestatePublisher.

(** ** authz.go, cedar/policy.go *)
Module Authz.
(** [any] values of a context map, as far as the adapter tells them apart. *)
Inductive Any := AString (s : string) | ABool (b : bool) | AInt (n : Z) | AInt32 (n : Z) | AInt64 (n : Z) | AOther.

Record Principal := mkPrincipal { p_ID : string; p_Type : string }.
Record Request := mkRequest {
  rq_Principal : Principal;
  rq_Action : string;
  rq_Stream : StreamID.t;
  rq_Context : list (string * Any)
}.
End Authz.

Module Cedar.
Import Authz.

Inductive Value := VString (s : string) | VBool (b : bool) | VLong (n : Z).
Record CedarRequest := mkCedarRequest {
  cr_Principal : string * string;
  cr_Action : string * string;
  cr_Resource : string * string;
  cr_Context : list (string * Value)
}.

(** The parsed policy set is what the engine is called with. *)
Record Config := mkConfig { Policies : string; AllowMissingPrincipal : bool }.

Definition defaultType (t fallback : string) : string := if bool_decide (t = "") then fallback else t.

Definition toCedarValue (v : Any) : option Value :=
  match v with
  | AString s => Some (VString s)
  | ABool b => Some (VBool b)
  | AInt n | AInt32 n | AInt64 n => Some (VLong n)
  | AOther => None
  end.

Definition recordFromMap (m : list (string * Any)) : list (string * Value) :=
  omap (fun kv => v ← toCedarValue (snd kv); Some (fst kv, v)) m.

Section Cedar.
(** cedar-go: parsing of a policy document, and the decision with its errors. *)
Context {PolicySet : Type} (parse : string -> res PolicySet)
  (engine : PolicySet -> CedarRequest -> bool * list string).

Record Policy := mkPolicy { cfg : Config; policies : PolicySet }.

Definition New (c : Config) : res Policy :=
  if bool_decide (Policies c = "") then Err (ENew "cedar: Config.Policies is required")
  else match parse (Policies c) with
       | Err e => Err (EWrap "cedar: parse policies" e)
       | Ok ps => Ok (mkPolicy c ps)
       end.

Definition cedarReq (req : Request) : CedarRequest :=
  mkCedarRequest (defaultType (p_Type (rq_Principal req)) "Principal", p_ID (rq_Principal req))
    ("Action", rq_Action req) ("Stream", StreamID.Canonical (rq_Stream req))
    (recordFromMap (rq_Context req)).

Definition Authorize (p : Policy) (req : Request) : option err :=
  if bool_decide (p_ID (rq_Principal req) = "") && negb (AllowMissingPrincipal (cfg p))
  then Some (EWrapPost (ESent ErrUnauthorized) "missing principal")
  else
    let '(ok, errs) := engine (policies p) (cedarReq req) in
    if ok then None
    else if bool_decide (errs = []) then Some (EWrapPost (ESent ErrUnauthorized) "no policy permits")
    else Some (EWrapPost (ESent ErrUnauthorized) "policy errors").
End Cedar.
End Cedar.

(** ** httpedge/connect *)
Module Connect.
Inductive Code :=
  | CodeInvalidArgument | CodeAborted | CodeAlreadyExists | CodeFailedPrecondition | CodeUnauthenticated
  | CodeNotFound | CodeUnavailable | CodeDataLoss | CodeInternal | CodeUnknown
  | CodeOther (n : Z).

(** An error that may have a *connect.Error in its chain. *)
Inductive cerr := Plain (e : err) | Coded (c : Code) (e : cerr) | Wrapped (msg : string) (e : cerr).

(** [errors.As(err, &ce)]: the outermost connect.Error. *)
Fixpoint as_connect (e : cerr) : option Code :=
  match e with Plain _ => None | Coded c _ => Some c | Wrapped _ e' => as_connect e' end.

Fixpoint cerr_Is (e : cerr) (s : sentinel) : bool :=
  match e with Plain e' => errors_Is e' s | Coded _ e' | Wrapped _ e' => cerr_Is e' s end.

Definition MapError (e : cerr) : cerr :=
  match as_connect e with
  | Some _ => e
  | None =>
      if cerr_Is e ErrConflict then Coded CodeAborted e
      else if cerr_Is e ErrConstraintViolated then Coded CodeAlreadyExists e
      else if cerr_Is e ErrTerminal then Coded CodeFailedPrecondition e
      else if cerr_Is e ErrInvalidStreamID then Coded CodeInvalidArgument e
      else if cerr_Is e ErrTenantMissing then Coded CodeUnauthenticated e
      else if cerr_Is e ErrStreamNotFound || cerr_Is e ErrEventNotFound || cerr_Is e ErrStateNotFound
      then Coded CodeNotFound e
      else if cerr_Is e ErrKMSUnavailable then Coded CodeUnavailable e
      else if cerr_Is e ErrCryptoIntegrity then Coded CodeDataLoss e
      else if cerr_Is e ErrUnknownSchemaVersion then Coded CodeInternal e
      else Coded CodeUnknown e
  end.

(** The state or the error of an RPC. *)
Inductive reply (A : Type) := Reply (a : A) | Failure (e : cerr).
Arguments Reply {_} _.
Arguments Failure {_} _.

Section Dispatch.
Context {W ReqMsg S C : Type}
  (HandleCmd : StreamID.t -> C -> list HandleCmdOption -> W -> W * reply S)
  (decode : ReqMsg -> StreamID.t * C + cerr).

(** [header] is the value of the Idempotency-Key header, "" when it is absent. *)
Definition Dispatch (msg : ReqMsg) (header : string) (w : W) : W * reply S :=
  match decode msg with
  | inr e => (w, Failure (Coded CodeInvalidArgument e))
  | inl (sid, cmd) =>
      let opts := if bool_decide (header = "") then [] else [WithIdempotencyKey header] in
      match HandleCmd sid cmd opts w with
      | (w', Reply state) => (w', Reply state)
      | (w', Failure e) => (w', Failure (MapError e))
      end
  end.
End Dispatch.
End Connect.

(** ** Facts *)

(** Publish calls the subscribers up to and including the first that fails. *)
Lemma Publish_app {W} (a b : list (Envelope.t -> M W unit)) env w :
  Inproc.Publish (a ++ b) env w =
  match Inproc.Publish a env w with
  | (w', Ok _) => Inproc.Publish b env w'
  | (w', Err e) => (w', Err e)
  end.
Proof.
  revert w. induction a as [|s a IH]; intros w; [done|]. cbn [Inproc.Publish app]. unfold mbind, M_bind.
  destruct (s env w) as [w1 [[]|e]]; [apply IH|done].
Qed.

Lemma Publish_first_error {W} (a b : list (Envelope.t -> M W unit)) s env w w1 w2 e :
  Inproc.Publish a env w = (w1, Ok tt) -> s env w1 = (w2, Err e) ->
  Inproc.Publish (a ++ s :: b) env w = (w2, Err e).
Proof. intros Ha Hs. rewrite Publish_app, Ha. cbn [Inproc.Publish]. unfold mbind, M_bind. by rewrite Hs. Qed.

(** The retry after a failed Publish goes to every subscriber again, also to
    those before the one that failed. *)
Lemma Publish_repeats :
  let count (i : nat) : Envelope.t -> M (list nat) unit := fun _ l => (l ++ [i], Ok tt) in
  let flaky : Envelope.t -> M (list nat) unit := fun _ l => (l ++ [9%nat], if bool_decide (length l = 1%nat) then Err (ENew "down") else Ok tt) in
  forall env, let subs := [count 1%nat; flaky; count 2%nat] in
  fst (Inproc.Publish subs env (fst (Inproc.Publish subs env []))) = [1; 9; 1; 9; 2]%nat.
Proof. reflexivity. Qed.

(** A publisher that was configured posts with the event id as idempotency key:
    every attempt for one event sends the same request. *)
Lemma restate_published {W} uuid_String NewRequest (Do : RestatePublisher.Request -> M W (Z * string)) p env w w' :
  RestatePublisher.Publish uuid_String NewRequest Do p env w = (w', Ok tt) ->
  exists status body,
    Do (RestatePublisher.mkRequest (RestatePublisher.url p) (RestatePublisher.headers uuid_String p env) (Envelope.Payload env)) w =
      (w', Ok (status, body)) /\ 200 <= status < 300.
Proof.
  unfold RestatePublisher.Publish, mbind, M_bind, wrap_err, of_res. destruct (NewRequest _); [|done].
  destruct (Do _ w) as [w1 [[status body]|e]]; [|done]. cbn [fst snd].
  destruct ((200 <=? status) && (status <? 300)) eqn:Hs; [|done]. intros [= <-]. exists status, body.
  split; [done|]. lia.
Qed.

(** Authorization fails closed, and only with ErrUnauthorized. *)
Lemma authorize_closed {PS} (engine : PS -> Cedar.CedarRequest -> bool * list string) p req :
  match Cedar.Authorize engine p req with
  | None => fst (engine (Cedar.policies p) (Cedar.cedarReq req)) = true /\
      (Authz.p_ID (Authz.rq_Principal req) = "" -> Cedar.AllowMissingPrincipal (Cedar.cfg p) = true)
  | Some e => errors_Is e ErrUnauthorized = true
  end.
Proof.
  unfold Cedar.Authorize. case_bool_decide as Hp; cbn [andb].
  - destruct (Cedar.AllowMissingPrincipal _) eqn:Ha; cbn [negb]; [|done].
    destruct (engine _ _) as [[] errs]; [done|]. by case_bool_decide.
  - destruct (engine _ _) as [[] errs]; [done|]. by case_bool_decide.
Qed.

(** The resource the engine sees does not name the tenant: a stream of another
    tenant with the same type and id gets the same answer. *)
Lemma authorize_ignores_tenant {PS} (engine : PS -> Cedar.CedarRequest -> bool * list string) p pr act ctx t1 t2 typ id :
  Cedar.Authorize engine p (Authz.mkRequest pr act (StreamID.mk t1 typ id) ctx) =
  Cedar.Authorize engine p (Authz.mkRequest pr act (StreamID.mk t2 typ id) ctx).
Proof. reflexivity. Qed.

(** A context value of another Go type (a float, a list, a uint64) is dropped, so
    a policy that tests the attribute does not see it. *)
Lemma context_dropped k m : Cedar.recordFromMap ((k, Authz.AOther) :: m) = Cedar.recordFromMap m.
Proof. reflexivity. Qed.

(** The code a client sees for a framework error. *)
Definition framework_code (s : sentinel) : Connect.Code :=
  match s with
  | ErrConflict => Connect.CodeAborted
  | ErrConstraintViolated => Connect.CodeAlreadyExists
  | ErrTerminal => Connect.CodeFailedPrecondition
  | ErrInvalidStreamID => Connect.CodeInvalidArgument
  | ErrTenantMissing => Connect.CodeUnauthenticated
  | ErrStreamNotFound | ErrEventNotFound | ErrStateNotFound => Connect.CodeNotFound
  | ErrKMSUnavailable => Connect.CodeUnavailable
  | ErrCryptoIntegrity => Connect.CodeDataLoss
  | ErrUnknownSchemaVersion => Connect.CodeInternal
  | _ => Connect.CodeUnknown
  end.

(** The one sentinel at the end of an error chain. *)
Fixpoint root (e : err) : option sentinel :=
  match e with
  | ESent s => Some s
  | ENew _ | EPg _ _ => None
  | EWrap _ e' | EWrapPost e' _ => root e'
  end.

Lemma errors_Is_root e s : errors_Is e s = bool_decide (root e = Some s).
Proof. induction e; simpl; try done. apply bool_decide_ext. naive_solver. Qed.

Lemma MapError_plain e : Connect.as_connect (Connect.MapError (Connect.Plain e)) =
  Some (match root e with Some s => framework_code s | None => Connect.CodeUnknown end).
Proof.
  unfold Connect.MapError. cbn [Connect.as_connect Connect.cerr_Is]. rewrite !errors_Is_root.
  by destruct (root e) as [[]|].
Qed.

Lemma MapError_wrapped msg e :
  Connect.as_connect (Connect.MapError (Connect.Wrapped msg e)) = Connect.as_connect (Connect.MapError e).
Proof.
  unfold Connect.MapError. cbn [Connect.as_connect Connect.cerr_Is].
  destruct (Connect.as_connect e) eqn:He; [by cbn; rewrite He|].
  repeat (case_match; [done|]). done.
Qed.

(** Every error gets a code, and mapping twice changes nothing. *)
Lemma MapError_total e :
  is_Some (Connect.as_connect (Connect.MapError e)) /\ Connect.MapError (Connect.MapError e) = Connect.MapError e.
Proof.
  assert (H : is_Some (Connect.as_connect (Connect.MapError e))).
  { unfold Connect.MapError. destruct (Connect.as_connect e) eqn:He; [by rewrite He|].
    repeat (case_match; [by eexists|]). by eexists. }
  split; [done|]. destruct H as [c Hc]. unfold Connect.MapError at 1. by rewrite Hc.
Qed.

(** The sentinel at the end of a chain without connect errors. *)
Fixpoint croot (e : Connect.cerr) : option sentinel :=
  match e with Connect.Plain e' => root e' | Connect.Coded _ e' | Connect.Wrapped _ e' => croot e' end.

Lemma MapError_code e : Connect.as_connect (Connect.MapError e) =
  Some (match Connect.as_connect e with
        | Some c => c
        | None => match croot e with Some s => framework_code s | None => Connect.CodeUnknown end
        end).
Proof.
  induction e as [e|c e IH|msg e IH]; [apply MapError_plain|done|].
  rewrite MapError_wrapped, IH. done.
Qed.

(** One RPC at the Connect edge.  A request that does not decode is refused
    as InvalidArgument and the bus is not called; otherwise the bus is called
    once, with the value of the Idempotency-Key header as its key, its state is
    returned, and an error of it reaches the client with the code of the
    innermost framework error however often it was wrapped, unless an inner
    handler had already chosen a code, which is kept. *)
Theorem connect_edge {W ReqMsg S C}
    (HandleCmd : StreamID.t -> C -> list HandleCmdOption -> W -> W * Connect.reply S)
    (decode : ReqMsg -> StreamID.t * C + Connect.cerr) msg header w :
  match decode msg with
  | inr e => Connect.Dispatch HandleCmd decode msg header w =
      (w, Connect.Failure (Connect.Coded Connect.CodeInvalidArgument e))
  | inl (sid, cmd) => exists opts,
      idempotencyKey (foldl apply_cmd_option (mkHandleCmdConfig "" []) opts) = header /\
      aggOpts (foldl apply_cmd_option (mkHandleCmdConfig "" []) opts) = [] /\
      match HandleCmd sid cmd opts w with
      | (w', Connect.Reply s) => Connect.Dispatch HandleCmd decode msg header w = (w', Connect.Reply s)
      | (w', Connect.Failure e) => exists e',
          Connect.Dispatch HandleCmd decode msg header w = (w', Connect.Failure e') /\
          Connect.as_connect e' =
            Some (match Connect.as_connect e with
                  | Some c => c
                  | None => match croot e with Some s => framework_code s | None => Connect.CodeUnknown end
                  end)
      end
  end.
Proof.
  unfold Connect.Dispatch. destruct (decode msg) as [[sid cmd]|e]; [|done].
  exists (if bool_decide (header = "") then [] else [WithIdempotencyKey header]).
  split_and!; [by case_bool_decide|by case_bool_decide|].
  destruct (HandleCmd _ _ _ w) as [w' [s|e]]; [done|]. eexists. split; [done|]. apply MapError_code.
Qed.
