(* ===== verification/CmdRuntimes.v ===== *)
(** * Two workflow runtimes

    [InprocRuntime] is adapters/cmdworkflow/inproc/runtime.go: no journal; the
    goroutines it starts run as [sched] says, when they are started or when they
    are waited for (a spawned one may still be waiting when the caller goes on).
    Its log records are left out.  [Journal] is the documented contract of a
    durable runtime (cmdworkflow/runtime.go): a step whose name is in the
    journal is not run again.  Everything else of an engine is left open: it may
    refuse a step, lose what a step returned after its effect, and record errors
    or not. *)
From S2P Require Import Prelude Errors Streams Events Store Aggregate PathMatch CmdWorkflow.
Import CmdWorkflow Bus.

Module InprocRuntime.
Section Inproc.
Context {W : Type} (sched : string -> bool) (OnSpawnError : option (string -> err -> M W unit)).

Inductive future :=
  | FDone (x : res bytes)
  | FPending (fn : P W bytes).

Definition Run (ctx : Ctx) (_ : string) (fn : Ctx -> P W bytes) : P W bytes := fn ctx.

Definition RunAsync (ctx : Ctx) (name : string) (fn : Ctx -> P W bytes) (w : W) : option (W * future) :=
  if sched name then
    match fn ctx w with
    | None => None
    | Some (w', x) => Some (w', FDone x)
    end
  else Some (w, FPending (fn ctx)).

Definition Wait (f : future) : P W bytes :=
  match f with
  | FDone x => done_res x
  | FPending fn => fn
  end.

Definition Spawn (ctx : Ctx) (name : string) (fn : Ctx -> P W unit) : P W unit := fun w =>
  if sched name then
    match fn (WithoutCancel ctx) w with
    | None => None
    | Some (w', Ok _) => Some (w', Ok tt)
    | Some (w', Err e) =>
        Some (match OnSpawnError with Some hook => fst (hook name e w') | None => w' end, Ok tt)
    end
  else Some (w, Ok tt).

Definition runtime : WorkflowRuntime W := mkWorkflowRuntime W future Run RunAsync Wait Spawn.
End Inproc.
End InprocRuntime.

Module Journal.
Notation J := (gmap string (res bytes)).

(** What becomes of a step that is not in the journal: it runs and its result
    is recorded, it runs and the result is lost before it is recorded (a crash
    between the effect and the journal, say), or it does not run. *)
Inductive fate := Kept | Lost (e : err) | Refused (e : err).

Record Engine (W : Type) := mkEngine {
  en_fate : string -> W * J -> fate;
  (** Whether the engine records a step that failed; one that does not runs it again. *)
  en_records : string -> err -> bool;
  (** Whether a spawned goroutine runs before the caller goes on, or never. *)
  en_sched : string -> W * J -> bool
}.
Arguments mkEngine {_} _ _ _.
Arguments en_fate {_} _ _ _.
Arguments en_records {_} _ _ _.
Arguments en_sched {_} _ _ _.

Section Journal.
Context {W : Type} (en : Engine W).

Definition recorded (name : string) (x : res bytes) : bool :=
  match x with Ok _ => true | Err e => en_records en name e end.

Definition Run (ctx : Ctx) (name : string) (fn : Ctx -> P (W * J) bytes) : P (W * J) bytes := fun wj =>
  match snd wj !! name with
  | Some x => Some (wj, x)
  | None =>
      match en_fate en name wj with
      | Refused e => Some (wj, Err e)
      | Lost e =>
          match fn ctx wj with
          | None => None
          | Some (wj', _) => Some (wj', Err e)
          end
      | Kept =>
          match fn ctx wj with
          | None => None
          | Some (wj', x) => Some ((fst wj', if recorded name x then <[name := x]> (snd wj') else snd wj'), x)
          end
      end
  end.

(** The step runs when it is started. *)
Definition RunAsync (ctx : Ctx) (name : string) (fn : Ctx -> P (W * J) bytes) (wj : W * J)
    : option (W * J * res bytes) := Run ctx name fn wj.

(** A goroutine, as in the adapters: it is not in the journal, and its error is
    dropped. *)
Definition Spawn (ctx : Ctx) (name : string) (fn : Ctx -> P (W * J) unit) : P (W * J) unit := fun wj =>
  if en_sched en name wj then
    match fn (WithoutCancel ctx) wj with
    | None => None
    | Some (wj', _) => Some (wj', Ok tt)
    end
  else Some (wj, Ok tt).

Definition runtime : WorkflowRuntime (W * J) := mkWorkflowRuntime (W * J) (res bytes) Run RunAsync done_res Spawn.

(** ** A bus on it *)
Definition on_world {A} (m : M W A) : M (W * J) A := fun wj =>
  let '(w', x) := m (fst wj) in ((w', snd wj), x).

Context {S C E : Type}.

Definition lift_runner (r : AggregateRunner W S C) : AggregateRunner (W * J) S C :=
  mkAggregateRunner (W * J) S C (fun sid c o => on_world (r_Handle r sid c o)) (fun sid => on_world (r_Load r sid))
    (r_EncodeState r) (r_DecodeState r) (on_world (r_Now r)).

Definition lift_store (s : Store W) : Store (W * J) :=
  mkStore (W * J) (fun p => on_world (Append s p)) (fun sid v => on_world (ReadStream s sid v))
    (fun p n => on_world (ReadAll s p n)) (fun t p n => on_world (ReadAllForTenant s t p n))
    (fun sid => on_world (CurrentStreamVersion s sid)) (fun t i => on_world (GetEventByID s t i)) None None None.

Definition lift_subscriber (s : Subscriber W S C E) : Subscriber (W * J) S C E :=
  mkSubscriber (W * J) S C E (Name s) (Filter s) (Mode s) (MaxRetries s) (OnExhausted s) (AttemptTimeout s)
    (match Handle s with Some h => Some (fun c envs st evs => on_world (h c envs st evs)) | None => None end)
    (match CompensateFn s with Some f => Some (fun c envs st evs => on_world (f c envs st evs)) | None => None end).

Definition durable (b : Workflow W S C E) : Workflow (W * J) S C E :=
  mkWorkflow (lift_runner (runner b)) (lift_store (store b)) runtime (codec b) (lift_subscriber <$> subscribers b)
    (match dlq b with Some f => Some (fun row => on_world (f row)) | None => None end)
    (match asyncSend b with Some f => Some (fun c n e i => on_world (f c n e i)) | None => None end).
End Journal.
End Journal.
