(* ===== verification/CmdReplay.v ===== *)
(** * Replaying a command workflow

    On a durable runtime HandleCmd is run again after a crash, with the journal
    of the earlier run and whatever the store holds by then.  The runtime is any
    engine that keeps the contract of cmdworkflow/runtime.go ([Journal]). *)
From S2P Require Import Prelude Errors Streams Events Store Aggregate PathMatch CmdWorkflow CmdRuntimes.
Import CmdWorkflow Bus Journal.

Section Bodies.
Context {W S C E : Type} {G : Gob} {NewSHA1 : UUID -> bytes -> UUID} {retryFuel : nat}
  (b : Workflow W S C E) (sent : W -> string -> Prop).

Definition keeps_sent {A} (m : M W A) : Prop :=
  forall w w' x, m w = (w', x) -> forall id, sent w id -> sent w' id.

(** Nothing un-sends an async dispatch. *)
Class KeepsSent := {
  pl_handle : forall sid c o, keeps_sent (r_Handle (runner b) sid c o);
  pl_load : forall sid, keeps_sent (r_Load (runner b) sid);
  pl_now : keeps_sent (r_Now (runner b));
  pl_read : forall sid v, keeps_sent (ReadStream (store b) sid v);
  pl_dlq : forall f row, dlq b = Some f -> keeps_sent (f row);
  pl_sub : forall s h c envs st evs, s ∈ subscribers b -> Handle s = Some h -> keeps_sent (h c envs st evs)
}.

(** What a replay relies on: a dispatch is deduplicated by its workflow id, and
    no subscriber compensates. *)
Class ReplayLaws := {
  pl_keeps :: KeepsSent;
  pl_send : forall f c n e id w w', asyncSend b = Some f -> f c n e id w = (w', Ok tt) -> sent w' id;
  pl_send_keeps : forall f c n e id, asyncSend b = Some f -> keeps_sent (f c n e id);
  pl_resend : forall f c n e id w, asyncSend b = Some f -> sent w id -> f c n e id w = (w, Ok tt);
  pl_policy : forall s, s ∈ subscribers b -> OnExhausted s <> Compensate
}.
Notation WJ := (W * J)%type.

Definition sent_le (w w' : W) : Prop := forall id, sent w id -> sent w' id.

Context {KS : KeepsSent}.

(** The body of a step: it leaves the journal to the runtime. *)
Definition step_body {A} (m : P WJ A) : Prop :=
  forall w j wj x, m (w, j) = Some (wj, x) -> snd wj = j /\ sent_le w (fst wj).

(** A call that leaves the journal alone. *)
Definition off_journal {A} (m : M WJ A) : Prop :=
  forall w j wj x, m (w, j) = (wj, x) -> snd wj = j /\ sent_le w (fst wj).

Lemma off_world {A} (m : M W A) : keeps_sent m -> off_journal (on_world m).
Proof using.
  intros Hm w j wj x. unfold on_world. simpl. destruct (m w) as [w' y] eqn:H1. intros [= <- <-].
  split; [done|]. simpl. intros id. by eapply Hm.
Qed.

Lemma off_ret {A} (a : A) : off_journal (mret a).
Proof using. intros w j wj x [= <- <-]. by split; [|intros id]. Qed.

Lemma off_res {A} (x : res A) : off_journal (of_res x).
Proof using. intros w j wj y [= <- <-]. by split; [|intros id]. Qed.

Lemma off_fail {A} e : off_journal (fail e : M WJ A).
Proof using. intros w j wj y [= <- <-]. by split; [|intros id]. Qed.

Lemma off_bind {A B} (m : M WJ A) (k : A -> M WJ B) :
  off_journal m -> (forall a, off_journal (k a)) -> off_journal (m ≫= k).
Proof using.
  intros Hm Hk w j wj x. unfold mbind, M_bind. destruct (m (w, j)) as [[w1 j1] [a|e]] eqn:H1;
    destruct (Hm _ _ _ _ H1) as [Hj1 Hs1]; simpl in Hj1, Hs1; subst j1.
  - intros H2. destruct (Hk _ _ _ _ _ H2) as [-> Hs2]. split; [done|]. unfold sent_le in *; eauto.
  - intros [= <- <-]. done.
Qed.

Lemma step_body_run {A} (m : M WJ A) : off_journal m -> step_body (run m).
Proof using. intros Hm w j wj x. unfold run. intros [= H]. by apply Hm in H. Qed.

Lemma callHandle_off sub ctx envs st evs :
  sub ∈ subscribers b -> off_journal (callHandle (lift_subscriber sub) ctx envs st evs).
Proof using KS.
  intros Hs. unfold callHandle. simpl. destruct (Handle sub) as [h|] eqn:Hh; [|apply off_fail].
  apply off_world. by eapply pl_sub.
Qed.

Lemma retryLoop_body fuel : forall ctx envs st evs sub attempt last,
  sub ∈ subscribers b -> step_body (retryLoop fuel ctx envs st evs (lift_subscriber sub) attempt last).
Proof using KS.
  induction fuel as [|fuel IH]; intros ctx envs st evs sub attempt last Hs w j wj x; [done|].
  cbn [retryLoop]. destruct (_ || _).
  - destruct (callHandle (lift_subscriber sub) ctx envs st evs (w, j)) as [[w1 j1] y] eqn:Hc.
    destruct (callHandle_off _ _ _ _ _ Hs _ _ _ _ Hc) as [Hj Hs1]. simpl in Hj, Hs1. subst j1.
    destruct y as [u|e]; [by intros [= <- <-]|]. intros H. apply IH in H as [-> Hs2]; [|done].
    split; [done|]. unfold sent_le in *; eauto.
  - intros [= <- <-]. by split; [|intros id].
Qed.

(** A subscriber's step records its outcome and never fails. *)
Lemma syncStep_body envs st evs sub ctx :
  sub ∈ subscribers b -> step_body (syncStep retryFuel envs st evs (lift_subscriber sub) ctx).
Proof using KS.
  intros Hs w j wj x. unfold syncStep, runRetries, mbind, P_bind.
  destruct (retryLoop _ _ _ _ _ _ _ _ (w, j)) as [[wj' [r|e]]|] eqn:Hr; [| |done];
    apply retryLoop_body in Hr; try done; by intros [= <- <-].
Qed.

End Bodies.
Arguments pl_handle {_ _ _ _ _ _ _}.
Arguments pl_load {_ _ _ _ _ _ _}.
Arguments pl_now {_ _ _ _ _ _ _}.
Arguments pl_read {_ _ _ _ _ _ _}.
Arguments pl_dlq {_ _ _ _ _ _ _}.
Arguments pl_sub {_ _ _ _ _ _ _}.
Arguments pl_send {_ _ _ _ _ _ _}.
Arguments pl_send_keeps {_ _ _ _ _ _ _}.
Arguments pl_resend {_ _ _ _ _ _ _}.
Arguments pl_policy {_ _ _ _ _ _ _}.

(** ** Replays *)

(** Spawn is not used: async deliveries go through AsyncSend, or there are none. *)
Definition no_spawn {W S C E} (b : Workflow W S C E) : Prop :=
  is_Some (asyncSend b) \/ Forall (fun s => Mode s = Sync) (subscribers b).

Section Replay.
Context {W S C E : Type} {G : Gob} {NewSHA1 : UUID -> bytes -> UUID} {retryFuel : nat}
  (en : Engine W) (b : Workflow W S C E) (sent : W -> string -> Prop) {PL : ReplayLaws b sent}.
Notation D := (durable en b).
Notation WJ := (W * J)%type.
Notation sent_le := (sent_le sent).
Notation step_body := (step_body sent).

(** A run that succeeded with a [good] result succeeds again, without an
    effect, wherever the journal has what it recorded. *)
Definition replayable_on {A} (good : A -> Prop) (m : P WJ A) : Prop :=
  forall w j w1 j1 a, m (w, j) = Some ((w1, j1), Ok a) -> good a ->
    j ⊆ j1 /\ sent_le w w1 /\
    forall w2 j2, j1 ⊆ j2 -> sent_le w1 w2 -> m (w2, j2) = Some ((w2, j2), Ok a).
Definition replayable {A} (m : P WJ A) : Prop := replayable_on (fun _ => True) m.

Lemma replayable_ret {A} good (a : A) : replayable_on good (mret a).
Proof using. intros w j w1 j1 a' [= <- <- <-] _. split; [done|]. split; [by intros id|]. by intros w2 j2. Qed.

Lemma replayable_res {A} (x : res A) : replayable (done_res x).
Proof using. intros w j w1 j1 a [= <- <- ->] _. split; [done|]. split; [by intros id|]. by intros w2 j2. Qed.

Lemma replayable_throw {A} e : replayable (throw e : P WJ A).
Proof using. by intros w j w1 j1 a [=]. Qed.

(** [k] has to be replayable on the values [m] can return, and to end well only
    on good ones. *)
Lemma replayable_bind_on {A B} (good : A -> Prop) (good' : B -> Prop) (m : P WJ A) (k : A -> P WJ B) :
  replayable_on good m ->
  (forall a wj wj', m wj = Some (wj', Ok a) -> replayable_on good' (k a)) ->
  (forall a wj wj' y, k a wj = Some (wj', Ok y) -> good' y -> good a) ->
  replayable_on good' (m ≫= k).
Proof using.
  intros Hm Hk Hgood w j w' j' y. unfold mbind, P_bind.
  destruct (m (w, j)) as [[[w1 j1] [a|e]]|] eqn:H1; [|done|done]. intros H2 Hy.
  destruct (Hm _ _ _ _ _ H1 (Hgood _ _ _ _ H2 Hy)) as (Hj1 & Hs1 & Hr1).
  destruct (Hk _ _ _ H1 _ _ _ _ _ H2 Hy) as (Hj2 & Hs2 & Hr2).
  split; [by etrans|]. split; [unfold sent_le in *; eauto|].
  intros w2 j2 Hj Hs. rewrite Hr1; [|by etrans|unfold sent_le in *; eauto]. by apply Hr2.
Qed.

Lemma replayable_bind {A B} good (m : P WJ A) (k : A -> P WJ B) :
  replayable m -> (forall a wj wj', m wj = Some (wj', Ok a) -> replayable_on good (k a)) ->
  replayable_on good (m ≫= k).
Proof using. intros Hm Hk. by apply (replayable_bind_on (fun _ => True)). Qed.

Lemma replayable_wrap {A} msg (m : P WJ A) : replayable m -> replayable (p_wrap msg m).
Proof using.
  intros Hm w j w1 j1 a. unfold p_wrap. destruct (m (w, j)) as [[wj [x|e]]|] eqn:H1; [|done|done].
  intros [= -> ->] _. destruct (Hm _ _ _ _ _ H1 I) as (Hj & Hs & Hr). split_and!; [done|done|].
  intros w2 j2 H2 H3. by rewrite Hr.
Qed.

Lemma replayable_Run ctx name (fn : Ctx -> P WJ bytes) :
  step_body (fn ctx) -> replayable (Journal.Run en ctx name fn).
Proof using.
  intros Hf w j w1 j1 a. unfold Journal.Run. simpl. destruct (j !! name) as [y|] eqn:Hl.
  - intros [= <- <- ->] _. split; [done|]. split; [by intros id|]. intros w2 j2 Hj _. simpl.
    by rewrite (lookup_weaken _ _ _ _ Hl Hj).
  - destruct (en_fate en name (w, j)); [| |done];
      (destruct (fn ctx (w, j)) as [[[w' j'] y]|] eqn:Hrun; [|done]); [|done].
    intros [= <- <- ->] _. cbn [recorded fst snd].
    destruct (Hf _ _ _ _ Hrun) as [Hj' Hs]. simpl in Hj', Hs. subst j'.
    split; [by apply insert_subseteq|]. split; [done|]. intros w2 j2 Hj _. simpl.
    rewrite (lookup_weaken (<[name := Ok a]> j) j2 name (Ok a)); [done|by rewrite lookup_insert_eq|done].
Qed.

(** ** The steps *)
Lemma appendStep_replayable ctx sid cmd opts : replayable (appendStep D ctx sid cmd opts).
Proof using PL.
  apply replayable_bind; [|intros; apply replayable_res]. apply replayable_Run, step_body_run.
  apply off_bind; [apply off_world, pl_handle|]. intros; apply off_ret.
Qed.

Lemma readEnvelopesStep_replayable ctx sid r : replayable (readEnvelopesStep D ctx sid r).
Proof using PL.
  apply replayable_bind; [|intros; apply replayable_res]. apply replayable_Run, step_body_run.
  unfold readBack. apply off_bind; [|intros; apply off_ret]. apply off_world, pl_read.
Qed.

Lemma readStateStep_replayable ctx sid : replayable (readStateStep D ctx sid).
Proof using PL.
  apply replayable_bind; [|intros; apply replayable_res]. apply replayable_Run, step_body_run.
  apply off_bind; [apply off_world, pl_load|]. intros; apply off_res.
Qed.

Lemma onExhausted_replayable rec ctx sid envs st evs sub e :
  sub ∈ subscribers b -> replayable (onExhausted D rec ctx sid envs st evs (lift_subscriber sub) e).
Proof using PL.
  intros Hs. unfold onExhausted. pose proof (pl_policy _ Hs) as Hp. simpl.
  destruct (OnExhausted sub); [|done|apply replayable_ret|apply replayable_throw].
  destruct (dlq b) as [f|] eqn:Hd; [|apply replayable_throw].
  apply replayable_bind; [|intros; apply replayable_ret]. apply replayable_Run, step_body_run.
  apply off_bind; [apply off_world, pl_now|]. intros now.
  apply off_bind; [apply off_world; by eapply pl_dlq|]. intros; apply off_ret.
Qed.

Lemma spawnAsync_replayable rec ctx sid envs sub :
  is_Some (asyncSend b) -> replayable (spawnAsync retryFuel D rec ctx sid envs (lift_subscriber sub)).
Proof using PL.
  intros [f Hf]. unfold spawnAsync. simpl. rewrite Hf.
  intros w j w1 j1 []. unfold run, on_world. simpl.
  destruct (f _ _ _ _ w) as [w' x] eqn:Hrun. intros [= -> -> ->] _.
  split; [done|]. split; [intros id; by eapply pl_send_keeps|].
  intros w2 j2 _ Hs. simpl. rewrite (pl_resend _ _ _ _ _ _ Hf); [done|]. apply Hs. by eapply pl_send.
Qed.

(** ** The fan-out *)
Lemma replayable_ext {A} good (m m' : P WJ A) :
  (forall wj, m wj = m' wj) -> replayable_on good m -> replayable_on good m'.
Proof using.
  intros He Hm w j w1 j1 a. rewrite <- He. intros H Ha. destruct (Hm _ _ _ _ _ H Ha) as (? & ? & Hr).
  split_and!; try done. intros w2 j2 Hj Hs. rewrite <- He. by apply Hr.
Qed.

(** Starting a subscriber's step, with the future as the result. *)
Definition started ctx envs st evs (sub : Subscriber WJ S C E) : P WJ (res bytes) := fun wj =>
  match runSyncSubscriber retryFuel D ctx envs st evs sub wj with
  | None => None
  | Some (wj', f) => Some (wj', Ok f)
  end.

Definition future_ok (f : res bytes) : Prop := exists raw, f = Ok raw.

Lemma started_replayable ctx envs st evs sub :
  sub ∈ subscribers b -> replayable_on future_ok (started ctx envs st evs (lift_subscriber sub)).
Proof using PL.
  intros Hs w j w1 j1 f. unfold started, runSyncSubscriber. simpl. unfold Journal.RunAsync.
  set (name := _ +:+ _). destruct (Journal.Run en ctx name _ (w, j)) as [[wj' x]|] eqn:Hrun; [|done].
  intros [= -> ->] [r ->].
  destruct (replayable_Run ctx name _ (syncStep_body b sent envs st evs sub ctx Hs) _ _ _ _ _ Hrun I) as (? & ? & Hr).
  split_and!; try done. intros w2 j2 Hj Hs2. by rewrite Hr.
Qed.

Definition all_ok (syncs : list (syncEntry D)) : Prop := Forall (fun s => future_ok (se_future D s)) syncs.

(** What was started before the loop is still there after it. *)
Lemma fanOut_prefix rec ctx sid envs st evs subs : forall syncs wj wj' out,
  fanOut retryFuel D rec ctx sid envs st evs (lift_subscriber <$> subs) syncs wj = Some (wj', Ok out) ->
  all_ok out -> all_ok syncs.
Proof using.
  induction subs as [|sub subs IH]; intros syncs wj wj' out; [by intros [= _ <-]|].
  rewrite fmap_cons. cbn [fanOut]. destruct (filtered _ _ _) as [|x batch]; [by apply IH|].
  destruct (Mode (lift_subscriber sub)).
  - cbv beta. destruct (runSyncSubscriber _ _ _ _ _ _ _ wj) as [[w1 f]|]; [|done]. intros H Hall.
    pose proof (IH _ _ _ _ H Hall) as H1. by apply Forall_app in H1 as [? _].
  - unfold mbind, P_bind. destruct (spawnAsync _ _ _ _ _ _ _ _) as [[w1 [u|e]]|]; [|done|done]. by apply IH.
Qed.

Lemma fanOut_replayable rec ctx sid envs st evs subs : forall syncs,
  (forall s, s ∈ subs -> s ∈ subscribers b) -> is_Some (asyncSend b) \/ Forall (fun s => Mode s = Sync) subs ->
  replayable_on all_ok (fanOut retryFuel D rec ctx sid envs st evs (lift_subscriber <$> subs) syncs).
Proof using PL.
  induction subs as [|sub subs IH]; intros syncs Hsub Hns; [apply replayable_ret|]. rewrite fmap_cons. cbn [fanOut].
  assert (Htail : forall syncs, replayable_on all_ok (fanOut retryFuel D rec ctx sid envs st evs (lift_subscriber <$> subs) syncs)).
  { intros; apply IH; [intros s Hs; apply Hsub; by right|]. destruct Hns as [?|[_ ?]%Forall_cons]; [by left|by right]. }
  destruct (filtered _ _ _) as [|x batch]; [apply Htail|]. change (Mode (lift_subscriber sub)) with (Mode sub).
  destruct (Mode sub) eqn:Hmode.
  - eapply replayable_ext; [|apply (replayable_bind_on future_ok _
      (started ctx (x :: batch).*1 st (x :: batch).*2 (lift_subscriber sub))
      (fun f => fanOut retryFuel D rec ctx sid envs st evs (lift_subscriber <$> subs)
         (syncs ++ [mkSyncEntry D (lift_subscriber sub) (x :: batch).*1 (x :: batch).*2 f])));
      [apply started_replayable, Hsub; by left|intros; apply Htail|]].
    + intros wj. unfold mbind, P_bind, started. destruct (runSyncSubscriber _ _ _ _ _ _ _ _) as [[wj' f]|]; done.
    + intros f wj wj' out H Hall. pose proof (fanOut_prefix _ _ _ _ _ _ _ _ _ _ _ H Hall) as H1.
      by apply Forall_app in H1 as [_ [H1 _]%Forall_cons].
  - apply replayable_bind; [|intros; apply Htail]. apply spawnAsync_replayable.
    destruct Hns as [?|[? _]%Forall_cons]; [done|congruence].
Qed.

Definition of_bus (s : syncEntry D) : Prop := exists sub, sub ∈ subscribers b /\ se_sub D s = lift_subscriber sub.

Lemma fanOut_subs rec ctx sid envs st evs subs : forall syncs wj wj' out,
  (forall s, s ∈ subs -> s ∈ subscribers b) -> Forall of_bus syncs ->
  fanOut retryFuel D rec ctx sid envs st evs (lift_subscriber <$> subs) syncs wj = Some (wj', Ok out) ->
  Forall of_bus out.
Proof using.
  induction subs as [|sub subs IH]; intros syncs wj wj' out Hsub Hs; [by intros [= _ <-]|].
  rewrite fmap_cons. cbn [fanOut].
  assert (Htl : forall s, s ∈ subs -> s ∈ subscribers b) by (intros s Hs'; apply Hsub; by right).
  destruct (filtered _ _ _) as [|x batch]; [by apply IH|]. change (Mode (lift_subscriber sub)) with (Mode sub). destruct (Mode sub).
  - cbv beta. destruct (runSyncSubscriber _ _ _ _ _ _ _ wj) as [[w1 f]|]; [|done]. apply IH; [done|].
    apply Forall_app. split; [done|]. apply Forall_singleton. exists sub. split; [apply Hsub; by left|done].
  - unfold mbind, P_bind. destruct (spawnAsync _ _ _ _ _ _ _ _) as [[w1 [u|e]]|]; [|done|done]. by apply IH.
Qed.

Lemma waitAll_replayable syncs : replayable (waitAll D syncs).
Proof using.
  induction syncs as [|s syncs IH]; [apply replayable_ret|]. cbn [waitAll].
  apply replayable_bind; [apply replayable_wrap, replayable_res|]. intros raw ? ? _.
  apply replayable_bind; [done|]. intros; apply replayable_ret.
Qed.

(** Waiting succeeds only when every step did. *)
Lemma waitAll_ok syncs : forall wj wj' out, waitAll D syncs wj = Some (wj', Ok out) -> all_ok syncs.
Proof using.
  induction syncs as [|s syncs IH]; intros wj wj' out; [by constructor|]. cbn [waitAll].
  unfold mbind, P_bind, p_wrap. cbn [Wait wf durable runtime]. unfold done_res.
  destruct (se_future D s) as [raw|e] eqn:Hf; [|done].
  destruct (waitAll D syncs wj) as [[w2 [more|e]]|] eqn:Hm; [|done|done]. intros _.
  apply Forall_cons. split; [by exists raw|by eapply IH].
Qed.

Lemma waitAll_subs syncs : forall wj wj' out, Forall of_bus syncs ->
  waitAll D syncs wj = Some (wj', Ok out) -> Forall (fun x => of_bus (fst x)) out.
Proof using.
  induction syncs as [|s syncs IH]; intros wj wj' out Hs; [by intros [= _ <-]|]. cbn [waitAll].
  apply Forall_cons in Hs as [Hs1 Hs]. unfold mbind, P_bind.
  destruct (p_wrap _ _ wj) as [[w1 [raw|e]]|]; [|done|done].
  destruct (waitAll D syncs w1) as [[w2 [more|e]]|] eqn:Hm; [|done|done]. intros [= _ <-].
  pose proof (IH _ _ _ Hs Hm) as Hmore. case_bool_decide; [done|]. by apply Forall_cons.
Qed.

Lemma applyPolicies_replayable rec ctx sid st toApply : forall m,
  Forall (fun x => of_bus (fst x)) toApply -> replayable (applyPolicies D rec ctx sid st toApply m).
Proof using PL.
  induction toApply as [|[s e] toApply IH]; intros m Hs; [apply replayable_ret|]. cbn [applyPolicies].
  apply Forall_cons in Hs as [(sub & Hin & Heq) Hs]. simpl in Heq. rewrite Heq.
  apply replayable_bind; [by apply onExhausted_replayable|]. intros; by apply IH.
Qed.

Lemma applyPolicies_plain rec ctx sid st toApply : forall m wj wj' m',
  Forall (fun x => of_bus (fst x)) toApply ->
  applyPolicies D rec ctx sid st toApply m wj = Some (wj', Ok m') -> m' = m.
Proof using PL.
  induction toApply as [|[s e] toApply IH]; intros m wj wj' m' Hs; [by intros [= _ <-]|]. cbn [applyPolicies].
  apply Forall_cons in Hs as [(sub & Hin & Heq) Hs]. simpl in Heq. rewrite Heq. unfold mbind, P_bind.
  destruct (onExhausted _ _ _ _ _ _ _ _ _ wj) as [[w1 [u|er]]|]; [|done|done].
  intros H. apply IH in H; [|done]. simpl in H. pose proof (pl_policy _ Hin). by destruct (OnExhausted sub).
Qed.

Lemma dispatch_replayable rec ctx sid ar :
  no_spawn b -> ar_StartVersion ar <> 0 -> replayable (dispatch retryFuel D rec ctx sid ar).
Proof using PL.
  intros Hns Hne. unfold dispatch. rewrite (proj2 (Z.eqb_neq _ _) Hne). simpl "&&". cbv match.
  apply replayable_bind; [apply readEnvelopesStep_replayable|]. intros envs ? ? _.
  apply replayable_bind; [apply readStateStep_replayable|]. intros st ? ? _.
  apply replayable_bind; [apply replayable_wrap, replayable_res|]. intros evs ? ? _.
  apply (replayable_bind_on all_ok); [by apply fanOut_replayable| |].
  - intros syncs ? ? Hf. apply fanOut_subs in Hf; [|done|by constructor].
    apply replayable_bind; [apply waitAll_replayable|]. intros toApply ? ? Hw.
    apply waitAll_subs in Hw; [|done].
    apply replayable_bind; [by apply applyPolicies_replayable|]. intros m ? ? Hm.
    apply applyPolicies_plain in Hm as ->; [|done]. apply replayable_ret.
  - intros syncs wa wb y. unfold mbind at 1, P_bind at 1.
    destruct (waitAll D syncs wa) as [[w1 [l|e]]|] eqn:Hw; [|done|done]. intros _ _. by eapply waitAll_ok.
Qed.
End Replay.

(** ** The journal only grows

    This needs nothing of the subscribers, and covers runs that fail. *)
Section Growth.
Context {W S C E : Type} {G : Gob} {NewSHA1 : UUID -> bytes -> UUID} {retryFuel : nat}
  (en : Engine W) (b : Workflow W S C E).
Notation D := (durable en b).
Notation WJ := (W * J)%type.

Definition grows {A} (m : P WJ A) : Prop := forall wj wj' x, m wj = Some (wj', x) -> snd wj ⊆ snd wj'.

Lemma grows_bind {A B} (m : P WJ A) (k : A -> P WJ B) :
  grows m -> (forall a wj wj', m wj = Some (wj', Ok a) -> grows (k a)) -> grows (m ≫= k).
Proof using.
  intros Hm Hk wj wj' x. unfold mbind, P_bind. destruct (m wj) as [[w1 [a|e]]|] eqn:H1; [| |done].
  - intros H2. etrans; [by eapply Hm|by eapply (Hk _ _ _ H1)].
  - intros [= <- <-]. by eapply Hm.
Qed.

Lemma grows_ret {A} (a : A) : grows (mret a).
Proof using. by intros wj wj' x [= <- _]. Qed.

Lemma grows_res {A} (x : res A) : grows (done_res x).
Proof using. by intros wj wj' y [= <- _]. Qed.

Lemma grows_throw {A} e : grows (throw e : P WJ A).
Proof using. by intros wj wj' y [= <- _]. Qed.

Lemma grows_wrap {A} msg (m : P WJ A) : grows m -> grows (p_wrap msg m).
Proof using.
  intros Hm wj wj' x. unfold p_wrap. destruct (m wj) as [[w1 [a|e]]|] eqn:H1; intros [= <- _]; by eapply Hm.
Qed.

Lemma grows_world {A} (m : M W A) : grows (run (on_world m)).
Proof using. intros wj wj' x. unfold run, on_world. destruct (m (fst wj)). by intros [= <- _]. Qed.

#[local] Instance keeps_any : KeepsSent b (fun _ _ => True).
Proof using. split; by repeat intros ?. Qed.

Notation step_body := (step_body (fun _ _ => True)).

Lemma grows_body {A} (m : P WJ A) : step_body m -> grows m.
Proof using. intros Hm [w j] wj' x H. by destruct (Hm _ _ _ _ H) as [-> _]. Qed.

Lemma grows_Run ctx name (fn : Ctx -> P WJ bytes) : step_body (fn ctx) -> grows (Journal.Run en ctx name fn).
Proof using.
  intros Hf [w j] wj' x. unfold Journal.Run. simpl. destruct (j !! name) as [y|] eqn:Hl; [by intros [= <- _]|].
  destruct (en_fate en name (w, j)); [| |by intros [= <- _]];
    (destruct (fn ctx (w, j)) as [[wj1 y]|] eqn:Hrun; [|done]); intros [= <- _];
    destruct (Hf _ _ _ _ Hrun) as [Hj _]; simpl; rewrite Hj; [|done].
  destruct (recorded en name y); [by apply insert_subseteq|done].
Qed.

Lemma onExhausted_grows rec ctx sid envs st evs sub e :
  (forall c s x, grows (rec c s x)) -> grows (onExhausted D rec ctx sid envs st evs (lift_subscriber sub) e).
Proof using.
  intros Hrec. unfold onExhausted. simpl.
  destruct (OnExhausted sub); [| |apply grows_ret|apply grows_throw].
  - destruct (dlq b) as [f|] eqn:Hd; [|apply grows_throw].
    apply grows_bind; [|intros; apply grows_ret]. apply grows_Run, step_body_run.
    apply off_bind; [apply off_world; by repeat intros ?|]. intros now.
    apply off_bind; [apply off_world; by repeat intros ?|]. intros; apply off_ret.
  - destruct (CompensateFn sub) as [f|]; [|apply grows_throw].
    apply grows_bind; [apply grows_wrap, grows_world|]. intros cmd ? ? _.
    apply grows_bind; [apply Hrec|]. intros; apply grows_ret.
Qed.

(** A goroutine that Spawn runs uses the journal for its DLQ row. *)
Lemma spawnAsync_grows rec ctx sid envs sub :
  (forall c s x, grows (rec c s x)) -> sub ∈ subscribers b ->
  grows (spawnAsync retryFuel D rec ctx sid envs (lift_subscriber sub)).
Proof using.
  intros Hrec Hs. unfold spawnAsync. simpl. destruct (asyncSend b); [apply grows_world|].
  assert (Hbody : forall c, grows (asyncBody retryFuel D rec sid envs (lift_subscriber sub) c)).
  { intros c. unfold asyncBody. apply grows_bind; [apply grows_res|]. intros evs ? ? _.
    apply grows_bind; [apply grows_world|]. intros x ? ? _. unfold settle.
    apply grows_bind; [apply grows_body; by apply (retryLoop_body (KS := keeps_any) b (fun _ _ => True))|]. intros [e|] ? ? _; [|apply grows_ret].
    by apply onExhausted_grows. }
  intros wj wj' y. unfold Journal.Spawn. destruct (en_sched en _ wj); [|by intros [= <- _]].
  destruct (asyncBody _ _ _ _ _ _ _ wj) as [[wj1 z]|] eqn:Hb; [|done]. intros [= <- _]. by eapply Hbody.
Qed.

Lemma fanOut_grows rec ctx sid envs st evs subs : forall syncs,
  (forall c s x, grows (rec c s x)) -> (forall s, s ∈ subs -> s ∈ subscribers b) ->
  grows (fanOut retryFuel D rec ctx sid envs st evs (lift_subscriber <$> subs) syncs).
Proof using.
  induction subs as [|sub subs IH]; intros syncs Hrec Hsub; [apply grows_ret|]. rewrite fmap_cons. cbn [fanOut].
  assert (Htail : forall syncs, grows (fanOut retryFuel D rec ctx sid envs st evs (lift_subscriber <$> subs) syncs))
    by (intros; apply IH; [done|]; intros s Hs; apply Hsub; by right).
  destruct (filtered _ _ _) as [|x batch]; [apply Htail|].
  change (Mode (lift_subscriber sub)) with (Mode sub). destruct (Mode sub).
  - intros wj wj' y. destruct (runSyncSubscriber _ _ _ _ _ _ _ wj) as [[w1 f]|] eqn:Hr; [|done].
    intros H. etrans; [|by eapply Htail]. eapply grows_Run; [|exact Hr].
    apply (syncStep_body (KS := keeps_any) b (fun _ _ => True)), Hsub. by left.
  - apply grows_bind; [apply spawnAsync_grows; [done|apply Hsub; by left]|]. intros; apply Htail.
Qed.

Lemma waitAll_grows syncs : grows (waitAll D syncs).
Proof using.
  induction syncs as [|s syncs IH]; [apply grows_ret|]. cbn [waitAll].
  apply grows_bind; [apply grows_wrap, grows_res|]. intros raw ? ? _. apply grows_bind; [done|]. intros; apply grows_ret.
Qed.

Lemma applyPolicies_grows rec ctx sid st toApply : forall m,
  (forall c s x, grows (rec c s x)) -> Forall (fun x => of_bus en b (fst x)) toApply ->
  grows (applyPolicies D rec ctx sid st toApply m).
Proof using.
  induction toApply as [|[s e] toApply IH]; intros m Hrec Hs; [apply grows_ret|]. cbn [applyPolicies].
  apply Forall_cons in Hs as [(sub & Hin & Heq) Hs]. simpl in Heq. rewrite Heq.
  apply grows_bind; [by apply onExhausted_grows|]. intros; by apply IH.
Qed.

Lemma appendStep_grows ctx sid cmd opts : grows (appendStep D ctx sid cmd opts).
Proof using.
  apply grows_bind; [|intros; apply grows_res]. apply grows_Run, step_body_run.
  apply off_bind; [apply off_world; by repeat intros ?|]. intros; apply off_ret.
Qed.

Lemma dispatch_grows rec ctx sid ar :
  (forall c s x, grows (rec c s x)) -> grows (dispatch retryFuel D rec ctx sid ar).
Proof using.
  intros Hrec. unfold dispatch.
  assert (Hload : grows (x ← run (r_Load (runner D) sid); mret (fst x)))
    by (apply grows_bind; [apply grows_world|intros; apply grows_ret]).
  destruct (_ && _); [exact Hload|].
  apply grows_bind.
  { apply grows_bind; [|intros; apply grows_res]. apply grows_Run, step_body_run.
    apply off_bind; [apply off_world; by repeat intros ?|]. intros; apply off_ret. }
  intros envs ? ? _. apply grows_bind.
  { apply grows_bind; [|intros; apply grows_res]. apply grows_Run, step_body_run.
    apply off_bind; [apply off_world; by repeat intros ?|]. intros; apply off_res. }
  intros st ? ? _. apply grows_bind; [apply grows_wrap, grows_res|]. intros evs ? ? _.
  apply grows_bind; [by apply fanOut_grows|]. intros syncs ? ? Hf.
  apply (fanOut_subs en b) in Hf; [|done|by constructor].
  apply grows_bind; [apply waitAll_grows|]. intros toApply ? ? Hw. apply (waitAll_subs en b) in Hw; [|done].
  apply grows_bind; [by apply applyPolicies_grows|]. intros m ? ? _. destruct m; [exact Hload|apply grows_ret].
Qed.

Notation handle fuel := (HandleCmd NewSHA1 retryFuel D fuel).

Lemma HandleCmd_grows fuel : forall ctx sid cmd opts, grows (handle fuel ctx sid cmd opts).
Proof using.
  induction fuel as [|fuel IH]; intros ctx sid cmd opts; [by intros wj wj' x|]. cbn [HandleCmd].
  apply grows_bind; [apply appendStep_grows|]. intros ar ? ? _. apply dispatch_grows. intros; apply IH.
Qed.

Definition append_step (ctx : Ctx) : string := stepPrefix ctx +:+ "append".

(** What HandleCmd does from the recorded result of its append on: the command
    does not occur in it. *)
Definition resume (fuel : nat) (ctx : Ctx) (sid : StreamID.t) (x : res bytes) : P WJ S :=
  raw ← done_res x;
  ar ← done_res (decodeAppendResult raw);
  dispatch retryFuel D (fun ctx sid cmd => handle fuel ctx sid cmd []) ctx sid ar.

Lemma HandleCmd_journaled fuel ctx sid cmd opts w j x :
  j !! append_step ctx = Some x ->
  handle (Datatypes.S fuel) ctx sid cmd opts (w, j) = resume fuel ctx sid x (w, j).
Proof using.
  intros Hr. cbn [HandleCmd]. unfold appendStep, resume, mbind, P_bind. simpl. unfold Journal.Run. simpl.
  unfold append_step in Hr. rewrite Hr. by destruct x.
Qed.

(** What becomes of a command that is decided: the append's result is in the
    journal, or it was lost and nothing else happened. *)
Lemma HandleCmd_appended fuel ctx sid cmd opts w j w1 j1 x :
  handle (Datatypes.S fuel) ctx sid cmd opts (w, j) = Some ((w1, j1), x) -> j !! append_step ctx = None ->
  match en_fate en (append_step ctx) (w, j) with
  | Refused e => w1 = w /\ j1 = j /\ x = Err e
  | Lost e => w1 = fst (r_Handle (runner b) sid cmd (handleOptions NewSHA1 opts) w) /\ j1 = j /\ x = Err e
  | Kept => forall w' ar, r_Handle (runner b) sid cmd (handleOptions NewSHA1 opts) w = (w', Ok ar) ->
      j1 !! append_step ctx = Some (Ok (encodeAppendResult ar))
  end.
Proof using.
  intros Hrun Hj. cbn [HandleCmd] in Hrun. revert Hrun. unfold append_step in *.
  unfold appendStep, mbind at 1 2, P_bind at 1 2. simpl. unfold Journal.Run at 1. simpl. rewrite Hj.
  destruct (en_fate en _ (w, j)) as [|e|e]; [| |by intros [= <- <- <-]];
    unfold run, mbind at 1, M_bind at 1, on_world; simpl;
    destruct (r_Handle (runner b) sid cmd (handleOptions NewSHA1 opts) w) as [w' [ar|er]]; simpl;
    try by intros [= <- <- <-].
  intros Hrun w0 ar0 [= <- <-]. revert Hrun.
  set (j' := <[_ := _]> j). assert (Hj' : j' !! (stepPrefix ctx +:+ "append") = Some (Ok (encodeAppendResult ar)))
    by apply lookup_insert_eq.
  unfold done_res. destruct (decodeAppendResult _) as [ar'|er]; [|by intros [= _ <- _]].
  intros Hd. eapply (lookup_weaken j'); [done|].
  refine (dispatch_grows _ ctx sid ar' _ _ _ _ Hd). intros; apply HandleCmd_grows.
Qed.
End Growth.

(** The append of the dispatch is in the journal, and it wrote events. *)
Definition appended_in {G : Gob} (ctx : Ctx) (j : J) : Prop :=
  exists raw ar, j !! append_step ctx = Some (Ok raw) /\ decodeAppendResult raw = Ok ar /\
    ar_StartVersion ar <> 0.

(** C36: a command workflow survives crashes.  The runtime is any engine that
    keeps the contract of cmdworkflow/runtime.go (a step whose name is in the
    journal is not run again); it may refuse steps, lose the result of a step
    after its effect, and record failed steps or not; a RunAsync step runs when
    it is started.  Whatever a run of
    HandleCmd ends with:
    - if it decided the command, the result of the append is in the journal, or
      this one write was lost, the run did nothing after the append and returned
      the engine's error; if the engine refused the step, nothing happened;
    - once the append has an entry in the journal, every later run, in any
      state of the store, goes on from that entry without deciding the command;
    - a run that succeeded is replayed from its journal alone, in any later
      state: the same result, and no store, subscriber or DLQ is touched.  This
      is for a command that wrote events, a bus whose async deliveries go
      through AsyncSend, which deduplicates them by their id, and subscribers
      without Compensate ([no_spawn], [ReplayLaws]). *)
Theorem cmd_replay {W S C E} {G : Gob} (NewSHA1 : UUID -> bytes -> UUID) retryFuel (en : Engine W)
    (b : Workflow W S C E) fuel ctx sid cmd opts w j w1 j1 x :
  let handle n := HandleCmd NewSHA1 retryFuel (durable en b) (Datatypes.S n) ctx sid in
  handle fuel cmd opts (w, j) = Some ((w1, j1), x) ->
  (j !! append_step ctx = None ->
   match en_fate en (append_step ctx) (w, j) with
   | Refused e => w1 = w /\ j1 = j /\ x = Err e
   | Lost e => w1 = fst (r_Handle (runner b) sid cmd (handleOptions NewSHA1 opts) w) /\ j1 = j /\ x = Err e
   | Kept => forall w' ar, r_Handle (runner b) sid cmd (handleOptions NewSHA1 opts) w = (w', Ok ar) ->
       j1 !! append_step ctx = Some (Ok (encodeAppendResult ar))
   end) /\
  (forall y, j1 !! append_step ctx = Some y -> forall j2 w2 n cmd' opts', j1 ⊆ j2 ->
     handle n cmd' opts' (w2, j2) = resume (NewSHA1 := NewSHA1) (retryFuel := retryFuel) en b n ctx sid y (w2, j2)) /\
  (forall sent s, ReplayLaws b sent -> no_spawn b -> x = Ok s -> appended_in ctx j1 ->
     forall w2 cmd' opts', (forall id, sent w1 id -> sent w2 id) ->
       handle fuel cmd' opts' (w2, j1) = Some ((w2, j1), Ok s)).
Proof.
  cbn zeta. intros Hrun. split; [by apply HandleCmd_appended with (1 := Hrun)|]. split.
  - intros y Hy j2 w2 n cmd' opts' Hj2. apply HandleCmd_journaled. by eapply lookup_weaken.
  - intros sent s PL Hns -> (raw & ar & Hraw & Har & Hne) w2 cmd' opts' Hs.
    cbn [HandleCmd] in Hrun. unfold mbind, P_bind in Hrun.
    destruct (appendStep _ _ _ _ _ (w, j)) as [[[w' j'] [ar'|e]]|] eqn:Ha; [|done|done].
    destruct (appendStep_replayable en b sent _ _ _ _ _ _ _ _ _ Ha I) as (_ & Hs1 & Hr).
    assert (Hg : j' ⊆ j1).
    { refine (dispatch_grows en b _ ctx sid ar' _ _ _ _ Hrun). intros; apply HandleCmd_grows. }
    assert (ar' = ar) as ->.
    { specialize (Hr w' j1 Hg (fun _ H => H)). revert Hr. unfold appendStep, mbind, P_bind. simpl.
      unfold Journal.Run. simpl. unfold append_step in Hraw. rewrite Hraw. unfold done_res. rewrite Har.
      by intros [= ->]. }
    destruct (dispatch_replayable en b sent _ ctx sid ar Hns Hne _ _ _ _ _ Hrun I) as (_ & _ & Hrd).
    rewrite (HandleCmd_journaled en b _ _ _ _ _ _ _ _ Hraw). unfold resume, mbind, P_bind, done_res. rewrite Har.
    by apply Hrd.
Qed.
