(* ===== verification/CmdDurable.v ===== *)
(** * The durable workflow runtimes (adapters/cmdworkflow/dbos, restate)

    [Dbos] and [Restate] are the two adapters of WorkflowRuntime.  The engines
    are parameters: a record of the SDK calls the adapters make.  A goroutine
    that Spawn starts runs as [sched] says, as in [InprocRuntime]; log lines of
    the Restate adapter are left out.

    Nothing is assumed of the engines, so nothing is said about their journals
    here: whether DBOS and Restate keep the contract of cmdworkflow/runtime.go
    that the replay theorem is about is up to them. *)
From S2P Require Import Prelude Errors Streams Events Store Aggregate PathMatch CmdWorkflow.
Import CmdWorkflow Bus.

Definition with_handle (c : Ctx) (h : engineCtx) : Ctx :=
  mkCtx (ctx_prefix c) (ctx_queue c) (ctx_timeout c) (ctx_detached c) (Some h).

(** context.WithValue and the type assertion of FromContext: a step context is
    not an invocation's. *)
Definition WithContext (parent : Ctx) (id : string) : Ctx := with_handle parent (Invocation id).

Definition FromContext (ctx : Ctx) : option string :=
  match ctx_handle ctx with Some (Invocation id) => Some id | _ => None end.

Inductive adapterFuture (F : Type) := errFuture (e : err) | sdkFuture (f : F).
Arguments errFuture {_} _.
Arguments sdkFuture {_} _.

Module Dbos.

(** The SDK: a step gets a context that the engine derives from its own. *)
Record Sdk (W : Type) := mkSdk {
  Outcome : Type;
  RunAsStep : string -> string -> (Ctx -> P W bytes) -> P W bytes;
  Go : string -> string -> (Ctx -> P W bytes) -> W -> option (W * res Outcome);
  Receive : Outcome -> P W bytes
}.
Arguments Outcome {_} _.
Arguments RunAsStep {_} _ _ _ _.
Arguments Go {_} _ _ _ _.
Arguments Receive {_} _ _.

Definition ErrNoDBOSContext : err :=
  ENew "cmdworkflow/dbos: no DBOSContext in context — call WithContext from your handler".
Definition ErrUnknownQueue : err := ENew "cmdworkflow/dbos: queue not declared".

(** ** options.go and the queues; [Q] is the SDK's queue. *)
Section Queues.
Context {Q : Type}.

Record runtimeConfig := mkRuntimeConfig { queues : option (gmap string Q); strict : bool }.

Inductive Option_ := WithQueues (qs : gmap string Q) | WithStrictQueues (strict : bool).

Definition apply_option (c : runtimeConfig) (o : Option_) : runtimeConfig :=
  match o with
  | WithQueues qs => mkRuntimeConfig (if bool_decide (size qs = 0%nat) then None else Some qs) (strict c)
  | WithStrictQueues b => mkRuntimeConfig (queues c) b
  end.

Definition New (opts : list Option_) : runtimeConfig := foldl apply_option (mkRuntimeConfig None false) opts.

Definition declared (r : runtimeConfig) (name : string) : option Q :=
  match queues r with Some qs => qs !! name | None => None end.

(** warnedUnknown, and the names that were logged. *)
Record warnings := mkWarnings { warnedUnknown : gset string; logged : list string }.

Definition ResolveQueue (r : runtimeConfig) (ctx : option Ctx) (s : warnings)
    : warnings * res (string * option Q) :=
  let name := QueueFromContext ctx in
  match declared r name with
  | Some q => (s, Ok (name, Some q))
  | None =>
      if bool_decide (name = DefaultQueue) then (s, Ok (DefaultQueue, None))
      else if strict r then (s, Err (EWrapPost ErrUnknownQueue name))
      else
        (if bool_decide (name ∈ warnedUnknown s) then s
         else mkWarnings ({[name]} ∪ warnedUnknown s) (logged s ++ [name]),
         Ok (DefaultQueue, declared r DefaultQueue))
  end.

(** The queue to run on, by name; [None] is no option.  A nil Runtime has none. *)
Definition QueueOption (r : option runtimeConfig) (ctx : option Ctx) (s : warnings)
    : warnings * res (option string) :=
  match r with
  | None => (s, Ok None)
  | Some r =>
      match ResolveQueue r ctx s with
      | (s', Err e) => (s', Err e)
      | (s', Ok (_, None)) => (s', Ok None)
      | (s', Ok (name, Some _)) => (s', Ok (Some name))
      end
  end.

(** A queue that is used was declared; only a strict runtime refuses a name, and
    only one that is neither declared nor the default. *)
Lemma QueueOption_spec r ctx s s' x :
  QueueOption (Some r) ctx s = (s', x) ->
  let name := QueueFromContext ctx in
  match x with
  | Ok (Some n) => is_Some (declared r n) /\
      (n = name \/ n = DefaultQueue /\ declared r name = None /\ strict r = false)
  | Ok None => declared r DefaultQueue = None /\ declared r name = None /\
      (name = DefaultQueue \/ strict r = false)
  | Err e => e = EWrapPost ErrUnknownQueue name /\ strict r = true /\ declared r name = None /\
      name <> DefaultQueue
  end.
Proof.
  cbn zeta. unfold QueueOption, ResolveQueue. set (name := QueueFromContext ctx).
  destruct (declared r name) as [q|] eqn:Hd; [intros [= <- <-]; split; [by eexists|by left]|].
  case_bool_decide as Hn; [intros [= <- <-]; rewrite <- Hn; by auto|].
  destruct (strict r) eqn:Hs; [by intros [= <- <-]|].
  destruct (declared r DefaultQueue) as [q|] eqn:Hq; intros [= <- <-]; [split; [by eexists|by right]|by auto].
Qed.

(** However many commands are dispatched, an unknown queue is logged once, and
    only unknown queues are. *)
Definition resolve_all (r : runtimeConfig) (ctxs : list (option Ctx)) (s : warnings) : warnings :=
  foldl (fun s ctx => fst (ResolveQueue r ctx s)) s ctxs.

Lemma warns_once r ctxs s :
  strict r = false -> list_to_set (logged s) = warnedUnknown s -> NoDup (logged s) ->
  let s' := resolve_all r ctxs s in
  NoDup (logged s') /\
  forall n, n ∈ logged s' <-> n ∈ logged s \/
    (n ∈ (QueueFromContext <$> ctxs) /\ n <> DefaultQueue /\ declared r n = None).
Proof.
  intros Hst. cbn zeta. unfold resolve_all. revert s.
  induction ctxs as [|ctx ctxs IH]; intros s Hw Hnd; cbn [foldl].
  { split; [done|]. intros n. csimpl. rewrite elem_of_nil. tauto. }
  unfold ResolveQueue at 2 4. set (name := QueueFromContext ctx).
  assert (Hsame : (declared r name <> None \/ name = DefaultQueue \/ name ∈ logged s) ->
    forall n, (n ∈ logged s \/ n ∈ (QueueFromContext <$> ctxs) /\ n <> DefaultQueue /\ declared r n = None) <->
      (n ∈ logged s \/ n ∈ (QueueFromContext <$> ctx :: ctxs) /\ n <> DefaultQueue /\ declared r n = None)).
  { intros Hor n. rewrite fmap_cons, elem_of_cons. fold name. split; [tauto|].
    intros [H|([->|H] & Hn & Hdn)]; [by left|destruct Hor as [?|[?|?]]; [done|done|by left]|by right]. }
  destruct (declared r name) as [q|] eqn:Hd; cbn [fst].
  { destruct (IH s Hw Hnd) as [H1 H2]. split; [done|]. intros n. rewrite H2. apply Hsame. by left. }
  case_bool_decide as Hn; cbn [fst].
  { destruct (IH s Hw Hnd) as [H1 H2]. split; [done|]. intros n. rewrite H2. apply Hsame. by right; left. }
  rewrite Hst. cbn [fst]. case_bool_decide as Hin.
  { destruct (IH s Hw Hnd) as [H1 H2]. split; [done|]. intros n. rewrite H2. apply Hsame. right; right.
    rewrite <- Hw in Hin. by apply elem_of_list_to_set in Hin. }
  destruct (IH (mkWarnings ({[name]} ∪ warnedUnknown s) (logged s ++ [name]))) as [H1 H2]; simpl.
  { rewrite list_to_set_app_L, Hw. simpl. set_solver. }
  { apply NoDup_app. split_and!; [done| |apply NoDup_singleton]. intros x Hx ->%list_elem_of_singleton.
    apply Hin. rewrite <- Hw. by apply elem_of_list_to_set. }
  split; [done|]. intros n. rewrite H2. simpl. rewrite elem_of_app, list_elem_of_singleton, elem_of_cons.
  fold name. split; [intros [[?| ->]|?]; [by left|by right; auto|tauto]|intros [?|([->|?] & ? & ?)]; tauto].
Qed.
End Queues.

(** ** Steps *)
Section Steps.
Context {W : Type} (sdk : Sdk W) (sched : string -> bool).

Definition Run (ctx : Ctx) (name : string) (fn : Ctx -> P W bytes) : P W bytes :=
  match FromContext ctx with
  | None => throw ErrNoDBOSContext
  | Some dctx => RunAsStep sdk dctx name fn
  end.

Definition RunAsync (ctx : Ctx) (name : string) (fn : Ctx -> P W bytes) (w : W)
    : option (W * adapterFuture (Outcome sdk)) :=
  match FromContext ctx with
  | None => Some (w, errFuture ErrNoDBOSContext)
  | Some dctx =>
      match Go sdk dctx name fn w with
      | None => None
      | Some (w', Err e) => Some (w', errFuture e)
      | Some (w', Ok ch) => Some (w', sdkFuture ch)
      end
  end.

Definition Wait (f : adapterFuture (Outcome sdk)) : P W bytes :=
  match f with errFuture e => throw e | sdkFuture ch => Receive sdk ch end.

(** The error of the goroutine is dropped. *)
Definition Spawn (ctx : Ctx) (name : string) (fn : Ctx -> P W unit) : P W unit := fun w =>
  match FromContext ctx with
  | None => Some (w, Err ErrNoDBOSContext)
  | Some _ =>
      if sched name then
        match fn (WithoutCancel ctx) w with
        | None => None
        | Some (w', _) => Some (w', Ok tt)
        end
      else Some (w, Ok tt)
  end.

Definition runtime : WorkflowRuntime W :=
  mkWorkflowRuntime W (adapterFuture (Outcome sdk)) Run RunAsync Wait Spawn.
End Steps.
End Dbos.

Module Restate.

(** The SDK hands its closures a RunContext, which the adapter only stashes. *)
Record Sdk (W : Type) := mkSdk {
  RunAsyncFuture : Type;
  Run_ : string -> string -> P W bytes -> P W bytes;
  RunAsync_ : string -> string -> P W bytes -> W -> option (W * RunAsyncFuture);
  Result : RunAsyncFuture -> P W bytes
}.
Arguments RunAsyncFuture {_} _.
Arguments Run_ {_} _ _ _ _.
Arguments RunAsync_ {_} _ _ _ _.
Arguments Result {_} _ _.

Definition ErrNoRestateContext : err :=
  ENew "cmdworkflow/restate: no restate.Context in context — call WithContext from your handler".

Definition DefaultServiceName : string := "Workflow".
Definition DefaultSpawnHandler : string := "AsyncStep".

Record Runtime := mkRuntime { ServiceName : string; SpawnHandler : string }.
Definition New : Runtime := mkRuntime "" "".
Definition resolvedServiceName (r : Runtime) : string :=
  if bool_decide (ServiceName r = "") then DefaultServiceName else ServiceName r.
Definition resolvedSpawnHandler (r : Runtime) : string :=
  if bool_decide (SpawnHandler r = "") then DefaultSpawnHandler else SpawnHandler r.

Section Steps.
Context {W : Type} (sdk : Sdk W) (sched : string -> bool).

(** context.WithValue(ctx, ctxKey{}, runContextShim{inner}) *)
Definition stepContext (ctx : Ctx) (rc : string) : Ctx := with_handle ctx (StepOf rc).

Definition Run (ctx : Ctx) (name : string) (fn : Ctx -> P W bytes) : P W bytes :=
  match FromContext ctx with
  | None => throw ErrNoRestateContext
  | Some rc => Run_ sdk rc name (fn (stepContext ctx rc))
  end.

Definition RunAsync (ctx : Ctx) (name : string) (fn : Ctx -> P W bytes) (w : W)
    : option (W * adapterFuture (RunAsyncFuture sdk)) :=
  match FromContext ctx with
  | None => Some (w, errFuture ErrNoRestateContext)
  | Some rc =>
      match RunAsync_ sdk rc name (fn (stepContext ctx rc)) w with
      | None => None
      | Some (w', f) => Some (w', sdkFuture f)
      end
  end.

Definition Wait (f : adapterFuture (RunAsyncFuture sdk)) : P W bytes :=
  match f with errFuture e => throw e | sdkFuture f => Result sdk f end.

(** The goroutine gets the caller's context as it is. *)
Definition Spawn (ctx : Ctx) (name : string) (fn : Ctx -> P W unit) : P W unit := fun w =>
  match FromContext ctx with
  | None => Some (w, Err ErrNoRestateContext)
  | Some _ =>
      if sched name then
        match fn ctx w with
        | None => None
        | Some (w', _) => Some (w', Ok tt)
        end
      else Some (w, Ok tt)
  end.

Definition runtime : WorkflowRuntime W :=
  mkWorkflowRuntime W (adapterFuture (RunAsyncFuture sdk)) Run RunAsync Wait Spawn.

(** A step cannot start another step. *)
Lemma no_nested_step ctx rc name fn : Run (stepContext ctx rc) name fn = throw ErrNoRestateContext.
Proof. done. Qed.
End Steps.
End Restate.

(** ** Without an invocation

    The adapters find the engine in the context; a dispatch with a context that
    WithContext never touched does nothing on any engine and returns the
    adapter's error. *)
Lemma no_invocation {W S C E} {G : Gob} (NewSHA1 : UUID -> bytes -> UUID) retryFuel (b : Workflow W S C E)
    dsdk rsdk sched fuel ctx sid cmd opts w :
  FromContext ctx = None ->
  let on rt :=
    HandleCmd NewSHA1 retryFuel (mkWorkflow (runner b) (store b) rt (codec b) (subscribers b) (dlq b) (asyncSend b))
      (Datatypes.S fuel) ctx sid cmd opts w in
  on (Dbos.runtime dsdk sched) = Some (w, Err Dbos.ErrNoDBOSContext) /\
  on (Restate.runtime rsdk sched) = Some (w, Err Restate.ErrNoRestateContext).
Proof.
  intros Hc. cbn zeta. cbn [HandleCmd]. unfold appendStep, mbind, P_bind. simpl. unfold Dbos.Run, Restate.Run.
  by rewrite Hc.
Qed.
