(* ===== verification/CmdDispatch.v ===== *)
(** * What a command workflow delivers

    HandleCmd on the in-process runtime, whether each of its goroutines runs when
    it is started or when it is waited for.
    [BusLaws] states what the bus relies on, for the stream of the command:
    [stream] is its envelopes, [stateOf] its state, [calls] the calls the
    subscribers received and [rows] the subscriber DLQ, where [enc] is the form
    a row is stored in. *)
From S2P Require Import Prelude Errors Streams Events Store Aggregate PathMatch CmdWorkflow CmdRuntimes.
Import CmdWorkflow Bus.

(** ** Buses built with Register *)
Section Registered.
Context {W S C E : Type}.

(** What Register checks. *)
Definition registrable (s : Subscriber W S C E) : Prop :=
  Name s <> "" /\ is_Some (Handle s) /\
  (OnExhausted s = Compensate -> is_Some (CompensateFn s) /\ Mode s = Sync).

Lemma Register_Ok (b b' : Workflow W S C E) s :
  Register b s = Ok b' ->
  registrable s /\ Name s ∉ (Name <$> subscribers b) /\
  b' = mkWorkflow (runner b) (store b) (wf b) (codec b) (subscribers b ++ [s]) (dlq b) (asyncSend b).
Proof.
  unfold Register, registrable. case_bool_decide as Hn; [done|]. destruct (Handle s) eqn:Hh; [|done].
  destruct (OnExhausted s) eqn:Hp, (CompensateFn s) eqn:Hc, (Mode s) eqn:Hm; try done;
    (case_bool_decide as Hd; [done|]); intros [= <-]; split_and!; try done; intros; split; by try eexists.
Qed.

Lemma With_Ok subs : forall b b' : Workflow W S C E, With b subs = Ok b' ->
  NoDup (Name <$> subscribers b) ->
  Forall registrable subs /\ NoDup (Name <$> (subscribers b ++ subs)) /\
  b' = mkWorkflow (runner b) (store b) (wf b) (codec b) (subscribers b ++ subs) (dlq b) (asyncSend b).
Proof.
  induction subs as [|s subs IH]; intros b b' H Hnd; simpl in H.
  { injection H as <-. rewrite app_nil_r. split_and!; [by constructor|done|by destruct b]. }
  destruct (Register b s) as [b1|e] eqn:Hr; [|done]. apply Register_Ok in Hr as (Hreg & Hni & ->).
  apply IH in H as (HF & Hnd' & ->); simpl in *.
  - rewrite <- app_assoc in *. split_and!; [by constructor|done|done].
  - rewrite fmap_app. apply NoDup_app. split_and!; [done| |apply NoDup_singleton].
    intros x Hx Hs%list_elem_of_singleton. by subst x.
Qed.
End Registered.

(** A call a subscriber received, and whether it succeeded. *)
Record Call (S E : Type) := mkCall {
  c_sub : string;
  c_envs : list Envelope.t;
  c_state : S;
  c_events : list E;
  c_ok : bool
}.
Arguments mkCall {_ _} _ _ _ _ _.
Arguments c_sub {_ _} _.
Arguments c_ok {_ _} _.

(** An envelope as it comes out of the journal. *)
Definition unchained (e : Envelope.t) : Envelope.t := fromWire (toWire e).

Section Laws.
Context {W S C E R : Type} (ok : W -> Prop) (stream : W -> list Envelope.t) (stateOf : W -> S -> Prop)
  (calls : W -> list (Call S E)) (rows : W -> gmap (string * string * string) R) (enc : SubscriberDLQRow -> R)
  (sid : StreamID.t).

(** The stream and its state are as they were. *)
Definition same (w w' : W) : Prop :=
  ok w' /\ stream w' = stream w /\ (forall s, stateOf w s -> stateOf w' s).

Definition silent {A} (m : M W A) : Prop :=
  forall w w' x, ok w -> m w = (w', x) -> same w w' /\ calls w' = calls w /\ rows w' = rows w.

Definition dlq_key (row : SubscriberDLQRow) : string * string * string :=
  (sr_SubscriberName row, sr_TenantID row, default "" (head (sr_EventIDs row))).

(** [cmd], [opts] and [w0] are the command and where it is handled. *)
Class BusLaws (r : AggregateRunner W S C) (st : Store W) (subs : list (Subscriber W S C E))
    (dq : option (SubscriberDLQRow -> M W unit)) (send : option (Ctx -> string -> bytes -> string -> M W unit))
    (hook : option (string -> err -> M W unit)) (cmd : C) (opts : list Aggregate.HandleOption) (w0 : W) := {
  bl_handle : forall w' x, ok w0 -> r_Handle r sid cmd opts w0 = (w', x) ->
    ok w' /\ calls w' = calls w0 /\ rows w' = rows w0 /\
    (forall ar, x = Ok ar -> exists new, stream w' = stream w0 ++ new /\
       Z.of_nat (length (stream w')) < 2 ^ 63 /\
       (new = [] -> ar_StartVersion ar = 0 /\ ar_EndVersion ar = 0) /\
       (new <> [] -> ar_StartVersion ar = Z.of_nat (length (stream w0)) + 1 /\
          ar_EndVersion ar = Z.of_nat (length (stream w')) ));
  bl_load : silent (r_Load r sid);
  bl_load_state : forall w w' s v, ok w -> r_Load r sid w = (w', Ok (s, v)) -> stateOf w s;
  bl_state : forall s b, r_EncodeState r s = Ok b -> r_DecodeState r b = Ok s;
  bl_now : silent (r_Now r);
  bl_read : forall v, silent (ReadStream st sid v);
  bl_read_stream : forall v w w' envs, ok w -> 0 <= v < 2 ^ 63 -> ReadStream st sid v w = (w', Ok envs) ->
    envs = drop (Z.to_nat v) (stream w);
  bl_sub : forall sub h ctx envs s evs w w' x, sub ∈ subs -> Handle sub = Some h -> ok w ->
    h ctx envs s evs w = (w', x) ->
    same w w' /\ rows w' = rows w /\
    calls w' = calls w ++ [mkCall (Name sub) envs s evs (match x with Ok _ => true | Err _ => false end)] /\
    (forall e, x = Err e -> Error e <> "");
  bl_dlq : forall f row w w' x, dq = Some f -> ok w -> f row w = (w', x) ->
    same w w' /\ calls w' = calls w /\ (forall k, k <> dlq_key row -> rows w' !! k = rows w !! k) /\
    (x = Ok tt -> sr_EventIDs row <> [] -> rows w' !! dlq_key row = Some (enc row));
  bl_send : forall f c n e id, send = Some f -> silent (f c n e id);
  bl_hook : forall f n e, hook = Some f -> silent (f n e)
}.
End Laws.
Arguments bl_handle {_ _ _ _ _ _ _ _ _ _ _ _ _ _ _ _ _ _ _ _ _ _}.
Arguments bl_load {_ _ _ _ _ _ _ _ _ _ _ _ _ _ _ _ _ _ _ _ _ _}.
Arguments bl_load_state {_ _ _ _ _ _ _ _ _ _ _ _ _ _ _ _ _ _ _ _ _ _}.
Arguments bl_state {_ _ _ _ _ _ _ _ _ _ _ _ _ _ _ _ _ _ _ _ _ _}.
Arguments bl_now {_ _ _ _ _ _ _ _ _ _ _ _ _ _ _ _ _ _ _ _ _ _}.
Arguments bl_read {_ _ _ _ _ _ _ _ _ _ _ _ _ _ _ _ _ _ _ _ _ _}.
Arguments bl_read_stream {_ _ _ _ _ _ _ _ _ _ _ _ _ _ _ _ _ _ _ _ _ _}.
Arguments bl_sub {_ _ _ _ _ _ _ _ _ _ _ _ _ _ _ _ _ _ _ _ _ _}.
Arguments bl_dlq {_ _ _ _ _ _ _ _ _ _ _ _ _ _ _ _ _ _ _ _ _ _}.
Arguments bl_send {_ _ _ _ _ _ _ _ _ _ _ _ _ _ _ _ _ _ _ _ _ _}.
Arguments bl_hook {_ _ _ _ _ _ _ _ _ _ _ _ _ _ _ _ _ _ _ _ _ _}.

Section Facts.
Context {W S C E R : Type} {G : Gob} {GL : GobLaws G} {NewSHA1 : UUID -> bytes -> UUID} {retryFuel : nat}
  {ok : W -> Prop} {stream : W -> list Envelope.t} {stateOf : W -> S -> Prop}
  {calls : W -> list (Call S E)} {rows : W -> gmap (string * string * string) R}
  {enc : SubscriberDLQRow -> R} {sid : StreamID.t} {r : AggregateRunner W S C} {st : Store W} {cd : Codec E} {subs : list (Subscriber W S C E)}
  {dq : option (SubscriberDLQRow -> M W unit)} {send : option (Ctx -> string -> bytes -> string -> M W unit)}
  {sched : string -> bool} {hook : option (string -> err -> M W unit)}
  {cmd0 : C} {opts0 : list Aggregate.HandleOption} {w_start : W}
  {BL : BusLaws ok stream stateOf calls rows enc sid r st subs dq send hook cmd0 opts0 w_start}.
Notation Sub := (Subscriber W S C E).
Notation rt := (InprocRuntime.runtime sched hook).
Notation b := (mkWorkflow r st rt cd subs dq send).
Notation same := (same ok stream stateOf).
Notation silent := (silent ok stream stateOf calls rows).

(** Every subscriber has a bounded budget that the fuel covers, and none compensates. *)
Definition budgeted (sub : Sub) : Prop :=
  0 <= MaxRetries sub < 2 ^ 63 - 2 /\ MaxRetries sub + 1 < Z.of_nat retryFuel /\ is_Some (Handle sub) /\
  OnExhausted sub <> Compensate.
Context (Hbud : forall sub, sub ∈ subs -> budgeted sub).

Definition calls_of (n : string) (w : W) : list (Call S E) := List.filter (fun c => bool_decide (c_sub c = n)) (calls w).

(** Only the subscribers named in [N] received calls or DLQ rows. *)
Definition moved (N : string -> Prop) (w w' : W) : Prop :=
  same w w' /\ (forall n, ~ N n -> calls_of n w' = calls_of n w) /\
  (forall k, ~ N (fst (fst k)) -> rows w' !! k = rows w !! k).

Lemma moved_refl N w : ok w -> moved N w w.
Proof using. intros Hok. split; [by split|done]. Qed.

Lemma moved_trans N w1 w2 w3 : moved N w1 w2 -> moved N w2 w3 -> moved N w1 w3.
Proof using.
  intros ((_ & Hs1 & Ht1) & Hc1 & Hr1) ((Hok & Hs2 & Ht2) & Hc2 & Hr2). split; [split; [done|split; [congruence|auto]]|].
  split; [intros n Hn; by rewrite Hc2, Hc1|]. intros k Hk. by rewrite Hr2, Hr1.
Qed.

Lemma moved_mono (N N' : string -> Prop) w w' : (forall n, N n -> N' n) -> moved N w w' -> moved N' w w'.
Proof using. intros HN (Hs & Hc & Hr). split; [done|]. split; auto. Qed.

Lemma silent_moved N w w' : same w w' -> calls w' = calls w -> rows w' = rows w -> moved N w w'.
Proof using. intros Hs Hc Hr. split; [done|]. unfold calls_of. split; [by rewrite Hc|by rewrite Hr]. Qed.

(** ** One subscriber *)
Definition call (sub : Sub) (envs : list Envelope.t) (s : S) (evs : list E) (o : bool) : Call S E :=
  mkCall (Name sub) envs s evs o.

(** The attempts of a budget of [n]: failures, then a success; or [n] failures. *)
Definition delivered (sub : Sub) envs s evs (n : Z) (atts : list (Call S E)) : Prop :=
  exists k, Z.of_nat k < n /\ atts = replicate k (call sub envs s evs false) ++ [call sub envs s evs true].
Definition failed (sub : Sub) envs s evs (n : Z) (atts : list (Call S E)) : Prop :=
  atts = replicate (Z.to_nat n) (call sub envs s evs false).

Lemma callHandle_spec sub ctx envs s evs w w' x :
  sub ∈ subs -> ok w -> callHandle sub ctx envs s evs w = (w', x) ->
  moved (eq (Name sub)) w w' /\ rows w' = rows w /\
  calls_of (Name sub) w' = calls_of (Name sub) w ++ [call sub envs s evs (match x with Ok _ => true | Err _ => false end)] /\
  (forall e, x = Err e -> Error e <> "").
Proof using BL Hbud.
  intros Hs Hok. unfold callHandle. destruct (Hbud _ Hs) as (_ & _ & [h Hh] & _). rewrite Hh. intros H.
  destruct (bl_sub _ _ _ _ _ _ _ _ _ Hs Hh Hok H) as (Hsame & Hr & Hc & He).
  assert (Hcalls : forall n, calls_of n w' = calls_of n w ++
    (if decide (Name sub = n) then [call sub envs s evs (match x with Ok _ => true | Err _ => false end)] else [])).
  { intros n. unfold calls_of. rewrite Hc, List.filter_app. simpl. case_decide; case_bool_decide; done. }
  split; [split; [exact Hsame|split]|split; [done|split; [by rewrite Hcalls, decide_True|done]]].
  - intros n Hn. rewrite Hcalls, decide_False by done. apply app_nil_r.
  - intros k _. by rewrite Hr.
Qed.

Lemma retryLoop_spec sub ctx envs s evs fuel : forall a last w,
  sub ∈ subs -> ok w -> 1 <= a <= MaxRetries sub + 2 -> MaxRetries sub + 2 - a < Z.of_nat fuel ->
  (1 < a -> exists e, last = Some e /\ Error e <> "") ->
  exists w' o atts, retryLoop fuel ctx envs s evs sub a last w = Some (w', Ok o) /\
    moved (eq (Name sub)) w w' /\ rows w' = rows w /\
    calls_of (Name sub) w' = calls_of (Name sub) w ++ atts /\
    (o = None /\ delivered sub envs s evs (MaxRetries sub + 2 - a) atts \/
     (exists e, o = Some e /\ Error e <> "") /\ failed sub envs s evs (MaxRetries sub + 2 - a) atts).
Proof using BL Hbud.
  induction fuel as [|fuel IH]; intros a last w Hs Hok Ha Hf Hlast; [lia|]. cbn [retryLoop].
  destruct (Hbud _ Hs) as (HM & _).
  rewrite (proj2 (Z.ltb_ge (MaxRetries sub) 0)) by lia. rewrite i64_small by lia.
  destruct (Z.leb_spec a (MaxRetries sub + 1)) as [Hle|Hgt].
  - change (false || true) with true. cbv iota beta. destruct (callHandle sub ctx envs s evs w) as [w1 x] eqn:Hc.
    apply callHandle_spec in Hc as (Hm & Hr & Hcs & He); [|done|done]. destruct x as [u|e].
    + exists w1, None, [call sub envs s evs true]. split; [done|]. split; [exact Hm|].
      split; [exact Hr|]. split; [exact Hcs|]. left. split; [done|].
      exists 0%nat. split; [lia|done].
    + rewrite i64_small by lia.
      destruct (IH (a + 1) (Some e) w1 Hs) as (w' & o & atts & Hrun & Hm' & Hr' & Hcs' & Ho); try lia.
      * apply Hm.
      * intros _. exists e. by split; [|apply He].
      * exists w', o, (call sub envs s evs false :: atts).
        split; [exact Hrun|]. split; [by eapply moved_trans|]. split; [congruence|].
        split; [by rewrite Hcs', Hcs, <- app_assoc|].
        destruct Ho as [[-> (k & Hk & ->)]|[He' ->]]; [left|right; split; [done|]].
        -- split; [done|]. exists (Datatypes.S k). split; [lia|reflexivity].
        -- unfold failed. replace (Z.to_nat (MaxRetries sub + 2 - a))
             with (Datatypes.S (Z.to_nat (MaxRetries sub + 2 - (a + 1)))) by lia. done.
  - change (false || false) with false. cbv iota. exists w, last, []. split; [done|]. split; [by apply moved_refl|]. split; [done|].
    split; [by rewrite app_nil_r|]. right. split; [|unfold failed; by replace (Z.to_nat _) with 0%nat by lia].
    destruct Hlast as (e & -> & He); [lia|]. by exists e.
Qed.

(** What a subscriber's step reports: nothing after a success, else a text. *)
Definition outcome (sub : Sub) envs s evs (atts : list (Call S E)) (raw : bytes) : Prop :=
  raw = [] /\ delivered sub envs s evs (MaxRetries sub + 1) atts \/
  raw <> [] /\ failed sub envs s evs (MaxRetries sub + 1) atts.

Definition ran (w0 w : W) (sub : Sub) envs s evs (raw : bytes) : Prop :=
  exists atts, calls_of (Name sub) w = calls_of (Name sub) w0 ++ atts /\ outcome sub envs s evs atts raw.

Lemma ran_moved N w0 w w' sub envs s evs raw :
  moved N w w' -> ~ N (Name sub) -> ran w0 w sub envs s evs raw -> ran w0 w' sub envs s evs raw.
Proof using. intros (_ & Hc & _) Hn (atts & Ha & Ho). exists atts. by rewrite Hc. Qed.

Lemma ran_base N w0 w1 w sub envs s evs raw :
  moved N w0 w1 -> ~ N (Name sub) -> ran w1 w sub envs s evs raw -> ran w0 w sub envs s evs raw.
Proof using. intros (_ & Hc & _) Hn (atts & Ha & Ho). exists atts. by rewrite <- Hc. Qed.

Lemma bytes_of_str_nonempty x : x <> "" -> bytes_of_str x <> [].
Proof using. intros Hx H. apply Hx. by rewrite <- (str_of_bytes_of_str x), H. Qed.

Lemma runRetries_spec sub ctx envs s evs w :
  sub ∈ subs -> ok w ->
  exists w' o atts, runRetries retryFuel ctx envs s evs sub w = Some (w', Ok o) /\
    moved (eq (Name sub)) w w' /\ rows w' = rows w /\
    calls_of (Name sub) w' = calls_of (Name sub) w ++ atts /\
    (o = None /\ delivered sub envs s evs (MaxRetries sub + 1) atts \/
     (exists e, o = Some e /\ Error e <> "") /\ failed sub envs s evs (MaxRetries sub + 1) atts).
Proof using BL Hbud.
  intros Hs Hok. destruct (Hbud _ Hs) as (HM & HF & _). unfold runRetries.
  replace (MaxRetries sub + 1) with (MaxRetries sub + 2 - 1) by lia.
  apply retryLoop_spec; try done; lia.
Qed.

Lemma syncStep_spec sub ctx envs s evs w :
  sub ∈ subs -> ok w ->
  exists w' raw, syncStep retryFuel envs s evs sub ctx w = Some (w', Ok raw) /\
    moved (eq (Name sub)) w w' /\ ran w w' sub envs s evs raw.
Proof using BL Hbud.
  intros Hs Hok. destruct (runRetries_spec sub ctx envs s evs w Hs Hok) as (w' & o & atts & Hr & Hm & _ & Hc & Ho).
  unfold syncStep, mbind, P_bind. rewrite Hr. do 2 eexists. split; [done|]. split; [done|].
  exists atts. split; [done|]. destruct Ho as [[-> Hd]|[(e & -> & He) Hf]]; [by left|right].
  split; [by apply bytes_of_str_nonempty|done].
Qed.

(** ** Policies *)
Definition policy_done (w : W) (sub : Sub) (envs : list Envelope.t) (e : err) : Prop :=
  OnExhausted sub = Drop \/
  OnExhausted sub = DLQ /\ (envs <> [] -> exists now,
    rows w !! dlq_key (dlqRow sid envs sub e now) = Some (enc (dlqRow sid envs sub e now))).

Lemma policy_moved N w w' sub envs e :
  moved N w w' -> ~ N (Name sub) -> policy_done w sub envs e -> policy_done w' sub envs e.
Proof using.
  intros (_ & _ & Hr) Hn [?|[? Hrow]]; [by left|right]. split; [done|]. intros Hne.
  destruct (Hrow Hne) as [now Hnow]. exists now. by rewrite Hr.
Qed.

Lemma onExhausted_spec rec ctx envs s evs sub e w :
  sub ∈ subs -> ok w ->
  exists w' x, onExhausted b rec ctx sid envs s evs sub e w = Some (w', x) /\
    moved (eq (Name sub)) w w' /\ calls w' = calls w /\ (x = Ok tt -> policy_done w' sub envs e).
Proof using BL Hbud.
  intros Hs Hok. destruct (Hbud _ Hs) as (_ & _ & _ & Hnc). unfold onExhausted, policy_done.
  destruct (OnExhausted sub) eqn:Hp; [|done| |].
  - simpl. destruct dq as [f|] eqn:Hd.
    2:{ do 2 eexists. split; [done|]. split; [by apply moved_refl|]. by split. }
    unfold InprocRuntime.Run, run, mbind, P_bind, M_bind. destruct (r_Now r w) as [w1 [now|er]] eqn:H1;
      destruct (bl_now _ _ _ Hok H1) as (Hs1 & Hc1 & Hr1).
    2:{ do 2 eexists. split; [done|]. split; [by apply silent_moved|]. by split. }
    destruct (f (dlqRow sid envs sub e now) w1) as [w2 x] eqn:H2.
    destruct (bl_dlq _ _ _ _ _ eq_refl (proj1 Hs1) H2) as (Hs2 & Hc2 & Hr2 & Hi2).
    assert (Hm : moved (eq (Name sub)) w w2).
    { eapply moved_trans; [by apply silent_moved|]. split; [done|]. unfold calls_of. rewrite Hc2. split; [done|].
      intros k Hk. apply Hr2. intros ->. by apply Hk. }
    destruct x as [[]|er]; do 2 eexists; (split; [done|]); (split; [exact Hm|]); (split; [congruence|]); [|done].
    intros _. right. split; [done|]. intros Hne. exists now. apply Hi2; [done|]. simpl. by destruct envs.
  - do 2 eexists. split; [done|]. split; [by apply moved_refl|]. split; [done|]. by left.
  - do 2 eexists. split; [done|]. split; [by apply moved_refl|]. by split.
Qed.

Lemma settle_spec rec ctx envs s evs sub w :
  sub ∈ subs -> ok w ->
  exists w' x, settle retryFuel b rec ctx sid envs s evs sub w = Some (w', x) /\ moved (eq (Name sub)) w w'.
Proof using BL Hbud.
  intros Hs Hok. destruct (runRetries_spec sub ctx envs s evs w Hs Hok) as (w' & o & atts & Hr & Hm & _).
  unfold settle, mbind, P_bind. rewrite Hr. destruct o as [e|]; [|by do 2 eexists].
  destruct (onExhausted_spec rec ctx envs s evs sub e w' Hs (proj1 (proj1 Hm))) as (w2 & x & -> & Hm2 & _).
  do 2 eexists. split; [done|]. by eapply moved_trans.
Qed.

Lemma spawnAsync_spec rec ctx envs sub w :
  sub ∈ subs -> ok w ->
  exists w' x, spawnAsync retryFuel b rec ctx sid envs sub w = Some (w', x) /\ moved (eq (Name sub)) w w'.
Proof using BL Hbud.
  intros Hs Hok. unfold spawnAsync. destruct (asyncSend b) as [f|] eqn:Hf; simpl in Hf.
  { unfold run. destruct (f _ _ _ _ w) as [w1 x] eqn:H1. destruct (bl_send _ _ _ _ _ Hf _ _ _ Hok H1) as (? & ? & ?).
    do 2 eexists. split; [done|]. by apply silent_moved. }
  simpl Spawn. unfold InprocRuntime.Spawn. destruct (sched _); [|do 2 eexists; split; [done|by apply moved_refl]].
  assert (Hbody : exists w' x, asyncBody retryFuel b rec sid envs sub (WithoutCancel ctx) w = Some (w', x) /\
    moved (eq (Name sub)) w w').
  { unfold asyncBody, mbind, P_bind, done_res. destruct (decodeEvents b envs) as [evs|er];
      [|do 2 eexists; split; [done|by apply moved_refl]].
    unfold run. simpl. destruct (r_Load r sid w) as [w1 [x|er]] eqn:H1; destruct (bl_load _ _ _ Hok H1) as (Hs1 & Hc1 & Hr1).
    2:{ do 2 eexists. split; [done|by apply silent_moved]. }
    destruct (settle_spec rec (WithoutCancel ctx) envs (fst x) evs sub w1 Hs (proj1 Hs1)) as (w2 & y & -> & Hm).
    do 2 eexists. split; [done|]. eapply moved_trans; [by apply silent_moved|done]. }
  destruct Hbody as (w1 & x & -> & Hm). destruct x as [u|er]; [by do 2 eexists|].
  do 2 eexists. split; [done|]. clear Hf. destruct hook as [h|]; [|done].
  destruct (h _ er w1) as [w2 y] eqn:H2. destruct (bl_hook _ _ _ eq_refl _ _ _ (proj1 (proj1 Hm)) H2) as (? & ? & ?).
  eapply moved_trans; [done|]. by apply silent_moved.
Qed.
(** ** The fan-out of one batch *)
Section Batch.
Context (rec : Ctx -> StreamID.t -> C -> P W S) (ctx : Ctx) (envs : list Envelope.t) (s : S) (evs : list E).
Notation B1 sub := (filtered sub envs evs).*1.
Notation B2 sub := (filtered sub envs evs).*2.
Notation nm := (fun se => Name (se_sub b se)).

(** Whether a subscriber has something to receive, and synchronously. *)
Definition addressed (sub : Sub) : bool := match filtered sub envs evs with [] => false | _ => true end.
Definition awaited (sub : Sub) : bool := addressed sub && match Mode sub with Sync => true | Async => false end.

Definition entry_ok (w0 w : W) (se : syncEntry b) : Prop :=
  se_sub b se ∈ subs /\ se_envs b se = B1 (se_sub b se) /\ se_events b se = B2 (se_sub b se) /\
  match se_future b se : InprocRuntime.future with
  | InprocRuntime.FDone (Ok raw) => ran w0 w (se_sub b se) (B1 (se_sub b se)) s (B2 (se_sub b se)) raw
  | InprocRuntime.FDone (Err _) => False
  | InprocRuntime.FPending fn =>
      calls_of (nm se) w = calls_of (nm se) w0 /\
      fn = syncStep retryFuel (B1 (se_sub b se)) s (B2 (se_sub b se)) (se_sub b se) ctx
  end.

Lemma entry_moved N w0 w w' se : moved N w w' -> ~ N (nm se) -> entry_ok w0 w se -> entry_ok w0 w' se.
Proof using.
  intros Hm Hn (Hs & He & Hv & Hf). split; [done|]. split; [done|]. split; [done|].
  destruct (se_future b se : InprocRuntime.future) as [[raw|]|fn]; [by eapply ran_moved|done|].
  destruct Hf as [Hc ->]. split; [|done]. destruct Hm as (_ & Hc' & _). by rewrite Hc'.
Qed.

Lemma entry_base N w0 w1 w se : moved N w0 w1 -> ~ N (nm se) -> entry_ok w1 w se -> entry_ok w0 w se.
Proof using.
  intros Hm Hn (Hs & He & Hv & Hf). split; [done|]. split; [done|]. split; [done|].
  destruct (se_future b se : InprocRuntime.future) as [[raw|]|fn]; [by eapply ran_base|done|].
  destruct Hf as [Hc ->]. split; [|done]. destruct Hm as (_ & Hc' & _). by rewrite <- Hc'.
Qed.

Lemma started_spec sub w :
  sub ∈ subs -> ok w ->
  exists w' f, runSyncSubscriber retryFuel b ctx (B1 sub) s (B2 sub) sub w = Some (w', f) /\
    moved (eq (Name sub)) w w' /\ entry_ok w w' (mkSyncEntry b sub (B1 sub) (B2 sub) f).
Proof using BL Hbud.
  intros Hs Hok. unfold runSyncSubscriber. simpl RunAsync. unfold InprocRuntime.RunAsync.
  destruct (sched _).
  - destruct (syncStep_spec sub ctx (B1 sub) s (B2 sub) w Hs Hok) as (w' & raw & -> & Hm & Hr).
    do 2 eexists. split; [done|]. split; [done|]. by split_and!.
  - do 2 eexists. split; [done|]. split; [by apply moved_refl|]. by split_and!.
Qed.

Lemma fanOut_spec l : forall syncs w,
  (forall sub, sub ∈ l -> sub ∈ subs) -> NoDup (Name <$> l) -> ok w ->
  exists w' x, fanOut retryFuel b rec ctx sid envs s evs l syncs w = Some (w', x) /\
    moved (fun n => n ∈ Name <$> List.filter addressed l) w w' /\
    forall out, x = Ok out -> exists news, out = syncs ++ news /\ Forall (entry_ok w w') news /\
      (se_sub b <$> news) = List.filter awaited l.
Proof using BL Hbud.
  induction l as [|sub l IH]; intros syncs w Hsub Hnd Hok; cbn [fanOut].
  { do 2 eexists. split; [done|]. split; [by apply moved_refl|]. intros out [= <-]. exists []. by rewrite app_nil_r. }
  apply NoDup_cons in Hnd as [Hni Hnd].
  assert (Hsub' : forall sub, sub ∈ l -> sub ∈ subs) by (intros; apply Hsub; by right).
  assert (Hs : sub ∈ subs) by (apply Hsub; by left).
  assert (Hfni : forall p : Sub -> bool, Name sub ∉ (Name <$> List.filter p l)).
  { intros p (x & Hx & Hin)%list_elem_of_fmap. apply Hni. rewrite Hx. apply list_elem_of_fmap_2.
    rewrite list_elem_of_In in *. by apply filter_In in Hin as [? _]. }
  cbn [List.filter].
  assert (Haw : awaited sub = addressed sub && match Mode sub with Sync => true | Async => false end) by done.
  assert (Had : addressed sub = match filtered sub envs evs with [] => false | _ => true end) by done.
  rewrite Haw, Had. clear Haw Had. destruct (filtered sub envs evs) as [|x batch] eqn:Hb; [by apply IH|]. rewrite <- Hb.
  assert (Hmono : forall w1 w', moved (eq (Name sub)) w w1 ->
    moved (fun n => n ∈ Name <$> List.filter addressed l) w1 w' ->
    moved (fun n => n ∈ Name <$> (sub :: List.filter addressed l)) w w').
  { intros w1 w' H1 H2. eapply moved_trans; (eapply moved_mono; [|done]).
    - intros n <-. rewrite fmap_cons. by left.
    - intros n Hn. rewrite fmap_cons. by right. }
  destruct (Mode sub).
  - cbv beta. destruct (started_spec sub w Hs Hok) as (w1 & f & Hst & Hm1 & He1). rewrite Hst.
    destruct (IH (syncs ++ [mkSyncEntry b sub (B1 sub) (B2 sub) f]) w1 Hsub' Hnd (proj1 (proj1 Hm1)))
      as (w' & y & -> & Hm2 & Hout).
    do 2 eexists. split; [done|]. split; [by eapply Hmono|]. intros out ->.
    destruct (Hout out eq_refl) as (news & -> & HF & Heq).
    exists (mkSyncEntry b sub (B1 sub) (B2 sub) f :: news). split; [by rewrite <- app_assoc|].
    split; [|rewrite fmap_cons, Heq; done].
    apply Forall_cons. split; [eapply entry_moved; [exact Hm2|apply Hfni|done]|].
    apply Forall_forall. intros se Hse. rewrite Forall_forall in HF.
    eapply entry_base; [exact Hm1| |by apply HF]. intros Hn. apply (Hfni awaited). rewrite Hn.
    apply (list_elem_of_fmap_2 Name). rewrite <- Heq. by apply list_elem_of_fmap_2.
  - unfold mbind, P_bind.
    destruct (spawnAsync_spec rec ctx (B1 sub) sub w Hs Hok) as (w1 & y & Hsp & Hm1). rewrite Hsp.
    destruct y as [u|er].
    2:{ do 2 eexists. split; [done|]. split; [|done]. eapply Hmono; [done|]. apply moved_refl. apply Hm1. }
    destruct (IH syncs w1 Hsub' Hnd (proj1 (proj1 Hm1))) as (w' & z & -> & Hm2 & Hout).
    do 2 eexists. split; [done|]. split; [by eapply Hmono|]. intros out ->.
    destruct (Hout out eq_refl) as (news & -> & HF & Heq). exists news. split; [done|]. split; [|done].
    apply Forall_forall. intros se Hse. rewrite Forall_forall in HF.
    eapply entry_base; [exact Hm1| |by apply HF]. intros Hn. apply (Hfni awaited). rewrite Hn.
    apply (list_elem_of_fmap_2 Name). rewrite <- Heq. by apply list_elem_of_fmap_2.
Qed.
(** The subscriber of an entry ran its budget since [w0]; a failure is in [toApply]. *)
Definition waited (w0 w : W) (toApply : list (syncEntry b * err)) (se : syncEntry b) : Prop :=
  se_sub b se ∈ subs /\ se_envs b se = B1 (se_sub b se) /\
  exists raw, ran w0 w (se_sub b se) (B1 (se_sub b se)) s (B2 (se_sub b se)) raw /\
    (raw <> [] -> (se, ENew (str_of_bytes raw)) ∈ toApply).

Lemma waited_moved N w0 w w' toApply se :
  moved N w w' -> ~ N (nm se) -> waited w0 w toApply se -> waited w0 w' toApply se.
Proof using.
  intros Hm Hn (Hs & He & raw & Hr & Ht). split; [done|]. split; [done|]. exists raw. split; [by eapply ran_moved|done].
Qed.

Lemma wait_spec w0 w se : ok w -> entry_ok w0 w se ->
  exists w' raw, Wait rt (se_future b se) w = Some (w', Ok raw) /\ moved (eq (nm se)) w w' /\
    ran w0 w' (se_sub b se) (B1 (se_sub b se)) s (B2 (se_sub b se)) raw.
Proof using BL Hbud.
  intros Hok (Hs & He & Hv & Hf). simpl. unfold InprocRuntime.Wait.
  destruct (se_future b se : InprocRuntime.future) as [[raw|]|fn]; [|done|].
  - exists w, raw. split; [done|]. split; [by apply moved_refl|done].
  - destruct Hf as [Hc ->]. destruct (syncStep_spec _ ctx (B1 (se_sub b se)) s (B2 (se_sub b se)) w Hs Hok)
      as (w' & raw & Hrun & Hm & atts & Ha & Ho).
    exists w', raw. split; [exact Hrun|]. split; [done|]. exists atts. by rewrite <- Hc.
Qed.

Lemma waitAll_spec syncs : forall w0 w,
  ok w -> NoDup (nm <$> syncs) -> Forall (entry_ok w0 w) syncs ->
  exists w' toApply, waitAll b syncs w = Some (w', Ok toApply) /\
    moved (fun n => n ∈ nm <$> syncs) w w' /\
    Forall (waited w0 w' toApply) syncs /\ (toApply.*1) `sublist_of` syncs.
Proof using BL Hbud.
  induction syncs as [|se syncs IH]; intros w0 w Hok Hnd HF; cbn [waitAll].
  { do 2 eexists. split; [done|]. split; [by apply moved_refl|]. by split. }
  apply NoDup_cons in Hnd as [Hni Hnd]. apply Forall_cons in HF as [He HF].
  destruct (wait_spec w0 w se Hok He) as (w1 & raw & Hw & Hm1 & Hr).
  assert (Hother : forall x, x ∈ syncs -> Name (se_sub b se) <> nm x).
  { intros x Hx Heq. apply Hni. rewrite Heq. by apply (list_elem_of_fmap_2 nm). }
  destruct (IH w0 w1 (proj1 (proj1 Hm1)) Hnd) as (w' & more & Hmore & Hm2 & HF2 & Hsl).
  { apply Forall_forall. intros x Hx. rewrite Forall_forall in HF. eapply entry_moved; [exact Hm1| |by apply HF].
    by apply Hother. }
  set (out := if bool_decide (raw = []) then more else (se, ENew (str_of_bytes raw)) :: more).
  exists w', out. split.
  { unfold mbind, P_bind, p_wrap. change (Wait (wf b)) with (Wait rt). rewrite Hw. by rewrite Hmore. }
  split.
  { eapply moved_trans; (eapply moved_mono; [|done]); intros n Hn; rewrite fmap_cons.
    - rewrite <- Hn. by left.
    - by right. }
  assert (Hsub : forall x, x ∈ more -> x ∈ out) by (intros x Hx; unfold out; case_bool_decide; [done|by right]).
  split.
  - apply Forall_cons. split.
    + eapply waited_moved; [exact Hm2|exact Hni|]. destruct He as (Hs & Henv & _). split; [done|]. split; [done|].
      exists raw. split; [done|]. intros Hne. unfold out. rewrite bool_decide_false by done. by left.
    + eapply Forall_impl; [exact HF2|]. intros x (Hs & Henv & raw' & Hr' & Ht). split; [done|]. split; [done|].
      exists raw'. split; [done|]. auto.
  - unfold out. case_bool_decide; [by apply sublist_cons|]. rewrite fmap_cons. by apply sublist_skip.
Qed.

Lemma applyPolicies_spec toApply : forall m w,
  ok w -> NoDup (nm <$> toApply.*1) -> Forall (fun x => se_sub b (fst x) ∈ subs) toApply ->
  exists w' x, applyPolicies b rec ctx sid s toApply m w = Some (w', x) /\
    moved (fun n => n ∈ nm <$> toApply.*1) w w' /\ calls w' = calls w /\
    forall m', x = Ok m' -> m' = m /\
      Forall (fun y => policy_done w' (se_sub b (fst y)) (se_envs b (fst y)) (snd y)) toApply.
Proof using BL Hbud.
  induction toApply as [|[se e] toApply IH]; intros m w Hok Hnd HF; cbn [applyPolicies].
  { do 2 eexists. split; [done|]. split; [by apply moved_refl|]. split; [done|]. intros m' [= <-]. by split. }
  rewrite !fmap_cons in Hnd. apply NoDup_cons in Hnd as [Hni Hnd]. apply Forall_cons in HF as [Hs HF]. simpl in Hs, Hni.
  destruct (onExhausted_spec rec ctx (se_envs b se) s (se_events b se) (se_sub b se) e w Hs Hok)
    as (w1 & y & Hrun & Hm1 & Hc1 & Hp1). unfold mbind, P_bind. rewrite Hrun.
  assert (Hmono : forall w', moved (fun n => n ∈ nm <$> toApply.*1) w1 w' ->
    moved (fun n => n ∈ nm <$> ((se, e) :: toApply).*1) w w').
  { intros w' H2. eapply moved_trans; (eapply moved_mono; [|done]); intros n Hn; rewrite !fmap_cons.
    - rewrite <- Hn. by left.
    - by right. }
  destruct y as [[]|er].
  2:{ do 2 eexists. split; [done|]. split; [apply Hmono, moved_refl, Hm1|]. by split. }
  specialize (Hp1 eq_refl). destruct (Hbud _ Hs) as (_ & _ & _ & Hnc).
  assert (Hm : match OnExhausted (se_sub b se) with Compensate => true | _ => m end = m)
    by (by destruct (OnExhausted (se_sub b se))). rewrite Hm.
  destruct (IH m w1 (proj1 (proj1 Hm1)) Hnd HF) as (w' & x & -> & Hm2 & Hc2 & Hx).
  do 2 eexists. split; [done|]. split; [by apply Hmono|]. split; [congruence|]. intros m' ->.
  destruct (Hx m' eq_refl) as [-> HF']. split; [done|]. apply Forall_cons. split; [|done]. simpl.
  by eapply policy_moved.
Qed.

(** What became of a subscriber's delivery. *)
Definition settled (w0 w : W) (sub : Sub) : Prop :=
  exists atts, calls_of (Name sub) w = calls_of (Name sub) w0 ++ atts /\
    (delivered sub (B1 sub) s (B2 sub) (MaxRetries sub + 1) atts \/
     failed sub (B1 sub) s (B2 sub) (MaxRetries sub + 1) atts /\ exists e, policy_done w sub (B1 sub) e).

Lemma fan_out_spec w : NoDup (Name <$> subs) -> ok w ->
  exists w' x, (syncs ← fanOut retryFuel b rec ctx sid envs s evs subs [];
     toApply ← waitAll b syncs; applyPolicies b rec ctx sid s toApply false) w = Some (w', x) /\
    moved (fun n => n ∈ Name <$> List.filter addressed subs) w w' /\
    forall m, x = Ok m -> m = false /\ forall sub, sub ∈ subs -> awaited sub = true -> settled w w' sub.
Proof using BL Hbud.
  intros Hnd Hok. destruct (fanOut_spec subs [] w (fun _ H => H) Hnd Hok) as (w1 & x & Hf & Hm1 & Hout).
  unfold mbind at 1, P_bind at 1. rewrite Hf.
  destruct x as [out|er]; [|do 2 eexists; split; [done|]; by split].
  destruct (Hout out eq_refl) as (news & -> & HF & Heq). simpl app.
  assert (Hsl : (nm <$> news) `sublist_of` (Name <$> List.filter addressed subs)).
  { change (nm <$> news) with ((fun se => Name (se_sub b se)) <$> news). rewrite (list_fmap_compose (se_sub b) Name), Heq.
    apply fmap_sublist. clear. induction subs as [|a l IH]; [done|]. cbn [List.filter]. unfold awaited at 1.
    destruct (addressed a); simpl; [|done]. destruct (Mode a); [by apply sublist_skip|by apply sublist_cons]. }
  assert (Hnd' : NoDup (nm <$> news)).
  { eapply sublist_NoDup; [exact Hnd|]. etrans; [exact Hsl|]. apply fmap_sublist. clear.
    induction subs as [|a l IH]; [done|]. cbn [List.filter].
    destruct (addressed a); [by apply sublist_skip|by apply sublist_cons]. }
  destruct (waitAll_spec news w w1 (proj1 (proj1 Hm1)) Hnd' HF) as (w2 & toApply & Hw & Hm2 & HF2 & Hsub).
  unfold mbind, P_bind. rewrite Hw.
  assert (Hnm : (nm <$> toApply.*1) `sublist_of` (nm <$> news)) by by apply fmap_sublist.
  destruct (applyPolicies_spec toApply false w2 (proj1 (proj1 Hm2))) as (w' & x & -> & Hm3 & Hc3 & Hx).
  { by eapply sublist_NoDup. }
  { apply Forall_forall. intros y Hy. rewrite Forall_forall in HF2.
    apply (HF2 (fst y)). eapply elem_of_sublist; [by apply list_elem_of_fmap_2|exact Hsub]. }
  do 2 eexists. split; [done|]. split.
  { eapply moved_trans; [exact Hm1|]. eapply moved_trans; (eapply moved_mono; [|done]); simpl; intros n Hn.
    - by eapply elem_of_sublist.
    - eapply elem_of_sublist; [by eapply elem_of_sublist|exact Hsl]. }
  intros m ->. destruct (Hx m eq_refl) as [-> HF3]. split; [done|]. intros sub Hs Haw.
  assert (Hin : sub ∈ (se_sub b <$> news)) by (rewrite Heq; rewrite list_elem_of_In in *; by apply filter_In).
  apply list_elem_of_fmap in Hin as (se & -> & Hse). rewrite Forall_forall in HF2.
  destruct (HF2 se Hse) as (_ & Henv & raw & (atts & Ha & Ho) & Ht). exists atts. split.
  { unfold calls_of in *. by rewrite Hc3. }
  destruct Ho as [[_ Hd]|[Hne Hfl]]; [by left|right]. split; [done|]. exists (ENew (str_of_bytes raw)).
  rewrite Forall_forall in HF3. rewrite <- Henv. apply (HF3 (se, ENew (str_of_bytes raw))). by apply Ht.
Qed.
End Batch.

(** ** The whole dispatch *)
Lemma filtered_spec (sub : Sub) envs evs : decodeEvents b envs = Ok evs ->
  (filtered sub envs evs).*1 = List.filter (Matches (Filter sub)) envs /\
  decodeEvents b (filtered sub envs evs).*1 = Ok (filtered sub envs evs).*2.
Proof using.
  unfold decodeEvents. rewrite !mapR_Forall2. unfold filtered. induction 1 as [|env e envs evs He HF IH]; simpl.
  { split; [done|constructor]. }
  destruct IH as [IH1 IH2]. destruct (Matches (Filter sub) env); csimpl; [|done].
  rewrite IH1 in *. split; [done|]. by constructor.
Qed.

Lemma decodeEnvelopes_encode envs : decodeEnvelopes (encodeEnvelopes envs) = Ok (unchained <$> envs).
Proof using GL. unfold decodeEnvelopes, encodeEnvelopes. rewrite ungob_gob_envelopes. by rewrite <- list_fmap_compose. Qed.

Lemma readEnvelopesStep_spec ctx ar old new w :
  ok w -> stream w = old ++ new -> Z.of_nat (length (stream w)) < 2 ^ 63 ->
  ar_StartVersion ar = Z.of_nat (length old) + 1 -> ar_EndVersion ar = Z.of_nat (length (stream w)) ->
  exists w' x, readEnvelopesStep b ctx sid ar w = Some (w', x) /\ same w w' /\ calls w' = calls w /\ rows w' = rows w /\
    forall envs, x = Ok envs -> envs = unchained <$> new.
Proof using BL GL.
  intros Hok Hst Hlen Hsv Hev. unfold readEnvelopesStep, readBack, run, mbind, P_bind, M_bind. simpl Run.
  unfold InprocRuntime.Run. rewrite Hst, length_app in Hlen, Hev.
  rewrite Hsv, Hev. replace (Z.of_nat (length old) + 1 - 1) with (Z.of_nat (length old)) by lia.
  rewrite u64_small by lia. simpl store.
  destruct (ReadStream st sid (Z.of_nat (length old)) w) as [w1 [envs|er]] eqn:Hr;
    destruct (bl_read _ _ _ _ Hok Hr) as (Hs & Hc & Hrw);
    [|do 2 eexists; split; [done|]; by split_and!].
  do 2 eexists. split; [done|]. split; [done|]. split; [done|]. split; [done|]. intros out Hout.
  apply bl_read_stream in Hr; [|done|lia]. rewrite Nat2Z.id, Hst, drop_app_length in Hr. subst envs.
  rewrite u64_small, i64_small in Hout by lia.
  rewrite (proj2 (Z.ltb_ge _ _)) in Hout by lia. rewrite decodeEnvelopes_encode in Hout. by injection Hout as <-.
Qed.

Lemma readStateStep_spec ctx w :
  ok w ->
  exists w' x, readStateStep b ctx sid w = Some (w', x) /\ same w w' /\ calls w' = calls w /\ rows w' = rows w /\
    forall s, x = Ok s -> stateOf w' s.
Proof using BL.
  intros Hok. unfold readStateStep, run, mbind, P_bind, M_bind. simpl. unfold InprocRuntime.Run, of_res.
  destruct (r_Load r sid w) as [w1 [[s v]|er]] eqn:H1; destruct (bl_load _ _ _ Hok H1) as (Hs & Hc & Hr);
    [|do 2 eexists; split; [done|]; by split_and!].
  simpl. destruct (r_EncodeState r s) as [raw|er] eqn:He; [|do 2 eexists; split; [done|]; by split_and!].
  do 2 eexists. split; [done|]. split; [done|]. split; [done|]. split; [done|]. intros s' Hs'.
  rewrite (bl_state _ _ He) in Hs'. injection Hs' as <-. apply Hs. by eapply bl_load_state.
Qed.

Lemma appendStep_inproc ctx cmd opts w : appendStep b ctx sid cmd opts w = Some (r_Handle r sid cmd opts w).
Proof using GL.
  unfold appendStep, mbind at 1, P_bind. simpl Run. unfold InprocRuntime.Run, run, mbind, M_bind. simpl runner.
  destruct (r_Handle r sid cmd opts w) as [w1 [ar|er]]; [|done]. unfold mret, M_ret, done_res, decodeAppendResult, encodeAppendResult.
  rewrite ungob_gob_result. by destruct ar.
Qed.

(** What each subscriber of the bus has of the events [new]. *)
Definition fanned (w0 w : W) (s : S) (new : list Envelope.t) (sub : Sub) : Prop :=
  let batch := List.filter (Matches (Filter sub)) (unchained <$> new) in
  (batch = [] -> calls_of (Name sub) w = calls_of (Name sub) w0) /\
  (batch <> [] -> Mode sub = Sync ->
   exists evs atts, decodeEvents b batch = Ok evs /\ calls_of (Name sub) w = calls_of (Name sub) w0 ++ atts /\
     (delivered sub batch s evs (MaxRetries sub + 1) atts \/
      failed sub batch s evs (MaxRetries sub + 1) atts /\ exists e, policy_done w sub batch e)).

Lemma dispatch_spec rec ctx ar old new w :
  NoDup (Name <$> subs) -> ok w -> stream w = old ++ new -> Z.of_nat (length (stream w)) < 2 ^ 63 ->
  (new = [] -> ar_StartVersion ar = 0 /\ ar_EndVersion ar = 0) ->
  (new <> [] -> ar_StartVersion ar = Z.of_nat (length old) + 1 /\ ar_EndVersion ar = Z.of_nat (length (stream w))) ->
  exists w' x, dispatch retryFuel b rec ctx sid ar w = Some (w', x) /\
    forall s, x = Ok s -> stream w' = stream w /\ stateOf w' s /\ forall sub, sub ∈ subs -> fanned w w' s new sub.
Proof using BL GL Hbud.
  intros Hnd Hok Hst Hlen H0 Hv. unfold dispatch. destruct new as [|env new].
  { destruct (H0 eq_refl) as [-> ->]. simpl. unfold run, mbind, P_bind. simpl.
    destruct (r_Load r sid w) as [w1 [[s v]|er]] eqn:H1; destruct (bl_load _ _ _ Hok H1) as ((Hok1 & Hs & Hst1) & Hc & Hr);
      do 2 eexists; (split; [done|]); [|done].
    intros s' [= <-]. split; [done|]. split; [apply Hst1; by eapply bl_load_state|].
    intros sub _. split; [|done]. intros _. unfold calls_of. by rewrite Hc. }
  destruct (Hv ltac:(done)) as [Hsv Hev]. rewrite (proj2 (Z.eqb_neq (ar_StartVersion ar) 0)) by lia.
  set (news := env :: new) in *. change (false && _) with false. cbv iota.
  destruct (readEnvelopesStep_spec ctx ar old news w Hok Hst Hlen Hsv Hev) as (w1 & x1 & Hr1 & Hs1 & Hc1 & Hd1 & Hx1).
  unfold mbind at 1, P_bind at 1. rewrite Hr1. destruct x1 as [envs|er]; [|by do 2 eexists].
  specialize (Hx1 envs eq_refl). subst envs.
  destruct (readStateStep_spec ctx w1 (proj1 Hs1)) as (w2 & x2 & Hr2 & Hs2 & Hc2 & Hd2 & Hx2).
  unfold mbind at 1, P_bind at 1. rewrite Hr2. destruct x2 as [s|er]; [|by do 2 eexists]. specialize (Hx2 s eq_refl).
  unfold mbind at 1, P_bind at 1, p_wrap, done_res.
  destruct (decodeEvents b (unchained <$> news)) as [evs|er] eqn:Hdec; [|by do 2 eexists].
  destruct (fan_out_spec rec ctx (unchained <$> news) s evs w2 Hnd (proj1 Hs2)) as (w3 & x3 & Hr3 & Hm3 & Hx3).
  assert (Hassoc : forall k : bool -> P W S,
    (syncs ← fanOut retryFuel b rec ctx sid (unchained <$> news) s evs subs [];
     toApply ← waitAll b syncs; mutated ← applyPolicies b rec ctx sid s toApply false; k mutated) w2 =
    match x3 with Ok m => k m w3 | Err e => Some (w3, Err e) end).
  { intros k. revert Hr3. unfold mbind, P_bind.
    destruct (fanOut _ _ _ _ _ _ _ _ _ _ w2) as [[wa [syncs|er]]|]; [|by intros [= <- <-]|done].
    destruct (waitAll b syncs wa) as [[wb [toApply|er]]|]; [|by intros [= <- <-]|done].
    intros ->. by destruct x3. }
  rewrite Hassoc. destruct x3 as [m|er]; [|by do 2 eexists]. destruct (Hx3 m eq_refl) as [-> Hset].
  do 2 eexists. split; [done|]. intros s' [= <-].
  destruct Hm3 as ((Hok3 & Hst3 & Hso3) & Hc3 & _).
  assert (Hcalls : forall n, calls_of n w2 = calls_of n w) by (intros n; unfold calls_of; by rewrite Hc2, Hc1).
  split; [rewrite Hst3; destruct Hs2 as (_ & -> & _); by destruct Hs1 as (_ & -> & _)|]. split; [by apply Hso3|].
  intros sub Hs. destruct (filtered_spec sub _ _ Hdec) as [Hb1 Hb2].
  assert (Hadr : addressed (unchained <$> news) evs sub = true <-> List.filter (Matches (Filter sub)) (unchained <$> news) <> []).
  { rewrite <- Hb1. unfold addressed. by destruct (filtered sub _ _). }
  split.
  - intros Hnil. rewrite <- Hcalls. apply Hc3. intros (sub' & Hn & Hin)%list_elem_of_fmap.
    rewrite list_elem_of_In in Hin. apply filter_In in Hin as [Hin Ha].
    assert (sub' = sub) as ->.
    { rewrite <- list_elem_of_In in Hin. apply list_elem_of_lookup in Hin as [i Hi].
      apply list_elem_of_lookup in Hs as [j Hj].
      assert (i = j) as ->; [|congruence]. eapply (NoDup_lookup (Name <$> subs)); [done| |].
      - rewrite list_lookup_fmap, Hi. reflexivity.
      - rewrite list_lookup_fmap, Hj. simpl. by rewrite Hn. }
    by apply Hadr in Ha.
  - intros Hne Hmode. destruct (Hset sub Hs) as (atts & Ha & Ho).
    { unfold awaited. rewrite (proj2 Hadr Hne), Hmode. done. }
    rewrite Hb1 in *. exists (filtered sub (unchained <$> news) evs).*2, atts. split; [done|].
    split; [by rewrite <- Hcalls|]. done.
Qed.
End Facts.

(** C38: a command reaches every subscriber.  On the in-process runtime, with a
    bus built by Register whose subscribers have a bounded budget
    (0 <= MaxRetries < 2^63 - 2; with -1 see [negative_retries_forever]), do
    not compensate, report errors with a text (else see
    [empty_error_delivered]) and leave the stream and the DLQ alone, and with no
    other writer of the stream meanwhile ([BusLaws]), HandleCmd returns, whichever goroutines run when
    they are started and whichever when they are waited for.  If it succeeds,
    the stream was extended by the command's events and the state returned is
    the stream's; a subscriber whose filter matches none of the events was not
    called; and every Sync subscriber was called with exactly the matching
    events and that state, until a call succeeded (at most MaxRetries + 1
    calls), or it failed MaxRetries + 1 times and its policy was applied:
    dropped, or a row with the batch in the subscriber DLQ. *)
Theorem cmd_dispatch {W S C E R} {G : Gob} (GL : GobLaws G) (NewSHA1 : UUID -> bytes -> UUID) retryFuel
    ok stream stateOf calls rows (enc : SubscriberDLQRow -> R) sid r st (cd : Codec E) (subs : list (Subscriber W S C E)) dq send sched hook
    b0 fuel ctx cmd opts w
    (BL : BusLaws ok stream stateOf calls rows enc sid r st subs dq send hook cmd (handleOptions NewSHA1 opts) w) :
  let rt := InprocRuntime.runtime sched hook in
  With (New r st rt cd) subs = Ok b0 ->
  (forall sub, sub ∈ subs -> 0 <= MaxRetries sub < 2 ^ 63 - 2 /\ MaxRetries sub + 1 < Z.of_nat retryFuel /\
     OnExhausted sub <> Compensate) ->
  ok w ->
  exists w' x,
    HandleCmd NewSHA1 retryFuel (mkWorkflow r st rt cd subs dq send) (Datatypes.S fuel) ctx sid cmd opts w = Some (w', x) /\
    forall s, x = Ok s -> exists new, stream w' = stream w ++ new /\ stateOf w' s /\
      forall sub, sub ∈ subs ->
        fanned (calls := calls) (rows := rows) (enc := enc) (sid := sid) (r := r) (st := st) (cd := cd) (subs := subs) (dq := dq)
          (send := send) (sched := sched) (hook := hook) w w' s new sub.
Proof.
  intros rt Hwith Hbud Hok. apply With_Ok in Hwith as (HF & Hnd & _); [|constructor].
  assert (Hb : forall sub, sub ∈ subs -> budgeted (retryFuel := retryFuel) sub).
  { intros sub Hs. destruct (Hbud sub Hs) as (H1 & H2 & H3). rewrite Forall_forall in HF.
    destruct (HF sub Hs) as (_ & H4 & _). exact (conj H1 (conj H2 (conj H4 H3))). }
  subst rt. cbn [HandleCmd]. unfold mbind, P_bind. rewrite appendStep_inproc.
  destruct (r_Handle r sid cmd (handleOptions NewSHA1 opts) w) as [w1 [ar|er]] eqn:Hh;
    destruct (bl_handle _ _ Hok Hh) as (Hok1 & Hc1 & Hr1 & Har); [|by do 2 eexists].
  destruct (Har ar eq_refl) as (new & Hst & Hlen & H0 & Hv).
  destruct (dispatch_spec (BL := BL) (cd := cd) (sched := sched) Hb (fun ctx sid cmd => HandleCmd NewSHA1 retryFuel
      (mkWorkflow r st (InprocRuntime.runtime sched hook) cd subs dq send) fuel ctx sid cmd []) ctx
      ar (stream w) new w1 Hnd Hok1 Hst Hlen H0 Hv) as (w' & x & Hrun & Hx).
  exists w', x. split; [exact Hrun|]. intros s ->. destruct (Hx s eq_refl) as (Hs & Hso & Hfan).
  exists new. split; [congruence|]. split; [done|]. intros sub Hsub. specialize (Hfan sub Hsub).
  unfold fanned, calls_of in *. by rewrite <- Hc1.
Qed.

(** ** Corner cases of the retry step *)
Section Corners.
Context {W S C E : Type} {G : Gob}.

(** MaxRetries + 1 wraps at the largest int: the subscriber is never called and
    counts as delivered. *)
Lemma retries_overflow fuel ctx envs (s : S) (evs : list E) (sub : Subscriber W S C E) w :
  MaxRetries sub = 2 ^ 63 - 1 -> runRetries (Datatypes.S fuel) ctx envs s evs sub w = Some (w, Ok None).
Proof. intros H. unfold runRetries. cbn [retryLoop]. by rewrite H. Qed.

(** A failure is handed on as the text of its error: an error without a text
    counts as delivered. *)
Lemma empty_error_delivered ctx envs (s : S) (evs : list E) (sub : Subscriber W S C E) w e :
  MaxRetries sub = 0 -> Error e = "" -> (forall w, callHandle sub ctx envs s evs w = (w, Err e)) ->
  syncStep 2 envs s evs sub ctx w = Some (w, Ok []).
Proof.
  intros Hm He Hc. unfold syncStep, runRetries, mbind, P_bind. cbn [retryLoop]. rewrite Hm. simpl. rewrite Hc.
  cbn -[Error]. by rewrite He.
Qed.

(** A negative MaxRetries is no budget: a subscriber that keeps failing is called
    for ever, and with it HandleCmd does not return. *)
Lemma negative_retries_forever fuel : forall ctx envs (s : S) (evs : list E) (sub : Subscriber W S C E) attempt last w,
  MaxRetries sub < 0 -> (forall w, exists w' e, callHandle sub ctx envs s evs w = (w', Err e)) ->
  retryLoop fuel ctx envs s evs sub attempt last w = None.
Proof.
  induction fuel as [|fuel IH]; intros ctx envs s evs sub attempt last w Hm Hc; [done|]. cbn [retryLoop].
  rewrite (proj2 (Z.ltb_lt _ _) Hm). cbn [orb]. destruct (Hc w) as (w' & e & ->). by apply IH.
Qed.
End Corners.
