(* ===== verification/Chain.v ===== *)
(** * The tamper-evident hash chain (es/chain.go)

    SHA-256, the deterministic protobuf encoding of the envelope message and
    the textual form of UUIDs are not code of the repository: they are the
    fields of the class [ChainPrims], and what the proofs use of them are the
    documented laws of [ChainLaws].  [concrete_prims] is an instance, used by
    the witnesses. *)
From S2P Require Import Prelude Errors Streams Events.

(** The message gen/eventstore/envelope/v1.Envelope, restricted to the fields
    canonicalEnvelopeBytes sets. *)
Record pbActor := mkPbActor {
  pba_kind : Z;
  pba_principal : string;
  pba_on_behalf_of : string;
  pba_api_key_id : string;
  pba_attributes : gmap string string
}.

Record pbEnvelope := mkPbEnvelope {
  pb_event_id : string;
  pb_tenant_id : string;
  pb_stream_id : string;
  pb_version : Z;
  pb_type_url : string;
  pb_schema_version : Z;
  pb_occurred_at : Z * Z;
  pb_correlation_id : string;
  pb_causation_id : string;
  pb_command_id : string;
  pb_actor : pbActor;
  pb_payload : bytes;
  pb_encryption_key_refs : bytes
}.

Class ChainPrims := {
  sha256 : bytes -> bytes;
  uuid_string : UUID -> string;
  pb_marshal : pbEnvelope -> res bytes
}.

(** SHA-256 digests have 32 bytes; a deterministic encoding of one message
    type is unambiguous (Unmarshal inverts Marshal). *)
Class ChainLaws (P : ChainPrims) := {
  sha256_length : forall b, length (sha256 b) = 32%nat;
  pb_marshal_inj : forall p q b, pb_marshal p = Ok b -> pb_marshal q = Ok b -> p = q
}.

Module Chain.
Section Chain.
Context {P : ChainPrims}.

Definition sha256_Size : nat := 32.
Definition ZeroHash : bytes := replicate sha256_Size Byte.x00.

(** timestamppb.New: seconds and nanoseconds. *)
Definition timestamppb_New (t : Time) : Z * Z := (t / 1000000000, t mod 1000000000).

Definition canonicalEnvelope (e : Envelope.t) : pbEnvelope :=
  mkPbEnvelope
    (uuid_string (Envelope.EventID e))
    (Envelope.TenantID e)
    (StreamID.Canonical (Envelope.StreamID e))
    (Envelope.Version e)
    (Envelope.TypeURL e)
    (Envelope.SchemaVersion e)
    (timestamppb_New (Envelope.OccurredAt e))
    (uuid_string (Envelope.CorrelationID e))
    (uuid_string (Envelope.CausationID e))
    (uuid_string (Envelope.CommandID e))
    (mkPbActor
       (i32 (Actor.Kind (Envelope.Actor e)))
       (Actor.Principal (Envelope.Actor e))
       (Actor.OnBehalfOf (Envelope.Actor e))
       (Actor.APIKeyID (Envelope.Actor e))
       (Actor.Attributes (Envelope.Actor e)))
    (Envelope.Payload e)
    (Envelope.KeyRefs e).

Definition canonicalEnvelopeBytes (e : Envelope.t) : res bytes :=
  pb_marshal (canonicalEnvelope e).

Definition ComputeChainHash (prevHash : bytes) (e : option Envelope.t) : res bytes :=
  match e with
  | None => Err (ENew "eventstore: nil envelope")
  | Some e =>
      if negb (Nat.eqb (length prevHash) sha256_Size)
      then Err (ENew "eventstore: prev hash must be 32 bytes")
      else
        match canonicalEnvelopeBytes e with
        | Err err => Err err
        | Ok canonical => Ok (sha256 (prevHash ++ canonical))
        end
  end.

#[local] Arguments ComputeChainHash : simpl never.

(** The constant-time comparison: the xor of all byte pairs, or-ed. *)
Fixpoint hash_diff (diff : Z) (a b : bytes) : Z :=
  match a, b with
  | x :: a', y :: b' => hash_diff (Z.lor diff (Z.lxor (Z_of_byte x) (Z_of_byte y))) a' b'
  | _, _ => diff
  end.

Definition equalHash (a b : bytes) : bool :=
  if negb (Nat.eqb (length a) (length b)) then false else hash_diff 0 a b =? 0.

(** The loop of VerifyStreamChain. *)
Fixpoint verify_loop (prev : bytes) (envs : list Envelope.t) : res unit :=
  match envs with
  | [] => Ok tt
  | e :: envs' =>
      match ComputeChainHash prev (Some e) with
      | Err err => Err (EWrap "recompute hash at version" err)
      | Ok got =>
          if negb (equalHash got (Envelope.Hash e))
          then Err (EWrapPost (ESent ErrChainBroken) "version")
          else verify_loop (Envelope.Hash e) envs'
      end
  end.

Section Store.
Context {W : Type} (ReadStream : StreamID.t -> Z -> M W (list Envelope.t)).

Definition VerifyStreamChain (sid : StreamID.t) : M W unit :=
  envs ← ReadStream sid 0;
  of_res (verify_loop ZeroHash envs).

Context (BackfillEventHash : string -> UUID -> bytes -> bytes -> M W unit).

Record RebuildResult := mkRebuildResult {
  BackfilledCount : Z;
  VerifiedCount : Z
}.

Definition incr_backfilled (r : RebuildResult) : RebuildResult :=
  mkRebuildResult (BackfilledCount r + 1) (VerifiedCount r).
Definition incr_verified (r : RebuildResult) : RebuildResult :=
  mkRebuildResult (BackfilledCount r) (VerifiedCount r + 1).

(** The loop of RebuildStreamChain; the partial counts are returned with
    the error. *)
Fixpoint rebuild_loop (prev : bytes) (envs : list Envelope.t) (r : RebuildResult) (w : W)
    : W * (RebuildResult * option err) :=
  match envs with
  | [] => (w, (r, None))
  | e :: envs' =>
      match ComputeChainHash prev (Some e) with
      | Err err => (w, (r, Some (EWrap "recompute hash at version" err)))
      | Ok expected =>
          if decide (Envelope.Hash e = []) then
            match BackfillEventHash (Envelope.TenantID e) (Envelope.EventID e) expected prev w with
            | (w', Err err) => (w', (r, Some (EWrap "backfill version" err)))
            | (w', Ok _) => rebuild_loop expected envs' (incr_backfilled r) w'
            end
          else if negb (equalHash expected (Envelope.Hash e)) then
            (w, (r, Some (EWrapPost (ESent ErrChainBroken)
               "stored hash differs from recompute")))
          else rebuild_loop expected envs' (incr_verified r) w
      end
  end.

Definition RebuildStreamChain (sid : StreamID.t) (w : W)
    : W * (RebuildResult * option err) :=
  match ReadStream sid 0 w with
  | (w', Err e) => (w', (mkRebuildResult 0 0, Some e))
  | (w', Ok envs) => rebuild_loop ZeroHash envs (mkRebuildResult 0 0) w'
  end.
End Store.

(** ** Meaning of the chain *)

(** Envelope [e] carries the hash recomputed from its content and [prev]. *)
Definition links (prev : bytes) (e : Envelope.t) : Prop :=
  ComputeChainHash prev (Some e) = Ok (Envelope.Hash e).

Fixpoint chain_ok (prev : bytes) (envs : list Envelope.t) : Prop :=
  match envs with
  | [] => True
  | e :: envs' => links prev e /\ chain_ok (Envelope.Hash e) envs'
  end.

Definition head_hash (prev : bytes) (envs : list Envelope.t) : bytes :=
  default prev (Envelope.Hash <$> last envs).

Lemma head_hash_cons prev e envs :
  head_hash prev (e :: envs) = head_hash (Envelope.Hash e) envs.
Proof. unfold head_hash. rewrite last_cons. by destruct (last envs). Qed.

Lemma head_hash_snoc prev envs e : head_hash prev (envs ++ [e]) = Envelope.Hash e.
Proof. unfold head_hash. by rewrite last_snoc. Qed.

Lemma chain_ok_app prev l1 l2 :
  chain_ok prev (l1 ++ l2) <-> chain_ok prev l1 /\ chain_ok (head_hash prev l1) l2.
Proof.
  revert prev; induction l1 as [|e l1 IH]; intros prev; simpl.
  - unfold head_hash; simpl. tauto.
  - rewrite IH, head_hash_cons. tauto.
Qed.

Lemma hash_diff_nonneg a b d : 0 <= d -> 0 <= hash_diff d a b.
Proof.
  revert b d; induction a as [|x a IH]; intros [|y b] d Hd; simpl; try done.
  apply IH. apply Z.lor_nonneg. split; [done|]. apply Z.lxor_nonneg.
  unfold Z_of_byte. split; lia.
Qed.

Lemma hash_diff_zero a b d :
  length a = length b -> hash_diff d a b = 0 <-> d = 0 /\ a = b.
Proof.
  revert b d; induction a as [|x a IH]; intros [|y b] d Hl; simpl; try done.
  - tauto.
  - injection Hl as Hl. rewrite (IH b) by done. rewrite Z.lor_eq_0_iff, Z.lxor_eq_0_iff.
    assert (Z_of_byte x = Z_of_byte y <-> x = y) as ->.
    { unfold Z_of_byte. split; [|by intros ->]. intros H.
      apply N2Z.inj in H.
      assert (Some x = Some y) as Heq.
      { rewrite <- (Byte.of_to_N x), <- (Byte.of_to_N y). by rewrite H. }
      by simplify_eq. }
    split; [intros [[-> ->] ->]; done|intros [-> [= -> ->]]; done].
Qed.

Lemma equalHash_true a b : equalHash a b = true <-> a = b.
Proof.
  unfold equalHash. destruct (Nat.eqb_spec (length a) (length b)) as [Hl|Hl]; simpl.
  - rewrite Z.eqb_eq, hash_diff_zero by done. tauto.
  - split; [done|]. by intros ->.
Qed.

Lemma verify_loop_ok prev envs : verify_loop prev envs = Ok tt <-> chain_ok prev envs.
Proof.
  revert prev; induction envs as [|e envs IH]; intros prev; simpl; [tauto|].
  unfold links. destruct (ComputeChainHash prev (Some e)) as [got|]; [|split; [intros [=]|intros [[=] _]]].
  destruct (equalHash got (Envelope.Hash e)) eqn:He; simpl.
  - apply equalHash_true in He as ->. rewrite IH. tauto.
  - split; [done|]. intros [[= ->] _].
    by rewrite (proj2 (equalHash_true _ _) eq_refl) in He.
Qed.

Lemma links_inv prev e :
  links prev e -> exists c, length prev = sha256_Size /\
    canonicalEnvelopeBytes e = Ok c /\ Envelope.Hash e = sha256 (prev ++ c).
Proof.
  unfold links, ComputeChainHash.
  destruct (Nat.eqb_spec (length prev) sha256_Size); simpl; [|done].
  destruct (canonicalEnvelopeBytes e) as [c|]; [|done]. intros [= H]. eauto.
Qed.

End Chain.
End Chain.

(** ** Tamper evidence *)
Section Tamper.
Context {P : ChainPrims} {L : ChainLaws P}.
Import Chain.

(** What verification digests: for every event the hash before it and its
    encoded content. *)
Definition hash_input (prev : bytes) (e : Envelope.t) : bytes :=
  prev ++ match canonicalEnvelopeBytes e with Ok c => c | Err _ => [] end.

Fixpoint hash_inputs (prev : bytes) (envs : list Envelope.t) : list bytes :=
  match envs with
  | [] => []
  | e :: envs' => hash_input prev e :: hash_inputs (Envelope.Hash e) envs'
  end.

(** What a forger has to find: two inputs with one digest, or an input that
    digests to 32 zero bytes. *)
Inductive Forgery := Collision (x y : bytes) | ZeroPreimage (x : bytes).

Definition genuine (f : Forgery) : Prop :=
  match f with
  | Collision x y => x <> y /\ sha256 x = sha256 y
  | ZeroPreimage x => sha256 x = ZeroHash
  end.

(** The last place where two lists of inputs differ, from their ends. *)
Fixpoint last_difference (r1 r2 : list bytes) : option Forgery :=
  match r1, r2 with
  | [], [] => None
  | x :: _, [] | [], x :: _ => Some (ZeroPreimage x)
  | x :: r1', y :: r2' => if decide (x = y) then last_difference r1' r2' else Some (Collision x y)
  end.

Definition forgery (envs1 envs2 : list Envelope.t) : option Forgery :=
  last_difference (reverse (hash_inputs ZeroHash envs1)) (reverse (hash_inputs ZeroHash envs2)).

Definition same_content (e1 e2 : Envelope.t) : Prop :=
  canonicalEnvelope e1 = canonicalEnvelope e2 /\ Envelope.Hash e1 = Envelope.Hash e2.

Lemma ZeroHash_length : length ZeroHash = sha256_Size.
Proof. apply length_replicate. Qed.

Lemma hash_inputs_snoc e envs : forall prev,
  reverse (hash_inputs prev (envs ++ [e])) = hash_input (head_hash prev envs) e :: reverse (hash_inputs prev envs).
Proof.
  induction envs as [|e0 envs IH]; intros prev; [done|]. cbn [app hash_inputs].
  rewrite !reverse_cons, IH, head_hash_cons. done.
Qed.

Lemma links_input prev e : links prev e -> Envelope.Hash e = sha256 (hash_input prev e).
Proof. intros (c & _ & Hc & Hh)%links_inv. unfold hash_input. by rewrite Hc. Qed.

(** Events that link from the same input have the same content. *)
Lemma hash_input_inj p1 p2 e1 e2 : links p1 e1 -> links p2 e2 -> hash_input p1 e1 = hash_input p2 e2 ->
  p1 = p2 /\ canonicalEnvelope e1 = canonicalEnvelope e2.
Proof.
  intros (c1 & Hn1 & Hc1 & _)%links_inv (c2 & Hn2 & Hc2 & _)%links_inv. unfold hash_input. rewrite Hc1, Hc2.
  intros [-> ->]%app_inj_1; [|congruence]. split; [done|]. by eapply pb_marshal_inj.
Qed.

Lemma chain_forgery envs1 envs2 :
  chain_ok ZeroHash envs1 -> chain_ok ZeroHash envs2 ->
  head_hash ZeroHash envs1 = head_hash ZeroHash envs2 ->
  match forgery envs1 envs2 with
  | None => Forall2 same_content envs1 envs2
  | Some f => genuine f
  end.
Proof.
  unfold forgery. revert envs2; induction envs1 as [|e1 envs1 IH] using rev_ind; intros envs2 H1 H2 Hh;
    destruct envs2 as [|e2 envs2 _] using rev_ind; [by constructor| | |];
    rewrite !hash_inputs_snoc; rewrite !head_hash_snoc in Hh; cbn [last_difference].
  - apply chain_ok_app in H2 as [_ [H2 _]]. simpl. by rewrite <- (links_input _ _ H2), <- Hh.
  - apply chain_ok_app in H1 as [_ [H1 _]]. simpl. by rewrite <- (links_input _ _ H1), Hh.
  - apply chain_ok_app in H1 as [H1 [Hl1 _]], H2 as [H2 [Hl2 _]]. case_decide as Heq.
    + apply hash_input_inj in Heq as [Hp Hc]; [|done..]. specialize (IH envs2 H1 H2 Hp).
      destruct (last_difference _ _); [done|]. apply Forall2_app; [done|]. by repeat constructor.
    + split; [done|]. by rewrite <- (links_input _ _ Hl1), <- (links_input _ _ Hl2).
Qed.
End Tamper.

(** ** Rebuilding a chain

    What RebuildStreamChain relies on: ReadStream returns the committed
    events of the stream, and BackfillEventHash fills the hash columns of the
    one event it names, if they are empty. *)

Definition with_hash (h p : bytes) (e : Envelope.t) : Envelope.t :=
  Envelope.mk (Envelope.EventID e) (Envelope.TenantID e) (Envelope.StreamID e)
    (Envelope.Version e) (Envelope.GlobalPosition e) (Envelope.TypeURL e)
    (Envelope.SchemaVersion e) (Envelope.OccurredAt e) (Envelope.RecordedAt e)
    (Envelope.CorrelationID e) (Envelope.CausationID e) (Envelope.CommandID e)
    (Envelope.Actor e) (Envelope.Payload e) (Envelope.PayloadJSON e)
    (Envelope.KeyRefs e) h p.

Definition fill_hash (tenant : string) (id : UUID) (h p : bytes) (e : Envelope.t) : Envelope.t :=
  if decide (Envelope.TenantID e = tenant /\ Envelope.EventID e = id /\ Envelope.Hash e = [])
  then with_hash h p e else e.

Class ChainStoreLaws (W : Type)
    (ReadStream : StreamID.t -> Z -> M W (list Envelope.t))
    (BackfillEventHash : string -> UUID -> bytes -> bytes -> M W unit)
    (ok : W -> Prop) (view : W -> StreamID.t -> list Envelope.t) := {
  cs_read : forall sid w w' envs, ok w -> ReadStream sid 0 w = (w', Ok envs) ->
    ok w' /\ envs = view w sid /\ view w' sid = view w sid;
  cs_backfill : forall t id h p sid w w', ok w -> length h = Chain.sha256_Size ->
    length p = Chain.sha256_Size ->
    BackfillEventHash t id h p w = (w', Ok tt) ->
    ok w' /\ view w' sid = fill_hash t id h p <$> view w sid;
  cs_ids : forall w sid, ok w -> NoDup (Envelope.EventID <$> view w sid)
}.

Section Rebuild.
Context {P : ChainPrims} {L : ChainLaws P}.
Import Chain.

Context {W : Type} {ReadStream : StreamID.t -> Z -> M W (list Envelope.t)}
  {BackfillEventHash : string -> UUID -> bytes -> bytes -> M W unit}
  {ok : W -> Prop} {view : W -> StreamID.t -> list Envelope.t}
  {CS : ChainStoreLaws W ReadStream BackfillEventHash ok view}.

Lemma fill_hash_other t id h p (l : list Envelope.t) :
  id ∉ Envelope.EventID <$> l -> fill_hash t id h p <$> l = l.
Proof.
  induction l as [|e l IH]; csimpl; intros Hni; [done|].
  apply not_elem_of_cons in Hni as [Hne Hni]. rewrite IH by done. f_equal.
  unfold fill_hash. rewrite decide_False; [done|]. intros (_ & He & _). congruence.
Qed.

Lemma ComputeChainHash_length prev e h :
  ComputeChainHash prev (Some e) = Ok h -> length h = sha256_Size.
Proof.
  unfold ComputeChainHash. destruct (negb _); [done|].
  destruct (canonicalEnvelopeBytes e); [|done]. intros [= <-]. apply sha256_length.
Qed.

Lemma ComputeChainHash_prev prev e h :
  ComputeChainHash prev (Some e) = Ok h -> length prev = sha256_Size.
Proof.
  unfold ComputeChainHash. by destruct (Nat.eqb_spec (length prev) sha256_Size).
Qed.

(** [e] after the pass: unchanged if it had a hash, else only the hash
    columns are filled in. *)
Definition backfilled (e e' : Envelope.t) : Prop :=
  (Envelope.Hash e <> [] /\ e' = e) \/
  (Envelope.Hash e = [] /\ exists h p, length h = sha256_Size /\ e' = with_hash h p e).

Lemma rebuild_loop_spec sid envs : forall prev r w w' r' pre,
  ok w -> view w sid = pre ++ envs ->
  chain_ok ZeroHash pre -> head_hash ZeroHash pre = prev ->
  rebuild_loop BackfillEventHash prev envs r w = (w', (r', None)) ->
  ok w' /\ chain_ok ZeroHash (view w' sid) /\
  (exists post, view w' sid = pre ++ post /\ Forall2 backfilled envs post) /\
  BackfilledCount r' + VerifiedCount r' =
    BackfilledCount r + VerifiedCount r + Z.of_nat (length envs).
Proof.
  induction envs as [|e envs IH]; intros prev r w w' r' pre Hok Hv Hc Hp; cbn [rebuild_loop].
  - intros [= <- <-]. rewrite Hv, app_nil_r. split; [done|]. split; [done|].
    split; [exists []; by rewrite app_nil_r|simpl; lia].
  - destruct (ComputeChainHash prev (Some e)) as [expected|] eqn:Hh; [|done].
    assert (Hsnoc : forall e', links prev e' -> chain_ok ZeroHash (pre ++ [e'])).
    { intros e' Hl. apply chain_ok_app. rewrite Hp. done. }
    pose proof (cs_ids w sid Hok) as Hnd. rewrite Hv, fmap_app in Hnd. csimpl in Hnd.
    apply NoDup_app in Hnd as (_ & Hdisj & [Hne _]%NoDup_cons).
    assert (Hpre : Envelope.EventID e ∉ Envelope.EventID <$> pre).
    { intros Hin. apply (Hdisj _ Hin). by left. }
    case_decide as Hemp.
    + destruct (BackfillEventHash _ _ _ _ w) as [w1 [[]|]] eqn:Hb; [|done].
      intros Hloop.
      destruct (cs_backfill _ _ _ _ sid _ _ Hok
        (ComputeChainHash_length _ _ _ Hh) (ComputeChainHash_prev _ _ _ Hh) Hb) as [Hok1 Hv1].
      rewrite Hv, fmap_app in Hv1. csimpl in Hv1.
      rewrite !fill_hash_other in Hv1 by done.
      unfold fill_hash in Hv1. rewrite decide_True in Hv1 by done.
      destruct (IH expected (incr_backfilled r) w1 w' r' (pre ++ [with_hash expected prev e]) Hok1)
        as (Hok' & Hc' & (post & Hv' & HF) & Hcnt).
      * by rewrite Hv1, <- app_assoc.
      * by apply Hsnoc.
      * by rewrite head_hash_snoc.
      * exact Hloop.
      * split; [done|]. split; [done|]. split.
        -- exists (with_hash expected prev e :: post).
           rewrite Hv', <- app_assoc. split; [done|]. constructor; [|done].
           right. split; [done|]. exists expected, prev. split; [|done].
           by eapply ComputeChainHash_length.
        -- rewrite Hcnt. unfold incr_backfilled; simpl. lia.
    + destruct (equalHash expected (Envelope.Hash e)) eqn:He; simpl; [|done].
      apply equalHash_true in He as ->. intros Hloop.
      destruct (IH (Envelope.Hash e) (incr_verified r) w w' r' (pre ++ [e]) Hok)
        as (Hok' & Hc' & (post & Hv' & HF) & Hcnt).
      * by rewrite Hv, <- app_assoc.
      * by apply Hsnoc.
      * by rewrite head_hash_snoc.
      * exact Hloop.
      * split; [done|]. split; [done|]. split.
        -- exists (e :: post). rewrite Hv', <- app_assoc. split; [done|].
           constructor; [|done]. by left.
        -- rewrite Hcnt. unfold incr_verified; simpl. lia.
Qed.

(** On a stream whose hashes are all in place the pass only verifies. *)
Lemma rebuild_loop_complete envs : forall prev r w,
  chain_ok prev envs -> Forall (fun e => Envelope.Hash e <> []) envs ->
  rebuild_loop BackfillEventHash prev envs r w =
    (w, (mkRebuildResult (BackfilledCount r) (VerifiedCount r + Z.of_nat (length envs)), None)).
Proof.
  induction envs as [|e envs IH]; intros prev r w; cbn [rebuild_loop chain_ok].
  - intros _ _. destruct r; simpl. by rewrite Z.add_0_r.
  - intros [Hl Hc] [Hne HF]%Forall_cons. unfold links in Hl. rewrite Hl.
    rewrite decide_False by done.
    rewrite (proj2 (equalHash_true _ _) eq_refl). simpl.
    rewrite IH by done. unfold incr_verified; simpl. do 3 f_equal. lia.
Qed.

Lemma backfilled_nonempty envs post :
  Forall2 backfilled envs post -> Forall (fun e => Envelope.Hash e <> []) post.
Proof.
  induction 1 as [|e e' envs post Hb _ IH]; constructor; [|done].
  destruct Hb as [[Hn ->]|(_ & h & p & Hl & ->)]; [done|].
  simpl. intros ->. done.
Qed.
End Rebuild.

(** C34: tamper evidence.  If two versions of a stream both verify and end in
    the same head hash (the value an auditor anchors), then they have the same
    length and the same hashed content event by event; or comparing what their
    verification digests, from the end, turns up two inputs with one digest or an
    input that digests to 32 zero bytes.  Reordering, dropping, inserting or
    editing events cannot keep the head hash without a break of SHA-256 that can
    be read off the two streams. *)
Theorem chain_tamper_evident (P : ChainPrims) (L : ChainLaws P)
    (envs1 envs2 : list Envelope.t) :
  Chain.verify_loop Chain.ZeroHash envs1 = Ok tt ->
  Chain.verify_loop Chain.ZeroHash envs2 = Ok tt ->
  Chain.head_hash Chain.ZeroHash envs1 = Chain.head_hash Chain.ZeroHash envs2 ->
  match forgery envs1 envs2 with
  | None => length envs1 = length envs2 /\ Forall2 same_content envs1 envs2
  | Some (Collision x y) => x <> y /\ sha256 x = sha256 y
  | Some (ZeroPreimage x) => sha256 x = Chain.ZeroHash
  end.
Proof.
  intros H1%Chain.verify_loop_ok H2%Chain.verify_loop_ok Hh.
  pose proof (chain_forgery envs1 envs2 H1 H2 Hh) as HF. destruct (forgery envs1 envs2) as [[]|]; [done|done|].
  split; [|done]. by eapply Forall2_length.
Qed.

(** C35: RebuildStreamChain completes a partly hashed chain.  On any store that
    keeps the contract [ChainStoreLaws], when the pass returns without error:
    the stream then verifies from the zero hash; no event is lost, reordered
    or edited except that empty hash columns are filled with 32-byte hashes
    (a stored hash is never overwritten); the two counters add up to the
    length of the stream; and a second pass finds nothing to backfill. *)
Theorem rebuild_completes_chain (P : ChainPrims) (L : ChainLaws P) W ReadStream
    BackfillEventHash ok view
    (CS : ChainStoreLaws W ReadStream BackfillEventHash ok view)
    sid w w' r :
  ok w ->
  Chain.RebuildStreamChain ReadStream BackfillEventHash sid w = (w', (r, None)) ->
  ok w' /\
  Chain.verify_loop Chain.ZeroHash (view w' sid) = Ok tt /\
  Forall2 backfilled (view w sid) (view w' sid) /\
  Chain.BackfilledCount r + Chain.VerifiedCount r = Z.of_nat (length (view w sid)) /\
  (forall w1 envs, ReadStream sid 0 w' = (w1, Ok envs) ->
     Chain.RebuildStreamChain ReadStream BackfillEventHash sid w' =
       (w1, (Chain.mkRebuildResult 0 (Z.of_nat (length (view w sid))), None))).
Proof.
  intros Hok. unfold Chain.RebuildStreamChain at 1.
  destruct (ReadStream sid 0 w) as [w1 [envs|]] eqn:Hr; [|done].
  destruct (cs_read sid w w1 envs Hok Hr) as (Hok1 & -> & Hv1). intros Hloop.
  destruct (rebuild_loop_spec sid (view w sid) Chain.ZeroHash (Chain.mkRebuildResult 0 0)
    w1 w' r [] Hok1 Hv1 I eq_refl Hloop) as (Hok' & Hc & (post & Hv' & HF) & Hcnt).
  simpl in Hv'. rewrite Hv' in Hc |- *.
  split; [done|]. split; [by apply Chain.verify_loop_ok|]. split; [done|].
  split; [done|]. intros w2 envs2 Hr2. unfold Chain.RebuildStreamChain. rewrite Hr2.
  destruct (cs_read sid w' w2 envs2 Hok' Hr2) as (_ & -> & _). rewrite Hv'.
  rewrite rebuild_loop_complete by eauto using backfilled_nonempty.
  by rewrite (Forall2_length _ _ _ HF).
Qed.

(** A concrete choice of the primitives: an injective encoding of the message
    and a polynomial checksum in the place of the digest. *)
Section Concrete.
Fixpoint pos_bytes (p : positive) : bytes :=
  match p with
  | xH => []
  | xO p' => Byte.x00 :: pos_bytes p'
  | xI p' => Byte.x01 :: pos_bytes p'
  end.

Fixpoint bytes_pos (b : bytes) : positive :=
  match b with
  | [] => xH
  | Byte.x00 :: b' => xO (bytes_pos b')
  | _ :: b' => xI (bytes_pos b')
  end.

Lemma bytes_pos_bytes p : bytes_pos (pos_bytes p) = p.
Proof. induction p as [p IH|p IH|]; simpl; [by rewrite IH..|done]. Qed.

Lemma pos_bytes_inj p q : pos_bytes p = pos_bytes q -> p = q.
Proof.
  revert q; induction p as [p IH|p IH|]; intros [q|q|]; simpl; intros H; simplify_eq; auto;
    by rewrite (IH q).
Qed.

(** A field: each byte behind a one, then a zero. *)
Fixpoint frame (b : bytes) : bytes :=
  match b with [] => [Byte.x00] | x :: b' => Byte.x01 :: x :: frame b' end.

Lemma frame_app_inj b1 b2 r1 r2 : frame b1 ++ r1 = frame b2 ++ r2 -> b1 = b2 /\ r1 = r2.
Proof.
  revert b2; induction b1 as [|x b1 IH]; intros [|y b2]; simpl; intros H.
  - by injection H as ->.
  - done.
  - done.
  - injection H as -> H. by apply IH in H as [-> ->].
Qed.

Lemma frames_inj l1 l2 :
  length l1 = length l2 -> flat_map frame l1 = flat_map frame l2 -> l1 = l2.
Proof.
  revert l2; induction l1 as [|x l1 IH]; intros [|y l2]; simpl; intros Hl H; try done.
  injection Hl as Hl. apply frame_app_inj in H as [-> H]. f_equal. auto.
Qed.

Definition Z_bytes (z : Z) : bytes := pos_bytes (encode z).
Definition pb_fields (p : pbEnvelope) : list bytes :=
  [bytes_of_str (pb_tenant_id p); bytes_of_str (pb_stream_id p);
   Z_bytes (pb_version p); bytes_of_str (pb_type_url p); Z_bytes (pb_schema_version p);
   Z_bytes (fst (pb_occurred_at p)); Z_bytes (snd (pb_occurred_at p));
   bytes_of_str (pb_correlation_id p); bytes_of_str (pb_causation_id p);
   bytes_of_str (pb_command_id p); Z_bytes (pba_kind (pb_actor p));
   bytes_of_str (pba_principal (pb_actor p)); bytes_of_str (pba_on_behalf_of (pb_actor p));
   bytes_of_str (pba_api_key_id (pb_actor p)); pos_bytes (encode (pba_attributes (pb_actor p)));
   pb_payload p; pb_encryption_key_refs p; bytes_of_str (pb_event_id p)].

Lemma bytes_of_str_inj a b : bytes_of_str a = bytes_of_str b -> a = b.
Proof. intros H. by rewrite <- (str_of_bytes_of_str a), <- (str_of_bytes_of_str b), H. Qed.

Lemma pb_fields_inj p q : pb_fields p = pb_fields q -> p = q.
Proof.
  destruct p as [? ? ? ? ? ? [] ? ? ? [] ? ?], q as [? ? ? ? ? ? [] ? ? ? [] ? ?].
  unfold pb_fields, Z_bytes; simpl. intros H. injection H; intros.
  repeat match goal with
  | H : pos_bytes _ = pos_bytes _ |- _ => apply pos_bytes_inj, (inj encode) in H
  | H : bytes_of_str _ = bytes_of_str _ |- _ => apply bytes_of_str_inj in H
  end. congruence.
Qed.

Definition concrete_prims : ChainPrims := {|
  sha256 := fun b => be_bytes 32
    (fold_left (fun acc x => Z.land (acc * 33 + Z_of_byte x + 1) 65535) b 0);
  uuid_string := fun z => str_of_bytes (be_bytes 16 z);
  pb_marshal := fun p => Ok (flat_map frame (pb_fields p))
|}.

Lemma concrete_laws : ChainLaws concrete_prims.
Proof.
  split.
  - intros b. apply be_bytes_length.
  - intros p q b Hp Hq. apply pb_fields_inj, frames_inj; [done|].
    assert (Hok : forall x y : bytes, Ok x = Ok y -> x = y) by congruence.
    apply Hok. change (@pb_marshal concrete_prims p = @pb_marshal concrete_prims q). congruence.
Qed.
End Concrete.

(** A one-event stream whose hash is the recomputed one. *)
Definition sample_event : Envelope.t :=
  let e := Envelope.mk 5 "acme" (StreamID.mk "acme" "order" "o-1") 1 1 "t" 1 0 0 5 5 5
             Actor.zero [Byte.x41] [] [] [] [] in
  match Chain.ComputeChainHash (P := concrete_prims) Chain.ZeroHash (Some e) with
  | Ok h => with_hash h Chain.ZeroHash e
  | Err _ => e
  end.

Lemma chain_tamper_evident_witness :
  length [sample_event] = length [sample_event] /\
  Forall2 (same_content (P := concrete_prims)) [sample_event] [sample_event].
Proof.
  pose proof (chain_tamper_evident concrete_prims concrete_laws [sample_event] [sample_event]) as H.
  replace (forgery (P := concrete_prims) [sample_event] [sample_event]) with (@None Forgery) in H
    by (vm_compute; reflexivity).
  apply H; vm_compute; reflexivity.
Defined.

(** The simplest store that keeps the contract: one list of events. *)
Definition list_read (sid : StreamID.t) (_ : Z) : M (list Envelope.t) (list Envelope.t) :=
  fun w => (w, Ok (filter (fun e => Envelope.StreamID e = sid) w)).
Definition list_backfill (t : string) (id : UUID) (h p : bytes) : M (list Envelope.t) unit :=
  fun w => (fill_hash t id h p <$> w, Ok tt).

Lemma fill_hash_same t id h p e :
  Envelope.StreamID (fill_hash t id h p e) = Envelope.StreamID e /\
  Envelope.EventID (fill_hash t id h p e) = Envelope.EventID e.
Proof. unfold fill_hash. by case_decide. Qed.

Lemma list_store_laws :
  ChainStoreLaws (list Envelope.t) list_read list_backfill
    (fun w => NoDup (Envelope.EventID <$> w))
    (fun w sid => filter (fun e => Envelope.StreamID e = sid) w).
Proof.
  split.
  - by intros sid w w' envs Hok [= <- <-].
  - intros t id h p sid w w' Hok _ _ [= <-]. split.
    + rewrite <- list_fmap_compose.
      rewrite (list_fmap_ext _ Envelope.EventID); [done|].
      intros i x _. apply fill_hash_same.
    + induction w as [|e w IH]; [done|]. csimpl. rewrite !filter_cons.
      csimpl in Hok. apply NoDup_cons in Hok as [_ Hok].
      rewrite (proj1 (fill_hash_same t id h p e)).
      case_decide; csimpl; by rewrite IH.
  - intros w sid Hok. eapply sublist_NoDup; [exact Hok|].
    apply fmap_sublist, sublist_filter.
Qed.

(** Two events of one stream written before the hash columns existed. *)
Definition unhashed_stream : list Envelope.t :=
  let mk id v := Envelope.mk id "acme" (StreamID.mk "acme" "order" "o-1") v v "t" 1 0 0 5 5 5
                   Actor.zero [Byte.x41] [] [] [] [] in
  [mk 5 1; mk 6 2].

Lemma rebuild_completes_chain_witness :
  let sid := StreamID.mk "acme" "order" "o-1" in
  exists w' r,
    Chain.RebuildStreamChain (P := concrete_prims) list_read list_backfill sid unhashed_stream
      = (w', (r, None)) /\
    Chain.BackfilledCount r = 2 /\
    Chain.verify_loop (P := concrete_prims) Chain.ZeroHash
      (filter (fun e => Envelope.StreamID e = sid) w') = Ok tt.
Proof.
  intros sid. do 2 eexists. split; [vm_compute; reflexivity|]. split; [reflexivity|].
  eapply (rebuild_completes_chain concrete_prims concrete_laws _ _ _ _ _ list_store_laws
    sid unhashed_stream).
  - apply (bool_decide_unpack _). vm_compute. exact I.
  - vm_compute; reflexivity.
Defined.
