(* ===== verification/Esctl.v ===== *)
(** * The operator's command line (cmd/esctl/commands/)

    Every subcommand of esctl as a program on a store and an output.  The layout
    of what is printed, the flag parser and the database drivers are left out:
    [Out] says what a line shows, and [write] which lines cannot be written.

    Without --yes a write command changes nothing; a read command never does; an
    audit line means that the action succeeded.  The export of a subject prints
    what RunSubjectExport of shred/dsar.go collects. *)
From stdpp Require Import pretty.
From S2P Require Import Prelude Errors Streams Events Store Chain Rebuild Projection Base64 Dsar.

Module Esctl.

(** *** connect.go *)

Record OutboxAdmin (W : Type) := mkOutboxAdmin {
  CountPending : string -> M W Z;
  CountFailing : string -> Z -> M W Z;
  CountDLQ : string -> Z -> M W Z;
  ListDLQ : string -> Z -> Z -> Z -> M W (list DLQRow);
  ReplayDLQ : string -> Z -> M W unit;
  AbandonDLQ : string -> Z -> M W unit;
  ReplayAllDLQ : string -> Z -> M W Z
}.
Record ProjectionAdmin (W : Type) := mkProjectionAdmin {
  List : M W (list ProjectionStatus);
  Reset : string -> string -> M W unit;
  ResetTo : string -> string -> Z -> M W unit
}.

(** The surface esctl needs of an adapter. *)
Record Store_ (W : Type) := mkStore_ {
  st_Store : Store W;
  st_Cache : StateCacheReader W;
  st_Wipe : StateCacheWriter W;
  st_Outbox : OutboxAdmin W;
  st_Proj : ProjectionAdmin W
}.
Arguments CountPending {_} _ _.
Arguments CountFailing {_} _ _ _.
Arguments CountDLQ {_} _ _ _.
Arguments ListDLQ {_} _ _ _ _ _.
Arguments ReplayDLQ {_} _ _ _.
Arguments AbandonDLQ {_} _ _ _.
Arguments ReplayAllDLQ {_} _ _ _.
Arguments List {_} _.
Arguments Reset {_} _ _ _.
Arguments ResetTo {_} _ _ _ _.
Arguments st_Store {_} _.
Arguments st_Cache {_} _.
Arguments st_Wipe {_} _.
Arguments st_Outbox {_} _.
Arguments st_Proj {_} _.

Definition trim_prefix (p s : string) : string := if String.prefix p s then str_drop (String.length p) s else s.

(** [scheme]: the Scheme of url.Parse. *)
Definition detectDriver (scheme : string -> res string) (dbURL : string) : res (string * string) :=
  if negb (str_contains "://" dbURL) then
    if bool_decide (dbURL = "") then Err (ENew "empty --db") else Ok ("sqlite", dbURL)
  else
    match scheme dbURL with
    | Err e => Err (EWrap "parse --db" e)
    | Ok sch =>
        if bool_decide (sch = "postgres") || bool_decide (sch = "postgresql") then Ok ("postgres", dbURL)
        else if bool_decide (sch = "sqlite") then Ok ("sqlite", trim_prefix "sqlite://" dbURL)
        else if bool_decide (sch = "file") then Ok ("sqlite", trim_prefix "file:" dbURL)
        else Err (ENew "unknown DB scheme")
    end.

(** *** stream.go: the version in an error text *)

(** [for i := len(s) - len(sub); i >= 0; i--] *)
Fixpoint lastIndexLoop (s sub : string) (i : nat) : option nat :=
  if String.prefix sub (str_drop i s) then Some i
  else match i with O => None | S i' => lastIndexLoop s sub i' end.

Definition lastIndex (s sub : string) : option nat :=
  if (String.length s <? String.length sub)%nat then None
  else lastIndexLoop s sub (String.length s - String.length sub).

Fixpoint parseUintLoop (n : Z) (s : string) : Z :=
  match s with
  | EmptyString => n
  | String c s' =>
      let d := Z.of_nat (nat_of_ascii c) - 48 in
      if (d <? 0) || (9 <? d) then n else parseUintLoop (u64 (u64 (n * 10) + d)) s'
  end.
Definition parseUint (s : string) : Z := parseUintLoop 0 s.

Definition extractBrokenVersion (msg : string) : Z :=
  match lastIndex msg "version " with
  | None => 0
  | Some i => parseUint (str_drop (i + String.length "version ") msg)
  end.

(** *** Output *)

(** A record of the export, as esctl fills it. *)
Definition export_record (env : Envelope.t) (payload : bytes) : Dsar.SubjectExportRecord :=
  Dsar.mkSubjectExportRecord (Envelope.EventID env) (Envelope.TenantID env)
    (StreamID.Canonical (Envelope.StreamID env)) (Envelope.TypeURL env) (Envelope.SchemaVersion env)
    (Envelope.Version env) (Envelope.GlobalPosition env) (Envelope.OccurredAt env) (Envelope.RecordedAt env)
    0 0 0 payload.

Inductive Out :=
  | OEnvelope (e : Envelope.t)
  | OStream (row : StateCacheRow)
  | OState (row : StateCacheRow)
  | OMore (after : string)
  | OVerify (stream : string) (count : Z) (ok : bool) (brokenAt : Z) (msg : string)
  | OCounts (pending failing dlq : Z)
  | ODLQ (rows : list DLQRow)
  | OProjections (rows : list ProjectionStatus)
  | ORecord (r : Dsar.SubjectExportRecord)
  | OSummary (records last : Z) (truncated : bool)
  | ODryRun (path : string) (args : list (string * string))
  | OOK (path : string) (n : Z)
  | OAudit (path tenant : string) (args : list (string * string)).

(** *** write.go *)

Definition arg_le (a b : string * string) : Prop := str_ltb (fst b) (fst a) = false.
#[global] Instance arg_le_dec a b : Decision (arg_le a b).
Proof. unfold arg_le. apply _. Defined.

(** The arguments in the order of their keys, each after a space. *)
Definition formatArgs (args : list (string * string)) : string :=
  foldr (fun kv s => " " +:+ fst kv +:+ "=" +:+ snd kv +:+ s) "" (merge_sort arg_le args).

Definition tenantOrAll (t : string) : string := if bool_decide (t = "") then "*" else t.

(** The flags of the root command, and --tenant of the subcommand. *)
Record Flags := mkFlags { f_yes : bool; f_tenant : string; f_root_tenant : string; f_json : bool }.
Definition requireTenant (f : Flags) : string := if bool_decide (f_tenant f = "") then f_root_tenant f else f_tenant f.
Definition confirmed (f : Flags) : bool := f_yes f.

Section Commands.
Context {W : Type} (connect : res (Store_ W)) (write : Out -> option err) (err_text : err -> string) (f : Flags).

Definition World : Type := W * list Out.

Definition on {A} (m : M W A) : M World A := fun w =>
  let '(s, r) := m (fst w) in ((s, snd w), r).
(** A line whose error is returned, and one whose error is dropped. *)
Definition render (o : Out) : M World unit := fun w =>
  match write o with Some e => (w, Err e) | None => ((fst w, snd w ++ [o]), Ok tt) end.
Definition print (o : Out) : M World unit := fun w => ((fst w, snd w ++ [o]), Ok tt).

Definition withStore {A} (fn : Store_ W -> M World A) : M World A :=
  match connect with Err e => fail e | Ok s => fn s end.

Definition needTenant {A} (what : string) (k : string -> M World A) : M World A :=
  let tenant := requireTenant f in
  if bool_decide (tenant = "") then fail (ENew ("--tenant is required for " +:+ what)) else k tenant.

Fixpoint each {A} (g : A -> M World unit) (l : list A) : M World unit :=
  match l with [] => mret tt | x :: l' => g x ≫= fun _ => each g l' end.

(** *** watch.go: the ticks until the context ends; [others] is what happens to
    the store between them. *)
Fixpoint Watch (others : list (W -> W)) (tick : M World unit) (w : World) : World * res unit :=
  match tick w with
  | (w1, Err e) => (w1, Err e)
  | (w1, Ok _) =>
      match others with
      | [] => (w1, Ok tt)
      | g :: others' => Watch others' tick (g (fst w1), snd w1)
      end
  end.

(** The hint after a full page: [rows[len(rows)-1]] has no element when the limit
    is 0 and nothing was found. *)
Definition moreHint (limit : Z) (rows : list StateCacheRow) : M World unit :=
  if negb (Z.of_nat (length rows) =? limit) then mret tt
  else match last rows with
       | Some row => print (OMore (sc_StreamID row))
       | None => fail (ENew "panic: runtime error: index out of range [-1]")
       end.

(** *** stream.go *)

Definition streamList (typ : string) (limit : Z) (after : string) : M World unit :=
  needTenant "stream list" (fun tenant =>
  withStore (fun s =>
  rows ← on (ListStates (st_Cache s) tenant typ after limit);
  each (fun row => render (OStream row)) rows ≫= fun _ => moreHint limit rows)).

(** One tick of [stream read] from a cursor, with the cursor after it.  The cursor
    is that of the last event that was printed, also when the tick fails. *)
Fixpoint showEnvs (pos : Envelope.t -> Z) (envs : list Envelope.t) (cursor : Z) (w : World) : World * (Z * res unit) :=
  match envs with
  | [] => (w, (cursor, Ok tt))
  | e :: envs' =>
      match render (OEnvelope e) w with
      | (w1, Err er) => (w1, (cursor, Err er))
      | (w1, Ok _) => showEnvs pos envs' (pos e) w1
      end
  end.

Definition tailTick (read : Z -> M W (list Envelope.t)) (pos : Envelope.t -> Z) (cursor : Z) (w : World) : World * (Z * res unit) :=
  match on (read cursor) w with
  | (w1, Err e) => (w1, (cursor, Err e))
  | (w1, Ok envs) => showEnvs pos envs cursor w1
  end.

(** Watch with the cursor that the ticks share. *)
Fixpoint tail (others : list (W -> W)) (read : Z -> M W (list Envelope.t)) (pos : Envelope.t -> Z) (cursor : Z) (w : World)
    : World * (Z * res unit) :=
  match tailTick read pos cursor w with
  | (w1, (c1, Err e)) => (w1, (c1, Err e))
  | (w1, (c1, Ok _)) =>
      match others with
      | [] => (w1, (c1, Ok tt))
      | g :: others' => tail others' read pos c1 (g (fst w1), snd w1)
      end
  end.

Definition tailFrom (others : list (W -> W)) (read : Z -> M W (list Envelope.t)) (pos : Envelope.t -> Z) (cursor : Z) : M World unit :=
  fun w => let '(w1, (_, r)) := tail others read pos cursor w in (w1, r).

Definition streamRead (stream : string) (from : Z) (watch : option (list (W -> W))) : M World unit :=
  needTenant "stream read" (fun tenant =>
  sid ← of_res (StreamID.ParseCanonical tenant stream);
  withStore (fun s => tailFrom (default [] watch) (ReadStream (st_Store s) sid) Envelope.Version from)).

Definition streamVerify {CP : ChainPrims} (stream : string) : M World unit :=
  needTenant "stream verify" (fun tenant =>
  sid ← of_res (StreamID.ParseCanonical tenant stream);
  withStore (fun s =>
  envs ← on (ReadStream (st_Store s) sid 0);
  v ← try (on (Chain.VerifyStreamChain (ReadStream (st_Store s)) sid));
  let n := Z.of_nat (length envs) in
  render (match v with
    | Ok _ => OVerify (StreamID.Canonical sid) n true 0 ""
    | Err e => OVerify (StreamID.Canonical sid) n false
                 (if errors_Is e ErrChainBroken then extractBrokenVersion (err_text e) else 0) (err_text e)
    end))).

(** *** event.go, events.go, state.go *)

(** [parseUUID]: uuid.Parse. *)
Definition eventGet (parseUUID : string -> res UUID) (eventID : string) : M World unit :=
  needTenant "event get" (fun tenant =>
  id ← of_res (parseUUID eventID);
  withStore (fun s => e ← on (GetEventByID (st_Store s) tenant id); render (OEnvelope e))).

(** Where the tail starts: at the head of the tenant's log unless told otherwise. *)
Definition tailStart (s : Store_ W) (tenant : string) (fromPosition : Z) (watch : option (list (W -> W))) (fromBeginning : bool)
    : M World Z :=
  if (fromPosition =? 0) && negb fromBeginning && bool_decide (is_Some watch) then
    envs ← on (ReadAllForTenant (st_Store s) tenant 0 (2 ^ 31 - 1));
    mret (default fromPosition (Envelope.GlobalPosition <$> last envs))
  else mret fromPosition.

Definition eventsTail (fromPosition limit : Z) (watch : option (list (W -> W))) (fromBeginning : bool) : M World unit :=
  needTenant "events tail" (fun tenant =>
  withStore (fun s =>
  cursor ← tailStart s tenant fromPosition watch fromBeginning;
  tailFrom (default [] watch) (fun c => ReadAllForTenant (st_Store s) tenant c limit) Envelope.GlobalPosition cursor)).

Definition stateGet (stream : string) : M World unit :=
  needTenant "state get" (fun tenant =>
  sid ← of_res (StreamID.ParseCanonical tenant stream);
  withStore (fun s => row ← on (GetState (st_Cache s) tenant (StreamID.Canonical sid)); render (OState row))).

(** [for row, err := range es.ScanAllStates(...)]: the loop leaves with an error. *)
Definition scanAll (fuel : nat) (ctxErr : M W (option err)) (s : Store_ W) (tenant typ : string) (page : Z) (w : World)
    : option (World * res unit) :=
  let lift {A} (m : M W A) : M (World * option err) A := fun x => let '(w1, r) := on m (fst x) in ((w1, snd x), r) in
  let reader := mkStateCacheReader (World * option err) (fun t i => lift (GetState (st_Cache s) t i))
    (fun t u a n => lift (ListStates (st_Cache s) t u a n)) in
  let body (row : StateCacheRow) (e : option err) : M (World * option err) bool := fun x =>
    match e with
    | Some e => ((fst x, Some e), Ok false)
    | None => match render (OState row) (fst x) with
              | (w1, Err e) => ((w1, Some e), Ok false)
              | (w1, Ok _) => ((w1, snd x), Ok true)
              end
    end in
  match ScanAllStates reader (lift ctxErr) body fuel tenant typ page (w, None) with
  | None => None
  | Some (w', Some e) => Some (w', Err e)
  | Some (w', None) => Some (w', Ok tt)
  end.

(** [scan]: scanAll when --all is given. *)
Definition stateList (scan : option (Store_ W -> string -> M World unit)) (typ : string) (limit : Z) (watch : option (list (W -> W)))
    : M World unit :=
  needTenant "state list" (fun tenant =>
  withStore (fun s =>
  Watch (default [] watch)
    (match scan with
     | Some all => all s tenant
     | None =>
         rows ← on (ListStates (st_Cache s) tenant typ "" limit);
         each (fun row => render (OState row)) rows ≫= fun _ => moreHint limit rows
     end))).

(** *** outbox.go *)

Definition outboxPending (maxAttempts : Z) (watch : option (list (W -> W))) : M World unit :=
  needTenant "outbox pending" (fun tenant =>
  withStore (fun s =>
  Watch (default [] watch)
    (pending ← on (CountPending (st_Outbox s) tenant);
     failing ← on (CountFailing (st_Outbox s) tenant (i32 maxAttempts));
     dlq ← on (CountDLQ (st_Outbox s) tenant (i32 maxAttempts));
     (if f_json f then render else print) (OCounts pending failing dlq)))).

Definition outboxDLQ (maxAttempts limit after : Z) : M World unit :=
  needTenant "outbox dlq" (fun tenant =>
  withStore (fun s =>
  rows ← on (ListDLQ (st_Outbox s) tenant (i32 maxAttempts) after limit);
  (if f_json f then render else print) (ODLQ rows))).

(** A write command: what is done when it is confirmed, and how it is reported. *)
Definition guarded (path : string) (args : list (string * string)) (auditTenant : string) (act : Store_ W -> M World Z) : M World unit :=
  if negb (confirmed f) then print (ODryRun path args)
  else withStore (fun s =>
    n ← act s;
    print (OOK path n) ≫= fun _ =>
    print (OAudit path (tenantOrAll auditTenant) args)).

Definition done_ {A} (m : M W A) : M World Z := on m ≫= fun _ => mret 1.

Definition outboxRetry (pos : Z) : M World unit :=
  needTenant "outbox retry" (fun tenant =>
  guarded "outbox retry" [("position", pretty pos)] tenant (fun s => done_ (ReplayDLQ (st_Outbox s) tenant pos))).

Definition outboxRetryAll (maxAttempts : Z) : M World unit :=
  needTenant "outbox retry-all" (fun tenant =>
  guarded "outbox retry-all" [("max-attempts", pretty (i32 maxAttempts))] tenant
    (fun s => on (ReplayAllDLQ (st_Outbox s) tenant (i32 maxAttempts)))).

Definition outboxAbandon (pos : Z) : M World unit :=
  needTenant "outbox abandon" (fun tenant =>
  guarded "outbox abandon" [("position", pretty pos)] tenant (fun s => done_ (AbandonDLQ (st_Outbox s) tenant pos))).

(** *** projection.go, state_cache.go *)

Definition projectionList : M World unit :=
  withStore (fun s => rows ← on (List (st_Proj s)); (if f_json f then render else print) (OProjections rows)).

(** The tenants of the checkpoints of one projection, reset one after the other. *)
Fixpoint resetAll (s : Store_ W) (name : string) (all : list ProjectionStatus) (n : Z) : M World Z :=
  match all with
  | [] => mret n
  | p :: all' =>
      if negb (bool_decide (ps_Name p = name)) then resetAll s name all' n
      else wrap_err "reset" (on (Reset (st_Proj s) name (ps_TenantID p))) ≫= fun _ => resetAll s name all' (n + 1)
  end.

Definition projectionReset (name : string) (allTenants : bool) : M World unit :=
  let tenant := requireTenant f in
  if negb allTenants && bool_decide (tenant = "") then fail (ENew "--tenant is required (or pass --all-tenants)")
  else
    guarded "projection reset" (("name", name) :: if allTenants then [("all-tenants", "true")] else [])
      (if allTenants then "*" else tenant)
      (fun s =>
         if allTenants then all ← on (List (st_Proj s)); resetAll s name all 0
         else done_ (Reset (st_Proj s) name tenant)).

Definition projectionResetTo (name : string) (pos : Z) : M World unit :=
  needTenant "projection reset-to" (fun tenant =>
  guarded "projection reset-to" [("name", name); ("position", pretty pos)] tenant
    (fun s => done_ (ResetTo (st_Proj s) name tenant pos))).

Definition stateCacheRebuild (typ : string) : M World unit :=
  needTenant "state-cache rebuild" (fun tenant =>
  guarded "state-cache rebuild" [("type", typ)] tenant (fun s => on (WipeStateCacheForType (st_Wipe s) tenant typ))).

(** *** subject.go *)

(** [wrap]: json.Marshal of the note and the payload in base64. *)
Definition rawInspect (wrap : bytes -> bytes) (match_ : string) (env : Envelope.t) (subject : string) : res (option bytes) :=
  if negb (bool_decide (match_ = "")) && negb (str_contains match_ (Envelope.TypeURL env)) then Ok None
  else Ok (Some (wrap (Envelope.Payload env))).

(** The page and how many lines were written; [true] when the limit stopped it. *)
Fixpoint exportPage (wrap : bytes -> bytes) (match_ subject : string) (maxRecords : Z) (envs : list Envelope.t) (written last : Z)
    : M World (bool * (Z * Z)) :=
  match envs with
  | [] => mret (false, (written, last))
  | env :: envs' =>
      let last := Envelope.GlobalPosition env in
      payload ← wrap_err "inspect" (of_res (rawInspect wrap match_ env subject));
      match payload with
      | None => exportPage wrap match_ subject maxRecords envs' written last
      | Some p =>
          wrap_err "encode record" (render (ORecord (export_record env p))) ≫= fun _ =>
          let written := written + 1 in
          if (0 <? maxRecords) && (maxRecords <=? written)
          then print (OSummary written last true) ≫= fun _ => mret (true, (written, last))
          else exportPage wrap match_ subject maxRecords envs' written last
      end
  end.

(** [None]: out of fuel. *)
Fixpoint exportLoop (fuel : nat) (ctxErr : M W (option err)) (s : Store_ W) (wrap : bytes -> bytes) (tenant match_ subject : string)
    (batch maxRecords cursor written last : Z) (w : World) : option (World * res unit) :=
  match fuel with
  | O => None
  | S fuel' =>
      match on ctxErr w with
      | (w1, Ok (Some e)) | (w1, Err e) => Some (w1, Err e)
      | (w1, Ok None) =>
          match on (ReadAllForTenant (st_Store s) tenant cursor batch) w1 with
          | (w2, Err e) => Some (w2, Err (EWrap "read" e))
          | (w2, Ok []) => Some (render (OSummary written last false) w2)
          | (w2, Ok envs) =>
              match exportPage wrap match_ subject maxRecords envs written last w2 with
              | (w3, Err e) => Some (w3, Err e)
              | (w3, Ok (true, _)) => Some (w3, Ok tt)
              | (w3, Ok (false, (written, last))) =>
                  if Z.of_nat (length envs) <? batch then Some (render (OSummary written last false) w3)
                  else exportLoop fuel' ctxErr s wrap tenant match_ subject batch maxRecords last written last w3
              end
          end
      end
  end.

(** [create]: os.Create of --output-file, None without an error. *)
Definition subjectExport (create : option err) (fuel : nat) (ctxErr : M W (option err)) (wrap : bytes -> bytes) (subject match_ : string)
    (fromPosition limit batchSize : Z) (w : World) : option (World * res unit) :=
  let tenant := requireTenant f in
  if bool_decide (tenant = "") then Some (w, Err (ENew "--tenant is required for subject export"))
  else if bool_decide (subject = "") then Some (w, Err (ENew "--subject is required"))
  else
    match create, connect with
    | Some e, _ => Some (w, Err (EWrap "open output" e))
    | None, Err e => Some (w, Err e)
    | None, Ok s =>
        exportLoop fuel ctxErr s wrap tenant match_ subject (if batchSize <=? 0 then 200 else batchSize) limit fromPosition 0 0 w
    end.
End Commands.
End Esctl.
