(* ===== verification/EsctlFacts.v ===== *)
(** * Facts about esctl

    Which commands change the store, what the tail and the export print, and the
    version that is read out of an error text. *)
From stdpp Require Import pretty.
From S2P Require Import Prelude Errors Streams Events Store Chain Rebuild Projection Base64 Dsar Esctl.
Import Esctl.

(** ** The version in an error text *)

Lemma str_drop_add n : forall a b, n = String.length a -> forall k, str_drop (n + k) (a +:+ b) = str_drop k b.
Proof.
  induction n as [|n IH]; intros [|c a] b H k; try done. simpl in *. apply (IH a b); lia.
Qed.

Lemma str_forall_drop P s : forall k, str_forall P s = true -> str_forall P (str_drop k s) = true.
Proof.
  induction s as [|c s IH]; intros [|k] H; try done. simpl in *. apply andb_true_iff in H as [_ H]. by apply IH.
Qed.

Lemma prefix_free c sub s : str_free c s = true -> String.prefix (String c sub) s = false.
Proof.
  destruct s as [|d s]; [done|]. unfold str_free. simpl. intros H. apply andb_true_iff in H as [H _].
  apply negb_true_iff, bool_decide_eq_false in H. destruct (ascii_dec c d); congruence.
Qed.

Lemma parse_pretty_go x : forall s, Z.of_N x < 2 ^ 64 -> parseUintLoop 0 (pretty_N_go x s) = parseUintLoop (Z.of_N x) s.
Proof.
  induction (N.lt_wf_0 x) as [x _ IH]. intros s Hx. destruct (decide (x = 0)%N) as [->|Hn]; [done|].
  rewrite pretty_N_go_step by lia. pose proof (N.mod_lt x 10 ltac:(lia)) as Hm. pose proof (N.div_mod x 10 ltac:(lia)) as Hd.
  assert (Hq : (x / 10 < x)%N) by (apply N.div_lt; lia).
  set (q := (x / 10)%N) in *. set (r := (x mod 10)%N) in *. clearbody q r. rewrite IH by (done || lia).
  cbn [parseUintLoop]. rewrite pretty_char, digit_range by done.
  rewrite (u64_small (Z.of_N q * 10)), u64_small by lia. f_equal. lia.
Qed.

Lemma parse_pretty n : 0 <= n < 2 ^ 64 -> parseUint (pretty (Z.to_N n)) = n.
Proof.
  intros Hn. unfold parseUint, pretty, pretty_N. case_decide as H0; [by assert (n = 0) as -> by lia|].
  rewrite parse_pretty_go by lia. simpl. lia.
Qed.

Lemma digits_free s : str_forall is_digit s = true -> str_free "v" s = true.
Proof.
  unfold str_free. induction s as [|c s IH]; [done|]. simpl. intros H. apply andb_true_iff in H as [Hc Hs].
  rewrite (IH Hs), andb_true_r. apply negb_true_iff, bool_decide_eq_false. intros ->. done.
Qed.

Lemma lastIndexLoop_found s sub i j : (i <= j)%nat -> String.prefix sub (str_drop i s) = true ->
  (forall k, (i < k <= j)%nat -> String.prefix sub (str_drop k s) = false) -> lastIndexLoop s sub j = Some i.
Proof.
  intros Hij Hi Hk. induction j as [|j IH]; cbn [lastIndexLoop].
  - assert (i = 0%nat) as -> by lia. by rewrite Hi.
  - destruct (decide (i = S j)) as [->|Hn]; [by rewrite Hi|]. rewrite Hk by lia. apply IH; [lia|]. intros k Hle. apply Hk. lia.
Qed.

(** [streamVerify] shows the version VerifyStreamChain put into its error,
    whatever the text before it. *)
Lemma broken_version_shown text n : 0 <= n < 2 ^ 64 ->
  extractBrokenVersion (text +:+ ("version " +:+ pretty (Z.to_N n))) = n.
Proof.
  intros Hn. unfold extractBrokenVersion, lastIndex. set (digits := pretty (Z.to_N n)).
  rewrite str_app_length, str_app_length. change (String.length "version ") with 8%nat.
  rewrite (proj2 (Nat.ltb_ge _ 8)) by lia.
  rewrite (lastIndexLoop_found _ _ (String.length text)).
  - rewrite (str_drop_add _ text _ eq_refl 8). change (str_drop 8 ("version " +:+ digits)) with digits. by apply parse_pretty.
  - lia.
  - replace (String.length text) with (String.length text + 0)%nat by lia. rewrite (str_drop_add _ text _ eq_refl). clearbody digits. destruct digits; reflexivity.
  - intros k Hk. replace k with (String.length text + (k - String.length text))%nat by lia.
    rewrite (str_drop_add _ text _ eq_refl). destruct (k - String.length text)%nat as [|m] eqn:Hm; [lia|].
    change (str_drop (S m) ("version " +:+ digits)) with (str_drop m ("ersion " +:+ digits)).
    apply (prefix_free "v" "ersion "). apply str_forall_drop. unfold str_free. rewrite str_forall_app.
    change (str_forall _ "ersion ") with true. apply digits_free, pretty_digits.
Qed.

(** ** What a command changes *)
Section Writes.
Context {W : Type} (connect : res (Store_ W)) (f : Flags).
Notation World := (Esctl.World (W := W)).

(** The commands that change the store. *)
Inductive write_command : M World unit -> Prop :=
  | wc_retry pos : write_command (outboxRetry connect f pos)
  | wc_retryAll m : write_command (outboxRetryAll connect f m)
  | wc_abandon pos : write_command (outboxAbandon connect f pos)
  | wc_reset name all : write_command (projectionReset connect f name all)
  | wc_resetTo name pos : write_command (projectionResetTo connect f name pos)
  | wc_rebuild typ : write_command (stateCacheRebuild connect f typ).

(** The lines that report a completed action. *)
Definition is_audit (o : Out) : bool := match o with OAudit _ _ _ => true | _ => false end.
Definition audits (outs : list Out) : list Out := List.filter is_audit outs.

(** An action prints nothing itself. *)
Definition quiet {A} (m : M World A) : Prop := forall w w' r, m w = (w', r) -> snd w' = snd w.

Lemma quiet_on {A} (m : M W A) : quiet (on m).
Proof. intros w w' r. unfold on. destruct (m (fst w)). by intros [= <- _]. Qed.

Lemma quiet_seq {A B} (m : M World A) (k : A -> M World B) : quiet m -> (forall a, quiet (k a)) -> quiet (m ≫= k).
Proof.
  intros Hm Hk w w' r. unfold mbind, M_bind. destruct (m w) as [w1 [a|e]] eqn:H1; apply Hm in H1.
  - intros H2%Hk. congruence.
  - by intros [= <- _].
Qed.

Lemma quiet_done {A} (m : M W A) : quiet (done_ m).
Proof. apply quiet_seq; [apply quiet_on|]. by intros a w w' r [= <- _]. Qed.

Lemma quiet_resetAll s name all : forall n, quiet (resetAll s name all n).
Proof.
  induction all as [|p all IH]; intros n; simpl; [by intros w w' r [= <- _]|].
  destruct (negb _); [apply IH|]. apply quiet_seq; [|intros _; apply IH]. intros w w' r. unfold wrap_err.
  destruct (on _ w) as [w1 [a|e]] eqn:H; apply quiet_on in H; by intros [= <- _].
Qed.

(** What a write command does: nothing and a DRY RUN line without --yes; with
    --yes the audit line is printed exactly when the action succeeded. *)
Definition well_guarded (m : M World unit) : Prop := forall w w' r, m w = (w', r) ->
  (confirmed f = false -> fst w' = fst w /\ audits (snd w') = audits (snd w) /\
     (r = Ok tt -> exists path args, snd w' = snd w ++ [ODryRun path args])) /\
  (forall e, r = Err e -> snd w' = snd w) /\
  (confirmed f = true -> r = Ok tt -> exists path tenant n args, snd w' = snd w ++ [OOK path n; OAudit path tenant args]).

Lemma audits_app a b : audits (a ++ b) = audits a ++ audits b.
Proof. apply List.filter_app. Qed.

Lemma failed_guarded e : well_guarded (fail e).
Proof. intros w w' r [= <- <-]. split; [|split; [done|done]]. done. Qed.

Lemma guarded_ok path args t act : (forall s, quiet (act s)) -> well_guarded (guarded connect f path args t act).
Proof.
  intros Hq w w' r. unfold guarded. destruct (confirmed f) eqn:Hc; simpl.
  - unfold withStore. destruct connect as [s|e]; [|intros [= <- <-]; done].
    unfold mbind, M_bind. destruct (act s w) as [w1 [n|e]] eqn:Ha; apply Hq in Ha.
    + intros [= <- <-]. split; [done|]. split; [done|]. intros _ _. exists path, (tenantOrAll t), n, args. simpl. by rewrite <- app_assoc, Ha.
    + intros [= <- <-]. split; [done|]. split; [|done]. congruence.
  - intros [= <- <-]. split; [|done]. intros _. split; [done|]. simpl. rewrite audits_app. split; [by rewrite app_nil_r|].
    intros _. by exists path, args.
Qed.

Lemma need_guarded what k : (forall t, well_guarded (k t)) -> well_guarded (needTenant f what k).
Proof. intros H. unfold needTenant. case_bool_decide; [apply failed_guarded|apply H]. Qed.

Lemma write_guarded m : write_command m -> well_guarded m.
Proof.
  destruct 1; try (apply need_guarded; intros t; apply guarded_ok; intros s; first [apply quiet_done|apply quiet_on]).
  unfold projectionReset. destruct (negb _ && _); [apply failed_guarded|]. apply guarded_ok. intros s.
  destruct all; [|apply quiet_done]. apply quiet_seq; [apply quiet_on|]. intros l. apply quiet_resetAll.
Qed.
End Writes.

(** ** Read commands *)
Section Reads.
Context {W : Type} (connect : res (Store_ W)) (write : Out -> option err) (err_text : err -> string) (f : Flags)
  {CP : ChainPrims} (R : W -> W -> Prop) {HR : PreOrder R}.
Notation World := (Esctl.World (W := W)).

(** A call that keeps the store, up to [R]. *)
Definition keeps {A} (m : M W A) : Prop := forall w w' r, m w = (w', r) -> R w w'.
Definition kept {A} (m : M World A) : Prop := forall w w' r, m w = (w', r) -> R (fst w) (fst w').

(** The readers of a store. *)
Record read_only (s : Store_ W) : Prop := mk_read_only {
  ro_stream : forall sid v, keeps (ReadStream (st_Store s) sid v);
  ro_all : forall t c n, keeps (ReadAllForTenant (st_Store s) t c n);
  ro_event : forall t id, keeps (GetEventByID (st_Store s) t id);
  ro_state : forall t i, keeps (GetState (st_Cache s) t i);
  ro_states : forall t u a n, keeps (ListStates (st_Cache s) t u a n);
  ro_pending : forall t, keeps (CountPending (st_Outbox s) t);
  ro_failing : forall t m, keeps (CountFailing (st_Outbox s) t m);
  ro_dlq : forall t m, keeps (CountDLQ (st_Outbox s) t m);
  ro_list : forall t m a n, keeps (ListDLQ (st_Outbox s) t m a n);
  ro_proj : keeps (List (st_Proj s))
}.

(** The commands that read; [others] is what happens between the ticks. *)
Inductive read_command (others : option (list (W -> W))) : M World unit -> Prop :=
  | rc_list typ n a : read_command others (streamList connect write f typ n a)
  | rc_read st v : read_command others (streamRead connect write f st v others)
  | rc_verify st : read_command others (streamVerify connect write err_text f st)
  | rc_event p id : read_command others (eventGet connect write f p id)
  | rc_tail c n b : read_command others (eventsTail connect write f c n others b)
  | rc_state st : read_command others (stateGet connect write f st)
  | rc_states typ n : read_command others (stateList connect write f None typ n others)
  | rc_pending m : read_command others (outboxPending connect write f m others)
  | rc_dlq m n a : read_command others (outboxDLQ connect write f m n a)
  | rc_proj : read_command others (projectionList connect write f).

Lemma kept_on {A} (m : M W A) : keeps m -> kept (on m).
Proof. intros H w w' r. unfold on. destruct (m (fst w)) eqn:Hm. intros [= <- _]. by eapply H. Qed.

Lemma kept_bind {A B} (m : M World A) (k : A -> M World B) : kept m -> (forall a, kept (k a)) -> kept (m ≫= k).
Proof.
  intros Hm Hk w w' r. unfold mbind, M_bind. destruct (m w) as [w1 [a|e]] eqn:H1; apply Hm in H1.
  - intros H2%Hk. by etransitivity.
  - by intros [= <- _].
Qed.

Lemma kept_ret {A} (a : A) : kept (mret a).
Proof. by intros w w' r [= <- _]. Qed.
Lemma kept_fail {A} e : kept (fail (A := A) e).
Proof. by intros w w' r [= <- _]. Qed.
Lemma kept_of_res {A} (x : res A) : kept (of_res x).
Proof. by intros w w' r [= <- _]. Qed.
Lemma kept_render o : kept (render write o).
Proof. intros w w' r. unfold render. destruct (write o); by intros [= <- _]. Qed.
Lemma kept_print o : kept (print (W := W) o).
Proof. by intros w w' r [= <- _]. Qed.
Lemma kept_try {A} (m : M World A) : kept m -> kept (try m).
Proof. intros H w w' r. unfold try. destruct (m w) eqn:Hm. intros [= <- _]. by eapply H. Qed.
Lemma kept_each {A} (g : A -> M World unit) l : (forall x, kept (g x)) -> kept (each g l).
Proof. intros H. induction l; simpl; [apply kept_ret|]. by apply kept_bind. Qed.
Lemma kept_hint n rows : kept (moreHint (W := W) n rows).
Proof. unfold moreHint. destruct (negb _); [apply kept_ret|]. destruct (list.last rows); [apply kept_print|apply kept_fail]. Qed.

Definition respectful (others : option (list (W -> W))) : Prop := Forall (fun g => forall w, R w (g w)) (default [] others).

Lemma kept_watch others tick : Forall (fun g => forall w, R w (g w)) others -> kept tick -> kept (Watch others tick).
Proof.
  intros Ho Ht. induction Ho as [|g others Hg _ IH]; intros w w' r; simpl;
    destruct (tick w) as [w1 [[]|e]] eqn:H1; apply Ht in H1; try (by intros [= <- _]).
  intros H2%IH. simpl in H2. transitivity (fst w1); [done|]. transitivity (g (fst w1)); [apply Hg|done].
Qed.

Lemma kept_show pos envs : forall c w w' x, showEnvs write pos envs c w = (w', x) -> R (fst w) (fst w').
Proof.
  induction envs as [|e envs IH]; intros c w w' x; simpl; [by intros [= <- _]|].
  destruct (render write (OEnvelope e) w) as [w1 [[]|er]] eqn:H1; apply kept_render in H1.
  - intros H2%IH. by etransitivity.
  - by intros [= <- _].
Qed.

Lemma kept_tail read pos : (forall c, keeps (read c)) -> forall others c, Forall (fun g => forall w, R w (g w)) others ->
  kept (tailFrom write others read pos c).
Proof.
  intros Hread others c Ho w w' r. unfold tailFrom. revert c w.
  assert (Htick : forall c w w1 x, tailTick write read pos c w = (w1, x) -> R (fst w) (fst w1)).
  { intros c w w1 x. unfold tailTick. destruct (on (read c) w) as [w2 [envs|e]] eqn:H1; apply kept_on in H1; [|done| |done].
    - intros H2%kept_show. by etransitivity.
    - by intros [= <- _]. }
  induction Ho as [|g others Hg _ IH]; intros c w; simpl; destruct (tailTick write read pos c w) as [w1 [c1 [[]|e]]] eqn:H1;
    apply Htick in H1; try (by intros [= <- _]).
  intros H2%IH. simpl in H2. transitivity (fst w1); [done|]. transitivity (g (fst w1)); [apply Hg|done].
Qed.

Lemma kept_store (k : Store_ W -> M World unit) : (forall s, connect = Ok s -> kept (k s)) -> kept (withStore (A := unit) connect k).
Proof. intros H. unfold withStore. destruct connect; [by apply H|apply kept_fail]. Qed.
Lemma kept_need what (k : string -> M World unit) : (forall t, kept (k t)) -> kept (needTenant f what k).
Proof. intros H. unfold needTenant. case_bool_decide; [apply kept_fail|apply H]. Qed.

Lemma kept_start s t c o b : read_only s -> kept (tailStart s t c o b).
Proof.
  intros Hs. unfold tailStart. destruct (_ && _); [|apply kept_ret].
  apply kept_bind; [apply kept_on, Hs|intros; apply kept_ret].
Qed.

Lemma kept_line (b : bool) o : kept ((if b then render write else print) o).
Proof. destruct b; [apply kept_render|apply kept_print]. Qed.

Lemma kept_verify s sid : read_only s -> keeps (Chain.VerifyStreamChain (ReadStream (st_Store s)) sid).
Proof.
  intros Hs w w' r. unfold Chain.VerifyStreamChain, mbind, M_bind.
  destruct (ReadStream (st_Store s) sid 0 w) as [w1 [envs|e]] eqn:H1; apply (ro_stream s Hs) in H1; by intros [= <- _].
Qed.

Lemma read_kept others m : (forall s, connect = Ok s -> read_only s) -> respectful others -> read_command others m -> kept m.
Proof.
  intros Hs Ho [typ n a|st v|st|p id|c n b|st|typ n|k|k n a|]; try (apply kept_need; intros t).
  - apply kept_store. intros s Hc. apply kept_bind; [apply kept_on, Hs, Hc|]. intros rows.
    apply kept_bind; [apply kept_each; intros; apply kept_render|intros; apply kept_hint].
  - apply kept_bind; [apply kept_of_res|]. intros sid. apply kept_store. intros s Hc. apply kept_tail; [intros; by apply Hs|done].
  - apply kept_bind; [apply kept_of_res|]. intros sid. apply kept_store. intros s Hc. apply kept_bind; [apply kept_on, Hs, Hc|].
    intros envs. apply kept_bind; [apply kept_try, kept_on, kept_verify, Hs, Hc|]. intros v. apply kept_render.
  - apply kept_bind; [apply kept_of_res|]. intros i. apply kept_store. intros s Hc. apply kept_bind; [apply kept_on, Hs, Hc|].
    intros e. apply kept_render.
  - apply kept_store. intros s Hc. apply kept_bind; [apply kept_start, Hs, Hc|]. intros c'. apply kept_tail; [intros; by apply Hs|done].
  - apply kept_bind; [apply kept_of_res|]. intros sid. apply kept_store. intros s Hc. apply kept_bind; [apply kept_on, Hs, Hc|].
    intros row. apply kept_render.
  - apply kept_store. intros s Hc. apply kept_watch; [done|]. apply kept_bind; [apply kept_on, Hs, Hc|]. intros rows.
    apply kept_bind; [apply kept_each; intros; apply kept_render|intros; apply kept_hint].
  - apply kept_store. intros s Hc. apply kept_watch; [done|]. do 3 (apply kept_bind; [apply kept_on, Hs, Hc|intros ?]). apply kept_line.
  - apply kept_store. intros s Hc. apply kept_bind; [apply kept_on, Hs, Hc|]. intros rows. apply kept_line.
  - apply kept_store. intros s Hc. apply kept_bind; [apply kept_on, Hs, Hc|]. intros rows. apply kept_line.
Qed.
End Reads.

(** Nothing is written by accident.  A read command leaves the store as it is but
    for what others do meanwhile, whatever it prints.  A write command without
    --yes changes nothing and reports no action; with --yes, a failing one
    reports nothing and a successful one ends with its audit line. *)
Theorem esctl_safe {W} {CP : ChainPrims} (connect : res (Store_ W)) write err_text (f : Flags) (R : W -> W -> Prop)
    (HR : PreOrder R) others :
  (forall s, connect = Ok s -> read_only R s) -> respectful R others ->
  (forall m, read_command connect write err_text f others m -> forall w w' r, m w = (w', r) -> R (fst w) (fst w')) /\
  (forall m, write_command connect f m -> forall w w' r, m w = (w', r) ->
     (confirmed f = false -> fst w' = fst w /\ audits (snd w') = audits (snd w)) /\
     (forall e, r = Err e -> snd w' = snd w) /\
     (confirmed f = true -> r = Ok tt -> exists path tenant n args, snd w' = snd w ++ [OOK path n; OAudit path tenant args])).
Proof.
  intros Hs Ho. split.
  - intros m Hm w w' r H. by eapply read_kept.
  - intros m Hm w w' r H. destruct (write_guarded connect f m Hm w w' r H) as (H1 & H2 & H3).
    split; [|done]. intros Hc. by destruct (H1 Hc) as (? & ? & _).
Qed.

(** ** What a tail prints *)
Section Tail.
Context {W : Type} (write : Out -> option err) (log : W -> list Envelope.t) (tenant : string) (limit : Z)
  (read : Z -> M W (list Envelope.t)).
Notation scope w := (filter (in_tenant tenant) (log w)).
Notation pending c w := (filter (fun e => c < Envelope.GlobalPosition e) (scope w)).

(** The log is in position order, read in pages, and others only append to it. *)
Context (Hsorted : forall w, log_sorted (log w))
  (Hread : forall c w w' x, read c w = (w', x) -> log w' = log w /\ (forall envs, x = Ok envs -> envs = page tenant c limit (log w))).

Lemma showEnvs_spec envs : forall c (w w' : Esctl.World (W := W)) c' r, showEnvs write Envelope.GlobalPosition envs c w = (w', (c', r)) ->
  fst w' = fst w /\ exists a b, envs = a ++ b /\ snd w' = snd w ++ (OEnvelope <$> a) /\
    c' = default c (Envelope.GlobalPosition <$> list.last a) /\ (r = Ok tt -> b = []).
Proof.
  induction envs as [|e envs IH]; intros c w w' c' r; simpl.
  - intros [= <- <- <-]. split; [done|]. exists [], []. simpl. rewrite app_nil_r. by split_and!.
  - unfold render. destruct (write (OEnvelope e)) as [er|].
    + intros [= <- <- <-]. split; [done|]. exists [], (e :: envs). simpl. rewrite app_nil_r. by split_and!.
    + intros (Hw & a & b & -> & Hs & -> & Hr)%IH. simpl in *. split; [done|]. exists (e :: a), b.
      rewrite Hs, <- app_assoc. split_and!; try done. rewrite last_cons. by destruct (list.last a).
Qed.

(** Others appended to the log. *)
Lemma pending_grows c w w' new : log w' = log w ++ new -> exists new', pending c w' = pending c w ++ new'.
Proof using. intros ->. rewrite !filter_app. by eexists. Qed.

Lemma tailTick_spec c (w w1 : Esctl.World (W := W)) c1 r : tailTick write read Envelope.GlobalPosition c w = (w1, (c1, r)) ->
  log (fst w1) = log (fst w) /\ exists a b, pending c (fst w1) = a ++ b /\ snd w1 = snd w ++ (OEnvelope <$> a) /\
    c1 = default c (Envelope.GlobalPosition <$> list.last a).
Proof using Hread.
  unfold tailTick, on. destruct (read c (fst w)) as [s1 [envs|e]] eqn:H1; apply Hread in H1 as [Hl He].
  - specialize (He envs eq_refl). intros (Hw & a & b & Hab & Hs & Hc & _)%showEnvs_spec. simpl in *. rewrite Hw, Hl. split; [done|].
    exists a, (b ++ drop (Z.to_nat limit) (pending c (fst w))). split; [|done]. rewrite app_assoc, <- Hab, He. unfold page. by rewrite take_drop.
  - intros [= <- <- <-]. simpl. split; [done|]. exists [], (pending c s1). simpl. rewrite app_nil_r. by split_and!.
Qed.

(** A tail prints every event after its start up to its cursor once, in order. *)
Lemma tail_spec others : forall c (w w' : Esctl.World (W := W)) c' r,
  Forall (fun g => forall w, exists new, log (g w) = log w ++ new) others ->
  tail write others read Envelope.GlobalPosition c w = (w', (c', r)) ->
  (exists new, log (fst w') = log (fst w) ++ new) /\
  exists shown rest, pending c (fst w') = shown ++ rest /\ snd w' = snd w ++ (OEnvelope <$> shown) /\
    c' = default c (Envelope.GlobalPosition <$> list.last shown).
Proof using Hsorted Hread.
  induction others as [|g others IH]; intros c w w' c' r Ho; simpl;
    destruct (tailTick write read Envelope.GlobalPosition c w) as [w1 [c1 [[]|e]]] eqn:H1;
    destruct (tailTick_spec _ _ _ _ _ H1) as (Hl & a & b & Hab & Hs & Hc);
    try (intros [= <- <- <-]; split; [exists []; by rewrite app_nil_r|by exists a, b]).
  intros H2. apply Forall_cons in Ho as [Hg Ho]. apply IH in H2 as ((n2 & Hn2) & sh & rest & Hp & Hs2 & Hc2); [|done]. simpl in *.
  destruct (Hg (fst w1)) as [n1 Hn1]. rewrite Hn1, Hl, <- app_assoc in Hn2. split; [by eexists|].
  rewrite <- Hl in Hn2. destruct (pending_grows c _ _ _ Hn2) as [n' Hn']. rewrite Hab, <- app_assoc in Hn'.
  exists (a ++ sh), rest. rewrite Hs2, Hs, fmap_app, !app_assoc. split_and!; [|done|].
  - rewrite Hn', <- app_assoc. f_equal. destruct a as [|x a]; [subst c1; simpl in *; congruence|].
    rewrite <- Hp. symmetry. subst c1. destruct (list.last (x :: a)) as [y|] eqn:Hy; [|by apply last_None in Hy].
    assert (Hs' : log_sorted (scope (fst w'))) by by apply StronglySorted_filter, Hsorted.
    pose proof (after_last _ c (x :: a) (b ++ n') Hs' Hn' ltac:(done)) as Hal. by rewrite Hy in Hal.
  - rewrite Hc2, Hc. rewrite last_app. destruct (list.last sh); [done|]. by destruct (list.last a).
Qed.
End Tail.

(** ** The export of a subject *)
Section ExportEq.
Context {W : Type} (write : Out -> option err) (Hwrite : forall o, write o = None) (wrap : bytes -> bytes)
  (match_ : string) (req : Dsar.SubjectExportRequest).
Notation World := (Esctl.World (W := W)).

Definition raw_inspector (env : Envelope.t) (subject : string) : M W (option bytes) := of_res (rawInspect wrap match_ env subject).

(** The line of a record: esctl leaves the ids of its causes out. *)
Definition line_of (r : Dsar.SubjectExportRecord) : Out :=
  ORecord (Dsar.mkSubjectExportRecord (Dsar.rc_EventID r) (Dsar.rc_TenantID r) (Dsar.rc_StreamID r) (Dsar.rc_TypeURL r)
    (Dsar.rc_SchemaVersion r) (Dsar.rc_Version r) (Dsar.rc_GlobalPosition r) (Dsar.rc_OccurredAt r) (Dsar.rc_RecordedAt r)
    0 0 0 (Dsar.rc_Payload r)).
Notation count l := (Z.of_nat (length l)).

Lemma exportPage_eq outs envs : forall records last w,
  exportPage write wrap match_ (Dsar.rq_Subject req) (Dsar.rq_MaxRecords req) envs (count records) last (w, outs ++ (line_of <$> records)) =
  match Dsar.inspectPage raw_inspector req envs records last w with
  | (w', Ok (Dsar.Continued rs l)) => ((w', outs ++ (line_of <$> rs)), Ok (false, (count rs, l)))
  | (w', Ok (Dsar.Stopped rs l)) => ((w', (outs ++ (line_of <$> rs)) ++ [OSummary (count rs) l true]), Ok (true, (count rs, l)))
  | (w', Err e) => ((w', outs), Err e)
  end.
Proof using Hwrite.
  induction envs as [|env envs IH]; intros records last w; [done|]. cbn [exportPage Dsar.inspectPage].
  unfold raw_inspector, rawInspect, mbind, M_bind, wrap_err, of_res.
  destruct (negb (bool_decide (match_ = "")) && _); [apply IH|]. unfold render. rewrite Hwrite. simpl.
  assert (Hline : (outs ++ (line_of <$> records)) ++ [ORecord (export_record env (wrap (Envelope.Payload env)))] =
    outs ++ (line_of <$> (records ++ [Dsar.record_of env (wrap (Envelope.Payload env))]))) by (rewrite fmap_app, app_assoc; done).
  assert (Hcount : count records + 1 = count (records ++ [Dsar.record_of env (wrap (Envelope.Payload env))])) by (rewrite length_app; simpl; lia).
  rewrite Hline, Hcount. destruct (_ && _); [done|apply IH].
Qed.

(** esctl writes what the framework's export returns, and then the summary. *)
Lemma exportLoop_eq ctxErr (s : Store_ W) outs fuel : forall cursor records last w,
  match Dsar.exportLoop ctxErr (ReadAllForTenant (st_Store s)) raw_inspector req fuel cursor records last w with
  | None => True
  | Some (w', x) =>
      exists lines r, exportLoop write fuel ctxErr s wrap (Dsar.rq_TenantID req) match_ (Dsar.rq_Subject req)
        (Dsar.batchSize req) (Dsar.rq_MaxRecords req) cursor (count records) last (w, outs ++ (line_of <$> records)) = Some ((w', lines), r) /\
      match x with
      | Ok res => r = Ok tt /\ lines = (outs ++ (line_of <$> Dsar.Records res)) ++
          [OSummary (count (Dsar.Records res)) (Dsar.LastPosition res) (Dsar.Truncated res)]
      | Err _ => exists e, r = Err e
      end
  end.
Proof using Hwrite.
  induction fuel as [|fuel IH]; intros cursor records last w; [done|]. cbn [Dsar.exportLoop exportLoop]. unfold on. cbn [fst snd].
  destruct (ctxErr w) as [w1 [[e|]|e]]; [do 2 eexists; split; [reflexivity|by eexists]| |do 2 eexists; split; [reflexivity|by eexists]].
  cbn [fst snd]. destruct (ReadAllForTenant _ _ cursor _ w1) as [w2 [[|env envs]|e]].
  - do 2 eexists. unfold render. rewrite Hwrite. split; [reflexivity|]. done.
  - rewrite exportPage_eq. destruct (Dsar.inspectPage raw_inspector req (env :: envs) records last w2) as [w3 [[rs l|rs l]|e]].
    + do 2 eexists. split; [reflexivity|]. done.
    + destruct (_ <? _); [|apply IH]. do 2 eexists. unfold render. rewrite Hwrite. split; [reflexivity|]. done.
    + do 2 eexists. split; [reflexivity|by eexists].
  - do 2 eexists. split; [reflexivity|by eexists].
Qed.
End ExportEq.

(** [esctl subject export] and the framework's export agree: whenever
    RunSubjectExport returns with the inspector that esctl uses, so does esctl, in
    the same state of the store; it has written one line per record, in order, and
    the summary; and it fails when RunSubjectExport fails. *)
Theorem subject_export_equiv {W} (s : Store_ W) write wrap (f : Flags) match_ subject from limit batch ctxErr fuel w outs :
  (forall o, write o = None) -> requireTenant f <> "" ->
  let req := Dsar.mkSubjectExportRequest (requireTenant f) subject from batch limit in
  match Dsar.RunSubjectExport ctxErr (ReadAllForTenant (st_Store s)) (Some (raw_inspector wrap match_)) req fuel w with
  | None => True
  | Some (w', x) =>
      exists lines r, subjectExport (Ok s) write f None fuel ctxErr wrap subject match_ from limit batch (w, outs) = Some ((w', lines), r) /\
      match x with
      | Ok res => r = Ok tt /\ lines = (outs ++ (line_of <$> Dsar.Records res)) ++
          [OSummary (Z.of_nat (length (Dsar.Records res))) (Dsar.LastPosition res) (Dsar.Truncated res)]
      | Err _ => exists e, r = Err e
      end
  end.
Proof.
  intros Hwrite Ht req. unfold Dsar.RunSubjectExport, Dsar.validate, subjectExport. cbn [Dsar.rq_TenantID Dsar.rq_Subject req].
  rewrite (bool_decide_eq_false_2 (requireTenant f = "")) by done.
  case_bool_decide as Hsub; [do 2 eexists; split; [reflexivity|by eexists]|].
  pose proof (exportLoop_eq write Hwrite wrap match_ req ctxErr s outs fuel from [] 0 w) as H.
  simpl in H. rewrite app_nil_r in H. exact H.
Qed.

(** With --limit 0, which the adapters take for their default page size, a listing
    that finds nothing panics: it looks for the last row of a full page. *)
Lemma limit_zero_panics {W} (s : Store_ W) write f typ after w outs :
  requireTenant f <> "" -> ListStates (st_Cache s) (requireTenant f) typ after 0 w = (w, Ok []) ->
  exists e, streamList (Ok s) write f typ 0 after (w, outs) = ((w, outs), Err e).
Proof.
  intros Ht Hl. unfold streamList, needTenant, withStore. rewrite bool_decide_eq_false_2 by done.
  unfold mbind, M_bind, on. cbn [fst snd]. rewrite Hl. by eexists.
Qed.

(** A reset for all tenants that fails half way has reset some, and leaves no audit
    line. *)
Lemma partial_reset_unaudited :
  let no {A} : M (list string) A := fail (ENew "no") in
  let proj := mkProjectionAdmin (list string)
    (mret [mkProjectionStatus "p" "a" 7 0; mkProjectionStatus "p" "b" 9 0])
    (fun name t w => if bool_decide (t = "a") then (w ++ [t], Ok tt) else (w, Err (ENew "timeout")))
    (fun _ _ _ => no) in
  let st := mkStore (list string) (fun _ => no) (fun _ _ => no) (fun _ _ => no) (fun _ _ _ => no) (fun _ => no) (fun _ _ => no) None None None in
  let s := mkStore_ (list string) st (mkStateCacheReader _ (fun _ _ => no) (fun _ _ _ _ => no)) (mkStateCacheWriter _ (fun _ _ => no))
    (mkOutboxAdmin _ (fun _ => no) (fun _ _ => no) (fun _ _ => no) (fun _ _ _ _ => no) (fun _ _ => no) (fun _ _ => no) (fun _ _ => no)) proj in
  projectionReset (Ok s) (mkFlags true "" "" false) "p" true ([], []) = ((["a"], []), Err (EWrap "reset" (ENew "timeout"))).
Proof. reflexivity. Qed.
