(* ===== verification/AwsKms.v ===== *)
(** * The AWS key store (adapters/kms/aws/aws.go)

    One AWS key per KEK version of a tenant; the alias of the tenant points at
    the newest.  Which key is which version is kept in the memory of the process
    only.  AWS KMS is a parameter: the client is a record of its calls over a
    world [W], and [AwsLaws] is what its API reference says of them.

    In one process the store is a key store as the Shredder needs it.  It does
    not survive a restart: the next process cannot unwrap anything before it has
    asked for the tenant's key, and after a rotation it never can unwrap what
    was wrapped before it. *)
From S2P Require Import Prelude Errors Streams Events Shred Chain.

(** The subset of awskms.Client the adapter calls.  [CreateKey] and
    [DescribeKey] return the KeyId of the response's KeyMetadata, [None] when it
    is nil; [IsNotFound] recognises AWS's NotFoundException. *)
Record kmsClient (W : Type) := mkKmsClient {
  Encrypt : string -> bytes -> M W bytes;
  Decrypt : bytes -> string -> M W bytes;
  CreateKey : string -> M W (option string);
  CreateAlias : string -> string -> M W unit;
  UpdateAlias : string -> string -> M W unit;
  DescribeKey : string -> M W (option string);
  IsNotFound : err -> bool
}.
Arguments Encrypt {_} _ _ _.
Arguments Decrypt {_} _ _ _.
Arguments CreateKey {_} _ _.
Arguments CreateAlias {_} _ _ _.
Arguments UpdateAlias {_} _ _ _.
Arguments DescribeKey {_} _ _.
Arguments IsNotFound {_} _ _.

Module Aws.

(** KeyStore without its mutex: one call at a time. *)
Record KeyStore (W : Type) := mkKeyStore {
  cli : kmsClient W;
  aliasPrefix : string;
  keyDescription : string
}.
Arguments mkKeyStore {_} _ _ _.
Arguments cli {_} _.
Arguments aliasPrefix {_} _.
Arguments keyDescription {_} _.

Definition New {W} (client : option (kmsClient W)) (prefix desc : string) : res (KeyStore W) :=
  match client with
  | None => Err (ENew "aws kms: Config.Client is required")
  | Some c =>
      Ok (mkKeyStore c (if bool_decide (prefix = "") then "eventstore" else prefix)
            (if bool_decide (desc = "") then "eventstore tenant KEK" else desc))
  end.

(** versions[tenantID] = [keyIdV1, keyIdV2, ...], and the world of the client. *)
Notation Versions := (gmap string (list string)).

Section Aws.
Context {W : Type} (k : KeyStore W).

Notation World := (Versions * W)%type.

Definition versions_of (m : Versions) (tenantID : string) : list string := default [] (m !! tenantID).

Definition on_aws {A} (m : M W A) : M World A := fun w =>
  let '(w', r) := m (snd w) in ((fst w, w'), r).

Definition read_versions (tenantID : string) : M World (list string) := fun w =>
  (w, Ok (versions_of (fst w) tenantID)).

Definition set_versions (tenantID : string) (l : list string) : M World unit := fun w =>
  ((<[tenantID := l]> (fst w), snd w), Ok tt).

Definition aliasName (tenantID : string) : string :=
  "alias/" +:+ aliasPrefix k +:+ "-" +:+ tenantID.

Definition describeKey (tenantID : string) : M World string :=
  out ← on_aws (DescribeKey (cli k) (aliasName tenantID));
  match out with
  | None => fail (ENew "aws kms: describe key returned empty KeyMetadata")
  | Some keyID => mret keyID
  end.

Definition CurrentKEKVersion (tenantID : string) : M World Z :=
  versions ← read_versions tenantID;
  match versions with
  | _ :: _ => mret (u32 (Z.of_nat (length versions)))
  | [] =>
      r ← try (describeKey tenantID);
      match r with
      | Err e =>
          if IsNotFound (cli k) e then mret 0 else fail (EWrap "aws kms: describe key for tenant" e)
      | Ok keyID => set_versions tenantID [keyID] ≫= fun _ => mret 1
      end
  end.

(** The KeyId of a CreateKey response, or the error of an empty one. *)
Definition createdKey (what : string) : M World string :=
  created ← wrap_err what (on_aws (CreateKey (cli k) (keyDescription k)));
  match created with
  | None => fail (ENew (what +:+ ": empty KeyId in response"))
  | Some keyID =>
      if bool_decide (keyID = "") then fail (ENew (what +:+ ": empty KeyId in response"))
      else mret keyID
  end.

Definition activeKey (tenantID : string) : M World (string * Z) :=
  versions ← read_versions tenantID;
  match last versions with
  | Some keyID => mret (keyID, u32 (Z.of_nat (length versions)))
  | None =>
      r ← try (describeKey tenantID);
      match r with
      | Ok keyID => set_versions tenantID [keyID] ≫= fun _ => mret (keyID, 1)
      | Err e =>
          if negb (IsNotFound (cli k) e) then fail (EWrap "aws kms: describe key for tenant" e)
          else
            keyID ← createdKey "aws kms: create key for tenant";
            wrap_err "aws kms: create alias for tenant"
              (on_aws (CreateAlias (cli k) (aliasName tenantID) keyID)) ≫= fun _ =>
            set_versions tenantID [keyID] ≫= fun _ => mret (keyID, 1)
      end
  end.

Definition WrapDEK (tenantID : string) (dek : bytes) : M World (bytes * Z) :=
  key ← activeKey tenantID;
  blob ← wrap_err "aws kms: encrypt for tenant" (on_aws (Encrypt (cli k) (fst key) dek));
  mret (blob, snd key).

(** [versions[kekVersion-1]] after the test of the length. *)
Definition UnwrapDEK (tenantID : string) (wrapped : bytes) (kekVersion : Z) : M World bytes :=
  if kekVersion =? 0 then fail (ENew "aws kms: kekVersion 0 is invalid for unwrap")
  else
    versions ← read_versions tenantID;
    if Z.of_nat (length versions) <? kekVersion
    then fail (ENew "aws kms: KEK version not available for tenant")
    else
      match versions !! Z.to_nat (kekVersion - 1) with
      | None => fail (ENew "panic: index out of range")
      | Some keyID =>
          wrap_err "aws kms: decrypt for tenant" (on_aws (Decrypt (cli k) wrapped keyID))
      end.

Definition RotateKEK (tenantID : string) : M World Z :=
  activeKey tenantID ≫= fun _ =>
  newKeyID ← createdKey "aws kms: create rotated key for tenant";
  wrap_err "aws kms: update alias for tenant"
    (on_aws (UpdateAlias (cli k) (aliasName tenantID) newKeyID)) ≫= fun _ =>
  versions ← read_versions tenantID;
  set_versions tenantID (versions ++ [newKeyID]) ≫= fun _ =>
  mret (u32 (Z.of_nat (length versions + 1))).

(** As the Shredder takes it. *)
Definition keyStore : Shred.KeyStore World := Shred.mkKeyStore World WrapDEK UnwrapDEK CurrentKEKVersion.
End Aws.
End Aws.

(** ** What AWS promises *)

Section Laws.
Context {W : Type} (keys : W -> gset string) (aliases : W -> gmap string string)
  (sealed : W -> string -> bytes -> bytes -> Prop).

(** Keys stay, and so does what was encrypted under them. *)
Definition aws_kept (w w' : W) : Prop :=
  keys w ⊆ keys w' /\ forall key b p, sealed w key b p -> sealed w' key b p.

(** [sealed w key b p]: [b] is a ciphertext of [p] under [key].  The key is part
    of the ciphertext; Decrypt with a KeyId that is not that of the ciphertext
    fails (IncorrectKeyException). *)
Class AwsLaws (c : kmsClient W) : Prop := {
  al_key : forall w k1 k2 b p1 p2, sealed w k1 b p1 -> sealed w k2 b p2 -> k1 = k2 /\ p1 = p2;
  al_encrypt : forall key p w w' r, Encrypt c key p w = (w', r) ->
    aws_kept w w' /\ aliases w' = aliases w /\ (forall b, r = Ok b -> sealed w' key b p);
  al_decrypt : forall b key w w' r, Decrypt c b key w = (w', r) ->
    aws_kept w w' /\ aliases w' = aliases w /\ (forall p, r = Ok p -> sealed w key b p);
  al_create : forall d w w' r, CreateKey c d w = (w', r) ->
    aws_kept w w' /\ aliases w' = aliases w /\
    (forall key, r = Ok (Some key) -> key ∉ keys w /\ key ∈ keys w');
  al_alias : forall a key w w' r, CreateAlias c a key w = (w', r) ->
    aws_kept w w' /\
    aliases w' = match r with Ok _ => <[a := key]> (aliases w) | Err _ => aliases w end /\
    (forall u, r = Ok u -> aliases w !! a = None);
  al_update : forall a key w w' r, UpdateAlias c a key w = (w', r) ->
    aws_kept w w' /\
    aliases w' = match r with Ok _ => <[a := key]> (aliases w) | Err _ => aliases w end;
  al_plain : IsNotFound c (ENew "aws kms: describe key returned empty KeyMetadata") = false;
  al_describe : forall a w w' r, DescribeKey c a w = (w', r) ->
    aws_kept w w' /\ aliases w' = aliases w /\
    match r with
    | Ok (Some key) => aliases w !! a = Some key
    | Ok None => True
    | Err e => IsNotFound c e = true -> aliases w !! a = None
    end
}.
End Laws.
Arguments al_key {_ _ _ _ _ _}.
Arguments al_encrypt {_ _ _ _ _ _}.
Arguments al_decrypt {_ _ _ _ _ _}.
Arguments al_create {_ _ _ _ _ _}.
Arguments al_alias {_ _ _ _ _ _}.
Arguments al_update {_ _ _ _ _ _}.
Arguments al_plain {_ _ _ _ _ _}.
Arguments al_describe {_ _ _ _ _ _}.

(** ** The calls of one process *)
Section Process.
Context {W : Type} {keys : W -> gset string} {aliases : W -> gmap string string}
  {sealed : W -> string -> bytes -> bytes -> Prop} (k : Aws.KeyStore W)
  {AL : AwsLaws keys aliases sealed (Aws.cli k)}.

Notation World := (Aws.Versions * W)%type.
Notation vers w t := (Aws.versions_of (fst w) t).
Notation kept := (aws_kept keys sealed).

Inductive aws_step : relation World :=
  | as_wrap t dek w w' r : Aws.WrapDEK k t dek w = (w', r) -> aws_step w w'
  | as_unwrap t b v w w' r : Aws.UnwrapDEK k t b v w = (w', r) -> aws_step w w'
  | as_current t w w' r : Aws.CurrentKEKVersion k t w = (w', r) -> aws_step w w'
  | as_rotate t w w' r : Aws.RotateKEK k t w = (w', r) -> aws_step w w'.

Lemma kept_refl w : kept w w.
Proof. by split. Qed.

Lemma kept_trans w1 w2 w3 : kept w1 w2 -> kept w2 w3 -> kept w1 w3.
Proof. intros [H1 H2] [H3 H4]. split; [set_solver|auto]. Qed.

Lemma vers_set (m : Aws.Versions) t l t' :
  Aws.versions_of (<[t := l]> m) t' = if bool_decide (t = t') then l else Aws.versions_of m t'.
Proof.
  unfold Aws.versions_of. case_bool_decide; [subst; by rewrite lookup_insert_eq|].
  by rewrite lookup_insert_ne.
Qed.

Lemma aliasName_inj t t' : Aws.aliasName k t = Aws.aliasName k t' -> t = t'.
Proof. unfold Aws.aliasName. intros H. by do 3 apply str_app_inj_r in H. Qed.

(** What a call for tenant [t] can do, in steps: talk to AWS, adopt the key the
    alias points at, create the first key, add a key. *)
Inductive tenant_step (t : string) : relation World :=
  | ts_talk m a a' : kept a a' -> aliases a' = aliases a -> tenant_step t (m, a) (m, a')
  | ts_found m a key :
      Aws.versions_of m t = [] -> aliases a !! Aws.aliasName k t = Some key ->
      tenant_step t (m, a) (<[t := [key]]> m, a)
  | ts_created m a a' key :
      Aws.versions_of m t = [] -> aliases a !! Aws.aliasName k t = None ->
      kept a a' -> aliases a' = <[Aws.aliasName k t := key]> (aliases a) -> key ∉ keys a ->
      tenant_step t (m, a) (<[t := [key]]> m, a')
  | ts_rotated m a a' key :
      Aws.versions_of m t <> [] -> kept a a' ->
      aliases a' = <[Aws.aliasName k t := key]> (aliases a) -> key ∉ keys a ->
      tenant_step t (m, a) (<[t := Aws.versions_of m t ++ [key]]> m, a').

Notation tenant_steps t := (rtc (tenant_step t)).

Lemma talk t m a a' : kept a a' -> aliases a' = aliases a -> tenant_steps t (m, a) (m, a').
Proof. intros. by apply rtc_once, ts_talk. Qed.

(** describeKey talks to AWS only. *)
Lemma describeKey_spec t m a w' r :
  Aws.describeKey k t (m, a) = (w', r) ->
  exists a', w' = (m, a') /\ kept a a' /\ aliases a' = aliases a /\
    match r with
    | Ok key => aliases a !! Aws.aliasName k t = Some key
    | Err e => IsNotFound (Aws.cli k) e = true -> aliases a !! Aws.aliasName k t = None
    end.
Proof.
  unfold Aws.describeKey, mbind, M_bind, Aws.on_aws. cbn [fst snd].
  destruct (DescribeKey (Aws.cli k) (Aws.aliasName k t) a) as [a' x] eqn:Hd.
  destruct (al_describe _ _ _ _ Hd) as (Hk & Ha & Hx).
  destruct x as [[key|]|e]; unfold mret, M_ret, fail; intros [= <- <-]; exists a'; split_and!; try done.
  by rewrite (al_plain).
Qed.

Lemma createdKey_spec what m a w' r :
  Aws.createdKey k what (m, a) = (w', r) ->
  exists a', w' = (m, a') /\ kept a a' /\ aliases a' = aliases a /\
    forall key, r = Ok key -> key ∉ keys a.
Proof.
  unfold Aws.createdKey, mbind, M_bind, wrap_err, Aws.on_aws. cbn [fst snd].
  destruct (CreateKey (Aws.cli k) (Aws.keyDescription k) a) as [a' x] eqn:Hd.
  destruct (al_create _ _ _ _ Hd) as (Hk & Ha & Hx).
  destruct x as [[key|]|e]; [case_bool_decide| |]; unfold mret, M_ret, fail; intros [= <- <-]; exists a';
    split_and!; try done.
  intros key' [= <-]. by apply Hx.
Qed.

Lemma activeKey_spec t m a w' r :
  Aws.activeKey k t (m, a) = (w', r) ->
  tenant_steps t (m, a) w' /\
  match r with
  | Ok (key, v) => last (Aws.versions_of (fst w') t) = Some key /\
      v = u32 (Z.of_nat (length (Aws.versions_of (fst w') t)))
  | Err _ => True
  end.
Proof.
  unfold Aws.activeKey, Aws.read_versions. unfold mbind at 1, M_bind at 1. cbn [fst snd].
  destruct (last (Aws.versions_of m t)) as [key|] eqn:Hl.
  { unfold mret, M_ret. intros [= <- <-]. cbn. split; [done|]. by split. }
  apply last_None in Hl. unfold mbind at 1, M_bind at 1, try.
  destruct (Aws.describeKey k t (m, a)) as [w1 x] eqn:Hd.
  apply describeKey_spec in Hd as (a1 & -> & Hk1 & Ha1 & Hx). destruct x as [key|e].
  - unfold Aws.set_versions, mbind, M_bind, mret, M_ret. cbn [fst snd]. intros [= <- <-]. cbn [fst].
    rewrite vers_set, bool_decide_eq_true_2 by done. split; [|done].
    eapply rtc_r; [by apply talk|]. apply ts_found; [done|by rewrite Ha1].
  - destruct (IsNotFound (Aws.cli k) e) eqn:Hnf; simpl;
      [|unfold fail; intros [= <- <-]; split; [by apply talk|done]].
    specialize (Hx eq_refl). unfold mbind at 1, M_bind at 1.
    destruct (Aws.createdKey k _ (m, a1)) as [w2 y] eqn:Hc.
    apply createdKey_spec in Hc as (a2 & -> & Hk2 & Ha2 & Hy).
    assert (H12 : kept a a2) by by eapply kept_trans.
    destruct y as [key|e2]; [|intros [= <- <-]; split; [|done]; apply talk; congruence].
    unfold mbind at 1, M_bind at 1, wrap_err, Aws.on_aws. cbn [fst snd].
    destruct (CreateAlias (Aws.cli k) (Aws.aliasName k t) key a2) as [a3 z] eqn:Hca.
    destruct (al_alias _ _ _ _ _ Hca) as (Hk3 & Ha3 & _). destruct z as [u|e3].
    + unfold Aws.set_versions, mbind, M_bind, mret, M_ret. cbn [fst snd]. intros [= <- <-]. cbn [fst].
      rewrite vers_set, bool_decide_eq_true_2 by done. split; [|done].
      eapply rtc_r; [by apply (talk t m a a1)|]. apply ts_created; [done|by rewrite Ha1| | |by apply Hy].
      * by eapply kept_trans.
      * by rewrite Ha3, Ha2.
    + intros [= <- <-]. split; [|done]. apply talk; [by eapply kept_trans|congruence].
Qed.

Lemma step_tenant w w' : aws_step w w' -> exists t, tenant_steps t w w'.
Proof.
  destruct 1 as [t dek [m a] w' r H|t b v [m a] w' r H|t [m a] w' r H|t [m a] w' r H]; exists t; revert H.
  - unfold Aws.WrapDEK, mbind, M_bind. destruct (Aws.activeKey k t (m, a)) as [[m1 a1] x] eqn:Ha.
    apply activeKey_spec in Ha as [Hs _]. destruct x as [[key v]|e]; [|by intros [= <- <-]].
    unfold wrap_err, Aws.on_aws. cbn [fst snd].
    destruct (Encrypt (Aws.cli k) key dek a1) as [a2 y] eqn:He.
    destruct (al_encrypt _ _ _ _ _ He) as (Hk & Hal & _).
    destruct y; intros [= <- <-]; (etrans; [exact Hs|by apply talk]).
  - unfold Aws.UnwrapDEK, fail. destruct (v =? 0); [by intros [= <- <-]|].
    unfold Aws.read_versions, mbind, M_bind. cbn [fst snd]. destruct (_ <? v); [by intros [= <- <-]|].
    destruct (_ !! _) as [key|]; [|by intros [= <- <-]]. unfold wrap_err, Aws.on_aws. cbn [fst snd].
    destruct (Decrypt (Aws.cli k) b key a) as [a2 y] eqn:He.
    destruct (al_decrypt _ _ _ _ _ He) as (Hk & Hal & _).
    destruct y; intros [= <- <-]; by apply talk.
  - unfold Aws.CurrentKEKVersion, Aws.read_versions. unfold mbind at 1, M_bind at 1. cbn [fst snd].
    destruct (Aws.versions_of m t) as [|x l] eqn:Hv; [|unfold mret, M_ret; by intros [= <- <-]].
    unfold mbind at 1, M_bind at 1, try.
    destruct (Aws.describeKey k t (m, a)) as [w1 x] eqn:Hd.
    apply describeKey_spec in Hd as (a1 & -> & Hk1 & Ha1 & Hx). destruct x as [key|e].
    + unfold Aws.set_versions, mbind, M_bind, mret, M_ret. cbn [fst snd]. intros [= <- <-].
      eapply rtc_r; [by apply talk|]. apply ts_found; [done|by rewrite Ha1].
    + destruct (IsNotFound (Aws.cli k) e); unfold mret, M_ret, fail; intros [= <- <-]; by apply talk.
  - unfold Aws.RotateKEK. unfold mbind at 1, M_bind at 1.
    destruct (Aws.activeKey k t (m, a)) as [[m1 a1] x] eqn:Ha.
    apply activeKey_spec in Ha as [Hs Hx]. destruct x as [[key v]|e]; [|by intros [= <- <-]].
    destruct Hx as [Hlast _]. cbn [fst] in Hlast. unfold mbind at 1, M_bind at 1.
    destruct (Aws.createdKey k _ (m1, a1)) as [w2 y] eqn:Hc.
    apply createdKey_spec in Hc as (a2 & -> & Hk2 & Ha2 & Hy).
    destruct y as [nk|e2]; [|intros [= <- <-]; etrans; [exact Hs|by apply talk]].
    unfold mbind at 1, M_bind at 1, wrap_err, Aws.on_aws. cbn [fst snd].
    destruct (UpdateAlias (Aws.cli k) (Aws.aliasName k t) nk a2) as [a3 z] eqn:Hca.
    destruct (al_update _ _ _ _ _ Hca) as (Hk3 & Ha3). destruct z as [u|e3].
    + unfold Aws.read_versions, Aws.set_versions, mbind, M_bind, mret, M_ret. cbn [fst snd].
      intros [= <- <-]. eapply rtc_r; [exact Hs|]. apply ts_rotated; [| | |by apply Hy].
      * intros E. by rewrite E in Hlast.
      * by eapply kept_trans.
      * by rewrite Ha3, Ha2.
    + intros [= <- <-]. etrans; [exact Hs|]. apply talk; [by eapply kept_trans|congruence].
Qed.

(** Versions are only added, and AWS forgets nothing. *)
Definition grown (w w' : World) : Prop :=
  kept (snd w) (snd w') /\
  forall t, Aws.versions_of (fst w) t `prefix_of` Aws.versions_of (fst w') t.

Lemma grown_trans w1 w2 w3 : grown w1 w2 -> grown w2 w3 -> grown w1 w3.
Proof. intros [H1 H2] [H3 H4]. split; [by eapply kept_trans|]. intros t. etrans; [apply H2|apply H4]. Qed.

Lemma tenant_step_grown t w w' : tenant_step t w w' -> grown w w'.
Proof.
  destruct 1 as [m a a' Hk Ha|m a key Hv Ha|m a a' key Hv Ha Hk Ha' Hf|m a a' key Hv Hk Ha' Hf];
    unfold grown; cbn [fst snd]; (split; [exact Hk || apply kept_refl|]); intros t'; rewrite ?vers_set; try done;
    case_bool_decide; subst; try done.
  - rewrite Hv. apply prefix_nil.
  - rewrite Hv. apply prefix_nil.
  - by apply prefix_app_r.
Qed.

Lemma tenant_steps_grown t w w' : tenant_steps t w w' -> grown w w'.
Proof.
  induction 1 as [w|w1 w2 w3 H _ IH]; [split; [apply kept_refl|done]|].
  eapply grown_trans; [by eapply tenant_step_grown|done].
Qed.

Lemma steps_grown w w' : rtc aws_step w w' -> grown w w'.
Proof.
  induction 1 as [w|w1 w2 w3 H _ IH]; [split; [apply kept_refl|done]|].
  apply step_tenant in H as [t H%tenant_steps_grown]. by eapply grown_trans.
Qed.

(** ** After a restart *)

(** [t]'s versions start with the key [kn] the alias pointed at when the process
    started, and all others are keys that did not exist then. *)
Definition restarted (t kn : string) (K : gset string) (w : World) : Prop :=
  K ⊆ keys (snd w) /\
  ((Aws.versions_of (fst w) t = [] /\ aliases (snd w) !! Aws.aliasName k t = Some kn) \/
   exists rest, Aws.versions_of (fst w) t = kn :: rest /\ forall key, key ∈ rest -> key ∉ K).

Lemma tenant_step_restarted t kn K t' w w' :
  restarted t kn K w -> tenant_step t' w w' -> restarted t kn K w'.
Proof.
  intros [HK Hv] Hs. pose proof (tenant_step_grown _ _ _ Hs) as [[HK' _] _].
  split; [set_solver|]. clear HK'.
  destruct Hs as [m a a' Hk Ha|m a key Hn Ha|m a a' key Hn Ha Hk Ha' Hf|m a a' key Hn Hk Ha' Hf]; cbn [fst snd] in *.
  - by rewrite Ha.
  - rewrite vers_set. case_bool_decide; [subst t'|done].
    destruct Hv as [[_ Hal]|(rest & E & _)]; [|by rewrite Hn in E]. right. exists [].
    rewrite Hal in Ha. injection Ha as ->. split; [done|]. by intros ? ?%not_elem_of_nil.
  - rewrite vers_set, Ha'. case_bool_decide.
    + subst t'. destruct Hv as [[_ Hal]|(rest & E & _)]; [by rewrite Hal in Ha|by rewrite Hn in E].
    + destruct Hv as [[H1 H2]|Hv]; [left|by right]. split; [done|]. rewrite lookup_insert_ne; [done|].
      by intros E%aliasName_inj.
  - rewrite vers_set, Ha'. case_bool_decide.
    + subst t'. destruct Hv as [[E _]|(rest & E & Hr)]; [done|]. right. exists (rest ++ [key]).
      rewrite E. split; [done|]. intros x [Hx|Hx%list_elem_of_singleton]%elem_of_app; [by apply Hr|].
      subst x. set_solver.
    + destruct Hv as [[H1 H2]|Hv]; [left|by right]. split; [done|]. rewrite lookup_insert_ne; [done|].
      by intros E%aliasName_inj.
Qed.

Lemma steps_restarted t kn K w w' : restarted t kn K w -> rtc aws_step w w' -> restarted t kn K w'.
Proof.
  intros Hr H. induction H as [w|w1 w2 w3 H _ IH]; [done|]. apply IH. clear IH.
  apply step_tenant in H as [t' H]. clear w3.
  induction H as [w|w1 w2' w2 H _ IH]; [done|]. apply IH. by eapply tenant_step_restarted.
Qed.

Lemma unwrap_Ok t b v w w' p :
  Aws.UnwrapDEK k t b v w = (w', Ok p) ->
  v <> 0 /\ exists key, Aws.versions_of (fst w) t !! Z.to_nat (v - 1) = Some key /\ sealed (snd w) key b p.
Proof.
  destruct w as [m a]. unfold Aws.UnwrapDEK, fail. destruct (Z.eqb_spec v 0); [done|].
  unfold Aws.read_versions, mbind, M_bind. cbn [fst snd]. destruct (_ <? v); [done|].
  destruct (_ !! _) as [key|] eqn:Hl; [|done]. unfold wrap_err, Aws.on_aws. cbn [fst snd].
  destruct (Decrypt (Aws.cli k) b key a) as [a2 y] eqn:He.
  destruct (al_decrypt _ _ _ _ _ He) as (_ & _ & Hy). destruct y as [p'|]; [|done]. intros [= <- <-].
  split; [done|]. eauto.
Qed.

(** A cold process unwraps nothing. *)
Lemma unwrap_cold t b v w :
  Aws.versions_of (fst w) t = [] -> 0 <= v -> exists e, Aws.UnwrapDEK k t b v w = (w, Err e).
Proof.
  intros Hv Hp. unfold Aws.UnwrapDEK, fail. destruct (Z.eqb_spec v 0); [by eexists|].
  unfold Aws.read_versions, mbind, M_bind. rewrite Hv. change (Z.of_nat (length [])) with 0.
  destruct (Z.ltb_spec 0 v); [by eexists|lia].
Qed.
End Process.

(** ** A concrete AWS, for the witnesses: ciphertexts carry their key in front. *)

Record Cloud := mkCloud { c_keys : gset string; c_aliases : gmap string string }.

Definition cloud_seal (key : string) (p : bytes) : bytes := frame (bytes_of_str key) ++ p.

Definition cloud : kmsClient Cloud := {|
  Encrypt := fun key p w => (w, Ok (cloud_seal key p));
  Decrypt := fun b key w =>
    let f := frame (bytes_of_str key) in
    (w, if bool_decide (take (length f) b = f) then Ok (drop (length f) b)
        else Err (ENew "IncorrectKeyException"));
  CreateKey := fun _ w =>
    let key := fresh (c_keys w) in (mkCloud ({[key]} ∪ c_keys w) (c_aliases w), Ok (Some key));
  CreateAlias := fun a key w =>
    match c_aliases w !! a with
    | None => (mkCloud (c_keys w) (<[a := key]> (c_aliases w)), Ok tt)
    | Some _ => (w, Err (ENew "AlreadyExistsException"))
    end;
  UpdateAlias := fun a key w => (mkCloud (c_keys w) (<[a := key]> (c_aliases w)), Ok tt);
  DescribeKey := fun a w =>
    (w, match c_aliases w !! a with
        | Some key => Ok (Some key)
        | None => Err (ENew "NotFoundException")
        end);
  IsNotFound := fun e => match e with ENew s => bool_decide (s = "NotFoundException") | _ => false end
|}.

Lemma cloud_laws : AwsLaws c_keys c_aliases (fun _ key b p => b = cloud_seal key p) cloud.
Proof.
  split.
  - intros w k1 k2 b p1 p2 -> E. apply frame_app_inj in E as [E ->]. split; [|done].
    by rewrite <- (str_of_bytes_of_str k1), <- (str_of_bytes_of_str k2), E.
  - intros key p w w' r [= <- <-]. split; [done|]. split; [done|]. by intros b [= <-].
  - intros b key w w' r [= <- <-]. split; [done|]. split; [done|]. case_bool_decide as E; [|done].
    intros p [= <-]. unfold cloud_seal. rewrite <- E at 1. by rewrite take_drop.
  - intros d w w' r [= <- <-]. split; [by split; [set_solver|]|]. split; [done|]. simpl.
    intros key [= <-]. split; [apply is_fresh|set_solver].
  - intros a key w w' r. simpl. destruct (c_aliases w !! a) eqn:E; intros [= <- <-]; by split_and!.
  - intros a key w w' r [= <- <-]. by split_and!.
  - done.
  - intros a w w' r [= <- <-]. split; [done|]. split; [done|]. by destruct (c_aliases w !! a).
Qed.

(** ** Theorems *)

(** In one process, what WrapDEK wrapped for a tenant is what UnwrapDEK gives
    back, whatever calls and rotations came between: it returns the DEK, unless
    the call of AWS fails. *)
Theorem aws_kms_roundtrip {W} keys aliases sealed (k : Aws.KeyStore W)
    (AL : AwsLaws keys aliases sealed (Aws.cli k)) t dek w w1 w2 w3 b v r :
  Aws.WrapDEK k t dek w = (w1, Ok (b, v)) ->
  Z.of_nat (length (Aws.versions_of (fst w1) t)) < 2 ^ 32 ->
  rtc (aws_step k) w1 w2 -> Aws.UnwrapDEK k t b v w2 = (w3, r) ->
  r = Ok dek \/ exists e, r = Err (EWrap "aws kms: decrypt for tenant" e).
Proof.
  destruct w as [m a]. unfold Aws.WrapDEK, mbind, M_bind.
  destruct (Aws.activeKey k t (m, a)) as [[m1 a1] x] eqn:Ha.
  apply (activeKey_spec k (AL := AL)) in Ha as [_ Hx]. destruct x as [[key v']|e]; [|done]. destruct Hx as [Hlast Hv].
  unfold wrap_err, Aws.on_aws. cbn [fst snd] in *.
  destruct (Encrypt (Aws.cli k) key dek a1) as [a2 y] eqn:He.
  destruct (al_encrypt _ _ _ _ _ He) as (_ & _ & Hy). destruct y as [b'|]; [|done].
  unfold mret, M_ret. intros [= <- <- <-] Hlen [[_ Hk] Hg]%(steps_grown k (AL := AL)) HU. cbn [fst snd] in *.
  specialize (Hg t). rewrite u32_small in Hv by lia.
  apply last_Some in Hlast as [pre Hpre]. rewrite Hpre in Hg, Hv. rewrite length_app in Hv. simpl in Hv.
  destruct w2 as [m2 a3]. cbn [fst snd] in *. destruct Hg as [post Hpost].
  assert (Hsealed : sealed a3 key b' dek) by by apply Hk, Hy.
  revert HU. unfold Aws.UnwrapDEK, fail. destruct (Z.eqb_spec v' 0); [lia|].
  unfold Aws.read_versions, mbind, M_bind. cbn [fst snd]. rewrite Hpost, !length_app. simpl.
  destruct (Z.ltb_spec (Z.of_nat (length pre + 1 + length post)) v'); [lia|].
  replace (Z.to_nat (v' - 1)) with (length pre) by lia.
  rewrite <- app_assoc. change ([key] ++ post) with (key :: post). rewrite list_lookup_middle by done.
  unfold wrap_err, Aws.on_aws. cbn [fst snd].
  destruct (Decrypt (Aws.cli k) b' key a3) as [a4 z] eqn:Hd.
  destruct (al_decrypt _ _ _ _ _ Hd) as (_ & _ & Hz). destruct z as [p|e]; intros [= <- <-]; [left|right; eauto].
  by destruct (al_key _ _ _ _ _ _ Hsealed (Hz p eq_refl)) as [_ ->].
Qed.

(** A restart after a rotation loses every key of the tenant.  The versions
    are in the memory of the process; the next process starts with the key the
    alias points at, as version 1.  Let the tenant have been rotated at least
    once before the restart.  Then no DEK that was wrapped under any of its
    versions can ever be unwrapped under the version that was recorded with it,
    whatever the new process does before: UnwrapDEK pins the wrong key, and AWS
    refuses it, although it still has the right one. *)
Theorem aws_kms_restart_loses_keys {W} keys aliases sealed (k : Aws.KeyStore W)
    (AL : AwsLaws keys aliases sealed (Aws.cli k)) t old kn (a : W) w w' b v key dek r :
  NoDup old -> (2 <= length old)%nat -> last old = Some kn -> (forall x, x ∈ old -> x ∈ keys a) ->
  aliases a !! Aws.aliasName k t = Some kn ->
  1 <= v -> old !! Z.to_nat (v - 1) = Some key -> sealed a key b dek ->
  rtc (aws_step k) (∅, a) w -> Aws.UnwrapDEK k t b v w = (w', r) ->
  exists e, r = Err e.
Proof.
  intros Hnd Hlen Hlast Hkeys Hal Hv Hkey Hs Hsteps HU. destruct r as [p|e]; [exfalso|by eexists].
  apply (unwrap_Ok k (AL := AL)) in HU as (_ & key' & Hk' & Hs').
  assert (Hr : restarted (keys := keys) (aliases := aliases) k t kn (keys a) (∅, a)).
  { split; [done|]. left. split; [|done]. unfold Aws.versions_of. simpl. by rewrite lookup_empty. }
  pose proof (steps_restarted k (AL := AL) _ _ _ _ _ Hr Hsteps) as [_ Hres].
  pose proof (steps_grown k (AL := AL) _ _ Hsteps) as [[_ Hkept] _]. cbn [fst snd] in *.
  destruct (al_key _ _ _ _ _ _ (Hkept _ _ _ Hs) Hs') as [<- _].
  destruct Hres as [[E _]|(rest & E & Hrest)]; rewrite E in Hk'; [done|].
  destruct (decide (v = 1)) as [->|Hv1].
  - simpl in Hk', Hkey. injection Hk' as ->.
    apply last_lookup in Hlast || rewrite last_lookup in Hlast.
    pose proof (NoDup_lookup old 0 (Nat.pred (length old)) key Hnd Hkey Hlast). lia.
  - apply (Hrest key); [|by apply Hkeys; eapply list_elem_of_lookup_2].
    replace (Z.to_nat (v - 1)) with (S (Z.to_nat (v - 2))) in Hk' by lia. simpl in Hk'.
    by eapply list_elem_of_lookup_2.
Qed.

(** The keys the concrete AWS creates first. *)
Definition key1 : string := fresh (∅ : gset string).
Definition key2 : string := fresh ({[key1]} ∪ ∅ : gset string).

(** A tenant with two keys; the alias points at the second. *)
Definition demo_aws : Aws.KeyStore Cloud := Aws.mkKeyStore cloud "eventstore" "eventstore tenant KEK".
Definition demo_cloud : Cloud :=
  let '(w1, _) := Aws.WrapDEK demo_aws "acme" [Byte.x01] (∅, mkCloud ∅ ∅) in
  let '(w2, _) := Aws.RotateKEK demo_aws "acme" w1 in snd w2.

(** The first process wrapped a DEK under version 1 and rotated; after a restart
    and a WrapDEK the DEK is refused. *)
Lemma aws_kms_restart_loses_keys_witness :
  let b := cloud_seal key1 [Byte.x01] in
  let w := fst (Aws.WrapDEK demo_aws "acme" [Byte.x02] (∅, demo_cloud)) in
  snd (Aws.WrapDEK demo_aws "acme" [Byte.x01] (∅, mkCloud ∅ ∅)) = Ok (b, 1) /\
  exists e, snd (Aws.UnwrapDEK demo_aws "acme" b 1 w) = Err e.
Proof.
  split; [vm_compute; reflexivity|].
  apply (aws_kms_restart_loses_keys _ _ _ demo_aws cloud_laws "acme"
    [key1; key2] key2 demo_cloud
    (fst (Aws.WrapDEK demo_aws "acme" [Byte.x02] (∅, demo_cloud)))
    (fst (Aws.UnwrapDEK demo_aws "acme" (cloud_seal key1 [Byte.x01]) 1
       (fst (Aws.WrapDEK demo_aws "acme" [Byte.x02] (∅, demo_cloud)))))
    (cloud_seal key1 [Byte.x01]) 1 key1 [Byte.x01]).
  - apply (bool_decide_unpack _). vm_compute. exact I.
  - vm_compute. repeat constructor.
  - reflexivity.
  - intros x Hx. assert (H : forallb (fun x => bool_decide (x ∈ c_keys demo_cloud))
      [key1; key2] = true)
      by (vm_compute; reflexivity).
    rewrite forallb_forall in H. apply (bool_decide_eq_true_1 _), H. by apply list_elem_of_In.
  - vm_compute. reflexivity.
  - lia.
  - reflexivity.
  - reflexivity.
  - apply rtc_once. eapply as_wrap. apply surjective_pairing.
  - apply surjective_pairing.
Defined.
