(* ===== verification/GoTime.v ===== *)
(** * Timestamps as text (adapters/storage/sqlite/convert.go)

    formatTime and parseTime, on a model of what they use of Go's [time]
    package: the UTC calendar, [Format] with RFC3339Nano, and [Parse] with the
    four layouts parseTime tries.  A [time.Time] is a number of nanoseconds
    since the Unix epoch; offsets are folded into it, as [.UTC()] does. *)
From S2P Require Import Prelude Errors Streams Events.

(** ** The proleptic Gregorian calendar *)
Module Civil.
Definition is_leap (y : Z) : bool :=
  (y mod 4 =? 0) && (negb (y mod 100 =? 0) || (y mod 400 =? 0)).

Definition days_in (m y : Z) : Z :=
  if m =? 2 then if is_leap y then 29 else 28
  else if (m =? 4) || (m =? 6) || (m =? 9) || (m =? 11) then 30 else 31.

(** Day [doe] of a 400-year era that starts on March 1st of year 0: the
    year of the era counted from March, the month and the day. *)
Definition of_doe (doe : Z) : Z * Z * Z :=
  let yoe := (doe - doe / 1460 + doe / 36524 - doe / 146096) / 365 in
  let doy := doe - (365 * yoe + yoe / 4 - yoe / 100) in
  let mp := (5 * doy + 2) / 153 in
  let d := doy - (153 * mp + 2) / 5 + 1 in
  let m := if mp <? 10 then mp + 3 else mp - 9 in
  (yoe, m, d).

Definition to_doe (yoe m d : Z) : Z :=
  let doy := (153 * (if m >? 2 then m - 3 else m + 9) + 2) / 5 + d - 1 in
  yoe * 365 + yoe / 4 - yoe / 100 + doy.

(** Days since 1970-01-01 to (year, month, day) and back. *)
Definition of_days (z : Z) : Z * Z * Z :=
  let z := z + 719468 in
  let '(yoe, m, d) := of_doe (z mod 146097) in
  (yoe + z / 146097 * 400 + (if m <=? 2 then 1 else 0), m, d).

Definition to_days (y m d : Z) : Z :=
  let y := y - (if m <=? 2 then 1 else 0) in
  y / 400 * 146097 + to_doe (y mod 400) m d - 719468.

Lemma of_doe_year doe :
  0 <= doe < 146097 ->
  let yoe := (doe - doe / 1460 + doe / 36524 - doe / 146096) / 365 in
  let doy := doe - (365 * yoe + yoe / 4 - yoe / 100) in
  0 <= yoe < 400 /\ 0 <= doy <= 365 /\ (doy = 365 -> is_leap (yoe + 1) = true).
Proof.
  intros H yoe doy.
  assert (0 <= yoe < 400 /\ 0 <= doy <= 365 /\
    (doy = 365 -> (yoe + 1) mod 4 = 0 /\ ((yoe + 1) mod 100 <> 0 \/ (yoe + 1) mod 400 = 0)))
    as (Hy & Hd & Hl).
  { subst doy yoe. Z.to_euclidean_division_equations. lia. }
  split; [done|]. split; [done|]. intros [H4 H100]%Hl. unfold is_leap.
  rewrite (proj2 (Z.eqb_eq _ _) H4). simpl.
  destruct (Z.eqb_spec ((yoe + 1) mod 100) 0), (Z.eqb_spec ((yoe + 1) mod 400) 0); simpl; lia.
Qed.

(** Days 0 .. 365 of a year that starts in March: the month and the day of
    the month, valid in a leap year on day 365 and in any year before. *)
Definition doy_ok (doy : Z) : bool :=
  let mp := (5 * doy + 2) / 153 in
  let d := doy - (153 * mp + 2) / 5 + 1 in
  let m := if mp <? 10 then mp + 3 else mp - 9 in
  (1 <=? m) && (m <=? 12) && (1 <=? d) &&
  (d <=? days_in m (if doy =? 365 then 4 else 3)) &&
  ((153 * (if m >? 2 then m - 3 else m + 9) + 2) / 5 + d - 1 =? doy) &&
  ((doy <? 365) || (m =? 2)).

Fixpoint all_below (n : nat) (z : Z) : bool :=
  match n with O => true | S n' => doy_ok z && all_below n' (z + 1) end.

Lemma all_below_spec n z x : all_below n z = true -> z <= x < z + Z.of_nat n -> doy_ok x = true.
Proof.
  revert z; induction n as [|n IH]; intros z; cbn [all_below]; [lia|].
  intros [Hz Hn]%andb_true_iff Hx. destruct (decide (x = z)) as [->|]; [done|].
  apply (IH (z + 1)); [done|lia].
Qed.

Lemma doy_ok_all doy : 0 <= doy <= 365 -> doy_ok doy = true.
Proof.
  intros H. apply (all_below_spec 366 0); [vm_compute; reflexivity|].
  change (Z.of_nat 366) with 366. lia.
Qed.

Lemma days_in_common m y : days_in m 3 <= days_in m y.
Proof. unfold days_in. destruct (m =? 2), (is_leap y); simpl; try lia; by case_match. Qed.

Lemma days_in_leap m y : is_leap y = true -> days_in m 4 = days_in m y.
Proof. unfold days_in. by intros ->. Qed.

Lemma of_doe_spec doe yoe m d :
  0 <= doe < 146097 -> of_doe doe = (yoe, m, d) ->
  0 <= yoe < 400 /\ 1 <= m <= 12 /\
  1 <= d <= days_in m (yoe + (if m <=? 2 then 1 else 0)) /\ to_doe yoe m d = doe.
Proof.
  intros Hdoe. destruct (of_doe_year doe Hdoe) as (Hy & Hd & Hl).
  unfold of_doe, to_doe.
  remember ((doe - doe / 1460 + doe / 36524 - doe / 146096) / 365) as y eqn:Ey.
  remember (doe - (365 * y + y / 4 - y / 100)) as doy eqn:Edoy.
  pose proof (doy_ok_all doy Hd) as Hok. unfold doy_ok in Hok.
  bool_to_prop. intros [= <- <- <-].
  split; [done|]. split; [lia|]. split; [|lia].
  split; [lia|]. etransitivity; [eassumption|].
  destruct (Z.eqb_spec doy 365) as [E|E]; [|apply days_in_common].
  match goal with H : _ || _ = true |- _ => apply orb_true_iff in H as [H|H]; bool_to_prop; [lia|] end.
  match goal with H : _ = 2 |- _ => rewrite H end. simpl Z.leb. cbn iota.
  by rewrite (days_in_leap 2 (y + 1) (Hl E)).
Qed.

Lemma is_leap_era y k : is_leap (y + k * 400) = is_leap y.
Proof.
  unfold is_leap. rewrite (Z.mod_add y k 400) by lia.
  replace (k * 400) with (k * 100 * 4) by lia. rewrite (Z.mod_add y _ 4) by lia.
  replace (k * 100 * 4) with (k * 4 * 100) by lia. by rewrite (Z.mod_add y _ 100) by lia.
Qed.

Lemma days_in_era m y k : days_in m (y + k * 400) = days_in m y.
Proof. unfold days_in. by rewrite is_leap_era. Qed.

Lemma of_days_spec z y m d :
  of_days z = (y, m, d) -> 1 <= m <= 12 /\ 1 <= d <= days_in m y /\ to_days y m d = z.
Proof.
  unfold of_days, to_days.
  destruct (of_doe ((z + 719468) mod 146097)) as [[yoe m'] d'] eqn:Hdoe.
  apply of_doe_spec in Hdoe as (Hy & Hm & Hd & Hdoe); [|apply Z.mod_pos_bound; lia].
  intros [= <- <- <-]. split; [lia|]. split.
  - rewrite <- (Z.add_comm (if m' <=? 2 then 1 else 0)).
    replace ((if m' <=? 2 then 1 else 0) + (yoe + (z + 719468) / 146097 * 400))
      with ((yoe + (if m' <=? 2 then 1 else 0)) + (z + 719468) / 146097 * 400) by lia.
    rewrite days_in_era. lia.
  - replace (yoe + (z + 719468) / 146097 * 400 + (if m' <=? 2 then 1 else 0) -
      (if m' <=? 2 then 1 else 0)) with (yoe + (z + 719468) / 146097 * 400) by lia.
    rewrite Z.div_add, Z.mod_add, (Z.div_small yoe), (Z.mod_small yoe) by lia.
    pose proof (Z.div_mod (z + 719468) 146097). lia.
Qed.
End Civil.

(** ** Format *)
Module GoTime.
Definition digit (d : Z) : ascii := ascii_of_nat (48 + Z.to_nat d).
Definition digit_val (c : ascii) : option Z :=
  let n := Z.of_nat (nat_of_ascii c) in
  if (48 <=? n) && (n <=? 57) then Some (n - 48) else None.

(** The decimal digits of [z], [n] of them, followed by [k]. *)
Fixpoint put (n : nat) (z : Z) (k : string) : string :=
  match n with
  | O => k
  | S n' => put n' (z / 10) (String (digit (z mod 10)) k)
  end.

Record clock := mkClock {
  year : Z; month : Z; day : Z; hour : Z; minute : Z; second : Z; nanos : Z
}.

Definition of_time (t : Time) : clock :=
  let secs := t / 1000000000 in
  let '(y, m, d) := Civil.of_days (secs / 86400) in
  let sod := secs mod 86400 in
  mkClock y m d (sod / 3600) (sod / 60 mod 60) (sod mod 60) (t mod 1000000000).

Definition to_time (c : clock) (offset : Z) : Time :=
  (Civil.to_days (year c) (month c) (day c) * 86400 +
   hour c * 3600 + minute c * 60 + second c - offset) * 1000000000 + nanos c.

(** ".999999999": the fraction without trailing zeros, nothing if zero. *)
Fixpoint put_frac (n : nat) (z : Z) (k : string) : string :=
  match n with
  | O => k
  | S n' => if z mod 10 =? 0 then put_frac n' (z / 10) k else put (S n') z k
  end.

Definition put_nanos (ns : Z) (k : string) : string :=
  if ns =? 0 then k else String "." (put_frac 9 ns k).

Definition put_clock (c : clock) (frac : string -> string) (k : string) : string :=
  put 4 (year c) (String "-" (put 2 (month c) (String "-" (put 2 (day c) (String "T"
    (put 2 (hour c) (String ":" (put 2 (minute c) (String ":" (put 2 (second c)
      (frac k))))))))))).

(** convert.go: [t.UTC().Format(time.RFC3339Nano)], for the years the layout
    can print. *)
Definition formatTime (t : Time) : string :=
  let c := of_time t in put_clock c (put_nanos (nanos c)) "Z".

(** SQLite's [strftime('%Y-%m-%dT%H:%M:%fZ', 'now')]: always three decimals. *)
Definition strftime_now (t : Time) : string :=
  let c := of_time t in
  put_clock c (fun k => String "." (put 3 (nanos c / 1000000) k)) "Z".

(** [t.UTC().Format("2006-01-02T15:04:05.999Z")]: milliseconds without trailing
    zeros. *)
Definition format_millis (t : Time) : string :=
  let c := of_time t in
  let ms := nanos c / 1000000 in
  put_clock c (fun k => if ms =? 0 then k else String "." (put_frac 3 ms k)) "Z".

Definition printable (t : Time) : bool :=
  (0 <=? year (of_time t)) && (year (of_time t) <=? 9999).

(** ** Parse

    A parser consumes a prefix of the value and returns the rest. *)

(** time.getnum: two digits, or one when [fixed] is false. *)
Definition getnum (fixed : bool) (s : string) : option (Z * string) :=
  match s with
  | String c s1 =>
      match digit_val c with
      | None => None
      | Some a =>
          match s1 with
          | String c2 s2 =>
              match digit_val c2 with
              | Some b => Some (a * 10 + b, s2)
              | None => if fixed then None else Some (a, s1)
              end
          | EmptyString => if fixed then None else Some (a, s1)
          end
      end
  | EmptyString => None
  end.

(** Four digits (stdLongYear). *)
Definition getyear (s : string) : option (Z * string) :=
  '(a, s1) ← getnum true s;
  '(b, s2) ← getnum true s1;
  Some (a * 100 + b, s2).

Definition lit (c : ascii) (s : string) : option string :=
  match s with
  | String d s' => if ascii_dec d c then Some s' else None
  | EmptyString => None
  end.

(** The digits of a fraction: at most nine count, more are skipped;
    parseNanoseconds scales to nanoseconds. [left] digits may still count. *)
Fixpoint get_frac (left : nat) (acc : Z) (s : string) : Z * string :=
  match s with
  | String c s' =>
      match digit_val c with
      | Some d =>
          match left with
          | S left' => get_frac left' (acc * 10 + d) s'
          | O => get_frac O acc s'
          end
      | None => (acc * 10 ^ Z.of_nat left, s)
      end
  | EmptyString => (acc * 10 ^ Z.of_nat left, s)
  end.

Definition commaOrPeriod (c : ascii) : bool :=
  bool_decide (c = "."%char) || bool_decide (c = ","%char).

(** A fraction is optional in all four layouts. *)
Definition getnanos (s : string) : Z * string :=
  match s with
  | String c ((String c1 _) as s1) =>
      if commaOrPeriod c then
        match digit_val c1 with Some _ => get_frac 9 0 s1 | None => (0, s) end
      else (0, s)
  | _ => (0, s)
  end.

(** The zone part of a layout: [Z07:00], a literal [Z], or nothing. *)
Inductive zone := ZoneISO | ZoneLiteralZ | ZoneNone.

Definition getoffset (s : string) : option (Z * string) :=
  match s with
  | String sg s0 =>
      if ascii_dec sg "Z" then Some (0, s0)
      else
        sign ← (if ascii_dec sg "+" then Some 1 else if ascii_dec sg "-" then Some (-1) else None);
        '(hh, s1) ← getnum true s0;
        s2 ← lit ":" s1;
        '(mm, s3) ← getnum true s2;
        if (24 <? hh) || (60 <? mm) then None
        else Some (sign * (hh * 3600 + mm * 60), s3)
  | EmptyString => None
  end.

Definition getzone (z : zone) (s : string) : option (Z * string) :=
  match z with
  | ZoneISO => getoffset s
  | ZoneLiteralZ => s' ← lit "Z" s; Some (0, s')
  | ZoneNone => Some (0, s)
  end.

(** time.Parse for the layouts YYYY-MM-DD<sep>hh:mm:ss[.frac]<zone>. *)
Definition Parse (sep : ascii) (z : zone) (s : string) : option Time :=
  '(y, s) ← getyear s;
  s ← lit "-" s;
  '(mo, s) ← getnum true s;
  if (mo <=? 0) || (12 <? mo) then None else
  s ← lit "-" s;
  '(d, s) ← getnum true s;
  s ← lit sep s;
  '(h, s) ← getnum false s;
  if 24 <=? h then None else
  s ← lit ":" s;
  '(mi, s) ← getnum true s;
  if 60 <=? mi then None else
  s ← lit ":" s;
  '(sec, s) ← getnum true s;
  if 60 <=? sec then None else
  let '(ns, s) := getnanos s in
  '(off, s) ← getzone z s;
  match s with
  | String _ _ => None
  | EmptyString =>
      if (d <? 1) || (Civil.days_in mo y <? d) then None
      else Some (to_time (mkClock y mo d h mi sec ns) off)
  end.

(** convert.go: parseTime.  RFC3339Nano and RFC3339 accept the same texts. *)
Definition parseTime (s : string) : res Time :=
  match Parse "T" ZoneISO s with
  | Some t => Ok t
  | None =>
      match Parse "T" ZoneISO s with
      | Some t => Ok t
      | None =>
          match Parse "T" ZoneLiteralZ s with
          | Some t => Ok t
          | None =>
              match Parse " " ZoneNone s with
              | Some t => Ok t
              | None => Err (ENew "sqlite: cannot parse timestamp")
              end
          end
      end
  end.

(** ** Round trip *)

Lemma digit_val_digit d : 0 <= d < 10 -> digit_val (digit d) = Some d.
Proof.
  intros H.
  assert (d = 0 \/ d = 1 \/ d = 2 \/ d = 3 \/ d = 4 \/ d = 5 \/ d = 6 \/ d = 7 \/ d = 8 \/ d = 9)
    as Hc by lia.
  by destruct_or! Hc; subst d.
Qed.

Lemma digit_val_mod z : digit_val (digit (z mod 10)) = Some (z mod 10).
Proof. apply digit_val_digit, Z.mod_pos_bound. lia. Qed.

#[local] Arguments digit : simpl never.
#[local] Arguments digit_val : simpl never.

Lemma getnum_put2 f z k : 0 <= z < 100 -> getnum f (put 2 z k) = Some (z, k).
Proof.
  intros H. cbn [put getnum]. rewrite !digit_val_mod.
  do 2 f_equal. Z.to_euclidean_division_equations. lia.
Qed.

Lemma getyear_put4 z k : 0 <= z <= 9999 -> getyear (put 4 z k) = Some (z, k).
Proof.
  intros H. unfold getyear. cbn [put getnum]. rewrite !digit_val_mod.
  cbn [mbind option_bind getnum]. rewrite !digit_val_mod. cbn [mbind option_bind].
  do 2 f_equal. Z.to_euclidean_division_equations. lia.
Qed.

Lemma lit_eq c k : lit c (String c k) = Some k.
Proof. simpl. by destruct (ascii_dec c c). Qed.

Definition no_digit (k : string) : Prop :=
  match k with String c _ => digit_val c = None | EmptyString => True end.

Lemma get_frac_end n acc k : no_digit k -> get_frac n acc k = (acc * 10 ^ Z.of_nat n, k).
Proof. destruct k as [|c k]; simpl; [done|]. by intros ->. Qed.

Lemma get_frac_put n : forall left acc z k,
  0 <= z < 10 ^ Z.of_nat n ->
  get_frac (n + left) acc (put n z k) = get_frac left (acc * 10 ^ Z.of_nat n + z) k.
Proof.
  induction n as [|n IH]; intros left acc z k Hz.
  - simpl. f_equal. simpl in Hz. lia.
  - rewrite Nat2Z.inj_succ, Z.pow_succ_r in Hz |- * by lia.
    cbn [put]. replace (S n + left)%nat with (n + S left)%nat by lia.
    rewrite IH.
    + cbn [get_frac]. rewrite digit_val_mod. f_equal.
      pose proof (Z.div_mod z 10). lia.
    + split; [apply Z.div_pos; lia|]. apply Z.div_lt_upper_bound; lia.
Qed.

Lemma get_frac_put_frac n : forall left z k,
  0 < z < 10 ^ Z.of_nat n -> no_digit k ->
  get_frac (n + left) 0 (put_frac n z k) = (z * 10 ^ Z.of_nat left, k).
Proof.
  induction n as [|n IH]; intros left z k Hz Hk; [simpl in Hz; lia|].
  cbn [put_frac]. destruct (Z.eqb_spec (z mod 10) 0) as [E|E].
  - rewrite Nat2Z.inj_succ, Z.pow_succ_r in Hz by lia.
    pose proof (Z.div_mod z 10 ltac:(lia)) as Hdm.
    replace (S n + left)%nat with (n + S left)%nat by lia. rewrite IH; [|nia|done].
    rewrite Nat2Z.inj_succ, Z.pow_succ_r by lia. f_equal. rewrite Hdm at 2. nia.
  - rewrite get_frac_put by lia. rewrite get_frac_end by done. done.
Qed.

(** A nonzero fraction starts with a digit. *)
Lemma put_digit n z k : exists d k', put (S n) z k = String (digit d) k' /\ digit_val (digit d) = Some d.
Proof.
  revert z k; induction n as [|n IH]; intros z k.
  - cbn [put]. exists (z mod 10), k. by rewrite digit_val_mod.
  - cbn [put]. apply IH.
Qed.

Lemma put_frac_digit n z k : 0 < z < 10 ^ Z.of_nat n ->
  exists d k', put_frac n z k = String (digit d) k' /\ digit_val (digit d) = Some d.
Proof.
  revert z; induction n as [|n IH]; intros z Hz; [simpl in Hz; lia|].
  cbn [put_frac]. destruct (Z.eqb_spec (z mod 10) 0) as [E|E]; [|apply put_digit].
  rewrite Nat2Z.inj_succ, Z.pow_succ_r in Hz by lia.
  pose proof (Z.div_mod z 10 ltac:(lia)). apply IH. lia.
Qed.

Lemma getnanos_put ns k :
  0 <= ns < 1000000000 -> no_digit k -> (forall c k', k = String c k' -> commaOrPeriod c = false) ->
  getnanos (put_nanos ns k) = (ns, k).
Proof.
  intros Hns Hk Hc. unfold put_nanos. destruct (Z.eqb_spec ns 0) as [->|Hne].
  - unfold getnanos. destruct k as [|c [|c1 k]]; [done|done|]. by rewrite (Hc _ _ eq_refl).
  - destruct (put_frac_digit 9 ns k ltac:(lia)) as (d & k' & Heq & Hd).
    unfold getnanos. rewrite Heq, Hd, <- Heq. simpl commaOrPeriod. cbn iota.
    rewrite (get_frac_put_frac 9 0) by (try done; lia). f_equal. simpl. lia.
Qed.

Lemma getnanos_put3 ms k :
  0 <= ms < 1000 -> no_digit k ->
  getnanos (String "." (put 3 ms k)) = (ms * 1000000, k).
Proof.
  intros Hms Hk. destruct (put_digit 2 ms k) as (d & k' & Heq & Hd).
  unfold getnanos. rewrite Heq, Hd, <- Heq. simpl commaOrPeriod. cbn iota.
  rewrite (get_frac_put 3 6) by lia. rewrite get_frac_end by done. done.
Qed.

Lemma of_time_ranges t :
  let c := of_time t in
  1 <= month c <= 12 /\ 1 <= day c <= Civil.days_in (month c) (year c) /\
  0 <= hour c < 24 /\ 0 <= minute c < 60 /\ 0 <= second c < 60 /\
  0 <= nanos c < 1000000000 /\ to_time c 0 = t.
Proof.
  unfold of_time. destruct (Civil.of_days _) as [[y m] d] eqn:Hd.
  apply Civil.of_days_spec in Hd as (Hm & Hday & Hback). simpl.
  split; [done|]. split; [done|]. unfold to_time; simpl. rewrite Hback.
  Z.to_euclidean_division_equations. lia.
Qed.

Lemma days_in_le m y : Civil.days_in m y <= 31.
Proof. unfold Civil.days_in. repeat case_match; lia. Qed.

(** Parsing a printed clock whose fraction part reads back as [ns]. *)
Lemma Parse_put_clock t frac ns :
  printable t = true -> getnanos (frac "Z") = (ns, "Z") ->
  Parse "T" ZoneISO (put_clock (of_time t) frac "Z") =
    Some (t - nanos (of_time t) + ns).
Proof.
  unfold printable. intros Hp Hf. pose proof (of_time_ranges t) as Hr. cbv zeta in Hr.
  revert Hp Hr. generalize (of_time t) as c. intros c Hp (Hmo & Hda & Hh & Hmi & Hs & Hn & Ht).
  pose proof (days_in_le (month c) (year c)). bool_to_prop.
  assert (Hz : getzone ZoneISO "Z" = Some (0, "")) by reflexivity.
  unfold Parse, put_clock.
  repeat first
    [ rewrite getyear_put4 by lia | rewrite lit_eq | rewrite getnum_put2 by lia
    | rewrite Hf | rewrite Hz | progress cbn [mbind option_bind orb]
    | match goal with |- context [?a <=? ?b] => destruct (Z.leb_spec a b); [lia|] end
    | match goal with |- context [?a <? ?b] => destruct (Z.ltb_spec a b); [lia|] end ].
  f_equal. rewrite <- Ht. unfold to_time. cbn [year month day hour minute second nanos]. lia.
Qed.

Lemma parse_format t : printable t = true -> parseTime (formatTime t) = Ok t.
Proof.
  intros Hp. pose proof (of_time_ranges t) as (_ & _ & _ & _ & _ & Hn & _).
  unfold parseTime, formatTime.
  rewrite (Parse_put_clock t _ (nanos (of_time t)) Hp).
  - f_equal. lia.
  - apply getnanos_put; [done|done|]. by intros c k' [= <- <-].
Qed.

Lemma parse_strftime t : printable t = true ->
  parseTime (strftime_now t) = Ok (t - t mod 1000000).
Proof.
  intros Hp. pose proof (of_time_ranges t) as (_ & _ & _ & _ & _ & Hn & _).
  unfold parseTime, strftime_now.
  rewrite (Parse_put_clock t _ (nanos (of_time t) / 1000000 * 1000000) Hp).
  - f_equal. unfold of_time. destruct (Civil.of_days _) as [[y m] d]. simpl.
    Z.to_euclidean_division_equations. lia.
  - apply getnanos_put3; [|done]. Z.to_euclidean_division_equations. lia.
Qed.
End GoTime.

#[global] Arguments GoTime.formatTime : simpl never.
#[global] Arguments GoTime.strftime_now : simpl never.
#[global] Arguments GoTime.parseTime : simpl never.

(** Timestamps survive the TEXT columns.  For every instant whose year has
    four digits, parseTime reads back exactly the nanosecond formatTime wrote,
    and reads SQLite's own strftime default as the same instant rounded down to
    the millisecond. *)
Theorem timestamp_roundtrip (t : Time) :
  GoTime.printable t = true ->
  GoTime.parseTime (GoTime.formatTime t) = Ok t /\
  GoTime.parseTime (GoTime.strftime_now t) = Ok (t - t mod 1000000).
Proof. intros H. split; [by apply GoTime.parse_format|by apply GoTime.parse_strftime]. Qed.

Lemma timestamp_roundtrip_witness :
  let t := 1709210096123456700 in
  GoTime.formatTime t = "2024-02-29T12:34:56.1234567Z" /\
  GoTime.strftime_now t = "2024-02-29T12:34:56.123Z" /\
  GoTime.parseTime (GoTime.formatTime t) = Ok t /\
  GoTime.parseTime (GoTime.strftime_now t) = Ok (t - t mod 1000000).
Proof.
  intros t. split; [vm_compute; reflexivity|]. split; [vm_compute; reflexivity|].
  apply timestamp_roundtrip. vm_compute. reflexivity.
Defined.

(** The text order of timestamps is not the order of time.  RFC3339Nano
    drops trailing zeros, so within one second a later instant can have a
    smaller text, also against the strftime form; the string comparisons of
    the outbox retry filter and of the retention scan are exact only across
    seconds. *)
Theorem timestamp_text_order_not_chronological :
  exists t1 t2 t3, t1 < t2 < t3 /\ GoTime.printable t1 = true /\ GoTime.printable t3 = true /\
    str_ltb (GoTime.formatTime t2) (GoTime.formatTime t1) = true /\
    str_ltb (GoTime.strftime_now t3) (GoTime.formatTime t1) = true.
Proof.
  exists 1700000000000000000, 1700000000500000000, 1700000000700000000.
  split; [lia|]. vm_compute. done.
Qed.
