(* ===== verification/Sql.v ===== *)
(** * SQL idioms shared by the storage adapters

    ORDER BY, LIMIT, UPDATE and COUNT on lists of rows, with the lemmas on
    sorted and filtered rows that the proofs about both databases use. *)
From S2P Require Import Prelude.

(** ORDER BY an integer column. *)
Definition key_le {A} (key : A -> Z) : relation A := fun a b => key a <= key b.

#[export] Instance key_le_dec {A} (key : A -> Z) : RelDecision (key_le key).
Proof. intros a b. unfold key_le. apply _. Defined.

#[export] Instance key_le_total {A} (key : A -> Z) : Total (key_le key).
Proof. intros a b. unfold key_le. lia. Qed.

#[export] Instance key_le_trans {A} (key : A -> Z) : Transitive (key_le key).
Proof. intros a b c. unfold key_le. lia. Qed.

Definition order_by {A} (key : A -> Z) : list A -> list A := merge_sort (key_le key).

(** ORDER BY a text column. *)
Definition text_le {A} (key : A -> string) : relation A := fun a b => str_leb (key a) (key b) = true.

#[export] Instance text_le_dec {A} (key : A -> string) : RelDecision (text_le key).
Proof. intros a b. unfold text_le. apply _. Defined.

Definition order_by_text {A} (key : A -> string) : list A -> list A := merge_sort (text_le key).

(** A hash column: the drivers store a nil slice as NULL. *)
Definition nullable_blob (b : list Byte.byte) : option (list Byte.byte) := match b with [] => None | _ => Some b end.

(** LIMIT n; a negative limit is none. *)
Definition sql_limit {A} (n : Z) (l : list A) : list A :=
  if n <? 0 then l else take (Z.to_nat n) l.

(** UPDATE ... WHERE p. *)
Definition sql_update {A} (p : A -> bool) (f : A -> A) (t : list A) : list A :=
  (fun r => if p r then f r else r) <$> t.

Definition sql_count {A} (p : A -> bool) (t : list A) : Z :=
  Z.of_nat (length (List.filter p t)).

Section OrderBy.
Context {A : Type} (key : A -> Z).

Lemma order_by_perm l : order_by key l ≡ₚ l.
Proof. apply merge_sort_Permutation. Qed.

Lemma order_by_sorted l : StronglySorted (key_le key) (order_by key l).
Proof. apply StronglySorted_merge_sort; apply _. Qed.

(** A list whose keys grow strictly is the only sorted arrangement. *)
Lemma order_by_unique l l' :
  StronglySorted (fun a b => key a < key b) l' -> l' ≡ₚ l -> order_by key l = l'.
Proof.
  intros Hs Hp. apply (StronglySorted_unique_strong (key_le key)).
  - intros x1 x2 H1 H2. unfold key_le. intros Ha Hb.
    assert (H1' : x1 ∈ l') by (rewrite Hp, <- (order_by_perm l); done).
    clear -Hs H1' H2 Ha Hb. assert (E : key x1 = key x2) by lia. clear Ha Hb.
    induction Hs as [|y l' Hs IH Hf]; [by apply elem_of_nil in H2|].
    rewrite Forall_forall in Hf.
    apply elem_of_cons in H1' as [->|H1'], H2 as [->|H2]; [done|..].
    + specialize (Hf _ H2). lia.
    + specialize (Hf _ H1'). lia.
    + auto.
  - apply order_by_sorted.
  - clear -Hs. induction Hs as [|y l' Hs IH Hf]; constructor; [done|].
    eapply Forall_impl; [exact Hf|]. unfold key_le. intros; lia.
  - by rewrite order_by_perm, Hp.
Qed.

Lemma order_by_id l : StronglySorted (fun a b => key a < key b) l -> order_by key l = l.
Proof. intros H. by apply order_by_unique. Qed.

(** The sorted list has strictly growing keys if the keys are distinct. *)
Lemma order_by_strict l :
  NoDup (key <$> l) -> StronglySorted (fun a b => key a < key b) (order_by key l).
Proof.
  intros Hnd. assert (Hnd' : NoDup (key <$> order_by key l)) by (by rewrite order_by_perm).
  revert Hnd'. generalize (order_by_sorted l). generalize (order_by key l) as l'.
  clear. intros l' Hs. induction Hs as [|y l' Hs IH Hf]; csimpl; intros Hnd; constructor.
  - apply IH. by apply NoDup_cons in Hnd as [_ ?].
  - apply NoDup_cons in Hnd as [Hni _]. rewrite Forall_forall in Hf |- *.
    intros x Hx. specialize (Hf x Hx). unfold key_le in Hf.
    assert (key y <> key x); [|lia]. intros E. apply Hni. rewrite E.
    by apply list_elem_of_fmap_2.
Qed.

(** Rows with larger keys go to the end. *)
Lemma order_by_app l l2 :
  NoDup (key <$> l) -> StronglySorted (fun a b => key a < key b) l2 ->
  (forall x y, x ∈ l -> y ∈ l2 -> key x < key y) ->
  order_by key (l ++ l2) = order_by key l ++ l2.
Proof.
  intros Hnd Hs Hlt. apply order_by_unique.
  - apply StronglySorted_app_2; [|by apply order_by_strict|done].
    intros x y Hx Hy. apply Hlt; [|done]. by rewrite <- (order_by_perm l).
  - by rewrite order_by_perm.
Qed.
End OrderBy.

(** ** Filtered rows *)

Lemma lfilter_sublist {A} (p : A -> bool) l : List.filter p l `sublist_of` l.
Proof. induction l as [|x l IH]; simpl; [done|]. destruct (p x); by constructor. Qed.

Lemma existsb_false_iff {A} (f : A -> bool) l :
  existsb f l = false <-> forall x, x ∈ l -> f x = false.
Proof.
  split.
  - intros H x Hx. destruct (f x) eqn:E; [|done].
    assert (existsb f l = true); [|congruence].
    apply existsb_exists. exists x. by rewrite <- list_elem_of_In.
  - intros H. destruct (existsb f l) eqn:E; [|done].
    apply existsb_exists in E as (x & Hx & Hf). rewrite <- list_elem_of_In in Hx.
    by rewrite (H x Hx) in Hf.
Qed.

Lemma existsb_key_false {A B} (f : A -> bool) (key : A -> B) k l :
  (forall r, f r = true <-> key r = k) ->
  existsb f l = false <-> k ∉ (key <$> l).
Proof.
  intros Hf. rewrite existsb_false_iff, list_elem_of_fmap. split.
  - intros H (r & -> & Hr). specialize (H r Hr). rewrite (proj2 (Hf r) eq_refl) in H. done.
  - intros H r Hr. destruct (f r) eqn:E; [|done]. apply Hf in E. destruct H. eauto.
Qed.

Lemma seqZ_sorted {A} (key : A -> Z) (l : list A) : forall m n,
  key <$> l = seqZ m n -> StronglySorted (fun a b => key a < key b) l.
Proof.
  induction l as [|x l IH]; intros m n; csimpl; [constructor|].
  destruct (decide (0 < n)) as [Hn|Hn]; [|by rewrite seqZ_nil by lia].
  rewrite seqZ_cons by done. intros [= Hx Hl]. constructor; [eauto|].
  apply Forall_forall. intros y Hy.
  assert (Hk : key y ∈ seqZ (Z.succ m) (Z.pred n)) by (rewrite <- Hl; by apply list_elem_of_fmap_2).
  apply elem_of_seqZ in Hk. lia.
Qed.

Lemma filter_all {A} (f : A -> bool) l : Forall (fun x => f x = true) l -> List.filter f l = l.
Proof. induction 1 as [|x l Hx _ IH]; simpl; [done|]. by rewrite Hx, IH. Qed.

Lemma filter_none {A} (f : A -> bool) l : Forall (fun x => f x = false) l -> List.filter f l = [].
Proof. induction 1 as [|x l Hx _ IH]; simpl; [done|]. by rewrite Hx, IH. Qed.

Lemma filter_andb {A} (f g : A -> bool) l :
  List.filter (fun x => f x && g x) l = List.filter g (List.filter f l).
Proof.
  induction l as [|x l IH]; simpl; [done|]. destruct (f x); simpl; [|done].
  by rewrite IH.
Qed.

Lemma Permutation_lfilter {A} (f : A -> bool) l l' :
  l ≡ₚ l' -> List.filter f l ≡ₚ List.filter f l'.
Proof.
  induction 1 as [|x l l' Hp IH|x y l|l1 l2 l3 H1 IH1 H2 IH2]; simpl.
  - done.
  - destruct (f x); [by constructor|done].
  - destruct (f x), (f y); try done. constructor.
  - by transitivity (List.filter f l2).
Qed.

Lemma StronglySorted_lfilter {A} (R : relation A) (f : A -> bool) l :
  StronglySorted R l -> StronglySorted R (List.filter f l).
Proof.
  induction 1 as [|x l Hs IH Hf]; simpl; [constructor|].
  destruct (f x); [|done]. constructor; [done|].
  rewrite Forall_forall in Hf |- *. intros y Hy. apply Hf.
  rewrite list_elem_of_In in Hy |- *. by apply filter_In in Hy as [? _].
Qed.

(** Rows with consecutive keys: those above [v] are all but the first ones. *)
Lemma filter_drop {A} (key : A -> Z) (l : list A) : forall m v,
  key <$> l = seqZ m (Z.of_nat (length l)) -> m - 1 <= v ->
  List.filter (fun r => v <? key r) l = drop (Z.to_nat (v - (m - 1))) l.
Proof.
  induction l as [|r l IH]; intros m v; csimpl; [by rewrite drop_nil|].
  rewrite seqZ_cons by lia. intros [= Hr Hl] Hv. simpl in Hl.
  replace (Z.pred (Z.of_nat (S (length l)))) with (Z.of_nat (length l)) in Hl by lia.
  destruct (Z.ltb_spec v (key r)) as [Hlt|Hge].
  - replace (v - (m - 1)) with 0 by lia. simpl. f_equal.
    rewrite <- (filter_all (fun r => v <? key r) l) at 2; [done|].
    apply Forall_forall. intros x Hx. apply Z.ltb_lt.
    assert (Hk : key x ∈ key <$> l) by by apply list_elem_of_fmap_2.
    rewrite Hl in Hk. apply elem_of_seqZ in Hk. lia.
  - rewrite (IH (Z.succ m)) by (done || lia).
    replace (Z.to_nat (v - (m - 1))) with (S (Z.to_nat (v - (Z.succ m - 1)))) by lia. done.
Qed.
