(* ===== verification/Conversation.v ===== *)
(** * The conversation example (examples/conversations)

    The decider of a dialogue with a language model (decider.go), which bounds
    the turns and the tokens of a conversation, and its token-usage read model
    (projection_tokens.go).  The read model is shown to agree with the folded
    state of the aggregate. *)
From S2P Require Import Prelude Errors Streams Events Deciders GoTime Sql.

Module Conversation.

Inductive Role : Set := ROLE_USER | ROLE_ASSISTANT.

Record Turn := mkTurn { role : Role; Content : string; Tokens : Z }.

Record State := mkState {
  ConversationId : string;
  UserId : string;
  Model : string;
  SystemPrompt : string;
  Turns : list Turn;
  TokensInput : Z;
  TokensOutput : Z;
  Closed_ : bool;
  CloseReason : string
}.

Inductive Command :=
  | Start (id user model prompt : string)
  | AppendUserMessage (user content : string) (tokens : Z)
  | AppendAssistantMessage (user content : string) (tokens : Z)
  | Close (user reason : string)
  (** Anything else a [Command] variable can hold (nil). *)
  | OtherCommand.

Inductive Event :=
  | Started (id user model prompt : string)
  | UserMessageAppended (id user content : string) (tokens : Z)
  | AssistantMessageAppended (id user content : string) (tokens : Z)
  | Closed (id user reason : string).

Definition ErrAlreadyStarted : err := ENew "conversation: already started".
Definition ErrNotStarted : err := ENew "conversation: not started".
Definition ErrConversationClosed : err := ENew "conversation: already closed".
Definition ErrEmptyMessage : err := ENew "conversation: message content cannot be empty".
Definition ErrUserMismatch : err :=
  ENew "conversation: command's user_id does not match the started conversation".
Definition ErrTokenBudgetExceeded : err := ENew "conversation: token budget exceeded".
Definition ErrUnknownCommand : err := ENew "conversation: unknown command variant".

Definition MaxTurns : Z := 200.
Definition MaxTokensBudget : Z := 100000.

Definition initial : State := mkState "" "" "" "" [] 0 0 false "".

(** [strings.TrimSpace(s) == ""]: only encodings of white-space characters. *)
Fixpoint blank (s : string) : bool :=
  match s with
  | EmptyString => true
  | String a s1 =>
      let x := nat_of_ascii a in
      if bool_decide (x = 32 \/ 9 <= x <= 13)%nat then blank s1
      else
        match s1 with
        | String b s2 =>
            let y := nat_of_ascii b in
            if bool_decide (x = 194 /\ (y = 133 \/ y = 160))%nat then blank s2
            else
              match s2 with
              | String c s3 =>
                  let z := nat_of_ascii c in
                  if bool_decide ((x = 225 /\ y = 154 /\ z = 128) \/
                       (x = 226 /\ y = 128 /\ (128 <= z <= 138 \/ z = 168 \/ z = 169 \/ z = 175)) \/
                       (x = 226 /\ y = 129 /\ z = 159) \/ (x = 227 /\ y = 128 /\ z = 128))%nat
                  then blank s3 else false
              | EmptyString => false
              end
        | EmptyString => false
        end
  end.

Definition guardStarted (s : State) (claimedUserID : string) : option err :=
  if bool_decide (ConversationId s = "") then Some ErrNotStarted
  else if Closed_ s then Some ErrConversationClosed
  else if negb (bool_decide (claimedUserID = "")) && negb (bool_decide (UserId s = claimedUserID))
  then Some ErrUserMismatch
  else None.

(** [if len(s.Turns)+1 >= MaxTurns { events = append(events, &Closed{...}) }] *)
Definition with_close (s : State) (e : Event) : list Event :=
  e :: (if MaxTurns <=? Z.of_nat (length (Turns s)) + 1
        then [Closed (ConversationId s) (UserId s) "max_turns_reached"] else []).

Definition decide_ (s : State) (c : Command) : res (list Event * list ConstraintOp) :=
  match c with
  | Start id user model prompt =>
      if negb (bool_decide (ConversationId s = "")) then Err ErrAlreadyStarted
      else Ok ([Started id user model prompt], [])
  | AppendUserMessage user content tokens =>
      match guardStarted s user with
      | Some e => Err e
      | None =>
          if blank content then Err ErrEmptyMessage
          else if (0 <? MaxTokensBudget) &&
                  (MaxTokensBudget <? i64 (i64 (TokensInput s + TokensOutput s) + tokens))
          then Err ErrTokenBudgetExceeded
          else Ok (with_close s (UserMessageAppended (ConversationId s) (UserId s) content tokens), [])
      end
  | AppendAssistantMessage user content tokens =>
      match guardStarted s user with
      | Some e => Err e
      | None =>
          if blank content then Err ErrEmptyMessage
          else Ok (with_close s (AssistantMessageAppended (ConversationId s) (UserId s) content tokens), [])
      end
  | Close user reason =>
      match guardStarted s user with
      | Some e => Err e
      | None =>
          if Closed_ s then Ok ([], [])
          else Ok ([Closed (ConversationId s) (UserId s)
                      (if bool_decide (reason = "") then "user_ended" else reason)], [])
      end
  | OtherCommand => Err ErrUnknownCommand
  end.

Definition add_turn (t : Turn) (dIn dOut : Z) (s : State) : State :=
  mkState (ConversationId s) (UserId s) (Model s) (SystemPrompt s) (Turns s ++ [t])
    (i64 (TokensInput s + dIn)) (i64 (TokensOutput s + dOut)) (Closed_ s) (CloseReason s).

Definition evolve (s : State) (e : Event) : State :=
  match e with
  | Started id user model prompt =>
      mkState id user model prompt (Turns s) (TokensInput s) (TokensOutput s) (Closed_ s) (CloseReason s)
  | UserMessageAppended _ _ content tokens => add_turn (mkTurn ROLE_USER content tokens) tokens 0 s
  | AssistantMessageAppended _ _ content tokens =>
      add_turn (mkTurn ROLE_ASSISTANT content tokens) 0 tokens s
  | Closed _ _ reason =>
      mkState (ConversationId s) (UserId s) (Model s) (SystemPrompt s) (Turns s) (TokensInput s)
        (TokensOutput s) true reason
  end.

Definition isTerminal (s : State) : bool := Closed_ s.

Definition decider : Decider State Command Event := mkDecider initial decide_ evolve (Some isTerminal).

(** ** The read model (projection_tokens.go) *)

Record TokenUsageRow := mkTokenUsageRow {
  u_TenantID : string;
  u_ConversationID : string;
  u_Model : string;
  u_UserID : string;
  u_TokensInput : Z;
  u_TokensOutput : Z;
  u_Turns : Z;
  u_LastEventAt : string
}.

(** token_usage, by its primary key (tenant_id, conversation_id).  Every handler
    is one statement; these are its effects when it succeeds, a failed one has
    none. *)
Notation token_usage := (gmap (string * string) TokenUsageRow).

Definition recorded (env : Envelope.t) : string := GoTime.format_millis (Envelope.RecordedAt env).

Definition OnStarted (env : Envelope.t) (id user model : string) (db : token_usage) : token_usage :=
  let key := (Envelope.TenantID env, id) in
  match db !! key with
  | None => <[key := mkTokenUsageRow (Envelope.TenantID env) id model user 0 0 0 (recorded env)]> db
  | Some r =>
      <[key := mkTokenUsageRow (u_TenantID r) (u_ConversationID r) model user (u_TokensInput r)
                 (u_TokensOutput r) (u_Turns r) (recorded env)]> db
  end.

Definition bump (env : Envelope.t) (id : string) (dIn dOut : Z) (db : token_usage) : token_usage :=
  let key := (Envelope.TenantID env, id) in
  match db !! key with
  | None => <[key := mkTokenUsageRow (Envelope.TenantID env) id "" "" dIn dOut 1 (recorded env)]> db
  | Some r =>
      <[key := mkTokenUsageRow (u_TenantID r) (u_ConversationID r) (u_Model r) (u_UserID r)
                 (u_TokensInput r + dIn) (u_TokensOutput r + dOut) (u_Turns r + 1) (recorded env)]> db
  end.

Definition OnUserMessageAppended (env : Envelope.t) (id : string) (tokens : Z) : token_usage -> token_usage :=
  bump env id tokens 0.

Definition OnAssistantMessageAppended (env : Envelope.t) (id : string) (tokens : Z)
    : token_usage -> token_usage :=
  bump env id 0 tokens.

Definition OnClosed (env : Envelope.t) (db : token_usage) : token_usage :=
  let key := (Envelope.TenantID env, StreamID.ID (Envelope.StreamID env)) in
  match db !! key with
  | None => db
  | Some r =>
      <[key := mkTokenUsageRow (u_TenantID r) (u_ConversationID r) (u_Model r) (u_UserID r)
                 (u_TokensInput r) (u_TokensOutput r) (u_Turns r) (recorded env)]> db
  end.

(** The handlers, by event. *)
Definition project (db : token_usage) (x : Envelope.t * Event) : token_usage :=
  let '(env, e) := x in
  match e with
  | Started id user model _ => OnStarted env id user model db
  | UserMessageAppended id _ _ tokens => OnUserMessageAppended env id tokens db
  | AssistantMessageAppended id _ _ tokens => OnAssistantMessageAppended env id tokens db
  | Closed _ _ _ => OnClosed env db
  end.

Definition Get (tenant id : string) (db : token_usage) : option TokenUsageRow := db !! (tenant, id).

(** ORDER BY last_event_at DESC, by bytes; rows of the same time in any order. *)
Definition later_first : relation TokenUsageRow := fun a b =>
  str_leb (u_LastEventAt b) (u_LastEventAt a) = true.

#[export] Instance later_first_dec : RelDecision later_first.
Proof. intros a b. unfold later_first. apply _. Defined.

Definition ListByTenant (tenant : string) (limit : Z) (db : token_usage) : list TokenUsageRow :=
  let limit := if limit <=? 0 then 100 else limit in
  take (Z.to_nat limit)
    (merge_sort later_first
      (List.filter (fun r => bool_decide (u_TenantID r = tenant)) (snd <$> map_to_list db))).

(** ** What the decider enforces *)

(** Commands within the range of realistic token counts, and a Start with an
    id. *)
Definition sane (c : Command) : Prop :=
  match c with
  | Start id _ _ _ => id <> ""
  | AppendUserMessage _ _ n | AppendAssistantMessage _ _ n => 0 <= n < 2 ^ 55
  | _ => True
  end.

Definition spent (r : Role) (ts : list Turn) : Z :=
  foldr Z.add 0 (Tokens <$> List.filter (fun t => match r, role t with
    | ROLE_USER, ROLE_USER | ROLE_ASSISTANT, ROLE_ASSISTANT => true | _, _ => false end) ts).

Record within (s : State) : Prop := mkWithin {
  wi_tokens : Forall (fun t => 0 <= Tokens t < 2 ^ 55) (Turns s);
  wi_input : TokensInput s = spent ROLE_USER (Turns s);
  wi_output : TokensOutput s = spent ROLE_ASSISTANT (Turns s);
  wi_budget : TokensInput s <= MaxTokensBudget;
  wi_turns : Z.of_nat (length (Turns s)) <= MaxTurns;
  wi_open : Closed_ s = false -> Z.of_nat (length (Turns s)) < MaxTurns
}.

Lemma foldr_add_app (l l' : list Z) : foldr Z.add 0 (l ++ l') = foldr Z.add 0 l + foldr Z.add 0 l'.
Proof. induction l as [|x l IH]; simpl; [done|]. rewrite IH. lia. Qed.

Lemma spent_snoc r ts t :
  spent r (ts ++ [t]) = spent r ts +
    match r, role t with
    | ROLE_USER, ROLE_USER | ROLE_ASSISTANT, ROLE_ASSISTANT => Tokens t | _, _ => 0 end.
Proof.
  unfold spent. rewrite List.filter_app, fmap_app, foldr_add_app. f_equal. simpl.
  destruct r, (role t); simpl; lia.
Qed.

Lemma spent_bound r ts :
  Forall (fun t => 0 <= Tokens t < 2 ^ 55) ts -> 0 <= spent r ts <= Z.of_nat (length ts) * 2 ^ 55.
Proof.
  unfold spent. induction 1 as [|t ts Ht Hts IH]; csimpl; [lia|].
  destruct r, (role t); csimpl; lia.
Qed.

Lemma guardStarted_None s u : guardStarted s u = None -> ConversationId s <> "" /\ Closed_ s = false.
Proof. unfold guardStarted. case_bool_decide; [done|]. by destruct (Closed_ s). Qed.

(** One more turn on an open conversation. *)
Lemma within_turn s t :
  within s -> Closed_ s = false -> 0 <= Tokens t < 2 ^ 55 ->
  (role t = ROLE_USER -> i64 (i64 (TokensInput s + TokensOutput s) + Tokens t) <= MaxTokensBudget) ->
  let s' := add_turn t (match role t with ROLE_USER => Tokens t | _ => 0 end)
              (match role t with ROLE_ASSISTANT => Tokens t | _ => 0 end) s in
  within (if MaxTurns <=? Z.of_nat (length (Turns s)) + 1
          then evolve s' (Closed (ConversationId s) (UserId s) "max_turns_reached") else s') /\
  TokensInput s' = TokensInput s + (match role t with ROLE_USER => Tokens t | _ => 0 end) /\
  TokensOutput s' = TokensOutput s + (match role t with ROLE_ASSISTANT => Tokens t | _ => 0 end).
Proof.
  intros [Ht Hi Ho Hb Hl Hop] Hc Hn Hbud. specialize (Hop Hc).
  assert (HMT : MaxTurns = 200) by done. assert (HMB : MaxTokensBudget = 100000) by done.
  pose proof (spent_bound ROLE_USER (Turns s) Ht) as B1.
  pose proof (spent_bound ROLE_ASSISTANT (Turns s) Ht) as B2.
  assert (Hsmall : Z.of_nat (length (Turns s)) * 2 ^ 55 <= 200 * 2 ^ 55) by nia.
  assert (Hin : i64 (TokensInput s + (match role t with ROLE_USER => Tokens t | _ => 0 end)) =
    TokensInput s + (match role t with ROLE_USER => Tokens t | _ => 0 end)).
  { apply i64_small. destruct (role t); lia. }
  assert (Hout : i64 (TokensOutput s + (match role t with ROLE_ASSISTANT => Tokens t | _ => 0 end)) =
    TokensOutput s + (match role t with ROLE_ASSISTANT => Tokens t | _ => 0 end)).
  { apply i64_small. destruct (role t); lia. }
  assert (Hle : TokensInput s + (match role t with ROLE_USER => Tokens t | _ => 0 end) <= MaxTokensBudget).
  { destruct (role t) eqn:Hr; [|lia]. specialize (Hbud eq_refl).
    rewrite (i64_small (TokensInput s + TokensOutput s)), i64_small in Hbud by lia. lia. }
  cbn zeta. split; [|split; [exact Hin|exact Hout]].
  assert (Hw : forall c r, (c = false -> Z.of_nat (length (Turns s)) + 1 < MaxTurns) ->
    within (mkState (ConversationId s) (UserId s) (Model s) (SystemPrompt s) (Turns s ++ [t])
      (i64 (TokensInput s + match role t with ROLE_USER => Tokens t | _ => 0 end))
      (i64 (TokensOutput s + match role t with ROLE_ASSISTANT => Tokens t | _ => 0 end)) c r)).
  { intros c r Hcr. rewrite Hin, Hout. split; cbn [Turns TokensInput TokensOutput Closed_]; rewrite ?length_app; cbn [length].
    - apply Forall_app. split; [done|]. by apply Forall_singleton.
    - rewrite spent_snoc, Hi. by destruct (role t).
    - rewrite spent_snoc, Ho. by destruct (role t).
    - done.
    - lia.
    - intros Hf. specialize (Hcr Hf). lia. }
  destruct (Z.leb_spec MaxTurns (Z.of_nat (length (Turns s)) + 1)); simpl; apply Hw; [done|lia].
Qed.

Lemma foldl_with_close s e :
  foldl evolve s (with_close s e) =
  if MaxTurns <=? Z.of_nat (length (Turns s)) + 1
  then evolve (evolve s e) (Closed (ConversationId s) (UserId s) "max_turns_reached") else evolve s e.
Proof. unfold with_close. by destruct (_ <=? _). Qed.

Lemma decide_within s c new nops :
  within s -> sane c -> decide_ s c = Ok (new, nops) -> within (foldl evolve s new).
Proof.
  intros Hw Hc Hd. destruct c as [id user model prompt|user content n|user content n|user reason|]; simpl in Hd.
  - destruct (negb _); [done|]. injection Hd as <- <-. by destruct Hw.
  - destruct (guardStarted s user) eqn:Hg; [done|]. apply guardStarted_None in Hg as [_ Ho].
    destruct (blank content); [done|].
    destruct (MaxTokensBudget <? _) eqn:Hb; [done|]. injection Hd as <- <-. rewrite foldl_with_close.
    apply (within_turn s (mkTurn ROLE_USER content n)); [done|done|done|]. intros _. simpl. lia.
  - destruct (guardStarted s user) eqn:Hg; [done|]. apply guardStarted_None in Hg as [_ Ho].
    destruct (blank content); [done|]. injection Hd as <- <-. rewrite foldl_with_close.
    by apply (within_turn s (mkTurn ROLE_ASSISTANT content n)).
  - destruct (guardStarted s user) eqn:Hg; [done|]. apply guardStarted_None in Hg as [_ Ho].
    rewrite Ho in Hd. injection Hd as <- <-. simpl. destruct Hw as [H1 H2 H3 H4 H5 H6]. by split.
  - done.
Qed.

(** ** The read model agrees with the state *)

Definition event_id (e : Event) : string :=
  match e with
  | Started id _ _ _ | UserMessageAppended id _ _ _ | AssistantMessageAppended id _ _ _ | Closed id _ _ => id
  end.

(** The row has the totals of the state. *)
Definition agrees (t : string) (s : State) (r : TokenUsageRow) : Prop :=
  u_TenantID r = t /\ u_ConversationID r = ConversationId s /\ u_Model r = Model s /\ u_UserID r = UserId s /\ u_TokensInput r = TokensInput s /\
  u_TokensOutput r = TokensOutput s /\ u_Turns r = Z.of_nat (length (Turns s)).

(** The usage of the conversation [id] of tenant [t] for the state [s]. *)
Definition usage_ok (t : string) (s : State) (db : token_usage) : Prop :=
  if bool_decide (ConversationId s = "") then db = ∅ /\ s = initial
  else exists r, db !! (t, ConversationId s) = Some r /\ agrees t s r.

(** Every conversation of the tenant is listed when the limit allows. *)
Lemma usage_listed t s db limit :
  ConversationId s <> "" -> usage_ok t s db -> Z.of_nat (size db) <= limit ->
  exists r, r ∈ ListByTenant t limit db /\ agrees t s r.
Proof.
  intros Hid Hu Hl. unfold usage_ok in Hu. rewrite bool_decide_eq_false_2 in Hu by done.
  destruct Hu as (r & Hr & Ha). exists r. split; [|done]. unfold ListByTenant.
  set (rows := List.filter _ _).
  assert (Hin : r ∈ rows).
  { apply list_elem_of_In, filter_In. split; [|apply bool_decide_eq_true_2, Ha].
    apply list_elem_of_In. rewrite list_elem_of_fmap.
    exists ((t, ConversationId s), r). split; [done|]. by apply elem_of_map_to_list. }
  assert (Hlen : (length rows <= size db)%nat).
  { rewrite <- length_map_to_list, <- (length_fmap snd (map_to_list db)).
    apply sublist_length, lfilter_sublist. }
  assert (0 < length rows)%nat by (destruct rows; [by apply not_elem_of_nil in Hin|simpl; lia]).
  destruct (Z.leb_spec limit 0); [lia|].
  rewrite take_ge by (rewrite merge_sort_Permutation; lia). by rewrite merge_sort_Permutation.
Qed.

Lemma usage_started t db env id user model prompt :
  Envelope.TenantID env = t -> id <> "" -> usage_ok t initial db ->
  usage_ok t (evolve initial (Started id user model prompt))
    (project db (env, Started id user model prompt)).
Proof.
  intros <- Hid [-> _]. unfold usage_ok; simpl. rewrite bool_decide_eq_false_2 by done.
  unfold OnStarted. rewrite lookup_empty, lookup_insert_eq. eexists. split; [done|]. by split_and!.
Qed.

Lemma usage_bump t s db env dIn dOut turn :
  Envelope.TenantID env = t -> ConversationId s <> "" -> usage_ok t s db ->
  TokensInput (add_turn turn dIn dOut s) = TokensInput s + dIn ->
  TokensOutput (add_turn turn dIn dOut s) = TokensOutput s + dOut ->
  usage_ok t (add_turn turn dIn dOut s) (bump env (ConversationId s) dIn dOut db).
Proof.
  intros <- Hid. unfold usage_ok. simpl. rewrite !bool_decide_eq_false_2 by done.
  intros (r & Hr & HT & HC & Hm & Hu & Hi & Ho & Ht) E1 E2. unfold bump. rewrite Hr, lookup_insert_eq.
  eexists. split; [done|]. split_and!; simpl; try done.
  - by rewrite E1, Hi.
  - by rewrite E2, Ho.
  - rewrite length_app, Ht. simpl. lia.
Qed.

Lemma usage_closed t s db env id user reason :
  ConversationId s <> "" -> usage_ok t s db ->
  usage_ok t (evolve s (Closed id user reason)) (project db (env, Closed id user reason)).
Proof.
  intros Hid. unfold usage_ok. simpl. rewrite !bool_decide_eq_false_2 by done.
  intros (r & Hr & Ha). unfold OnClosed. cbn zeta.
  generalize (Envelope.TenantID env, StreamID.ID (Envelope.StreamID env)) as key. intros key.
  destruct (db !! key) as [r'|] eqn:Hk; [|by exists r].
  destruct (decide (key = (t, ConversationId s))) as [->|E].
  - rewrite Hk in Hr. injection Hr as ->. rewrite lookup_insert_eq.
    eexists. split; [done|]. exact Ha.
  - rewrite lookup_insert_ne by done. by exists r.
Qed.

Lemma decide_usage t s db c new nops (xs : list (Envelope.t * Event)) :
  within s -> usage_ok t s db -> sane c -> decide_ s c = Ok (new, nops) ->
  snd <$> xs = new -> Forall (fun x => Envelope.TenantID (fst x) = t) xs ->
  usage_ok t (foldl evolve s new) (foldl project db xs).
Proof.
  intros Hw Hu Hc Hd Hx Ht.
  assert (Hturn : forall turn e (env : Envelope.t) rest, Closed_ s = false -> ConversationId s <> "" ->
    0 <= Tokens turn < 2 ^ 55 ->
    (role turn = ROLE_USER -> i64 (i64 (TokensInput s + TokensOutput s) + Tokens turn) <= MaxTokensBudget) ->
    evolve s e = add_turn turn (match role turn with ROLE_USER => Tokens turn | _ => 0 end)
      (match role turn with ROLE_ASSISTANT => Tokens turn | _ => 0 end) s ->
    project db (env, e) = bump env (ConversationId s)
      (match role turn with ROLE_USER => Tokens turn | _ => 0 end)
      (match role turn with ROLE_ASSISTANT => Tokens turn | _ => 0 end) db ->
    xs = (env, e) :: rest -> with_close s e = snd <$> xs ->
    usage_ok t (foldl evolve s (with_close s e)) (foldl project db xs)).
  { intros turn e env rest Ho Hid Hn Hb Hev Hpr -> Hwc. apply Forall_cons in Ht as [Henv Ht]. simpl in Henv.
    destruct (within_turn s turn Hw Ho Hn Hb) as (_ & E1 & E2).
    pose proof (usage_bump t s db env _ _ turn Henv Hid Hu E1 E2) as Hub.
    rewrite <- Hev, <- Hpr in Hub. cbn [foldl]. unfold with_close in Hwc |- *. csimpl in Hwc.
    injection Hwc as Hwc. destruct (MaxTurns <=? _).
    - destruct rest as [|[env2 e2] [|? ?]]; try done. injection Hwc as <-. cbn [foldl].
      apply usage_closed; [|done]. by rewrite Hev.
    - by destruct rest. }
  destruct c as [id user model prompt|user content n|user content n|user reason|]; simpl in Hd.
  - destruct (decide (ConversationId s = "")) as [Hid|Hid]; [|by rewrite bool_decide_eq_false_2 in Hd].
    rewrite bool_decide_eq_true_2 in Hd by done. injection Hd as <- <-.
    assert (s = initial) as ->. { unfold usage_ok in Hu. rewrite bool_decide_eq_true_2 in Hu by done. apply Hu. }
    destruct xs as [|[env e] [|? ?]]; try done. injection Hx as ->.
    apply Forall_cons in Ht as [Ht _]. by apply usage_started.
  - destruct (guardStarted s user) eqn:Hg; [done|]. apply guardStarted_None in Hg as [Hid Ho].
    destruct (blank content); [done|].
    destruct (MaxTokensBudget <? _) eqn:Hb; [done|]. injection Hd as <- <-.
    destruct xs as [|[env e] rest] eqn:Hxs; [done|]. pose proof Hx as [= -> _].
    eapply (Hturn (mkTurn ROLE_USER content n)); try done. intros _. simpl. lia.
  - destruct (guardStarted s user) eqn:Hg; [done|]. apply guardStarted_None in Hg as [Hid Ho].
    destruct (blank content); [done|]. injection Hd as <- <-.
    destruct xs as [|[env e] rest] eqn:Hxs; [done|]. pose proof Hx as [= -> _].
    by eapply (Hturn (mkTurn ROLE_ASSISTANT content n)).
  - destruct (guardStarted s user) eqn:Hg; [done|]. apply guardStarted_None in Hg as [Hid Ho].
    rewrite Ho in Hd. injection Hd as <- <-. destruct xs as [|[env e] [|? ?]]; try done. injection Hx as ->.
    by apply usage_closed.
  - done.
Qed.
End Conversation.

(** C40: a conversation stays within its bounds and its read model is right.
    After any accepted commands with realistic token counts, the conversation
    has at most MaxTurns turns and is closed when it reaches them; the prompts
    of the user sum up to at most MaxTokensBudget and the counters are the sums
    over the turns, with no overflow; and the token-usage projection, fed with
    the events of the conversation in order, has exactly the totals, the turns,
    the model and the user of the folded state. *)
Theorem conversation_bounded s es ops :
  history Conversation.decider Conversation.sane s es ops ->
  Conversation.within s /\
  forall t xs, snd <$> xs = es -> Forall (fun x => Envelope.TenantID (fst x) = t) xs ->
    Conversation.usage_ok t s (foldl Conversation.project ∅ xs).
Proof.
  revert s es ops. apply history_invariant.
  - split.
    + split; simpl; done.
    + intros t xs ->%fmap_nil_inv _. done.
  - intros s es ops c new nops [Hw Hu] _ Hc Hd. split; [by eapply Conversation.decide_within|].
    intros t xs Hx Ht. apply fmap_app_inv in Hx as (xs1 & xs2 & H1 & H2 & ->).
    apply Forall_app in Ht as [Ht1 Ht2]. rewrite foldl_app.
    eapply Conversation.decide_usage; [done|by apply Hu|done|done|by symmetry|done].
Qed.

Definition demo_talk : list Conversation.Command :=
  [Conversation.Start "c" "u" "m" ""; Conversation.AppendUserMessage "u" "hello" 7;
   Conversation.AppendAssistantMessage "" "hi" 9].

Lemma conversation_bounded_witness :
  exists s es ops, plays Conversation.decider demo_talk (Conversation.initial, [], []) = Some (s, es, ops) /\
    Conversation.within s /\ Conversation.TokensInput s = 7 /\ Conversation.TokensOutput s = 9.
Proof.
  destruct (plays Conversation.decider demo_talk (Conversation.initial, [], [])) as [[[s es] ops]|] eqn:E;
    [|vm_compute in E; discriminate].
  assert (H : history Conversation.decider Conversation.sane s es ops).
  { refine (plays_history Conversation.decider Conversation.sane demo_talk _ _ _ _ E); [|apply h_start].
    repeat apply Forall_cons_2; try apply Forall_nil_2; simpl; (discriminate || lia). }
  exists s, es, ops. split; [reflexivity|]. destruct (conversation_bounded s es ops H) as (H1 & _).
  split; [exact H1|]. vm_compute in E. injection E as <- <- <-. split; reflexivity.
Defined.

(** Close is not idempotent: on a closed conversation it is refused, so the
    branch that answers with no events is never taken. *)
Lemma close_again_refused s user reason :
  Conversation.ConversationId s <> "" -> Conversation.Closed_ s = true ->
  Conversation.decide_ s (Conversation.Close user reason) = Err Conversation.ErrConversationClosed.
Proof.
  intros Hid Hc. simpl. unfold Conversation.guardStarted. by rewrite bool_decide_eq_false_2, Hc.
Qed.

(** The budget does not bound what the assistant spends. *)
Lemma assistant_over_budget :
  match plays Conversation.decider
    [Conversation.Start "c" "u" "m" ""; Conversation.AppendAssistantMessage "" "hi" 1000000]
    (Conversation.initial, [], []) with
  | Some (s, _, _) => Conversation.MaxTokensBudget < Conversation.TokensOutput s
  | None => False
  end.
Proof. vm_compute. reflexivity. Qed.
