(* ===== verification/PgDB.v ===== *)
(** * The PostgreSQL server under the adapter
      (adapters/storage/postgres/migrations, internal/db, pgx)

    The tables of the schema, the row-level-security policies of migration
    00015, statements, and the two ways programs of statements run: alone
    ([call], used for the functional behaviour) and interleaved with other
    sessions (PgConcurrent.v).  A statement is a function of the session's
    settings, the clock, the position sequence and the rows it sees; it
    returns what it writes as a function, which a transaction collects and
    commit applies.  The sequence is not transactional: what a rolled-back
    statement drew from it stays drawn.  Which statements fail, what the clock
    reads and whether a commit acknowledgement is lost is decided by an
    [Oracle]; every theorem is quantified over it. *)
From S2P Require Import Prelude Errors Streams Events Sql.

Module Pg.

(** ** Rows (internal/db/models.go) *)

Record Event := mkEvent {
  ev_event_id : UUID;
  ev_tenant_id : string;
  ev_stream_id : string;
  ev_version : Z;
  ev_global_position : Z;
  ev_type_url : string;
  ev_schema_version : Z;
  ev_occurred_at : Time;
  ev_recorded_at : Time;
  ev_correlation_id : UUID;
  ev_causation_id : UUID;
  ev_command_id : UUID;
  ev_actor : string;
  ev_actor_principal : string;
  ev_payload : bytes;
  ev_payload_json : option string;
  ev_encryption_key_refs : option string;
  ev_hash : option bytes;
  ev_prev_hash : option bytes
}.

Record Outbox := mkOutbox {
  ob_tenant_id : string;
  ob_global_position : Z;
  ob_event_id : UUID;
  ob_enqueued_at : Time;
  ob_published_at : option Time;
  ob_attempts : Z;
  ob_last_error : option string;
  ob_next_attempt_at : option Time
}.

Record UniqueClaim := mkUniqueClaim {
  uc_tenant_id : string;
  uc_scope : string;
  uc_value : string;
  uc_stream_id : string;
  uc_claimed_at : Time
}.

Record StateCache := mkStateCache {
  st_tenant_id : string;
  st_stream_id : string;
  st_type_url : string;
  st_state : string;
  st_version : Z;
  st_terminal : bool;
  st_updated_at : Time;
  st_state_schema_version : Z
}.

Record SubjectKey := mkSubjectKey {
  sk_tenant_id : string;
  sk_subject : string;
  sk_dek_wrapped : bytes;
  sk_kek_version : Z;
  sk_created_at : Time;
  sk_shredded_at : option Time
}.

Record ProjectionCheckpoint := mkProjectionCheckpoint {
  pc_name : string;
  pc_tenant_id : string;
  pc_cursor : Z;
  pc_updated_at : Time
}.

Record ProjectionDlq := mkProjectionDlq {
  pd_projection_name : string;
  pd_tenant_id : string;
  pd_global_position : Z;
  pd_event_id : UUID;
  pd_type_url : string;
  pd_last_error : string;
  pd_enqueued_at : Time
}.

Record ProcessedEvent := mkProcessedEvent {
  pe_projection_name : string;
  pe_tenant_id : string;
  pe_event_id : UUID;
  pe_processed_at : Time
}.

Record StateStreamSubscriber := mkStateStreamSubscriber {
  ss_name : string;
  ss_tenant_id : string;
  ss_stream_id : string;
  ss_last_delivered_version : Z;
  ss_updated_at : Time
}.

Record SubscriberDlq := mkSubscriberDlq {
  sd_subscriber_name : string;
  sd_tenant_id : string;
  sd_stream_id : string;
  sd_first_event_id : string;
  sd_event_ids : list string;
  sd_type_urls : list string;
  sd_last_error : string;
  sd_attempts : Z;
  sd_enqueued_at : Time
}.

Record DB := mkDB {
  events : list Event;
  outbox : list Outbox;
  unique_claims : list UniqueClaim;
  state_cache : list StateCache;
  subject_keys : list SubjectKey;
  projection_checkpoint : list ProjectionCheckpoint;
  projection_dlq : list ProjectionDlq;
  processed_events : list ProcessedEvent;
  state_stream_subscribers : list StateStreamSubscriber;
  subscriber_dlq : list SubscriberDlq
}.

Definition empty_db : DB := mkDB [] [] [] [] [] [] [] [] [] [].

(** ** Tables *)

(** [tb_shared t]: the policy admits rows of tenant [t] whatever tenant is
    bound. *)
Record Table (R : Type) := mkTable {
  tb_name : string;
  tb_rows : DB -> list R;
  tb_set : list R -> DB -> DB;
  tb_tenant : R -> string;
  tb_shared : string -> bool
}.
Arguments mkTable {_} _ _ _ _ _.
Arguments tb_name {_} _.
Arguments tb_rows {_} _ _.
Arguments tb_set {_} _ _ _.
Arguments tb_tenant {_} _ _.
Arguments tb_shared {_} _ _.

Definition not_shared (t : string) : bool := false.

(** Cross-tenant claims are written under the tenant "__global__". *)
Definition global_tenant (t : string) : bool := bool_decide (t = "__global__").

Definition Events : Table Event := mkTable "events" events
  (fun l d => mkDB l (outbox d) (unique_claims d) (state_cache d) (subject_keys d)
     (projection_checkpoint d) (projection_dlq d) (processed_events d)
     (state_stream_subscribers d) (subscriber_dlq d)) ev_tenant_id not_shared.
Definition OutboxT : Table Outbox := mkTable "outbox" outbox
  (fun l d => mkDB (events d) l (unique_claims d) (state_cache d) (subject_keys d)
     (projection_checkpoint d) (projection_dlq d) (processed_events d)
     (state_stream_subscribers d) (subscriber_dlq d)) ob_tenant_id not_shared.
Definition UniqueClaims : Table UniqueClaim := mkTable "unique_claims" unique_claims
  (fun l d => mkDB (events d) (outbox d) l (state_cache d) (subject_keys d)
     (projection_checkpoint d) (projection_dlq d) (processed_events d)
     (state_stream_subscribers d) (subscriber_dlq d)) uc_tenant_id global_tenant.
Definition StateCacheT : Table StateCache := mkTable "state_cache" state_cache
  (fun l d => mkDB (events d) (outbox d) (unique_claims d) l (subject_keys d)
     (projection_checkpoint d) (projection_dlq d) (processed_events d)
     (state_stream_subscribers d) (subscriber_dlq d)) st_tenant_id not_shared.
Definition SubjectKeys : Table SubjectKey := mkTable "subject_keys" subject_keys
  (fun l d => mkDB (events d) (outbox d) (unique_claims d) (state_cache d) l
     (projection_checkpoint d) (projection_dlq d) (processed_events d)
     (state_stream_subscribers d) (subscriber_dlq d)) sk_tenant_id not_shared.
Definition Checkpoints : Table ProjectionCheckpoint :=
  mkTable "projection_checkpoint" projection_checkpoint
  (fun l d => mkDB (events d) (outbox d) (unique_claims d) (state_cache d) (subject_keys d)
     l (projection_dlq d) (processed_events d)
     (state_stream_subscribers d) (subscriber_dlq d)) pc_tenant_id not_shared.
Definition ProjectionDlqs : Table ProjectionDlq := mkTable "projection_dlq" projection_dlq
  (fun l d => mkDB (events d) (outbox d) (unique_claims d) (state_cache d) (subject_keys d)
     (projection_checkpoint d) l (processed_events d)
     (state_stream_subscribers d) (subscriber_dlq d)) pd_tenant_id not_shared.
Definition Processed : Table ProcessedEvent := mkTable "processed_events" processed_events
  (fun l d => mkDB (events d) (outbox d) (unique_claims d) (state_cache d) (subject_keys d)
     (projection_checkpoint d) (projection_dlq d) l
     (state_stream_subscribers d) (subscriber_dlq d)) pe_tenant_id not_shared.
Definition Subscribers : Table StateStreamSubscriber :=
  mkTable "state_stream_subscribers" state_stream_subscribers
  (fun l d => mkDB (events d) (outbox d) (unique_claims d) (state_cache d) (subject_keys d)
     (projection_checkpoint d) (projection_dlq d) (processed_events d)
     l (subscriber_dlq d)) ss_tenant_id not_shared.
Definition SubscriberDlqs : Table SubscriberDlq := mkTable "subscriber_dlq" subscriber_dlq
  (fun l d => mkDB (events d) (outbox d) (unique_claims d) (state_cache d) (subject_keys d)
     (projection_checkpoint d) (projection_dlq d) (processed_events d)
     (state_stream_subscribers d) l) sd_tenant_id not_shared.

(** ** Row-level security (migrations/00015_rls_tenant_isolation.sql) *)

(** What a session brings: whether the policies are installed, whether its
    role has BYPASSRLS, and the setting app.tenant_id. *)
Record Env := mkEnv { env_rls : bool; env_bypass : bool; env_tenant : option string }.

Definition enforced (e : Env) : bool := env_rls e && negb (env_bypass e).

(** The USING and WITH CHECK clause of tenant_isolation. *)
Definition admits {R} (T : Table R) (e : Env) (r : R) : bool :=
  negb (enforced e) || bool_decide (env_tenant e = Some (tb_tenant T r)) ||
  tb_shared T (tb_tenant T r).

(** current_setting('app.tenant_id', false) raises an error when the setting
    does not exist. *)
Definition setting_bound (e : Env) : bool :=
  negb (enforced e) || match env_tenant e with Some _ => true | None => false end.

Definition visible {R} (T : Table R) (e : Env) (d : DB) : list R :=
  List.filter (admits T e) (tb_rows T d).

(** The database as the session sees it. *)
Definition restrict (e : Env) (d : DB) : DB :=
  mkDB (visible Events e d) (visible OutboxT e d) (visible UniqueClaims e d)
    (visible StateCacheT e d) (visible SubjectKeys e d) (visible Checkpoints e d)
    (visible ProjectionDlqs e d) (visible Processed e d) (visible Subscribers e d)
    (visible SubscriberDlqs e d).

(** ** Statements *)

(** The server's JSONB input, its text collation, the partition a tenant hashes
    to, and encoding/json on the actor column. *)
Record actorJSON := mkActorJSON {
  aj_Kind : Z;
  aj_Principal : string;
  aj_OnBehalfOf : string;
  aj_APIKeyID : string;
  aj_Attributes : gmap string string
}.

Class PgPrims := {
  pg_jsonb : string -> res string;
  pg_leb : string -> string -> bool;
  pg_partition : string -> string;
  pg_marshal_actor : actorJSON -> res string;
  pg_unmarshal_actor : string -> res actorJSON
}.

(** A statement: the transaction-scoped advisory lock it takes, if any, and
    what it does with the session's settings, the clock, the sequence and the
    database: the sequence afterwards, what it writes, and its result. *)
Record Stmt (A : Type) := mkStmt {
  s_lock : option Z;
  s_run : Env -> Time -> Z -> DB -> Z * (DB -> DB) * res A
}.
Arguments mkStmt {_} _ _.
Arguments s_lock {_} _.
Arguments s_run {_} _ _ _ _ _.

(** timestamptz keeps microseconds; pgx drops the rest when it encodes. *)
Definition pg_time (t : Time) : Time := t / 1000 * 1000.

(** TEXT holds valid UTF-8 without NUL. *)
Definition pg_text (s : string) : bool :=
  utf8_valid s && str_forall (fun c => negb (bool_decide (c = Ascii.zero))) s.

Definition err_text : err := EPg "22021" "".
Definition err_setting : err := EPg "42704" "".
Definition err_limit : err := EPg "2201W" "".
Definition err_range : err := EPg "22003" "".
Definition err_sequence : err := EPg "2200H" "".
Definition err_policy (table : string) : err := EPg "42501" table.
Definition err_unique (table : string) : err := EPg "23505" table.

Definition refuse {A} (seq : Z) (e : err) : Z * (DB -> DB) * res A := (seq, id, Err e).

(** A statement on tenant tables with the TEXT parameters [texts]. *)
Definition guarded {A} (texts : list string)
    (f : Env -> Time -> Z -> DB -> Z * (DB -> DB) * res A) : Stmt A :=
  mkStmt None (fun e now seq d =>
    if negb (forallb pg_text texts) then refuse seq err_text
    else if negb (setting_bound e) then refuse seq err_setting
    else f e now seq d).

Definition select {A} (texts : list string) (f : DB -> res A) : Stmt A :=
  guarded texts (fun e _ seq d => (seq, id, f (restrict e d))).

(** SELECT ... LIMIT n. *)
Definition select_limit {A} (texts : list string) (n : Z) (f : DB -> list A) : Stmt (list A) :=
  select texts (fun d => if n <? 0 then Err err_limit else Ok (take (Z.to_nat n) (f d))).

(** :one, the first row or pgx.ErrNoRows. *)
Definition select_one {A} (texts : list string) (f : DB -> list A) : Stmt A :=
  select texts (fun d => match f d with x :: _ => Ok x | [] => Err (ESent ErrNoRows) end).

Section Tables.
Context {PP : PgPrims} {R : Type} (T : Table R).

(** UPDATE T SET ... WHERE p; the count of rows. *)
Definition update_rows (texts : list string) (p : R -> bool) (f : Time -> R -> R) : Stmt Z :=
  guarded texts (fun e now seq d =>
    let q r := admits T e r && p r in
    (seq, (fun d' => tb_set T (sql_update q (f now) (tb_rows T d')) d'),
     Ok (sql_count q (tb_rows T d)))).

(** DELETE FROM T WHERE p; the count of rows. *)
Definition delete_rows (texts : list string) (p : R -> bool) : Stmt Z :=
  guarded texts (fun e now seq d =>
    let q r := admits T e r && p r in
    (seq, (fun d' => tb_set T (List.filter (fun r => negb (q r)) (tb_rows T d')) d'),
     Ok (sql_count q (tb_rows T d)))).

(** The name of the partition that holds tenant [t], as errors report it. *)
Definition partition_name (t : string) : string := tb_name T +:+ pg_partition t.

Definition push (r : R) (d : DB) : DB := tb_set T (tb_rows T d ++ [r]) d.

(** INSERT INTO T of the row [row now], which conflicts with the rows [p]. *)
Definition insert_row (texts : list string) (p : R -> bool) (row : Time -> R) : Stmt unit :=
  guarded texts (fun e now seq d =>
    let r := row now in
    if negb (admits T e r) then refuse seq (err_policy (tb_name T))
    else if existsb p (tb_rows T d)
    then refuse seq (err_unique (partition_name (tb_tenant T r)))
    else (seq, push r, Ok tt)).

(** INSERT ... ON CONFLICT DO UPDATE: the row with the same key becomes
    [merge new old]. *)
Definition upsert_row (p : R -> bool) (merge : R -> R -> R) (r : R) (d : DB) : DB :=
  let rows := tb_rows T d in
  if existsb p rows then tb_set T (sql_update p (merge r) rows) d else push r d.

Definition upsert (texts : list string) (p : R -> bool) (merge : R -> R -> R) (row : Time -> R)
    : Stmt unit :=
  guarded texts (fun e now seq d =>
    let r := row now in
    if negb (admits T e r) then refuse seq (err_policy (tb_name T))
    else (seq, upsert_row p merge r, Ok tt)).
End Tables.

(** A statement whose row count is dropped (:exec). *)
Definition exec (s : Stmt Z) : Stmt unit :=
  mkStmt (s_lock s) (fun e now seq d =>
    let '(seq', w, r) := s_run s e now seq d in
    (seq', w, match r with Ok _ => Ok tt | Err x => Err x end)).

(** ** Programs of statements *)

Inductive prog (A : Type) : Type :=
  | PRet (r : res A)
  | PCall (B : Type) (s : Stmt B) (k : res B -> prog A).
Arguments PRet {_} _.
Arguments PCall {_} _ _ _.

Fixpoint pbind {A B} (f : A -> prog B) (p : prog A) : prog B :=
  match p with
  | PRet (Ok a) => f a
  | PRet (Err e) => PRet (Err e)
  | PCall _ s k => PCall _ s (fun r => pbind f (k r))
  end.

#[global] Instance prog_ret : MRet prog := fun A a => PRet (Ok a).
#[global] Instance prog_bind : MBind prog := fun A B f p => pbind f p.

Definition perform {A} (s : Stmt A) : prog A := PCall A s PRet.

(** The error as a value; the error changed. *)
Definition ptry {A} (s : Stmt A) : prog (res A) := PCall A s (fun r => PRet (Ok r)).
Definition on_err {A} (f : err -> err) (r : res A) : res A :=
  match r with Ok a => Ok a | Err e => Err (f e) end.
Definition pmap_err {A} (f : err -> err) (s : Stmt A) : prog A :=
  PCall A s (fun r => PRet (on_err f r)).

Fixpoint pforM {A} (l : list A) (f : A -> prog unit) : prog unit :=
  match l with
  | [] => PRet (Ok tt)
  | x :: l' => pbind (fun _ => pforM l' f) (f x)
  end.

(** ** The adapter's methods

    Every method runs at most one transaction on the main pool, with
    app.tenant_id bound to a tenant, or one statement outside a transaction on
    one of the pools, and then computes its answer. *)

Inductive Pool : Set := MainPool | AdminPool.

Inductive Method (A : Type) : Type :=
  | Return (r : res A)
  | Tx (B : Type) (tenant : string) (body : prog B) (post : res B -> res A)
  | Auto (B : Type) (pool : Pool) (s : Stmt B) (post : res B -> res A).
Arguments Return {_} _.
Arguments Tx {_} _ _ _ _.
Arguments Auto {_} _ _ _ _.

Definition after {A B} (m : Method A) (f : res A -> res B) : Method B :=
  match m with
  | Return r => Return (f r)
  | Tx C t body post => Tx C t body (fun r => f (post r))
  | Auto C p s post => Auto C p s (fun r => f (post r))
  end.

(** [rows, err := m; if err != nil { return nil, err }; return f(rows)] *)
Definition and_then {A B} (f : A -> res B) (r : res A) : res B :=
  match r with Ok a => f a | Err e => Err e end.

(** ** Running alone *)

Record World := mkWorld { w_db : DB; w_seq : Z; w_tick : nat }.

(** [o_fault n] is the text of the driver error the [n]th statement fails with,
    if any; [o_now n] is the server's clock; [o_lost n]: the commit that fails
    at tick [n] took effect and only its acknowledgement was lost; [o_used n]: the
    connection of the main pool handed out at tick [n] has run a tenant
    transaction before. *)
Record Oracle := mkOracle {
  o_fault : nat -> option string;
  o_now : nat -> Time;
  o_lost : nat -> bool;
  o_used : nat -> bool
}.

Definition no_faults (now : nat -> Time) : Oracle :=
  mkOracle (fun _ => None) now (fun _ => false) (fun _ => true).

(** The deployment: whether migration 00015 ran, and which of the roles of the
    two pools have BYPASSRLS. *)
Record Deployment := mkDeployment {
  dp_rls : bool;
  dp_main_bypass : bool;
  dp_admin_bypass : bool
}.

Definition tenant_env (dp : Deployment) (tenant : string) : Env :=
  mkEnv (dp_rls dp) (dp_main_bypass dp) (Some tenant).

(** Outside a transaction: SET LOCAL leaves the setting behind as the empty
    string on a connection that has used it. *)
Definition pool_env (O : Oracle) (dp : Deployment) (pool : Pool) (t : nat) : Env :=
  match pool with
  | MainPool => mkEnv (dp_rls dp) (dp_main_bypass dp) (if o_used O t then Some "" else None)
  | AdminPool => mkEnv (dp_rls dp) (dp_admin_bypass dp) None
  end.

Section Run.
Context (O : Oracle).

Definition run_stmt {A} (e : Env) (s : Stmt A) : M World A := fun w =>
  let t := w_tick w in
  match o_fault O t with
  | Some msg => (mkWorld (w_db w) (w_seq w) (S t), Err (ENew msg))
  | None =>
      let '(seq, wr, r) := s_run s e (o_now O t) (w_seq w) (w_db w) in
      (mkWorld (wr (w_db w)) seq (S t), r)
  end.

Fixpoint run {A} (e : Env) (p : prog A) : M World A :=
  match p with
  | PRet r => of_res r
  | PCall _ s k => fun w => let '(w', r) := run_stmt e s w in run e (k r) w'
  end.

Definition tick (w : World) : World := mkWorld (w_db w) (w_seq w) (S (w_tick w)).

(** The rows as they were, the sequence as it is. *)
Definition rollback (w w' : World) : World := mkWorld (w_db w) (w_seq w') (w_tick w').

(** pgx.BeginFunc around set_config and the body. *)
Definition run_tx {A} (dp : Deployment) (tenant : string) (body : prog A) : M World A := fun w =>
  match o_fault O (w_tick w) with
  | Some msg => (tick w, Err (ENew msg))
  | None =>
      let w1 := tick w in
      match o_fault O (w_tick w1) with
      | Some msg => (tick w1, Err (EWrap "bind tenant" (ENew msg)))
      | None =>
          match run (tenant_env dp tenant) body (tick w1) with
          | (w2, Err e) => (rollback w w2, Err e)
          | (w2, Ok a) =>
              match o_fault O (w_tick w2) with
              | None => (tick w2, Ok a)
              | Some msg =>
                  (if o_lost O (w_tick w2) then tick w2 else rollback w (tick w2), Err (ENew msg))
              end
          end
      end
  end.

(** A statement outside a transaction commits on its own. *)
Definition run_auto {A} (e : Env) (s : Stmt A) : M World A := fun w =>
  let t := w_tick w in
  let '(seq, wr, r) := s_run s e (o_now O t) (w_seq w) (w_db w) in
  match o_fault O t with
  | Some msg => (if o_lost O t then mkWorld (wr (w_db w)) seq (S t) else tick w, Err (ENew msg))
  | None => (mkWorld (wr (w_db w)) seq (S t), r)
  end.

Definition call {A} (dp : Deployment) (m : Method A) : M World A := fun w =>
  match m with
  | Return r => (w, r)
  | Tx B tenant body post => let '(w', r) := run_tx dp tenant body w in (w', post r)
  | Auto B pool s post =>
      let '(w', r) := run_auto (pool_env O dp pool (w_tick w)) s w in (w', post r)
  end.
End Run.

End Pg.
