(* ===== verification/PgQueries.v ===== *)
(** * The queries of the Postgres adapter (adapters/storage/postgres/internal/db)

    One statement per query of the generated package, with the SQL of its
    text. *)
From S2P Require Import Prelude Errors Streams Events Sql PgDB.
Import Pg.

Module Q.
Section Q.
Context {PP : PgPrims}.

(** ORDER BY a text column, in the collation of the database. *)
Definition collate_le {A} (key : A -> string) : relation A := fun a b => pg_leb (key a) (key b) = true.

#[local] Instance collate_le_dec {A} (key : A -> string) : RelDecision (collate_le key).
Proof. intros a b. unfold collate_le. apply _. Defined.

Definition order_by_collate {A} (key : A -> string) : list A -> list A := merge_sort (collate_le key).

Definition pg_ltb (a b : string) : bool := negb (pg_leb b a).

(** ** append.sql.go *)

(** pg_advisory_xact_lock: waits until no other transaction holds the key. *)
Definition AdvisoryLock (lockKey : Z) : Stmt unit :=
  mkStmt (Some lockKey) (fun _ _ seq _ => (seq, id, Ok tt)).

Definition set_hash (hash prevHash : bytes) (r : Event) : Event :=
  mkEvent (ev_event_id r) (ev_tenant_id r) (ev_stream_id r) (ev_version r)
    (ev_global_position r) (ev_type_url r) (ev_schema_version r) (ev_occurred_at r)
    (ev_recorded_at r) (ev_correlation_id r) (ev_causation_id r) (ev_command_id r)
    (ev_actor r) (ev_actor_principal r) (ev_payload r) (ev_payload_json r)
    (ev_encryption_key_refs r) (nullable_blob hash) (nullable_blob prevHash).

Definition is_event (tenant : string) (id : UUID) (r : Event) : bool :=
  bool_decide (ev_tenant_id r = tenant) && (ev_event_id r =? id).

Definition is_none {A} (o : option A) : bool := match o with None => true | Some _ => false end.

Definition BackfillEventHash (hash prevHash : bytes) (tenant : string) (id : UUID) : Stmt Z :=
  update_rows Events [tenant]
    (fun r => is_event tenant id r && is_none (ev_hash r))
    (fun _ => set_hash hash prevHash).

Record InsertEventParams := mkInsertEventParams {
  ie_EventID : UUID;
  ie_TenantID : string;
  ie_StreamID : string;
  ie_Version : Z;
  ie_TypeUrl : string;
  ie_SchemaVersion : Z;
  ie_OccurredAt : Time;
  ie_CorrelationID : UUID;
  ie_CausationID : UUID;
  ie_CommandID : UUID;
  ie_Actor : string;
  ie_ActorPrincipal : string;
  ie_Payload : bytes;
  ie_PayloadJson : option string;
  ie_EncryptionKeyRefs : option string;
  ie_Hash : bytes;
  ie_PrevHash : bytes
}.

Definition in_stream (tenant stream : string) (r : Event) : bool :=
  bool_decide (ev_tenant_id r = tenant) && bool_decide (ev_stream_id r = stream).

(** PRIMARY KEY (tenant_id, stream_id, version) and the unique index on
    (tenant_id, event_id). *)
Definition event_conflict (a r : Event) : bool :=
  (in_stream (ev_tenant_id a) (ev_stream_id a) r && (ev_version r =? ev_version a)) ||
  is_event (ev_tenant_id a) (ev_event_id a) r.

Definition opt_jsonb (o : option string) : res (option string) :=
  match o with
  | None => Ok None
  | Some s => match pg_jsonb s with Ok t => Ok (Some t) | Err e => Err e end
  end.

Definition event_row (arg : InsertEventParams) (gp : Z) (now : Time)
    (actor : string) (pj kr : option string) : Event :=
  mkEvent (ie_EventID arg) (ie_TenantID arg) (ie_StreamID arg) (ie_Version arg) gp
    (ie_TypeUrl arg) (ie_SchemaVersion arg) (pg_time (ie_OccurredAt arg)) (pg_time now)
    (ie_CorrelationID arg) (ie_CausationID arg) (ie_CommandID arg) actor
    (ie_ActorPrincipal arg) (ie_Payload arg) pj kr (Some (ie_Hash arg)) (Some (ie_PrevHash arg)).

(** nextval is drawn before the row is checked, and stays drawn when the check
    fails. *)
Definition insert_event (row : Z -> Event) (e : Env) (seq : Z) (d : DB)
    : Z * (DB -> DB) * res (Z * Time) :=
  if max_i64 <=? seq then refuse seq err_sequence
  else
    let gp := seq + 1 in
    let r := row gp in
    if negb (admits Events e r) then refuse gp (err_policy "events")
    else if existsb (event_conflict r) (events d)
    then refuse gp (err_unique (partition_name Events (ev_tenant_id r)))
    else (gp, push Events r, Ok (gp, ev_recorded_at r)).

Definition InsertEvent (arg : InsertEventParams) : Stmt (Z * Time) :=
  guarded [ie_TenantID arg; ie_StreamID arg; ie_TypeUrl arg; ie_ActorPrincipal arg]
    (fun e now seq d =>
      match pg_jsonb (ie_Actor arg), opt_jsonb (ie_PayloadJson arg),
            opt_jsonb (ie_EncryptionKeyRefs arg) with
      | Ok actor, Ok pj, Ok kr => insert_event (fun gp => event_row arg gp now actor pj kr) e seq d
      | Err x, _, _ | _, Err x, _ | _, _, Err x => refuse seq x
      end).

Definition same_outbox (tenant : string) (gp : Z) (r : Outbox) : bool :=
  bool_decide (ob_tenant_id r = tenant) && (ob_global_position r =? gp).

Definition InsertOutbox (tenant : string) (gp : Z) (id : UUID) : Stmt unit :=
  insert_row OutboxT [tenant] (same_outbox tenant gp)
    (fun now => mkOutbox tenant gp id (pg_time now) None 0 None None).

Definition stream_rows (tenant stream : string) (d : DB) : list Event :=
  order_by ev_version (List.filter (in_stream tenant stream) (events d)).

Definition LastStreamHash (tenant stream : string) : Stmt (option bytes) :=
  select_one [tenant; stream] (fun d => ev_hash <$> reverse (stream_rows tenant stream d)).

(** ** constraint.sql.go *)

Definition same_claim (tenant scope value : string) (r : UniqueClaim) : bool :=
  bool_decide (uc_tenant_id r = tenant) && bool_decide (uc_scope r = scope) &&
  bool_decide (uc_value r = value).

Definition ClaimUnique (tenant scope value stream : string) : Stmt unit :=
  insert_row UniqueClaims [tenant; scope; value; stream] (same_claim tenant scope value)
    (fun now => mkUniqueClaim tenant scope value stream (pg_time now)).

Definition GetUniqueClaim (tenant scope value : string) : Stmt UniqueClaim :=
  select_one [tenant; scope; value]
    (fun d => List.filter (same_claim tenant scope value) (unique_claims d)).

Definition ReleaseUnique (tenant scope value : string) : Stmt unit :=
  exec (delete_rows UniqueClaims [tenant; scope; value] (same_claim tenant scope value)).

(** ** read.sql.go *)

Definition ReadStream (tenant stream : string) : Stmt (list Event) :=
  select [tenant; stream] (fun d => Ok (stream_rows tenant stream d)).

Definition ReadStreamFromVersion (tenant stream : string) (after : Z) : Stmt (list Event) :=
  select [tenant; stream] (fun d =>
    Ok (order_by ev_version
          (List.filter (fun r => in_stream tenant stream r && (after <? ev_version r)) (events d)))).

(** COALESCE(MAX(version), 0) *)
Definition max_version (rows : list Event) : Z :=
  match ev_version <$> rows with [] => 0 | v :: vs => foldr Z.max v vs end.

Definition CurrentStreamVersion (tenant stream : string) : Stmt Z :=
  select [tenant; stream] (fun d =>
    Ok (max_version (List.filter (in_stream tenant stream) (events d)))).

Definition ReadAllFromPosition (after maxRows : Z) : Stmt (list Event) :=
  select_limit [] maxRows (fun d =>
    order_by ev_global_position
      (List.filter (fun r => after <? ev_global_position r) (events d))).

Definition ReadAllFromPositionTenant (tenant : string) (after maxRows : Z) : Stmt (list Event) :=
  select_limit [tenant] maxRows (fun d =>
    order_by ev_global_position
      (List.filter (fun r => bool_decide (ev_tenant_id r = tenant) &&
                             (after <? ev_global_position r)) (events d))).

Definition GetEventByID (tenant : string) (id : UUID) : Stmt Event :=
  select_one [tenant] (fun d => List.filter (is_event tenant id) (events d)).

(** ** state_cache.sql.go *)

Definition same_state (tenant stream : string) (r : StateCache) : bool :=
  bool_decide (st_tenant_id r = tenant) && bool_decide (st_stream_id r = stream).

Definition UpsertStateCache (tenant stream typeURL state : string) (version : Z) (terminal : bool)
    (schema : Z) : Stmt unit :=
  guarded [tenant; stream; typeURL] (fun e now seq d =>
    match pg_jsonb state with
    | Err x => refuse seq x
    | Ok js =>
        s_run (upsert StateCacheT [] (same_state tenant stream) (fun new _ => new)
                 (fun now => mkStateCache tenant stream typeURL js version terminal
                               (pg_time now) schema)) e now seq d
    end).

Definition GetState (tenant stream : string) : Stmt StateCache :=
  select_one [tenant; stream] (fun d => List.filter (same_state tenant stream) (state_cache d)).

Definition ListStates (tenant typeURL after : string) (maxRows : Z) : Stmt (list StateCache) :=
  select_limit [tenant; typeURL; after] maxRows (fun d =>
    order_by_collate st_stream_id
      (List.filter (fun r => bool_decide (st_tenant_id r = tenant) &&
                             bool_decide (st_type_url r = typeURL) &&
                             pg_ltb after (st_stream_id r)) (state_cache d))).

(** ORDER BY tenant_id, stream_id, and the row comparison. *)
Definition pair_leb (a b : StateCache) : bool :=
  if bool_decide (st_tenant_id a = st_tenant_id b) then pg_leb (st_stream_id a) (st_stream_id b)
  else pg_leb (st_tenant_id a) (st_tenant_id b).

Definition pair_le : relation StateCache := fun a b => pair_leb a b = true.

#[local] Instance pair_le_dec : RelDecision pair_le.
Proof. intros a b. unfold pair_le. apply _. Defined.

Definition after_pair (t s : string) (r : StateCache) : bool :=
  if bool_decide (st_tenant_id r = t) then pg_ltb s (st_stream_id r) else pg_ltb t (st_tenant_id r).

Definition ListStatesAll (typeURL afterTenant afterStream : string) (maxRows : Z)
    : Stmt (list StateCache) :=
  select_limit [typeURL; afterTenant; afterStream] maxRows (fun d =>
    merge_sort pair_le
      (List.filter (fun r => bool_decide (st_type_url r = typeURL) &&
                             after_pair afterTenant afterStream r) (state_cache d))).

Definition DeleteStateCacheForType (tenant typeURL : string) : Stmt Z :=
  delete_rows StateCacheT [tenant; typeURL]
    (fun r => bool_decide (st_tenant_id r = tenant) && bool_decide (st_type_url r = typeURL)).

Definition DeleteStateCacheForTypeAllTenants (typeURL : string) : Stmt Z :=
  delete_rows StateCacheT [typeURL] (fun r => bool_decide (st_type_url r = typeURL)).

(** ** outbox.sql.go *)

Definition pending (r : Outbox) : bool := is_none (ob_published_at r).

Definition PendingOutboxRows (tenant : string) (maxRows : Z) : Stmt (list Outbox) :=
  select_limit [tenant] maxRows (fun d =>
    order_by ob_global_position
      (List.filter (fun r => bool_decide (ob_tenant_id r = tenant) && pending r) (outbox d))).

Definition PendingOutboxRowsAllTenants (maxRows : Z) : Stmt (list Outbox) :=
  select_limit [] maxRows (fun d =>
    order_by ob_global_position (List.filter pending (outbox d))).

(** outbox o JOIN events e ON tenant_id and event_id. *)
Definition joined (d : DB) : list (Outbox * Event) :=
  o ← outbox d;
  (fun e => (o, e)) <$> List.filter (is_event (ob_tenant_id o) (ob_event_id o)) (events d).

Definition due (now : Time) (o : Outbox) : bool :=
  match ob_next_attempt_at o with None => true | Some t => t <=? now end.

(** The head rule: an unpublished row below the DLQ threshold with a lower
    version of the same stream. *)
Definition blocks (maxAttempts : Z) (e : Event) (x : Outbox * Event) : bool :=
  let '(o2, e2) := x in
  bool_decide (ev_tenant_id e2 = ev_tenant_id e) && bool_decide (ev_stream_id e2 = ev_stream_id e) &&
  (ev_version e2 <? ev_version e) && pending o2 && (ob_attempts o2 <? maxAttempts).

Definition PendingOutboxWithEnvelope (now : Time) (maxAttempts maxRows : Z)
    : Stmt (list (Outbox * Event)) :=
  select_limit [] maxRows (fun d =>
    order_by (fun x => ob_global_position (fst x))
      (List.filter (fun x =>
         pending (fst x) && due (pg_time now) (fst x) && (ob_attempts (fst x) <? maxAttempts) &&
         negb (existsb (blocks maxAttempts (snd x)) (joined d))) (joined d))).

Definition dead (maxAttempts : Z) (o : Outbox) : bool := pending o && (maxAttempts <=? ob_attempts o).

(** SELECT DISTINCT, in the order of first occurrence. *)
Definition stream_pair (x : Outbox * Event) : string * string :=
  (ob_tenant_id (fst x), ev_stream_id (snd x)).

Definition QuarantinedStreams (maxAttempts : Z) (tenant : string) : Stmt (list (string * string)) :=
  select [tenant] (fun d =>
    Ok (remove_dups (stream_pair <$>
          List.filter (fun x => dead maxAttempts (fst x) &&
                                bool_decide (ob_tenant_id (fst x) = tenant)) (joined d)))).

Definition QuarantinedStreamsAllTenants (maxAttempts : Z) : Stmt (list (string * string)) :=
  select [] (fun d =>
    Ok (remove_dups (stream_pair <$> List.filter (fun x => dead maxAttempts (fst x)) (joined d)))).

Definition set_published (t : option Time) (o : Outbox) : Outbox :=
  mkOutbox (ob_tenant_id o) (ob_global_position o) (ob_event_id o) (ob_enqueued_at o) t
    (ob_attempts o) (ob_last_error o) (ob_next_attempt_at o).
Definition set_attempts (n : Z) (lastError : option string) (next : option Time) (o : Outbox) : Outbox :=
  mkOutbox (ob_tenant_id o) (ob_global_position o) (ob_event_id o) (ob_enqueued_at o)
    (ob_published_at o) n lastError next.

Definition MarkOutboxPublished (tenant : string) (gp : Z) : Stmt unit :=
  exec (update_rows OutboxT [tenant] (same_outbox tenant gp)
          (fun now => set_published (Some (pg_time now)))).

(** attempts is an INTEGER: the increment fails at its largest value. *)
Definition MarkOutboxFailed (lastError : string) (next : Time) (tenant : string) (gp : Z)
    : Stmt unit :=
  guarded [lastError; tenant] (fun e now seq d =>
    if existsb (fun r => admits OutboxT e r && same_outbox tenant gp r &&
                         (max_i32 <=? ob_attempts r)) (outbox d)
    then refuse seq err_range
    else s_run (exec (update_rows OutboxT [] (same_outbox tenant gp)
           (fun _ o => set_attempts (ob_attempts o + 1) (Some lastError) (Some (pg_time next)) o)))
           e now seq d).

Definition published_before (t : Time) (o : Outbox) : bool :=
  match ob_published_at o with Some p => p <? t | None => false end.

Definition CleanupPublished (tenant : string) (olderThan : Time) : Stmt unit :=
  exec (delete_rows OutboxT [tenant]
    (fun r => bool_decide (ob_tenant_id r = tenant) && published_before (pg_time olderThan) r)).

Definition ListDLQ (tenant : string) (maxAttempts after maxRows : Z) : Stmt (list (Outbox * Event)) :=
  select_limit [tenant] maxRows (fun d =>
    order_by (fun x => ob_global_position (fst x))
      (List.filter (fun x => bool_decide (ob_tenant_id (fst x) = tenant) &&
                             dead maxAttempts (fst x) &&
                             (after <? ob_global_position (fst x))) (joined d))).

Definition CountDLQ (tenant : string) (maxAttempts : Z) : Stmt Z :=
  select [tenant] (fun d =>
    Ok (sql_count (fun r => bool_decide (ob_tenant_id r = tenant) && dead maxAttempts r) (outbox d))).

Definition CountPending (tenant : string) : Stmt Z :=
  select [tenant] (fun d =>
    Ok (sql_count (fun r => bool_decide (ob_tenant_id r = tenant) && pending r) (outbox d))).

Definition CountFailing (tenant : string) (maxAttempts : Z) : Stmt Z :=
  select [tenant] (fun d =>
    Ok (sql_count (fun r => bool_decide (ob_tenant_id r = tenant) && pending r &&
                            (0 <? ob_attempts r) && (ob_attempts r <? maxAttempts)) (outbox d))).

(** MIN(enqueued_at); NULL cannot be scanned into a time.Time. *)
Definition OldestPendingEnqueuedAt (tenant : string) : Stmt Time :=
  select [tenant] (fun d =>
    match ob_enqueued_at <$>
          List.filter (fun r => bool_decide (ob_tenant_id r = tenant) && pending r) (outbox d) with
    | [] => Err (ENew "can't scan into dest[0]: cannot scan NULL into *time.Time")
    | t :: ts => Ok (foldr Z.min t ts)
    end).

Definition ReplayDLQ (tenant : string) (gp : Z) : Stmt unit :=
  exec (update_rows OutboxT [tenant] (same_outbox tenant gp) (fun _ => set_attempts 0 None None)).

Definition abandon (now : Time) (o : Outbox) : Outbox :=
  set_published (Some (pg_time now))
    (set_attempts (ob_attempts o) (Some (default "" (ob_last_error o) +:+ " [abandoned]"))
       (ob_next_attempt_at o) o).

Definition AbandonDLQ (tenant : string) (gp : Z) : Stmt unit :=
  exec (update_rows OutboxT [tenant] (fun r => same_outbox tenant gp r && pending r) abandon).

Definition ReplayAllDLQ (tenant : string) (maxAttempts : Z) : Stmt Z :=
  update_rows OutboxT [tenant]
    (fun r => bool_decide (ob_tenant_id r = tenant) && dead maxAttempts r)
    (fun _ => set_attempts 0 None None).

(** ** shred.sql.go *)

Definition same_subject (tenant subject : string) (r : SubjectKey) : bool :=
  bool_decide (sk_tenant_id r = tenant) && bool_decide (sk_subject r = subject).

Definition GetSubjectKey (tenant subject : string) : Stmt SubjectKey :=
  select_one [tenant; subject] (fun d => List.filter (same_subject tenant subject) (subject_keys d)).

(** ON CONFLICT keeps created_at and shredded_at. *)
Definition rewrapped (new old : SubjectKey) : SubjectKey :=
  mkSubjectKey (sk_tenant_id old) (sk_subject old) (sk_dek_wrapped new) (sk_kek_version new)
    (sk_created_at old) (sk_shredded_at old).

Definition UpsertSubjectKey (tenant subject : string) (dek : bytes) (kek : Z) : Stmt unit :=
  upsert SubjectKeys [tenant; subject] (same_subject tenant subject) rewrapped
    (fun now => mkSubjectKey tenant subject dek kek (pg_time now) None).

Definition ForgetSubject (tenant subject : string) : Stmt unit :=
  exec (update_rows SubjectKeys [tenant; subject] (same_subject tenant subject)
    (fun now r => mkSubjectKey (sk_tenant_id r) (sk_subject r) [] (sk_kek_version r)
                    (sk_created_at r) (Some (pg_time now)))).

(** ORDER BY shredded_at DESC. *)
Definition shred_key (r : SubjectKey) : Z := - default 0 (sk_shredded_at r).

Definition ListShreddedSubjects (tenant : string) (maxRows : Z) : Stmt (list (string * option Time)) :=
  select_limit [tenant] maxRows (fun d =>
    (fun r => (sk_subject r, sk_shredded_at r)) <$>
    order_by shred_key
      (List.filter (fun r => bool_decide (sk_tenant_id r = tenant) &&
                             negb (is_none (sk_shredded_at r))) (subject_keys d))).

Definition ListStaleSubjectKeys (tenant : string) (currentKEK maxRows : Z) : Stmt (list SubjectKey) :=
  select_limit [tenant] maxRows (fun d =>
    order_by_collate sk_subject
      (List.filter (fun r => bool_decide (sk_tenant_id r = tenant) &&
                             (sk_kek_version r <? currentKEK) && is_none (sk_shredded_at r))
         (subject_keys d))).

Definition ListSubjectsCreatedBefore (tenant : string) (cutoff : Time) (maxRows : Z)
    : Stmt (list SubjectKey) :=
  select_limit [tenant] maxRows (fun d =>
    order_by_collate sk_subject
      (List.filter (fun r => bool_decide (sk_tenant_id r = tenant) && is_none (sk_shredded_at r) &&
                             (sk_created_at r <? pg_time cutoff)) (subject_keys d))).

(** ** projection_checkpoint.sql.go *)

Definition same_checkpoint (name tenant : string) (r : ProjectionCheckpoint) : bool :=
  bool_decide (pc_name r = name) && bool_decide (pc_tenant_id r = tenant).

Definition LoadProjectionCheckpoint (name tenant : string) : Stmt Z :=
  select_one [name; tenant] (fun d =>
    pc_cursor <$> List.filter (same_checkpoint name tenant) (projection_checkpoint d)).

Definition put_checkpoint (name tenant : string) (cursor : Z) : Stmt unit :=
  upsert Checkpoints [name; tenant] (same_checkpoint name tenant)
    (fun new old => mkProjectionCheckpoint (pc_name old) (pc_tenant_id old) (pc_cursor new)
                      (pc_updated_at new))
    (fun now => mkProjectionCheckpoint name tenant cursor (pg_time now)).

Definition SaveProjectionCheckpoint (name tenant : string) (cursor : Z) : Stmt unit :=
  put_checkpoint name tenant cursor.
Definition ResetProjectionCheckpoint (name tenant : string) : Stmt unit :=
  put_checkpoint name tenant 0.
Definition SetProjectionCheckpoint (name tenant : string) (cursor : Z) : Stmt unit :=
  put_checkpoint name tenant cursor.

(** ORDER BY name, tenant_id. *)
Definition checkpoint_leb (a b : ProjectionCheckpoint) : bool :=
  if bool_decide (pc_name a = pc_name b) then pg_leb (pc_tenant_id a) (pc_tenant_id b)
  else pg_leb (pc_name a) (pc_name b).

Definition checkpoint_le : relation ProjectionCheckpoint := fun a b => checkpoint_leb a b = true.

#[local] Instance checkpoint_le_dec : RelDecision checkpoint_le.
Proof. intros a b. unfold checkpoint_le. apply _. Defined.

Definition ListProjectionCheckpoints : Stmt (list ProjectionCheckpoint) :=
  select [] (fun d => Ok (merge_sort checkpoint_le (projection_checkpoint d))).

Definition GetProjectionStatus (name tenant : string) : Stmt ProjectionCheckpoint :=
  select_one [name; tenant] (fun d =>
    List.filter (same_checkpoint name tenant) (projection_checkpoint d)).

(** ** projection_dlq.sql.go *)

Definition of_projection (name tenant : string) (r : ProjectionDlq) : bool :=
  bool_decide (pd_projection_name r = name) && bool_decide (pd_tenant_id r = tenant).

Definition same_pdlq (name tenant : string) (gp : Z) (r : ProjectionDlq) : bool :=
  of_projection name tenant r && (pd_global_position r =? gp).

Definition InsertProjectionDLQ (name tenant : string) (gp : Z) (id : UUID) (typeURL lastError : string)
    : Stmt unit :=
  upsert ProjectionDlqs [name; tenant; typeURL; lastError] (same_pdlq name tenant gp)
    (fun new old => mkProjectionDlq (pd_projection_name old) (pd_tenant_id old)
       (pd_global_position old) (pd_event_id old) (pd_type_url old) (pd_last_error new)
       (pd_enqueued_at new))
    (fun now => mkProjectionDlq name tenant gp id typeURL lastError (pg_time now)).

Definition ListProjectionDLQ (name tenant : string) (after maxRows : Z) : Stmt (list ProjectionDlq) :=
  select_limit [name; tenant] maxRows (fun d =>
    order_by pd_global_position
      (List.filter (fun r => of_projection name tenant r && (after <? pd_global_position r))
         (projection_dlq d))).

Definition CountProjectionDLQ (name tenant : string) : Stmt Z :=
  select [name; tenant] (fun d => Ok (sql_count (of_projection name tenant) (projection_dlq d))).

Definition DeleteProjectionDLQ (name tenant : string) (gp : Z) : Stmt unit :=
  exec (delete_rows ProjectionDlqs [name; tenant] (same_pdlq name tenant gp)).

Definition AbandonAllProjectionDLQ (name tenant : string) : Stmt Z :=
  delete_rows ProjectionDlqs [name; tenant] (of_projection name tenant).

(** ** processed_events.sql.go *)

Definition same_processed (name tenant : string) (id : UUID) (r : ProcessedEvent) : bool :=
  bool_decide (pe_projection_name r = name) && bool_decide (pe_tenant_id r = tenant) &&
  (pe_event_id r =? id).

Definition HasProcessedEvent (name tenant : string) (id : UUID) : Stmt bool :=
  select [name; tenant] (fun d => Ok (existsb (same_processed name tenant id) (processed_events d))).

(** ON CONFLICT DO NOTHING. *)
Definition MarkProcessedEvent (name tenant : string) (id : UUID) : Stmt unit :=
  upsert Processed [name; tenant] (same_processed name tenant id) (fun _ old => old)
    (fun now => mkProcessedEvent name tenant id (pg_time now)).

Definition CleanupProcessedEvents (name : string) (olderThan : Time) : Stmt Z :=
  delete_rows Processed [name]
    (fun r => bool_decide (pe_projection_name r = name) && (pe_processed_at r <? pg_time olderThan)).

(** ** state_stream.sql.go *)

Definition same_position (name tenant stream : string) (r : StateStreamSubscriber) : bool :=
  bool_decide (ss_name r = name) && bool_decide (ss_tenant_id r = tenant) &&
  bool_decide (ss_stream_id r = stream).

(** LEFT JOIN on the position row, COALESCE(last_delivered_version, 0). *)
Definition delivered (name : string) (d : DB) (sc : StateCache) : Z :=
  match List.filter (same_position name (st_tenant_id sc) (st_stream_id sc))
          (state_stream_subscribers d) with
  | p :: _ => ss_last_delivered_version p
  | [] => 0
  end.

Definition behind (name tenant : string) (d : DB) : list StateCache :=
  List.filter (fun sc => (delivered name d sc <? st_version sc) &&
                         (bool_decide (tenant = "") || bool_decide (st_tenant_id sc = tenant)))
    (state_cache d).

Definition ListStreamsBehind (name tenant : string) (maxRows : Z) : Stmt (list StateCache) :=
  select_limit [name; tenant] maxRows (fun d => order_by st_updated_at (behind name tenant d)).

Definition UpsertStateStreamPosition (name tenant stream : string) (version : Z) : Stmt unit :=
  upsert Subscribers [name; tenant; stream] (same_position name tenant stream)
    (fun new old => mkStateStreamSubscriber (ss_name old) (ss_tenant_id old) (ss_stream_id old)
       (Z.max (ss_last_delivered_version old) (ss_last_delivered_version new)) (ss_updated_at new))
    (fun now => mkStateStreamSubscriber name tenant stream version (pg_time now)).

Definition of_subscriber (name tenant : string) (r : StateStreamSubscriber) : bool :=
  bool_decide (ss_name r = name) && bool_decide (ss_tenant_id r = tenant).

Definition ResetStateStreamSubscriber (name tenant : string) : Stmt Z :=
  delete_rows Subscribers [name; tenant] (of_subscriber name tenant).

Definition ResetStateStreamSubscriberForStream (name tenant stream : string) : Stmt unit :=
  exec (delete_rows Subscribers [name; tenant; stream] (same_position name tenant stream)).

(** COUNT and COALESCE(MAX(version - delivered), 0). *)
Definition CountStateStreamLag (name tenant : string) : Stmt (Z * Z) :=
  select [name; tenant] (fun d =>
    let rows := behind name tenant d in
    Ok (Z.of_nat (length rows),
        match (fun sc => st_version sc - delivered name d sc) <$> rows with
        | [] => 0
        | v :: vs => foldr Z.max v vs
        end)).

Definition ListStateStreamSubscribers : Stmt (list string) :=
  select [] (fun d =>
    Ok (order_by_collate id (remove_dups (ss_name <$> state_stream_subscribers d)))).

(** ** subscriber_dlq.sql.go *)

Definition same_sdlq (name tenant first : string) (r : SubscriberDlq) : bool :=
  bool_decide (sd_subscriber_name r = name) && bool_decide (sd_tenant_id r = tenant) &&
  bool_decide (sd_first_event_id r = first).

Definition InsertSubscriberDLQ (name tenant stream first : string) (ids types : list string)
    (lastError : string) (attempts : Z) (enqueued : Time) : Stmt unit :=
  upsert SubscriberDlqs ([name; tenant; stream; first; lastError] ++ ids ++ types)
    (same_sdlq name tenant first) (fun new _ => new)
    (fun _ => mkSubscriberDlq name tenant stream first ids types lastError attempts (pg_time enqueued)).

Definition of_dlq (name tenant : string) (r : SubscriberDlq) : bool :=
  bool_decide (sd_subscriber_name r = name) &&
  (bool_decide (tenant = "") || bool_decide (sd_tenant_id r = tenant)).

Definition ListSubscriberDLQ (name tenant : string) (maxRows : Z) : Stmt (list SubscriberDlq) :=
  select_limit [name; tenant] maxRows (fun d =>
    order_by sd_enqueued_at (List.filter (of_dlq name tenant) (subscriber_dlq d))).

Definition ClearSubscriberDLQ (name tenant : string) : Stmt Z :=
  delete_rows SubscriberDlqs [name; tenant] (of_dlq name tenant).

Definition DeleteSubscriberDLQRow (name tenant first : string) : Stmt unit :=
  exec (delete_rows SubscriberDlqs [name; tenant; first] (same_sdlq name tenant first)).
End Q.
End Q.
