(* ===== verification/PgStore.v ===== *)
(** * The Postgres adapter (adapters/storage/postgres)

    Every method of the adapter as a [Method] of PgDB.v: the transaction it
    runs on the tenant-bound pool or the statement it runs on the admin pool,
    and what it makes of the result.  The clock that a method reads itself
    (time.Now in PendingOutbox) is an argument. A nil byte slice is NULL;
    empty byte slices are taken for nil. *)
From S2P Require Import Prelude Errors Streams Sharding Events Chain Store Projection StateStream Shred CmdWorkflow Sql PgDB PgQueries.
Import Pg.

Module Postgres.

(** ** adapter.go *)

(** The pools are the deployment's; the adapter knows whether it has an admin
    pool.  [skipRLSMigration] is read by Migrate only. *)
Record Adapter := mkAdapter {
  hasAdminPool : bool;
  allowMainPoolForCrossTenant : bool;
  skipRLSMigration : bool;
  lockKey : Z
}.

Inductive Option : Set :=
  | WithLockKey (key : Z)
  | WithAdminPool (nonNil : bool)
  | WithoutRLSEnforcement
  | WithoutRLS.

Definition apply_option (a : Adapter) (o : Option) : Adapter :=
  match o with
  | WithLockKey k =>
      mkAdapter (hasAdminPool a) (allowMainPoolForCrossTenant a) (skipRLSMigration a) k
  | WithAdminPool nonNil =>
      (* a nil pool leaves the queries of an earlier option in place *)
      mkAdapter (hasAdminPool a || nonNil) (allowMainPoolForCrossTenant a) (skipRLSMigration a)
        (lockKey a)
  | WithoutRLSEnforcement => mkAdapter (hasAdminPool a) true (skipRLSMigration a) (lockKey a)
  | WithoutRLS => mkAdapter (hasAdminPool a) true true (lockKey a)
  end.

Definition New (opts : list Option) : Adapter :=
  foldl apply_option (mkAdapter false false false Fnv.defaultLockKey) opts.

Definition withTenantTx {A} (tenant : string) (fn : prog A) : Method A :=
  if bool_decide (tenant = "") then Return (Err (ENew "postgres: tenant id required (ADR 0007)"))
  else Tx A tenant fn id.

Definition admin (a : Adapter) : res Pool :=
  if hasAdminPool a then Ok AdminPool
  else if allowMainPoolForCrossTenant a then Ok MainPool
  else Err (ESent ErrAdminPoolRequired).

(** [q, err := a.admin(); if err != nil { return err }; return fn(q)] *)
Definition adminDo {A} (a : Adapter) (s : Stmt A) : Method A :=
  match admin a with
  | Err e => Return (Err e)
  | Ok pool => Auto A pool s id
  end.

Definition runForTenant {A} (a : Adapter) (tenant : string) (s : Stmt A) : Method A :=
  if bool_decide (tenant = "") then adminDo a s else withTenantTx tenant (perform s).

Section Postgres.
Context {CP : ChainPrims} {PP : PgPrims} (a : Adapter).

(** ** convert.go *)

Definition encodeActor (x : Actor.t) : res string :=
  on_err (EWrap "encode actor")
    (pg_marshal_actor (mkActorJSON (Actor.Kind x) (Actor.Principal x) (Actor.OnBehalfOf x)
       (Actor.APIKeyID x) (Actor.Attributes x))).

Definition decodeActor (b : string) : res Actor.t :=
  if bool_decide (b = "") then Ok Actor.zero
  else
    match pg_unmarshal_actor b with
    | Err e => Err (EWrap "decode actor" e)
    | Ok aj => Ok (Actor.mk (aj_Kind aj) (aj_Principal aj) (aj_OnBehalfOf aj) (aj_APIKeyID aj)
                     (aj_Attributes aj))
    end.

Definition opt_bytes (o : option string) : bytes :=
  match o with None => [] | Some s => bytes_of_str s end.

Definition rowToEnvelope (r : Event) : res Envelope.t :=
  match StreamID.ParseCanonical (ev_tenant_id r) (ev_stream_id r) with
  | Err e => Err (EWrap "parse stream id" e)
  | Ok sid =>
      match decodeActor (ev_actor r) with
      | Err e => Err e
      | Ok actor =>
          Ok (Envelope.mk (ev_event_id r) (ev_tenant_id r) sid (u64 (ev_version r))
                (u64 (ev_global_position r)) (ev_type_url r) (u32 (ev_schema_version r))
                (ev_occurred_at r) (ev_recorded_at r) (ev_correlation_id r) (ev_causation_id r)
                (ev_command_id r) actor (ev_payload r) (opt_bytes (ev_payload_json r))
                (opt_bytes (ev_encryption_key_refs r)) (default [] (ev_hash r))
                (default [] (ev_prev_hash r)))
      end
  end.

Definition collect (rows : list Event) : res (list Envelope.t) := mapR rowToEnvelope rows.

(** ** append.go *)

(** The *pgconn.PgError in the chain of an error. *)
Fixpoint as_pg (e : err) : option (string * string) :=
  match e with
  | EPg code table => Some (code, table)
  | EWrap _ e' | EWrapPost e' _ => as_pg e'
  | ESent _ | ENew _ => None
  end.

Definition pgUniqueViolation : string := "23505".

Definition mapErr (e : err) : err :=
  match as_pg e with
  | None => e
  | Some (code, table) =>
      if negb (bool_decide (code = pgUniqueViolation)) then e
      else if String.prefix "unique_claims" table then ESent ErrConstraintViolated
      else if String.prefix "events" table then ESent ErrConflict
      else e
  end.

Definition applyConstraint (tenant canonical : string) (op : ConstraintOp) : prog unit :=
  if co_Op op =? ClaimConstraint then
    pmap_err mapErr (Q.ClaimUnique tenant (co_Scope op) (co_Value op) canonical)
  else if co_Op op =? ReleaseConstraint then
    pmap_err (EWrap "release constraint") (Q.ReleaseUnique tenant (co_Scope op) (co_Value op))
  else PRet (Err (ENew "postgres: unknown constraint op")).

Definition readPrevHash (tenant canonical : string) : prog bytes :=
  r ← ptry (Q.LastStreamHash tenant canonical);
  match r with
  | Err e => if errors_Is e ErrNoRows then mret Chain.ZeroHash
             else PRet (Err (EWrap "read last hash" e))
  | Ok None | Ok (Some []) => mret Chain.ZeroHash
  | Ok (Some h) => mret h
  end.

(** [version := uint64(int64(p.ExpectedVersion) + int64(i) + 1)] *)
Definition event_version (expected i : Z) : Z := u64 (i64 (i64 (i64 expected + i) + 1)).

Definition chainEnv (sid : StreamID.t) (version : Z) (ev : EventToAppend) : Envelope.t :=
  Envelope.mk (ea_EventID ev) (StreamID.Tenant sid) sid version 0 (ea_TypeURL ev)
    (ea_SchemaVersion ev) (ea_OccurredAt ev) zero_time (ea_CorrelationID ev)
    (ea_CausationID ev) (ea_CommandID ev) (ea_Actor ev) (ea_Payload ev) [] (ea_KeyRefs ev) [] [].

Definition nullable (b : bytes) : option string :=
  match b with [] => None | _ => Some (str_of_bytes b) end.

Definition insertParams (sid : StreamID.t) (version : Z) (actor : string) (hash prevHash : bytes)
    (ev : EventToAppend) : Q.InsertEventParams :=
  Q.mkInsertEventParams (ea_EventID ev) (StreamID.Tenant sid) (StreamID.Canonical sid)
    (i64 version) (ea_TypeURL ev) (i32 (ea_SchemaVersion ev)) (ea_OccurredAt ev)
    (ea_CorrelationID ev) (ea_CausationID ev) (ea_CommandID ev) actor
    (Actor.Principal (ea_Actor ev)) (ea_Payload ev) (nullable (ea_PayloadJSON ev))
    (nullable (ea_KeyRefs ev)) hash prevHash.

(** The loop over p.Events from index [i]; (startPos, endPos, recAt). *)
Fixpoint appendEvents (sid : StreamID.t) (expected i : Z) (prevHash : bytes)
    (startPos endPos : Z) (recAt : Time) (evs : list EventToAppend) : prog (Z * Z * Time) :=
  match evs with
  | [] => mret (startPos, endPos, recAt)
  | ev :: evs' =>
      actorBytes ← PRet (encodeActor (ea_Actor ev));
      let version := event_version expected i in
      hash ← PRet (on_err (EWrap "compute chain hash")
                     (Chain.ComputeChainHash prevHash (Some (chainEnv sid version ev))));
      row ← pmap_err mapErr (Q.InsertEvent (insertParams sid version actorBytes hash prevHash ev));
      pmap_err (EWrap "insert outbox")
        (Q.InsertOutbox (StreamID.Tenant sid) (fst row) (ea_EventID ev)) ≫= fun _ =>
      appendEvents sid expected (i + 1) hash (if i =? 0 then fst row else startPos) (fst row)
        (snd row) evs'
  end.

Definition writeStateCache (p : AppendParams) : prog unit :=
  match ap_NewStateBytes p with
  | None => mret tt
  | Some state =>
      let schema := if ap_StateSchemaVersion p =? 0 then 1 else ap_StateSchemaVersion p in
      pmap_err (EWrap "upsert state_cache")
        (Q.UpsertStateCache (StreamID.Tenant (ap_StreamID p)) (StreamID.Canonical (ap_StreamID p))
           (ap_StateTypeURL p) (str_of_bytes state)
           (i64 (i64 (ap_ExpectedVersion p) + Z.of_nat (length (ap_Events p))))
           (ap_Terminal p) (i32 schema))
  end.

(** The body of the transaction, after set_config. *)
Definition appendTx (p : AppendParams) : prog AppendResult :=
  let sid := ap_StreamID p in
  let canonical := StreamID.Canonical sid in
  pmap_err (EWrap "acquire advisory lock") (Q.AdvisoryLock (lockKey a)) ≫= fun _ =>
  pforM (ap_Constraints p) (applyConstraint (StreamID.Tenant sid) canonical) ≫= fun _ =>
  prevHash ← readPrevHash (StreamID.Tenant sid) canonical;
  pos ← appendEvents sid (ap_ExpectedVersion p) 0 prevHash 0 0 zero_time (ap_Events p);
  writeStateCache p ≫= fun _ =>
  mret (mkAppendResult
          (u64 (ap_ExpectedVersion p + 1))
          (u64 (ap_ExpectedVersion p + Z.of_nat (length (ap_Events p))))
          (u64 (fst (fst pos))) (u64 (snd (fst pos))) (snd pos)).

Definition Append (p : AppendParams) : Method AppendResult :=
  match StreamID.Validate (ap_StreamID p) with
  | Some e => Return (Err e)
  | None =>
      match ap_Events p with
      | [] => Return (Err (ENew "postgres: append requires at least one event"))
      | _ => Tx AppendResult (StreamID.Tenant (ap_StreamID p)) (appendTx p) id
      end
  end.

(** ** read.go *)

Definition ReadStream (sid : StreamID.t) (fromVersion : Z) : Method (list Envelope.t) :=
  match StreamID.Validate sid with
  | Some e => Return (Err e)
  | None =>
      after (withTenantTx (StreamID.Tenant sid)
               (perform (Q.ReadStreamFromVersion (StreamID.Tenant sid) (StreamID.Canonical sid)
                           (i64 fromVersion))))
        (and_then collect)
  end.

Definition ReadAll (fromPosition limit : Z) : Method (list Envelope.t) :=
  after (adminDo a (Q.ReadAllFromPosition (i64 fromPosition) (i32 limit))) (and_then collect).

Definition ReadAllForTenant (tenant : string) (fromPosition limit : Z) : Method (list Envelope.t) :=
  after (withTenantTx tenant
           (perform (Q.ReadAllFromPositionTenant tenant (i64 fromPosition) (i32 limit))))
    (and_then collect).

Definition CurrentStreamVersion (sid : StreamID.t) : Method Z :=
  match StreamID.Validate sid with
  | Some e => Return (Err e)
  | None =>
      after (withTenantTx (StreamID.Tenant sid)
               (perform (Q.CurrentStreamVersion (StreamID.Tenant sid) (StreamID.Canonical sid))))
        (and_then (fun v => Ok (u64 v)))
  end.

(** [if errors.Is(err, pgx.ErrNoRows) { return s }] *)
Definition no_rows (s : sentinel) (e : err) : err := if errors_Is e ErrNoRows then ESent s else e.

Definition GetEventByID (tenant : string) (id : UUID) : Method Envelope.t :=
  after (withTenantTx tenant (perform (Q.GetEventByID tenant id)))
    (fun r => and_then rowToEnvelope (on_err (no_rows ErrEventNotFound) r)).

(** ** chain.go *)

Definition BackfillEventHash (tenant : string) (id : UUID) (hash prevHash : bytes) : Method unit :=
  after (withTenantTx tenant (perform (Q.BackfillEventHash hash prevHash tenant id)))
    (fun r => and_then (fun n =>
       if n =? 0
       then Err (ENew "postgres: backfill event hash: row already has a hash or does not exist")
       else Ok tt) (on_err (EWrap "postgres: backfill event hash") r)).

(** ** state_cache.go *)

Definition toStateCacheRow (tenant stream : string) (r : StateCache) : StateCacheRow :=
  mkStateCacheRow tenant stream (st_type_url r) (bytes_of_str (st_state r)) (u64 (st_version r))
    (st_terminal r) (u32 (st_state_schema_version r)) (st_updated_at r).

Definition GetState (tenant stream : string) : Method StateCacheRow :=
  after (withTenantTx tenant (perform (Q.GetState tenant stream)))
    (fun r => and_then (fun row => Ok (toStateCacheRow tenant stream row))
                (on_err (no_rows ErrStateNotFound) r)).

Definition page_limit (limit : Z) : Z := i32 (if limit <=? 0 then 100 else limit).

Definition ListStates (tenant typeURL afterStreamID : string) (limit : Z)
    : Method (list StateCacheRow) :=
  after (withTenantTx tenant
           (perform (Q.ListStates tenant typeURL afterStreamID (page_limit limit))))
    (and_then (fun rows =>
       Ok ((fun r => toStateCacheRow (st_tenant_id r) (st_stream_id r) r) <$> rows))).

Definition WipeStateCacheForType (tenant typeURL : string) : Method Z :=
  if bool_decide (tenant = "") then adminDo a (Q.DeleteStateCacheForTypeAllTenants typeURL)
  else withTenantTx tenant (perform (Q.DeleteStateCacheForType tenant typeURL)).

Definition UpsertCachedState (row : StateCacheRow) : Method unit :=
  let schema := if sc_StateSchemaVersion row =? 0 then 1 else sc_StateSchemaVersion row in
  withTenantTx (sc_TenantID row)
    (perform (Q.UpsertStateCache (sc_TenantID row) (sc_StreamID row) (sc_TypeURL row)
                (str_of_bytes (sc_State row)) (i64 (sc_Version row)) (sc_Terminal row)
                (i32 schema))).

(** ** outbox.go *)

Definition safeMaxAttempts (n : Z) : Z := if n <=? 0 then max_i32 else n.

Definition rowToEnvelopeOutbox (x : Outbox * Event) : res Envelope.t :=
  let '(o, r) := x in
  match StreamID.ParseCanonical (ob_tenant_id o) (ev_stream_id r) with
  | Err e => Err (EWrap "parse stream id" e)
  | Ok sid =>
      match decodeActor (ev_actor r) with
      | Err e => Err e
      | Ok actor =>
          Ok (Envelope.mk (ob_event_id o) (ob_tenant_id o) sid (u64 (ev_version r))
                (u64 (ob_global_position o)) (ev_type_url r) (u32 (ev_schema_version r))
                (ev_occurred_at r) (ev_recorded_at r) (ev_correlation_id r) (ev_causation_id r)
                (ev_command_id r) actor (ev_payload r) []
                (opt_bytes (ev_encryption_key_refs r)) (default [] (ev_hash r))
                (default [] (ev_prev_hash r)))
      end
  end.

Definition toOutboxRow (x : Outbox * Event) : res OutboxRow :=
  match rowToEnvelopeOutbox x with
  | Err e => Err e
  | Ok env => Ok (mkOutboxRow env (ob_attempts (fst x)))
  end.

Definition PendingOutbox (now : Time) (tenant : string) (limit maxAttempts : Z)
    : Method (list OutboxRow) :=
  after (runForTenant a tenant
           (Q.PendingOutboxWithEnvelope now (safeMaxAttempts maxAttempts) (i32 limit)))
    (and_then (mapR toOutboxRow)).

Definition toStreamRef (x : string * string) : StreamRef := mkStreamRef (fst x) (snd x).

Definition QuarantinedStreams (tenant : string) (maxAttempts : Z) : Method (list StreamRef) :=
  let maxA := safeMaxAttempts maxAttempts in
  after (if bool_decide (tenant = "") then adminDo a (Q.QuarantinedStreamsAllTenants maxA)
         else withTenantTx tenant (perform (Q.QuarantinedStreams maxA tenant)))
    (and_then (fun rows => Ok (toStreamRef <$> rows))).

Definition MarkOutboxPublished (tenant : string) (gp : Z) : Method unit :=
  withTenantTx tenant (perform (Q.MarkOutboxPublished tenant (i64 gp))).

(** [if len(s) > 2048 { s = s[:2048] }] *)
Definition truncate_2048 (s : string) : string :=
  if Nat.ltb 2048 (String.length s) then str_take 2048 s else s.

Definition MarkOutboxFailed (tenant : string) (gp : Z) (errMsg : string) (next : Time) : Method unit :=
  withTenantTx tenant (perform (Q.MarkOutboxFailed (truncate_2048 errMsg) next tenant (i64 gp))).

Definition CleanupPublishedOutbox (tenant : string) (olderThan : Time) : Method Z :=
  after (withTenantTx tenant (perform (Q.CleanupPublished tenant olderThan)))
    (and_then (fun _ => Ok (-1))).

(** ** outbox_admin.go *)

Definition CountPending (tenant : string) : Method Z :=
  withTenantTx tenant (perform (Q.CountPending tenant)).

Definition CountFailing (tenant : string) (maxAttempts : Z) : Method Z :=
  withTenantTx tenant (perform (Q.CountFailing tenant (safeMaxAttempts maxAttempts))).

Definition CountDLQ (tenant : string) (maxAttempts : Z) : Method Z :=
  withTenantTx tenant (perform (Q.CountDLQ tenant (safeMaxAttempts maxAttempts))).

Definition toDLQRow (x : Outbox * Event) : DLQRow :=
  let '(o, r) := x in
  mkDLQRow (ob_tenant_id o) (u64 (ob_global_position o)) (ob_event_id o) (ev_stream_id r)
    (ev_type_url r) (ev_correlation_id r) (ev_causation_id r) (ev_command_id r)
    (ev_actor_principal r) (ob_enqueued_at o) (ob_attempts o) (default "" (ob_last_error o))
    (ob_next_attempt_at o).

Definition ListDLQ (tenant : string) (maxAttempts afterPosition limit : Z) : Method (list DLQRow) :=
  after (withTenantTx tenant
           (perform (Q.ListDLQ tenant (safeMaxAttempts maxAttempts) (i64 afterPosition) (i32 limit))))
    (and_then (fun rows => Ok (toDLQRow <$> rows))).

Definition ReplayDLQ (tenant : string) (gp : Z) : Method unit :=
  withTenantTx tenant (perform (Q.ReplayDLQ tenant (i64 gp))).

Definition AbandonDLQ (tenant : string) (gp : Z) : Method unit :=
  withTenantTx tenant (perform (Q.AbandonDLQ tenant (i64 gp))).

Definition ReplayAllDLQ (tenant : string) (maxAttempts : Z) : Method Z :=
  withTenantTx tenant (perform (Q.ReplayAllDLQ tenant (safeMaxAttempts maxAttempts))).

(** ** projection_checkpoint.go *)

Definition Load (name tenant : string) : Method Z :=
  after (runForTenant a tenant (Q.LoadProjectionCheckpoint name tenant))
    (fun r => match r with
              | Ok cursor => Ok (u64 cursor)
              | Err e => if errors_Is e ErrNoRows then Ok 0 else Err e
              end).

Definition Save (name tenant : string) (position : Z) : Method unit :=
  runForTenant a tenant (Q.SaveProjectionCheckpoint name tenant (i64 position)).

(** ** projection_admin.go *)

Definition toStatus (r : ProjectionCheckpoint) : ProjectionStatus :=
  mkProjectionStatus (pc_name r) (pc_tenant_id r) (u64 (pc_cursor r)) (pc_updated_at r).

Definition Status (name tenant : string) : Method ProjectionStatus :=
  after (runForTenant a tenant (Q.GetProjectionStatus name tenant))
    (fun r => and_then (fun row => Ok (toStatus row)) (on_err (no_rows ErrStateNotFound) r)).

Definition Reset (name tenant : string) : Method unit :=
  runForTenant a tenant (Q.ResetProjectionCheckpoint name tenant).

Definition ResetTo (name tenant : string) (position : Z) : Method unit :=
  runForTenant a tenant (Q.SetProjectionCheckpoint name tenant (i64 position)).

Definition List : Method (list ProjectionStatus) :=
  after (adminDo a Q.ListProjectionCheckpoints) (and_then (fun rows => Ok (toStatus <$> rows))).

(** ** projection_dlq.go *)

Definition InsertProjectionDLQ (name tenant : string) (gp : Z) (id : UUID) (typeURL lastError : string)
    : Method unit :=
  runForTenant a tenant
    (Q.InsertProjectionDLQ name tenant (i64 gp) id typeURL (truncate_2048 lastError)).

Definition toProjectionDLQRow (r : ProjectionDlq) : ProjectionDLQRow :=
  mkProjectionDLQRow (pd_projection_name r) (pd_tenant_id r) (u64 (pd_global_position r))
    (pd_event_id r) (pd_type_url r) (pd_last_error r) (pd_enqueued_at r).

Definition ListProjectionDLQ (name tenant : string) (afterPosition limit : Z)
    : Method (list ProjectionDLQRow) :=
  after (runForTenant a tenant
           (Q.ListProjectionDLQ name tenant (i64 afterPosition) (page_limit limit)))
    (and_then (fun rows => Ok (toProjectionDLQRow <$> rows))).

Definition CountProjectionDLQ (name tenant : string) : Method Z :=
  runForTenant a tenant (Q.CountProjectionDLQ name tenant).

Definition AbandonProjectionDLQ (name tenant : string) (gp : Z) : Method unit :=
  runForTenant a tenant (Q.DeleteProjectionDLQ name tenant (i64 gp)).

Definition AbandonAllProjectionDLQ (name tenant : string) : Method Z :=
  runForTenant a tenant (Q.AbandonAllProjectionDLQ name tenant).

(** ** dedup.go *)

Definition HasProcessedEvent (name tenant : string) (id : UUID) : Method bool :=
  runForTenant a tenant (Q.HasProcessedEvent name tenant id).

Definition MarkProcessedEvent (name tenant : string) (id : UUID) : Method unit :=
  runForTenant a tenant (Q.MarkProcessedEvent name tenant id).

Definition CleanupProcessedEvents (name : string) (olderThan : Time) : Method Z :=
  adminDo a (Q.CleanupProcessedEvents name olderThan).

(** ** shred.go *)

Definition toSubjectKey (r : SubjectKey) : Shred.SubjectKey :=
  Shred.mkSubjectKey (sk_tenant_id r) (sk_subject r) (sk_dek_wrapped r) (u32 (sk_kek_version r))
    (sk_created_at r) (sk_shredded_at r).

Definition GetSubjectKey (tenant subject : string) : Method Shred.SubjectKey :=
  after (withTenantTx tenant (perform (Q.GetSubjectKey tenant subject)))
    (fun r => and_then (fun row => Ok (toSubjectKey row)) (on_err (no_rows ErrSubjectKeyNotFound) r)).

Definition UpsertSubjectKey (tenant subject : string) (dek : bytes) (kek : Z) : Method unit :=
  withTenantTx tenant (perform (Q.UpsertSubjectKey tenant subject dek (i32 kek))).

Definition ForgetSubject (tenant subject : string) : Method unit :=
  withTenantTx tenant (perform (Q.ForgetSubject tenant subject)).

Definition ListStaleSubjectKeys (tenant : string) (currentKEK limit : Z)
    : Method (list Shred.SubjectKey) :=
  after (withTenantTx tenant
           (perform (Q.ListStaleSubjectKeys tenant (i32 currentKEK) (page_limit limit))))
    (and_then (fun rows => Ok (toSubjectKey <$> rows))).

Definition ListSubjectsCreatedBefore (tenant : string) (cutoff : Time) (limit : Z)
    : Method (list Shred.SubjectKey) :=
  after (withTenantTx tenant
           (perform (Q.ListSubjectsCreatedBefore tenant cutoff (page_limit limit))))
    (and_then (fun rows => Ok (toSubjectKey <$> rows))).

(** ** state_stream.go *)

Definition toStateEnvelope (r : StateCache) : StateEnvelope :=
  mkStateEnvelope (st_tenant_id r) (st_stream_id r) (st_type_url r) (u64 (st_version r))
    (u32 (st_state_schema_version r)) (bytes_of_str (st_state r)) (st_updated_at r).

Definition ListStreamsBehind (name tenant : string) (limit : Z) : Method (list StateEnvelope) :=
  after (runForTenant a tenant (Q.ListStreamsBehind name tenant (page_limit limit)))
    (and_then (fun rows => Ok (toStateEnvelope <$> rows))).

Definition AdvanceStateStreamPosition (name tenant stream : string) (version : Z) : Method unit :=
  runForTenant a tenant (Q.UpsertStateStreamPosition name tenant stream (i64 version)).

Definition StateStreamStatus (name tenant : string) : Method StateStreamSubscriberStatus :=
  after (runForTenant a tenant (Q.CountStateStreamLag name tenant))
    (and_then (fun row => Ok (mkStateStreamSubscriberStatus name tenant (fst row) (u64 (snd row))
                                zero_time))).

Definition ResetStateStreamSubscriber (name tenant : string) : Method Z :=
  runForTenant a tenant (Q.ResetStateStreamSubscriber name tenant).

Definition ResetStateStreamSubscriberForStream (name tenant stream : string) : Method unit :=
  runForTenant a tenant (Q.ResetStateStreamSubscriberForStream name tenant stream).

Definition ListStateStreamSubscribers : Method (list string) :=
  adminDo a Q.ListStateStreamSubscribers.

(** ** subscriber_dlq.go *)

Definition InsertSubscriberDLQ (row : CmdWorkflow.SubscriberDLQRow) : Method unit :=
  match CmdWorkflow.sr_EventIDs row with
  | [] => Return (Ok tt)
  | first :: _ =>
      runForTenant a (CmdWorkflow.sr_TenantID row)
        (Q.InsertSubscriberDLQ (CmdWorkflow.sr_SubscriberName row) (CmdWorkflow.sr_TenantID row) (CmdWorkflow.sr_StreamID row) first
           (CmdWorkflow.sr_EventIDs row) (CmdWorkflow.sr_TypeURLs row) (CmdWorkflow.sr_LastError row) (i32 (CmdWorkflow.sr_Attempts row))
           (CmdWorkflow.sr_EnqueuedAt row))
  end.

Definition toSubscriberDLQRow (r : SubscriberDlq) : CmdWorkflow.SubscriberDLQRow :=
  CmdWorkflow.mkSubscriberDLQRow (sd_subscriber_name r) (sd_tenant_id r) (sd_stream_id r) (sd_event_ids r)
    (sd_type_urls r) (sd_last_error r) (sd_attempts r) (sd_enqueued_at r).

Definition ListSubscriberDLQ (name tenant : string) (limit : Z) : Method (list CmdWorkflow.SubscriberDLQRow) :=
  after (runForTenant a tenant (Q.ListSubscriberDLQ name tenant (page_limit limit)))
    (and_then (fun rows => Ok (toSubscriberDLQRow <$> rows))).

Definition ClearSubscriberDLQ (name tenant : string) : Method Z :=
  runForTenant a tenant (Q.ClearSubscriberDLQ name tenant).

Definition DeleteSubscriberDLQRow (name tenant firstEventID : string) : Method unit :=
  runForTenant a tenant (Q.DeleteSubscriberDLQRow name tenant firstEventID).
End Postgres.
End Postgres.
