(* ===== verification/PgMigrate.v ===== *)
(** * Migrations (adapters/storage/postgres/migrate.go)

    Migrate hands the embedded migration files to goose, without the file of
    migration 00015 when the adapter opted out of row-level security.  goose is
    a parameter: [Goose] has the run of its Up command on the versions that are
    applied, and what its documentation says of it. *)
From S2P Require Import Prelude Errors Streams Sharding Events Chain Store Sql PgDB PgQueries PgStore.

Module Migrate.

(** A migration file: its name and the version goose reads from it. *)
Record Entry := mkEntry { Name : string; version : Z }.

#[export] Instance Entry_dec : EqDecision Entry.
Proof. solve_decision. Defined.

Definition migrationsFS : list Entry :=
  [mkEntry "00001_initial_schema.sql" 1; mkEntry "00002_create_partitions.sql" 2;
   mkEntry "00003_outbox_next_attempt_at.sql" 3; mkEntry "00004_state_cache.sql" 4;
   mkEntry "00005_projection_checkpoint.sql" 5; mkEntry "00006_projection_dlq.sql" 6;
   mkEntry "00007_processed_events.sql" 7; mkEntry "00009_state_cache_schema_version.sql" 9;
   mkEntry "00010_drop_snapshots.sql" 10; mkEntry "00011_state_stream_subscribers.sql" 11;
   mkEntry "00012_subscriber_dlq.sql" 12; mkEntry "00013_tamper_evident_chain.sql" 13;
   mkEntry "00014_subscriber_dlq_batch.sql" 14; mkEntry "00015_rls_tenant_isolation.sql" 15;
   mkEntry "00016_partition_state_layer.sql" 16].

Definition rlsMigrationFile : string := "00015_rls_tenant_isolation.sql".

(** excludeFS: the directory listing without the excluded names. *)
Record excludeFS := mkExcludeFS { FS : list Entry; exclude : gset string }.

Fixpoint readDir_loop (ex : gset string) (entries kept : list Entry) : list Entry :=
  match entries with
  | [] => kept
  | ent :: entries' =>
      if bool_decide (Name ent ∈ ex) then readDir_loop ex entries' kept
      else readDir_loop ex entries' (kept ++ [ent])
  end.

Definition ReadDir (e : excludeFS) : list Entry := readDir_loop (exclude e) (FS e) [].

(** The versions in goose's table. *)
Notation applied := (gset Z).

(** goose.UpContext over a directory listing.  By its documentation Up applies
    the files that are not applied, in the order of their versions; a file below
    the highest applied version that is not applied is a missing migration, which
    Up reports as an error without applying anything unless it is run with
    AllowMissing. *)
Definition missing (files : list Entry) (db : applied) : Prop :=
  exists f v, f ∈ files /\ version f ∉ db /\ v ∈ db /\ version f < v.

Class Goose := goose_up : list Entry -> applied -> applied * res unit.

Class GooseLaws (G : Goose) : Prop := {
  gl_missing : forall files db, missing files db -> exists e, goose_up files db = (db, Err e);
  gl_ok : forall files db db', goose_up files db = (db', Ok tt) ->
    db' = db ∪ list_to_set (version <$> files);
  gl_applied : forall files db db' r, goose_up files db = (db', r) ->
    db ⊆ db' /\ db' ⊆ db ∪ list_to_set (version <$> files)
}.

Definition listing (a : Postgres.Adapter) : list Entry :=
  if Postgres.skipRLSMigration a then ReadDir (mkExcludeFS migrationsFS {[rlsMigrationFile]})
  else migrationsFS.

Definition Migrate {G : Goose} (a : Postgres.Adapter) : M applied unit := fun db =>
  let '(db', r) := goose_up (listing a) db in (db', Pg.on_err (EWrap "postgres migrate") r).

(** Whether the policies are installed. *)
Definition has_rls (db : applied) : bool := bool_decide (15 ∈ db).
End Migrate.
Import Migrate.

Lemma readDir_loop_spec ex entries kept :
  readDir_loop ex entries kept = kept ++ List.filter (fun e => negb (bool_decide (Name e ∈ ex))) entries.
Proof.
  revert kept; induction entries as [|e entries IH]; intros kept; simpl; [by rewrite app_nil_r|].
  destruct (bool_decide (Name e ∈ ex)); simpl; rewrite IH; [done|]. by rewrite <- app_assoc.
Qed.

Lemma rls_file_version : Forall (fun e => Name e = rlsMigrationFile <-> version e = 15) migrationsFS.
Proof. unfold migrationsFS, rlsMigrationFile. repeat (apply Forall_cons; split; [simpl; split; congruence|]). constructor. Qed.

(** With the option, the listing is every file but that of 00015. *)
Lemma listing_without_rls a e :
  Postgres.skipRLSMigration a = true ->
  e ∈ listing a <-> e ∈ migrationsFS /\ version e <> 15.
Proof.
  intros Ha. unfold listing, ReadDir. rewrite Ha, readDir_loop_spec. cbn [app exclude FS].
  rewrite list_elem_of_In, filter_In, <- list_elem_of_In. split; intros [Hin H]; (split; [done|]);
    pose proof (proj1 (Forall_forall _ _) rls_file_version e Hin) as Hv.
  - intros E. apply negb_true_iff, bool_decide_eq_false in H. by apply H, elem_of_singleton, Hv.
  - apply negb_true_iff, bool_decide_eq_false. by intros E%elem_of_singleton%Hv.
Qed.

(** A run of goose that finds a missing migration or applies everything. *)
Definition concrete_goose : Goose := fun files db =>
  if existsb (fun f => bool_decide (version f ∉ db) &&
                       existsb (fun v => version f <? v) (elements db)) files
  then (db, Err (ENew "error: found 1 missing migrations before current version"))
  else (db ∪ list_to_set (version <$> files), Ok tt).

Lemma concrete_goose_laws : GooseLaws concrete_goose.
Proof.
  split.
  - intros files db (f & v & Hf & Hn & Hv & Hlt). unfold goose_up, concrete_goose.
    assert (existsb (fun f => bool_decide (version f ∉ db) &&
      existsb (fun v => version f <? v) (elements db)) files = true) as ->; [|by eexists].
    apply existsb_exists. exists f. split; [by apply list_elem_of_In|].
    rewrite bool_decide_eq_true_2 by done. apply existsb_exists. exists v.
    split; [by apply list_elem_of_In, elem_of_elements|lia].
  - intros files db db'. unfold goose_up, concrete_goose. case_match; [done|]. by intros [= <-].
  - intros files db db' r. unfold goose_up, concrete_goose. case_match; intros [= <- <-]; set_solver.
Qed.

(** A deployment that started without row-level security cannot adopt it.
    After a Migrate with WithoutRLS on a fresh database succeeded, every
    migration but 00015 is applied and there are no policies.  A later Migrate
    without the option does not apply 00015: since 00016 is applied, goose
    reports 00015 as missing, Migrate fails, and the policies are still not
    installed, so an adapter without an opt-out runs on an unprotected database. *)
Theorem rls_adoption_refused (G : Goose) (GL : GooseLaws G) (a a' : Postgres.Adapter) db db' r :
  Postgres.skipRLSMigration a = true -> Postgres.skipRLSMigration a' = false ->
  Migrate a ∅ = (db, Ok tt) -> Migrate a' db = (db', r) ->
  (forall v, v ∈ db <-> v <> 15 /\ exists e, e ∈ migrationsFS /\ version e = v) /\
  db' = db /\ has_rls db' = false /\ exists e, r = Err (EWrap "postgres migrate" e).
Proof.
  intros Ha Ha' H1 H2. unfold Migrate in H1, H2.
  destruct (goose_up (listing a) ∅) as [db1 [[]|]] eqn:Hu; [|done]. injection H1 as <-.
  apply gl_ok in Hu.
  assert (Hdb : forall v, v ∈ db1 <-> v <> 15 /\ exists e, e ∈ migrationsFS /\ version e = v).
  { intros v. rewrite Hu, elem_of_union, elem_of_list_to_set, list_elem_of_fmap. split.
    - intros [[]%elem_of_empty|(e & -> & He)]. apply listing_without_rls in He as [He Hv]; [|done]. eauto.
    - intros [Hv (e & He & <-)]. right. exists e. split; [done|]. by apply listing_without_rls. }
  split; [done|].
  destruct (gl_missing (listing a') db1) as [e He].
  { unfold listing. rewrite Ha'. exists (mkEntry rlsMigrationFile 15), 16.
    split; [by apply (list_elem_of_lookup_2 _ 13)|]. split; [by intros [? _]%Hdb|].
    split; [|done]. apply Hdb. split; [done|]. exists (mkEntry "00016_partition_state_layer.sql" 16).
    split; [by apply (list_elem_of_lookup_2 _ 14)|done]. }
  rewrite He in H2. injection H2 as <- <-. split; [done|]. split; [|by eexists].
  apply bool_decide_eq_false. by intros [? _]%Hdb.
Qed.

Lemma rls_adoption_refused_witness :
  let db := fst (Migrate (G := concrete_goose) (Postgres.New [Postgres.WithoutRLS]) ∅) in
  snd (Migrate (G := concrete_goose) (Postgres.New [Postgres.WithoutRLS]) ∅) = Ok tt /\
  has_rls (fst (Migrate (G := concrete_goose) (Postgres.New []) db)) = false.
Proof.
  split; [vm_compute; reflexivity|].
  refine (proj1 (proj2 (proj2 (rls_adoption_refused concrete_goose concrete_goose_laws
    (Postgres.New [Postgres.WithoutRLS]) (Postgres.New []) _ _ _ _ _ _ (surjective_pairing _))))).
  - reflexivity.
  - reflexivity.
  - vm_compute. reflexivity.
Defined.
