(* ===== verification/PgIsolation.v ===== *)
(** * Tenant isolation on Postgres

    The statements of PgDB.v under row-level security: what a session bound to
    a tenant writes leaves the rows of the other tenants alone, and what it
    reads depends on its own rows only.  Both are proved once per kind of
    statement, for any table and any WHERE clause, and lifted to transactions
    and to every adapter method. *)
From S2P Require Import Prelude Errors Streams Sharding Events Chain Store Projection StateStream Shred CmdWorkflow Sql PgDB PgQueries PgStore.
Import Pg.

(** ** Tables as lenses *)

(** A row of another tenant, not shared by the policy. *)
Definition foreign {R} (T : Table R) (t : string) (r : R) : bool :=
  negb (bool_decide (tb_tenant T r = t)) && negb (tb_shared T (tb_tenant T r)).

Definition other_rows {R} (T : Table R) (t : string) (d : DB) : list R :=
  List.filter (foreign T t) (tb_rows T d).

(** The rows of the other tenants. *)
Definition others (t : string) (d : DB) : DB :=
  mkDB (other_rows Events t d) (other_rows OutboxT t d) (other_rows UniqueClaims t d)
    (other_rows StateCacheT t d) (other_rows SubjectKeys t d) (other_rows Checkpoints t d)
    (other_rows ProjectionDlqs t d) (other_rows Processed t d) (other_rows Subscribers t d)
    (other_rows SubscriberDlqs t d).

Class TableLaws {R} (T : Table R) := {
  tl_get_set : forall l d, tb_rows T (tb_set T l d) = l;
  tl_set_get : forall d, tb_set T (tb_rows T d) d = d;
  tl_rows_others : forall t d, tb_rows T (others t d) = List.filter (foreign T t) (tb_rows T d);
  tl_others : forall t l d,
    others t (tb_set T l d) = tb_set T (List.filter (foreign T t) l) (others t d);
  tl_rows_restrict : forall e d, tb_rows T (restrict e d) = List.filter (admits T e) (tb_rows T d);
  tl_restrict : forall e l d,
    restrict e (tb_set T l d) = tb_set T (List.filter (admits T e) l) (restrict e d)
}.

Ltac table_laws := split; [done|by intros []|done..].

#[export] Instance Events_laws : TableLaws Events. Proof. table_laws. Qed.
#[export] Instance Outbox_laws : TableLaws OutboxT. Proof. table_laws. Qed.
#[export] Instance UniqueClaims_laws : TableLaws UniqueClaims. Proof. table_laws. Qed.
#[export] Instance StateCache_laws : TableLaws StateCacheT. Proof. table_laws. Qed.
#[export] Instance SubjectKeys_laws : TableLaws SubjectKeys. Proof. table_laws. Qed.
#[export] Instance Checkpoints_laws : TableLaws Checkpoints. Proof. table_laws. Qed.
#[export] Instance ProjectionDlqs_laws : TableLaws ProjectionDlqs. Proof. table_laws. Qed.
#[export] Instance Processed_laws : TableLaws Processed. Proof. table_laws. Qed.
#[export] Instance Subscribers_laws : TableLaws Subscribers. Proof. table_laws. Qed.
#[export] Instance SubscriberDlqs_laws : TableLaws SubscriberDlqs. Proof. table_laws. Qed.

(** ** Filters under updates *)
Section Filters.
Context {A : Type}.

Lemma filter_update_ext (p q : A -> bool) f l :
  (forall x, q x = true -> p x = false /\ p (f x) = false) ->
  List.filter p (sql_update q f l) = List.filter p l.
Proof.
  intros H. unfold sql_update. induction l as [|x l IH]; csimpl; [done|].
  destruct (q x) eqn:Hq; [|by rewrite IH]. destruct (H x Hq) as [-> ->]. done.
Qed.

(** An update that keeps [p] commutes with selecting [p]. *)
Lemma filter_update_comm (p q : A -> bool) f l :
  (forall x, p (f x) = p x) ->
  List.filter p (sql_update q f l) = sql_update q f (List.filter p l).
Proof.
  intros H. unfold sql_update. induction l as [|x l IH]; csimpl; [done|].
  destruct (q x) eqn:Hq.
  - rewrite H, IH. destruct (p x); csimpl; [by rewrite Hq|done].
  - rewrite IH. destruct (p x); csimpl; [by rewrite Hq|done].
Qed.

(** So does an update of rows that satisfy [p] before and after. *)
Lemma filter_update_in (p q : A -> bool) f l :
  (forall x, q x = true -> p x = true) -> (forall x, q x = true -> p (f x) = true) ->
  List.filter p (sql_update q f l) = sql_update q f (List.filter p l).
Proof.
  intros H1 H2. unfold sql_update. induction l as [|x l IH]; csimpl; [done|].
  destruct (q x) eqn:Hq.
  - rewrite (H1 x Hq), (H2 x Hq). csimpl. rewrite Hq. by f_equal.
  - destruct (p x) eqn:Hp; csimpl; rewrite ?Hq; by rewrite IH.
Qed.

Lemma filter_filter_comm (p q : A -> bool) l :
  List.filter p (List.filter q l) = List.filter q (List.filter p l).
Proof.
  induction l as [|x l IH]; simpl; [done|].
  destruct (q x) eqn:Hq, (p x) eqn:Hp; simpl; rewrite ?Hp, ?Hq, ?IH; done.
Qed.

Lemma filter_filter_impl (p q : A -> bool) l :
  (forall x, p x = true -> q x = true) -> List.filter p (List.filter q l) = List.filter p l.
Proof.
  intros H. induction l as [|x l IH]; simpl; [done|].
  destruct (q x) eqn:Hq; simpl; rewrite IH; [done|].
  destruct (p x) eqn:Hp; [|done]. by rewrite H in Hq.
Qed.

Lemma sql_count_visible (v p : A -> bool) l :
  sql_count (fun x => v x && p x) l = sql_count p (List.filter v l).
Proof.
  unfold sql_count. do 2 f_equal.
  induction l as [|x l IH]; simpl; [done|]. destruct (v x); simpl; [|done].
  by destruct (p x); rewrite IH.
Qed.

Lemma existsb_visible (v p : A -> bool) l :
  (forall x, p x = true -> v x = true) -> existsb p l = existsb p (List.filter v l).
Proof.
  intros H. induction l as [|x l IH]; simpl; [done|].
  destruct (v x) eqn:Hv; simpl; [by rewrite IH|].
  destruct (p x) eqn:Hp; [by rewrite H in Hv|done].
Qed.
End Filters.

(** ** Isolated statements *)

(** The session is bound to [t] and the policies apply to it. *)
Definition bound_to (e : Env) (t : string) : Prop :=
  enforced e = true /\ env_tenant e = Some t.

Definition keeps_others (t : string) (w : DB -> DB) : Prop := forall d, others t (w d) = others t d.

Definition respects (e : Env) (w w2 : DB -> DB) : Prop :=
  forall d d2, restrict e d = restrict e d2 -> restrict e (w d) = restrict e (w2 d2).

Definition isolated {A} (s : Stmt A) : Prop := forall e t now seq d,
  bound_to e t ->
  let '(seq', w, r) := s_run s e now seq d in
  keeps_others t w /\
  forall d2, restrict e d2 = restrict e d ->
    exists w2, s_run s e now seq d2 = (seq', w2, r) /\ respects e w w2.

Lemma keeps_others_id t : keeps_others t id.
Proof. done. Qed.

Lemma respects_id e : respects e id id.
Proof. by intros d d2. Qed.

#[export] Hint Resolve keeps_others_id respects_id : pg.

Lemma admits_bound {R} (T : Table R) e t r :
  bound_to e t -> admits T e r = negb (foreign T t r).
Proof.
  intros [He Ht]. unfold admits, foreign. rewrite He, Ht. simpl.
  rewrite negb_andb, !negb_involutive. f_equal. apply bool_decide_ext. naive_solver.
Qed.

Section Write.
Context {R : Type} (T : Table R) {TL : TableLaws T}.

(** Writing one table: judged by the filters on its rows. *)
Lemma keeps_others_rows t (g : DB -> list R) :
  (forall d, List.filter (foreign T t) (g d) = List.filter (foreign T t) (tb_rows T d)) ->
  keeps_others t (fun d => tb_set T (g d) d).
Proof.
  intros H d. rewrite tl_others, H, <- tl_rows_others. apply tl_set_get.
Qed.

Lemma respects_rows e (g g2 : DB -> list R) :
  (forall d d2, restrict e d = restrict e d2 ->
     List.filter (admits T e) (g d) = List.filter (admits T e) (g2 d2)) ->
  respects e (fun d => tb_set T (g d) d) (fun d => tb_set T (g2 d) d).
Proof. intros H d d2 Hd. rewrite !tl_restrict, (H d d2 Hd). by f_equal. Qed.

Lemma restrict_rows e d d2 :
  restrict e d = restrict e d2 ->
  List.filter (admits T e) (tb_rows T d) = List.filter (admits T e) (tb_rows T d2).
Proof. intros H. by rewrite <- !tl_rows_restrict, H. Qed.

(** A test that only visible rows pass. *)
Lemma existsb_restrict e (p : R -> bool) d d2 :
  (forall x, p x = true -> admits T e x = true) -> restrict e d2 = restrict e d ->
  existsb p (tb_rows T d2) = existsb p (tb_rows T d).
Proof.
  intros Hp Hd. rewrite (existsb_visible (admits T e) p (tb_rows T d2)),
    (existsb_visible (admits T e) p (tb_rows T d)) by done.
  by rewrite (restrict_rows e d2 d Hd).
Qed.
End Write.

(** The tests every statement makes first. *)
Lemma guarded_isolated {A} texts (f : Env -> Time -> Z -> DB -> Z * (DB -> DB) * res A) :
  isolated (mkStmt None f) -> isolated (guarded texts f).
Proof.
  intros Hf e t now seq d Hb. unfold guarded, refuse; simpl.
  destruct (forallb pg_text texts); simpl; [|eauto with pg].
  destruct (setting_bound e); simpl; [|eauto with pg].
  exact (Hf e t now seq d Hb).
Qed.

Lemma select_isolated {A} texts (f : DB -> res A) : isolated (select texts f).
Proof.
  apply guarded_isolated. intros e t now seq d Hb. simpl. split; [done|].
  intros d2 ->. eauto with pg.
Qed.

Lemma exec_isolated (s : Stmt Z) : isolated s -> isolated (exec s).
Proof.
  intros Hs e t now seq d Hb. specialize (Hs e t now seq d Hb). unfold exec; simpl.
  destruct (s_run s e now seq d) as [[seq' w] r]. destruct Hs as [Hw Hr]. split; [done|].
  intros d2 Hd. destruct (Hr d2 Hd) as (w2 & -> & Hw2). eauto.
Qed.

Section Kinds.
Context {PP : PgPrims} {R : Type} (T : Table R) {TL : TableLaws T}.

Lemma update_isolated texts p (f : Time -> R -> R) :
  (forall now r, tb_tenant T (f now r) = tb_tenant T r) -> isolated (update_rows T texts p f).
Proof.
  intros Hf. apply guarded_isolated. intros e t now seq d Hb. simpl. split.
  - apply (keeps_others_rows T). intros d'. apply filter_update_ext. intros x [Hx _]%andb_true_iff.
    rewrite (admits_bound T e t) in Hx by done. apply negb_true_iff in Hx.
    split; [done|]. unfold foreign in *. by rewrite Hf.
  - intros d2 Hd. eexists. split.
    + rewrite !sql_count_visible. by rewrite (restrict_rows T e d2 d Hd).
    + apply (respects_rows T). intros d1 d1' H1. rewrite !filter_update_comm.
      * by rewrite (restrict_rows T e d1 d1' H1).
      * intros x. unfold admits. by rewrite Hf.
      * intros x. unfold admits. by rewrite Hf.
Qed.

Lemma delete_isolated texts p : isolated (delete_rows T texts p).
Proof.
  apply guarded_isolated. intros e t now seq d Hb. simpl. split.
  - apply (keeps_others_rows T). intros d'. apply filter_filter_impl. intros x Hx.
    rewrite (admits_bound T e t) by done. by rewrite Hx.
  - intros d2 Hd. eexists. split.
    + rewrite !sql_count_visible. by rewrite (restrict_rows T e d2 d Hd).
    + apply (respects_rows T). intros d1 d1' H1.
      rewrite !(filter_filter_comm (admits T e)). by rewrite (restrict_rows T e d1 d1' H1).
Qed.

Lemma push_keeps e t (r : R) : bound_to e t -> admits T e r = true -> keeps_others t (push T r).
Proof.
  intros Hb Hr. apply (keeps_others_rows T). intros d. rewrite List.filter_app. simpl.
  rewrite (admits_bound T e t) in Hr by done. apply negb_true_iff in Hr.
  by rewrite Hr, app_nil_r.
Qed.

Lemma push_respects e (r : R) : respects e (push T r) (push T r).
Proof.
  apply (respects_rows T). intros d d2 H. rewrite !List.filter_app. f_equal.
  by apply (restrict_rows T).
Qed.

Lemma insert_isolated texts p (row : Time -> R) :
  (forall now x, p x = true -> tb_tenant T x = tb_tenant T (row now)) ->
  isolated (insert_row T texts p row).
Proof.
  intros Hp. apply guarded_isolated. intros e t now seq d Hb. simpl.
  destruct (admits T e (row now)) eqn:Ha; simpl; [|unfold refuse; eauto with pg].
  assert (Hv : forall x, p x = true -> admits T e x = true).
  { intros x Hx. unfold admits in *. by rewrite (Hp now x Hx). }
  destruct (existsb p (tb_rows T d)) eqn:Hex; unfold refuse.
  - split; [done|]. intros d2 Hd.
    rewrite (existsb_restrict T e p d d2) by done. rewrite Hex. eauto with pg.
  - split; [by eapply push_keeps|]. intros d2 Hd.
    rewrite (existsb_restrict T e p d d2) by done. rewrite Hex. eauto using push_respects.
Qed.

Lemma upsert_isolated texts p merge (row : Time -> R) :
  (forall now x, p x = true -> tb_tenant T x = tb_tenant T (row now)) ->
  (forall now x, p x = true -> tb_tenant T (merge (row now) x) = tb_tenant T (row now)) ->
  isolated (upsert T texts p merge row).
Proof.
  intros Hp Hm. apply guarded_isolated. intros e t now seq d Hb. simpl.
  destruct (admits T e (row now)) eqn:Ha; simpl; [|unfold refuse; eauto with pg].
  assert (Hv : forall x, p x = true -> admits T e x = true).
  { intros x Hx. unfold admits in *. by rewrite (Hp now x Hx). }
  split.
  - intros d'. unfold upsert_row. destruct (existsb p (tb_rows T d')).
    + apply (keeps_others_rows T t (fun d => sql_update p (merge (row now)) (tb_rows T d))).
      intros d1. apply filter_update_ext. intros x Hx. pose proof (Hv x Hx) as Hax.
      rewrite (admits_bound T e t) in Hax by done. apply negb_true_iff in Hax.
      split; [done|]. unfold foreign in *. by rewrite (Hm now x Hx), <- (Hp now x Hx).
    + by apply (push_keeps e).
  - assert (Hmv : forall x, p x = true -> admits T e (merge (row now) x) = true).
    { intros x Hx. unfold admits in *. by rewrite (Hm now x Hx). }
    intros d2 Hd. eexists. split; [done|]. intros d1 d1' H1. unfold upsert_row.
    assert (existsb p (tb_rows T d1) = existsb p (tb_rows T d1')) as ->.
    { by apply (existsb_restrict T e). }
    destruct (existsb p (tb_rows T d1')).
    + refine (respects_rows T e (fun d => sql_update p (merge (row now)) (tb_rows T d))
        (fun d => sql_update p (merge (row now)) (tb_rows T d)) _ d1 d1' H1).
      clear d1 d1' H1. intros d1 d1' H1.
      by rewrite !filter_update_in, (restrict_rows T e d1 d1' H1) by eauto.
    + by apply push_respects.
Qed.
End Kinds.

(** ** The queries *)
Section Queries.
Context {PP : PgPrims}.

Ltac same_tenant :=
  intros; cbn in *; unfold Q.same_outbox, Q.same_claim, Q.same_state, Q.same_subject,
    Q.same_checkpoint, Q.same_pdlq, Q.of_projection, Q.same_processed, Q.same_position,
    Q.same_sdlq in *; bool_to_prop; cbn; congruence.

Ltac isolate :=
  lazymatch goal with
  | |- isolated (select _ _) => apply select_isolated
  | |- isolated (select_limit _ _ _) => apply select_isolated
  | |- isolated (select_one _ _) => apply select_isolated
  | |- isolated (exec _) => apply exec_isolated; isolate
  | |- isolated (update_rows _ _ _ _) => apply (update_isolated _); done
  | |- isolated (delete_rows _ _ _) => apply (delete_isolated _)
  | |- isolated (insert_row _ _ _ _) => apply (insert_isolated _); same_tenant
  | |- isolated (upsert _ _ _ _ _) => apply (upsert_isolated _); same_tenant
  end.

Lemma AdvisoryLock_isolated k : isolated (Q.AdvisoryLock k).
Proof. intros e t now seq d Hb. simpl. eauto with pg. Qed.

Lemma InsertEvent_isolated arg : isolated (Q.InsertEvent arg).
Proof.
  apply guarded_isolated. intros e t now seq d Hb. cbn [s_run].
  assert (Hc : forall r x, Q.event_conflict r x = true -> admits Events e r = true ->
    admits Events e x = true).
  { intros r x Hx Ha. unfold admits in *.
    assert (tb_tenant Events x = tb_tenant Events r) as ->; [|done].
    unfold Q.event_conflict, Q.in_stream, Q.is_event in Hx. apply orb_true_iff in Hx as [Hx|Hx];
      bool_to_prop; done. }
  destruct (pg_jsonb (Q.ie_Actor arg)) as [actor|x]; [|unfold refuse; eauto with pg].
  destruct (Q.opt_jsonb (Q.ie_PayloadJson arg)) as [pj|x]; [|unfold refuse; eauto with pg].
  destruct (Q.opt_jsonb (Q.ie_EncryptionKeyRefs arg)) as [kr|x]; [|unfold refuse; eauto with pg].
  unfold Q.insert_event, refuse. destruct (max_i64 <=? seq); [eauto with pg|].
  set (row := Q.event_row arg (seq + 1) now actor pj kr).
  destruct (admits Events e row) eqn:Ha; cbn [negb]; [|eauto with pg].
  destruct (existsb _ (events d)) eqn:Hex.
  - split; [done|]. intros d2 Hd.
    pose proof (existsb_restrict Events e (Q.event_conflict row) d d2 (fun x H => Hc row x H Ha) Hd) as E.
    cbn [tb_rows Events] in E. rewrite E, Hex. eauto with pg.
  - split; [by apply (push_keeps Events e)|]. intros d2 Hd.
    pose proof (existsb_restrict Events e (Q.event_conflict row) d d2 (fun x H => Hc row x H Ha) Hd) as E.
    cbn [tb_rows Events] in E. rewrite E, Hex. eexists. split; [done|]. apply (push_respects Events).
Qed.

Lemma InsertOutbox_isolated t gp id : isolated (Q.InsertOutbox t gp id).
Proof. unfold Q.InsertOutbox. isolate. Qed.

Lemma LastStreamHash_isolated t s : isolated (Q.LastStreamHash t s).
Proof. unfold Q.LastStreamHash. isolate. Qed.

Lemma ClaimUnique_isolated t s v c : isolated (Q.ClaimUnique t s v c).
Proof. unfold Q.ClaimUnique. isolate. Qed.

Lemma ReleaseUnique_isolated t s v : isolated (Q.ReleaseUnique t s v).
Proof. unfold Q.ReleaseUnique. isolate. Qed.

Lemma UpsertStateCache_isolated t s u b v x n : isolated (Q.UpsertStateCache t s u b v x n).
Proof.
  apply guarded_isolated. intros e t' now seq d Hb. cbn [s_run].
  destruct (pg_jsonb b) as [js|]; [|unfold refuse; eauto with pg].
  assert (Hi : isolated (upsert StateCacheT [] (Q.same_state t s) (fun new _ => new)
    (fun now => mkStateCache t s u js v x (pg_time now) n))) by isolate.
  exact (Hi e t' now seq d Hb).
Qed.

Lemma MarkOutboxFailed_isolated err next t gp : isolated (Q.MarkOutboxFailed err next t gp).
Proof.
  apply guarded_isolated. intros e t' now seq d Hb. cbn [s_run].
  set (p := fun r => _).
  assert (Hp : forall d2, restrict e d2 = restrict e d -> existsb p (outbox d2) = existsb p (outbox d)).
  { intros d2. apply (existsb_restrict OutboxT). intros x Hx. unfold p in Hx. by bool_to_prop. }
  destruct (existsb p (outbox d)) eqn:Hex.
  - unfold refuse. split; [done|]. intros d2 Hd. rewrite (Hp d2 Hd). eauto with pg.
  - assert (Hi : isolated (exec (update_rows OutboxT [] (Q.same_outbox t gp)
      (fun _ o => Q.set_attempts (ob_attempts o + 1) (Some err) (Some (pg_time next)) o)))) by isolate.
    specialize (Hi e t' now seq d Hb).
    destruct (s_run _ e now seq d) as [[seq' w] r]. destruct Hi as [Hw Hr]. split; [done|].
    intros d2 Hd. rewrite (Hp d2 Hd). by apply Hr.
Qed.
End Queries.

(** ** Programs and transactions *)

Inductive prog_all (P : forall B, Stmt B -> Prop) {A} : prog A -> Prop :=
  | pa_ret r : prog_all P (PRet r)
  | pa_call B (s : Stmt B) k : P B s -> (forall r, prog_all P (k r)) -> prog_all P (PCall B s k).

Notation prog_isolated := (prog_all (@isolated)).

Lemma pbind_all (P : forall B, Stmt B -> Prop) {A B} (f : A -> prog B) p :
  prog_all P p -> (forall a, prog_all P (f a)) -> prog_all P (pbind f p).
Proof.
  intros Hp Hf. induction Hp as [[a|x]|C s k Hs Hk IH]; simpl; [done|constructor|].
  constructor; [done|]. intros r. apply IH.
Qed.

Lemma perform_all (P : forall B, Stmt B -> Prop) {A} (s : Stmt A) : P A s -> prog_all P (perform s).
Proof. intros H. constructor; [done|]. constructor. Qed.

Lemma pmap_err_all (P : forall B, Stmt B -> Prop) {A} f (s : Stmt A) :
  P A s -> prog_all P (pmap_err f s).
Proof. intros H. constructor; [done|]. constructor. Qed.

Lemma pforM_all (P : forall B, Stmt B -> Prop) {A} (l : list A) f :
  (forall x, prog_all P (f x)) -> prog_all P (pforM l f).
Proof.
  intros Hf. induction l as [|x l IH]; simpl; [constructor|]. by apply pbind_all.
Qed.

Section Transactions.
Context (O : Oracle) (dp : Deployment).

Lemma run_isolated {A} (p : prog A) e t : bound_to e t -> prog_isolated p ->
  forall w w' r, run O e p w = (w', r) ->
  others t (w_db w') = others t (w_db w) /\
  forall d2, restrict e d2 = restrict e (w_db w) ->
    exists d2', run O e p (mkWorld d2 (w_seq w) (w_tick w)) = (mkWorld d2' (w_seq w') (w_tick w'), r) /\
      restrict e d2' = restrict e (w_db w').
Proof.
  intros Hb Hp. induction Hp as [x|B s k Hs Hk IH]; intros w w' r; cbn [run].
  - intros [= <- <-]. split; [done|]. intros d2 Hd. by exists d2.
  - unfold run_stmt. cbn [w_tick w_db w_seq]. destruct (o_fault O (w_tick w)) as [msg|].
    + intros [Ho Hr]%IH. split; [done|]. intros d2 Hd. exact (Hr d2 Hd).
    + specialize (Hs e t (o_now O (w_tick w)) (w_seq w) (w_db w) Hb).
      destruct (s_run s e (o_now O (w_tick w)) (w_seq w) (w_db w)) as [[seq' wr] x].
      destruct Hs as [Hw Hx]. intros [Ho Hr]%IH. cbn [w_db w_seq w_tick] in *.
      split; [by rewrite Ho|]. intros d2 Hd. destruct (Hx d2 Hd) as (w2 & -> & Hw2).
      apply (Hr (w2 d2)). symmetry. by apply Hw2.
Qed.

Lemma tenant_env_bound t :
  dp_rls dp = true -> dp_main_bypass dp = false -> bound_to (tenant_env dp t) t.
Proof. intros H1 H2. split; [|done]. unfold enforced; simpl. by rewrite H1, H2. Qed.

(** What one tenant sees of the database. *)
Definition own_view (t : string) (d : DB) : DB := restrict (mkEnv true false (Some t)) d.

Lemma restrict_own t d : dp_rls dp = true -> dp_main_bypass dp = false ->
  restrict (tenant_env dp t) d = own_view t d.
Proof. intros H1 H2. unfold tenant_env, own_view. by rewrite H1, H2. Qed.

Lemma run_tx_isolated {A} (body : prog A) t w w' r :
  dp_rls dp = true -> dp_main_bypass dp = false -> prog_isolated body ->
  run_tx O dp t body w = (w', r) ->
  others t (w_db w') = others t (w_db w) /\
  forall d2, own_view t d2 = own_view t (w_db w) ->
    exists d2', run_tx O dp t body (mkWorld d2 (w_seq w) (w_tick w)) =
        (mkWorld d2' (w_seq w') (w_tick w'), r) /\
      own_view t d2' = own_view t (w_db w').
Proof.
  intros H1 H2 Hp. pose proof (tenant_env_bound t H1 H2) as Hb. unfold run_tx, tick, rollback.
  cbn [w_tick w_db w_seq]. destruct (o_fault O (w_tick w)) as [msg|].
  { intros [= <- <-]. split; [done|]. intros d2 Hd. by exists d2. }
  destruct (o_fault O (S (w_tick w))) as [msg|].
  { intros [= <- <-]. split; [done|]. intros d2 Hd. by exists d2. }
  destruct (run O _ body _) as [w2 [a|x]] eqn:Hrun;
    apply (run_isolated body _ t Hb Hp) in Hrun as [Ho Hr]; cbn [w_tick w_db w_seq] in *.
  - destruct (o_fault O (w_tick w2)) as [msg|] eqn:Hf.
    + destruct (o_lost O (w_tick w2)) eqn:Hlost; intros [= <- <-]; cbn [w_tick w_db w_seq]; (split; [done|]);
        intros d2 Hd; destruct (Hr d2) as (d2' & -> & Hd2'); rewrite ?restrict_own in * by done;
        try done; cbn [w_tick w_db w_seq]; rewrite Hf, Hlost; eauto.
    + intros [= <- <-]. cbn [w_tick w_db w_seq]. split; [done|]. intros d2 Hd.
      destruct (Hr d2) as (d2' & -> & Hd2'); rewrite ?restrict_own in * by done; [done|].
      cbn [w_tick w_db w_seq]. rewrite Hf. eauto.
  - intros [= <- <-]. cbn [w_tick w_db w_seq]. split; [done|]. intros d2 Hd.
    destruct (Hr d2) as (d2' & -> & Hd2'); rewrite ?restrict_own in * by done; [done|]. eauto.
Qed.

(** A method that runs bound to tenant [t]. *)
Definition tenant_method (t : string) {A} (m : Method A) : Prop :=
  match m with
  | Return _ => True
  | Tx _ t' body _ => t' = t /\ prog_isolated body
  | Auto _ _ _ _ => False
  end.

Lemma call_isolated {A} (m : Method A) t w w' r :
  dp_rls dp = true -> dp_main_bypass dp = false -> tenant_method t m ->
  call O dp m w = (w', r) ->
  others t (w_db w') = others t (w_db w) /\
  forall d2, own_view t d2 = own_view t (w_db w) ->
    exists d2', call O dp m (mkWorld d2 (w_seq w) (w_tick w)) = (mkWorld d2' (w_seq w') (w_tick w'), r) /\
      own_view t d2' = own_view t (w_db w').
Proof.
  intros H1 H2. destruct m as [x|B t' body post|B pool s post]; simpl; [|intros [-> Hp]|done].
  - intros _ [= <- <-]. split; [done|]. intros d2 Hd. by exists d2.
  - destruct (run_tx O dp t body w) as [w1 x] eqn:Hrun. intros [= <- <-].
    apply run_tx_isolated in Hrun as [Ho Hr]; try done. split; [done|]. intros d2 Hd.
    destruct (Hr d2 Hd) as (d2' & -> & Hd2'). eauto.
Qed.
End Transactions.

(** ** The adapter *)
Section Adapter.
Context {CP : ChainPrims} {PP : PgPrims} (a : Postgres.Adapter).

(** Every method, called for tenant [t]. *)
Inductive tenant_call (t : string) : forall A : Type, Method A -> Prop :=
  | tc_Append p : StreamID.Tenant (ap_StreamID p) = t -> tenant_call t _ (Postgres.Append a p)
  | tc_ReadStream sid v : StreamID.Tenant sid = t -> tenant_call t _ (Postgres.ReadStream sid v)
  | tc_ReadAllForTenant v n : tenant_call t _ (Postgres.ReadAllForTenant t v n)
  | tc_CurrentStreamVersion sid : StreamID.Tenant sid = t ->
      tenant_call t _ (Postgres.CurrentStreamVersion sid)
  | tc_GetEventByID id : tenant_call t _ (Postgres.GetEventByID t id)
  | tc_BackfillEventHash id h ph : tenant_call t _ (Postgres.BackfillEventHash t id h ph)
  | tc_GetState s : tenant_call t _ (Postgres.GetState t s)
  | tc_ListStates u x n : tenant_call t _ (Postgres.ListStates t u x n)
  | tc_WipeStateCacheForType u : tenant_call t _ (Postgres.WipeStateCacheForType a t u)
  | tc_UpsertCachedState row : sc_TenantID row = t ->
      tenant_call t _ (Postgres.UpsertCachedState row)
  | tc_PendingOutbox now n m : tenant_call t _ (Postgres.PendingOutbox a now t n m)
  | tc_QuarantinedStreams m : tenant_call t _ (Postgres.QuarantinedStreams a t m)
  | tc_MarkOutboxPublished gp : tenant_call t _ (Postgres.MarkOutboxPublished t gp)
  | tc_MarkOutboxFailed gp e next : tenant_call t _ (Postgres.MarkOutboxFailed t gp e next)
  | tc_CleanupPublishedOutbox x : tenant_call t _ (Postgres.CleanupPublishedOutbox t x)
  | tc_CountPending : tenant_call t _ (Postgres.CountPending t)
  | tc_CountFailing m : tenant_call t _ (Postgres.CountFailing t m)
  | tc_CountDLQ m : tenant_call t _ (Postgres.CountDLQ t m)
  | tc_ListDLQ m x n : tenant_call t _ (Postgres.ListDLQ t m x n)
  | tc_ReplayDLQ gp : tenant_call t _ (Postgres.ReplayDLQ t gp)
  | tc_AbandonDLQ gp : tenant_call t _ (Postgres.AbandonDLQ t gp)
  | tc_ReplayAllDLQ m : tenant_call t _ (Postgres.ReplayAllDLQ t m)
  | tc_Load name : tenant_call t _ (Postgres.Load a name t)
  | tc_Save name v : tenant_call t _ (Postgres.Save a name t v)
  | tc_Status name : tenant_call t _ (Postgres.Status a name t)
  | tc_Reset name : tenant_call t _ (Postgres.Reset a name t)
  | tc_ResetTo name v : tenant_call t _ (Postgres.ResetTo a name t v)
  | tc_InsertProjectionDLQ name gp id u e :
      tenant_call t _ (Postgres.InsertProjectionDLQ a name t gp id u e)
  | tc_ListProjectionDLQ name x n : tenant_call t _ (Postgres.ListProjectionDLQ a name t x n)
  | tc_CountProjectionDLQ name : tenant_call t _ (Postgres.CountProjectionDLQ a name t)
  | tc_AbandonProjectionDLQ name gp : tenant_call t _ (Postgres.AbandonProjectionDLQ a name t gp)
  | tc_AbandonAllProjectionDLQ name : tenant_call t _ (Postgres.AbandonAllProjectionDLQ a name t)
  | tc_HasProcessedEvent name id : tenant_call t _ (Postgres.HasProcessedEvent a name t id)
  | tc_MarkProcessedEvent name id : tenant_call t _ (Postgres.MarkProcessedEvent a name t id)
  | tc_GetSubjectKey s : tenant_call t _ (Postgres.GetSubjectKey t s)
  | tc_UpsertSubjectKey s dek kek : tenant_call t _ (Postgres.UpsertSubjectKey t s dek kek)
  | tc_ForgetSubject s : tenant_call t _ (Postgres.ForgetSubject t s)
  | tc_ListStaleSubjectKeys v n : tenant_call t _ (Postgres.ListStaleSubjectKeys t v n)
  | tc_ListSubjectsCreatedBefore c n : tenant_call t _ (Postgres.ListSubjectsCreatedBefore t c n)
  | tc_ListStreamsBehind name n : tenant_call t _ (Postgres.ListStreamsBehind a name t n)
  | tc_AdvanceStateStreamPosition name s v :
      tenant_call t _ (Postgres.AdvanceStateStreamPosition a name t s v)
  | tc_StateStreamStatus name : tenant_call t _ (Postgres.StateStreamStatus a name t)
  | tc_ResetStateStreamSubscriber name : tenant_call t _ (Postgres.ResetStateStreamSubscriber a name t)
  | tc_ResetStateStreamSubscriberForStream name s :
      tenant_call t _ (Postgres.ResetStateStreamSubscriberForStream a name t s)
  | tc_InsertSubscriberDLQ row : CmdWorkflow.sr_TenantID row = t ->
      tenant_call t _ (Postgres.InsertSubscriberDLQ a row)
  | tc_ListSubscriberDLQ name n : tenant_call t _ (Postgres.ListSubscriberDLQ a name t n)
  | tc_ClearSubscriberDLQ name : tenant_call t _ (Postgres.ClearSubscriberDLQ a name t)
  | tc_DeleteSubscriberDLQRow name x : tenant_call t _ (Postgres.DeleteSubscriberDLQRow a name t x).

Lemma after_tenant {A B} t (m : Method A) (f : res A -> res B) :
  tenant_method t m -> tenant_method t (after m f).
Proof. by destruct m. Qed.

Lemma withTenantTx_tenant {A} t (p : prog A) :
  prog_isolated p -> tenant_method t (Postgres.withTenantTx t p).
Proof. intros Hp. unfold Postgres.withTenantTx. by case_bool_decide. Qed.

Lemma runForTenant_tenant {A} t (s : Stmt A) :
  t <> "" -> isolated s -> tenant_method t (Postgres.runForTenant a t s).
Proof.
  intros Ht Hs. unfold Postgres.runForTenant. rewrite bool_decide_eq_false_2 by done.
  by apply withTenantTx_tenant, perform_all.
Qed.

Lemma appendEvents_isolated sid ex evs : forall i prev sp ep rec,
  prog_isolated (Postgres.appendEvents sid ex i prev sp ep rec evs).
Proof.
  induction evs as [|ev evs IH]; intros i prev sp ep rec; cbn [Postgres.appendEvents]; [constructor|].
  apply pbind_all; [constructor|intros actor].
  apply pbind_all; [constructor|intros h].
  apply pbind_all; [apply pmap_err_all, InsertEvent_isolated|intros row].
  apply pbind_all; [apply pmap_err_all, InsertOutbox_isolated|intros _]. apply IH.
Qed.

Lemma appendTx_isolated p : prog_isolated (Postgres.appendTx a p).
Proof.
  unfold Postgres.appendTx.
  apply pbind_all; [apply pmap_err_all, AdvisoryLock_isolated|intros _].
  apply pbind_all; [|intros _].
  { apply pforM_all. intros op. unfold Postgres.applyConstraint.
    destruct (co_Op op =? ClaimConstraint); [apply pmap_err_all, ClaimUnique_isolated|].
    destruct (co_Op op =? ReleaseConstraint); [apply pmap_err_all, ReleaseUnique_isolated|constructor]. }
  apply pbind_all; [|intros prev].
  { unfold Postgres.readPrevHash. apply pbind_all.
    - constructor; [apply LastStreamHash_isolated|]. constructor.
    - intros [[[|b h]|]|e]; try constructor. destruct (errors_Is e ErrNoRows); constructor. }
  apply pbind_all; [apply appendEvents_isolated|intros pos].
  apply pbind_all; [|constructor]. unfold Postgres.writeStateCache.
  destruct (ap_NewStateBytes p); [apply pmap_err_all, UpsertStateCache_isolated|constructor].
Qed.

Ltac isolate_call :=
  repeat first
    [ apply after_tenant
    | apply runForTenant_tenant; [done|]
    | apply withTenantTx_tenant, perform_all ];
  first
    [ apply UpsertStateCache_isolated | apply MarkOutboxFailed_isolated
    | apply select_isolated
    | apply exec_isolated; first [apply (delete_isolated _)|by apply (update_isolated _)]
    | apply (delete_isolated _) | by apply (update_isolated _)
    | apply (upsert_isolated _); intros; cbn in *;
      unfold Q.same_subject, Q.same_checkpoint, Q.same_pdlq, Q.of_projection, Q.same_processed,
        Q.same_position, Q.same_sdlq in *; bool_to_prop; cbn; congruence ].

Lemma tenant_call_method t A (m : Method A) : t <> "" -> tenant_call t A m -> tenant_method t m.
Proof.
  intros Ht. destruct 1; subst; try solve [isolate_call].
  - unfold Postgres.Append. destruct (StreamID.Validate _); [done|].
    destruct (ap_Events p); [done|]. split; [done|]. apply appendTx_isolated.
  - unfold Postgres.ReadStream. destruct (StreamID.Validate _); [done|]. isolate_call.
  - unfold Postgres.CurrentStreamVersion. destruct (StreamID.Validate _); [done|]. isolate_call.
  - unfold Postgres.WipeStateCacheForType. rewrite bool_decide_eq_false_2 by done. isolate_call.
  - unfold Postgres.QuarantinedStreams. rewrite bool_decide_eq_false_2 by done. isolate_call.
  - unfold Postgres.InsertSubscriberDLQ. destruct (CmdWorkflow.sr_EventIDs row); [done|]. isolate_call.
Qed.
End Adapter.

(** ** A concrete server, for the witnesses *)

Definition actor_tuple (x : actorJSON) :=
  (aj_Kind x, aj_Principal x, aj_OnBehalfOf x, aj_APIKeyID x, aj_Attributes x).
Definition actor_untuple (x : Z * string * string * string * gmap string string) : actorJSON :=
  let '(k, p, o, i, m) := x in mkActorJSON k p o i m.

Definition concrete_pg : PgPrims := {|
  pg_jsonb := fun s => Ok s;
  pg_leb := str_leb;
  pg_partition := fun _ => "_p07";
  pg_marshal_actor := fun x =>
    Ok (String "a" (str_of_bytes (pos_bytes (encode (actor_tuple x)))));
  pg_unmarshal_actor := fun s =>
    match s with
    | String _ s' =>
        match decode (bytes_pos (bytes_of_str s')) with
        | Some x => Ok (actor_untuple x)
        | None => Err (ENew "invalid")
        end
    | EmptyString => Err (ENew "unexpected end of JSON input")
    end
|}.

#[local] Existing Instances concrete_prims concrete_pg.

Definition demo_dp : Deployment := mkDeployment true false true.
Definition demo_pg : Postgres.Adapter := Postgres.New [Postgres.WithAdminPool true].
Definition demo_oracle : Oracle := no_faults (fun n => 1700000000000000000 + Z.of_nat n).
Definition demo_event (id : UUID) (occurred : Time) : EventToAppend :=
  mkEventToAppend id "shop.v1.OrderPlaced" 1 occurred 7 7 9 Actor.zero [Byte.x41; Byte.x42] [] [].
Definition demo_params (tenant : string) (expected : Z) (ids : list UUID) : AppendParams :=
  mkAppendParams (StreamID.mk tenant "order" "o") expected
    ((fun id => demo_event id 1700000000123456000) <$> ids) [] None "" 0 false.
Definition demo_call {A} (m : Method A) (w : World) : World * res A := call demo_oracle demo_dp m w.

(** Two tenants with two and one events. *)
Definition demo_w1 : World :=
  fst (demo_call (Postgres.Append demo_pg (demo_params "acme" 0 [11; 12])) (mkWorld empty_db 0 0)).
Definition demo_w2 : World :=
  fst (demo_call (Postgres.Append demo_pg (demo_params "bob" 0 [11])) demo_w1).

(** ** Theorems *)

(** C2: tenant isolation.  With migration 00015 applied and the main pool's
    role without BYPASSRLS, every method of the adapter called for a tenant
    leaves all rows of the other tenants in all tables as they are (claims
    under "__global__", which the policy shares, apart), and what it returns
    and does to the tenant's own rows is determined by the tenant's own rows:
    on any other database that looks the same to the tenant it returns the same
    answer and leaves the same view.  This holds whatever the query text
    filters by, and whichever statement fails. *)
Theorem tenant_isolation (CP : ChainPrims) (PP : PgPrims) (O : Oracle) (dp : Deployment)
    (a : Postgres.Adapter) (t : string) A (m : Method A) w w' r :
  dp_rls dp = true -> dp_main_bypass dp = false -> t <> "" -> tenant_call a t A m ->
  call O dp m w = (w', r) ->
  others t (w_db w') = others t (w_db w) /\
  forall d2, own_view t d2 = own_view t (w_db w) ->
    exists d2', call O dp m (mkWorld d2 (w_seq w) (w_tick w)) =
        (mkWorld d2' (w_seq w') (w_tick w'), r) /\
      own_view t d2' = own_view t (w_db w').
Proof. intros H1 H2 Ht Hm. apply call_isolated; [done|done|]. by apply (tenant_call_method a). Qed.

Lemma tenant_isolation_witness :
  length (events (w_db demo_w2)) = 3%nat /\
  others "bob" (w_db demo_w2) = others "bob" (w_db demo_w1) /\
  length (events (others "bob" (w_db demo_w2))) = 2%nat.
Proof.
  split; [vm_compute; reflexivity|]. split; [|vm_compute; reflexivity].
  refine (proj1 (tenant_isolation concrete_prims concrete_pg demo_oracle demo_dp demo_pg "bob" _
    (Postgres.Append demo_pg (demo_params "bob" 0 [11])) demo_w1 demo_w2 _ _ _ _ _ _));
    [reflexivity|reflexivity|discriminate|by constructor|apply surjective_pairing].
Defined.

(** Sessions the policies do not apply to. *)
Lemma restrict_free e d : enforced e = false -> restrict e d = d.
Proof.
  intros He. assert (H : forall R (T : Table R) l, List.filter (admits T e) l = l).
  { intros R T l. apply filter_all, Forall_forall. intros x _. unfold admits. by rewrite He. }
  unfold restrict, visible. by rewrite !H; destruct d.
Qed.

(** PendingOutbox is scoped to a tenant by row-level security alone: its
    query has no tenant condition.  In a deployment without the policies
    (WithoutRLS), or whose main role has BYPASSRLS, it answers every tenant
    with the same rows, those of all tenants. *)
Theorem pending_outbox_unscoped (CP : ChainPrims) (PP : PgPrims) (O : Oracle) (dp : Deployment)
    (a : Postgres.Adapter) now t1 t2 limit maxAttempts w :
  dp_rls dp && negb (dp_main_bypass dp) = false -> t1 <> "" -> t2 <> "" ->
  call O dp (Postgres.PendingOutbox a now t1 limit maxAttempts) w =
  call O dp (Postgres.PendingOutbox a now t2 limit maxAttempts) w.
Proof.
  intros He H1 H2. unfold Postgres.PendingOutbox, Postgres.runForTenant, Postgres.withTenantTx.
  rewrite !bool_decide_eq_false_2 by done. cbn [after call]. unfold run_tx, perform.
  cbn [run]. unfold run_stmt. cbn [s_run Q.PendingOutboxWithEnvelope select_limit select guarded].
  assert (Hs : forall t, setting_bound (tenant_env dp t) = true).
  { intros t. unfold setting_bound. simpl. apply orb_true_r. }
  rewrite !Hs, !restrict_free by done. done.
Qed.

(** A deployment that opted out of the policies. *)
Definition demo_norls : Deployment := mkDeployment false false false.

Definition demo_pending (t : string) : res (list OutboxRow) :=
  snd (call demo_oracle demo_norls
         (Postgres.PendingOutbox (Postgres.New [Postgres.WithoutRLS]) 1800000000000000000 t 10 0) demo_w2).

(** bob is handed the row of acme. *)
Lemma pending_outbox_unscoped_witness :
  demo_pending "bob" = demo_pending "acme" /\
  match demo_pending "bob" with
  | Ok rows => (fun r => Envelope.TenantID (or_Envelope r)) <$> rows = ["acme"; "bob"]
  | Err _ => False
  end.
Proof.
  split; [|vm_compute; reflexivity].
  refine (f_equal snd (pending_outbox_unscoped concrete_prims concrete_pg demo_oracle demo_norls
    (Postgres.New [Postgres.WithoutRLS]) 1800000000000000000 "bob" "acme" 10 0 demo_w2 _ _ _));
    [reflexivity|discriminate|discriminate].
Defined.

(** The migration ramp left in place: with WithoutRLSEnforcement, the policies
    applied and a main role without BYPASSRLS, the store-wide reader either
    fails, on a fresh connection, or sees nothing, on one that has run a tenant
    transaction before. *)
Lemma unsafe_ramp (CP : ChainPrims) (PP : PgPrims) (O : Oracle) (dp : Deployment)
    (a : Postgres.Adapter) pos limit w :
  dp_rls dp = true -> dp_main_bypass dp = false ->
  Postgres.hasAdminPool a = false -> Postgres.allowMainPoolForCrossTenant a = true ->
  Forall (fun r => ev_tenant_id r <> "") (events (w_db w)) ->
  0 <= limit < 2 ^ 31 -> o_fault O (w_tick w) = None ->
  call O dp (Postgres.ReadAll a pos limit) w =
    (tick w, if o_used O (w_tick w) then Ok [] else Err err_setting).
Proof.
  intros H1 H2 Ha Hm Hev Hl Hf.
  unfold Postgres.ReadAll, Postgres.adminDo, Postgres.admin. rewrite Ha, Hm. cbn [after call].
  unfold run_auto. rewrite Hf. cbn [s_run Q.ReadAllFromPosition select_limit select guarded forallb negb].
  unfold setting_bound, pool_env, enforced. cbn [env_rls env_bypass env_tenant]. rewrite H1, H2.
  cbn [negb andb orb]. destruct (o_used O (w_tick w)); cbn [negb]; [|done].
  rewrite i32_small by lia. destruct (Z.ltb_spec limit 0); [lia|].
  unfold restrict, visible. cbn [events tb_rows Events].
  rewrite (filter_none (admits Events _)).
  - cbn. by rewrite take_nil.
  - eapply Forall_impl; [exact Hev|]. intros r Hr. unfold admits, enforced. cbn.
    rewrite orb_false_r. apply bool_decide_eq_false. congruence.
Qed.

(** Cross-tenant calls without an admin pool and without an opt-out option do
    not reach the database. *)
Lemma admin_pool_required (a : Postgres.Adapter) A (s : Stmt A) :
  Postgres.hasAdminPool a = false -> Postgres.allowMainPoolForCrossTenant a = false ->
  Postgres.adminDo a s = Return (Err (ESent ErrAdminPoolRequired)) /\
  Postgres.runForTenant a "" s = Return (Err (ESent ErrAdminPoolRequired)).
Proof.
  intros H1 H2. unfold Postgres.runForTenant, Postgres.adminDo, Postgres.admin. rewrite H1, H2. done.
Qed.

(** Truncating to 2048 bytes can cut a character in two; the server refuses the
    rest, the row is not updated and its attempts are not counted. *)
Lemma cut_error_text_rejected (CP : ChainPrims) (PP : PgPrims) (dp : Deployment) now t gp msg next w :
  t <> "" -> pg_text (Postgres.truncate_2048 msg) = false ->
  call (no_faults now) dp (Postgres.MarkOutboxFailed t gp msg next) w =
    (mkWorld (w_db w) (w_seq w) (3 + w_tick w), Err err_text).
Proof.
  intros Ht Hm. unfold Postgres.MarkOutboxFailed, Postgres.withTenantTx.
  rewrite bool_decide_eq_false_2 by done. cbn [call]. unfold run_tx. cbn [o_fault no_faults tick w_tick].
  unfold perform. cbn [run]. unfold run_stmt. cbn [o_fault no_faults w_tick s_run Q.MarkOutboxFailed guarded].
  cbn [forallb]. rewrite Hm. reflexivity.
Qed.

(** 2047 letters and one character of two bytes: valid before the cut. *)
Lemma cut_error_text_example :
  let msg := foldr String.append (String (Ascii.ascii_of_nat 195) (String (Ascii.ascii_of_nat 169) ""))
               (replicate 2047 "a") in
  pg_text msg = true /\ pg_text (Postgres.truncate_2048 msg) = false.
Proof. vm_compute. split; reflexivity. Qed.
