(* ===== verification/PgFacts.v ===== *)
(** * Facts about the Postgres adapter

    What a statement, a transaction and Append do to the tables when they run
    alone; the invariant [db_wf] of the tables and the sequence, and that
    Append keeps it. *)
From S2P Require Import Prelude Errors Streams Sharding Events Chain Store Sql PgDB PgQueries PgStore PgIsolation.
Import Pg.

(** ** Running statements and programs *)
Section Run.
Context (O : Oracle).

Lemma run_bind {A B} e (f : A -> prog B) p w :
  run O e (pbind f p) w =
  match run O e p w with
  | (w', Ok a) => run O e (f a) w'
  | (w', Err x) => (w', Err x)
  end.
Proof.
  revert w. induction p as [[a|x]|C s k IH]; intros w; cbn [pbind run]; [done|done|].
  destruct (run_stmt O e s w) as [w' r]. apply IH.
Qed.

Lemma run_bind_Ok {A B} e (f : A -> prog B) p w w'' b :
  run O e (pbind f p) w = (w'', Ok b) <->
  exists w' a, run O e p w = (w', Ok a) /\ run O e (f a) w' = (w'', Ok b).
Proof.
  rewrite run_bind. destruct (run O e p w) as [w' [a|x]]; split.
  - intros H. eauto.
  - by intros (? & ? & [= <- <-] & ?).
  - done.
  - by intros (? & ? & ? & ?).
Qed.

Lemma run_perform {A} e (s : Stmt A) w : run O e (perform s) w = run_stmt O e s w.
Proof. cbn. by destruct (run_stmt O e s w). Qed.

Lemma run_pmap_err {A} e f (s : Stmt A) w :
  run O e (pmap_err f s) w = let '(w', r) := run_stmt O e s w in (w', on_err f r).
Proof. cbn. by destruct (run_stmt O e s w). Qed.

Lemma run_pmap_err_Ok {A} e f (s : Stmt A) w w' a :
  run O e (pmap_err f s) w = (w', Ok a) -> run_stmt O e s w = (w', Ok a).
Proof. rewrite run_pmap_err. destruct (run_stmt O e s w) as [w1 [b|x]]; simpl; [done|]. by intros [= _]. Qed.

Lemma run_ptry {A} e (s : Stmt A) w :
  run O e (ptry s) w = let '(w', r) := run_stmt O e s w in (w', Ok r).
Proof. cbn. by destruct (run_stmt O e s w). Qed.

Lemma run_stmt_Ok {A} e (s : Stmt A) w w' a :
  run_stmt O e s w = (w', Ok a) ->
  exists wr, s_run s e (o_now O (w_tick w)) (w_seq w) (w_db w) = (w_seq w', wr, Ok a) /\
    w_db w' = wr (w_db w).
Proof.
  unfold run_stmt. destruct (o_fault O (w_tick w)); [done|].
  destruct (s_run s e _ _ _) as [[seq wr] r]. intros [= <- ->]. eauto.
Qed.

Lemma guarded_Ok {A} texts (f : Env -> Time -> Z -> DB -> Z * (DB -> DB) * res A) e now seq d x wr a :
  s_run (guarded texts f) e now seq d = (x, wr, Ok a) -> f e now seq d = (x, wr, Ok a).
Proof.
  unfold guarded, refuse; simpl. destruct (forallb pg_text texts); simpl; [|by intros [= _ _ ?]].
  destruct (setting_bound e); simpl; [done|by intros [= _ _ ?]].
Qed.

Lemma select_inv {A} texts (f : DB -> res A) e w w' r :
  run_stmt O e (select texts f) w = (w', r) ->
  w_db w' = w_db w /\ w_seq w' = w_seq w /\ (forall a, r = Ok a -> f (restrict e (w_db w)) = Ok a).
Proof.
  unfold run_stmt. destruct (o_fault O (w_tick w)); [by intros [= <- <-]|].
  destruct (s_run (select texts f) e _ _ _) as [[seq wr] x] eqn:Hs. intros [= <- <-]. simpl.
  unfold select, guarded, refuse in Hs; simpl in Hs.
  destruct (forallb pg_text texts); simpl in Hs; [|by injection Hs as <- <- <-].
  destruct (setting_bound e); simpl in Hs; [|by injection Hs as <- <- <-].
  injection Hs as <- <- <-. done.
Qed.

(** No fault, valid texts, the tenant bound: the statement runs. *)
Lemma run_stmt_run {A} texts (f : Env -> Time -> Z -> DB -> Z * (DB -> DB) * res A) e w :
  o_fault O (w_tick w) = None -> forallb pg_text texts = true -> setting_bound e = true ->
  run_stmt O e (guarded texts f) w =
    let '(seq, wr, r) := f e (o_now O (w_tick w)) (w_seq w) (w_db w) in
    (mkWorld (wr (w_db w)) seq (S (w_tick w)), r).
Proof. intros Hf Ht Hs. unfold run_stmt. rewrite Hf. cbn [s_run guarded]. by rewrite Ht, Hs. Qed.

(** ** Transactions *)
Context (dp : Deployment).

Lemma run_tx_Ok {A} t (body : prog A) w w' a :
  run_tx O dp t body w = (w', Ok a) ->
  exists w1 w2, w_db w1 = w_db w /\ w_seq w1 = w_seq w /\
    run O (tenant_env dp t) body w1 = (w2, Ok a) /\ w_db w' = w_db w2 /\ w_seq w' = w_seq w2.
Proof.
  unfold run_tx. destruct (o_fault O (w_tick w)); [done|].
  destruct (o_fault O (w_tick (tick w))); [done|].
  destruct (run O _ body _) as [w2 [b|x]] eqn:Hr; [|done].
  destruct (o_fault O (w_tick w2)); [done|]. intros [= <- <-]. by exists (tick (tick w)), w2.
Qed.

(** An error rolls back, unless it was the acknowledgement of the commit that
    got lost. *)
Lemma run_tx_Err {A} t (body : prog A) w w' x :
  run_tx O dp t body w = (w', Err x) ->
  w_db w' = w_db w \/
  exists w1 w2 a msg, w_db w1 = w_db w /\ w_seq w1 = w_seq w /\
    run O (tenant_env dp t) body w1 = (w2, Ok a) /\ w_db w' = w_db w2 /\ w_seq w' = w_seq w2 /\
    o_fault O (w_tick w2) = Some msg /\ o_lost O (w_tick w2) = true /\ x = ENew msg.
Proof.
  unfold run_tx. destruct (o_fault O (w_tick w)); [intros [= <- <-]; by left|].
  destruct (o_fault O (w_tick (tick w))); [intros [= <- <-]; by left|].
  destruct (run O _ body _) as [w2 [b|y]] eqn:Hr; [|intros [= <- <-]; by left].
  destruct (o_fault O (w_tick w2)) as [msg|] eqn:Hf; [|done].
  destruct (o_lost O (w_tick w2)) eqn:Hl; intros [= <- <-]; [|by left].
  right. exists (tick (tick w)), w2, b, msg. done.
Qed.
End Run.

(** ** The sequence *)

(** The sequence never moves back, and stays in its range. *)
Definition drawn (seq seq' : Z) : Prop := seq <= seq' /\ (seq <= max_i64 -> seq' <= max_i64).

Definition draws {A} (s : Stmt A) : Prop := forall e now seq d,
  drawn seq (fst (fst (s_run s e now seq d))).

Lemma drawn_refl seq : drawn seq seq.
Proof. split; lia. Qed.

Lemma guarded_draws {A} texts (f : Env -> Time -> Z -> DB -> Z * (DB -> DB) * res A) :
  (forall e now seq d, drawn seq (fst (fst (f e now seq d)))) -> draws (guarded texts f).
Proof.
  intros Hf e now seq d. unfold guarded, refuse; simpl.
  destruct (forallb pg_text texts); [|apply drawn_refl].
  destruct (setting_bound e); [apply Hf|apply drawn_refl].
Qed.

Lemma run_draws {A} O e (p : prog A) :
  prog_all (@draws) p -> forall w w' r, run O e p w = (w', r) -> drawn (w_seq w) (w_seq w').
Proof.
  induction 1 as [x|B s k Hs Hk IH]; intros w w' r; cbn [run].
  - unfold of_res. intros [= <- <-]. apply drawn_refl.
  - unfold run_stmt. destruct (o_fault O (w_tick w)); [by intros H%IH|].
    specialize (Hs e (o_now O (w_tick w)) (w_seq w) (w_db w)).
    destruct (s_run s e _ _ _) as [[seq wr] x]. intros H%IH. unfold drawn in *. simpl in *. lia.
Qed.

Lemma run_tx_draws {A} O dp t (body : prog A) w w' r :
  prog_all (@draws) body -> run_tx O dp t body w = (w', r) -> drawn (w_seq w) (w_seq w').
Proof.
  intros Hb. unfold run_tx. destruct (o_fault O (w_tick w)); [intros [= <- _]; apply drawn_refl|].
  destruct (o_fault O (w_tick (tick w))); [intros [= <- _]; apply drawn_refl|].
  destruct (run O _ body _) as [w2 [b|y]] eqn:Hr; apply (run_draws O _ _ Hb) in Hr; simpl in Hr.
  - destruct (o_fault O (w_tick w2)); [|by intros [= <- _]].
    destruct (o_lost O (w_tick w2)); by intros [= <- _].
  - by intros [= <- _].
Qed.

(** ** The table invariant *)

Definition version_key (r : Event) : string * string * Z :=
  (ev_tenant_id r, ev_stream_id r, ev_version r).
Definition event_key (r : Event) : string * Z := (ev_tenant_id r, ev_event_id r).
Definition outbox_key (o : Outbox) : string * Z := (ob_tenant_id o, ob_global_position o).

(** The event an outbox row points to. *)
Definition points_to (o : Outbox) (r : Event) : Prop :=
  ev_tenant_id r = ob_tenant_id o /\ ev_global_position r = ob_global_position o /\
  ev_event_id r = ob_event_id o.

(** Positions grow with insertion and were drawn from the sequence. *)
Record db_wf (d : DB) (seq : Z) : Prop := mk_db_wf {
  wf_sorted : StronglySorted (fun a b => ev_global_position a < ev_global_position b) (events d);
  wf_drawn : Forall (fun r => 1 <= ev_global_position r <= seq) (events d);
  wf_seq : 0 <= seq <= max_i64;
  wf_version : NoDup (version_key <$> events d);
  wf_event : NoDup (event_key <$> events d);
  wf_outbox_key : NoDup (outbox_key <$> outbox d);
  wf_outbox : Forall (fun o => exists r, r ∈ events d /\ points_to o r) (outbox d)
}.

Lemma pg_empty_db_wf : db_wf empty_db 0.
Proof. split; simpl; try constructor; unfold max_i64; lia. Qed.

Lemma db_wf_draws d seq seq' : db_wf d seq -> seq <= seq' <= max_i64 -> db_wf d seq'.
Proof.
  intros [] Hs. split; try done; [|lia]. eapply Forall_impl; [done|]. simpl. intros; lia.
Qed.

Lemma event_conflict_keys a r :
  Q.event_conflict a r = false <-> version_key r <> version_key a /\ event_key r <> event_key a.
Proof.
  unfold Q.event_conflict, Q.in_stream, Q.is_event, version_key, event_key.
  rewrite orb_false_iff, !andb_false_iff, !bool_decide_eq_false, !Z.eqb_neq.
  split.
  - intros [H1 H2]. split; [intros [= E1 E2 E3]; tauto|intros [= E1 E2]; tauto].
  - intros [H1 H2]. split.
    + destruct (decide (ev_tenant_id r = ev_tenant_id a)) as [E1|]; [|tauto].
      destruct (decide (ev_stream_id r = ev_stream_id a)) as [E2|]; [|tauto].
      right. intros E3. apply H1. congruence.
    + destruct (decide (ev_tenant_id r = ev_tenant_id a)) as [E1|]; [|tauto].
      right. intros E3. apply H2. congruence.
Qed.

Lemma event_free a rows :
  existsb (Q.event_conflict a) rows = false <->
  version_key a ∉ (version_key <$> rows) /\ event_key a ∉ (event_key <$> rows).
Proof.
  rewrite existsb_false_iff. split.
  - intros H. split; intros (r & E & Hr)%list_elem_of_fmap;
      specialize (H r Hr); apply event_conflict_keys in H as [? ?]; congruence.
  - intros [H1 H2] r Hr. apply event_conflict_keys. split; intros E.
    + apply H1. rewrite <- E. by apply list_elem_of_fmap_2.
    + apply H2. rewrite <- E. by apply list_elem_of_fmap_2.
Qed.

Lemma outbox_free t gp rows :
  existsb (Q.same_outbox t gp) rows = false <-> (t, gp) ∉ (outbox_key <$> rows).
Proof.
  apply (existsb_key_false _ outbox_key). intros r. unfold Q.same_outbox, outbox_key.
  rewrite andb_true_iff, bool_decide_eq_true, Z.eqb_eq. split; [intros [-> ->]; done|].
  intros [= -> ->]. done.
Qed.

(** ** What Append did *)
Section AppendSpec.
Context {CP : ChainPrims} {PP : PgPrims} (O : Oracle) (dp : Deployment) (a : Postgres.Adapter).
Import Postgres.

Lemma InsertEvent_Ok e arg w w' gp rec :
  run_stmt O e (Q.InsertEvent arg) w = (w', Ok (gp, rec)) ->
  exists actor pj kr, pg_jsonb (Q.ie_Actor arg) = Ok actor /\
    Q.opt_jsonb (Q.ie_PayloadJson arg) = Ok pj /\ Q.opt_jsonb (Q.ie_EncryptionKeyRefs arg) = Ok kr /\
    let row := Q.event_row arg gp (o_now O (w_tick w)) actor pj kr in
    gp = w_seq w + 1 /\ w_seq w' = gp /\ w_seq w < max_i64 /\ rec = ev_recorded_at row /\
    version_key row ∉ (version_key <$> events (w_db w)) /\
    event_key row ∉ (event_key <$> events (w_db w)) /\ w_db w' = push Events row (w_db w).
Proof.
  intros (wr & H%guarded_Ok & Hdb)%run_stmt_Ok.
  destruct (pg_jsonb (Q.ie_Actor arg)) as [actor|]; [|discriminate H].
  destruct (Q.opt_jsonb (Q.ie_PayloadJson arg)) as [pj|]; [|discriminate H].
  destruct (Q.opt_jsonb (Q.ie_EncryptionKeyRefs arg)) as [kr|]; [|discriminate H].
  exists actor, pj, kr. do 3 (split; [done|]). unfold Q.insert_event, refuse in H.
  destruct (Z.leb_spec max_i64 (w_seq w)); [discriminate H|].
  destruct (admits Events e _); [|discriminate H]. cbn [negb] in H.
  destruct (existsb _ (events (w_db w))) eqn:Hex; [discriminate H|].
  apply event_free in Hex as [Hv He].
  assert (E1 : w_seq w' = w_seq w + 1) by (by injection H).
  assert (E2 : gp = w_seq w + 1) by (by injection H).
  assert (E3 : push Events (Q.event_row arg gp (o_now O (w_tick w)) actor pj kr) = wr).
  { injection H as _ E _ _. by rewrite E2. }
  assert (E4 : rec = pg_time (o_now O (w_tick w))) by (by injection H).
  subst wr gp. cbn zeta. split_and!; try done.
Qed.

Lemma insert_row_Ok {R} (T : Table R) texts p row e w w' :
  run_stmt O e (insert_row T texts p row) w = (w', Ok tt) ->
  existsb p (tb_rows T (w_db w)) = false /\ w_seq w' = w_seq w /\
  w_db w' = push T (row (o_now O (w_tick w))) (w_db w).
Proof.
  intros (wr & H%guarded_Ok & Hdb)%run_stmt_Ok. cbn zeta in H. unfold refuse in H.
  destruct (admits T e _); [|discriminate H]. cbn [negb] in H.
  destruct (existsb p _) eqn:Hex; [discriminate H|].
  assert (E1 : w_seq w' = w_seq w) by (by injection H).
  assert (E3 : push T (row (o_now O (w_tick w))) = wr) by (by injection H).
  by subst wr.
Qed.

(** The pair of inserts Append makes for one event keeps the invariant. *)
Lemma pg_insert_pair_wf d seq row now :
  db_wf d seq -> seq < max_i64 -> ev_global_position row = seq + 1 ->
  version_key row ∉ (version_key <$> events d) -> event_key row ∉ (event_key <$> events d) ->
  db_wf (push OutboxT (mkOutbox (ev_tenant_id row) (seq + 1) (ev_event_id row) now None 0 None None)
           (push Events row d)) (seq + 1).
Proof.
  intros [Hs Hd Hq Hv He Hk Ho] Hm Hgp Hnv Hne.
  assert (Hsnoc : forall (A B : Type) (f : A -> B) (l : list A) x,
    NoDup (f <$> l) -> f x ∉ (f <$> l) -> NoDup (f <$> l ++ [x])).
  { intros A B f l x Hnd Hx. rewrite fmap_app. apply NoDup_app. split; [done|]. csimpl. split.
    - intros y Hy ->%list_elem_of_singleton. done.
    - apply NoDup_singleton. }
  split; simpl.
  - apply StronglySorted_app_2; [|done|by repeat constructor].
    intros x y Hx ->%list_elem_of_singleton. rewrite Forall_forall in Hd.
    specialize (Hd x Hx). simpl in Hd. lia.
  - apply Forall_app. split; [eapply Forall_impl; [done|]; simpl; intros; lia|].
    constructor; [lia|constructor].
  - lia.
  - by apply Hsnoc.
  - by apply Hsnoc.
  - apply Hsnoc; [done|]. unfold outbox_key at 1; simpl. intros (o & E & Hin)%list_elem_of_fmap.
    rewrite Forall_forall in Ho. destruct (Ho o Hin) as (r & Hr & _ & Hpos & _).
    rewrite Forall_forall in Hd. specialize (Hd r Hr). simpl in Hd.
    unfold outbox_key in E. injection E as _ E. lia.
  - apply Forall_app. split.
    + eapply Forall_impl; [exact Ho|]. intros o (r & Hr & Hp). exists r.
      split; [|done]. apply elem_of_app. by left.
    + constructor; [|constructor]. exists row. split; [apply elem_of_app; right; by left|].
      split_and!; done.
Qed.

(** [row] is the events row for [ev] at index [i], position [gp], recorded at
    [rec], chained from [prev] with hash [h]. *)
Definition row_for (sid : StreamID.t) (expected i : Z) (prev : bytes) (gp : Z)
    (ev : EventToAppend) (h : bytes) (row : Event) : Prop :=
  exists actor json pj kr now,
    encodeActor (ea_Actor ev) = Ok actor /\ pg_jsonb actor = Ok json /\
    Q.opt_jsonb (nullable (ea_PayloadJSON ev)) = Ok pj /\
    Q.opt_jsonb (nullable (ea_KeyRefs ev)) = Ok kr /\
    Chain.ComputeChainHash prev (Some (chainEnv sid (event_version expected i) ev)) = Ok h /\
    row = Q.event_row (insertParams sid (event_version expected i) actor h prev ev) gp now json pj kr.

Fixpoint appended (sid : StreamID.t) (expected i : Z) (prev : bytes) (seq : Z)
    (evs : list EventToAppend) (rows : list Event) : Prop :=
  match evs, rows with
  | [], [] => True
  | ev :: evs', row :: rows' =>
      exists h, row_for sid expected i prev (seq + 1) ev h row /\
        appended sid expected (i + 1) h (seq + 1) evs' rows'
  | _, _ => False
  end.

Definition outbox_for (row : Event) (o : Outbox) : Prop :=
  points_to o row /\ ob_published_at o = None /\ ob_attempts o = 0 /\
  ob_last_error o = None /\ ob_next_attempt_at o = None.

(** The tables Append does not touch. *)
Definition same_rest (d d' : DB) : Prop :=
  subject_keys d' = subject_keys d /\ projection_checkpoint d' = projection_checkpoint d /\
  projection_dlq d' = projection_dlq d /\ processed_events d' = processed_events d /\
  state_stream_subscribers d' = state_stream_subscribers d /\ subscriber_dlq d' = subscriber_dlq d.

Lemma pg_appended_length sid ex i prev seq evs rows :
  appended sid ex i prev seq evs rows -> length rows = length evs.
Proof.
  revert i prev seq rows; induction evs as [|ev evs IH]; intros i prev seq [|row rows];
    simpl; try done. intros (h & _ & Ha). f_equal. eauto.
Qed.

Lemma pg_appendEvents_Ok e sid ex evs : forall i prev sp ep rec w w' s f recAt,
  db_wf (w_db w) (w_seq w) ->
  run O e (appendEvents sid ex i prev sp ep rec evs) w = (w', Ok (s, f, recAt)) ->
  db_wf (w_db w') (w_seq w') /\ exists rows orows,
    appended sid ex i prev (w_seq w) evs rows /\
    events (w_db w') = events (w_db w) ++ rows /\
    w_seq w' = w_seq w + Z.of_nat (length evs) /\
    outbox (w_db w') = outbox (w_db w) ++ orows /\ Forall2 outbox_for rows orows /\
    unique_claims (w_db w') = unique_claims (w_db w) /\
    state_cache (w_db w') = state_cache (w_db w) /\ same_rest (w_db w) (w_db w') /\
    recAt = default rec (ev_recorded_at <$> last rows) /\
    (evs = [] -> s = sp /\ f = ep) /\
    (evs <> [] -> f = w_seq w' /\ (i = 0 -> s = w_seq w + 1) /\ (0 < i -> s = sp)).
Proof.
  induction evs as [|ev evs IH]; intros i prev sp ep rec w w' s f recAt Hwf; cbn [appendEvents].
  - intros [= <- <- <- <-]. split; [done|]. exists [], [].
    rewrite !app_nil_r. simpl. rewrite Z.add_0_r. unfold same_rest. split_and!; done.
  - intros (w1 & actor & Hact & H)%run_bind_Ok. apply of_res_Ok in Hact as [-> Hact].
    apply run_bind_Ok in H as (w2 & h & Hh & H). apply of_res_Ok in Hh as [-> Hh].
    assert (Hch : Chain.ComputeChainHash prev
      (Some (chainEnv sid (event_version ex i) ev)) = Ok h).
    { destruct (Chain.ComputeChainHash _ _); [by injection Hh as ->|done]. } clear Hh.
    apply run_bind_Ok in H as (w3 & [gp rc] & Hins%run_pmap_err_Ok & H).
    apply run_bind_Ok in H as (w4 & [] & Hout%run_pmap_err_Ok & Hrec).
    apply InsertEvent_Ok in Hins as (json & pj & kr & Hj & Hpj & Hkr & Hgp & Hs3 & Hm & Hrc & Hv & He & Hd3).
    set (row := Q.event_row _ _ _ _ _ _) in *.
    unfold Q.InsertOutbox in Hout. apply insert_row_Ok in Hout as (_ & Hs4 & Hd4).
    cbn [fst snd] in *. rewrite Hd3 in Hd4.
    assert (Hwf4 : db_wf (w_db w4) (w_seq w4)).
    { rewrite Hd4, Hs4, Hs3, Hgp.
      apply (pg_insert_pair_wf _ _ row); [done..| |done|done]. by rewrite <- Hgp. }
    destruct (IH _ _ _ _ _ _ _ _ _ _ Hwf4 Hrec)
      as (Hwf' & rows & orows & Ha & Hev & Hs & Ho & Hf & Hc & Hsc & Hr & Hrecl & Hnil & Hcons).
    rewrite Hs4, Hs3, Hgp in Ha, Hs, Hcons. rewrite Hd4 in Hev, Ho, Hc, Hsc, Hr. simpl in *.
    split; [done|]. exists (row :: rows), (mkOutbox (StreamID.Tenant sid) gp (ea_EventID ev)
      (pg_time (o_now O (w_tick w3))) None 0 None None :: orows).
    split_and!.
    + simpl. exists h. split; [|done]. rewrite <- Hgp. do 5 eexists. split_and!; done.
    + rewrite Hev, <- app_assoc. done.
    + rewrite Hs. lia.
    + rewrite Ho, <- app_assoc. done.
    + constructor; [|done]. split; [|done]. done.
    + done.
    + done.
    + done.
    + rewrite Hrecl, last_cons, Hrc. by destruct (last rows).
    + done.
    + intros _. destruct evs as [|ev2 evs].
      * destruct (Hnil eq_refl) as [-> ->]. simpl length in Hs. rewrite Hs.
        split_and!; [lia|intros ->; simpl; lia|].
        intros Hi. destruct (Z.eqb_spec i 0); [lia|done].
      * destruct (Hcons ltac:(done)) as (-> & _ & Hi0). split; [done|]. split.
        -- intros ->. rewrite Hi0 by lia. simpl. lia.
        -- intros Hi. rewrite Hi0 by lia. destruct (Z.eqb_spec i 0); [lia|done].
Qed.

Lemma exec_Ok (s : Stmt Z) e w w' :
  run_stmt O e (exec s) w = (w', Ok tt) -> exists n, run_stmt O e s w = (w', Ok n).
Proof.
  unfold run_stmt. destruct (o_fault O (w_tick w)); [done|]. cbn [s_run exec].
  destruct (s_run s e _ _ _) as [[seq wr] [n|x]]; [|done]. intros [= <-]. eauto.
Qed.

Lemma delete_rows_Ok {R} (T : Table R) texts p e w w' n :
  run_stmt O e (delete_rows T texts p) w = (w', Ok n) ->
  w_seq w' = w_seq w /\
  w_db w' = tb_set T (List.filter (fun r => negb (admits T e r && p r)) (tb_rows T (w_db w))) (w_db w).
Proof.
  intros (wr & H%guarded_Ok & Hdb)%run_stmt_Ok. cbn zeta in H.
  assert (E1 : w_seq w' = w_seq w) by (by injection H).
  rewrite Hdb. split; [done|]. injection H as _ <- _. done.
Qed.

Lemma upsert_Ok {R} (T : Table R) texts p merge row e w w' :
  run_stmt O e (upsert T texts p merge row) w = (w', Ok tt) ->
  w_seq w' = w_seq w /\
  w_db w' = upsert_row T p merge (row (o_now O (w_tick w))) (w_db w).
Proof.
  intros (wr & H%guarded_Ok & Hdb)%run_stmt_Ok. cbn zeta in H. unfold refuse in H.
  destruct (admits T e _); [|discriminate H]. cbn [negb] in H.
  assert (E1 : w_seq w' = w_seq w) by (by injection H).
  rewrite Hdb. split; [done|]. by injection H as _ <-.
Qed.

(** Rows of the bound tenant are visible. *)
Lemma admits_own {R} (T : Table R) t r : tb_tenant T r = t -> admits T (tenant_env dp t) r = true.
Proof.
  intros <-. unfold admits. cbn [env_tenant tenant_env].
  rewrite (bool_decide_eq_true_2 (Some _ = Some _)) by done. by rewrite orb_true_r.
Qed.

Lemma in_stream_own t s r : Q.in_stream t s r = true -> admits Events (tenant_env dp t) r = true.
Proof. unfold Q.in_stream. intros H. bool_to_prop. by apply admits_own. Qed.

Lemma stream_rows_own t s d :
  Q.stream_rows t s (restrict (tenant_env dp t) d) = Q.stream_rows t s d.
Proof.
  unfold Q.stream_rows. f_equal. apply filter_filter_impl. apply in_stream_own.
Qed.

(** *** Constraints *)

Notation claim := (string * string * string * string)%type.

Definition claim_of (c : UniqueClaim) : claim :=
  (uc_tenant_id c, uc_scope c, uc_value c, uc_stream_id c).

(** Who holds which claim. *)
Definition holders (d : DB) : list claim := claim_of <$> unique_claims d.

Definition claims (tenant scope value : string) (c : claim) : bool :=
  bool_decide (fst c = (tenant, scope, value)).

Definition run_constraint (tenant stream : string) (op : ConstraintOp) (m : list claim)
    : option (list claim) :=
  let k := claims tenant (co_Scope op) (co_Value op) in
  if co_Op op =? ClaimConstraint then
    if existsb k m then None else Some (m ++ [(tenant, co_Scope op, co_Value op, stream)])
  else if co_Op op =? ReleaseConstraint then Some (List.filter (fun c => negb (k c)) m)
  else None.

Fixpoint run_constraints (tenant stream : string) (ops : list ConstraintOp) (m : list claim)
    : option (list claim) :=
  match ops with
  | [] => Some m
  | op :: ops' => run_constraint tenant stream op m ≫= run_constraints tenant stream ops'
  end.

(** Only the claims changed. *)
Definition same_but_claims (d d' : DB) : Prop :=
  events d' = events d /\ outbox d' = outbox d /\ state_cache d' = state_cache d /\ same_rest d d'.

Lemma pg_same_but_claims_trans d1 d2 d3 :
  same_but_claims d1 d2 -> same_but_claims d2 d3 -> same_but_claims d1 d3.
Proof.
  unfold same_but_claims, same_rest. intros (-> & -> & -> & -> & -> & -> & -> & -> & ->) H. done.
Qed.

Lemma db_wf_rows d d' seq :
  events d' = events d -> outbox d' = outbox d -> db_wf d seq -> db_wf d' seq.
Proof. intros He Ho []. split; rewrite ?He, ?Ho; done. Qed.

Lemma same_claim_of t s v c : Q.same_claim t s v c = claims t s v (claim_of c).
Proof.
  unfold Q.same_claim, claims, claim_of; simpl. apply eq_bool_prop_intro.
  rewrite !andb_True, !bool_decide_spec. naive_solver.
Qed.

Lemma existsb_holders t s v d :
  existsb (claims t s v) (holders d) = existsb (Q.same_claim t s v) (unique_claims d).
Proof.
  unfold holders. induction (unique_claims d) as [|c l IH]; csimpl; [done|].
  by rewrite same_claim_of, IH.
Qed.

Lemma filter_holders t s v l :
  claim_of <$> List.filter (fun c => negb (Q.same_claim t s v c)) l =
  List.filter (fun c => negb (claims t s v c)) (claim_of <$> l).
Proof.
  induction l as [|c l IH]; csimpl; [done|]. rewrite same_claim_of.
  destruct (claims t s v (claim_of c)); csimpl; by rewrite IH.
Qed.

Lemma pg_applyConstraint_Ok t c op w w' :
  run O (tenant_env dp t) (applyConstraint t c op) w = (w', Ok tt) ->
  run_constraint t c op (holders (w_db w)) = Some (holders (w_db w')) /\
  w_seq w' = w_seq w /\ same_but_claims (w_db w) (w_db w').
Proof.
  unfold applyConstraint, run_constraint. destruct (co_Op op =? ClaimConstraint).
  - intros (Hex & Hs & Hd)%run_pmap_err_Ok%insert_row_Ok. rewrite existsb_holders.
    cbn [tb_rows UniqueClaims] in Hex. rewrite Hex, Hd. split; [|done].
    unfold holders; simpl. by rewrite fmap_app.
  - destruct (co_Op op =? ReleaseConstraint); [|done].
    intros [n [Hs Hd]%delete_rows_Ok]%run_pmap_err_Ok%exec_Ok. rewrite Hd.
    split; [|done]. unfold holders. cbn [tb_rows tb_set UniqueClaims unique_claims].
    rewrite <- filter_holders. do 2 f_equal. apply List.filter_ext. intros x.
    destruct (Q.same_claim t _ _ x) eqn:Hx; [|by rewrite andb_false_r].
    rewrite admits_own; [done|]. unfold Q.same_claim in Hx. by bool_to_prop.
Qed.

Lemma pg_applyConstraints_Ok t c ops : forall w w',
  run O (tenant_env dp t) (pforM ops (applyConstraint t c)) w = (w', Ok tt) ->
  run_constraints t c ops (holders (w_db w)) = Some (holders (w_db w')) /\
  w_seq w' = w_seq w /\ same_but_claims (w_db w) (w_db w').
Proof.
  induction ops as [|op ops IH]; intros w w'; cbn [pforM run_constraints].
  - intros [= <-]. done.
  - intros (w1 & [] & (Hr & Hs & Hc)%pg_applyConstraint_Ok & (Hr' & Hs' & Hc')%IH)%run_bind_Ok.
    rewrite Hr. split; [done|]. split; [by rewrite Hs'|]. eauto using pg_same_but_claims_trans.
Qed.

(** *** The chain head *)

Definition chain_head (rows : list Event) : bytes :=
  match last rows with
  | Some r => match ev_hash r with Some ((_ :: _) as h) => h | _ => Chain.ZeroHash end
  | None => Chain.ZeroHash
  end.

Lemma pg_readPrevHash_Ok t c w w' h :
  run O (tenant_env dp t) (readPrevHash t c) w = (w', Ok h) ->
  w_db w' = w_db w /\ w_seq w' = w_seq w /\ h = chain_head (Q.stream_rows t c (w_db w)).
Proof.
  unfold readPrevHash. intros (w1 & r & H & Hk)%run_bind_Ok. rewrite run_ptry in H.
  destruct (run_stmt O _ _ w) as [w2 x] eqn:Hs. injection H as <- <-.
  pose proof Hs as Hs'. apply select_inv in Hs as (Hd & Hq & Hr).
  assert (Hw : w2 = w').
  { unfold mret, prog_ret in Hk.
    destruct x as [[[|b l]|]|x]; cbn [run] in Hk; [by apply of_res_Ok in Hk as [-> _]..|].
    destruct (errors_Is x ErrNoRows); cbn [run] in Hk; by apply of_res_Ok in Hk as [-> _]. }
  subst w2.
  split; [done|]. split; [done|]. unfold chain_head.
  destruct x as [o|e].
  - specialize (Hr o eq_refl). rewrite stream_rows_own, <- head_reverse in *.
    destruct (reverse (Q.stream_rows t c (w_db w))) as [|row rows]; [done|].
    csimpl in Hr. injection Hr as <-. simpl. destruct (ev_hash row) as [[|b l]|]; by injection Hk.
  - destruct (errors_Is e ErrNoRows) eqn:He; [|done].
    unfold run_stmt in Hs'. destruct (o_fault O (w_tick w)) as [msg|]; [by injection Hs' as _ <-|].
    unfold Q.LastStreamHash, select_one, select, guarded, refuse in Hs'; cbn [s_run] in Hs'.
    destruct (forallb pg_text _); cbn [negb] in Hs'; [|by injection Hs' as _ <-].
    destruct (setting_bound _); cbn [negb] in Hs'; [|by injection Hs' as _ <-].
    injection Hs' as _ Hs'. rewrite stream_rows_own in Hs'. rewrite <- head_reverse.
    destruct (reverse (Q.stream_rows t c (w_db w))) as [|row rows]; [by injection Hk|done].
Qed.

(** *** The state cache *)

Definition find_state (t s : string) (d : DB) : option StateCache :=
  head (List.filter (Q.same_state t s) (state_cache d)).

Definition cache_row (p : AppendParams) (js : string) (now : Time) : StateCache :=
  mkStateCache (StreamID.Tenant (ap_StreamID p)) (StreamID.Canonical (ap_StreamID p))
    (ap_StateTypeURL p) js
    (i64 (i64 (ap_ExpectedVersion p) + Z.of_nat (length (ap_Events p)))) (ap_Terminal p)
    (pg_time now) (i32 (if ap_StateSchemaVersion p =? 0 then 1 else ap_StateSchemaVersion p)).

(** The state_cache table after Append. *)
Definition cache_after (p : AppendParams) (d d' : DB) : Prop :=
  match ap_NewStateBytes p with
  | None => state_cache d' = state_cache d
  | Some b => exists js now, pg_jsonb (str_of_bytes b) = Ok js /\
      state_cache d' =
        state_cache (upsert_row StateCacheT
          (Q.same_state (StreamID.Tenant (ap_StreamID p)) (StreamID.Canonical (ap_StreamID p)))
          (fun new _ => new) (cache_row p js now) d)
  end.

Lemma pg_writeStateCache_Ok p e w w' :
  run O e (writeStateCache p) w = (w', Ok tt) ->
  cache_after p (w_db w) (w_db w') /\ w_seq w' = w_seq w /\
  events (w_db w') = events (w_db w) /\ outbox (w_db w') = outbox (w_db w) /\
  unique_claims (w_db w') = unique_claims (w_db w) /\ same_rest (w_db w) (w_db w').
Proof.
  unfold writeStateCache, cache_after. destruct (ap_NewStateBytes p) as [b|].
  - intros (wr & H%guarded_Ok & Hd)%run_pmap_err_Ok%run_stmt_Ok.
    destruct (pg_jsonb (str_of_bytes b)) as [js|]; [|discriminate H].
    apply guarded_Ok in H. cbn zeta in H. unfold refuse in H.
    destruct (admits StateCacheT e _); [|discriminate H]. cbn [negb] in H.
    assert (E1 : w_seq w' = w_seq w) by (by injection H).
    assert (E2 : w_db w' = upsert_row StateCacheT
      (Q.same_state (StreamID.Tenant (ap_StreamID p)) (StreamID.Canonical (ap_StreamID p)))
      (fun new _ => new) (cache_row p js (o_now O (w_tick w))) (w_db w)).
    { rewrite Hd. by injection H as _ <-. }
    rewrite E2. split; [eauto|]. split; [done|].
    unfold upsert_row. by destruct (existsb _ _).
  - intros [= <-]. done.
Qed.

(** *** Append *)

(** Everything a successful Append does to the database. *)
Definition append_effect (p : AppendParams) (w w' : World) (res : AppendResult) : Prop :=
  let sid := ap_StreamID p in
  let n := Z.of_nat (length (ap_Events p)) in
  exists prev rows orows,
    appended sid (ap_ExpectedVersion p) 0 prev (w_seq w) (ap_Events p) rows /\
    events (w_db w') = events (w_db w) ++ rows /\ w_seq w' = w_seq w + n /\
    outbox (w_db w') = outbox (w_db w) ++ orows /\ Forall2 outbox_for rows orows /\
    run_constraints (StreamID.Tenant sid) (StreamID.Canonical sid) (ap_Constraints p)
      (holders (w_db w)) = Some (holders (w_db w')) /\
    cache_after p (w_db w) (w_db w') /\ same_rest (w_db w) (w_db w') /\
    ar_StartVersion res = u64 (ap_ExpectedVersion p + 1) /\
    ar_EndVersion res = u64 (ap_ExpectedVersion p + n) /\
    ar_StartGlobalPosition res = u64 (w_seq w + 1) /\
    ar_EndGlobalPosition res = u64 (w_seq w + n) /\
    prev = chain_head (Q.stream_rows (StreamID.Tenant sid) (StreamID.Canonical sid) (w_db w)).

Lemma appendTx_Ok p w w' res :
  ap_Events p <> [] -> db_wf (w_db w) (w_seq w) ->
  run O (tenant_env dp (StreamID.Tenant (ap_StreamID p))) (appendTx a p) w = (w', Ok res) ->
  db_wf (w_db w') (w_seq w') /\ append_effect p w w' res.
Proof.
  intros Hne Hwf. unfold appendTx.
  intros (w1 & [] & (wr & Hl & Hd1)%run_pmap_err_Ok%run_stmt_Ok & H)%run_bind_Ok.
  assert (Hq1 : w_seq w1 = w_seq w) by (by injection Hl).
  assert (Hd1' : w_db w1 = w_db w) by (rewrite Hd1; by injection Hl as _ <-). clear Hl Hd1.
  apply run_bind_Ok in H as (w2 & [] & (Hcl & Hq2 & He2 & Ho2 & Hsc2 & Hr2)%pg_applyConstraints_Ok & H).
  apply run_bind_Ok in H as (w3 & prev & (Hd3 & Hq3 & Hprev)%pg_readPrevHash_Ok & H).
  apply run_bind_Ok in H as (w4 & [[s f] rec] & Hloop & H).
  apply run_bind_Ok in H as (w5 & [] & (Hca & Hq5 & He5 & Ho5 & Hu5 & Hr5)%pg_writeStateCache_Ok & H).
  injection H as <- <-. rewrite Hd1', Hq1 in *.
  assert (Hwf3 : db_wf (w_db w3) (w_seq w3)).
  { rewrite Hq3, Hq2, Hd3. by eapply db_wf_rows. }
  destruct (pg_appendEvents_Ok _ _ _ _ _ _ _ _ _ _ _ _ _ _ Hwf3 Hloop)
    as (Hwf4 & rows & orows & Ha & He4 & Hq4 & Ho4 & Hf4 & Hu4 & Hsc4 & Hr4 & _ & _ & Hpos).
  destruct (Hpos Hne) as (-> & Hs0 & _). specialize (Hs0 eq_refl). subst s.
  rewrite Hd3, Hq3, Hq2 in *. split; [rewrite Hq5; by eapply db_wf_rows|].
  exists prev, rows, orows. cbn zeta. cbn [ar_StartVersion ar_EndVersion ar_StartGlobalPosition
    ar_EndGlobalPosition fst snd].
  rewrite He5, He4, Ho5, Ho4, Hq5, Hq4, He2, Ho2. split_and!; try done.
  - rewrite Hcl. f_equal. unfold holders. by rewrite Hu5, Hu4.
  - unfold cache_after in *. destruct (ap_NewStateBytes p) as [b|]; [|congruence].
    destruct Hca as (js & now & Hjs & Hca). exists js, now. split; [done|]. rewrite Hca.
    unfold upsert_row, push. cbn [tb_rows StateCacheT]. rewrite Hsc4, Hsc2.
    by destruct (existsb _ _).
  - unfold same_rest in *. destruct_ex. split_and!; congruence.
  - rewrite Hprev. unfold Q.stream_rows. by rewrite He2.
Qed.

Lemma PgAppend_Ok p w w' res :
  db_wf (w_db w) (w_seq w) -> call O dp (Append a p) w = (w', Ok res) ->
  StreamID.Validate (ap_StreamID p) = None /\ ap_Events p <> [] /\
  db_wf (w_db w') (w_seq w') /\ append_effect p w w' res.
Proof.
  intros Hwf. unfold Append. destruct (StreamID.Validate (ap_StreamID p)) eqn:Hv; [done|].
  destruct (ap_Events p) as [|ev evs] eqn:Hev; [done|]. cbn [call].
  destruct (run_tx O dp _ (appendTx a p) w) as [w2 r] eqn:Hr. intros [= <- Hid]. unfold id in Hid. subst r.
  apply run_tx_Ok in Hr as (w0 & w3 & Hd0 & Hq0 & Hr & Hd & Hq).
  apply appendTx_Ok in Hr as [Hwf' He]; [|by rewrite Hev|by rewrite Hd0, Hq0].
  split; [done|]. split; [done|]. rewrite Hd, Hq. split; [done|].
  unfold append_effect in *. rewrite Hd0, Hq0, Hev in He. by rewrite Hd, Hq, Hev.
Qed.

(** An error leaves the rows as they were, or reports a commit that took
    effect. *)
Lemma PgAppend_Err p w w' x :
  db_wf (w_db w) (w_seq w) -> call O dp (Append a p) w = (w', Err x) ->
  w_db w' = w_db w \/
  exists res t msg, o_fault O t = Some msg /\ o_lost O t = true /\ x = ENew msg /\
    db_wf (w_db w') (w_seq w') /\ append_effect p w w' res.
Proof.
  intros Hwf. unfold Append. destruct (StreamID.Validate (ap_StreamID p)) eqn:Hv.
  { intros [= <- _]. by left. }
  destruct (ap_Events p) as [|ev evs] eqn:Hev; [intros [= <- _]; by left|]. cbn [call].
  destruct (run_tx O dp _ (appendTx a p) w) as [w2 r] eqn:Hr. intros [= <- Hid]. unfold id in Hid. subst r.
  apply run_tx_Err in Hr as [Hr|(w0 & w3 & res & msg & Hd0 & Hq0 & Hr & Hd & Hq & Hf & Hl & ->)]; [by left|].
  right. exists res, (w_tick w3), msg. do 3 (split; [done|]).
  apply appendTx_Ok in Hr as [Hwf' He]; [|by rewrite Hev|by rewrite Hd0, Hq0].
  rewrite Hd, Hq. split; [done|]. unfold append_effect in *. rewrite Hd0, Hq0 in He. by rewrite Hd, Hq.
Qed.
End AppendSpec.
