(* ===== verification/PgStream.v ===== *)
(** * Streams in the Postgres store

    The rows of a stream in version order and the envelopes they decode to.
    Append on a gap-free stream extends it at the end and keeps it gap free;
    events whose columns survive the server's types (microseconds, JSONB) are
    read back as they were appended and continue the hash chain. *)
From S2P Require Import Prelude Errors Streams Sharding Events Chain Store Sql PgDB PgQueries PgStore PgIsolation PgFacts.
Import Pg Postgres.

(** encoding/json gives back a struct of valid UTF-8 strings through JSONB. *)
Definition actor_utf8 (a : actorJSON) : Prop :=
  utf8_valid (aj_Principal a) = true /\ utf8_valid (aj_OnBehalfOf a) = true /\
  utf8_valid (aj_APIKeyID a) = true /\
  map_Forall (fun k v => utf8_valid k = true /\ utf8_valid v = true) (aj_Attributes a).

Class PgLaws (PP : PgPrims) := {
  pg_actor_roundtrip : forall x s j, actor_utf8 x -> pg_marshal_actor x = Ok s ->
    pg_jsonb s = Ok j -> j <> "" /\ pg_unmarshal_actor j = Ok x
}.

Definition actor_json (x : Actor.t) : actorJSON :=
  mkActorJSON (Actor.Kind x) (Actor.Principal x) (Actor.OnBehalfOf x) (Actor.APIKeyID x)
    (Actor.Attributes x).

(** JSON text that the JSONB column gives back as it is. *)
Definition json_normal {PP : PgPrims} (b : bytes) : Prop :=
  Q.opt_jsonb (nullable b) = Ok (nullable b).

(** An event whose columns can be read back: a UTF-8 actor, a time in whole
    microseconds, a uint32 schema version, JSON in the server's form. *)
Definition event_ok {PP : PgPrims} (ev : EventToAppend) : Prop :=
  actor_utf8 (actor_json (ea_Actor ev)) /\ pg_time (ea_OccurredAt ev) = ea_OccurredAt ev /\
  0 <= ea_SchemaVersion ev < 2 ^ 32 /\ json_normal (ea_PayloadJSON ev) /\ json_normal (ea_KeyRefs ev).

Lemma u32_i32 z : 0 <= z < 2 ^ 32 -> u32 (i32 z) = z.
Proof.
  intros Hz. unfold wrap_u, wrap_s. change (32 - 1) with 31.
  destruct (decide (z < 2 ^ 31)) as [H|H].
  - rewrite (Z.mod_small (z + _)) by lia. rewrite Z.mod_small; lia.
  - assert ((z + 2 ^ 31) mod 2 ^ 32 = z - 2 ^ 31) as ->.
    { symmetry. apply (Z.mod_unique _ _ 1); lia. }
    symmetry. apply (Z.mod_unique _ _ (-1)); lia.
Qed.

Section Stream.
Context {CP : ChainPrims} {CL : ChainLaws CP} {PP : PgPrims} {PL : PgLaws PP}.

Definition stream_of (d : DB) (sid : StreamID.t) : list Event :=
  Q.stream_rows (StreamID.Tenant sid) (StreamID.Canonical sid) d.

(** Versions 1 .. n without gaps. *)
Definition dense (d : DB) (sid : StreamID.t) : Prop :=
  ev_version <$> stream_of d sid = seqZ 1 (Z.of_nat (length (stream_of d sid))).

Lemma pg_event_version_small ex i :
  0 <= ex -> 0 <= i -> ex + i + 1 < 2 ^ 63 -> event_version ex i = ex + i + 1.
Proof.
  intros. unfold event_version.
  rewrite (i64_small ex), (i64_small (ex + i)), i64_small, u64_small by lia. done.
Qed.

Lemma row_for_columns sid ex i prev gp ev h row :
  row_for sid ex i prev gp ev h row ->
  0 <= ex -> 0 <= i -> ex + i + 1 < 2 ^ 63 ->
  Q.in_stream (StreamID.Tenant sid) (StreamID.Canonical sid) row = true /\
  ev_version row = ex + i + 1 /\ ev_global_position row = gp /\ ev_event_id row = ea_EventID ev.
Proof.
  intros (actor & json & pj & kr & now & _ & _ & _ & _ & _ & ->) Hex Hi Hb. simpl.
  rewrite pg_event_version_small, i64_small by lia. split_and!; try done.
  unfold Q.in_stream; simpl. rewrite !bool_decide_eq_true_2 by done. done.
Qed.

(** The columns of the new rows. *)
Lemma pg_appended_columns sid ex evs : forall i prev seq rows,
  0 <= ex -> 0 <= i -> ex + i + Z.of_nat (length evs) < 2 ^ 63 ->
  appended sid ex i prev seq evs rows ->
  Forall (fun r => Q.in_stream (StreamID.Tenant sid) (StreamID.Canonical sid) r = true) rows /\
  ev_version <$> rows = seqZ (ex + i + 1) (Z.of_nat (length evs)) /\
  ev_global_position <$> rows = seqZ (seq + 1) (Z.of_nat (length evs)) /\
  ev_event_id <$> rows = ea_EventID <$> evs.
Proof.
  induction evs as [|ev evs IH]; intros i prev seq [|row rows] Hex Hi Hb; cbn [appended]; try done.
  intros (h & Hr & Ha). simpl length in Hb.
  apply row_for_columns in Hr as (Hin & Hv1 & Hg1 & Hid1); [|lia..].
  destruct (IH (i + 1) h (seq + 1) rows) as (HF & Hv & Hg & Hid); [lia|lia|lia|done|].
  csimpl. rewrite Hv, Hg, Hid, Hv1, Hg1, Hid1.
  rewrite (seqZ_cons (ex + i + 1)), (seqZ_cons (seq + 1)) by lia.
  replace (Z.pred (Z.of_nat (S (length evs)))) with (Z.of_nat (length evs)) by lia.
  replace (ex + (i + 1) + 1) with (Z.succ (ex + i + 1)) by lia.
  replace (seq + 1 + 1) with (Z.succ (seq + 1)) by lia.
  split; [by constructor|done].
Qed.

Lemma pg_opt_bytes_nullable b : opt_bytes (nullable b) = b.
Proof. destruct b; [done|]. apply bytes_of_str_of_bytes. Qed.

Lemma pg_decode_encode_actor x s j :
  actor_utf8 (actor_json x) -> encodeActor x = Ok s -> pg_jsonb s = Ok j -> decodeActor j = Ok x.
Proof.
  intros Hu. unfold encodeActor. fold (actor_json x).
  destruct (pg_marshal_actor (actor_json x)) as [out|] eqn:Hm; [|done]. intros [= ->] Hj.
  destruct (pg_actor_roundtrip _ _ _ Hu Hm Hj) as [Hne Hun].
  unfold decodeActor. rewrite bool_decide_eq_false_2 by done. rewrite Hun. by destruct x.
Qed.

(** A new row decodes; with columns that survive, to an envelope that carries
    the event and continues the chain. *)
Lemma row_decodes sid ex i prev gp ev h row :
  row_for sid ex i prev gp ev h row ->
  StreamID.Validate sid = None -> event_ok ev ->
  0 <= ex -> 0 <= i -> ex + i + 1 < 2 ^ 63 -> 0 <= gp <= max_i64 ->
  exists e, rowToEnvelope row = Ok e /\ carries ev e /\ Chain.links prev e /\ Envelope.Hash e = h /\
    Envelope.TenantID e = StreamID.Tenant sid /\ Envelope.StreamID e = sid /\
    Envelope.Version e = ex + i + 1 /\ Envelope.GlobalPosition e = gp.
Proof.
  intros (actor & json & pj & kr & now & Hact & Hj & Hpj & Hkr & Hh & ->) Hv
    (Hu & Hocc & Hsv & Hpn & Hkn) Hex Hi Hb Hgp.
  unfold json_normal in *. rewrite Hpj in Hpn. rewrite Hkr in Hkn. injection Hpn as ->. injection Hkn as ->.
  unfold rowToEnvelope. cbn.
  rewrite (StreamID.Parse_Canonical sid Hv), (pg_decode_encode_actor _ _ _ Hu Hact Hj).
  rewrite pg_event_version_small in Hh |- * by lia. unfold max_i64 in Hgp.
  eexists. split; [reflexivity|]. cbn. rewrite Hocc, u32_i32 by done.
  rewrite i64_small, !u64_small by lia. rewrite !pg_opt_bytes_nullable.
  split_and!; done.
Qed.

Lemma pg_appended_envs sid ex evs : forall i prev seq rows,
  StreamID.Validate sid = None -> Forall event_ok evs ->
  0 <= ex -> 0 <= i -> ex + i + Z.of_nat (length evs) < 2 ^ 63 ->
  0 <= seq -> seq + Z.of_nat (length evs) <= max_i64 ->
  appended sid ex i prev seq evs rows ->
  exists envs, collect rows = Ok envs /\ Forall2 carries evs envs /\ Chain.chain_ok prev envs /\
    Envelope.Version <$> envs = seqZ (ex + i + 1) (Z.of_nat (length evs)) /\
    Envelope.GlobalPosition <$> envs = seqZ (seq + 1) (Z.of_nat (length evs)).
Proof.
  induction evs as [|ev evs IH]; intros i prev seq [|row rows] Hv Hok Hex Hi Hb Hs Hm; cbn [appended]; try done.
  - intros _. exists []. simpl. split_and!; constructor.
  - intros (h & Hr & Ha). apply Forall_cons in Hok as [Hok1 Hok].
    simpl length in Hb, Hm.
    destruct (row_decodes sid ex i prev (seq + 1) ev h row Hr)
      as (e & Hrow & Hc & Hl & Hhash & Ht & Hsid & Hver & Hgp); [try done; lia..|].
    destruct (IH (i + 1) h (seq + 1) rows)
      as (envs & Hcol & HF & Hch & Hvs & Hgs); [try done; lia..|].
    exists (e :: envs). unfold collect in *. cbn [mapR]. rewrite Hrow, Hcol.
    split; [done|]. split; [by constructor|]. split; [simpl; by rewrite Hhash|].
    csimpl. rewrite Hvs, Hgs, Hver, Hgp.
    rewrite (seqZ_cons (ex + i + 1)), (seqZ_cons (seq + 1)) by lia.
    replace (Z.pred (Z.of_nat (S (length evs)))) with (Z.of_nat (length evs)) by lia.
    replace (ex + (i + 1) + 1) with (Z.succ (ex + i + 1)) by lia.
    replace (seq + 1 + 1) with (Z.succ (seq + 1)) by lia.
    split_and!; done.
Qed.

(** ** How the stream evolves *)

Lemma pg_filter_version_nodup d seq t c :
  db_wf d seq -> NoDup (ev_version <$> List.filter (Q.in_stream t c) (events d)).
Proof.
  intros Hwf. pose proof (wf_version _ _ Hwf) as Hnd. revert Hnd. clear Hwf.
  induction (events d) as [|r l IH]; csimpl; [constructor|].
  intros [Hni Hnd]%NoDup_cons. destruct (Q.in_stream t c r) eqn:Hin; [|auto].
  csimpl. apply NoDup_cons. split; [|auto]. intros (r' & Hv & Hr')%list_elem_of_fmap.
  rewrite list_elem_of_In in Hr'. apply filter_In in Hr' as [Hr' Hin'].
  rewrite <- list_elem_of_In in Hr'. apply Hni. apply list_elem_of_fmap. exists r'. split; [|done].
  unfold Q.in_stream in *. bool_to_prop. unfold version_key. congruence.
Qed.

Lemma pg_stream_rows_elem d t c r :
  r ∈ Q.stream_rows t c d <-> r ∈ events d /\ Q.in_stream t c r = true.
Proof.
  unfold Q.stream_rows. rewrite order_by_perm, list_elem_of_In, filter_In, <- list_elem_of_In. done.
Qed.

(** Rows of stream [sid] above all its versions extend it at the end. *)
Lemma pg_stream_of_own d seq d' sid rows :
  db_wf d seq -> events d' = events d ++ rows ->
  Forall (fun r => Q.in_stream (StreamID.Tenant sid) (StreamID.Canonical sid) r = true) rows ->
  dense d sid ->
  ev_version <$> rows = seqZ (Z.of_nat (length (stream_of d sid)) + 1) (Z.of_nat (length rows)) ->
  stream_of d' sid = stream_of d sid ++ rows /\ dense d' sid.
Proof.
  intros Hwf He HF Hd Hv.
  assert (Hs : stream_of d' sid = stream_of d sid ++ rows).
  { unfold stream_of, Q.stream_rows. rewrite He, List.filter_app, (filter_all _ rows) by done.
    apply order_by_app; [by eapply pg_filter_version_nodup|by eapply seqZ_sorted|].
    intros x y Hx Hy.
    assert (Hkx : ev_version x ∈ ev_version <$> stream_of d sid).
    { apply list_elem_of_fmap_2. unfold stream_of, Q.stream_rows. by rewrite order_by_perm. }
    assert (Hky : ev_version y ∈ ev_version <$> rows) by by apply list_elem_of_fmap_2.
    rewrite Hd in Hkx. rewrite Hv in Hky. apply elem_of_seqZ in Hkx, Hky. lia. }
  split; [done|]. unfold dense. rewrite Hs, fmap_app, Hd, Hv, length_app, Nat2Z.inj_add.
  rewrite seqZ_app by lia. do 2 f_equal. lia.
Qed.

(** Streams other than [sid] do not change. *)
Lemma pg_stream_of_other d d' sid sid' rows :
  events d' = events d ++ rows ->
  Forall (fun r => Q.in_stream (StreamID.Tenant sid) (StreamID.Canonical sid) r = true) rows ->
  StreamID.Validate sid = None -> StreamID.Validate sid' = None -> sid' <> sid ->
  List.filter (Q.in_stream (StreamID.Tenant sid') (StreamID.Canonical sid')) rows = [] /\
  stream_of d' sid' = stream_of d sid'.
Proof.
  intros He HF Hv Hv' Hne.
  assert (Hn : List.filter (Q.in_stream (StreamID.Tenant sid') (StreamID.Canonical sid')) rows = []).
  { apply filter_none. eapply Forall_impl; [exact HF|]. intros r Hin. cbv beta in Hin.
    destruct (Q.in_stream (StreamID.Tenant sid') _ r) eqn:Hin'; [|done].
    unfold Q.in_stream in *. bool_to_prop. destruct Hne.
    apply StreamID.Canonical_inj; congruence. }
  split; [done|]. unfold stream_of, Q.stream_rows. f_equal.
  by rewrite He, List.filter_app, Hn, app_nil_r.
Qed.

(** A version that exists cannot be appended again. *)
Lemma pg_append_no_overwrite d d' seq seq' sid ex prev evs rows :
  db_wf d seq -> db_wf d' seq' -> events d' = events d ++ rows ->
  0 <= ex -> ex + Z.of_nat (length evs) < 2 ^ 63 ->
  appended sid ex 0 prev seq evs rows ->
  forall r, r ∈ stream_of d sid -> ~ (ex < ev_version r <= ex + Z.of_nat (length evs)).
Proof.
  intros Hwf Hwf' He Hex Hb Ha r Hr Hv.
  destruct (pg_appended_columns sid ex evs 0 prev seq rows) as (HF & Hvs & _); [lia|lia|lia|done|].
  assert (Hk : ev_version r ∈ ev_version <$> rows).
  { rewrite Hvs. apply elem_of_seqZ. lia. }
  apply list_elem_of_fmap in Hk as (r' & Hveq & Hr').
  rewrite Forall_forall in HF. specialize (HF r' Hr').
  apply pg_stream_rows_elem in Hr as [Hr Hin].
  pose proof (wf_version _ _ Hwf') as Hnd. rewrite He, fmap_app in Hnd.
  apply NoDup_app in Hnd as (_ & Hdisj & _).
  apply (Hdisj (version_key r)); [by apply list_elem_of_fmap_2|].
  apply list_elem_of_fmap. exists r'. split; [|done].
  unfold Q.in_stream in *. bool_to_prop. unfold version_key. congruence.
Qed.

Lemma pg_dense_elem d sid v :
  dense d sid -> 1 <= v <= Z.of_nat (length (stream_of d sid)) ->
  exists r, r ∈ stream_of d sid /\ ev_version r = v.
Proof.
  intros Hd Hv. assert (H : v ∈ ev_version <$> stream_of d sid).
  { rewrite Hd. apply elem_of_seqZ. lia. }
  apply list_elem_of_fmap in H as (r & -> & Hr). eauto.
Qed.

(** On a gap-free stream, rows for an expected version at most the current one
    were appended at the current version, and extend the stream there. *)
Lemma appended_dense d seq d' seq' sid ex prev evs rows :
  db_wf d seq -> db_wf d' seq' -> dense d sid ->
  0 <= ex <= Z.of_nat (length (stream_of d sid)) -> ex + Z.of_nat (length evs) < 2 ^ 63 ->
  evs <> [] -> appended sid ex 0 prev seq evs rows -> events d' = events d ++ rows ->
  ex = Z.of_nat (length (stream_of d sid)) /\
  stream_of d' sid = stream_of d sid ++ rows /\ dense d' sid.
Proof.
  intros Hwf Hwf' Hd Hex Hb Hne Ha He.
  assert (Heq : ex = Z.of_nat (length (stream_of d sid))).
  { destruct (decide (ex < Z.of_nat (length (stream_of d sid)))) as [Hlt|]; [exfalso|lia].
    destruct (pg_dense_elem _ _ (ex + 1) Hd) as (r & Hr & Hrv); [lia|].
    refine (pg_append_no_overwrite _ _ _ _ _ _ _ _ _ Hwf Hwf' He _ Hb Ha r Hr _); [lia|].
    destruct evs; [done|]. simpl. lia. }
  split; [done|].
  destruct (pg_appended_columns sid ex evs 0 prev seq rows) as (HF & Hvs & _); [lia|lia|lia|exact Ha|].
  apply (pg_stream_of_own d seq d' sid rows Hwf He HF Hd). rewrite Hvs, Heq.
  rewrite (pg_appended_length _ _ _ _ _ _ _ Ha). f_equal. lia.
Qed.
End Stream.
