(* ===== verification/PgAggregate.v ===== *)
(** * The Postgres adapter as an es.Store

    [pg_store] collects the adapter methods into the interface of Store.v;
    [pg_store_laws] shows that it keeps the contract the aggregate runtime is
    verified against, for events whose columns survive the server's types.
    What happens to events whose columns do not survive is
    [lossy_columns_break_chain]. *)
From S2P Require Import Prelude Errors Streams Sharding Events Chain Store Sql PgDB PgQueries PgStore PgIsolation PgFacts PgStream.
Import Pg Postgres.

(** ** Readers *)
Section Read.
Context {CP : ChainPrims} {CL : ChainLaws CP} {PP : PgPrims} {PL : PgLaws PP}.
Context (O : Oracle) (dp : Deployment).

(** A transaction that runs one SELECT. *)
Lemma call_select {A B} t texts (f : DB -> res A) (post : res A -> res B) w w' r :
  call O dp (after (withTenantTx t (perform (select texts f))) post) w = (w', r) ->
  w_db w' = w_db w /\ w_seq w' = w_seq w /\
  exists x, r = post x /\
    (forall a, x = Ok a -> t <> "" /\ f (restrict (tenant_env dp t) (w_db w)) = Ok a).
Proof.
  unfold withTenantTx. case_bool_decide as Ht; cbn [after call].
  { intros [= <- <-]. do 2 (split; [done|]). eexists. by split; [done|]. }
  unfold run_tx, perform. cbn [run].
  destruct (o_fault O (w_tick w)). { intros [= <- <-]. do 2 (split; [done|]). by eexists. }
  destruct (o_fault O (w_tick (tick w))). { intros [= <- <-]. do 2 (split; [done|]). by eexists. }
  destruct (run_stmt O _ (select texts f) (tick (tick w))) as [w2 y] eqn:Hs.
  apply select_inv in Hs as (Hd & Hq & Hy). unfold of_res. simpl in Hd, Hq.
  destruct y as [b|e].
  - destruct (o_fault O (w_tick w2)) as [msg|].
    + destruct (o_lost O (w_tick w2)); intros [= <- <-]; simpl; (split; [done|]); (split; [done|]);
        eexists; by split; [done|].
    + intros [= <- <-]. simpl. split; [done|]. split; [done|]. exists (Ok b). split; [done|].
      intros c [= <-]. split; [done|]. by apply Hy.
  - intros [= <- <-]. simpl. split; [done|]. split; [done|]. by eexists.
Qed.

Lemma pg_stream_of_strict d seq sid :
  db_wf d seq -> StronglySorted (fun a b => ev_version a < ev_version b) (stream_of d sid).
Proof. intros Hwf. apply order_by_strict. by eapply pg_filter_version_nodup. Qed.

(** ReadStreamFromVersion selects from the stream in version order. *)
Lemma pg_read_rows d seq sid v :
  db_wf d seq ->
  order_by ev_version
    (List.filter (fun r => Q.in_stream (StreamID.Tenant sid) (StreamID.Canonical sid) r &&
                           (v <? ev_version r))
       (events (restrict (tenant_env dp (StreamID.Tenant sid)) d))) =
  List.filter (fun r => v <? ev_version r) (stream_of d sid).
Proof.
  intros Hwf.
  assert (List.filter (fun r => Q.in_stream (StreamID.Tenant sid) (StreamID.Canonical sid) r &&
      (v <? ev_version r)) (events (restrict (tenant_env dp (StreamID.Tenant sid)) d)) =
    List.filter (fun r => Q.in_stream (StreamID.Tenant sid) (StreamID.Canonical sid) r &&
      (v <? ev_version r)) (events d)) as ->.
  { apply filter_filter_impl. intros x Hx. bool_to_prop. eapply in_stream_own. eauto. }
  apply order_by_unique.
  - apply StronglySorted_lfilter. by eapply pg_stream_of_strict.
  - rewrite filter_andb. apply Permutation_lfilter. apply order_by_perm.
Qed.

Lemma PgReadStream_inv sid from w w' r :
  db_wf (w_db w) (w_seq w) -> call O dp (ReadStream sid from) w = (w', r) ->
  w_db w' = w_db w /\ w_seq w' = w_seq w /\
  (forall envs, r = Ok envs -> StreamID.Validate sid = None /\
     collect (List.filter (fun r => i64 from <? ev_version r) (stream_of (w_db w) sid)) = Ok envs).
Proof.
  intros Hwf. unfold ReadStream. destruct (StreamID.Validate sid) eqn:Hv.
  { intros [= <- <-]. done. }
  intros (Hd & Hq & x & -> & Hx)%call_select. split; [done|]. split; [done|].
  intros envs Hr. split; [done|]. destruct x as [rows|]; [|done]. cbn [and_then] in Hr.
  destruct (Hx rows eq_refl) as [_ [= <-]].
  rewrite <- (pg_read_rows (w_db w) (w_seq w) sid (i64 from) Hwf). exact Hr.
Qed.

Lemma pg_read_dense d sid v :
  dense d sid -> 0 <= v < 2 ^ 63 ->
  List.filter (fun r => i64 v <? ev_version r) (stream_of d sid) = drop (Z.to_nat v) (stream_of d sid).
Proof.
  intros Hd Hv. rewrite i64_small by lia. rewrite (filter_drop ev_version _ 1) by (done || lia).
  do 2 f_equal. lia.
Qed.

Lemma pg_collect_drop rows envs n : collect rows = Ok envs -> collect (drop n rows) = Ok (drop n envs).
Proof. unfold collect. rewrite !mapR_Forall2. intros H. by apply Forall2_drop. Qed.

Lemma GetState_inv t s w w' r : call O dp (GetState t s) w = (w', r) ->
  w_db w' = w_db w /\ w_seq w' = w_seq w /\
  (forall row, r = Ok row -> exists x, find_state t s (w_db w) = Some x /\
     row = toStateCacheRow t s x).
Proof.
  intros (Hd & Hq & x & -> & Hx)%call_select. split; [done|]. split; [done|].
  intros row Hr. destruct x as [y|]; [|done]. injection Hr as <-.
  destruct (Hx y eq_refl) as [_ Hy].
  assert (E : List.filter (Q.same_state t s) (state_cache (restrict (tenant_env dp t) (w_db w))) =
    List.filter (Q.same_state t s) (state_cache (w_db w))).
  { apply filter_filter_impl. intros z Hz. apply admits_own. unfold Q.same_state in Hz. by bool_to_prop. }
  rewrite E in Hy. unfold find_state.
  destruct (List.filter _ (state_cache (w_db w))) as [|z zs]; [done|]. injection Hy as ->. eauto.
Qed.
End Read.

(** ** The contract *)
Section Laws.
Context {CP : ChainPrims} {CL : ChainLaws CP} {PP : PgPrims} {PL : PgLaws PP}.
Context (O : Oracle) (dp : Deployment) (a : Adapter).

Definition pg_store : Store World :=
  mkStore World (fun p => call O dp (Append a p)) (fun sid v => call O dp (ReadStream sid v))
    (fun v n => call O dp (ReadAll a v n)) (fun t v n => call O dp (ReadAllForTenant t v n))
    (fun sid => call O dp (CurrentStreamVersion sid)) (fun t id => call O dp (GetEventByID t id))
    (Some (mkStateCacheReader World (fun t s => call O dp (GetState t s))
             (fun t u x n => call O dp (ListStates t u x n))))
    (Some (mkStateCacheWriter World (fun t u => call O dp (WipeStateCacheForType a t u))))
    (Some (mkStateCacheUpserter World (fun row => call O dp (UpsertCachedState row)))).

Definition envelopes (d : DB) (sid : StreamID.t) : list Envelope.t :=
  match collect (stream_of d sid) with Ok l => l | Err _ => [] end.

Definition cached_of (r : StateCache) : Cached :=
  mkCached (bytes_of_str (st_state r)) (u64 (st_version r)) (u32 (st_state_schema_version r)).

Definition pg_view (w : World) : View :=
  mkView (envelopes (w_db w))
    (fun sid => cached_of <$> find_state (StreamID.Tenant sid) (StreamID.Canonical sid) (w_db w)).

(** Gap-free streams, and rows that decode. *)
Record pg_ok (w : World) : Prop := mk_pg_ok {
  po_wf : db_wf (w_db w) (w_seq w);
  po_dense : forall sid, StreamID.Validate sid = None -> dense (w_db w) sid;
  po_all : exists envs, collect (events (w_db w)) = Ok envs
}.

Lemma po_decodes w sid : pg_ok w -> exists envs, collect (stream_of (w_db w) sid) = Ok envs.
Proof.
  intros Hok. destruct (po_all w Hok) as [envs He].
  destruct (mapR_filter _ (Q.in_stream (StreamID.Tenant sid) (StreamID.Canonical sid)) _ _ He) as [zs Hz].
  unfold collect in *. apply mapR_total. unfold stream_of, Q.stream_rows. rewrite order_by_perm.
  apply mapR_total. eauto.
Qed.

(** jsonb and back. *)
Definition jsonb_norm (b : bytes) : bytes :=
  match pg_jsonb (str_of_bytes b) with Ok s => bytes_of_str s | Err _ => b end.

Lemma empty_pg_ok : pg_ok (mkWorld empty_db 0 0).
Proof. split; [apply pg_empty_db_wf|done|by exists []]. Qed.

Lemma pg_same_db_view w w' : w_db w' = w_db w -> same_view (pg_view w') (pg_view w).
Proof. intros H sid _. unfold pg_view; simpl. by rewrite H. Qed.

Lemma same_db_ok w w' :
  w_db w' = w_db w -> w_seq w <= w_seq w' <= max_i64 -> pg_ok w -> pg_ok w'.
Proof.
  intros Hd Hq []. split; [|by rewrite Hd|by rewrite Hd].
  rewrite Hd. by eapply db_wf_draws.
Qed.

Lemma sorted_bound {A} (key : A -> Z) (l : list A) : forall lo hi, lo <= hi + 1 ->
  StronglySorted (fun a b => key a < key b) l -> Forall (fun x => lo <= key x <= hi) l ->
  Z.of_nat (length l) <= hi - lo + 1.
Proof.
  induction l as [|x l IH]; intros lo hi Hlh Hs Hf; simpl; [lia|].
  apply StronglySorted_inv in Hs as [Hs Hx]. apply Forall_cons in Hf as [Hk Hf].
  assert (Z.of_nat (length l) <= hi - (key x + 1) + 1); [|lia].
  apply IH; [lia|done|]. rewrite Forall_forall in *. intros y Hy.
  specialize (Hf y Hy). specialize (Hx y Hy). simpl in *. lia.
Qed.

Lemma pg_stream_of_length d seq sid :
  db_wf d seq -> Z.of_nat (length (stream_of d sid)) <= seq.
Proof.
  intros Hwf. unfold stream_of, Q.stream_rows. rewrite order_by_perm.
  pose proof (sorted_bound ev_global_position (events d) 1 seq) as H.
  pose proof (wf_seq _ _ Hwf).
  specialize (H ltac:(lia) (wf_sorted _ _ Hwf) (wf_drawn _ _ Hwf)).
  pose proof (filter_length_le (Q.in_stream (StreamID.Tenant sid) (StreamID.Canonical sid)) (events d)).
  lia.
Qed.

Lemma pg_rowToEnvelope_version r e : rowToEnvelope r = Ok e -> Envelope.Version e = u64 (ev_version r).
Proof. unfold rowToEnvelope. intros H. repeat case_match; simplify_eq; done. Qed.

Lemma pg_collect_versions rows envs n :
  collect rows = Ok envs -> ev_version <$> rows = seqZ 1 n -> n < 2 ^ 63 ->
  Envelope.Version <$> envs = seqZ 1 n.
Proof.
  unfold collect. rewrite mapR_Forall2. intros HF Hr Hn. rewrite <- Hr.
  assert (Hb : Forall (fun r => 1 <= ev_version r < 2 ^ 63) rows).
  { apply Forall_forall. intros r Hin. apply (list_elem_of_fmap_2 ev_version) in Hin.
    rewrite Hr in Hin. apply elem_of_seqZ in Hin. lia. }
  clear Hr. induction HF as [|r e rows envs He _ IH]; csimpl; [done|].
  apply Forall_cons in Hb as [Hr Hb]. rewrite IH by done. f_equal.
  rewrite (pg_rowToEnvelope_version r e He). apply u64_small. lia.
Qed.

Lemma insert_row_draws {R} (T : Table R) texts q row : draws (insert_row T texts q row).
Proof.
  apply guarded_draws. intros e now seq d. unfold refuse. cbn zeta.
  destruct (admits T e _); [|apply drawn_refl]. destruct (existsb q _); apply drawn_refl.
Qed.

Lemma InsertEvent_draws arg : draws (Q.InsertEvent arg).
Proof.
  apply guarded_draws. intros e now seq d.
  repeat case_match; try apply drawn_refl. unfold Q.insert_event, refuse.
  destruct (Z.leb_spec max_i64 seq); [apply drawn_refl|].
  assert (drawn seq (seq + 1)) by (split; lia). destruct (admits Events e _); [|done].
  by destruct (existsb _ _).
Qed.

Lemma delete_rows_draws {R} (T : Table R) texts q : draws (exec (delete_rows T texts q)).
Proof.
  intros e now seq d. unfold exec. cbn [s_run].
  assert (Hd : draws (delete_rows T texts q)) by (apply guarded_draws; intros; apply drawn_refl).
  specialize (Hd e now seq d). by destruct (s_run _ e now seq d) as [[? ?] ?].
Qed.

Lemma appendEvents_draws sid ex evs : forall i prev sp ep rec,
  prog_all (@draws) (appendEvents sid ex i prev sp ep rec evs).
Proof.
  induction evs as [|ev evs IH]; intros i prev sp ep rec; cbn [appendEvents]; [constructor|].
  apply pbind_all; [constructor|intros actor]. apply pbind_all; [constructor|intros h].
  apply pbind_all; [apply pmap_err_all, InsertEvent_draws|intros row].
  apply pbind_all; [apply pmap_err_all, insert_row_draws|intros _]. apply IH.
Qed.

Lemma UpsertStateCache_draws t s u b v x n : draws (Q.UpsertStateCache t s u b v x n).
Proof.
  apply guarded_draws. intros e now seq d. destruct (pg_jsonb _); [|apply drawn_refl].
  unfold upsert, guarded, refuse; cbn [s_run forallb negb]. destruct (setting_bound e); [|apply drawn_refl].
  cbn [negb]. destruct (admits StateCacheT e _); apply drawn_refl.
Qed.

Lemma appendTx_draws p : prog_all (@draws) (appendTx a p).
Proof.
  unfold appendTx. apply pbind_all; [apply pmap_err_all; intros e now seq d; apply drawn_refl|intros _].
  apply pbind_all; [|intros _].
  { apply pforM_all. intros op. unfold applyConstraint.
    destruct (co_Op op =? ClaimConstraint); [apply pmap_err_all, insert_row_draws|].
    destruct (co_Op op =? ReleaseConstraint); [apply pmap_err_all, delete_rows_draws|constructor]. }
  apply pbind_all; [|intros prev].
  { unfold readPrevHash. apply pbind_all.
    - constructor; [|constructor]. apply guarded_draws. intros. apply drawn_refl.
    - intros [[[|b h]|]|e]; try constructor. destruct (errors_Is e ErrNoRows); constructor. }
  apply pbind_all; [apply appendEvents_draws|intros pos].
  apply pbind_all; [|constructor]. unfold writeStateCache.
  destruct (ap_NewStateBytes p); [apply pmap_err_all, UpsertStateCache_draws|constructor].
Qed.

Lemma Append_draws p w w' r : call O dp (Append a p) w = (w', r) -> drawn (w_seq w) (w_seq w').
Proof.
  unfold Append. destruct (StreamID.Validate _); [intros [= <- _]; apply drawn_refl|].
  destruct (ap_Events p); [intros [= <- _]; apply drawn_refl|]. cbn [call].
  destruct (run_tx O dp _ (appendTx a p) w) as [w2 x] eqn:Hr. intros [= <- _].
  eapply run_tx_draws; [apply appendTx_draws|exact Hr].
Qed.

(** ** The state cache after Append *)

Lemma filter_replaced {A} (q : A -> bool) (new : A) l :
  q new = true -> existsb q l = true -> head (List.filter q (sql_update q (fun _ => new) l)) = Some new.
Proof.
  intros Hn. unfold sql_update. induction l as [|x l IH]; csimpl; [done|].
  destruct (q x) eqn:Hq; simpl; [by rewrite Hn|]. rewrite Hq. apply IH.
Qed.

Lemma find_state_cache_row p js now d :
  let sid := ap_StreamID p in
  let d' := upsert_row StateCacheT (Q.same_state (StreamID.Tenant sid) (StreamID.Canonical sid))
              (fun new _ => new) (cache_row p js now) d in
  find_state (StreamID.Tenant sid) (StreamID.Canonical sid) d' = Some (cache_row p js now) /\
  forall t s, (t, s) <> (StreamID.Tenant sid, StreamID.Canonical sid) ->
    find_state t s d' = find_state t s d.
Proof.
  intros sid d'. subst d'. set (q := Q.same_state _ _). set (row := cache_row p js now).
  assert (Hq : q row = true).
  { unfold q, Q.same_state, row; simpl. by rewrite !bool_decide_eq_true_2. }
  assert (Hoff : forall t s x, (t, s) <> (StreamID.Tenant sid, StreamID.Canonical sid) ->
    q x = true -> Q.same_state t s x = false).
  { intros t s x Hne Hx. destruct (Q.same_state t s x) eqn:Hs; [|done]. destruct Hne.
    unfold q, Q.same_state in *. bool_to_prop. congruence. }
  unfold upsert_row, find_state, push. cbn [tb_rows StateCacheT].
  fold q. destruct (existsb q (state_cache d)) eqn:Hex; cbn [tb_set StateCacheT state_cache].
  - split; [by apply filter_replaced|]. intros t s Hne. f_equal.
    apply filter_update_ext. intros x Hx. split; by apply Hoff.
  - rewrite existsb_false_iff in Hex. split.
    + rewrite List.filter_app, filter_none.
      * simpl. by rewrite Hq.
      * apply Forall_forall. exact Hex.
    + intros t s Hne. rewrite List.filter_app. simpl. rewrite Hoff by done. by rewrite app_nil_r.
Qed.

Lemma cache_after_view p d d' :
  0 <= ap_ExpectedVersion p -> ap_ExpectedVersion p + Z.of_nat (length (ap_Events p)) < 2 ^ 63 ->
  0 <= ap_StateSchemaVersion p < 2 ^ 32 -> cache_after p d d' ->
  let sid := ap_StreamID p in
  let find sid d := cached_of <$> find_state (StreamID.Tenant sid) (StreamID.Canonical sid) d in
  find sid d' = cached_after jsonb_norm p (find sid d) /\
  forall sid', StreamID.Validate sid' = None -> StreamID.Validate sid = None -> sid' <> sid ->
    find sid' d' = find sid' d.
Proof.
  intros Hex Hb Hsch Hca sid find. subst find sid. cbn zeta. unfold cache_after, cached_after in *.
  assert (Hsc : forall t s, state_cache d' = state_cache d -> find_state t s d' = find_state t s d).
  { intros t s H. unfold find_state. by rewrite H. }
  destruct (ap_NewStateBytes p) as [b|].
  - destruct Hca as (js & now & Hjs & Hca).
    pose proof (find_state_cache_row p js now d) as [Hf Ho]. cbn zeta in Hf, Ho.
    assert (Hc : forall t s, find_state t s d' =
      find_state t s (upsert_row StateCacheT (Q.same_state (StreamID.Tenant (ap_StreamID p))
        (StreamID.Canonical (ap_StreamID p))) (fun new _ => new) (cache_row p js now) d)).
    { intros t s. unfold find_state. by rewrite Hca. }
    rewrite Hc, Hf. split.
    + simpl. unfold cached_of, cache_row, jsonb_norm; simpl. rewrite Hjs.
      rewrite (i64_small (ap_ExpectedVersion p)), i64_small, u64_small by lia.
      rewrite u32_i32; [done|]. destruct (ap_StateSchemaVersion p =? 0); lia.
    + intros sid' Hv' Hv Hn. rewrite Hc, Ho; [done|]. intros [= Ht Hcn]. destruct Hn.
      by apply StreamID.Canonical_inj.
  - split; [by rewrite Hsc|]. intros sid' _ _ _. by rewrite Hsc.
Qed.

(** A successful Append at the end of a well-formed store. *)
Lemma effect_view p w w' res :
  pg_ok w -> StreamID.Validate (ap_StreamID p) = None -> ap_Events p <> [] ->
  db_wf (w_db w') (w_seq w') -> append_effect p w w' res ->
  0 <= ap_ExpectedVersion p <= Z.of_nat (length (envelopes (w_db w) (ap_StreamID p))) ->
  ap_ExpectedVersion p + Z.of_nat (length (ap_Events p)) < 2 ^ 63 ->
  Forall event_ok (ap_Events p) -> 0 <= ap_StateSchemaVersion p < 2 ^ 32 ->
  pg_ok w' /\ ap_ExpectedVersion p = Z.of_nat (length (envelopes (w_db w) (ap_StreamID p))) /\
  ar_StartVersion res = ap_ExpectedVersion p + 1 /\
  ar_EndVersion res = ap_ExpectedVersion p + Z.of_nat (length (ap_Events p)) /\
  appended_view jsonb_norm p (pg_view w) (pg_view w').
Proof.
  intros Hok Hv Hne Hwf' (prev & rows & orows & Ha & He & Hq & _ & _ & _ & Hca & _ & Hsv & Hev & _)
    Hex Hb Hacc Hsch. pose proof (po_wf _ Hok) as Hwf. set (sid := ap_StreamID p) in *.
  destruct (po_decodes w sid Hok) as [envs Henvs].
  assert (Hlen : length (envelopes (w_db w) sid) = length (stream_of (w_db w) sid)).
  { unfold envelopes. rewrite Henvs. apply mapR_Forall2 in Henvs. symmetry. by eapply Forall2_length. }
  rewrite Hlen in *.
  destruct (appended_dense _ _ _ _ sid (ap_ExpectedVersion p) prev (ap_Events p) rows Hwf Hwf'
    (po_dense _ Hok sid Hv)) as (Heq & Hst & Hd); try done.
  pose proof (wf_seq _ _ Hwf). pose proof (wf_seq _ _ Hwf').
  destruct (pg_appended_envs sid (ap_ExpectedVersion p) (ap_Events p) 0 prev (w_seq w) rows Hv Hacc)
    as (news & Hnews & Hcar & _); try done; try lia.
  destruct (pg_appended_columns sid (ap_ExpectedVersion p) (ap_Events p) 0 prev (w_seq w) rows)
    as (Hin & _); [lia|lia|lia|exact Ha|].
  destruct (cache_after_view p (w_db w) (w_db w')) as [Hc1 Hc2]; [lia|done|done|done|].
  cbn zeta in Hc1, Hc2.
  split.
  { split; [done| |].
    - intros sid' Hv'. destruct (decide (sid' = sid)) as [->|Hn]; [done|].
      unfold dense. destruct (pg_stream_of_other _ _ sid sid' rows He Hin Hv Hv' Hn) as [_ ->].
      by apply (po_dense _ Hok).
    - destruct (po_all _ Hok) as [all Hall]. exists (all ++ news). unfold collect in *.
      by rewrite He, mapR_app, Hall, Hnews. }
  split; [done|]. rewrite Hsv, Hev, !u64_small by lia. split; [done|]. split; [done|].
  exists news. unfold pg_view; simpl. fold sid. split; [done|]. split.
  { unfold envelopes, collect in *. by rewrite Hst, mapR_app, Henvs, Hnews. }
  split; [exact Hc1|]. intros sid' Hv' Hn. split; [|by apply Hc2].
  unfold envelopes. by destruct (pg_stream_of_other _ _ sid sid' rows He Hin Hv Hv' Hn) as [_ ->].
Qed.

(** If no commit acknowledgement is lost, the adapter keeps the contract. *)
Lemma pg_keeps_laws :
  (forall t, o_lost O t = false) -> StoreLaws pg_store pg_ok pg_view event_ok jsonb_norm.
Proof.
  intros Hnl. split.
  - intros w sid Hok Hv. destruct (po_decodes w sid Hok) as [envs He].
    unfold pg_view, envelopes; simpl. rewrite He.
    pose proof (pg_stream_of_length _ _ sid (po_wf _ Hok)). pose proof (wf_seq _ _ (po_wf _ Hok)).
    assert (Hl : length envs = length (stream_of (w_db w) sid)).
    { apply mapR_Forall2 in He. symmetry. by eapply Forall2_length. }
    rewrite Hl. apply (pg_collect_versions _ _ _ He); [by apply (po_dense _ Hok)|].
    unfold max_i64 in *. lia.
  - intros w sid Hok Hv. destruct (po_decodes w sid Hok) as [envs He].
    unfold pg_view, envelopes; simpl. rewrite He.
    pose proof (pg_stream_of_length _ _ sid (po_wf _ Hok)). pose proof (wf_seq _ _ (po_wf _ Hok)).
    apply mapR_Forall2, Forall2_length in He. rewrite <- He. unfold max_i64 in *. lia.
  - intros sid v w w' x Hok H. simpl in H.
    apply PgReadStream_inv in H as (Hd & Hq & Hr); [|apply Hok].
    pose proof (wf_seq _ _ (po_wf _ Hok)).
    split; [eapply same_db_ok; [done|lia|done]|]. split; [by apply pg_same_db_view|]. intros envs Hx.
    destruct (Hr envs Hx) as [Hv Hc]. split; [done|]. intros Hb.
    rewrite pg_read_dense in Hc; [|by apply (po_dense _ Hok)|done].
    destruct (po_decodes w sid Hok) as [all Hall].
    rewrite (pg_collect_drop _ _ _ Hall) in Hc. injection Hc as <-.
    unfold pg_view, envelopes; simpl. by rewrite Hall.
  - intros rd sid w w' x Hok [= <-] Hv H. simpl in H. apply GetState_inv in H as (Hd & Hq & Hr).
    pose proof (wf_seq _ _ (po_wf _ Hok)).
    split; [eapply same_db_ok; [done|lia|done]|]. split; [by apply pg_same_db_view|].
    intros row Hx. destruct (Hr row Hx) as (rec & Hl & ->). simpl. by rewrite Hl.
  - intros rd t s w w' x Hok [= <-] H. simpl in H. apply GetState_inv in H as (Hd & Hq & _).
    pose proof (wf_seq _ _ (po_wf _ Hok)).
    split; [eapply same_db_ok; [done|lia|done]|]. by apply pg_same_db_view.
  - intros p w w' e Hok H. simpl in H. pose proof (Append_draws p w w' _ H) as Hdr.
    pose proof (wf_seq _ _ (po_wf _ Hok)).
    apply PgAppend_Err in H as [Hd|(res & t & msg & _ & Hl & _)]; [| |apply Hok].
    + split; [|by apply pg_same_db_view]. unfold drawn in Hdr. eapply same_db_ok; [done|lia|done].
    + by rewrite Hnl in Hl.
  - intros p w w' res Hok HA. apply PgAppend_Ok in HA as (Hv & Hne & Hwf' & He); [|apply Hok].
    intros Hex Hb Hacc Hsch.
    destruct (effect_view p w w' res Hok Hv Hne Hwf' He) as (H1 & H2 & H3 & H4 & H5); [done..|].
    split_and!; done.
Qed.
End Laws.

(** ** The hash chain *)
Section Chains.
Context {CP : ChainPrims} {CL : ChainLaws CP} {PP : PgPrims} {PL : PgLaws PP}.
Context (O : Oracle) (dp : Deployment) (a : Adapter).

Lemma pg_chain_head_ok rows envs prev :
  collect rows = Ok envs -> Chain.chain_ok prev envs -> rows <> [] ->
  chain_head rows = Chain.head_hash prev envs.
Proof.
  unfold collect. rewrite mapR_Forall2. intros HF Hc Hne. unfold chain_head, Chain.head_hash.
  destruct rows as [|row rows _] using rev_ind; [done|].
  apply Forall2_app_inv_l in HF as (e1 & e2 & _ & H2 & ->).
  inversion H2 as [|? e ? ? Hrow Hnil]; subst. inversion Hnil; subst.
  rewrite !last_snoc. simpl.
  apply Chain.chain_ok_app in Hc as [_ [Hl _]].
  apply Chain.links_inv in Hl as (c & _ & _ & Hh).
  assert (He : Envelope.Hash e = default [] (ev_hash row)).
  { unfold rowToEnvelope in Hrow. repeat case_match; simplify_eq; done. }
  pose proof (sha256_length (Chain.head_hash prev e1 ++ c)) as Hlen.
  unfold Chain.head_hash in Hlen, Hh.
  destruct (ev_hash row) as [[|b h]|]; simpl in *; rewrite He in *; rewrite <- Hh in Hlen; done.
Qed.

(** A verified stream stays verified. *)
Lemma append_chain p w w' res envs :
  pg_ok w -> collect (stream_of (w_db w) (ap_StreamID p)) = Ok envs ->
  Chain.chain_ok Chain.ZeroHash envs -> call O dp (Append a p) w = (w', Ok res) ->
  0 <= ap_ExpectedVersion p <= Z.of_nat (length envs) ->
  ap_ExpectedVersion p + Z.of_nat (length (ap_Events p)) < 2 ^ 63 ->
  Forall event_ok (ap_Events p) ->
  exists news, collect (stream_of (w_db w') (ap_StreamID p)) = Ok (envs ++ news) /\
    Forall2 carries (ap_Events p) news /\ Chain.chain_ok Chain.ZeroHash (envs ++ news) /\
    Envelope.Version <$> news = seqZ (ap_ExpectedVersion p + 1) (Z.of_nat (length (ap_Events p))) /\
    Envelope.GlobalPosition <$> news =
      seqZ (ar_StartGlobalPosition res) (Z.of_nat (length (ap_Events p))) /\
    db_wf (w_db w') (w_seq w') /\ dense (w_db w') (ap_StreamID p).
Proof.
  intros Hok Hcol Hch HA Hex Hb Hacc. pose proof (po_wf _ Hok) as Hwf.
  apply PgAppend_Ok in HA as (Hv & Hne & Hwf' & prev & rows & orows & Ha & He & Hq & _ & _ & _ & _ & _
    & _ & _ & Hsp & _ & Hprev); [|done].
  set (sid := ap_StreamID p) in *. fold (stream_of (w_db w) sid) in Hprev.
  assert (Hlen : length envs = length (stream_of (w_db w) sid)).
  { apply mapR_Forall2 in Hcol. symmetry. by eapply Forall2_length. }
  rewrite Hlen in Hex.
  destruct (appended_dense _ _ _ _ sid (ap_ExpectedVersion p) prev (ap_Events p) rows Hwf Hwf'
    (po_dense _ Hok sid Hv)) as (Heq & Hst & Hd); try done.
  pose proof (wf_seq _ _ Hwf). pose proof (wf_seq _ _ Hwf'). unfold max_i64 in *.
  destruct (pg_appended_envs sid (ap_ExpectedVersion p) (ap_Events p) 0 prev (w_seq w) rows Hv Hacc)
    as (news & Hnews & Hcar & Hcn & Hvs & Hgs); try done; try (unfold max_i64; lia).
  exists news. unfold collect in *. rewrite Hst, mapR_app, Hcol, Hnews.
  rewrite Hsp, u64_small by lia.
  replace (ap_ExpectedVersion p + 1) with (ap_ExpectedVersion p + 0 + 1) by lia.
  split_and!; try done. apply Chain.chain_ok_app. split; [done|].
  destruct (decide (stream_of (w_db w) sid = [])) as [E|Hn].
  - rewrite E in Hcol, Hprev. injection Hcol as <-. by subst prev.
  - rewrite <- (pg_chain_head_ok (stream_of (w_db w) sid) envs Chain.ZeroHash) by done. by rewrite <- Hprev.
Qed.

Lemma timestamppb_inj t t' : Chain.timestamppb_New t = Chain.timestamppb_New t' -> t = t'.
Proof.
  unfold Chain.timestamppb_New. intros [= H1 H2].
  rewrite (Z.div_mod t 1000000000), (Z.div_mod t' 1000000000) by lia. by rewrite H1, H2.
Qed.

(** A column of the event that is hashed as it is given and stored as something
    else: a time that is not in whole microseconds, key references that are not
    in the JSON form of the server. *)
Definition lossy (ev : EventToAppend) : Prop :=
  pg_time (ea_OccurredAt ev) <> ea_OccurredAt ev \/ ~ json_normal (ea_KeyRefs ev).

Lemma jsonb_given_back b kr : Q.opt_jsonb (nullable b) = Ok kr -> opt_bytes kr = b -> json_normal b.
Proof.
  unfold json_normal. intros H. rewrite H. destruct b as [|x b]; [by injection H as <-|]. cbn [nullable Q.opt_jsonb] in *.
  destruct (pg_jsonb _) as [j|]; [|done]. injection H as <-. cbn [opt_bytes]. intros <-.
  by rewrite str_of_bytes_of_str.
Qed.

(** The only event of a stream, with such a column, is read back with another
    content; if it verifies, the two contents digest alike. *)
Lemma lossy_row sid ev gp h row e :
  row_for sid 0 0 Chain.ZeroHash gp ev h row -> rowToEnvelope row = Ok e -> lossy ev ->
  Chain.verify_loop Chain.ZeroHash [e] = Ok tt ->
  exists c1 c2, Chain.canonicalEnvelopeBytes (chainEnv sid (event_version 0 0) ev) = Ok c1 /\
    Chain.canonicalEnvelopeBytes e = Ok c2 /\ c1 <> c2 /\
    sha256 (Chain.ZeroHash ++ c1) = sha256 (Chain.ZeroHash ++ c2).
Proof.
  intros (actor & json & pj & kr & now & Hact & Hj & Hpj & Hkr & Hh & ->) Hrow Hl.
  intros [(c2 & _ & Hc2 & Hh2)%Chain.links_inv _]%Chain.verify_loop_ok.
  assert (Hhe : Envelope.Hash e = h /\ Envelope.OccurredAt e = pg_time (ea_OccurredAt ev) /\ Envelope.KeyRefs e = opt_bytes kr).
  { unfold rowToEnvelope in Hrow. repeat case_match; simplify_eq; done. }
  destruct Hhe as (Hhe & Hoc & Hke).
  unfold Chain.ComputeChainHash in Hh. destruct (negb _); [done|].
  destruct (Chain.canonicalEnvelopeBytes (chainEnv sid (event_version 0 0) ev)) as [c1|] eqn:Hc1; [|done].
  injection Hh as Hh. exists c1, c2. split_and!; [done|done| |transitivity h; [exact Hh|by rewrite <- Hhe]]. intros ->.
  assert (Hp : Chain.canonicalEnvelope (chainEnv sid (event_version 0 0) ev) = Chain.canonicalEnvelope e)
    by by eapply pb_marshal_inj.
  injection Hp as _ _ _ _ _ _ Hs Hns _ _ _ _ _ _ _ _ _ Hk. destruct Hl as [Ht|Hn].
  - destruct Ht. rewrite <- Hoc. symmetry. apply timestamppb_inj.
    unfold Chain.timestamppb_New. simpl in Hs, Hns. by rewrite Hs, Hns.
  - apply Hn, (jsonb_given_back _ kr Hkr). rewrite <- Hke. by simpl in Hk.
Qed.
End Chains.

(** ** Witnesses *)

#[local] Existing Instances concrete_prims concrete_pg.

Lemma concrete_pg_laws : PgLaws concrete_pg.
Proof.
  split. intros x s j _ H Hj. cbn [pg_marshal_actor pg_jsonb concrete_pg] in H, Hj.
  injection H as <-. injection Hj as <-. split; [done|]. cbn [pg_unmarshal_actor concrete_pg].
  rewrite bytes_of_str_of_bytes, bytes_pos_bytes, decode_encode. by destruct x.
Qed.

Lemma pg_demo_append_1 :
  call demo_oracle demo_dp (Append demo_pg (demo_params "acme" 0 [11; 12])) (mkWorld empty_db 0 0) =
  (demo_w1, Ok (mkAppendResult 1 2 1 2 1700000000000000000)).
Proof. vm_compute. reflexivity. Qed.

Lemma pg_demo_event_ok id : event_ok (PP := concrete_pg) (demo_event id 1700000000123456000).
Proof.
  unfold event_ok, json_normal. split; [|split; [vm_compute; reflexivity|split; [simpl; lia|done]]].
  split_and!; try reflexivity. apply map_Forall_empty.
Qed.

Definition demo_ns_params : AppendParams :=
  mkAppendParams (StreamID.mk "acme" "order" "o") 0 [demo_event 11 1700000000123456789] [] None "" 0 false.
Definition demo_ns : World :=
  fst (demo_call (Append demo_pg demo_ns_params) (mkWorld empty_db 0 0)).
Notation demo_verify := (Chain.VerifyStreamChain
  (fun sid v => call demo_oracle demo_dp (ReadStream sid v)) (StreamID.mk "acme" "order" "o")).

(** ** Theorems *)

(** C4: Append on Postgres is atomic.  Whatever statement fails, an error
    leaves every table as it was, unless the commit took effect and only its
    acknowledgement was lost; then, and on success, all effects are there
    together: one events row per event at consecutive versions with the next
    positions of the sequence, one pending outbox row per event row, the
    constraint operations in order, the state_cache row, and nothing else.  The
    invariant of the tables and the sequence holds afterwards; a rolled-back
    Append may leave a hole in the sequence but never moves it back. *)
Theorem pg_append_atomic (CP : ChainPrims) (PP : PgPrims) (O : Oracle) (dp : Deployment)
    (a : Adapter) p w w' r :
  db_wf (w_db w) (w_seq w) -> call O dp (Append a p) w = (w', r) ->
  db_wf (w_db w') (w_seq w') /\ w_seq w <= w_seq w' /\
  match r with
  | Ok res => append_effect p w w' res
  | Err x => w_db w' = w_db w \/
      exists res t msg, o_fault O t = Some msg /\ o_lost O t = true /\ x = ENew msg /\
        append_effect p w w' res
  end.
Proof.
  intros Hwf HA. pose proof (Append_draws O dp a p w w' r HA) as [Hd1 Hd2].
  pose proof (wf_seq _ _ Hwf). destruct r as [res|x].
  - by apply PgAppend_Ok in HA as (_ & _ & ? & ?).
  - apply PgAppend_Err in HA as [Hdb|(res & t & msg & Hf & Hl & -> & Hwf' & He)]; [| |done].
    + rewrite Hdb. split; [eapply db_wf_draws; [done|lia]|]. split; [done|by left].
    + split; [done|]. split; [done|]. right. eauto 8.
Qed.

Lemma pg_append_atomic_witness :
  db_wf (w_db demo_w1) (w_seq demo_w1) /\ length (events (w_db demo_w1)) = 2%nat /\
  length (outbox (w_db demo_w1)) = 2%nat.
Proof.
  split; [|vm_compute; done].
  eapply (pg_append_atomic concrete_prims concrete_pg demo_oracle demo_dp demo_pg
    (demo_params "acme" 0 [11; 12]) (mkWorld empty_db 0 0)).
  - apply pg_empty_db_wf.
  - exact pg_demo_append_1.
Defined.

(** C10: the Postgres adapter refines the store contract.  Run alone, for any
    deployment and adapter options, whichever statements fail as long as no
    commit acknowledgement is lost, it behaves as a store of gap-free streams
    with a state cache: readers return the stream after the version they ask
    for, a failed Append changes nothing, a successful one extends exactly its
    stream with the events given, at the version expected, and updates the
    cached state.  The theorems about the aggregate runtime are proved against
    this contract, so they hold on Postgres for events that are stored as they
    are (whole microseconds, JSON in the form of the server). *)
Theorem pg_store_refines (CP : ChainPrims) (CL : ChainLaws CP) (PP : PgPrims) (PL : PgLaws PP)
    (O : Oracle) (dp : Deployment) (a : Adapter) :
  (forall t, o_lost O t = false) ->
  StoreLaws (pg_store O dp a) pg_ok pg_view event_ok jsonb_norm /\ pg_ok (mkWorld empty_db 0 0).
Proof. intros H. split; [by apply pg_keeps_laws|apply empty_pg_ok]. Qed.

Lemma pg_store_refines_witness :
  pg_ok (PP := concrete_pg) demo_w1 /\
  appended_view (jsonb_norm (PP := concrete_pg)) (demo_params "acme" 0 [11; 12])
    (pg_view (PP := concrete_pg) (mkWorld empty_db 0 0)) (pg_view (PP := concrete_pg) demo_w1).
Proof.
  destruct (pg_store_refines concrete_prims concrete_laws concrete_pg concrete_pg_laws
    demo_oracle demo_dp demo_pg (fun _ => eq_refl)) as [L H0].
  destruct (sl_append (StoreLaws := L) (demo_params "acme" 0 [11; 12]) _ demo_w1 _ H0 pg_demo_append_1)
    as (H1 & _ & _ & _ & _ & H2).
  - simpl. lia.
  - simpl. lia.
  - repeat (constructor; [apply pg_demo_event_ok|]). constructor.
  - simpl. lia.
  - split; [exact H1|exact H2].
Defined.

(** C11: what is appended on Postgres is read back, and the chain verifies.
    After a successful Append of events that the columns store as they are
    ([event_ok]: times in whole microseconds, PayloadJSON and KeyRefs already in
    the server's form of JSON, a uint32 schema version; for others the chain
    breaks, see C12), to a gap-free stream that verifies, every ReadStream that answers returns the old
    envelopes followed by the new ones, which carry the events at consecutive
    versions and positions, and VerifyStreamChain accepts the stream unless its
    read fails. *)
Theorem pg_append_then_read (CP : ChainPrims) (CL : ChainLaws CP) (PP : PgPrims) (PL : PgLaws PP)
    (O : Oracle) (dp : Deployment) (a : Adapter) p w w' res envs :
  pg_ok w -> collect (stream_of (w_db w) (ap_StreamID p)) = Ok envs ->
  Chain.verify_loop Chain.ZeroHash envs = Ok tt -> call O dp (Append a p) w = (w', Ok res) ->
  0 <= ap_ExpectedVersion p <= Z.of_nat (length envs) ->
  ap_ExpectedVersion p + Z.of_nat (length (ap_Events p)) < 2 ^ 63 ->
  Forall event_ok (ap_Events p) ->
  exists news, Forall2 carries (ap_Events p) news /\
    Envelope.Version <$> news = seqZ (ap_ExpectedVersion p + 1) (Z.of_nat (length (ap_Events p))) /\
    Envelope.GlobalPosition <$> news =
      seqZ (ar_StartGlobalPosition res) (Z.of_nat (length (ap_Events p))) /\
    (forall w'' r, call O dp (ReadStream (ap_StreamID p) 0) w' = (w'', Ok r) -> r = envs ++ news) /\
    (forall w'' r, Chain.VerifyStreamChain (fun sid v => call O dp (ReadStream sid v))
         (ap_StreamID p) w' = (w'', r) ->
       r = Ok tt \/ exists e, call O dp (ReadStream (ap_StreamID p) 0) w' = (w'', Err e) /\ r = Err e).
Proof.
  intros Hok Hcol Hch%Chain.verify_loop_ok HA Hex Hb Hacc.
  destruct (append_chain O dp a p w w' res envs Hok Hcol Hch HA Hex Hb Hacc)
    as (news & Hc & HF & Hch' & Hvs & Hgs & Hwf' & Hd).
  assert (Hread : forall w'' r, call O dp (ReadStream (ap_StreamID p) 0) w' = (w'', Ok r) -> r = envs ++ news).
  { intros w'' r (_ & _ & Hr)%PgReadStream_inv; [|done]. destruct (Hr r eq_refl) as [_ Hr'].
    rewrite pg_read_dense in Hr' by (done || lia). simpl in Hr'. rewrite drop_0, Hc in Hr'. by injection Hr'. }
  exists news. do 4 (split; [done|]). intros w'' r HV. unfold Chain.VerifyStreamChain in HV.
  destruct (call O dp (ReadStream (ap_StreamID p) 0) w') as [w1 [l|e]] eqn:Hr.
  - rewrite (bind_run _ _ _ _ _ Hr) in HV. unfold of_res in HV. injection HV as <- <-. left.
    rewrite (Hread _ _ eq_refl). by apply Chain.verify_loop_ok.
  - rewrite (bind_run_Err _ _ _ _ _ Hr) in HV. injection HV as <- <-. right. eauto.
Qed.

Lemma pg_append_then_read_witness :
  snd (demo_verify demo_w1) = Ok tt /\
  exists news, Forall2 carries (ap_Events (demo_params "acme" 0 [11; 12])) news /\
    Envelope.Version <$> news = [1; 2].
Proof.
  split; [vm_compute; reflexivity|].
  destruct (pg_append_then_read concrete_prims concrete_laws concrete_pg concrete_pg_laws
    demo_oracle demo_dp demo_pg (demo_params "acme" 0 [11; 12]) (mkWorld empty_db 0 0) demo_w1
    (mkAppendResult 1 2 1 2 1700000000000000000) []) as (news & HF & Hv & _).
  - apply empty_pg_ok.
  - reflexivity.
  - reflexivity.
  - exact pg_demo_append_1.
  - simpl. lia.
  - simpl. lia.
  - repeat (constructor; [apply pg_demo_event_ok|]). constructor.
  - exists news. split; [exact HF|exact Hv].
Defined.

(** C12: what the server changes breaks the chain on Postgres.  Append hashes an
    event as it is given, but the time column keeps microseconds and the column
    of the key references keeps JSON in the form of the server.  After a
    successful Append, to an empty stream, of one event whose time is not a whole
    number of microseconds or whose key references are not in that form,
    VerifyStreamChain refuses the stream whenever its read answers, unless the
    encodings of the event that was appended and of the event that is read back,
    which differ, digest alike. *)
Theorem lossy_columns_break_chain (CP : ChainPrims) (CL : ChainLaws CP) (PP : PgPrims)
    (O : Oracle) (dp : Deployment) (a : Adapter) p ev w w' res w1 l :
  db_wf (w_db w) (w_seq w) -> stream_of (w_db w) (ap_StreamID p) = [] ->
  ap_Events p = [ev] -> ap_ExpectedVersion p = 0 -> lossy ev ->
  call O dp (Append a p) w = (w', Ok res) ->
  call O dp (ReadStream (ap_StreamID p) 0) w' = (w1, Ok l) ->
  (exists e, snd (Chain.VerifyStreamChain (fun sid v => call O dp (ReadStream sid v)) (ap_StreamID p) w') = Err e) \/
  exists e c1 c2, l = [e] /\
    Chain.canonicalEnvelopeBytes (chainEnv (ap_StreamID p) (event_version 0 0) ev) = Ok c1 /\
    Chain.canonicalEnvelopeBytes e = Ok c2 /\ c1 <> c2 /\
    sha256 (Chain.ZeroHash ++ c1) = sha256 (Chain.ZeroHash ++ c2).
Proof.
  intros Hwf Hemp Hev Hex Hlossy HA Hr.
  apply PgAppend_Ok in HA as (Hv & _ & Hwf' & prev & rows & orows & Ha & He & _ & _ & _ & _ & _ & _
    & _ & _ & _ & _ & Hprev); [|done].
  fold (stream_of (w_db w) (ap_StreamID p)) in Hprev. rewrite Hemp in Hprev. subst prev.
  rewrite Hev, Hex in Ha. destruct rows as [|row [|? ?]]; [done| |by destruct Ha as (? & _ & ?)].
  pose proof Ha as (h & Hrow & _).
  destruct (pg_appended_columns (ap_StreamID p) 0 [ev] 0 Chain.ZeroHash (w_seq w) [row])
    as (HF & Hvs & _); [lia|lia|simpl; lia|exact Ha|].
  destruct (pg_stream_of_own _ _ (w_db w') (ap_StreamID p) [row] Hwf He HF) as [Hst Hd].
  { unfold dense. by rewrite Hemp. }
  { by rewrite Hemp, Hvs. }
  rewrite Hemp in Hst. unfold Chain.VerifyStreamChain. rewrite (bind_run _ _ _ _ _ Hr). cbn [snd of_res].
  apply PgReadStream_inv in Hr as (_ & _ & Hr); [|done]. destruct (Hr l eq_refl) as [_ Hl].
  rewrite pg_read_dense, Hst in Hl by (done || lia). change (drop (Z.to_nat 0) [row]) with [row] in Hl.
  apply mapR_Forall2, Forall2_cons_inv_l in Hl as (e & l' & Hre & ->%Forall2_nil_inv_l & ->).
  destruct (Chain.verify_loop Chain.ZeroHash [e]) as [[]|er] eqn:Hver; [right|left; by eexists].
  destruct (lossy_row _ _ _ _ _ _ Hrow Hre Hlossy Hver) as (c1 & c2 & ? & ? & ? & ?). by exists e, c1, c2.
Qed.

Lemma lossy_columns_break_chain_witness :
  (exists msg, snd (demo_verify demo_ns) = Err (EWrapPost (ESent ErrChainBroken) msg)) /\
  exists l, snd (demo_call (ReadStream (StreamID.mk "acme" "order" "o") 0) demo_ns) = Ok l /\
  ((exists e, snd (demo_verify demo_ns) = Err e) \/
   exists e c1 c2, l = [e] /\
    Chain.canonicalEnvelopeBytes (chainEnv (StreamID.mk "acme" "order" "o") (event_version 0 0)
      (demo_event 11 1700000000123456789)) = Ok c1 /\
    Chain.canonicalEnvelopeBytes e = Ok c2 /\ c1 <> c2 /\
    sha256 (Chain.ZeroHash ++ c1) = sha256 (Chain.ZeroHash ++ c2)).
Proof.
  split; [eexists; vm_compute; reflexivity|]. eexists. split; [vm_compute; reflexivity|].
  eapply (lossy_columns_break_chain concrete_prims concrete_laws concrete_pg demo_oracle demo_dp
    demo_pg demo_ns_params (demo_event 11 1700000000123456789) (mkWorld empty_db 0 0) demo_ns
    (mkAppendResult 1 1 1 1 1700000000000000000)).
  - apply pg_empty_db_wf.
  - reflexivity.
  - reflexivity.
  - reflexivity.
  - left. discriminate.
  - vm_compute. reflexivity.
  - vm_compute. reflexivity.
Defined.
