(* ===== verification/PgConcurrent.v ===== *)
(** * Concurrent transactions on Postgres

    Many processes share one database.  A cluster is the committed rows, the
    sequence behind global_position, which no rollback takes back, and the open
    transactions, each with what it has written and the advisory locks it holds.
    Transactions run at READ COMMITTED: a statement sees the committed rows and
    the transaction's own writes, which the others see only after the commit.
    A statement that takes an advisory lock waits while another transaction
    holds it.  Row locks only delay statements, so leaving them out allows more
    interleavings than the server has.

    The events are numbered when they are inserted and seen when they are
    committed, and nothing in SQL makes the two orders agree.  The adapter makes
    them agree with one advisory lock (ADR 0009): the theorems show that a
    reader that pages by global_position never skips an event, and that it can
    when the adapters of a database do not share the lock key. *)
From S2P Require Import Prelude Errors Streams Sharding Events Chain Store Projection StateStream Shred CmdWorkflow Sql PgDB PgQueries PgStore PgIsolation.
Import Pg.

Module Cluster.

Record Session := mkSession {
  ss_env : Env;
  ss_writes : list (DB -> DB);
  ss_locks : list Z;
  ss_result : Type;
  ss_body : prog ss_result
}.

Record t := mk { db : DB; seq : Z; open : gmap nat Session }.

Definition empty : t := mk empty_db 0 ∅.

Definition apply_writes (ws : list (DB -> DB)) (d : DB) : DB := fold_left (fun d w => w d) ws d.

(** No other transaction holds the key. *)
Definition lock_free (σ : t) (i : nat) (k : Z) : bool :=
  forallb (fun '(j, s) => bool_decide (j = i) || negb (bool_decide (k ∈ ss_locks s)))
    (map_to_list (open σ)).

Definition may_lock (σ : t) (i : nat) (k : option Z) : bool :=
  match k with None => true | Some k => lock_free σ i k end.

(** [Begin i m]: connection [i] starts the transaction of [m].  [Exec i now]:
    it runs the next statement.  [Fault i msg]: the statement fails.  [Commit i]
    and [Rollback i] end it; a crash is a [Rollback].  [Single e m now]: a method
    that is one statement outside a transaction, with the settings [e]. *)
Inductive action : Type :=
  | Begin (i : nat) {A : Type} (m : Method A)
  | Exec (i : nat) (now : Time)
  | Fault (i : nat) (msg : string)
  | Commit (i : nat)
  | Rollback (i : nat)
  | Single (e : Env) {A : Type} (m : Method A) (now : Time).

Section Act.
Context (dp : Deployment).

Definition begin (i : nat) {A} (m : Method A) (σ : t) : option t :=
  match m, open σ !! i with
  | Tx B tenant body _, None =>
      Some (mk (db σ) (seq σ)
        (<[i := mkSession (tenant_env dp tenant) [] [] B body]> (open σ)))
  | _, _ => None
  end.

(** The next statement of a transaction: the sequence and the transaction after
    it. *)
Definition exec_session (i : nat) (now : Time) (σ : t) (x : Session) : option (Z * Session) :=
  match x with
  | mkSession e ws ks A (PCall _ s k) =>
      if may_lock σ i (s_lock s) then
        let '(q, w, r) := s_run s e now (seq σ) (apply_writes ws (db σ)) in
        Some (q, mkSession e (ws ++ [w]) (option_list (s_lock s) ++ ks) A (k r))
      else None
  | _ => None
  end.

Definition exec_stmt (i : nat) (now : Time) (σ : t) : option t :=
  match open σ !! i with
  | Some x =>
      match exec_session i now σ x with
      | Some (q, x') => Some (mk (db σ) q (<[i := x']> (open σ)))
      | None => None
      end
  | None => None
  end.

Definition fault (i : nat) (msg : string) (σ : t) : option t :=
  match open σ !! i with
  | Some (mkSession e ws ks A (PCall _ s k)) =>
      Some (mk (db σ) (seq σ) (<[i := mkSession e ws ks A (k (Err (ENew msg)))]> (open σ)))
  | _ => None
  end.

Definition commit (i : nat) (σ : t) : option t :=
  match open σ !! i with
  | Some (mkSession _ ws _ _ (PRet (Ok _))) =>
      Some (mk (apply_writes ws (db σ)) (seq σ) (delete i (open σ)))
  | _ => None
  end.

Definition abort (i : nat) (σ : t) : option t :=
  match open σ !! i with
  | Some _ => Some (mk (db σ) (seq σ) (delete i (open σ)))
  | None => None
  end.

Definition single (e : Env) {A} (m : Method A) (now : Time) (σ : t) : option t :=
  match m with
  | Auto _ _ s _ =>
      let '(q, w, _) := s_run s e now (seq σ) (db σ) in Some (mk (w (db σ)) q (open σ))
  | _ => None
  end.

Definition act (x : action) (σ : t) : option t :=
  match x with
  | Begin i m => begin i m σ
  | Exec i now => exec_stmt i now σ
  | Fault i msg => fault i msg σ
  | Commit i => commit i σ
  | Rollback i => abort i σ
  | Single e m now => single e m now σ
  end.

Fixpoint acts (xs : list action) (σ : t) : option t :=
  match xs with
  | [] => Some σ
  | x :: xs' => match act x σ with Some σ' => acts xs' σ' | None => None end
  end.
End Act.
End Cluster.
Import Cluster.

(** Every method of an adapter, for a tenant or across tenants. *)
Inductive adapter_call {CP : ChainPrims} {PP : PgPrims} (a : Postgres.Adapter)
    : forall A : Type, Method A -> Prop :=
  | ac_tenant t A m : tenant_call a t A m -> adapter_call a A m
  | ac_ReadAll pos limit : adapter_call a _ (Postgres.ReadAll a pos limit)
  | ac_List : adapter_call a _ (Postgres.List a)
  | ac_CleanupProcessedEvents name x :
      adapter_call a _ (Postgres.CleanupProcessedEvents a name x)
  | ac_ListStateStreamSubscribers : adapter_call a _ (Postgres.ListStateStreamSubscribers a).

(** ** The log *)

Definition event_key (r : Event) : Z * (string * string * Z) :=
  (ev_global_position r, (ev_tenant_id r, ev_stream_id r, ev_version r)).
Definition event_keys (d : DB) : list (Z * (string * string * Z)) := event_key <$> events d.

(** The committed events, by position. *)
Definition log (σ : Cluster.t) : list (Z * (string * string * Z)) := event_keys (db σ).

Definition log_ok (q : Z) (l : list (Z * (string * string * Z))) : Prop :=
  0 <= q /\ StronglySorted Z.lt (fst <$> l) /\ Forall (fun p => 0 < p <= q) (fst <$> l).

Definition quiet (w : DB -> DB) : Prop := forall d, event_keys (w d) = event_keys d.

Definition quiet_run {A} (q : Z) (x : Z * (DB -> DB) * res A) : Prop :=
  let '(q', w, _) := x in q' = q /\ quiet w.

(** A statement that does not touch the log. *)
Definition quiet_stmt A (s : Stmt A) : Prop :=
  s_lock s = None /\ forall e now q d, quiet_run q (s_run s e now q d).

(** One that may add one event at the next position. *)
Definition writer_run {A} (q : Z) (x : Z * (DB -> DB) * res A) : Prop :=
  let '(q', w, _) := x in
  q <= q' /\ (quiet w \/ exists r, w = push Events r /\ q < ev_global_position r <= q').

Definition writer_stmt A (s : Stmt A) : Prop :=
  s_lock s = None /\ forall e now q d, writer_run q (s_run s e now q d).

(** A transaction that takes [key] before it writes an event. *)
Definition orderly_body (key : Z) {A} (p : prog A) : Prop :=
  prog_all quiet_stmt p \/
  exists k, p = PCall unit (Q.AdvisoryLock key) k /\
    (forall e, prog_all quiet_stmt (k (Err e))) /\ prog_all writer_stmt (k (Ok tt)).

Definition orderly (key : Z) {A} (m : Method A) : Prop :=
  match m with
  | Return _ => True
  | Tx _ _ body _ => orderly_body key body
  | Auto _ _ s _ => quiet_stmt _ s
  end.

Definition orderly_action (key : Z) (x : action) : Prop :=
  match x with
  | Begin _ m | Single _ m _ => orderly key m
  | _ => True
  end.

Lemma quiet_id : quiet id.
Proof. done. Qed.
#[export] Hint Resolve quiet_id : pg.

Lemma prog_all_impl (P P' : forall B, Stmt B -> Prop) {A} (p : prog A) :
  (forall B s, P B s -> P' B s) -> prog_all P p -> prog_all P' p.
Proof. intros HI. induction 1; constructor; auto. Qed.

Lemma quiet_writer A (s : Stmt A) : quiet_stmt A s -> writer_stmt A s.
Proof.
  intros [Hl Hs]. split; [done|]. intros e now q d. specialize (Hs e now q d).
  destruct (s_run s e now q d) as [[q' w] r]. destruct Hs as [-> Hw]. split; [lia|by left].
Qed.

(** ** The statements of the adapter *)
Section Statements.
Context {CP : ChainPrims} {PP : PgPrims}.

Lemma guarded_quiet {A} texts (f : Env -> Time -> Z -> DB -> Z * (DB -> DB) * res A) :
  (forall e now q d, quiet_run q (f e now q d)) -> quiet_stmt A (guarded texts f).
Proof.
  intros Hf. split; [done|]. intros e now q d. unfold guarded, refuse; simpl.
  destruct (forallb pg_text texts); simpl; [|by split].
  destruct (setting_bound e); simpl; [apply Hf|by split].
Qed.

Lemma select_quiet {A} texts (f : DB -> res A) : quiet_stmt A (select texts f).
Proof. apply guarded_quiet. by split. Qed.

Lemma exec_quiet (s : Stmt Z) : quiet_stmt Z s -> quiet_stmt unit (exec s).
Proof.
  intros [Hl Hs]. split; [done|]. intros e now q d. specialize (Hs e now q d). unfold exec; simpl.
  by destruct (s_run s e now q d) as [[q' w] r].
Qed.

(** A table that is not the events table. *)
Class Aside {R} (T : Table R) : Prop := aside : forall l d, events (tb_set T l d) = events d.

#[local] Instance aside_Outbox : Aside OutboxT. Proof. done. Qed.
#[local] Instance aside_UniqueClaims : Aside UniqueClaims. Proof. done. Qed.
#[local] Instance aside_StateCache : Aside StateCacheT. Proof. done. Qed.
#[local] Instance aside_SubjectKeys : Aside SubjectKeys. Proof. done. Qed.
#[local] Instance aside_Checkpoints : Aside Checkpoints. Proof. done. Qed.
#[local] Instance aside_ProjectionDlqs : Aside ProjectionDlqs. Proof. done. Qed.
#[local] Instance aside_Processed : Aside Processed. Proof. done. Qed.
#[local] Instance aside_Subscribers : Aside Subscribers. Proof. done. Qed.
#[local] Instance aside_SubscriberDlqs : Aside SubscriberDlqs. Proof. done. Qed.

Section Aside.
Context {R : Type} (T : Table R) {HT : Aside T}.

Lemma set_quiet (g : DB -> list R) : quiet (fun d => tb_set T (g d) d).
Proof. intros d. unfold event_keys. by rewrite aside. Qed.

Lemma update_quiet texts p f : quiet_stmt Z (update_rows T texts p f).
Proof. apply guarded_quiet. intros e now q d. split; [done|]. apply (set_quiet (fun d => _)). Qed.

Lemma delete_quiet texts p : quiet_stmt Z (delete_rows T texts p).
Proof. apply guarded_quiet. intros e now q d. split; [done|]. apply (set_quiet (fun d => _)). Qed.

Lemma insert_quiet texts p row : quiet_stmt unit (insert_row T texts p row).
Proof.
  apply guarded_quiet. intros e now q d. unfold refuse. repeat case_match; (split; [done|]); [done..|].
  apply (set_quiet (fun d => _)).
Qed.

Lemma upsert_quiet texts p merge row : quiet_stmt unit (upsert T texts p merge row).
Proof.
  apply guarded_quiet. intros e now q d. unfold refuse. repeat case_match; (split; [done|]); [done|].
  intros d'. unfold upsert_row. case_match; [apply (set_quiet (fun d => _))|apply (set_quiet (fun d => _))].
Qed.
End Aside.

Lemma UpsertStateCache_quiet t s u b v x n : quiet_stmt _ (Q.UpsertStateCache t s u b v x n).
Proof.
  apply guarded_quiet. intros e now q d. destruct (pg_jsonb b); [|by split]. apply upsert_quiet; apply _.
Qed.

Lemma MarkOutboxFailed_quiet err next t gp : quiet_stmt _ (Q.MarkOutboxFailed err next t gp).
Proof.
  apply guarded_quiet. intros e now q d. case_match; [by split|].
  apply exec_quiet, update_quiet; apply _.
Qed.

Lemma BackfillEventHash_quiet h ph t id : quiet_stmt _ (Q.BackfillEventHash h ph t id).
Proof.
  apply guarded_quiet. intros e now q d. split; [done|]. intros d'. unfold event_keys, sql_update; simpl.
  induction (events d') as [|r l IH]; [done|]. csimpl. rewrite IH. f_equal. by case_match.
Qed.

Lemma InsertEvent_writer arg : writer_stmt _ (Q.InsertEvent arg).
Proof.
  split; [done|]. intros e now q d. unfold Q.InsertEvent, guarded, refuse. cbn [s_run].
  repeat case_match; try (split; [lia|by left]); simplify_eq.
  unfold Q.insert_event, refuse in *.
  repeat case_match; simplify_eq; (split; [lia|]); [by left..|right]. eexists. split; [done|]. simpl. lia.
Qed.
End Statements.
#[export] Hint Resolve aside_Outbox aside_UniqueClaims aside_StateCache aside_SubjectKeys aside_Checkpoints
  aside_ProjectionDlqs aside_Processed aside_Subscribers aside_SubscriberDlqs : typeclass_instances.

(** ** Every method of the adapter is orderly *)
Section Methods.
Context {CP : ChainPrims} {PP : PgPrims} (a : Postgres.Adapter).

Lemma after_orderly {A B} key (m : Method A) (f : res A -> res B) :
  orderly key m -> orderly key (after m f).
Proof. by destruct m. Qed.

Lemma withTenantTx_orderly {A} key t (s : Stmt A) :
  quiet_stmt A s -> orderly key (Postgres.withTenantTx t (perform s)).
Proof.
  intros Hs. unfold Postgres.withTenantTx. case_bool_decide; [done|]. left. by apply perform_all.
Qed.

Lemma adminDo_orderly {A} key (s : Stmt A) : quiet_stmt A s -> orderly key (Postgres.adminDo a s).
Proof. intros Hs. unfold Postgres.adminDo. by destruct (Postgres.admin a). Qed.

Lemma runForTenant_orderly {A} key t (s : Stmt A) :
  quiet_stmt A s -> orderly key (Postgres.runForTenant a t s).
Proof.
  intros Hs. unfold Postgres.runForTenant.
  case_bool_decide; [by apply adminDo_orderly|by apply withTenantTx_orderly].
Qed.

Lemma appendEvents_writer sid ex evs : forall i prev sp ep rec,
  prog_all writer_stmt (Postgres.appendEvents sid ex i prev sp ep rec evs).
Proof.
  induction evs as [|ev evs IH]; intros i prev sp ep rec; cbn [Postgres.appendEvents]; [constructor|].
  apply pbind_all; [constructor|intros actor].
  apply pbind_all; [constructor|intros h].
  apply pbind_all; [apply pmap_err_all, InsertEvent_writer|intros row].
  apply pbind_all; [apply pmap_err_all, quiet_writer, insert_quiet; apply _|intros _]. apply IH.
Qed.

Lemma appendTx_orderly p : orderly_body (Postgres.lockKey a) (Postgres.appendTx a p).
Proof.
  right. unfold Postgres.appendTx, pmap_err. eexists. split; [reflexivity|]. split.
  { intros e. constructor. }
  cbn [pbind on_err]. apply pbind_all; [|intros _].
  { apply pforM_all. intros op. unfold Postgres.applyConstraint.
    destruct (co_Op op =? ClaimConstraint); [apply pmap_err_all, quiet_writer, insert_quiet; apply _|].
    destruct (co_Op op =? ReleaseConstraint); [|constructor].
    apply pmap_err_all, quiet_writer, exec_quiet, delete_quiet; apply _. }
  apply pbind_all; [|intros prev].
  { unfold Postgres.readPrevHash. apply pbind_all.
    - constructor; [apply quiet_writer, select_quiet|]. constructor.
    - intros [[[|b h]|]|e]; try constructor. destruct (errors_Is e ErrNoRows); constructor. }
  apply pbind_all; [apply appendEvents_writer|intros pos].
  apply pbind_all; [|constructor]. unfold Postgres.writeStateCache.
  destruct (ap_NewStateBytes p); [apply pmap_err_all, quiet_writer, UpsertStateCache_quiet|constructor].
Qed.

Ltac orderly_call :=
  repeat first
    [ apply after_orderly | apply runForTenant_orderly | apply withTenantTx_orderly
    | apply adminDo_orderly ];
  first
    [ apply UpsertStateCache_quiet | apply MarkOutboxFailed_quiet | apply BackfillEventHash_quiet
    | apply select_quiet
    | apply exec_quiet; first [apply delete_quiet; apply _|apply update_quiet; apply _]
    | apply delete_quiet; apply _ | apply update_quiet; apply _ | apply upsert_quiet; apply _ ].

Lemma adapter_orderly A (m : Method A) : adapter_call a A m -> orderly (Postgres.lockKey a) m.
Proof.
  destruct 1 as [t A m Hm| | | |]; [destruct Hm|..]; try solve [orderly_call].
  - unfold Postgres.Append. destruct (StreamID.Validate _); [done|].
    destruct (ap_Events p); [done|]. apply appendTx_orderly.
  - unfold Postgres.ReadStream. destruct (StreamID.Validate _); [done|]. orderly_call.
  - unfold Postgres.CurrentStreamVersion. destruct (StreamID.Validate _); [done|]. orderly_call.
  - unfold Postgres.WipeStateCacheForType. case_bool_decide; orderly_call.
  - unfold Postgres.QuarantinedStreams. case_bool_decide; orderly_call.
  - unfold Postgres.InsertSubscriberDLQ. destruct (CmdWorkflow.sr_EventIDs row); [done|]. orderly_call.
Qed.
End Methods.

(** ** The invariant of a cluster *)

Definition extends (ws : list (DB -> DB)) (news : list (Z * (string * string * Z))) : Prop :=
  forall d, event_keys (apply_writes ws d) = event_keys d ++ news.

(** An open transaction has drafted [news], which fit behind the committed log;
    if there are any, or may be any later, it holds the lock or has yet to take
    it. *)
Definition session_ok (key : Z) (σ : Cluster.t) (s : Session) : Prop :=
  exists news, extends (ss_writes s) news /\ log_ok (seq σ) (log σ ++ news) /\
    (key ∈ ss_locks s /\ prog_all writer_stmt (ss_body s) \/
     news = [] /\ orderly_body key (ss_body s)).

Record cluster_ok (key : Z) (σ : Cluster.t) : Prop := mkClusterOk {
  co_log : log_ok (seq σ) (log σ);
  co_sessions : forall i s, open σ !! i = Some s -> session_ok key σ s;
  co_lock : forall i j s s', open σ !! i = Some s -> open σ !! j = Some s' ->
    key ∈ ss_locks s -> key ∈ ss_locks s' -> i = j
}.

Lemma empty_ok key : cluster_ok key Cluster.empty.
Proof. split; simpl; [split; [lia|split; constructor]|done|done]. Qed.

Lemma log_ok_mono q q' l : q <= q' -> log_ok q l -> log_ok q' l.
Proof.
  intros Hq (H0 & Hs & Hb). split; [lia|]. split; [done|]. eapply Forall_impl; [exact Hb|]. simpl. lia.
Qed.

Lemma log_ok_snoc q q' l k : log_ok q l -> q < fst k <= q' -> log_ok q' (l ++ [k]).
Proof.
  intros (H0 & Hs & Hb) Hk. unfold log_ok. rewrite fmap_app. split; [lia|]. split.
  - apply StronglySorted_app; [done|repeat constructor|]. intros x y Hx Hy%list_elem_of_singleton.
    subst y. rewrite Forall_forall in Hb. specialize (Hb x Hx). simpl in *. lia.
  - apply Forall_app. split; [|repeat constructor; simpl; lia].
    eapply Forall_impl; [exact Hb|]. simpl. lia.
Qed.

Lemma apply_writes_snoc ws w d : apply_writes (ws ++ [w]) d = w (apply_writes ws d).
Proof. unfold apply_writes. by rewrite fold_left_app. Qed.

Lemma extends_quiet ws w news : extends ws news -> quiet w -> extends (ws ++ [w]) news.
Proof. intros He Hw d. by rewrite apply_writes_snoc, Hw. Qed.

Lemma extends_push ws r news : extends ws news -> extends (ws ++ [push Events r]) (news ++ [event_key r]).
Proof.
  intros He d. rewrite apply_writes_snoc. unfold event_keys, push. simpl. rewrite fmap_app.
  rewrite app_assoc. f_equal. apply He.
Qed.

Lemma session_ok_mono key d q q' o o' s :
  q <= q' -> session_ok key (mk d q o) s -> session_ok key (mk d q' o') s.
Proof. intros Hq (news & ? & ? & ?). exists news. split; [done|]. split; [by eapply log_ok_mono|done]. Qed.

Lemma lock_free_spec σ i k :
  lock_free σ i k = true -> forall j s, open σ !! j = Some s -> k ∈ ss_locks s -> j = i.
Proof.
  intros H j s Hj Hk. unfold lock_free in H. rewrite forallb_forall in H.
  specialize (H (j, s)). specialize (H (proj1 (list_elem_of_In _ _) (proj2 (elem_of_map_to_list _ _ _) Hj))). simpl in H. apply orb_true_iff in H as [H|H]; by bool_to_prop.
Qed.

Lemma prog_all_inv P A (p : prog A) :
  prog_all P p ->
  match p with PRet _ => True | PCall B s k => P B s /\ forall r, prog_all P (k r) end.
Proof. by destruct 1. Qed.

Lemma prog_all_orderly key A (p : prog A) : prog_all quiet_stmt p -> orderly_body key p.
Proof. by left. Qed.

(** One statement, by its place in the protocol. *)
Lemma exec_session_ok key i now σ s q s' :
  session_ok key σ s -> exec_session i now σ s = Some (q, s') ->
  seq σ <= q /\ session_ok key (mk (db σ) q (open σ)) s' /\
  (key ∈ ss_locks s' -> key ∈ ss_locks s \/ lock_free σ i key = true).
Proof.
  intros (news & He & Hl & Hp). destruct s as [e ws ks A p]. cbn [ss_writes ss_locks ss_body] in *.
  destruct Hp as [[Hk Hp%prog_all_inv]|[-> [Hp%prog_all_inv|(k & -> & Hk1 & Hk2)]]].
  - destruct p as [r|B st k]; [done|]. destruct Hp as [[Hlk Hs] Hks]. simpl. rewrite Hlk. simpl.
    specialize (Hs e now (seq σ) (apply_writes ws (db σ))).
    destruct (s_run st e now (seq σ) _) as [[q' w] r]. destruct Hs as [Hq Hw]. intros [= <- <-].
    split; [done|]. split; [|intros; by left]. destruct Hw as [Hw|(row & -> & Hrow)].
    + exists news. split; [by apply extends_quiet|]. split; [by eapply log_ok_mono|].
      left. split; [done|apply Hks].
    + exists (news ++ [event_key row]). split; [by apply extends_push|].
      split; [|left; split; [done|apply Hks]].
      rewrite app_assoc. by eapply log_ok_snoc.
  - destruct p as [r|B st k]; [done|]. destruct Hp as [[Hlk Hs] Hks]. simpl. rewrite Hlk. simpl.
    specialize (Hs e now (seq σ) (apply_writes ws (db σ))).
    destruct (s_run st e now (seq σ) _) as [[q' w] r]. destruct Hs as [-> Hw]. intros [= <- <-].
    split; [done|]. split; [|intros; by left]. exists []. split; [by apply extends_quiet|]. split; [done|].
    right. split; [done|]. apply prog_all_orderly, Hks.
  - simpl. destruct (lock_free σ i key) eqn:Hf; [|done]. intros [= <- <-]. split; [done|].
    split; [|intros; by right]. exists []. split; [by apply extends_quiet|]. split; [done|].
    left. split; [set_solver|done].
Qed.

Lemma fault_session_ok key σ e ws ks A B (s : Stmt B) k msg :
  session_ok key σ (mkSession e ws ks A (PCall B s k)) ->
  session_ok key σ (mkSession e ws ks A (k (Err (ENew msg)))).
Proof.
  intros (news & He & Hl & Hp). exists news. split; [done|]. split; [done|].
  cbn [ss_writes ss_locks ss_body] in *.
  destruct Hp as [[Hk Hp%prog_all_inv]|[-> Hp]]; [left; by destruct Hp as [_ Hp]|right].
  split; [done|]. left. destruct Hp as [Hp%prog_all_inv|(k' & E & Hk1 & _)]; [apply Hp|].
  change (k (Err (ENew msg))) with
    (match PCall B s k with PRet r => PRet r | PCall _ _ k => k (Err (ENew msg)) end).
  rewrite E. apply Hk1.
Qed.

Lemma open_insert_ok key d q q' o i s' :
  cluster_ok key (mk d q o) -> q <= q' -> session_ok key (mk d q' o) s' ->
  (key ∈ ss_locks s' -> forall j s, o !! j = Some s -> key ∈ ss_locks s -> j = i) ->
  cluster_ok key (mk d q' (<[i := s']> o)).
Proof.
  intros [Hl Hs Hk] Hq' Hs' Hk'. simpl in *. split; simpl.
  - by eapply log_ok_mono.
  - intros j s [[<- <-]|[Hne Hj]]%lookup_insert_Some.
    + by eapply (session_ok_mono key d q' q').
    + eapply (session_ok_mono key d q q'); [done|]. by eapply Hs.
  - intros j1 j2 s1 s2 H1 H2 K1 K2.
    apply lookup_insert_Some in H1 as [[<- <-]|[_ H1]], H2 as [[<- <-]|[_ H2]]; eauto; symmetry; eauto.
Qed.

Lemma open_delete_ok key d q o i : cluster_ok key (mk d q o) -> cluster_ok key (mk d q (delete i o)).
Proof.
  intros [Hl Hs Hk]. split; simpl in *; [done| |].
  - intros j s [_ Hj]%lookup_delete_Some. by eapply session_ok_mono, Hs.
  - intros j1 j2 s1 s2 [_ H1]%lookup_delete_Some [_ H2]%lookup_delete_Some. eauto.
Qed.

(** The log grows by the drafts of the transaction that holds the lock; the
    others have none. *)
Lemma commit_ok key d q o i e ws ks A p :
  cluster_ok key (mk d q o) -> o !! i = Some (mkSession e ws ks A p) ->
  exists news, event_keys (apply_writes ws d) = event_keys d ++ news /\
    cluster_ok key (mk (apply_writes ws d) q (delete i o)).
Proof.
  intros Hok Hi. pose proof Hok as [Hl Hs Hk]. simpl in *.
  destruct (Hs i _ Hi) as (news & He & Hl' & Hp). simpl in *. exists news. split; [apply He|].
  assert (Hlog : forall o, log (mk (apply_writes ws d) q o) = event_keys d ++ news) by (intros; apply He).
  split; simpl; [by rewrite Hlog| |].
  - intros j s [Hne Hj]%lookup_delete_Some. destruct (Hs j s Hj) as (news' & He' & Hl2 & Hp').
    exists news'. split; [done|]. rewrite Hlog. simpl in *. split; [|done].
    destruct Hp' as [[Hk' _]|[-> _]]; [|by rewrite app_nil_r].
    destruct Hp as [[Hk'' _]|[-> _]]; [|by rewrite app_nil_r]. destruct Hne. eauto.
  - intros j1 j2 s1 s2 [_ H1]%lookup_delete_Some [_ H2]%lookup_delete_Some. eauto.
Qed.

Lemma quiet_single_ok key d q o w :
  quiet w -> cluster_ok key (mk d q o) -> cluster_ok key (mk (w d) q o).
Proof.
  intros Hw [Hl Hs Hk]. assert (Hlog : log (mk (w d) q o) = log (mk d q o)) by apply Hw.
  split; simpl in *; [by rewrite Hlog| |done].
  intros j s Hj. destruct (Hs j s Hj) as (news & ? & ? & ?). exists news. by rewrite Hlog.
Qed.

Lemma act_ok dp key x σ σ' :
  orderly_action key x -> cluster_ok key σ -> act dp x σ = Some σ' ->
  cluster_ok key σ' /\ exists news, log σ' = log σ ++ news.
Proof.
  intros Hx Hok. destruct σ as [d q o].
  assert (Hsame : forall q' o', exists news, log (mk d q' o') = log (mk d q o) ++ news).
  { intros q' o'. exists []. by rewrite app_nil_r. }
  destruct x as [i A m|i now|i msg|i|i|e A m now]; simpl; unfold begin, exec_stmt, fault, commit, abort, single; simpl.
  - destruct m as [|B tn body post|]; [done| |done]. destruct (o !! i) eqn:Hi; [done|]. intros [= <-].
    split; [|apply Hsame]. apply open_insert_ok with q; [done|done| |set_solver].
    exists []. split; [intros d'; by rewrite app_nil_r|]. rewrite app_nil_r. split; [apply Hok|].
    by right.
  - destruct (o !! i) as [s|] eqn:Hi; [|done].
    destruct (exec_session i now _ s) as [[q' s']|] eqn:He; [|done]. intros [= <-].
    destruct (exec_session_ok key i now (mk d q o) s q' s') as (Hq & Hs' & Hk); [by eapply co_sessions|done|].
    split; [|apply Hsame]. eapply open_insert_ok; [done|done|done|].
    intros [Hin|Hf]%Hk j s2 Hj Hj2; [by eapply (co_lock key _ Hok)|].
    by eapply (lock_free_spec _ _ _ Hf).
  - destruct (o !! i) as [[e ws ks A [r|B s k]]|] eqn:Hi; [done| |done]. intros [= <-].
    split; [|apply Hsame]. eapply open_insert_ok; [done|done| |].
    + eapply fault_session_ok, co_sessions; [done|exact Hi].
    + intros Hk j s2 Hj Hj2. by eapply (co_lock key _ Hok).
  - destruct (o !! i) as [[e ws ks A [[r|]|B s k]]|] eqn:Hi; [|done..]. intros [= <-].
    destruct (commit_ok key d q o i e ws ks A _ Hok Hi) as (news & Hn & Hc). eauto.
  - destruct (o !! i); [|done]. intros [= <-]. split; [by apply open_delete_ok|apply Hsame].
  - destruct m as [| |B pool s post]; [done|done|]. destruct Hx as [_ Hs]. specialize (Hs e now q d).
    destruct (s_run s e now q d) as [[q' w] r]. destruct Hs as [-> Hw]. intros [= <-].
    split; [by apply quiet_single_ok|]. exists []. rewrite app_nil_r. apply Hw.
Qed.

Lemma acts_ok dp key xs : forall σ σ',
  Forall (orderly_action key) xs -> cluster_ok key σ -> acts dp xs σ = Some σ' ->
  cluster_ok key σ' /\ exists news, log σ' = log σ ++ news.
Proof.
  induction xs as [|x xs IH]; intros σ σ' Hxs Hok; simpl.
  - intros [= <-]. split; [done|]. exists []. by rewrite app_nil_r.
  - apply Forall_cons in Hxs as [Hx Hxs]. destruct (act dp x σ) as [σ1|] eqn:Ha; [|done].
    destruct (act_ok dp key x σ σ1 Hx Hok Ha) as [Hok1 [n1 H1]]. intros Hr.
    destruct (IH σ1 σ' Hxs Hok1 Hr) as [Hok' [n2 H2]]. split; [done|].
    exists (n1 ++ n2). by rewrite H2, H1, app_assoc.
Qed.

(** ** Readers *)

(** A reader pages through the log: it asks for the rows after its cursor, then
    moves the cursor to the last of them.  [plan] says what happens in the
    cluster before each of its polls, and how many rows it asks for.  A poll that
    fails is one that is left out. *)
Definition poll (e : Env) (limit : Z) (σ : Cluster.t) (cursor : Z) : list Event :=
  match s_run (Q.ReadAllFromPosition cursor limit) e 0 (seq σ) (db σ) with
  | (_, _, Ok rows) => rows
  | (_, _, Err _) => []
  end.

Fixpoint follow (dp : Deployment) (e : Env) (plan : list (list action * Z)) (σ : Cluster.t)
    (cursor : Z) (seen : list Event) : option (Cluster.t * Z * list Event) :=
  match plan with
  | [] => Some (σ, cursor, seen)
  | (xs, limit) :: plan' =>
      match acts dp xs σ with
      | None => None
      | Some σ' =>
          let rows := poll e limit σ' cursor in
          follow dp e plan' σ' (default cursor (last (ev_global_position <$> rows))) (seen ++ rows)
      end
  end.

Definition upto (c : Z) (l : list (Z * (string * string * Z))) := List.filter (fun k => fst k <=? c) l.
Definition beyond (c : Z) (l : list (Z * (string * string * Z))) := List.filter (fun k => c <? fst k) l.

Lemma upto_all c l : Forall (fun p => p <= c) (fst <$> l) -> upto c l = l.
Proof.
  intros H. apply filter_all. rewrite Forall_fmap in H. eapply Forall_impl; [exact H|].
  intros k Hk. by apply Z.leb_le.
Qed.

Lemma upto_none c l : Forall (fun p => c < p) (fst <$> l) -> upto c l = [].
Proof.
  intros H. apply filter_none. rewrite Forall_fmap in H. eapply Forall_impl; [exact H|].
  intros k Hk. by apply Z.leb_gt.
Qed.

Lemma upto_beyond c l : StronglySorted Z.lt (fst <$> l) -> l = upto c l ++ beyond c l.
Proof.
  induction l as [|k l IH]; [done|]. csimpl. intros [Hs Hf]%StronglySorted_inv.
  destruct (Z.leb_spec (fst k) c), (Z.ltb_spec c (fst k)); try lia.
  - simpl. by rewrite <- IH.
  - fold (upto c l). rewrite upto_none; simpl.
    + f_equal. symmetry. apply filter_all. rewrite Forall_fmap in Hf. eapply Forall_impl; [exact Hf|].
      intros k' Hk. apply Z.ltb_lt. simpl in *. lia.
    + eapply Forall_impl; [exact Hf|]. simpl. lia.
Qed.

Lemma beyond_gt c l : Forall (fun p => c < p) (fst <$> beyond c l).
Proof.
  apply Forall_fmap, Forall_forall. intros k Hk%list_elem_of_In%filter_In. simpl. lia.
Qed.

(** One page: what was seen, up to the cursor, and the rows of the page are what
    there is up to the new cursor. *)
Lemma page_complete c n l :
  StronglySorted Z.lt (fst <$> l) ->
  upto c l ++ take n (beyond c l) =
    upto (default c (last (fst <$> take n (beyond c l)))) l.
Proof.
  intros Hs. pose proof (upto_beyond c l Hs) as E.
  set (B := take n (beyond c l)).
  assert (Hl : l = upto c l ++ B ++ drop n (beyond c l)).
  { unfold B. by rewrite take_drop. }
  destruct (last (fst <$> B)) as [c'|] eqn:Hc; simpl.
  2: { apply last_None, fmap_nil_inv in Hc. rewrite Hc. by rewrite app_nil_r. }
  apply last_Some in Hc as [ps Hps]. rewrite Hl in Hs.
  rewrite !fmap_app, Hps in Hs.
  apply StronglySorted_app_inv in Hs as (_ & Hs & Hlt).
  apply StronglySorted_app_inv in Hs as (Hs1 & _ & Hlt2).
  apply StronglySorted_app_inv in Hs1 as (_ & _ & Hlt1).
  transitivity (upto c' (upto c l ++ B ++ drop n (beyond c l))); [|by rewrite <- Hl].
  unfold upto at 2. rewrite !List.filter_app.
  fold (upto c' (upto c l)) (upto c' B) (upto c' (drop n (beyond c l))).
  rewrite (upto_all c' (upto c l)), (upto_all c' B), (upto_none c' (drop _ _)), app_nil_r; [done|..].
  - apply Forall_forall. intros p Hp. apply Hlt2; [set_solver|done].
  - rewrite Hps. apply Forall_app. split; [|repeat constructor; lia]. apply Forall_forall. intros p Hp.
    apply Z.lt_le_incl, Hlt1; [done|set_solver].
  - apply Forall_forall. intros p Hp. apply Z.lt_le_incl, Hlt; set_solver.
Qed.

Lemma filter_keys (f : Z -> bool) rows :
  event_key <$> List.filter (fun r => f (ev_global_position r)) rows =
  List.filter (fun k => f (fst k)) (event_key <$> rows).
Proof. induction rows as [|r rows IH]; [done|]. csimpl. case_match; csimpl; by rewrite IH. Qed.

Lemma keys_sorted rows :
  StronglySorted Z.lt (fst <$> (event_key <$> rows)) ->
  StronglySorted (fun a b => ev_global_position a < ev_global_position b) rows.
Proof.
  induction rows as [|r rows IH]; csimpl; intros H; [constructor|].
  apply StronglySorted_inv in H as [Hs Hf]. constructor; [by apply IH|].
  by rewrite !Forall_fmap in Hf.
Qed.

Lemma poll_keys {PP : PgPrims} e limit σ c :
  enforced e = false -> 0 <= limit -> StronglySorted Z.lt (fst <$> log σ) ->
  event_key <$> poll e limit σ c = take (Z.to_nat limit) (beyond c (log σ)).
Proof.
  intros He Hl Hs. unfold poll. cbn [s_run Q.ReadAllFromPosition select_limit select guarded forallb negb].
  unfold setting_bound. rewrite He. cbn [negb orb]. rewrite restrict_free by done.
  destruct (Z.ltb_spec limit 0); [lia|]. rewrite order_by_id.
  - rewrite fmap_take. f_equal. apply (filter_keys (fun p => c <? p)).
  - apply StronglySorted_lfilter. by apply keys_sorted.
Qed.

(** The cursor of a reader that starts at 0. *)
Definition cursor_ok (c : Z) (σ : Cluster.t) : Prop := c = 0 \/ c ∈ fst <$> log σ.

Lemma cursor_behind c q l news : (c = 0 \/ c ∈ fst <$> l) -> log_ok q (l ++ news) -> upto c (l ++ news) = upto c l.
Proof.
  intros Hc (_ & Hs & Hb). unfold upto at 1. rewrite List.filter_app. fold (upto c l) (upto c news).
  rewrite (upto_none c news), app_nil_r; [done|]. rewrite fmap_app in Hs, Hb.
  apply Forall_app in Hb as [_ Hb]. apply Forall_forall. intros p Hp. destruct Hc as [->|Hc].
  - rewrite Forall_forall in Hb. by apply Hb.
  - apply StronglySorted_app_inv in Hs as (_ & _ & Hlt). by apply Hlt.
Qed.

Lemma poll_cursor c n σ : cursor_ok c σ -> cursor_ok (default c (last (fst <$> take n (beyond c (log σ))))) σ.
Proof.
  intros Hc. destruct (last _) as [c'|] eqn:Hl; [|done]. right. simpl. apply last_Some_elem_of in Hl.
  apply list_elem_of_fmap in Hl as (k & -> & Hk). apply list_elem_of_fmap. exists k. split; [done|].
  apply elem_of_take in Hk as (i & Hk & _). apply list_elem_of_lookup_2 in Hk.
  apply list_elem_of_In in Hk. apply list_elem_of_In. by apply filter_In in Hk as [? _].
Qed.

Lemma follow_ok {PP : PgPrims} dp key e plan : forall σ c seen σ' c' seen',
  enforced e = false -> Forall (fun x => Forall (orderly_action key) (fst x) /\ 0 <= snd x) plan ->
  cluster_ok key σ -> cursor_ok c σ -> event_key <$> seen = upto c (log σ) ->
  follow dp e plan σ c seen = Some (σ', c', seen') ->
  cluster_ok key σ' /\ cursor_ok c' σ' /\ event_key <$> seen' = upto c' (log σ') /\
  exists news, log σ' = log σ ++ news.
Proof.
  induction plan as [|[xs limit] plan IH]; intros σ c seen σ' c' seen' He HF Hok Hc Hseen; simpl.
  { intros [= <- <- <-]. split; [done|]. split; [done|]. split; [done|]. exists []. by rewrite app_nil_r. }
  apply Forall_cons in HF as [[Hxs Hl] HF]. simpl in *.
  destruct (acts dp xs σ) as [σ1|] eqn:Ha; [|done].
  destruct (acts_ok dp key xs σ σ1 Hxs Hok Ha) as [Hok1 [n1 H1]]. intros Hf.
  pose proof (co_log key σ1 Hok1) as Hlog. pose proof Hlog as (_ & Hs & _).
  pose proof (poll_keys e limit σ1 c He Hl Hs) as Hp.
  assert (Hpos : ev_global_position <$> poll e limit σ1 c = fst <$> take (Z.to_nat limit) (beyond c (log σ1))).
  { rewrite <- Hp, <- list_fmap_compose. done. }
  assert (Hc1 : cursor_ok c σ1).
  { destruct Hc as [->|Hc]; [by left|right]. rewrite H1, fmap_app. apply elem_of_app. by left. }
  rewrite Hpos in Hf. apply IH in Hf as (? & ? & ? & [n2 H2]).
  - split; [done|]. split; [done|]. split; [done|]. exists (n1 ++ n2). by rewrite H2, H1, app_assoc.
  - done.
  - done.
  - done.
  - by apply poll_cursor.
  - rewrite fmap_app, Hseen, Hp, <- page_complete by done. f_equal.
    rewrite H1 in Hlog |- *. symmetry. by eapply cursor_behind.
Qed.

(** ** Theorems *)

(** What happens in the cluster: methods of adapters with the lock key [key]. *)
Definition adapter_action {CP : ChainPrims} {PP : PgPrims} (key : Z) (x : action) : Prop :=
  match x with
  | @Begin _ A m | @Single _ A m _ => exists a, Postgres.lockKey a = key /\ adapter_call a A m
  | _ => True
  end.

Lemma adapter_action_orderly {CP : ChainPrims} {PP : PgPrims} key x :
  adapter_action key x -> orderly_action key x.
Proof.
  destruct x; simpl; try done.
  - intros (a & <- & Hm). by apply adapter_orderly.
  - intros (a & <- & Hm). by apply adapter_orderly.
Qed.

(** Events are committed in the order of their positions: whatever is committed
    later has higher positions than everything committed before. *)
Lemma commits_in_order (CP : ChainPrims) (PP : PgPrims) (dp : Deployment) key xs ys σ σ' :
  Forall (adapter_action key) xs -> Forall (adapter_action key) ys ->
  acts dp xs Cluster.empty = Some σ -> acts dp ys σ = Some σ' ->
  exists news, log σ' = log σ ++ news /\
    forall k k', k ∈ log σ -> k' ∈ news -> fst k < fst k'.
Proof.
  intros Hx Hy Hr1 Hr2.
  destruct (acts_ok dp key xs Cluster.empty σ) as [Hok _];
    [by eapply Forall_impl; [exact Hx|apply adapter_action_orderly]|apply empty_ok|done|].
  destruct (acts_ok dp key ys σ σ') as [Hok' [news Hn]];
    [by eapply Forall_impl; [exact Hy|apply adapter_action_orderly]|done|done|].
  exists news. split; [done|]. intros k k' Hk Hk'.
  pose proof (co_log key σ' Hok') as (_ & Hs & _). rewrite Hn, fmap_app in Hs.
  apply StronglySorted_app_inv in Hs as (_ & _ & Hlt). apply Hlt; by apply list_elem_of_fmap_2.
Qed.

#[local] Existing Instances concrete_prims concrete_pg.

Definition demo_append (a : Postgres.Adapter) (tenant : string) (id : UUID) : Method AppendResult :=
  Postgres.Append a (demo_params tenant 0 [id]).

(** The four statements of an Append of one event. *)
Definition exec_append (i : nat) : list action := replicate 4 (Exec i 1700000000000000000).

(** Connection 2 starts its Append first and numbers its event, but rolls back;
    connection 1 commits; the reader polls; connection 3 commits; the reader
    polls again. *)
Definition demo_plan : list (list action * Z) :=
  [([Begin 1 (demo_append demo_pg "acme" 11); Begin 2 (demo_append demo_pg "bob" 12)]
      ++ exec_append 2 ++ [Rollback 2] ++ exec_append 1 ++ [Commit 1], 10);
   ([Begin 3 (demo_append demo_pg "eve" 13)] ++ exec_append 3 ++ [Commit 3], 10)].

Definition admin_env : Env := mkEnv true true None.

Definition demo_follow := follow demo_dp admin_env demo_plan Cluster.empty 0 [].

Lemma demo_begin_ok i t id : adapter_action (Postgres.lockKey demo_pg) (Begin i (demo_append demo_pg t id)).
Proof. exists demo_pg. split; [reflexivity|]. apply (ac_tenant _ t). by constructor. Qed.

Lemma exec_append_ok key i : Forall (adapter_action key) (exec_append i).
Proof. by apply Forall_replicate. Qed.

Lemma demo_plan_ok :
  Forall (fun x => Forall (adapter_action (Postgres.lockKey demo_pg)) (fst x) /\ 0 <= snd x) demo_plan.
Proof.
  apply Forall_cons. split; [split; [|done]|apply Forall_cons; split; [split; [|done]|constructor]]; cbn [fst].
  - rewrite !Forall_app, !Forall_cons.
    repeat split; try apply exec_append_ok; try apply demo_begin_ok; constructor.
  - rewrite !Forall_app, !Forall_cons.
    repeat split; try apply exec_append_ok; try apply demo_begin_ok; constructor.
Qed.

(** Two adapters with different lock keys on one database: connection 1 numbers
    its event, connection 2 numbers the next one and commits, the reader sees it
    and moves on, then connection 1 commits. *)
Definition split_keys : list (list action * Z) :=
  let a1 := Postgres.New [Postgres.WithLockKey 1] in
  let a2 := Postgres.New [Postgres.WithLockKey 2] in
  [([Begin 1 (demo_append a1 "acme" 11); Begin 2 (demo_append a2 "bob" 12)]
      ++ exec_append 1 ++ exec_append 2 ++ [Commit 2], 10);
   ([Commit 1], 10)].

(** The reader never sees the event of connection 1. *)
Lemma split_lock_keys_skip :
  match follow demo_dp admin_env split_keys Cluster.empty 0 [] with
  | Some (σ, cursor, seen) =>
      log σ = [(2, ("bob", "order:o", 1)); (1, ("acme", "order:o", 1))] /\ cursor = 2 /\
      event_key <$> seen = [(2, ("bob", "order:o", 1))]
  | None => False
  end.
Proof. vm_compute. repeat split. Qed.

(** With one lock key, the Append that would overtake has to wait. *)
Lemma overtaking_waits :
  acts demo_dp ([Begin 1 (demo_append demo_pg "acme" 11); Begin 2 (demo_append demo_pg "bob" 12);
    Exec 1 0; Exec 2 0]) Cluster.empty = None.
Proof. vm_compute. reflexivity. Qed.

(** C3: readers on Postgres do not skip events.  Any number of processes call
    any methods of adapters that share one lock key, their statements interleave
    in any way, statements fail, transactions roll back and connections die; a
    reader starts at position 0 and pages through the log with its cursor.  At
    any time the rows it has received are exactly the committed events up to its
    cursor, each once and in order, although positions are drawn before the
    commit and rolled-back ones leave holes; one more page that is large enough
    gives it everything that is committed. *)
Theorem reader_never_skips (CP : ChainPrims) (PP : PgPrims) (dp : Deployment) (e : Env) key plan
    σ cursor seen :
  enforced e = false ->
  Forall (fun x => Forall (adapter_action key) (fst x) /\ 0 <= snd x) plan ->
  follow dp e plan Cluster.empty 0 [] = Some (σ, cursor, seen) ->
  event_key <$> seen = upto cursor (log σ) /\
  forall limit, Z.of_nat (length (log σ)) <= limit ->
    event_key <$> (seen ++ poll e limit σ cursor) = log σ.
Proof.
  intros He HF Hf. destruct (follow_ok dp key e plan Cluster.empty 0 [] σ cursor seen) as (Hok & _ & Hs & _).
  - done.
  - eapply Forall_impl; [exact HF|]. intros x [Hx Hl]. split; [|done].
    eapply Forall_impl; [exact Hx|apply adapter_action_orderly].
  - apply empty_ok.
  - by left.
  - done.
  - done.
  - split; [done|]. intros limit Hl. pose proof (co_log key σ Hok) as (_ & Hsort & _).
    rewrite fmap_app, Hs, poll_keys by (done || lia). rewrite take_ge.
    + symmetry. by apply upto_beyond.
    + pose proof (upto_beyond cursor (log σ) Hsort) as E. apply (f_equal length) in E.
      rewrite length_app in E. lia.
Qed.

Lemma demo_follow_seen :
  match demo_follow with
  | Some (_, _, seen) => event_key <$> seen = [(2, ("acme", "order:o", 1)); (3, ("eve", "order:o", 1))]
  | None => False
  end.
Proof. vm_compute. reflexivity. Qed.

Lemma reader_never_skips_witness :
  exists σ cursor seen, demo_follow = Some (σ, cursor, seen) /\
    event_key <$> seen = upto cursor (log σ) /\
    event_key <$> seen = [(2, ("acme", "order:o", 1)); (3, ("eve", "order:o", 1))].
Proof.
  pose proof demo_follow_seen as Hseen.
  destruct demo_follow as [[[σ cursor] seen]|] eqn:Hf; [|destruct Hseen].
  exists σ, cursor, seen. split; [reflexivity|]. split.
  - refine (proj1 (reader_never_skips concrete_prims concrete_pg demo_dp admin_env
      (Postgres.lockKey demo_pg) demo_plan σ cursor seen eq_refl demo_plan_ok Hf)).
  - exact Hseen.
Defined.
