(* ===== verification/PgConformance.v ===== *)
(** * A run of the conformance suite on Postgres

    The suite of estest/conformance.go on an empty database with row-level
    security, evaluated. *)
From S2P Require Import Prelude Errors Streams Events Chain Store Sql PgDB PgQueries PgStore PgIsolation PgFacts PgStream PgAggregate Conformance.

Import Pg Postgres.
#[local] Existing Instances concrete_prims concrete_pg.

(** Every test passes; the refused Append of the concurrency test drew a position
    in vain. *)
Lemma pg_suite_passes :
  let t := Suite.RunStoreConformance (pg_store demo_oracle demo_dp demo_pg) Z.of_nat (fun _ => 1700000000123456789)
             (Suite.mkT (mkWorld empty_db 0 0) 0 0 false) in
  Suite.t_failed t = false /\ length (events (w_db (Suite.t_world t))) = 21%nat /\ w_seq (Suite.t_world t) = 22.
Proof. vm_compute. split_and!; reflexivity. Qed.
