(* ===== verification/SqliteDB.v ===== *)
(** * The SQLite database under the adapter
      (adapters/storage/sqlite/migrations, queries, internal/db)

    The tables of the schema, the queries sqlc generates for them, and the
    world they run in.  Each query is one statement of internal/db: it either
    fails without effect or applies the SQL of its text.  Which statements
    fail, and what the clock reads, is decided by an [Oracle]; every theorem
    is quantified over it.  Tables keyed by text are finite maps; [events] and
    [outbox] are lists in insertion order. *)
From S2P Require Import Prelude Errors Streams Events Chain GoTime Sql.

(** ** Rows (internal/db/models.go) *)

Record EventRow := mkEventRow {
  er_event_id : UUID;
  er_tenant_id : string;
  er_stream_id : string;
  er_version : Z;
  er_global_position : Z;
  er_type_url : string;
  er_schema_version : Z;
  er_occurred_at : string;
  er_recorded_at : string;
  er_correlation_id : UUID;
  er_causation_id : UUID;
  er_command_id : UUID;
  er_actor : string;
  er_actor_principal : string;
  er_payload : bytes;
  er_payload_json : option string;
  er_encryption_key_refs : option string;
  er_hash : option bytes;
  er_prev_hash : option bytes
}.

Record OutboxRec := mkOutboxRec {
  ob_tenant_id : string;
  ob_global_position : Z;
  ob_event_id : UUID;
  ob_enqueued_at : string;
  ob_published_at : option string;
  ob_attempts : Z;
  ob_last_error : option string;
  ob_next_attempt_at : option string
}.

(** unique_claims, by (tenant_id, scope, value): (stream_id, claimed_at). *)
Notation UniqueClaims := (gmap (string * string * string) (string * string)).

(** state_cache, by (tenant_id, stream_id). *)
Record StateCacheRec := mkStateCacheRec {
  st_type_url : string;
  st_state : string;
  st_version : Z;
  st_terminal : Z;
  st_state_schema_version : Z;
  st_updated_at : string
}.

(** subject_keys, by (tenant_id, subject). *)
Record SubjectKeyRec := mkSubjectKeyRec {
  sk_dek_wrapped : bytes;
  sk_kek_version : Z;
  sk_created_at : string;
  sk_shredded_at : option string
}.

(** projection_dlq, by (projection_name, tenant_id, global_position). *)
Record ProjectionDlqRec := mkProjectionDlqRec {
  pd_event_id : UUID;
  pd_type_url : string;
  pd_last_error : string;
  pd_enqueued_at : string
}.

(** subscriber_dlq, by (subscriber_name, tenant_id, first_event_id); the two
    lists are the texts of their JSON arrays. *)
Record SubscriberDlqRec := mkSubscriberDlqRec {
  sd_stream_id : string;
  sd_event_ids : string;
  sd_type_urls : string;
  sd_last_error : string;
  sd_attempts : Z;
  sd_enqueued_at : string
}.

Record DB := mkDB {
  events : list EventRow;
  events_seq : Z;
  unique_claims : UniqueClaims;
  outbox : list OutboxRec;
  state_cache : gmap (string * string) StateCacheRec;
  subject_keys : gmap (string * string) SubjectKeyRec;
  projection_checkpoint : gmap (string * string) (Z * string);
  projection_dlq : gmap (string * string * Z) ProjectionDlqRec;
  processed_events : gmap (string * string * Z) string;
  state_stream_subscribers : gmap (string * string * string) (Z * string);
  subscriber_dlq : gmap (string * string * string) SubscriberDlqRec
}.

Definition empty_db : DB := mkDB [] 0 ∅ [] ∅ ∅ ∅ ∅ ∅ ∅ ∅.

Definition set_events (f : list EventRow -> list EventRow) (d : DB) : DB :=
  mkDB (f (events d)) (events_seq d) (unique_claims d) (outbox d) (state_cache d)
    (subject_keys d) (projection_checkpoint d) (projection_dlq d) (processed_events d)
    (state_stream_subscribers d) (subscriber_dlq d).
Definition set_seq (n : Z) (d : DB) : DB :=
  mkDB (events d) n (unique_claims d) (outbox d) (state_cache d)
    (subject_keys d) (projection_checkpoint d) (projection_dlq d) (processed_events d)
    (state_stream_subscribers d) (subscriber_dlq d).
Definition set_claims (f : UniqueClaims -> UniqueClaims) (d : DB) : DB :=
  mkDB (events d) (events_seq d) (f (unique_claims d)) (outbox d) (state_cache d)
    (subject_keys d) (projection_checkpoint d) (projection_dlq d) (processed_events d)
    (state_stream_subscribers d) (subscriber_dlq d).
Definition set_outbox (f : list OutboxRec -> list OutboxRec) (d : DB) : DB :=
  mkDB (events d) (events_seq d) (unique_claims d) (f (outbox d)) (state_cache d)
    (subject_keys d) (projection_checkpoint d) (projection_dlq d) (processed_events d)
    (state_stream_subscribers d) (subscriber_dlq d).
Definition set_state_cache f (d : DB) : DB :=
  mkDB (events d) (events_seq d) (unique_claims d) (outbox d) (f (state_cache d))
    (subject_keys d) (projection_checkpoint d) (projection_dlq d) (processed_events d)
    (state_stream_subscribers d) (subscriber_dlq d).
Definition set_subject_keys f (d : DB) : DB :=
  mkDB (events d) (events_seq d) (unique_claims d) (outbox d) (state_cache d)
    (f (subject_keys d)) (projection_checkpoint d) (projection_dlq d) (processed_events d)
    (state_stream_subscribers d) (subscriber_dlq d).
Definition set_checkpoints f (d : DB) : DB :=
  mkDB (events d) (events_seq d) (unique_claims d) (outbox d) (state_cache d)
    (subject_keys d) (f (projection_checkpoint d)) (projection_dlq d) (processed_events d)
    (state_stream_subscribers d) (subscriber_dlq d).
Definition set_projection_dlq f (d : DB) : DB :=
  mkDB (events d) (events_seq d) (unique_claims d) (outbox d) (state_cache d)
    (subject_keys d) (projection_checkpoint d) (f (projection_dlq d)) (processed_events d)
    (state_stream_subscribers d) (subscriber_dlq d).
Definition set_processed f (d : DB) : DB :=
  mkDB (events d) (events_seq d) (unique_claims d) (outbox d) (state_cache d)
    (subject_keys d) (projection_checkpoint d) (projection_dlq d) (f (processed_events d))
    (state_stream_subscribers d) (subscriber_dlq d).
Definition set_subscribers f (d : DB) : DB :=
  mkDB (events d) (events_seq d) (unique_claims d) (outbox d) (state_cache d)
    (subject_keys d) (projection_checkpoint d) (projection_dlq d) (processed_events d)
    (f (state_stream_subscribers d)) (subscriber_dlq d).
Definition set_subscriber_dlq f (d : DB) : DB :=
  mkDB (events d) (events_seq d) (unique_claims d) (outbox d) (state_cache d)
    (subject_keys d) (projection_checkpoint d) (projection_dlq d) (processed_events d)
    (state_stream_subscribers d) (f (subscriber_dlq d)).

(** ** The world *)

Record World := mkWorld { w_db : DB; w_tick : nat }.

(** [o_fault n] is the text of the driver error the [n]th statement fails with,
    if any; [o_now n] is the clock at that moment.  A driver error is a fresh
    error value: sql.ErrNoRows is returned only when a row is missing. *)
Record Oracle := mkOracle { o_fault : nat -> option string; o_now : nat -> Time }.

Definition no_faults (now : nat -> Time) : Oracle := mkOracle (fun _ => None) now.

(** SQLite's json(jsonb(x)) on the text of a JSON value, and encoding/json on
    the actor column. *)
Record actorJSON := mkActorJSON {
  aj_Kind : Z;
  aj_Principal : string;
  aj_OnBehalfOf : string;
  aj_APIKeyID : string;
  aj_Attributes : gmap string string
}.

Class SqlitePrims := {
  json_jsonb : string -> res string;
  json_marshal_actor : actorJSON -> res string;
  json_unmarshal_actor : string -> res actorJSON
}.

(** One statement: a tick of the oracle, then the effect of the SQL. *)
Definition stmt {A} (O : Oracle) (f : Time -> DB -> DB * res A) : M World A := fun w =>
  let t := w_tick w in
  match o_fault O t with
  | Some msg => (mkWorld (w_db w) (S t), Err (ENew msg))
  | None => let '(d, r) := f (o_now O t) (w_db w) in (mkWorld d (S t), r)
  end.

(** A statement that only reads. *)
Definition select {A} (O : Oracle) (f : DB -> res A) : M World A :=
  stmt O (fun _ d => (d, f d)).

(** A statement that cannot violate a constraint. *)
Definition exec (O : Oracle) (f : Time -> DB -> DB) : M World unit :=
  stmt O (fun now d => (f now d, Ok tt)).

(** [time.Now().UTC()]. *)
Definition time_Now (O : Oracle) : M World Time := fun w =>
  (mkWorld (w_db w) (S (w_tick w)), Ok (o_now O (w_tick w))).

(** append.go: withTx.  The database is a file that the process itself opens:
    SQLite's COMMIT returns an error only when the transaction is not committed,
    and the deferred Rollback then ends it.  (A commit whose acknowledgement is
    lost, as over a network, is part of the Postgres model.) *)
Definition withTx {A} (O : Oracle) (fn : M World A) : M World A := fun w =>
  match stmt O (fun _ d => (d, Ok tt)) w with
  | (w1, Err e) => (w1, Err (EWrap "begin tx" e))
  | (w1, Ok _) =>
      match fn w1 with
      | (w2, Err e) => (mkWorld (w_db w) (w_tick w2), Err e)
      | (w2, Ok a) =>
          match stmt O (fun _ d => (d, Ok tt)) w2 with
          | (w3, Err e) => (mkWorld (w_db w) (w_tick w3), Err e)
          | (w3, Ok _) => (w3, Ok a)
          end
      end
  end.

(** ** Queries of internal/db *)
Module Q.
Section Q.
Context {SP : SqlitePrims} (O : Oracle).

(** *** append.sql.go *)

Definition with_gp (gp : Z) (r : EventRow) : EventRow :=
  mkEventRow (er_event_id r) (er_tenant_id r) (er_stream_id r) (er_version r) gp
    (er_type_url r) (er_schema_version r) (er_occurred_at r) (er_recorded_at r)
    (er_correlation_id r) (er_causation_id r) (er_command_id r) (er_actor r)
    (er_actor_principal r) (er_payload r) (er_payload_json r) (er_encryption_key_refs r)
    (er_hash r) (er_prev_hash r).

Definition in_stream (tenant stream : string) (r : EventRow) : bool :=
  bool_decide (er_tenant_id r = tenant) && bool_decide (er_stream_id r = stream).

Definition same_version (a r : EventRow) : bool :=
  in_stream (er_tenant_id a) (er_stream_id a) r && (er_version r =? er_version a).

Definition same_event (tenant : string) (id : UUID) (r : EventRow) : bool :=
  bool_decide (er_tenant_id r = tenant) && (er_event_id r =? id).

Definition err_unique_version : err :=
  ENew "UNIQUE constraint failed: events.tenant_id, events.stream_id, events.version".
Definition err_unique_event : err :=
  ENew "UNIQUE constraint failed: events.tenant_id, events.event_id".

(** The unique keys of events, then AUTOINCREMENT. *)
Definition insert_event (arg : EventRow) (d : DB) : DB * res Z :=
  if existsb (same_version arg) (events d) then (d, Err err_unique_version)
  else if existsb (same_event (er_tenant_id arg) (er_event_id arg)) (events d)
  then (d, Err err_unique_event)
  else if max_i64 <=? events_seq d then (d, Err (ENew "database or disk is full"))
  else
    let gp := events_seq d + 1 in
    (set_seq gp (set_events (fun t => t ++ [with_gp gp arg]) d), Ok gp).

Definition InsertEvent (arg : EventRow) : M World Z := stmt O (fun _ => insert_event arg).

Definition insert_outbox (tenant : string) (gp : Z) (id : UUID) (now : Time) (d : DB)
    : DB * res unit :=
  if existsb (fun r => bool_decide (ob_tenant_id r = tenant) && (ob_global_position r =? gp))
       (outbox d)
  then (d, Err (ENew "UNIQUE constraint failed: outbox.tenant_id, outbox.global_position"))
  else (set_outbox (fun t => t ++
          [mkOutboxRec tenant gp id (GoTime.strftime_now now) None 0 None None]) d, Ok tt).

Definition InsertOutbox (tenant : string) (gp : Z) (id : UUID) : M World unit :=
  stmt O (insert_outbox tenant gp id).

(** The rows of a stream, by version. *)
Definition stream_rows (tenant stream : string) (d : DB) : list EventRow :=
  order_by er_version (List.filter (in_stream tenant stream) (events d)).

Definition LastStreamHash (tenant stream : string) : M World (option bytes) :=
  select O (fun d =>
    match last (stream_rows tenant stream d) with
    | None => Err (ESent ErrNoRows)
    | Some r => Ok (er_hash r)
    end).

Definition set_hash (h p : bytes) (r : EventRow) : EventRow :=
  mkEventRow (er_event_id r) (er_tenant_id r) (er_stream_id r) (er_version r)
    (er_global_position r) (er_type_url r) (er_schema_version r) (er_occurred_at r)
    (er_recorded_at r) (er_correlation_id r) (er_causation_id r) (er_command_id r)
    (er_actor r) (er_actor_principal r) (er_payload r) (er_payload_json r)
    (er_encryption_key_refs r) (nullable_blob h) (nullable_blob p).

Definition unhashed_event (tenant : string) (id : UUID) (r : EventRow) : bool :=
  same_event tenant id r && bool_decide (er_hash r = None).

Definition BackfillEventHash (h p : bytes) (tenant : string) (id : UUID) : M World Z :=
  stmt O (fun _ d =>
    (set_events (sql_update (unhashed_event tenant id) (set_hash h p)) d,
     Ok (sql_count (unhashed_event tenant id) (events d)))).

(** *** constraint.sql.go *)

Definition err_unique_claim : err :=
  ENew "UNIQUE constraint failed: unique_claims.tenant_id, unique_claims.scope, unique_claims.value".

Definition claim_unique (tenant scope value stream : string) (now : Time) (d : DB)
    : DB * res unit :=
  match unique_claims d !! (tenant, scope, value) with
  | Some _ => (d, Err err_unique_claim)
  | None => (set_claims <[(tenant, scope, value) := (stream, GoTime.strftime_now now)]> d, Ok tt)
  end.

Definition ClaimUnique (tenant scope value stream : string) : M World unit :=
  stmt O (claim_unique tenant scope value stream).

Definition release_unique (tenant scope value : string) : DB -> DB :=
  set_claims (delete (tenant, scope, value)).

Definition ReleaseUnique (tenant scope value : string) : M World unit :=
  exec O (fun _ => release_unique tenant scope value).

(** *** read.sql.go *)

Definition ReadStreamFromVersion (tenant stream : string) (version : Z) : M World (list EventRow) :=
  select O (fun d =>
    Ok (order_by er_version
          (List.filter (fun r => in_stream tenant stream r && (version <? er_version r)) (events d)))).

Definition ReadAllFromPosition (pos limit : Z) : M World (list EventRow) :=
  select O (fun d =>
    Ok (sql_limit limit (order_by er_global_position
          (List.filter (fun r => pos <? er_global_position r) (events d))))).

Definition ReadAllFromPositionTenant (tenant : string) (pos limit : Z) : M World (list EventRow) :=
  select O (fun d =>
    Ok (sql_limit limit (order_by er_global_position
          (List.filter (fun r => bool_decide (er_tenant_id r = tenant) &&
                                 (pos <? er_global_position r)) (events d))))).

(** COALESCE(MAX(version), 0). *)
Definition max_version (rows : list EventRow) : Z :=
  match er_version <$> rows with
  | [] => 0
  | v :: vs => foldr Z.max v vs
  end.

Definition CurrentStreamVersion (tenant stream : string) : M World Z :=
  select O (fun d => Ok (max_version (List.filter (in_stream tenant stream) (events d)))).

Definition GetEventByID (tenant : string) (id : UUID) : M World EventRow :=
  select O (fun d =>
    match List.filter (same_event tenant id) (events d) with
    | [] => Err (ESent ErrNoRows)
    | r :: _ => Ok r
    end).

(** *** state_cache.sql.go *)

Definition upsert_state_cache (tenant stream typeURL state : string)
    (version terminal schema : Z) (updatedAt : string) (d : DB) : DB * res unit :=
  match json_jsonb state with
  | Err e => (d, Err e)
  | Ok s => (set_state_cache <[(tenant, stream) :=
               mkStateCacheRec typeURL s version terminal schema updatedAt]> d, Ok tt)
  end.

Definition UpsertStateCache (tenant stream typeURL state : string)
    (version terminal schema : Z) (updatedAt : string) : M World unit :=
  stmt O (fun _ => upsert_state_cache tenant stream typeURL state version terminal schema updatedAt).

Definition GetState (tenant stream : string) : M World StateCacheRec :=
  select O (fun d =>
    match state_cache d !! (tenant, stream) with
    | None => Err (ESent ErrNoRows)
    | Some r => Ok r
    end).

Definition ListStates (tenant typeURL afterStream : string) (maxRows : Z)
    : M World (list (string * string * StateCacheRec)) :=
  select O (fun d =>
    Ok (sql_limit maxRows (order_by_text (fun x => snd (fst x))
          (List.filter (fun x : string * string * StateCacheRec =>
             bool_decide (fst (fst x) = tenant) && bool_decide (st_type_url (snd x) = typeURL) &&
             str_ltb afterStream (snd (fst x))) (map_to_list (state_cache d)))))).

Definition DeleteStateCacheForType (tenant typeURL : string) : M World Z :=
  let p := fun x : string * string * StateCacheRec =>
    bool_decide (fst (fst x) = tenant) && bool_decide (st_type_url (snd x) = typeURL) in
  stmt O (fun _ d =>
    (set_state_cache (filter (fun x => p x = false)) d,
     Ok (sql_count p (map_to_list (state_cache d))))).

Definition DeleteStateCacheForTypeAllTenants (typeURL : string) : M World Z :=
  let p := fun x : string * string * StateCacheRec => bool_decide (st_type_url (snd x) = typeURL) in
  stmt O (fun _ d =>
    (set_state_cache (filter (fun x => p x = false)) d,
     Ok (sql_count p (map_to_list (state_cache d))))).
End Q.
End Q.
