(* ===== verification/SqliteStore.v ===== *)
(** * The SQLite event store (adapters/storage/sqlite: append.go, read.go,
      convert.go, chain.go, state_cache.go)

    The adapter methods over the queries of [SqliteDB].  Spans and metrics
    have no effect on the store and are left out. *)
From S2P Require Import Prelude Errors Streams Events Chain GoTime Sql SqliteDB.

Module Sqlite.
Section Sqlite.
Context {CP : ChainPrims} {SP : SqlitePrims} (O : Oracle).

(** ** convert.go *)

Definition encodeActor (a : Actor.t) : res string :=
  match json_marshal_actor (mkActorJSON (Actor.Kind a) (Actor.Principal a)
          (Actor.OnBehalfOf a) (Actor.APIKeyID a) (Actor.Attributes a)) with
  | Err e => Err (EWrap "encode actor" e)
  | Ok out => Ok out
  end.

Definition decodeActor (s : string) : res Actor.t :=
  if bool_decide (s = "") then Ok Actor.zero
  else
    match json_unmarshal_actor s with
    | Err e => Err (EWrap "decode actor" e)
    | Ok aj => Ok (Actor.mk (aj_Kind aj) (aj_Principal aj) (aj_OnBehalfOf aj)
                     (aj_APIKeyID aj) (aj_Attributes aj))
    end.

Definition opt_bytes (o : option string) : bytes :=
  match o with Some s => bytes_of_str s | None => [] end.

Definition rowToEnvelope (r : EventRow) : res Envelope.t :=
  match StreamID.ParseCanonical (er_tenant_id r) (er_stream_id r) with
  | Err e => Err (EWrap "parse stream id" e)
  | Ok sid =>
      match decodeActor (er_actor r) with
      | Err e => Err e
      | Ok actor =>
          match GoTime.parseTime (er_occurred_at r) with
          | Err e => Err (EWrap "occurred_at" e)
          | Ok occurred =>
              match GoTime.parseTime (er_recorded_at r) with
              | Err e => Err (EWrap "recorded_at" e)
              | Ok recorded =>
                  Ok (Envelope.mk (er_event_id r) (er_tenant_id r) sid
                        (u64 (er_version r)) (u64 (er_global_position r))
                        (er_type_url r) (u32 (er_schema_version r)) occurred recorded
                        (er_correlation_id r) (er_causation_id r) (er_command_id r)
                        actor (er_payload r) (opt_bytes (er_payload_json r))
                        (opt_bytes (er_encryption_key_refs r))
                        (default [] (er_hash r)) (default [] (er_prev_hash r)))
              end
          end
      end
  end.

(** ** read.go *)

Definition collect (rows : list EventRow) : res (list Envelope.t) := mapR rowToEnvelope rows.

Definition ReadStream (sid : StreamID.t) (fromVersion : Z) : M World (list Envelope.t) :=
  guard_err (StreamID.Validate sid) ≫= fun _ =>
  rows ← Q.ReadStreamFromVersion O (StreamID.Tenant sid) (StreamID.Canonical sid) (i64 fromVersion);
  of_res (collect rows).

Definition ReadAll (fromPosition limit : Z) : M World (list Envelope.t) :=
  rows ← Q.ReadAllFromPosition O (i64 fromPosition) limit;
  of_res (collect rows).

Definition ReadAllForTenant (tenant : string) (fromPosition limit : Z) : M World (list Envelope.t) :=
  rows ← Q.ReadAllFromPositionTenant O tenant (i64 fromPosition) limit;
  of_res (collect rows).

Definition CurrentStreamVersion (sid : StreamID.t) : M World Z :=
  guard_err (StreamID.Validate sid) ≫= fun _ =>
  v ← Q.CurrentStreamVersion O (StreamID.Tenant sid) (StreamID.Canonical sid);
  mret (u64 v).

Definition GetEventByID (tenant : string) (id : UUID) : M World Envelope.t :=
  r ← try (Q.GetEventByID O tenant id);
  match r with
  | Err e => if errors_Is e ErrNoRows then fail (ESent ErrEventNotFound) else fail e
  | Ok row => of_res (rowToEnvelope row)
  end.

(** ** chain.go *)

Definition BackfillEventHash (tenant : string) (id : UUID) (hash prevHash : bytes) : M World unit :=
  n ← wrap_err "sqlite: backfill event hash" (Q.BackfillEventHash O hash prevHash tenant id);
  if n =? 0
  then fail (ENew "sqlite: backfill event hash: row already has a hash or does not exist")
  else mret tt.

(** ** append.go *)

Definition mapErr (e : err) : err :=
  let msg := Error e in
  if negb (str_contains "UNIQUE constraint failed" msg) then e
  else if str_contains "unique_claims." msg then ESent ErrConstraintViolated
  else if str_contains "events." msg then ESent ErrConflict
  else e.

(** [if err := m; err != nil { return mapErr(err) }] *)
Definition map_err {A} (m : M World A) : M World A := fun w =>
  match m w with
  | (w', Err e) => (w', Err (mapErr e))
  | x => x
  end.

Definition applyConstraint (tenant canonical : string) (op : ConstraintOp) : M World unit :=
  if co_Op op =? ClaimConstraint then
    map_err (Q.ClaimUnique O tenant (co_Scope op) (co_Value op) canonical)
  else if co_Op op =? ReleaseConstraint then
    wrap_err "release constraint" (Q.ReleaseUnique O tenant (co_Scope op) (co_Value op))
  else fail (ENew "sqlite: unknown constraint op").

(** [version := uint64(int64(p.ExpectedVersion) + int64(i) + 1)] *)
Definition event_version (expected : Z) (i : Z) : Z := u64 (i64 (i64 (i64 expected + i) + 1)).

(** The envelope the hash is computed over. *)
Definition chainEnv (sid : StreamID.t) (version : Z) (ev : EventToAppend) : Envelope.t :=
  Envelope.mk (ea_EventID ev) (StreamID.Tenant sid) sid version 0 (ea_TypeURL ev)
    (ea_SchemaVersion ev) (ea_OccurredAt ev) zero_time (ea_CorrelationID ev)
    (ea_CausationID ev) (ea_CommandID ev) (ea_Actor ev) (ea_Payload ev) [] (ea_KeyRefs ev) [] [].

(** Empty slices are stored as NULL. *)
Definition nullable (b : bytes) : option string :=
  match b with [] => None | _ => Some (str_of_bytes b) end.

Definition eventRow (sid : StreamID.t) (version : Z) (recordedAt actor : string)
    (hash prevHash : bytes) (ev : EventToAppend) : EventRow :=
  mkEventRow (ea_EventID ev) (StreamID.Tenant sid) (StreamID.Canonical sid) (i64 version) 0
    (ea_TypeURL ev) (ea_SchemaVersion ev) (GoTime.formatTime (ea_OccurredAt ev)) recordedAt
    (ea_CorrelationID ev) (ea_CausationID ev) (ea_CommandID ev) actor
    (Actor.Principal (ea_Actor ev)) (ea_Payload ev) (nullable (ea_PayloadJSON ev))
    (nullable (ea_KeyRefs ev)) (Some hash) (Some prevHash).

(** The loop over p.Events from index [i]; the result is (startPos, endPos). *)
Fixpoint appendEvents (sid : StreamID.t) (expected : Z) (recordedAt : string)
    (i : Z) (prevHash : bytes) (startPos endPos : Z) (evs : list EventToAppend)
    : M World (Z * Z) :=
  match evs with
  | [] => mret (startPos, endPos)
  | ev :: evs' =>
      actorStr ← of_res (encodeActor (ea_Actor ev));
      let version := event_version expected i in
      hash ← wrap_err "compute chain hash"
               (of_res (Chain.ComputeChainHash prevHash (Some (chainEnv sid version ev))));
      gp ← map_err (Q.InsertEvent O (eventRow sid version recordedAt actorStr hash prevHash ev));
      wrap_err "insert outbox"
        (Q.InsertOutbox O (StreamID.Tenant sid) gp (ea_EventID ev)) ≫= fun _ =>
      appendEvents sid expected recordedAt (i + 1) hash
        (if i =? 0 then gp else startPos) gp evs'
  end.

Definition readPrevHash (tenant canonical : string) : M World bytes :=
  r ← try (Q.LastStreamHash O tenant canonical);
  match r with
  | Err e => if decide (e = ESent ErrNoRows) then mret Chain.ZeroHash
             else fail (EWrap "read last hash" e)
  | Ok None | Ok (Some []) => mret Chain.ZeroHash
  | Ok (Some h) => mret h
  end.

Definition writeStateCache (p : AppendParams) (recordedAt : string) : M World unit :=
  match ap_NewStateBytes p with
  | None => mret tt
  | Some state =>
      let terminal := if ap_Terminal p then 1 else 0 in
      let schema := if ap_StateSchemaVersion p =? 0 then 1 else ap_StateSchemaVersion p in
      wrap_err "upsert state_cache"
        (Q.UpsertStateCache O (StreamID.Tenant (ap_StreamID p))
           (StreamID.Canonical (ap_StreamID p)) (ap_StateTypeURL p) (str_of_bytes state)
           (i64 (i64 (ap_ExpectedVersion p) + Z.of_nat (length (ap_Events p))))
           terminal schema recordedAt)
  end.

(** The body of the transaction. *)
Definition appendTx (p : AppendParams) : M World AppendResult :=
  let sid := ap_StreamID p in
  let canonical := StreamID.Canonical sid in
  forM_ (ap_Constraints p) (applyConstraint (StreamID.Tenant sid) canonical) ≫= fun _ =>
  now ← time_Now O;
  let recordedAt := GoTime.formatTime now in
  prevHash ← readPrevHash (StreamID.Tenant sid) canonical;
  pos ← appendEvents sid (ap_ExpectedVersion p) recordedAt 0 prevHash 0 0 (ap_Events p);
  writeStateCache p recordedAt ≫= fun _ =>
  mret (mkAppendResult
          (u64 (ap_ExpectedVersion p + 1))
          (u64 (ap_ExpectedVersion p + Z.of_nat (length (ap_Events p))))
          (u64 (fst pos)) (u64 (snd pos)) now).

Definition Append (p : AppendParams) : M World AppendResult :=
  guard_err (StreamID.Validate (ap_StreamID p)) ≫= fun _ =>
  match ap_Events p with
  | [] => fail (ENew "sqlite: append requires at least one event")
  | _ => withTx O (appendTx p)
  end.

(** ** state_cache.go *)

Definition stateBytes (s : string) : bytes := bytes_of_str s.

Definition toStateCacheRow (tenant stream : string) (r : StateCacheRec) : res StateCacheRow :=
  match GoTime.parseTime (st_updated_at r) with
  | Err e => Err e
  | Ok updated =>
      Ok (mkStateCacheRow tenant stream (st_type_url r) (stateBytes (st_state r))
            (u64 (st_version r)) (negb (st_terminal r =? 0))
            (u32 (st_state_schema_version r)) updated)
  end.

Definition GetState (tenant stream : string) : M World StateCacheRow :=
  r ← try (Q.GetState O tenant stream);
  match r with
  | Err e => if errors_Is e ErrNoRows then fail (ESent ErrStateNotFound) else fail e
  | Ok row => of_res (toStateCacheRow tenant stream row)
  end.

Definition ListStates (tenant typeURL afterStreamID : string) (limit : Z)
    : M World (list StateCacheRow) :=
  let limit := if limit <=? 0 then 100 else limit in
  rows ← Q.ListStates O tenant typeURL afterStreamID limit;
  of_res (mapR (fun x => toStateCacheRow (fst (fst x)) (snd (fst x)) (snd x)) rows).

Definition WipeStateCacheForType (tenant typeURL : string) : M World Z :=
  if bool_decide (tenant = "") then Q.DeleteStateCacheForTypeAllTenants O typeURL
  else Q.DeleteStateCacheForType O tenant typeURL.

Definition UpsertCachedState (row : StateCacheRow) : M World unit :=
  let terminal := if sc_Terminal row then 1 else 0 in
  let schema := if sc_StateSchemaVersion row =? 0 then 1 else sc_StateSchemaVersion row in
  now ← time_Now O;
  Q.UpsertStateCache O (sc_TenantID row) (sc_StreamID row) (sc_TypeURL row)
    (str_of_bytes (sc_State row)) (i64 (sc_Version row)) terminal schema
    (GoTime.formatTime now).
End Sqlite.
End Sqlite.
