(* ===== verification/SqliteFacts.v ===== *)
(** * Facts about the SQLite adapter

    What a statement, a transaction and Append do to the tables; the table
    invariant [db_wf] and that the writers keep it. *)
From S2P Require Import Prelude Errors Streams Events Chain GoTime Sql SqliteDB SqliteStore.
Import Sqlite.

(** ** Statements and transactions *)
Section Stmt.
Context (O : Oracle).

Lemma stmt_inv {A} (f : Time -> DB -> DB * res A) w w' r :
  stmt O f w = (w', r) ->
  w_tick w' = S (w_tick w) /\
  ((exists msg, o_fault O (w_tick w) = Some msg /\ r = Err (ENew msg) /\ w_db w' = w_db w) \/
   (o_fault O (w_tick w) = None /\ f (o_now O (w_tick w)) (w_db w) = (w_db w', r))).
Proof.
  unfold stmt. destruct (o_fault O (w_tick w)) as [e|] eqn:Hf.
  - intros [= <- <-]. simpl. split; [done|]. left; eauto.
  - destruct (f _ _) as [d r'] eqn:Hd. intros [= <- <-]. simpl. eauto.
Qed.

Lemma stmt_Ok {A} (f : Time -> DB -> DB * res A) w w' a :
  stmt O f w = (w', Ok a) ->
  o_fault O (w_tick w) = None /\ f (o_now O (w_tick w)) (w_db w) = (w_db w', Ok a).
Proof. intros [_ [(e & _ & [=] & _)|[? ?]]]%stmt_inv. eauto. Qed.

Lemma select_Ok {A} (f : DB -> res A) w w' a :
  select O f w = (w', Ok a) -> w_db w' = w_db w /\ f (w_db w) = Ok a.
Proof. by intros [_ [= <- ?]]%stmt_Ok. Qed.

Lemma select_db {A} (f : DB -> res A) w w' r :
  select O f w = (w', r) -> w_db w' = w_db w.
Proof. intros [_ [(e & _ & _ & ?)|[_ ?]]]%stmt_inv; by simplify_eq. Qed.

Lemma select_run {A} (f : DB -> res A) w :
  o_fault O (w_tick w) = None ->
  select O f w = (mkWorld (w_db w) (S (w_tick w)), f (w_db w)).
Proof. unfold select, stmt. by intros ->. Qed.

Lemma exec_inv (f : Time -> DB -> DB) s s' r :
  exec O f s = (s', r) ->
  match r with
  | Ok _ => exists now, w_db s' = f now (w_db s)
  | Err _ => w_db s' = w_db s
  end.
Proof.
  intros [_ [(msg & _ & -> & Hdb)|[_ [= <- <-]]]]%stmt_inv; [done|]. eauto.
Qed.

(** A transaction that fails leaves the database as it was. *)
Lemma withTx_Err {A} (fn : M World A) w w' e :
  withTx O fn w = (w', Err e) -> w_db w' = w_db w.
Proof.
  unfold withTx. destruct (stmt _ _ w) as [w1 [[]|e1]] eqn:H1.
  - destruct (fn w1) as [w2 [a|e2]].
    + destruct (stmt _ _ w2) as [w3 [[]|e3]]; [done|]. by intros [= <- _].
    + by intros [= <- _].
  - intros [= <- _]. by apply stmt_inv in H1 as [_ [(? & _ & _ & ?)|[_ ?]]]; simplify_eq.
Qed.

Lemma withTx_Ok {A} (fn : M World A) w w' a :
  withTx O fn w = (w', Ok a) ->
  exists w1 w2, w_db w1 = w_db w /\ fn w1 = (w2, Ok a) /\ w_db w' = w_db w2.
Proof.
  unfold withTx. destruct (stmt _ _ w) as [w1 [[]|e1]] eqn:H1; [|done].
  apply stmt_Ok in H1 as [_ [= H1]].
  destruct (fn w1) as [w2 [b|e2]] eqn:H2; [|done].
  destruct (stmt _ _ w2) as [w3 [[]|e3]] eqn:H3; [|done].
  apply stmt_Ok in H3 as [_ [= H3]]. intros [= <- <-]. eauto.
Qed.

Lemma map_err_Ok {A} (m : M World A) w w' a : map_err m w = (w', Ok a) -> m w = (w', Ok a).
Proof. unfold map_err. by destruct (m w) as [? [?|?]]. Qed.

Lemma time_Now_Ok w w' now : time_Now O w = (w', Ok now) -> w_db w' = w_db w.
Proof. by intros [= <- _]. Qed.
End Stmt.

Ltac inv_stmt :=
  repeat match goal with
  | H : map_err _ _ = (_, Ok _) |- _ => apply map_err_Ok in H
  | H : select _ _ _ = (_, Ok _) |- _ => apply select_Ok in H as [? ?]
  | H : stmt _ _ _ = (_, Ok _) |- _ => apply stmt_Ok in H as [? ?]
  | H : time_Now _ _ = (_, Ok _) |- _ => apply time_Now_Ok in H
  | H : of_res _ _ = (_, Ok _) |- _ => apply of_res_Ok in H as [-> H]
  | H : try _ _ = (_, Ok _) |- _ => apply try_Ok in H
  | H : guard_err _ _ = (_, Ok _) |- _ => apply guard_err_Ok in H as [-> H]
  end.

(** ** The table invariant *)

Definition version_key (r : EventRow) : string * string * Z :=
  (er_tenant_id r, er_stream_id r, er_version r).
Definition event_key (r : EventRow) : string * Z := (er_tenant_id r, er_event_id r).
Definition outbox_key (o : OutboxRec) : string * Z := (ob_tenant_id o, ob_global_position o).

(** The event an outbox row points to. *)
Definition points_to (o : OutboxRec) (r : EventRow) : Prop :=
  er_tenant_id r = ob_tenant_id o /\ er_global_position r = ob_global_position o /\
  er_event_id r = ob_event_id o.

Record db_wf (d : DB) : Prop := mk_db_wf {
  wf_pos : er_global_position <$> events d = seqZ 1 (events_seq d);
  wf_seq : 0 <= events_seq d <= max_i64;
  wf_version : NoDup (version_key <$> events d);
  wf_event : NoDup (event_key <$> events d);
  wf_outbox_key : NoDup (outbox_key <$> outbox d);
  wf_outbox : Forall (fun o => exists r, r ∈ events d /\ points_to o r) (outbox d)
}.

Lemma empty_db_wf : db_wf empty_db.
Proof. split; simpl; try constructor; unfold max_i64; lia. Qed.

Lemma same_version_key a r : Q.same_version a r = true <-> version_key r = version_key a.
Proof.
  unfold Q.same_version, Q.in_stream, version_key.
  rewrite !andb_true_iff, !bool_decide_eq_true, Z.eqb_eq. split; [intros [[-> ->] ->]; done|].
  intros [= -> -> ->]. done.
Qed.

Lemma same_event_key t id r : Q.same_event t id r = true <-> event_key r = (t, id).
Proof.
  unfold Q.same_event, event_key. rewrite andb_true_iff, bool_decide_eq_true, Z.eqb_eq.
  split; [intros [-> ->]; done|]. intros [= -> ->]. done.
Qed.

(** InsertEvent appends the row at the next position. *)
Lemma insert_event_Ok arg d d' gp :
  Q.insert_event arg d = (d', Ok gp) ->
  gp = events_seq d + 1 /\ events_seq d < max_i64 /\
  version_key arg ∉ (version_key <$> events d) /\ event_key arg ∉ (event_key <$> events d) /\
  d' = set_seq gp (set_events (fun t => t ++ [Q.with_gp gp arg]) d).
Proof.
  unfold Q.insert_event.
  destruct (existsb (Q.same_version arg) (events d)) eqn:Hv; [done|].
  destruct (existsb (Q.same_event _ _) (events d)) eqn:He; [done|].
  destruct (Z.leb_spec max_i64 (events_seq d)); [done|].
  apply (existsb_key_false _ version_key (version_key arg)) in Hv; [|apply same_version_key].
  apply (existsb_key_false _ event_key (event_key arg)) in He; [|intros r; apply same_event_key].
  intros [= <- <-]. split_and!; done || lia.
Qed.

Lemma same_outbox_key t gp r :
  bool_decide (ob_tenant_id r = t) && (ob_global_position r =? gp) = true <-> outbox_key r = (t, gp).
Proof.
  unfold outbox_key. rewrite andb_true_iff, bool_decide_eq_true, Z.eqb_eq.
  split; [intros [-> ->]; done|]. intros [= -> ->]. done.
Qed.

Lemma insert_outbox_Ok t gp id now d d' :
  Q.insert_outbox t gp id now d = (d', Ok tt) ->
  (t, gp) ∉ (outbox_key <$> outbox d) /\
  d' = set_outbox (fun x => x ++
         [mkOutboxRec t gp id (GoTime.strftime_now now) None 0 None None]) d.
Proof.
  unfold Q.insert_outbox. destruct (existsb _ (outbox d)) eqn:He; [done|].
  apply (existsb_key_false _ outbox_key (t, gp)) in He; [|apply same_outbox_key].
  intros [= <-]. done.
Qed.

(** The pair of inserts Append makes for one event keeps the invariant. *)
Lemma insert_pair_wf d arg gp d1 now d2 :
  db_wf d -> Q.insert_event arg d = (d1, Ok gp) ->
  Q.insert_outbox (er_tenant_id arg) gp (er_event_id arg) now d1 = (d2, Ok tt) -> db_wf d2.
Proof.
  intros [Hpos Hseq Hver Hev Hok Hob] (-> & Hlt & Hv & He & ->)%insert_event_Ok
    (Hnk & ->)%insert_outbox_Ok.
  assert (Hsnoc : forall (A B : Type) (f : A -> B) (l : list A) x,
    NoDup (f <$> l) -> f x ∉ (f <$> l) -> NoDup (f <$> l ++ [x])).
  { intros A B f l x Hnd Hx. rewrite fmap_app. apply NoDup_app. split; [done|]. csimpl. split.
    - intros y Hy ->%list_elem_of_singleton. done.
    - apply NoDup_singleton. }
  split; simpl.
  - rewrite fmap_app, Hpos. csimpl.
    rewrite seqZ_app by lia. f_equal. rewrite seqZ_cons, seqZ_nil by lia. f_equal. lia.
  - lia.
  - by apply Hsnoc.
  - by apply Hsnoc.
  - by apply Hsnoc.
  - apply Forall_app. split.
    + eapply Forall_impl; [exact Hob|]. intros o (r & Hr & Hp). exists r.
      split; [|done]. apply elem_of_app. by left.
    + constructor; [|constructor]. exists (Q.with_gp (events_seq d + 1) arg).
      split; [|done]. apply elem_of_app. right. by left.
Qed.

(** ** What Append did *)
Section AppendSpec.
Context {CP : ChainPrims} {SP : SqlitePrims} (O : Oracle).

(** [rows] are the events rows for [evs], from index [i], after position
    [seq] and chained from [prev]. *)
Fixpoint appended (sid : StreamID.t) (expected : Z) (recordedAt : string)
    (i : Z) (prev : bytes) (seq : Z) (evs : list EventToAppend) (rows : list EventRow) : Prop :=
  match evs, rows with
  | [], [] => True
  | ev :: evs', row :: rows' =>
      exists actor h,
        encodeActor (ea_Actor ev) = Ok actor /\
        Chain.ComputeChainHash prev (Some (chainEnv sid (event_version expected i) ev)) = Ok h /\
        row = Q.with_gp (seq + 1)
                (eventRow sid (event_version expected i) recordedAt actor h prev ev) /\
        appended sid expected recordedAt (i + 1) h (seq + 1) evs' rows'
  | _, _ => False
  end.

Definition outbox_for (row : EventRow) (o : OutboxRec) : Prop :=
  points_to o row /\ ob_published_at o = None /\ ob_attempts o = 0 /\
  ob_last_error o = None /\ ob_next_attempt_at o = None.

Definition same_rest (d d' : DB) : Prop :=
  subject_keys d' = subject_keys d /\ projection_checkpoint d' = projection_checkpoint d /\
  projection_dlq d' = projection_dlq d /\ processed_events d' = processed_events d /\
  state_stream_subscribers d' = state_stream_subscribers d /\ subscriber_dlq d' = subscriber_dlq d.

Lemma appended_length sid ex rec i prev seq evs rows :
  appended sid ex rec i prev seq evs rows -> length rows = length evs.
Proof.
  revert i prev seq rows; induction evs as [|ev evs IH]; intros i prev seq [|row rows];
    simpl; try done. intros (? & h & _ & _ & _ & Ha). f_equal. eauto.
Qed.

Lemma appendEvents_Ok sid ex rec evs : forall i prev sp ep w w' s e,
  db_wf (w_db w) ->
  appendEvents O sid ex rec i prev sp ep evs w = (w', Ok (s, e)) ->
  db_wf (w_db w') /\ exists rows orows,
    appended sid ex rec i prev (events_seq (w_db w)) evs rows /\
    events (w_db w') = events (w_db w) ++ rows /\
    events_seq (w_db w') = events_seq (w_db w) + Z.of_nat (length evs) /\
    outbox (w_db w') = outbox (w_db w) ++ orows /\ Forall2 outbox_for rows orows /\
    unique_claims (w_db w') = unique_claims (w_db w) /\
    state_cache (w_db w') = state_cache (w_db w) /\ same_rest (w_db w) (w_db w') /\
    (evs = [] -> s = sp /\ e = ep) /\
    (evs <> [] -> e = events_seq (w_db w') /\
       (i = 0 -> s = events_seq (w_db w) + 1) /\ (0 < i -> s = sp)).
Proof.
  induction evs as [|ev evs IH]; intros i prev sp ep w w' s e Hwf; cbn [appendEvents].
  - intros [= <- <- <-]. split; [done|]. exists [], [].
    rewrite !app_nil_r. simpl. rewrite Z.add_0_r. unfold same_rest. split_and!; done.
  - intros H.
    apply bind_Ok in H as (wa & actor & Hact & H). apply of_res_Ok in Hact as [-> Hact].
    apply bind_Ok in H as (wb & h & Hh & H). apply wrap_err_Ok, of_res_Ok in Hh as [-> Hh].
    apply bind_Ok in H as (w1 & gp & Hins & H). apply map_err_Ok, stmt_Ok in Hins as [_ Hins].
    apply bind_Ok in H as (w2 & [] & Hout & Hrec). apply wrap_err_Ok, stmt_Ok in Hout as [_ Hout].
    assert (Hwf2 : db_wf (w_db w2)) by (eapply insert_pair_wf; eauto).
    apply insert_event_Ok in Hins as (-> & Hlt & _ & _ & Hd1).
    apply insert_outbox_Ok in Hout as (_ & Hd2). rewrite Hd1 in Hd2.
    destruct (IH _ _ _ _ _ _ _ _ Hwf2 Hrec)
      as (Hwf' & rows & orows & Ha & He & Hs & Ho & Hf & Hc & Hsc & Hr & Hnil & Hcons).
    rewrite Hd2 in Ha, He, Hs, Ho, Hc, Hsc, Hr, Hcons. simpl in *.
    split; [done|].
    eexists (_ :: rows), (_ :: orows). split_and!.
    + simpl. do 2 eexists. split_and!; try done.
    + rewrite He, <- app_assoc. done.
    + rewrite Hs. lia.
    + rewrite Ho, <- app_assoc. done.
    + constructor; [|done]. split; [|done]. done.
    + done.
    + done.
    + done.
    + done.
    + intros _. destruct evs as [|ev2 evs].
      * destruct (Hnil eq_refl) as [-> ->]. rewrite Hs. simpl.
        split_and!; [lia|intros ->; done|].
        intros Hi. destruct (Z.eqb_spec i 0); [lia|done].
      * destruct (Hcons ltac:(done)) as (-> & _ & Hi0). split; [done|]. split.
        -- intros ->. rewrite Hi0 by lia. done.
        -- intros Hi. rewrite Hi0 by lia. destruct (Z.eqb_spec i 0); [lia|done].
Qed.

(** Who owns which claim. *)
Definition owners (d : DB) : gmap (string * string * string) string :=
  fst <$> unique_claims d.

Definition run_constraint (tenant stream : string) (op : ConstraintOp)
    (m : gmap (string * string * string) string)
    : option (gmap (string * string * string) string) :=
  let k := (tenant, co_Scope op, co_Value op) in
  if co_Op op =? ClaimConstraint then
    match m !! k with Some _ => None | None => Some (<[k := stream]> m) end
  else if co_Op op =? ReleaseConstraint then Some (delete k m)
  else None.

Fixpoint run_constraints (tenant stream : string) (ops : list ConstraintOp)
    (m : gmap (string * string * string) string)
    : option (gmap (string * string * string) string) :=
  match ops with
  | [] => Some m
  | op :: ops' => run_constraint tenant stream op m ≫= run_constraints tenant stream ops'
  end.

(** Only the claims changed. *)
Definition same_but_claims (d d' : DB) : Prop :=
  events d' = events d /\ events_seq d' = events_seq d /\ outbox d' = outbox d /\
  state_cache d' = state_cache d /\ same_rest d d'.

Lemma same_but_claims_trans d1 d2 d3 :
  same_but_claims d1 d2 -> same_but_claims d2 d3 -> same_but_claims d1 d3.
Proof.
  unfold same_but_claims, same_rest. intros (-> & -> & -> & -> & -> & -> & -> & -> & -> & ->) H.
  done.
Qed.

Lemma db_wf_claims d d' : same_but_claims d d' -> db_wf d -> db_wf d'.
Proof.
  intros (He & Hs & Ho & _) [Hpos Hseq Hver Hev Hok Hob].
  split; rewrite ?He, ?Hs, ?Ho; done.
Qed.

Lemma applyConstraint_Ok t c op w w' :
  applyConstraint O t c op w = (w', Ok tt) ->
  run_constraint t c op (owners (w_db w)) = Some (owners (w_db w')) /\
  same_but_claims (w_db w) (w_db w').
Proof.
  unfold applyConstraint, run_constraint. destruct (co_Op op =? ClaimConstraint).
  - intros [_ H]%map_err_Ok%stmt_Ok. unfold Q.claim_unique in H.
    destruct (unique_claims (w_db w) !! _) eqn:Hk; [done|]. injection H as <-.
    unfold owners at 1. rewrite lookup_fmap, Hk. simpl. split; [|done].
    unfold owners. simpl. by rewrite fmap_insert.
  - destruct (co_Op op =? ReleaseConstraint); [|done].
    intros [_ H]%wrap_err_Ok%stmt_Ok. injection H as <-. split; [|done].
    unfold owners. simpl. by rewrite fmap_delete.
Qed.

Lemma applyConstraints_Ok t c ops : forall w w',
  forM_ ops (applyConstraint O t c) w = (w', Ok tt) ->
  run_constraints t c ops (owners (w_db w)) = Some (owners (w_db w')) /\
  same_but_claims (w_db w) (w_db w').
Proof.
  induction ops as [|op ops IH]; intros w w'; cbn [forM_ run_constraints].
  - intros [= <-]. done.
  - intros (w1 & [] & [Hr Hs]%applyConstraint_Ok & [Hr' Hs']%IH)%bind_Ok.
    rewrite Hr. split; [done|]. eauto using same_but_claims_trans.
Qed.

(** The hash Append chains from: that of the last version, or zero. *)
Definition chain_head (rows : list EventRow) : bytes :=
  match last rows with
  | Some r => match er_hash r with Some ((_ :: _) as h) => h | _ => Chain.ZeroHash end
  | None => Chain.ZeroHash
  end.

Lemma readPrevHash_Ok t c w w' h :
  readPrevHash O t c w = (w', Ok h) ->
  w_db w' = w_db w /\ h = chain_head (Q.stream_rows t c (w_db w)).
Proof.
  unfold readPrevHash. intros (w1 & r & H%try_Ok & Hk)%bind_Ok.
  apply stmt_inv in H as [_ [(e & Hf & -> & Hdb)|[_ Hsel]]].
  - case_decide; [|done]. done.
  - injection Hsel as Hdb <-. rewrite Hdb in Hk |- *. unfold chain_head. unfold mret, M_ret in Hk.
    destruct (last (Q.stream_rows t c (w_db w1))) as [row|]; simpl in *.
    + destruct (er_hash row) as [[|b h']|]; injection Hk as <- <-; auto.
    + by injection Hk as <- <-.
Qed.

(** The state_cache table after Append. *)
Definition cache_after (p : AppendParams) (recordedAt : string)
    (m m' : gmap (string * string) StateCacheRec) : Prop :=
  match ap_NewStateBytes p with
  | None => m' = m
  | Some b => exists s, json_jsonb (str_of_bytes b) = Ok s /\
      m' = <[(StreamID.Tenant (ap_StreamID p), StreamID.Canonical (ap_StreamID p)) :=
             mkStateCacheRec (ap_StateTypeURL p) s
               (i64 (i64 (ap_ExpectedVersion p) + Z.of_nat (length (ap_Events p))))
               (if ap_Terminal p then 1 else 0)
               (if ap_StateSchemaVersion p =? 0 then 1 else ap_StateSchemaVersion p)
               recordedAt]> m
  end.

Lemma writeStateCache_Ok p rec w w' :
  writeStateCache O p rec w = (w', Ok tt) ->
  cache_after p rec (state_cache (w_db w)) (state_cache (w_db w')) /\
  events (w_db w') = events (w_db w) /\ events_seq (w_db w') = events_seq (w_db w) /\
  outbox (w_db w') = outbox (w_db w) /\ unique_claims (w_db w') = unique_claims (w_db w) /\
  same_rest (w_db w) (w_db w').
Proof.
  unfold writeStateCache, cache_after. destruct (ap_NewStateBytes p) as [b|].
  - intros [_ H]%wrap_err_Ok%stmt_Ok. unfold Q.upsert_state_cache in H.
    destruct (json_jsonb _) as [s|]; [|done]. injection H as <-. split; [eauto|]. done.
  - intros [= <-]. done.
Qed.

(** Everything a successful Append does to the database. *)
Definition append_effect (p : AppendParams) (d d' : DB) (res : AppendResult) : Prop :=
  let sid := ap_StreamID p in
  let n := Z.of_nat (length (ap_Events p)) in
  exists prev rows orows,
    let rec := GoTime.formatTime (ar_RecordedAt res) in
    appended sid (ap_ExpectedVersion p) rec 0 prev (events_seq d) (ap_Events p) rows /\
    events d' = events d ++ rows /\ events_seq d' = events_seq d + n /\
    outbox d' = outbox d ++ orows /\ Forall2 outbox_for rows orows /\
    run_constraints (StreamID.Tenant sid) (StreamID.Canonical sid) (ap_Constraints p)
      (owners d) = Some (owners d') /\
    cache_after p rec (state_cache d) (state_cache d') /\ same_rest d d' /\
    ar_StartVersion res = u64 (ap_ExpectedVersion p + 1) /\
    ar_EndVersion res = u64 (ap_ExpectedVersion p + n) /\
    ar_StartGlobalPosition res = u64 (events_seq d + 1) /\
    ar_EndGlobalPosition res = u64 (events_seq d + n) /\
    prev = chain_head (Q.stream_rows (StreamID.Tenant sid) (StreamID.Canonical sid) d).

Lemma Append_Ok p w w' res :
  db_wf (w_db w) -> Append O p w = (w', Ok res) ->
  StreamID.Validate (ap_StreamID p) = None /\ ap_Events p <> [] /\
  db_wf (w_db w') /\ append_effect p (w_db w) (w_db w') res.
Proof.
  intros Hwf. unfold Append. intros (w0 & [] & [-> Hval]%guard_err_Ok & H)%bind_Ok.
  destruct (ap_Events p) as [|ev evs] eqn:Hev; [done|].
  apply withTx_Ok in H as (w1 & w7 & Hw1 & H & Hw'). rewrite <- Hev.
  split; [done|]. split; [by rewrite Hev|].
  unfold appendTx in H.
  apply bind_Ok in H as (w2 & [] & [Hcl Hsame]%applyConstraints_Ok & H).
  apply bind_Ok in H as (w3 & now & Hnow%time_Now_Ok & H).
  apply bind_Ok in H as (w4 & prev & [Hdb4 Hprev]%readPrevHash_Ok & H).
  apply bind_Ok in H as (w5 & [s e] & Hloop & H).
  apply bind_Ok in H as (w6 & [] & Hcache%writeStateCache_Ok & H).
  injection H as <- <-.
  destruct Hsame as (He & Hsq & Ho & Hsc & Hrest).
  rewrite Hnow in Hdb4. rewrite Hw1 in *.
  assert (Hwf4 : db_wf (w_db w4)).
  { rewrite Hdb4. eapply db_wf_claims; [|exact Hwf]. done. }
  destruct (appendEvents_Ok _ _ _ _ _ _ _ _ _ _ _ _ Hwf4 Hloop)
    as (Hwf5 & rows & orows & Ha & He5 & Hs5 & Ho5 & Hf5 & Hc5 & Hsc5 & Hr5 & _ & Hpos).
  destruct Hcache as (Hca & He6 & Hs6 & Ho6 & Hc6 & Hr6).
  destruct (Hpos ltac:(by rewrite Hev)) as (-> & Hs0 & _). specialize (Hs0 eq_refl). subst s.
  rewrite Hdb4 in *. rewrite Hw'.
  split.
  { destruct Hwf5 as [a1 a2 a3 a4 a5 a6]. split; rewrite ?He6, ?Hs6, ?Ho6; done. }
  exists prev, rows, orows. simpl.
  rewrite He6, He5, Hs6, Hs5, Ho6, Ho5. rewrite He, Hsq, Ho in *.
  split_and!; try done.
  - rewrite Hcl. f_equal. unfold owners. by rewrite Hc6, Hc5.
  - by rewrite <- Hsc, <- Hsc5.
  - unfold same_rest in *. destruct_ex. split_and!; congruence.
  - rewrite Hprev. unfold Q.stream_rows. rewrite Hnow. by rewrite He.
Qed.

Lemma Append_Err p w w' e : Append O p w = (w', Err e) -> w_db w' = w_db w.
Proof.
  unfold Append. intros [H|(w1 & [] & [-> _]%guard_err_Ok & H)]%bind_Err.
  - unfold guard_err in H. destruct (StreamID.Validate _); by injection H as <-.
  - destruct (ap_Events p); [by injection H as <-|]. by eapply withTx_Err.
Qed.
End AppendSpec.
