(* ===== verification/SqliteStream.v ===== *)
(** * Streams in the SQLite store

    What a stream looks like to a reader: the rows of the stream in version
    order and the envelopes they decode to.  Append on a gap-free stream
    extends it at the end, keeps it gap free and keeps the hash chain; the
    store's global log is dense; readers see exactly what was appended. *)
From S2P Require Import Prelude Errors Streams Events Chain GoTime Sql SqliteDB SqliteStore SqliteFacts.
Import Sqlite.

(** encoding/json gives back a struct of valid UTF-8 strings, and never writes
    an empty text. *)
Definition actor_utf8 (a : actorJSON) : Prop :=
  utf8_valid (aj_Principal a) = true /\ utf8_valid (aj_OnBehalfOf a) = true /\
  utf8_valid (aj_APIKeyID a) = true /\
  map_Forall (fun k v => utf8_valid k = true /\ utf8_valid v = true) (aj_Attributes a).

Class SqliteLaws (SP : SqlitePrims) := {
  actor_json_roundtrip : forall a s, actor_utf8 a -> json_marshal_actor a = Ok s ->
    s <> "" /\ json_unmarshal_actor s = Ok a
}.

Definition actor_json (a : Actor.t) : actorJSON :=
  mkActorJSON (Actor.Kind a) (Actor.Principal a) (Actor.OnBehalfOf a) (Actor.APIKeyID a)
    (Actor.Attributes a).

(** An event whose columns can be read back: a UTF-8 actor, a four-digit year,
    a uint32 schema version. *)
Definition event_ok (ev : EventToAppend) : Prop :=
  actor_utf8 (actor_json (ea_Actor ev)) /\ GoTime.printable (ea_OccurredAt ev) = true /\
  0 <= ea_SchemaVersion ev < 2 ^ 32.

Section Stream.
Context {CP : ChainPrims} {CL : ChainLaws CP} {SP : SqlitePrims} {SL : SqliteLaws SP}.

Definition stream_of (d : DB) (sid : StreamID.t) : list EventRow :=
  Q.stream_rows (StreamID.Tenant sid) (StreamID.Canonical sid) d.

(** Versions 1 .. n without gaps. *)
Definition dense (d : DB) (sid : StreamID.t) : Prop :=
  er_version <$> stream_of d sid = seqZ 1 (Z.of_nat (length (stream_of d sid))).

Lemma event_version_small ex i :
  0 <= ex -> 0 <= i -> ex + i + 1 < 2 ^ 63 -> event_version ex i = ex + i + 1.
Proof. intros. unfold event_version. 
  rewrite (i64_small ex), (i64_small (ex + i)), i64_small, u64_small by lia. done.
Qed.

(** The columns of the new rows. *)
Lemma appended_columns sid ex rec evs : forall i prev seq rows,
  0 <= ex -> 0 <= i -> ex + i + Z.of_nat (length evs) < 2 ^ 63 ->
  appended sid ex rec i prev seq evs rows ->
  Forall (fun r => Q.in_stream (StreamID.Tenant sid) (StreamID.Canonical sid) r = true) rows /\
  er_version <$> rows = seqZ (ex + i + 1) (Z.of_nat (length evs)) /\
  er_global_position <$> rows = seqZ (seq + 1) (Z.of_nat (length evs)) /\
  er_event_id <$> rows = ea_EventID <$> evs.
Proof.
  induction evs as [|ev evs IH]; intros i prev seq [|row rows] Hex Hi Hb; simpl; try done.
  intros (actor & h & _ & _ & -> & Ha). simpl length in Hb.
  destruct (IH (i + 1) h (seq + 1) rows) as (HF & Hv & Hg & Hid); [lia|lia|lia|done|].
  csimpl. rewrite Hv, Hg, Hid.
  rewrite (seqZ_cons (ex + i + 1)), (seqZ_cons (seq + 1)) by lia.
  rewrite event_version_small, i64_small by lia.
  replace (Z.pred (Z.of_nat (S (length evs)))) with (Z.of_nat (length evs)) by lia.
  replace (ex + (i + 1) + 1) with (Z.succ (ex + i + 1)) by lia.
  replace (seq + 1 + 1) with (Z.succ (seq + 1)) by lia.
  split; [|done]. constructor; [|done].
  unfold Q.in_stream; simpl. rewrite !bool_decide_eq_true_2 by done. done.
Qed.

Lemma decode_encode_actor a s :
  actor_utf8 (actor_json a) -> encodeActor a = Ok s -> decodeActor s = Ok a.
Proof.
  intros Hu. unfold encodeActor. fold (actor_json a).
  destruct (json_marshal_actor (actor_json a)) as [out|] eqn:Hm; [|done]. intros [= ->].
  destruct (actor_json_roundtrip _ _ Hu Hm) as [Hne Hun].
  unfold decodeActor. rewrite bool_decide_eq_false_2 by done. rewrite Hun. by destruct a.
Qed.

Lemma opt_bytes_nullable b : opt_bytes (nullable b) = b.
Proof. destruct b; [done|]. apply bytes_of_str_of_bytes. Qed.

(** A new row decodes to an envelope that carries the event and continues the
    chain. *)
Lemma appended_row sid ex now i prev seq ev actor h :
  StreamID.Validate sid = None -> event_ok ev -> GoTime.printable now = true ->
  0 <= ex -> 0 <= i -> ex + i + 1 < 2 ^ 63 -> 0 <= seq < max_i64 ->
  encodeActor (ea_Actor ev) = Ok actor ->
  Chain.ComputeChainHash prev (Some (chainEnv sid (event_version ex i) ev)) = Ok h ->
  exists e,
    rowToEnvelope (Q.with_gp (seq + 1)
      (eventRow sid (event_version ex i) (GoTime.formatTime now) actor h prev ev)) = Ok e /\
    carries ev e /\ Chain.links prev e /\ Envelope.Hash e = h /\ Envelope.PrevHash e = prev /\
    Envelope.TenantID e = StreamID.Tenant sid /\ Envelope.StreamID e = sid /\
    Envelope.Version e = ex + i + 1 /\ Envelope.GlobalPosition e = seq + 1 /\
    Envelope.RecordedAt e = now.
Proof.
  intros Hv (Hu & Hocc & Hsv) Hnow Hex Hi Hb Hseq Hact Hh.
  unfold rowToEnvelope. cbn.
  rewrite (StreamID.Parse_Canonical sid Hv), (decode_encode_actor _ _ Hu Hact).
  rewrite !GoTime.parse_format by done.
  rewrite event_version_small in Hh |- * by lia. unfold max_i64 in Hseq.
  eexists. split; [reflexivity|]. cbn.
  rewrite i64_small, !u64_small, u32_small by lia. rewrite !opt_bytes_nullable.
  split_and!; done.
Qed.

(** The new rows decode, carry the events in order and continue the chain. *)
Lemma appended_envs sid ex now evs : forall i prev seq rows,
  StreamID.Validate sid = None -> Forall event_ok evs -> GoTime.printable now = true ->
  0 <= ex -> 0 <= i -> ex + i + Z.of_nat (length evs) < 2 ^ 63 ->
  0 <= seq -> seq + Z.of_nat (length evs) <= max_i64 ->
  appended sid ex (GoTime.formatTime now) i prev seq evs rows ->
  exists envs, collect rows = Ok envs /\ Forall2 carries evs envs /\ Chain.chain_ok prev envs /\
    Envelope.Version <$> envs = seqZ (ex + i + 1) (Z.of_nat (length evs)) /\
    Envelope.GlobalPosition <$> envs = seqZ (seq + 1) (Z.of_nat (length evs)) /\
    Forall (fun e => Envelope.StreamID e = sid /\ Envelope.TenantID e = StreamID.Tenant sid /\
                     Envelope.RecordedAt e = now) envs.
Proof.
  induction evs as [|ev evs IH]; intros i prev seq [|row rows] Hv Hok Hnow Hex Hi Hb Hs Hm; simpl;
    try done.
  - intros _. exists []. simpl. split_and!; constructor.
  - intros (actor & h & Hact & Hh & -> & Ha). apply Forall_cons in Hok as [Hok1 Hok].
    simpl length in Hb, Hm.
    destruct (appended_row sid ex now i prev seq ev actor h)
      as (e & Hrow & Hc & Hl & Hhash & Hprev & Ht & Hsid & Hver & Hgp & Hrec);
      [try done; lia..|].
    destruct (IH (i + 1) h (seq + 1) rows)
      as (envs & Hcol & HF & Hch & Hvs & Hgs & Hall); [try done; lia..|].
    exists (e :: envs). unfold collect in *. cbn [mapR]. rewrite Hrow, Hcol.
    split; [done|]. split; [by constructor|]. split; [simpl; by rewrite Hhash|].
    csimpl. rewrite Hvs, Hgs, Hver, Hgp.
    rewrite (seqZ_cons (ex + i + 1)), (seqZ_cons (seq + 1)) by lia.
    replace (Z.pred (Z.of_nat (S (length evs)))) with (Z.of_nat (length evs)) by lia.
    replace (ex + (i + 1) + 1) with (Z.succ (ex + i + 1)) by lia.
    replace (seq + 1 + 1) with (Z.succ (seq + 1)) by lia.
    split_and!; try done. constructor; done.
Qed.

(** ** How the stream evolves *)

Lemma filter_version_nodup d t c :
  db_wf d -> NoDup (er_version <$> List.filter (Q.in_stream t c) (events d)).
Proof.
  intros Hwf. pose proof (wf_version d Hwf) as Hnd. revert Hnd. clear Hwf.
  induction (events d) as [|r l IH]; csimpl; [constructor|].
  intros [Hni Hnd]%NoDup_cons. destruct (Q.in_stream t c r) eqn:Hin; [|auto].
  csimpl. apply NoDup_cons. split; [|auto]. intros (r' & Hv & Hr')%list_elem_of_fmap.
  rewrite list_elem_of_In in Hr'. apply filter_In in Hr' as [Hr' Hin'].
  rewrite <- list_elem_of_In in Hr'. apply Hni. apply list_elem_of_fmap. exists r'. split; [|done].
  unfold Q.in_stream in *. bool_to_prop. unfold version_key. congruence.
Qed.

Lemma stream_rows_elem d t c r :
  r ∈ Q.stream_rows t c d <-> r ∈ events d /\ Q.in_stream t c r = true.
Proof.
  unfold Q.stream_rows. rewrite order_by_perm, list_elem_of_In, filter_In, <- list_elem_of_In. done.
Qed.

(** Rows of stream [sid] above all its versions extend it at the end. *)
Lemma stream_of_own d d' sid rows :
  db_wf d -> events d' = events d ++ rows ->
  Forall (fun r => Q.in_stream (StreamID.Tenant sid) (StreamID.Canonical sid) r = true) rows ->
  dense d sid ->
  er_version <$> rows = seqZ (Z.of_nat (length (stream_of d sid)) + 1) (Z.of_nat (length rows)) ->
  stream_of d' sid = stream_of d sid ++ rows /\ dense d' sid.
Proof.
  intros Hwf He HF Hd Hv.
  assert (Hs : stream_of d' sid = stream_of d sid ++ rows).
  { unfold stream_of, Q.stream_rows. rewrite He, List.filter_app, (filter_all _ rows) by done.
    apply order_by_app; [by apply filter_version_nodup|by eapply seqZ_sorted|].
    intros x y Hx Hy.
    assert (Hkx : er_version x ∈ er_version <$> stream_of d sid).
    { apply list_elem_of_fmap_2. unfold stream_of, Q.stream_rows. by rewrite order_by_perm. }
    assert (Hky : er_version y ∈ er_version <$> rows) by by apply list_elem_of_fmap_2.
    rewrite Hd in Hkx. rewrite Hv in Hky. apply elem_of_seqZ in Hkx, Hky. lia. }
  split; [done|]. unfold dense. rewrite Hs, fmap_app, Hd, Hv, length_app, Nat2Z.inj_add.
  rewrite seqZ_app by lia. do 2 f_equal. lia.
Qed.

(** Streams other than [sid] do not change. *)
Lemma stream_of_other d d' sid sid' rows :
  events d' = events d ++ rows ->
  Forall (fun r => Q.in_stream (StreamID.Tenant sid) (StreamID.Canonical sid) r = true) rows ->
  StreamID.Validate sid = None -> StreamID.Validate sid' = None -> sid' <> sid ->
  stream_of d' sid' = stream_of d sid'.
Proof.
  intros He HF Hv Hv' Hne. unfold stream_of, Q.stream_rows. f_equal.
  rewrite He, List.filter_app, (filter_none _ rows), app_nil_r; [done|].
  eapply Forall_impl; [exact HF|]. intros r Hin. cbv beta in Hin.
  destruct (Q.in_stream (StreamID.Tenant sid') _ r) eqn:Hin'; [|done].
  unfold Q.in_stream in *. bool_to_prop. destruct Hne.
  apply StreamID.Canonical_inj; congruence.
Qed.

(** A version that exists cannot be appended again. *)
Lemma append_no_overwrite d d' sid ex rec prev evs rows :
  db_wf d -> db_wf d' -> events d' = events d ++ rows ->
  0 <= ex -> ex + Z.of_nat (length evs) < 2 ^ 63 ->
  appended sid ex rec 0 prev (events_seq d) evs rows ->
  forall r, r ∈ stream_of d sid -> ~ (ex < er_version r <= ex + Z.of_nat (length evs)).
Proof.
  intros Hwf Hwf' He Hex Hb Ha r Hr Hv.
  destruct (appended_columns sid ex rec evs 0 prev (events_seq d) rows) as (HF & Hvs & _);
    [lia|lia|lia|done|].
  assert (Hk : er_version r ∈ er_version <$> rows).
  { rewrite Hvs. apply elem_of_seqZ. lia. }
  apply list_elem_of_fmap in Hk as (r' & Hveq & Hr').
  rewrite Forall_forall in HF. specialize (HF r' Hr').
  apply stream_rows_elem in Hr as [Hr Hin].
  pose proof (wf_version d' Hwf') as Hnd. rewrite He, fmap_app in Hnd.
  apply NoDup_app in Hnd as (_ & Hdisj & _).
  apply (Hdisj (version_key r)); [by apply list_elem_of_fmap_2|].
  apply list_elem_of_fmap. exists r'. split; [|done].
  unfold Q.in_stream in *. bool_to_prop. unfold version_key. congruence.
Qed.

Lemma dense_elem d sid v :
  dense d sid -> 1 <= v <= Z.of_nat (length (stream_of d sid)) ->
  exists r, r ∈ stream_of d sid /\ er_version r = v.
Proof.
  intros Hd Hv. assert (H : v ∈ er_version <$> stream_of d sid).
  { rewrite Hd. apply elem_of_seqZ. lia. }
  apply list_elem_of_fmap in H as (r & -> & Hr). eauto.
Qed.

(** On a gap-free stream, an Append that expects at most the current version
    succeeds only at the current version, and extends the stream there. *)
Lemma Append_dense (O : Oracle) p w w' res :
  db_wf (w_db w) -> dense (w_db w) (ap_StreamID p) ->
  0 <= ap_ExpectedVersion p <= Z.of_nat (length (stream_of (w_db w) (ap_StreamID p))) ->
  ap_ExpectedVersion p + Z.of_nat (length (ap_Events p)) < 2 ^ 63 ->
  Append O p w = (w', Ok res) ->
  ap_ExpectedVersion p = Z.of_nat (length (stream_of (w_db w) (ap_StreamID p))) /\
  exists prev rows,
    prev = chain_head (stream_of (w_db w) (ap_StreamID p)) /\
    appended (ap_StreamID p) (ap_ExpectedVersion p) (GoTime.formatTime (ar_RecordedAt res))
      0 prev (events_seq (w_db w)) (ap_Events p) rows /\
    events (w_db w') = events (w_db w) ++ rows /\
    stream_of (w_db w') (ap_StreamID p) = stream_of (w_db w) (ap_StreamID p) ++ rows /\
    dense (w_db w') (ap_StreamID p).
Proof.
  intros Hwf Hd Hex Hb HA.
  apply Append_Ok in HA as (Hv & Hne & Hwf' & prev & rows & orows & Ha & He & _ & _ & _ & _ & _ & _
    & _ & _ & _ & _ & Hprev); [|done].
  assert (Heq : ap_ExpectedVersion p = Z.of_nat (length (stream_of (w_db w) (ap_StreamID p)))).
  { destruct (decide (ap_ExpectedVersion p < Z.of_nat (length (stream_of (w_db w) (ap_StreamID p)))))
      as [Hlt|]; [exfalso|lia].
    destruct (dense_elem _ _ (ap_ExpectedVersion p + 1) Hd) as (r & Hr & Hrv); [lia|].
    refine (append_no_overwrite _ _ _ _ _ _ _ _ Hwf Hwf' He _ Hb Ha r Hr _); [lia|].
    destruct (ap_Events p); [done|]. simpl. lia. }
  split; [done|]. exists prev, rows. split; [done|]. split; [done|]. split; [done|].
  destruct (appended_columns (ap_StreamID p) (ap_ExpectedVersion p)
    (GoTime.formatTime (ar_RecordedAt res)) (ap_Events p) 0 prev (events_seq (w_db w)) rows)
    as (HF & Hvs & _); [lia|lia|lia|exact Ha|].
  apply (stream_of_own _ _ _ rows Hwf He HF Hd). rewrite Hvs, Heq.
  rewrite (appended_length _ _ _ _ _ _ _ _ Ha). f_equal. lia.
Qed.
End Stream.
