(* ===== verification/SqliteAppend.v ===== *)
(** * Correctness of Append and of the readers on SQLite

    Progress and the reported errors when no statement fails, what readers
    see after an Append, and the theorems about the store. *)
From S2P Require Import Prelude Errors Streams Events Chain GoTime Sql SqliteDB SqliteStore SqliteFacts SqliteStream.
Import Sqlite.

(** ** Readers *)
Section Read.
Context {CP : ChainPrims} {CL : ChainLaws CP} {SP : SqlitePrims} {SL : SqliteLaws SP}.

Lemma stream_of_strict d sid :
  db_wf d -> StronglySorted (fun a b => er_version a < er_version b) (stream_of d sid).
Proof. intros Hwf. apply order_by_strict. by apply filter_version_nodup. Qed.

(** ReadStreamFromVersion selects from the stream in version order. *)
Lemma read_rows d sid v :
  db_wf d ->
  order_by er_version
    (List.filter (fun r => Q.in_stream (StreamID.Tenant sid) (StreamID.Canonical sid) r &&
                           (v <? er_version r)) (events d)) =
  List.filter (fun r => v <? er_version r) (stream_of d sid).
Proof.
  intros Hwf. apply order_by_unique.
  - apply StronglySorted_lfilter. by apply stream_of_strict.
  - rewrite filter_andb. apply Permutation_lfilter. apply order_by_perm.
Qed.

Lemma ReadStream_inv O sid from w w' r :
  db_wf (w_db w) -> ReadStream O sid from w = (w', r) ->
  w_db w' = w_db w /\
  (forall envs, r = Ok envs -> StreamID.Validate sid = None /\
     collect (List.filter (fun r => i64 from <? er_version r) (stream_of (w_db w) sid)) = Ok envs).
Proof.
  intros Hwf. unfold ReadStream. destruct r as [envs|e].
  - intros (w1 & [] & [-> Hv]%guard_err_Ok & H)%bind_Ok.
    apply bind_Ok in H as (w2 & rows & [Hdb [= <-]]%select_Ok & [-> Hc]%of_res_Ok).
    split; [done|]. intros envs' [= <-]. split; [done|]. by rewrite read_rows in Hc.
  - intros [H|(w1 & [] & [-> _]%guard_err_Ok & H)]%bind_Err.
    + unfold guard_err in H. split; [|done]. destruct (StreamID.Validate sid); by injection H as <-.
    + apply bind_Err in H as [H%select_db|(w2 & rows & H%select_db & H2)]; split; try done.
      unfold of_res in H2. injection H2 as <- _. done.
Qed.

Lemma ReadStream_run O sid from w :
  db_wf (w_db w) -> StreamID.Validate sid = None -> o_fault O (w_tick w) = None ->
  ReadStream O sid from w =
    (mkWorld (w_db w) (S (w_tick w)),
     collect (List.filter (fun r => i64 from <? er_version r) (stream_of (w_db w) sid))).
Proof.
  intros Hwf Hv Hf. unfold ReadStream. rewrite Hv.
  unfold guard_err. erewrite bind_run; [|reflexivity]. unfold Q.ReadStreamFromVersion.
  unfold mbind, M_bind. rewrite select_run by done. unfold of_res. by rewrite read_rows.
Qed.

Lemma collect_drop rows envs n : collect rows = Ok envs -> collect (drop n rows) = Ok (drop n envs).
Proof.
  unfold collect. rewrite !mapR_Forall2. intros H. by apply Forall2_drop.
Qed.

(** On a gap-free stream, reading from version [v] skips [v] events. *)
Lemma read_dense d sid v :
  dense d sid -> 0 <= v < 2 ^ 63 ->
  List.filter (fun r => i64 v <? er_version r) (stream_of d sid) =
    drop (Z.to_nat v) (stream_of d sid).
Proof.
  intros Hd Hv. rewrite i64_small by lia. rewrite (filter_drop er_version _ 1) by (done || lia).
  do 2 f_equal. lia.
Qed.

(** ** The chain *)

Lemma chain_head_ok rows envs prev :
  collect rows = Ok envs -> Chain.chain_ok prev envs -> rows <> [] ->
  chain_head rows = Chain.head_hash prev envs.
Proof.
  unfold collect. rewrite mapR_Forall2. intros HF Hc Hne. unfold chain_head, Chain.head_hash.
  destruct rows as [|row rows _] using rev_ind; [done|].
  apply Forall2_app_inv_l in HF as (e1 & e2 & _ & H2 & ->).
  inversion H2 as [|? e ? ? Hrow Hnil]; subst. inversion Hnil; subst.
  rewrite !last_snoc. simpl.
  apply Chain.chain_ok_app in Hc as [_ [Hl _]].
  apply Chain.links_inv in Hl as (c & _ & _ & Hh).
  assert (He : Envelope.Hash e = default [] (er_hash row)).
  { unfold rowToEnvelope in Hrow. repeat case_match; simplify_eq; done. }
  pose proof (sha256_length (Chain.head_hash prev e1 ++ c)) as Hlen.
  unfold Chain.head_hash in Hlen. unfold Chain.head_hash in Hh.
  destruct (er_hash row) as [[|b h]|]; simpl in *; rewrite He in *; rewrite <- Hh in Hlen; done.
Qed.
End Read.

(** ** Runs in which no statement fails *)
Section Progress.
Context {CP : ChainPrims} {CL : ChainLaws CP} {SP : SqlitePrims} {SL : SqliteLaws SP}.
Context (O : Oracle) (NF : forall t, o_fault O t = None).

Lemma stmt_run {A} (f : Time -> DB -> DB * res A) w :
  stmt O f w = (mkWorld (fst (f (o_now O (w_tick w)) (w_db w))) (S (w_tick w)),
                snd (f (o_now O (w_tick w)) (w_db w))).
Proof. unfold stmt. rewrite NF. by destruct (f _ _). Qed.

Lemma withTx_run {A} (fn : M World A) w w2 r :
  fn (mkWorld (w_db w) (S (w_tick w))) = (w2, r) ->
  match r with
  | Ok a => withTx O fn w = (mkWorld (w_db w2) (S (w_tick w2)), Ok a)
  | Err e => withTx O fn w = (mkWorld (w_db w) (w_tick w2), Err e)
  end.
Proof.
  intros H. unfold withTx. rewrite stmt_run. simpl. rewrite H.
  destruct r; [|done]. by rewrite stmt_run.
Qed.

(** The constraint operations fail exactly when [run_constraints] does. *)
Lemma applyConstraints_run t c ops : forall w m,
  run_constraints t c ops (owners (w_db w)) = Some m ->
  exists w', forM_ ops (applyConstraint O t c) w = (w', Ok tt).
Proof.
  induction ops as [|op ops IH]; intros w m; cbn [forM_ run_constraints]; [by eexists|].
  destruct (run_constraint t c op (owners (w_db w))) as [m1|] eqn:H1; [|done]. simpl. intros Hm.
  assert (exists w1, applyConstraint O t c op w = (w1, Ok tt)) as [w1 Hw1].
  { unfold run_constraint in H1. unfold applyConstraint.
    destruct (co_Op op =? ClaimConstraint).
    - unfold map_err, Q.ClaimUnique. rewrite stmt_run. unfold Q.claim_unique.
      unfold owners in H1. rewrite lookup_fmap in H1.
      destruct (unique_claims (w_db w) !! _); [done|]. simpl. eauto.
    - destruct (co_Op op =? ReleaseConstraint); [|done].
      unfold wrap_err, Q.ReleaseUnique, exec. rewrite stmt_run. simpl. eauto. }
  erewrite bind_run by exact Hw1.
  apply applyConstraint_Ok in Hw1 as [Hr _]. rewrite Hr in H1. injection H1 as <-. by eapply IH.
Qed.

(** A claim somebody holds is reported as such. *)
Lemma applyConstraint_taken t c op w o :
  co_Op op = ClaimConstraint -> owners (w_db w) !! (t, co_Scope op, co_Value op) = Some o ->
  exists w', applyConstraint O t c op w = (w', Err (ESent ErrConstraintViolated)).
Proof.
  intros Hop Ho. unfold applyConstraint. rewrite Hop, Z.eqb_refl.
  unfold map_err, Q.ClaimUnique. rewrite stmt_run. unfold Q.claim_unique.
  unfold owners in Ho. rewrite lookup_fmap in Ho.
  destruct (unique_claims (w_db w) !! _); [|done]. simpl. eexists. reflexivity.
Qed.

Lemma readPrevHash_run t c w :
  readPrevHash O t c w =
    (mkWorld (w_db w) (S (w_tick w)), Ok (chain_head (Q.stream_rows t c (w_db w)))).
Proof.
  unfold readPrevHash, try, Q.LastStreamHash, mbind, M_bind. rewrite select_run by apply NF.
  unfold chain_head. destruct (last _) as [row|]; [|done].
  destruct (er_hash row) as [[|b h]|]; done.
Qed.

Lemma insert_event_run arg d :
  version_key arg ∉ (version_key <$> events d) -> event_key arg ∉ (event_key <$> events d) ->
  events_seq d < max_i64 ->
  Q.insert_event arg d =
    (set_seq (events_seq d + 1)
       (set_events (fun t => t ++ [Q.with_gp (events_seq d + 1) arg]) d), Ok (events_seq d + 1)).
Proof.
  intros Hv He Hs. unfold Q.insert_event.
  rewrite (proj2 (existsb_key_false _ version_key (version_key arg) _ (same_version_key arg)) Hv).
  rewrite (proj2 (existsb_key_false _ event_key (event_key arg) _ (same_event_key _ _)) He).
  destruct (Z.leb_spec max_i64 (events_seq d)); [lia|]. done.
Qed.

Lemma outbox_below d o : db_wf d -> o ∈ outbox d -> 1 <= ob_global_position o <= events_seq d.
Proof.
  intros Hwf Ho. pose proof (wf_outbox d Hwf) as H. rewrite Forall_forall in H.
  destruct (H o Ho) as (r & Hr & _ & <- & _).
  assert (Hg : er_global_position r ∈ er_global_position <$> events d) by by apply list_elem_of_fmap_2.
  rewrite (wf_pos d Hwf) in Hg. apply elem_of_seqZ in Hg. lia.
Qed.

Lemma insert_outbox_run t gp id now d :
  (t, gp) ∉ (outbox_key <$> outbox d) ->
  Q.insert_outbox t gp id now d =
    (set_outbox (fun x => x ++ [mkOutboxRec t gp id (GoTime.strftime_now now) None 0 None None]) d,
     Ok tt).
Proof.
  intros Hni. unfold Q.insert_outbox.
  by rewrite (proj2 (existsb_key_false _ outbox_key (t, gp) _ (same_outbox_key t gp)) Hni).
Qed.

Lemma insert_pair_run arg now d :
  db_wf d -> version_key arg ∉ (version_key <$> events d) ->
  event_key arg ∉ (event_key <$> events d) -> events_seq d < max_i64 ->
  exists d1 d2, Q.insert_event arg d = (d1, Ok (events_seq d + 1)) /\
    Q.insert_outbox (er_tenant_id arg) (events_seq d + 1) (er_event_id arg) now d1 = (d2, Ok tt) /\
    events d2 = events d ++ [Q.with_gp (events_seq d + 1) arg] /\
    events_seq d2 = events_seq d + 1 /\ db_wf d2.
Proof.
  intros Hwf Hv He Hs. pose proof (insert_event_run arg d Hv He Hs) as Hins.
  assert (Hni : (er_tenant_id arg, events_seq d + 1) ∉ (outbox_key <$> outbox d)).
  { intros (o & Ho & Hin)%list_elem_of_fmap. apply outbox_below in Hin; [|done].
    unfold outbox_key in Ho. injection Ho. lia. }
  do 2 eexists. split; [exact Hins|].
  pose proof (insert_outbox_run (er_tenant_id arg) (events_seq d + 1) (er_event_id arg) now) as Hout.
  split; [apply Hout; exact Hni|]. split; [done|]. split; [done|].
  eapply insert_pair_wf; [exact Hwf|exact Hins|]. apply Hout. exact Hni.
Qed.

(** Events the encoders accept. *)
Definition encodable (sid : StreamID.t) (ev : EventToAppend) : Prop :=
  (exists s, encodeActor (ea_Actor ev) = Ok s) /\
  (forall v, exists b, Chain.canonicalEnvelopeBytes (chainEnv sid v ev) = Ok b).

Lemma encodable_hash sid ev v prev :
  encodable sid ev -> length prev = Chain.sha256_Size ->
  exists h, Chain.ComputeChainHash prev (Some (chainEnv sid v ev)) = Ok h /\
    length h = Chain.sha256_Size.
Proof.
  intros [_ Hb] Hp. destruct (Hb v) as [b Hbv]. unfold Chain.ComputeChainHash.
  rewrite Hp, Nat.eqb_refl. simpl. rewrite Hbv. eexists. split; [done|]. apply sha256_length.
Qed.

Lemma appendEvents_run sid ex rec evs : forall i prev sp ep w,
  db_wf (w_db w) -> 0 <= ex -> 0 <= i -> ex + i + Z.of_nat (length evs) < 2 ^ 63 ->
  length prev = Chain.sha256_Size -> Forall (encodable sid) evs ->
  events_seq (w_db w) + Z.of_nat (length evs) <= max_i64 ->
  (forall v, ex + i + 1 <= v <= ex + i + Z.of_nat (length evs) ->
     (StreamID.Tenant sid, StreamID.Canonical sid, v) ∉ (version_key <$> events (w_db w))) ->
  NoDup (ea_EventID <$> evs) ->
  (forall ev, ev ∈ evs -> (StreamID.Tenant sid, ea_EventID ev) ∉ (event_key <$> events (w_db w))) ->
  exists w' r, appendEvents O sid ex rec i prev sp ep evs w = (w', Ok r).
Proof.
  induction evs as [|ev evs IH]; intros i prev sp ep w Hwf Hex Hi Hb Hp Henc Hm Hver Hnd Hid;
    cbn [appendEvents]; [by do 2 eexists|].
  apply Forall_cons in Henc as [He Henc]. simpl length in *. csimpl in Hnd.
  apply NoDup_cons in Hnd as [Hni Hnd].
  destruct (proj1 He) as [actor Hact]. rewrite Hact.
  erewrite bind_run by reflexivity.
  destruct (encodable_hash sid ev (event_version ex i) prev He Hp) as (h & Hh & Hlh). rewrite Hh.
  erewrite bind_run by reflexivity.
  assert (Harg : version_key (eventRow sid (event_version ex i) rec actor h prev ev) =
      (StreamID.Tenant sid, StreamID.Canonical sid, ex + i + 1) /\
    event_key (eventRow sid (event_version ex i) rec actor h prev ev) =
      (StreamID.Tenant sid, ea_EventID ev)).
  { unfold version_key, event_key; simpl. by rewrite event_version_small, i64_small by lia. }
  generalize dependent (eventRow sid (event_version ex i) rec actor h prev ev).
  intros arg [Hvk Hek].
  destruct (insert_pair_run arg (o_now O (S (w_tick w))) (w_db w))
    as (d1 & d2 & Hins & Hout & Hev2 & Hseq2 & Hwf2);
    [done|rewrite Hvk; apply Hver; lia|rewrite Hek; apply (Hid ev); by left|lia|].
  assert (H1 : map_err (Q.InsertEvent O arg) w =
    (mkWorld d1 (S (w_tick w)), Ok (events_seq (w_db w) + 1))).
  { unfold map_err, Q.InsertEvent. by rewrite stmt_run, Hins. }
  rewrite (bind_run _ _ _ _ _ H1).
  injection Hek as Ht He'. rewrite Ht, He' in Hout.
  assert (H2 : wrap_err "insert outbox" (Q.InsertOutbox O (StreamID.Tenant sid)
      (events_seq (w_db w) + 1) (ea_EventID ev)) (mkWorld d1 (S (w_tick w))) =
    (mkWorld d2 (S (S (w_tick w))), Ok tt)).
  { unfold wrap_err, Q.InsertOutbox. rewrite stmt_run. cbn [w_db w_tick]. by rewrite Hout. }
  rewrite (bind_run _ _ _ _ _ H2).
  apply IH; try done.
  - lia.
  - lia.
  - cbn [w_db]. rewrite Hseq2. lia.
  - intros v Hv. cbn [w_db]. rewrite Hev2, fmap_app. intros [Hin|Hin]%elem_of_app.
    + apply (Hver v); [lia|done].
    + csimpl in Hin. apply list_elem_of_singleton in Hin.
      change (version_key (Q.with_gp _ arg)) with (version_key arg) in Hin.
      rewrite Hvk in Hin. injection Hin. lia.
  - intros ev' Hev'. cbn [w_db]. rewrite Hev2, fmap_app. intros [Hin|Hin]%elem_of_app.
    + apply (Hid ev'); [by right|done].
    + csimpl in Hin. apply list_elem_of_singleton in Hin.
      unfold event_key in Hin; simpl in Hin. injection Hin as _ Heq. apply Hni.
      rewrite <- He', <- Heq.
      by apply list_elem_of_fmap_2.
Qed.
End Progress.

(** ** A concrete instance, for the witnesses *)
Section Concrete.
Definition actor_tuple (a : actorJSON) :=
  (aj_Kind a, aj_Principal a, aj_OnBehalfOf a, aj_APIKeyID a, aj_Attributes a).
Definition actor_untuple (x : Z * string * string * string * gmap string string) : actorJSON :=
  let '(k, p, o, i, m) := x in mkActorJSON k p o i m.

Definition concrete_sqlite : SqlitePrims := {|
  json_jsonb := fun s => Ok s;
  json_marshal_actor := fun a =>
    Ok (String "a" (str_of_bytes (pos_bytes (encode (actor_tuple a)))));
  json_unmarshal_actor := fun s =>
    match s with
    | String _ s' =>
        match decode (bytes_pos (bytes_of_str s')) with
        | Some x => Ok (actor_untuple x)
        | None => Err (ENew "invalid")
        end
    | EmptyString => Err (ENew "unexpected end of JSON input")
    end
|}.

Lemma concrete_sqlite_laws : SqliteLaws concrete_sqlite.
Proof.
  split. intros a s _ H. cbn [json_marshal_actor concrete_sqlite] in H. injection H as <-.
  split; [done|]. cbn [json_unmarshal_actor concrete_sqlite].
  rewrite bytes_of_str_of_bytes, bytes_pos_bytes, decode_encode. by destruct a.
Qed.
End Concrete.

Definition demo_oracle : Oracle := no_faults (fun n => 1700000000000000000 + Z.of_nat n).
Definition demo_sid : StreamID.t := StreamID.mk "acme" "order" "o-1".
Definition demo_event (id : UUID) : EventToAppend :=
  mkEventToAppend id "shop.v1.OrderPlaced" 1 1700000000123000000 7 7 9 Actor.zero
    [Byte.x41; Byte.x42] [] [].
Definition demo_params (expected : Z) (ids : list UUID) (ops : list ConstraintOp) : AppendParams :=
  mkAppendParams demo_sid expected (demo_event <$> ids) ops None "" 0 false.
Definition demo_append (p : AppendParams) (w : World) : World * res AppendResult :=
  Append (CP := concrete_prims) (SP := concrete_sqlite) demo_oracle p w.
Definition demo_claim : ConstraintOp := mkConstraintOp ClaimConstraint "email" "a@b".
Definition demo_w0 : World := mkWorld empty_db 0.
(** The store after two events were appended and an email claimed. *)
Definition demo_w1 : World := fst (demo_append (demo_params 0 [11; 12] [demo_claim]) demo_w0).

Lemma demo_append_1 :
  demo_append (demo_params 0 [11; 12] [demo_claim]) demo_w0 =
  (demo_w1, Ok (mkAppendResult 1 2 1 2 (1700000000000000000 + 2))).
Proof. vm_compute. reflexivity. Qed.

Lemma demo_w1_wf : db_wf (w_db demo_w1).
Proof.
  pose proof demo_append_1 as H. unfold demo_append in H.
  by apply Append_Ok in H as (_ & _ & ? & _); [|apply empty_db_wf].
Qed.

Lemma demo_event_ok id : event_ok (demo_event id).
Proof.
  split; [|split; [vm_compute; reflexivity|simpl; lia]].
  split_and!; try reflexivity. apply map_Forall_empty.
Qed.

(** ** Theorems *)

(** C1: Append is atomic and keeps the tables consistent.  Whatever statement
    of the transaction fails (begin, a claim, an insert, the cache write,
    commit), an error leaves every table as it was; on success all the effects
    are there together: one events row per event at consecutive versions and
    consecutive global positions, one pending outbox row per event row, the
    constraint operations applied in order, the state_cache row, and nothing
    else.  The invariant holds afterwards: global positions are 1 .. n without
    gaps, (tenant, stream, version) and (tenant, event id) are unique, and each
    outbox row points to its event. *)
Theorem append_atomic (CP : ChainPrims) (SP : SqlitePrims) (O : Oracle) p w w' r :
  db_wf (w_db w) -> Append O p w = (w', r) ->
  db_wf (w_db w') /\
  match r with
  | Err _ => w_db w' = w_db w
  | Ok res => append_effect p (w_db w) (w_db w') res
  end.
Proof.
  intros Hwf HA. destruct r as [res|e].
  - by apply Append_Ok in HA as (_ & _ & ? & ?).
  - pose proof (Append_Err O p w w' e HA) as E. by rewrite E.
Qed.

Lemma append_atomic_witness :
  db_wf (w_db demo_w1) /\ length (events (w_db demo_w1)) = 2%nat /\
  length (outbox (w_db demo_w1)) = 2%nat.
Proof.
  split; [|vm_compute; done].
  eapply (append_atomic concrete_prims concrete_sqlite demo_oracle _ demo_w0).
  - apply empty_db_wf.
  - apply demo_append_1.
Defined.

(** C7: optimistic concurrency.  A successful Append never writes over an
    existing version: no version in expected+1 .. expected+n existed.  On a
    gap-free stream, a caller whose expected version is at most the current
    one (every caller that loaded the stream) succeeds only if it is exactly
    the current one, and then the stream stays gap free. *)
Theorem append_optimistic_lock (CP : ChainPrims) (SP : SqlitePrims) (O : Oracle) p w w' res :
  db_wf (w_db w) -> 0 <= ap_ExpectedVersion p ->
  ap_ExpectedVersion p + Z.of_nat (length (ap_Events p)) < 2 ^ 63 ->
  Append O p w = (w', Ok res) ->
  (forall r, r ∈ stream_of (w_db w) (ap_StreamID p) ->
     ~ (ap_ExpectedVersion p < er_version r <= ap_ExpectedVersion p + Z.of_nat (length (ap_Events p)))) /\
  (dense (w_db w) (ap_StreamID p) ->
   ap_ExpectedVersion p <= Z.of_nat (length (stream_of (w_db w) (ap_StreamID p))) ->
   ap_ExpectedVersion p = Z.of_nat (length (stream_of (w_db w) (ap_StreamID p))) /\
   dense (w_db w') (ap_StreamID p)).
Proof.
  intros Hwf Hex Hb HA. split.
  - destruct (Append_Ok O p w w' res Hwf HA)
      as (_ & _ & Hwf' & prev & rows & orows & Ha & He & _).
    by apply (append_no_overwrite _ _ _ _ _ _ _ _ Hwf Hwf' He Hex Hb Ha).
  - intros Hd Hle.
    destruct (Append_dense O p w w' res Hwf Hd) as (Heq & _ & _ & _ & _ & _ & _ & Hd');
      [lia|done|done|]. done.
Qed.

Lemma append_optimistic_lock_witness :
  dense (w_db demo_w1) demo_sid /\ length (stream_of (w_db demo_w1) demo_sid) = 2%nat.
Proof.
  split; [|vm_compute; done].
  apply (append_optimistic_lock concrete_prims concrete_sqlite demo_oracle
           (demo_params 0 [11; 12] [demo_claim]) demo_w0 demo_w1 _
           empty_db_wf ltac:(vm_compute; done) ltac:(vm_compute; done) demo_append_1).
  - vm_compute. reflexivity.
  - vm_compute. discriminate.
Defined.

(** What a reader finds after an Append to a gap-free, verified stream. *)
Lemma append_extends (CP : ChainPrims) (CL : ChainLaws CP) (SP : SqlitePrims) (SL : SqliteLaws SP)
    (O : Oracle) p w w' res envs :
  db_wf (w_db w) -> dense (w_db w) (ap_StreamID p) ->
  0 <= ap_ExpectedVersion p <= Z.of_nat (length (stream_of (w_db w) (ap_StreamID p))) ->
  ap_ExpectedVersion p + Z.of_nat (length (ap_Events p)) < 2 ^ 63 ->
  Forall event_ok (ap_Events p) -> GoTime.printable (ar_RecordedAt res) = true ->
  collect (stream_of (w_db w) (ap_StreamID p)) = Ok envs ->
  Chain.chain_ok Chain.ZeroHash envs ->
  Append O p w = (w', Ok res) ->
  exists news,
    collect (stream_of (w_db w') (ap_StreamID p)) = Ok (envs ++ news) /\
    Chain.chain_ok Chain.ZeroHash (envs ++ news) /\
    Forall2 carries (ap_Events p) news /\
    Envelope.Version <$> news =
      seqZ (ap_ExpectedVersion p + 1) (Z.of_nat (length (ap_Events p))) /\
    Envelope.GlobalPosition <$> news =
      seqZ (events_seq (w_db w) + 1) (Z.of_nat (length (ap_Events p))) /\
    Forall (fun e => Envelope.StreamID e = ap_StreamID p /\
                     Envelope.TenantID e = StreamID.Tenant (ap_StreamID p) /\
                     Envelope.RecordedAt e = ar_RecordedAt res) news.
Proof.
  intros Hwf Hd Hex Hb Hok Hnow Hcol Hch HA.
  destruct (Append_dense O p w w' res Hwf Hd Hex Hb HA)
    as (Heq & prev & rows & Hprev & Ha & He & Hs & _).
  destruct (Append_Ok O p w w' res Hwf HA) as (Hv & _ & Hwf' & _ & _ & _ & _ & _ & Hseq & _).
  pose proof (wf_seq _ Hwf'). pose proof (wf_seq _ Hwf).
  destruct (appended_envs (ap_StreamID p) (ap_ExpectedVersion p) (ar_RecordedAt res) (ap_Events p)
    0 prev (events_seq (w_db w)) rows) as (news & Hc & HF & Hcn & Hvs & Hgs & Hall); [try done; lia..|].
  exists news. rewrite Hs. split.
  { unfold collect in *. by rewrite mapR_app, Hcol, Hc. }
  split.
  { apply Chain.chain_ok_app. split; [done|].
    destruct (decide (stream_of (w_db w) (ap_StreamID p) = [])) as [E|E].
    - rewrite E in Hcol, Hprev. injection Hcol as <-. by rewrite Hprev in Hcn.
    - by rewrite Hprev, (chain_head_ok _ _ _ Hcol Hch E) in Hcn. }
  rewrite Hvs, Z.add_0_r. done.
Qed.

(** C6: what was appended is what is read, and it verifies.  After a successful
    Append to a gap-free stream whose chain verifies, ReadStream returns the
    old envelopes followed by one envelope per appended event, in order, with
    the event's content, the next versions, the global positions of the result
    and its RecordedAt; VerifyStreamChain accepts the longer stream; and no
    other stream changed. *)
Theorem append_then_read (CP : ChainPrims) (CL : ChainLaws CP) (SP : SqlitePrims)
    (SL : SqliteLaws SP) (O : Oracle) p w w' res envs :
  db_wf (w_db w) -> dense (w_db w) (ap_StreamID p) ->
  0 <= ap_ExpectedVersion p <= Z.of_nat (length (stream_of (w_db w) (ap_StreamID p))) ->
  ap_ExpectedVersion p + Z.of_nat (length (ap_Events p)) < 2 ^ 63 ->
  Forall event_ok (ap_Events p) -> GoTime.printable (ar_RecordedAt res) = true ->
  collect (stream_of (w_db w) (ap_StreamID p)) = Ok envs ->
  Chain.verify_loop Chain.ZeroHash envs = Ok tt ->
  Append O p w = (w', Ok res) ->
  o_fault O (w_tick w') = None ->
  exists news,
    ReadStream O (ap_StreamID p) 0 w' =
      (mkWorld (w_db w') (S (w_tick w')), Ok (envs ++ news)) /\
    Chain.VerifyStreamChain (ReadStream O) (ap_StreamID p) w' =
      (mkWorld (w_db w') (S (w_tick w')), Ok tt) /\
    Forall2 carries (ap_Events p) news /\
    Envelope.Version <$> news =
      seqZ (ap_ExpectedVersion p + 1) (Z.of_nat (length (ap_Events p))) /\
    Envelope.GlobalPosition <$> news =
      seqZ (ar_StartGlobalPosition res) (Z.of_nat (length (ap_Events p))) /\
    Forall (fun e => Envelope.RecordedAt e = ar_RecordedAt res) news /\
    (forall sid', StreamID.Validate sid' = None -> sid' <> ap_StreamID p ->
       stream_of (w_db w') sid' = stream_of (w_db w) sid').
Proof.
  intros Hwf Hd Hex Hb Hok Hnow Hcol Hch%Chain.verify_loop_ok HA Hf.
  destruct (append_extends CP CL SP SL O p w w' res envs Hwf Hd Hex Hb Hok Hnow Hcol Hch HA)
    as (news & Hc' & Hch' & HF & Hvs & Hgs & Hall).
  destruct (Append_Ok O p w w' res Hwf HA)
    as (Hv & _ & Hwf' & prev & rows & _ & Ha & He & Hseq & _ & _ & _ & _ & _ & _ & _ & Hsp & _).
  destruct (Append_dense O p w w' res Hwf Hd Hex Hb HA) as (_ & _ & _ & _ & _ & _ & _ & Hd').
  pose proof (wf_seq _ Hwf'). pose proof (wf_seq _ Hwf). unfold max_i64 in *.
  assert (Hread : ReadStream O (ap_StreamID p) 0 w' =
    (mkWorld (w_db w') (S (w_tick w')), Ok (envs ++ news))).
  { rewrite ReadStream_run by done. rewrite read_dense by (done || lia). by rewrite drop_0, Hc'. }
  exists news. split; [done|]. split.
  { unfold Chain.VerifyStreamChain. rewrite (bind_run _ _ _ _ _ Hread). unfold of_res.
    by rewrite (proj2 (Chain.verify_loop_ok _ _) Hch'). }
  split; [done|]. split; [done|]. split.
  { rewrite Hsp, u64_small by lia. done. }
  split.
  { eapply Forall_impl; [exact Hall|]. by intros e (_ & _ & ?). }
  intros sid' Hv' Hne.
  destruct (appended_columns (ap_StreamID p) (ap_ExpectedVersion p)
    (GoTime.formatTime (ar_RecordedAt res)) (ap_Events p) 0 prev (events_seq (w_db w)) rows)
    as (HFr & _); [lia|lia|lia|exact Ha|].
  by eapply stream_of_other.
Qed.

Lemma append_then_read_witness :
  exists news,
    ReadStream (SP := concrete_sqlite) demo_oracle demo_sid 0 demo_w1 =
      (mkWorld (w_db demo_w1) (S (w_tick demo_w1)), Ok news) /\
    Forall2 carries [demo_event 11; demo_event 12] news.
Proof.
  destruct (append_then_read concrete_prims concrete_laws concrete_sqlite concrete_sqlite_laws
    demo_oracle (demo_params 0 [11; 12] [demo_claim]) demo_w0 demo_w1
    (mkAppendResult 1 2 1 2 (1700000000000000000 + 2)) []) as (news & Hr & _ & HF & _).
  - apply empty_db_wf.
  - vm_compute. reflexivity.
  - vm_compute. split; discriminate.
  - vm_compute. reflexivity.
  - repeat (constructor; [apply demo_event_ok|]). constructor.
  - vm_compute. reflexivity.
  - vm_compute. reflexivity.
  - vm_compute. reflexivity.
  - apply demo_append_1.
  - reflexivity.
  - exists news. split; [exact Hr|exact HF].
Defined.

(** The transaction up to the events loop, when no statement fails. *)
Lemma appendTx_prefix (CP : ChainPrims) (SP : SqlitePrims) (O : Oracle)
    (NF : forall t, o_fault O t = None) p w m :
  run_constraints (StreamID.Tenant (ap_StreamID p)) (StreamID.Canonical (ap_StreamID p))
    (ap_Constraints p) (owners (w_db w)) = Some m ->
  exists w4 now,
    events (w_db w4) = events (w_db w) /\ events_seq (w_db w4) = events_seq (w_db w) /\
    same_but_claims (w_db w) (w_db w4) /\
    appendTx O p w =
      (appendEvents O (ap_StreamID p) (ap_ExpectedVersion p) (GoTime.formatTime now) 0
         (chain_head (stream_of (w_db w) (ap_StreamID p))) 0 0 (ap_Events p) ≫= fun pos =>
       writeStateCache O p (GoTime.formatTime now) ≫= fun _ =>
       mret (mkAppendResult (u64 (ap_ExpectedVersion p + 1))
               (u64 (ap_ExpectedVersion p + Z.of_nat (length (ap_Events p))))
               (u64 (fst pos)) (u64 (snd pos)) now)) w4.
Proof.
  intros Hrun. destruct (applyConstraints_run O NF _ _ _ _ _ Hrun) as [w2 Hw2].
  pose proof (applyConstraints_Ok O _ _ _ _ _ Hw2) as [_ Hs].
  set (w3 := mkWorld (w_db w2) (S (w_tick w2))).
  exists (mkWorld (w_db w2) (S (w_tick w3))), (o_now O (w_tick w2)).
  split; [apply Hs|]. split; [apply Hs|]. split; [done|].
  unfold appendTx. rewrite (bind_run _ _ _ _ _ Hw2).
  rewrite (bind_run _ _ w2 w3 (o_now O (w_tick w2)) eq_refl).
  rewrite (bind_run _ _ _ _ _ (readPrevHash_run O NF _ _ w3)).
  replace (Q.stream_rows _ _ (w_db w3)) with (stream_of (w_db w) (ap_StreamID p)); [done|].
  unfold stream_of, Q.stream_rows. destruct Hs as (He & _). subst w3. simpl. by rewrite He.
Qed.

Lemma Append_run {CP : ChainPrims} {SP : SqlitePrims} (O : Oracle) p w :
  StreamID.Validate (ap_StreamID p) = None -> ap_Events p <> [] ->
  Append O p w = withTx O (appendTx O p) w.
Proof.
  intros Hv Hne. unfold Append. rewrite Hv. erewrite bind_run by reflexivity.
  by destruct (ap_Events p).
Qed.

Lemma chain_head_length (CP : ChainPrims) (CL : ChainLaws CP) (SP : SqlitePrims) rows envs :
  collect rows = Ok envs -> Chain.chain_ok Chain.ZeroHash envs ->
  length (chain_head rows) = Chain.sha256_Size.
Proof.
  intros Hc Hch. destruct (decide (rows = [])) as [->|Hne]; [apply ZeroHash_length|].
  rewrite (chain_head_ok _ _ _ Hc Hch Hne). unfold Chain.head_hash.
  destruct envs as [|e envs _] using rev_ind; [apply ZeroHash_length|].
  rewrite last_snoc. simpl. apply Chain.chain_ok_app in Hch as [_ [Hl _]].
  apply Chain.links_inv in Hl as (c & _ & _ & ->). apply sha256_length.
Qed.

Definition fresh_ids (d : DB) (p : AppendParams) : Prop :=
  NoDup (ea_EventID <$> ap_Events p) /\
  (forall ev, ev ∈ ap_Events p ->
     (StreamID.Tenant (ap_StreamID p), ea_EventID ev) ∉ (event_key <$> events d)).

Definition state_accepted {SP : SqlitePrims} (p : AppendParams) : Prop :=
  forall b, ap_NewStateBytes p = Some b -> exists s, json_jsonb (str_of_bytes b) = Ok s.

(** When Append succeeds. *)
Lemma append_succeeds (CP : ChainPrims) (CL : ChainLaws CP) (SP : SqlitePrims) (O : Oracle)
    p w envs :
  (forall t, o_fault O t = None) ->
  StreamID.Validate (ap_StreamID p) = None -> ap_Events p <> [] ->
  db_wf (w_db w) -> dense (w_db w) (ap_StreamID p) ->
  ap_ExpectedVersion p = Z.of_nat (length (stream_of (w_db w) (ap_StreamID p))) ->
  ap_ExpectedVersion p + Z.of_nat (length (ap_Events p)) < 2 ^ 63 ->
  events_seq (w_db w) + Z.of_nat (length (ap_Events p)) <= max_i64 ->
  collect (stream_of (w_db w) (ap_StreamID p)) = Ok envs ->
  Chain.verify_loop Chain.ZeroHash envs = Ok tt ->
  Forall (encodable (ap_StreamID p)) (ap_Events p) -> fresh_ids (w_db w) p ->
  is_Some (run_constraints (StreamID.Tenant (ap_StreamID p)) (StreamID.Canonical (ap_StreamID p))
             (ap_Constraints p) (owners (w_db w))) ->
  state_accepted p ->
  exists w' res, Append O p w = (w', Ok res).
Proof.
  intros NF Hv Hne Hwf Hd Hex Hb Hm Hcol Hch%Chain.verify_loop_ok Henc [Hnd Hid] [m Hrun] Hst.
  set (w1 := mkWorld (w_db w) (S (w_tick w))).
  destruct (appendTx_prefix CP SP O NF p w1 m Hrun) as (w4 & now & He & Hs & Hsame & Htx).
  destruct (appendEvents_run O NF (ap_StreamID p) (ap_ExpectedVersion p) (GoTime.formatTime now)
    (ap_Events p) 0 (chain_head (stream_of (w_db w1) (ap_StreamID p))) 0 0 w4) as (w5 & pos & Hloop);
    rewrite ?He, ?Hs; try done; try lia.
  - by eapply db_wf_claims.
  - by eapply chain_head_length.
  - intros v Hv'. simpl. intros (r & Hk & Hr)%list_elem_of_fmap.
    assert (Hin : r ∈ stream_of (w_db w) (ap_StreamID p)).
    { apply stream_rows_elem. split; [done|]. unfold version_key in Hk. injection Hk as Ht Hc _.
      unfold Q.in_stream. by rewrite !bool_decide_eq_true_2. }
    assert (Hkv : er_version r ∈ er_version <$> stream_of (w_db w) (ap_StreamID p))
      by by apply list_elem_of_fmap_2.
    rewrite Hd in Hkv. apply elem_of_seqZ in Hkv. injection Hk as _ _ Hveq. lia.
  - assert (exists w6, writeStateCache O p (GoTime.formatTime now) w5 = (w6, Ok tt)) as [w6 Hw6].
    { unfold writeStateCache. destruct (ap_NewStateBytes p) as [b|] eqn:Hb'; [|by eexists].
      destruct (Hst b Hb') as [s Hs'].
      unfold wrap_err, Q.UpsertStateCache. rewrite stmt_run by done.
      unfold Q.upsert_state_cache. rewrite Hs'. simpl. by eexists. }
    rewrite (bind_run _ _ _ _ _ Hloop), (bind_run _ _ _ _ _ Hw6) in Htx.
    apply (withTx_run O NF (appendTx O p) w) in Htx.
    do 2 eexists. rewrite (Append_run O p w Hv Hne). exact Htx.
Qed.

(** C8: progress.  When no statement fails, Append of encodable events with
    fresh ids, at the current version of a gap-free verified stream, with
    constraint operations that do not collide and a state jsonb() accepts,
    succeeds. *)
Theorem append_progress (CP : ChainPrims) (CL : ChainLaws CP) (SP : SqlitePrims) (O : Oracle)
    p w envs :
  (forall t, o_fault O t = None) ->
  StreamID.Validate (ap_StreamID p) = None -> ap_Events p <> [] ->
  db_wf (w_db w) -> dense (w_db w) (ap_StreamID p) ->
  ap_ExpectedVersion p = Z.of_nat (length (stream_of (w_db w) (ap_StreamID p))) ->
  ap_ExpectedVersion p + Z.of_nat (length (ap_Events p)) < 2 ^ 63 ->
  events_seq (w_db w) + Z.of_nat (length (ap_Events p)) <= max_i64 ->
  collect (stream_of (w_db w) (ap_StreamID p)) = Ok envs ->
  Chain.verify_loop Chain.ZeroHash envs = Ok tt ->
  Forall (encodable (ap_StreamID p)) (ap_Events p) -> fresh_ids (w_db w) p ->
  is_Some (run_constraints (StreamID.Tenant (ap_StreamID p)) (StreamID.Canonical (ap_StreamID p))
             (ap_Constraints p) (owners (w_db w))) ->
  state_accepted p ->
  exists w' res, Append O p w = (w', Ok res).
Proof. exact (append_succeeds CP CL SP O p w envs). Qed.

Lemma append_progress_witness :
  exists w' res, demo_append (demo_params 2 [13] []) demo_w1 = (w', Ok res).
Proof.
  pose (rows := stream_of (w_db demo_w1) demo_sid).
  pose (envs := match collect (SP := concrete_sqlite) rows with Ok e => e | Err _ => [] end).
  eapply (append_progress concrete_prims concrete_laws concrete_sqlite demo_oracle
    (demo_params 2 [13] []) demo_w1 envs).
  - reflexivity.
  - reflexivity.
  - discriminate.
  - apply demo_w1_wf.
  - vm_compute. reflexivity.
  - vm_compute. reflexivity.
  - vm_compute. reflexivity.
  - vm_compute. discriminate.
  - vm_compute. reflexivity.
  - vm_compute. reflexivity.
  - constructor; [|constructor]. split; [eexists; reflexivity|intros v; eexists; reflexivity].
  - split; [apply NoDup_singleton|]. intros ev ->%list_elem_of_singleton.
    apply (bool_decide_unpack _). vm_compute. exact I.
  - eexists. reflexivity.
  - intros b [=].
Defined.

(** A lost race is reported as ErrConflict.  When no statement fails, the
    constraint operations go through and the first event encodes, an Append
    whose first version already exists in the stream returns exactly
    ErrConflict, and the database is unchanged. *)
Theorem append_conflict_reported (CP : ChainPrims) (CL : ChainLaws CP) (SP : SqlitePrims)
    (O : Oracle) p ev evs w r envs :
  (forall t, o_fault O t = None) ->
  StreamID.Validate (ap_StreamID p) = None -> ap_Events p = ev :: evs ->
  0 <= ap_ExpectedVersion p < 2 ^ 63 - 1 ->
  collect (stream_of (w_db w) (ap_StreamID p)) = Ok envs ->
  Chain.verify_loop Chain.ZeroHash envs = Ok tt ->
  encodable (ap_StreamID p) ev ->
  is_Some (run_constraints (StreamID.Tenant (ap_StreamID p)) (StreamID.Canonical (ap_StreamID p))
             (ap_Constraints p) (owners (w_db w))) ->
  r ∈ stream_of (w_db w) (ap_StreamID p) -> er_version r = ap_ExpectedVersion p + 1 ->
  exists w', Append O p w = (w', Err (ESent ErrConflict)) /\ w_db w' = w_db w.
Proof.
  intros NF Hv Hev Hex Hcol Hch%Chain.verify_loop_ok Henc [m Hrun] Hr Hver.
  destruct (appendTx_prefix CP SP O NF p (mkWorld (w_db w) (S (w_tick w))) m Hrun)
    as (w4 & now & He & _ & _ & Htx). rewrite Hev in Htx. cbn [appendEvents w_db] in *.
  destruct (proj1 Henc) as [actor Hact]. rewrite Hact in Htx.
  destruct (encodable_hash (ap_StreamID p) ev (event_version (ap_ExpectedVersion p) 0)
    (chain_head (stream_of (w_db w) (ap_StreamID p))) Henc) as (h & Hh & _).
  { by eapply chain_head_length. }
  rewrite Hh in Htx.
  set (arg := eventRow (ap_StreamID p) (event_version (ap_ExpectedVersion p) 0)
    (GoTime.formatTime now) actor h (chain_head (stream_of (w_db w) (ap_StreamID p))) ev) in Htx.
  assert (Hins : map_err (Q.InsertEvent O arg) w4 =
    (mkWorld (w_db w4) (S (w_tick w4)), Err (ESent ErrConflict))).
  { unfold map_err, Q.InsertEvent. rewrite stmt_run by done. unfold Q.insert_event.
    destruct (existsb (Q.same_version arg) (events (w_db w4))) eqn:Hex'; [reflexivity|].
    exfalso. apply (existsb_key_false _ version_key (version_key arg)) in Hex';
      [|apply same_version_key].
    apply Hex'. rewrite He. apply list_elem_of_fmap. exists r.
    apply stream_rows_elem in Hr as [Hr Hin]. split; [|done].
    unfold Q.in_stream in Hin. bool_to_prop. unfold version_key, arg; simpl.
    rewrite event_version_small, i64_small by lia. rewrite Z.add_0_r. congruence. }
  assert (Herr : appendTx O p (mkWorld (w_db w) (S (w_tick w))) =
    (mkWorld (w_db w4) (S (w_tick w4)), Err (ESent ErrConflict))).
  { rewrite Htx. apply bind_run_Err. rewrite (bind_run _ _ w4 w4 actor eq_refl).
    rewrite (bind_run _ _ w4 w4 h eq_refl). by apply bind_run_Err. }
  eexists. rewrite (Append_run O p w Hv) by (by rewrite Hev).
  split; [apply (withTx_run O NF (appendTx O p) w _ _ Herr)|done].
Qed.

(** Two writers that both loaded version 2: the second one loses. *)
Definition demo_w2 : World := fst (demo_append (demo_params 2 [13] []) demo_w1).

Lemma append_conflict_reported_witness :
  exists w', demo_append (demo_params 2 [14] []) demo_w2 = (w', Err (ESent ErrConflict)) /\
    w_db w' = w_db demo_w2.
Proof.
  pose (rows := stream_of (w_db demo_w2) demo_sid).
  pose (envs := match collect (SP := concrete_sqlite) rows with Ok e => e | Err _ => [] end).
  pose (r := default (Q.with_gp 0 (eventRow demo_sid 0 "" "" [] [] (demo_event 0))) (rows !! 2%nat)).
  apply (append_conflict_reported concrete_prims concrete_laws concrete_sqlite demo_oracle
    (demo_params 2 [14] []) (demo_event 14) [] demo_w2 r envs).
  - reflexivity.
  - reflexivity.
  - reflexivity.
  - vm_compute. split; [discriminate|reflexivity].
  - vm_compute. reflexivity.
  - vm_compute. reflexivity.
  - split; [eexists; reflexivity|intros v; eexists; reflexivity].
  - eexists. reflexivity.
  - apply (list_elem_of_lookup_2 _ 2). vm_compute. reflexivity.
  - vm_compute. reflexivity.
Defined.

(** Uniqueness claims.  When no statement fails, an Append that, after the
    operations before it, claims a (tenant, scope, value) somebody holds
    returns exactly ErrConstraintViolated and changes nothing. *)
Theorem append_claim_taken (CP : ChainPrims) (SP : SqlitePrims) (O : Oracle)
    p w pre op post m o :
  (forall t, o_fault O t = None) ->
  StreamID.Validate (ap_StreamID p) = None -> ap_Events p <> [] ->
  ap_Constraints p = pre ++ op :: post -> co_Op op = ClaimConstraint ->
  run_constraints (StreamID.Tenant (ap_StreamID p)) (StreamID.Canonical (ap_StreamID p)) pre
    (owners (w_db w)) = Some m ->
  m !! (StreamID.Tenant (ap_StreamID p), co_Scope op, co_Value op) = Some o ->
  exists w', Append O p w = (w', Err (ESent ErrConstraintViolated)) /\ w_db w' = w_db w.
Proof.
  intros NF Hv Hne Hops Hop Hrun Hm.
  destruct (applyConstraints_run O NF _ _ _ (mkWorld (w_db w) (S (w_tick w))) _ Hrun) as [w2 Hw2].
  pose proof (applyConstraints_Ok O _ _ _ _ _ Hw2) as [Hrun' _]. cbn [w_db] in Hrun'.
  rewrite Hrun in Hrun'. injection Hrun' as ->.
  destruct (applyConstraint_taken O NF _ (StreamID.Canonical (ap_StreamID p)) op w2 o Hop Hm)
    as [w3 Hw3].
  assert (Hall : forall l w0 w1, forM_ l (applyConstraint O (StreamID.Tenant (ap_StreamID p))
      (StreamID.Canonical (ap_StreamID p))) w0 = (w1, Ok tt) ->
    forM_ (l ++ op :: post) (applyConstraint O (StreamID.Tenant (ap_StreamID p))
      (StreamID.Canonical (ap_StreamID p))) w0 =
    forM_ (op :: post) (applyConstraint O (StreamID.Tenant (ap_StreamID p))
      (StreamID.Canonical (ap_StreamID p))) w1).
  { induction l as [|x l IH]; intros w0 w1; [by intros [= <-]|].
    cbn [forM_ app]. intros (w' & [] & Hx & Hl)%bind_Ok. rewrite (bind_run _ _ _ _ _ Hx). by apply IH. }
  assert (Herr : appendTx O p (mkWorld (w_db w) (S (w_tick w))) =
    (w3, Err (ESent ErrConstraintViolated))).
  { unfold appendTx. apply bind_run_Err. rewrite Hops, (Hall _ _ _ Hw2). cbn [forM_].
    by apply bind_run_Err. }
  eexists. rewrite (Append_run O p w Hv Hne).
  split; [apply (withTx_run O NF (appendTx O p) w _ _ Herr)|done].
Qed.

Lemma append_claim_taken_witness :
  exists w', demo_append (demo_params 2 [13] [demo_claim]) demo_w1 =
    (w', Err (ESent ErrConstraintViolated)) /\ w_db w' = w_db demo_w1.
Proof.
  apply (append_claim_taken concrete_prims concrete_sqlite demo_oracle
    (demo_params 2 [13] [demo_claim]) demo_w1 [] demo_claim [] (owners (w_db demo_w1))
    "order:o-1"); try reflexivity. discriminate.
Defined.

(** An expected version above the current one is not a conflict.  The
    transaction only rejects versions that exist: on an empty store, an Append
    that expects version 5 of a stream without events succeeds and leaves a
    stream that starts at version 6; a later Append at version 0 then succeeds
    too, and the chain of the stream no longer verifies. *)
Theorem append_above_current_accepted :
  let w1 := fst (demo_append (demo_params 5 [11] []) demo_w0) in
  let w2 := fst (demo_append (demo_params 0 [12] []) w1) in
  snd (demo_append (demo_params 5 [11] []) demo_w0) =
    Ok (mkAppendResult 6 6 1 1 (1700000000000000000 + 1)) /\
  er_version <$> stream_of (w_db w1) demo_sid = [6] /\
  snd (demo_append (demo_params 0 [12] []) w1) =
    Ok (mkAppendResult 1 1 2 2 (1700000000000000000 + 7)) /\
  er_version <$> stream_of (w_db w2) demo_sid = [1; 6] /\
  snd (Chain.VerifyStreamChain (P := concrete_prims)
         (ReadStream (SP := concrete_sqlite) demo_oracle) demo_sid w2) =
    Err (EWrapPost (ESent ErrChainBroken) "version").
Proof. vm_compute. split_and!; reflexivity. Qed.
