(* ===== verification/SqliteAggregate.v ===== *)
(** * The SQLite adapter as an es.Store, and aggregates on it

    [sqlite_store] collects the adapter methods of SqliteStore.v into the
    interface of Store.v; [sqlite_store_laws] shows that it keeps the contract
    the aggregate runtime is verified against. *)
From S2P Require Import Prelude Errors Streams Events Store Aggregate AggregateFacts Chain GoTime Sql SqliteDB SqliteStore SqliteFacts SqliteStream SqliteAppend Invoice.

Section Laws.
Context {CP : ChainPrims} {CL : ChainLaws CP} {SP : SqlitePrims} {SL : SqliteLaws SP} (O : Oracle).

Definition sqlite_store : Store World :=
  mkStore World (Sqlite.Append O) (Sqlite.ReadStream O) (Sqlite.ReadAll O)
    (Sqlite.ReadAllForTenant O) (Sqlite.CurrentStreamVersion O) (Sqlite.GetEventByID O)
    (Some (mkStateCacheReader World (Sqlite.GetState O) (Sqlite.ListStates O)))
    (Some (mkStateCacheWriter World (Sqlite.WipeStateCacheForType O)))
    (Some (mkStateCacheUpserter World (Sqlite.UpsertCachedState O))).

Definition envelopes (d : DB) (sid : StreamID.t) : list Envelope.t :=
  match Sqlite.collect (stream_of d sid) with Ok l => l | Err _ => [] end.

Definition cached_of (r : StateCacheRec) : Cached :=
  mkCached (Sqlite.stateBytes (st_state r)) (u64 (st_version r)) (u32 (st_state_schema_version r)).

Definition sqlite_view (w : World) : View :=
  mkView (envelopes (w_db w))
    (fun sid => cached_of <$> state_cache (w_db w) !! (StreamID.Tenant sid, StreamID.Canonical sid)).

(** Gap-free streams whose versions grow with the global positions, and rows
    that decode. *)
Record store_ok (d : DB) : Prop := mk_store_ok {
  so_wf : db_wf d;
  so_dense : forall sid, StreamID.Validate sid = None -> dense d sid;
  so_order : forall sid, StreamID.Validate sid = None ->
    stream_of d sid =
      List.filter (Q.in_stream (StreamID.Tenant sid) (StreamID.Canonical sid)) (events d);
  so_all : exists envs, Sqlite.collect (events d) = Ok envs
}.

Lemma so_decodes d sid : store_ok d -> StreamID.Validate sid = None ->
  exists envs, Sqlite.collect (stream_of d sid) = Ok envs.
Proof.
  intros Hok Hv. rewrite (so_order d Hok sid Hv). destruct (so_all d Hok) as [envs He].
  by eapply mapR_filter.
Qed.

Definition sqlite_ok (w : World) : Prop := store_ok (w_db w).

(** jsonb() and back. *)
Definition jsonb_norm (b : bytes) : bytes :=
  match json_jsonb (str_of_bytes b) with Ok s => bytes_of_str s | Err _ => b end.

Lemma empty_store_ok : store_ok empty_db.
Proof. split; [apply empty_db_wf|done|done|by exists []]. Qed.

Lemma same_db_view w w' : w_db w' = w_db w -> same_view (sqlite_view w') (sqlite_view w).
Proof. intros H sid _. unfold sqlite_view; simpl. by rewrite H. Qed.

Lemma stream_of_length d sid :
  db_wf d -> Z.of_nat (length (stream_of d sid)) <= events_seq d.
Proof.
  intros Hwf. unfold stream_of, Q.stream_rows. rewrite order_by_perm.
  assert (Hl : Z.of_nat (length (events d)) = events_seq d).
  { pose proof (f_equal length (wf_pos d Hwf)) as H. rewrite length_fmap, length_seqZ in H.
    pose proof (wf_seq d Hwf). lia. }
  rewrite <- Hl. apply inj_le, filter_length_le.
Qed.

Lemma rowToEnvelope_version r e :
  Sqlite.rowToEnvelope r = Ok e -> Envelope.Version e = u64 (er_version r).
Proof. unfold Sqlite.rowToEnvelope. intros H. repeat case_match; simplify_eq; done. Qed.

Lemma collect_versions rows envs n :
  Sqlite.collect rows = Ok envs -> er_version <$> rows = seqZ 1 n -> n < 2 ^ 63 ->
  Envelope.Version <$> envs = seqZ 1 n.
Proof.
  unfold Sqlite.collect. rewrite mapR_Forall2. intros HF Hr Hn. rewrite <- Hr.
  assert (Hb : Forall (fun r => 1 <= er_version r < 2 ^ 63) rows).
  { apply Forall_forall. intros r Hin. apply (list_elem_of_fmap_2 er_version) in Hin.
    rewrite Hr in Hin. apply elem_of_seqZ in Hin. lia. }
  clear Hr. induction HF as [|r e rows envs He _ IH]; csimpl; [done|].
  apply Forall_cons in Hb as [Hr Hb]. rewrite IH by done. f_equal.
  rewrite (rowToEnvelope_version r e He). apply u64_small. lia.
Qed.

Lemma Append_recorded p w w' res :
  Sqlite.Append O p w = (w', Ok res) -> exists t, ar_RecordedAt res = o_now O t.
Proof.
  unfold Sqlite.Append. intros (w0 & [] & _ & H)%bind_Ok.
  destruct (ap_Events p); [done|]. apply withTx_Ok in H as (w1 & w2 & _ & H & _).
  unfold Sqlite.appendTx in H. apply bind_Ok in H as (w3 & [] & _ & H).
  apply bind_Ok in H as (w4 & now & Hnow & H). injection Hnow as _ Hnow.
  apply bind_Ok in H as (w5 & prev & _ & H). apply bind_Ok in H as (w6 & pos & _ & H).
  apply bind_Ok in H as (w7 & [] & _ & H). injection H as _ <-. simpl. eauto.
Qed.

(** A successful Append at the end of a well-formed store. *)
Lemma Append_view p w w' res :
  (forall t, GoTime.printable (o_now O t) = true) ->
  sqlite_ok w -> Sqlite.Append O p w = (w', Ok res) ->
  0 <= ap_ExpectedVersion p <= Z.of_nat (length (envelopes (w_db w) (ap_StreamID p))) ->
  ap_ExpectedVersion p + Z.of_nat (length (ap_Events p)) < 2 ^ 63 ->
  Forall event_ok (ap_Events p) -> 0 <= ap_StateSchemaVersion p < 2 ^ 32 ->
  sqlite_ok w' /\ StreamID.Validate (ap_StreamID p) = None /\
  ap_ExpectedVersion p = Z.of_nat (length (envelopes (w_db w) (ap_StreamID p))) /\
  ar_StartVersion res = ap_ExpectedVersion p + 1 /\
  ar_EndVersion res = ap_ExpectedVersion p + Z.of_nat (length (ap_Events p)) /\
  appended_view jsonb_norm p (sqlite_view w) (sqlite_view w').
Proof.
  intros Hclock Hok HA Hex Hb Hacc Hsch. destruct (Append_recorded p w w' res HA) as [t Hrec].
  pose proof (so_wf _ Hok) as Hwf. set (sid := ap_StreamID p) in *.
  pose proof HA as HA2. apply Append_Ok in HA2 as (Hv & Hne & Hwf' & prev0 & rows0 & orows & Ha0 & He0 &
    Hseq0 & _ & _ & _ & Hcache & _ & Hsv & Hev & _); [|done]. fold sid in Hv.
  destruct (so_decodes _ sid Hok Hv) as [envs Henvs].
  assert (Hlen : length (envelopes (w_db w) sid) = length (stream_of (w_db w) sid)).
  { unfold envelopes. rewrite Henvs. apply mapR_Forall2 in Henvs. symmetry. by eapply Forall2_length. }
  rewrite Hlen in *.
  destruct (Append_dense O p w w' res Hwf (so_dense _ Hok sid Hv)) as (Heq & prev & rows & _ & Ha & He & Hst & Hd);
    try done. fold sid in Heq, Ha, Hst, Hd.
  assert (rows0 = rows) as -> by (rewrite He0 in He; by apply app_inv_head in He).
  assert (Hm : events_seq (w_db w) + Z.of_nat (length (ap_Events p)) <= max_i64).
  { rewrite <- Hseq0. apply (wf_seq _ Hwf'). }
  destruct (appended_envs sid (ap_ExpectedVersion p) (ar_RecordedAt res) (ap_Events p) 0 prev
    (events_seq (w_db w)) rows Hv Hacc) as (news & Hnews & Hcar & _); try done; try lia.
  { rewrite Hrec. apply Hclock. }
  { apply (wf_seq _ Hwf). }
  destruct (appended_columns sid (ap_ExpectedVersion p) (GoTime.formatTime (ar_RecordedAt res))
    (ap_Events p) 0 prev (events_seq (w_db w)) rows) as (Hin & _); [lia|lia|lia|exact Ha|].
  assert (Hcol' : Sqlite.collect (stream_of (w_db w') sid) = Ok (envs ++ news)).
  { unfold Sqlite.collect in *. by rewrite Hst, mapR_app, Henvs, Hnews. }
  assert (Hother : forall sid', StreamID.Validate sid' = None -> sid' <> sid ->
    stream_of (w_db w') sid' = stream_of (w_db w) sid').
  { intros sid' Hv' Hn. by eapply (stream_of_other _ _ sid). }
  split_and!; try done.
  - split; [done| | |].
    + intros sid' Hv'. destruct (decide (sid' = sid)) as [->|Hn]; [done|].
      unfold dense. rewrite Hother by done. by apply (so_dense _ Hok).
    + intros sid' Hv'. rewrite He, List.filter_app.
      destruct (decide (sid' = sid)) as [->|Hn].
      * by rewrite Hst, (so_order _ Hok sid Hv), (filter_all _ rows).
      * rewrite Hother, (so_order _ Hok sid' Hv') by done.
        rewrite (filter_none _ rows), app_nil_r; [done|]. eapply Forall_impl; [exact Hin|].
        intros x Hx. destruct (Q.in_stream (StreamID.Tenant sid') _ x) eqn:Hx'; [|done].
        unfold Q.in_stream in Hx, Hx'. bool_to_prop. destruct Hn.
        apply StreamID.Canonical_inj; congruence.
    + destruct (so_all _ Hok) as [all Hall]. exists (all ++ news). unfold Sqlite.collect in *.
      by rewrite He, mapR_app, Hall, Hnews.
  - rewrite Hsv. apply u64_small. lia.
  - rewrite Hev. apply u64_small. lia.
  - exists news. unfold sqlite_view; simpl. fold sid. split; [done|].
    unfold envelopes. rewrite Hcol', Henvs. split; [done|]. unfold cache_after in Hcache.
    fold sid in Hcache. unfold cached_after, jsonb_norm.
    destruct (ap_NewStateBytes p) as [b|].
    + destruct Hcache as (s & Hs & Hc). rewrite Hs, Hc. split.
      { rewrite lookup_insert_eq. simpl. unfold cached_of; simpl.
        rewrite (i64_small (ap_ExpectedVersion p)), i64_small, u64_small by lia.
        rewrite u32_small; [done|]. destruct (ap_StateSchemaVersion p =? 0); lia. }
      intros sid' Hv' Hn. rewrite Hother by done. split; [done|].
      rewrite lookup_insert_ne; [done|]. intros [= Ht Hcn]. destruct Hn.
      symmetry. by apply StreamID.Canonical_inj.
    + rewrite Hcache. split; [done|]. intros sid' Hv' Hn. by rewrite Hother.
Qed.

Lemma GetState_db t s w w' x : Sqlite.GetState O t s w = (w', x) ->
  w_db w' = w_db w /\
  (forall row, x = Ok row -> exists rec, state_cache (w_db w) !! (t, s) = Some rec /\
     row_cached row = cached_of rec).
Proof.
  unfold Sqlite.GetState, try, mbind, M_bind. destruct (Q.GetState O t s w) as [w1 y] eqn:H1.
  pose proof (select_db _ _ _ _ _ H1) as Hdb. destruct y as [rec|e].
  - apply select_Ok in H1 as [_ H1]. unfold of_res. intros [= <- <-]. split; [done|].
    intros row Hrow. destruct (state_cache (w_db w) !! (t, s)) as [rec'|]; [|done]. injection H1 as ->.
    exists rec. split; [done|]. unfold Sqlite.toStateCacheRow in Hrow.
    destruct (GoTime.parseTime (st_updated_at rec)); [|done]. by injection Hrow as <-.
  - destruct (errors_Is e ErrNoRows); unfold fail; intros [= <- <-]; by split.
Qed.

Lemma sqlite_store_laws :
  (forall t, GoTime.printable (o_now O t) = true) ->
  StoreLaws sqlite_store sqlite_ok sqlite_view event_ok jsonb_norm.
Proof.
  intros Hclock. split.
  - intros w sid Hok Hv. destruct (so_decodes _ sid Hok Hv) as [envs He].
    unfold sqlite_view, envelopes; simpl. rewrite He.
    pose proof (stream_of_length _ sid (so_wf _ Hok)). pose proof (wf_seq _ (so_wf _ Hok)).
    assert (Hl : length envs = length (stream_of (w_db w) sid)).
    { apply mapR_Forall2 in He. symmetry. by eapply Forall2_length. }
    rewrite Hl. apply (collect_versions _ _ _ He); [by apply (so_dense _ Hok)|].
    unfold max_i64 in *. lia.
  - intros w sid Hok Hv. destruct (so_decodes _ sid Hok Hv) as [envs He].
    unfold sqlite_view, envelopes; simpl. rewrite He.
    pose proof (stream_of_length _ sid (so_wf _ Hok)). pose proof (wf_seq _ (so_wf _ Hok)).
    apply mapR_Forall2, Forall2_length in He. rewrite <- He. unfold max_i64 in *. lia.
  - intros sid v w w' x Hok H. simpl in H.
    apply ReadStream_inv in H as [Hdb Hr]; [|apply Hok]. unfold sqlite_ok. rewrite Hdb.
    split; [done|]. split; [by apply same_db_view|]. intros envs Hx.
    destruct (Hr envs Hx) as [Hv Hc]. split; [done|]. intros Hb.
    rewrite read_dense in Hc; [|by apply (so_dense _ Hok)|done].
    destruct (so_decodes _ sid Hok Hv) as [all Hall].
    rewrite (collect_drop _ _ _ Hall) in Hc. injection Hc as <-.
    unfold sqlite_view, envelopes; simpl. by rewrite Hall.
  - intros rd sid w w' x Hok [= <-] Hv H. simpl in H. apply GetState_db in H as [Hdb Hr].
    unfold sqlite_ok. rewrite Hdb. split; [done|]. split; [by apply same_db_view|].
    intros row Hx. destruct (Hr row Hx) as (rec & Hl & Hrow). simpl. by rewrite Hl, Hrow.
  - intros rd t s w w' x Hok [= <-] H. simpl in H. apply GetState_db in H as [Hdb _].
    unfold sqlite_ok. rewrite Hdb. split; [done|]. by apply same_db_view.
  - intros p w w' e Hok H. simpl in H. apply Append_Err in H. unfold sqlite_ok. rewrite H.
    split; [done|]. by apply same_db_view.
  - intros p w w' res Hok HA. by apply Append_view.
Qed.
End Laws.

(** ** Invoices on SQLite *)

(** Concrete codecs: the bytes of a number that encodes the value. *)
Definition demo_codec : Codec Invoice.Event :=
  mkCodec Invoice.Event
    (fun e => Ok (mkEncodedEvent (pos_bytes (encode e)) "E" 1))
    (fun _ _ b => match decode (bytes_pos b) with
                  | Some e => Ok e | None => Err (ENew "proto: cannot parse") end).

Definition demo_state_codec : StateCodec Invoice.t :=
  mkStateCodec Invoice.t
    (fun s => Ok (pos_bytes (encode s), "I"))
    (fun b => match decode (bytes_pos b) with
              | Some s => Ok s | None => Err (ENew "proto: syntax error") end).

Definition demo_clock_oracle : Oracle := no_faults (fun _ => 1700000000000000000).

Definition demo_uuid : M World UUID := fun w =>
  (mkWorld (w_db w) (S (w_tick w)), Ok (1000 + Z.of_nat (w_tick w))).

Definition demo_now : M World Time := time_Now demo_clock_oracle.

Definition demo_store : Store World :=
  sqlite_store (CP := concrete_prims) (SP := concrete_sqlite) demo_clock_oracle.

Definition demo_methods : EventMethods World Invoice.Event :=
  mkEventMethods _ _ (fun _ => None) (fun _ => None) (fun _ => None).

Definition demo_aggregate : Aggregate.Runtime World Invoice.t Invoice.Command Invoice.Event :=
  Aggregate.mkRuntime World Invoice.t Invoice.Command Invoice.Event demo_store Invoice.decider
    demo_codec (Some demo_state_codec) 0 false demo_methods None None.

Definition demo_invoice : StreamID.t := StreamID.mk "acme" "inv" "i".

Notation demo_handle := (Aggregate.Handle demo_now demo_uuid demo_aggregate demo_invoice).

(** After Create, and after MarkPaid. *)
Definition demo_a1 : World :=
  fst (demo_handle (Invoice.Create "i" "c" "E" demo_items 5) [] (mkWorld empty_db 0)).
Definition demo_a2 : World :=
  fst (demo_handle (Invoice.MarkPaid "p" 9) [] demo_a1).

Lemma demo_store_laws :
  StoreLaws (Aggregate.rt_Store demo_aggregate) (sqlite_ok (SP := concrete_sqlite))
    (sqlite_view (SP := concrete_sqlite)) event_ok (jsonb_norm (SP := concrete_sqlite)).
Proof.
  apply (sqlite_store_laws (SL := concrete_sqlite_laws)). by vm_compute.
Qed.

Lemma tick_silent {A} (f : World -> A) :
  store_silent (ok := sqlite_ok (SP := concrete_sqlite)) (view := sqlite_view (SP := concrete_sqlite))
    (fun w => (mkWorld (w_db w) (S (w_tick w)), Ok (f w))).
Proof. intros w w' x Hok [= <- _]. split; [done|]. by apply same_db_view. Qed.

Lemma demo_event_laws :
  EventLaws demo_now demo_uuid demo_aggregate (sqlite_ok (SP := concrete_sqlite))
    (sqlite_view (SP := concrete_sqlite)) (plain_meaning demo_aggregate).
Proof.
  apply (plain_event_laws (SL := demo_store_laws)); try done.
  - intros e enc [= <-]. simpl. by rewrite bytes_pos_bytes, decode_encode.
  - apply (tick_silent (fun w => o_now demo_clock_oracle (w_tick w))).
  - intros w _. by do 2 eexists.
  - apply (tick_silent (fun w => 1000 + Z.of_nat (w_tick w))).
Qed.

Lemma demo_options_ok : options_accepted demo_now demo_aggregate event_ok [].
Proof.
  intros now cid w0 w1 e id enc Hn [= <-]. injection Hn as _ <-.
  split; [|split; [vm_compute; reflexivity|simpl; lia]].
  split_and!; try reflexivity. apply map_Forall_empty.
Qed.

Lemma demo_state_roundtrip : state_codec_roundtrip demo_aggregate (jsonb_norm (SP := concrete_sqlite)).
Proof.
  intros sc s b t [= <-] [= <- _]. unfold jsonb_norm. cbn [json_jsonb concrete_sqlite].
  rewrite bytes_of_str_of_bytes. cbn [demo_state_codec DecodeS].
  by rewrite bytes_pos_bytes, decode_encode.
Qed.

Lemma demo_a0_coherent sid :
  coherent demo_aggregate (sqlite_view (SP := concrete_sqlite)) (plain_meaning demo_aggregate)
    (mkWorld empty_db 0) sid.
Proof. exists []. split; [constructor|]. intros c sc s [=]. Qed.

Lemma decide_one s c new ops : Invoice.decide_ s c = Ok (new, ops) -> length new = 1%nat.
Proof. unfold Invoice.decide_. intros H. repeat case_match; simplify_eq; done. Qed.

Lemma demo_room w cmd :
  sqlite_ok (SP := concrete_sqlite) w -> events_seq (w_db w) < 2 ^ 62 ->
  room demo_aggregate (sqlite_view (SP := concrete_sqlite)) (plain_meaning demo_aggregate) w
    demo_invoice cmd.
Proof.
  intros Hok Hs evs new ops Hh Hd%decide_one. pose proof (Forall2_length _ _ _ Hh) as Hl.
  simpl in Hl. unfold envelopes in Hl.
  destruct (so_decodes _ demo_invoice Hok eq_refl) as [envs He]. rewrite He in Hl.
  apply mapR_Forall2, Forall2_length in He.
  pose proof (stream_of_length _ demo_invoice (so_wf _ Hok)). lia.
Qed.

Notation demo_handled := (handled demo_aggregate (sqlite_ok (SP := concrete_sqlite))
  (sqlite_view (SP := concrete_sqlite)) (plain_meaning demo_aggregate)).

Lemma demo_handled_1 x :
  demo_handle (Invoice.Create "i" "c" "E" demo_items 5) [] (mkWorld empty_db 0) = (demo_a1, x) ->
  demo_handled (mkWorld empty_db 0) demo_a1 demo_invoice (Invoice.Create "i" "c" "E" demo_items 5) x.
Proof.
  apply (Handle_spec (SL := demo_store_laws) (EL := demo_event_laws)).
  - apply demo_options_ok.
  - apply demo_state_roundtrip.
  - unfold schema_u32. simpl. lia.
  - apply empty_store_ok.
  - intros _. apply demo_a0_coherent.
  - apply demo_room; [apply empty_store_ok|simpl; lia].
Qed.

Lemma demo_run_1 :
  demo_handle (Invoice.Create "i" "c" "E" demo_items 5) [] (mkWorld empty_db 0) =
    (demo_a1, Ok (mkAppendResult 1 1 1 1 1700000000000000000)).
Proof. vm_compute. reflexivity. Qed.

Lemma demo_run_2 :
  demo_handle (Invoice.MarkPaid "p" 9) [] demo_a1 =
    (demo_a2, Ok (mkAppendResult 2 2 2 2 1700000000000000000)).
Proof. vm_compute. reflexivity. Qed.

Lemma demo_a2_ok : sqlite_ok (SP := concrete_sqlite) demo_a2.
Proof.
  destruct (demo_handled_1 _ demo_run_1) as (Hok & Hkeep & _).
  pose proof (Hkeep demo_invoice eq_refl (demo_a0_coherent demo_invoice)) as Hcoh.
  refine (proj1 (Handle_spec (SL := demo_store_laws) (EL := demo_event_laws) demo_invoice
    (Invoice.MarkPaid "p" 9) [] demo_a1 demo_a2 _ demo_options_ok demo_state_roundtrip _ Hok
    (fun _ => Hcoh) _ demo_run_2)).
  - unfold schema_u32. simpl. lia.
  - apply demo_room; [exact Hok|vm_compute; reflexivity].
Qed.

Definition is_ok {A} (x : World * res A) : bool := match snd x with Ok _ => true | Err _ => false end.

Lemma handle_correct_witness :
  demo_handled demo_a1 demo_a2 demo_invoice (Invoice.MarkPaid "p" 9)
    (Ok (mkAppendResult 2 2 2 2 1700000000000000000)).
Proof.
  destruct (demo_handled_1 _ demo_run_1) as (Hok & Hkeep & _).
  pose proof (Hkeep demo_invoice eq_refl (demo_a0_coherent demo_invoice)) as Hcoh.
  apply (handle_correct demo_now demo_uuid demo_aggregate _ _ _ _ _ demo_store_laws demo_event_laws
    demo_invoice (Invoice.MarkPaid "p" 9) [] demo_a1 demo_a2).
  - apply demo_options_ok.
  - apply demo_state_roundtrip.
  - unfold schema_u32. simpl. lia.
  - exact Hok.
  - intros _. exact Hcoh.
  - apply demo_room; [exact Hok|vm_compute; reflexivity].
  - apply demo_run_2.
Defined.


(** MarkPaid is prepared on [demo_a1] and appended there. *)
Lemma handle_no_lost_update_witness :
  exists w1 p w3 res evs new ops,
    Aggregate.prepare demo_now demo_uuid demo_aggregate demo_invoice (Invoice.MarkPaid "p" 9) [] demo_a1
      = (w1, Ok (Some p)) /\
    Append demo_store p w1 = (w3, Ok res) /\
    Invoice.decide_ (fold_events demo_aggregate evs) (Invoice.MarkPaid "p" 9) = Ok (new, ops) /\
    history (sqlite_view (SP := concrete_sqlite)) (plain_meaning demo_aggregate) w3 demo_invoice (evs ++ new).
Proof.
  destruct (demo_handled_1 _ demo_run_1) as (Hok & Hkeep & _).
  pose proof (Hkeep demo_invoice eq_refl (demo_a0_coherent demo_invoice)) as Hcoh.
  assert (Hr : match Aggregate.prepare demo_now demo_uuid demo_aggregate demo_invoice
      (Invoice.MarkPaid "p" 9) [] demo_a1 with
    | (w1, Ok (Some p)) => is_ok (Append demo_store p w1) | _ => false end = true)
    by (vm_compute; reflexivity).
  destruct (Aggregate.prepare demo_now demo_uuid demo_aggregate demo_invoice (Invoice.MarkPaid "p" 9) []
    demo_a1) as [w1 [[p|]|e]] eqn:Hp; [|done|done].
  destruct (Append demo_store p w1) as [w3 [res|e]] eqn:HA; [|done].
  pose proof Hcoh as (evs & Hh & Hc).
  pose proof (prepare_quiet (EL := demo_event_laws) _ _ _ _ _ _ Hok Hp) as Hx.
  destruct (handle_no_lost_update demo_now demo_uuid demo_aggregate _ _ _ _ _ demo_store_laws
    demo_event_laws demo_invoice (Invoice.MarkPaid "p" 9) [] demo_a1 w1 w1 w3 evs [] p res)
    as (_ & new & ops & Hd & Hh3).
  - apply demo_options_ok.
  - apply demo_state_roundtrip.
  - unfold schema_u32. simpl. lia.
  - exact Hok.
  - exact Hcoh.
  - apply demo_room; [exact Hok|vm_compute; reflexivity].
  - exact Hh.
  - exact Hp.
  - exact (proj1 Hx).
  - done.
  - rewrite app_nil_r. by eapply (history_extends (ok := sqlite_ok (SP := concrete_sqlite))).
  - exact HA.
  - exists w1, p, w3, res, evs, new, ops. split_and!; done.
Defined.
