(* ===== verification/SqliteLog.v ===== *)
(** * The global log on SQLite

    ReadAll and ReadAllForTenant page through the log in position order, and
    the cache maintenance methods touch only the cache: the adapter keeps the
    contract of RebuildStateCache. *)
From S2P Require Import Prelude Errors Streams Events Store Aggregate AggregateFacts Rebuild Chain GoTime Sql SqliteDB SqliteStore SqliteFacts SqliteStream SqliteAppend Invoice SqliteAggregate.

Section Log.
Context {CP : ChainPrims} {SP : SqlitePrims} (O : Oracle).

Definition sqlite_log (w : World) : list Envelope.t :=
  match Sqlite.collect (events (w_db w)) with Ok l => l | Err _ => [] end.

(** What a decoded row says about its envelope. *)
Lemma rowToEnvelope_inv r e :
  Sqlite.rowToEnvelope r = Ok e ->
  StreamID.Validate (Envelope.StreamID e) = None /\
  StreamID.Tenant (Envelope.StreamID e) = er_tenant_id r /\
  StreamID.Canonical (Envelope.StreamID e) = er_stream_id r /\
  Envelope.TenantID e = er_tenant_id r /\
  Envelope.Version e = u64 (er_version r) /\
  Envelope.GlobalPosition e = u64 (er_global_position r).
Proof.
  unfold Sqlite.rowToEnvelope. destruct (StreamID.ParseCanonical _ _) as [sid|] eqn:Hsid; [|done].
  apply StreamID.Canonical_Parse in Hsid as (Hc & Ht & Hv).
  destruct (Sqlite.decodeActor _); [|done]. destruct (GoTime.parseTime _); [|done].
  destruct (GoTime.parseTime _); [|done]. by intros [= <-].
Qed.

Lemma row_in_stream r e sid :
  Sqlite.rowToEnvelope r = Ok e -> StreamID.Validate sid = None ->
  Q.in_stream (StreamID.Tenant sid) (StreamID.Canonical sid) r = true <-> Envelope.StreamID e = sid.
Proof.
  intros (Hv & Ht & Hc & _)%rowToEnvelope_inv Hsid. unfold Q.in_stream. split.
  - intros H. bool_to_prop. apply StreamID.Canonical_inj; congruence.
  - intros <-. rewrite Ht, Hc. by rewrite !bool_decide_eq_true_2.
Qed.

(** Filtering rows and filtering their envelopes is the same. *)
Lemma collect_filter (p : EventRow -> bool) (P : Envelope.t -> Prop) `{forall e, Decision (P e)}
    rows envs :
  Sqlite.collect rows = Ok envs ->
  (forall r e, r ∈ rows -> Sqlite.rowToEnvelope r = Ok e -> p r = true <-> P e) ->
  Sqlite.collect (List.filter p rows) = Ok (filter P envs).
Proof.
  unfold Sqlite.collect. rewrite mapR_Forall2. intros HF Hp.
  induction HF as [|r e rows envs He HF IH]; [done|]. simpl. rewrite filter_cons.
  pose proof (Hp r e ltac:(by left) He) as Hpe.
  assert (IH' : mapR Sqlite.rowToEnvelope (List.filter p rows) = Ok (filter P envs)).
  { apply IH. intros r' e' Hr'. apply Hp. by right. }
  destruct (p r) eqn:Hpr; case_decide as HPe.
  - simpl. by rewrite He, IH'.
  - destruct HPe. by apply Hpe.
  - apply Hpe in HPe. discriminate.
  - exact IH'.
Qed.

Lemma collect_take rows envs n : Sqlite.collect rows = Ok envs -> Sqlite.collect (take n rows) = Ok (take n envs).
Proof. unfold Sqlite.collect. rewrite !mapR_Forall2. intros H. by apply Forall2_take. Qed.

Lemma events_gp_range d r : db_wf d -> r ∈ events d -> 1 <= er_global_position r <= events_seq d.
Proof.
  intros Hwf Hr. apply (list_elem_of_fmap_2 er_global_position) in Hr.
  rewrite (wf_pos d Hwf) in Hr. apply elem_of_seqZ in Hr. lia.
Qed.

Lemma events_gp_sorted d : db_wf d ->
  StronglySorted (fun a b => er_global_position a < er_global_position b) (events d).
Proof. intros Hwf. eapply seqZ_sorted. apply (wf_pos d Hwf). Qed.

Lemma log_sorted_gp rows envs :
  Sqlite.collect rows = Ok envs ->
  StronglySorted (fun a b => er_global_position a < er_global_position b) rows ->
  Forall (fun r => 0 < er_global_position r < 2 ^ 63) rows ->
  StronglySorted (fun a b => Envelope.GlobalPosition a < Envelope.GlobalPosition b) envs /\
  Forall (fun e => 0 < Envelope.GlobalPosition e < 2 ^ 63) envs.
Proof.
  unfold Sqlite.collect. rewrite mapR_Forall2. intros HF Hs Hb.
  induction HF as [|r e rows envs He HF IH]; [split; constructor|].
  apply StronglySorted_inv in Hs as [Hs Hr]. apply Forall_cons in Hb as [Hb1 Hb].
  destruct (IH Hs Hb) as [IHs IHb].
  assert (Hge : Envelope.GlobalPosition e = er_global_position r).
  { destruct (rowToEnvelope_inv r e He) as (_ & _ & _ & _ & _ & ->). apply u64_small. lia. }
  split; constructor; try done; [|lia].
  apply Forall_forall. intros e' He'. apply list_elem_of_lookup in He' as [i Hi].
  destruct (Forall2_lookup_r _ _ _ _ _ HF Hi) as (r' & Hr' & Hre').
  apply list_elem_of_lookup_2 in Hr'. rewrite Forall_forall in Hr, Hb.
  specialize (Hr r' Hr'). specialize (Hb r' Hr').
  destruct (rowToEnvelope_inv r' e' Hre') as (_ & _ & _ & _ & _ & ->).
  rewrite Hge, u64_small by lia. done.
Qed.

(** A page of rows decodes to the page of the log. *)
Lemma read_page d envs p tenant from n :
  db_wf d -> Sqlite.collect (events d) = Ok envs -> 0 <= from < 2 ^ 63 -> 0 <= n ->
  (forall r e, Sqlite.rowToEnvelope r = Ok e ->
     p r = true <-> in_tenant tenant e /\ from < er_global_position r) ->
  Sqlite.collect (sql_limit n (order_by er_global_position (List.filter p (events d)))) =
    Ok (page tenant from n envs).
Proof.
  intros Hwf Hall Hf Hn Hp. rewrite order_by_id.
  2:{ apply StronglySorted_lfilter. by apply events_gp_sorted. }
  unfold sql_limit, page. destruct (Z.ltb_spec n 0); [lia|].
  apply collect_take. rewrite list_filter_filter. apply collect_filter; [done|].
  intros r e Hr He. rewrite (Hp r e He).
  destruct (rowToEnvelope_inv r e He) as (_ & _ & _ & _ & _ & ->).
  pose proof (events_gp_range d r Hwf Hr). pose proof (wf_seq d Hwf). unfold max_i64 in *.
  rewrite u64_small by lia. tauto.
Qed.

Lemma ReadAll_log from n w w' x :
  sqlite_ok w -> 0 <= from < 2 ^ 63 -> 0 <= n -> Sqlite.ReadAll O from n w = (w', x) ->
  w_db w' = w_db w /\ (forall envs, x = Ok envs -> envs = page "" from n (sqlite_log w)).
Proof.
  intros Hok Hf Hn. unfold Sqlite.ReadAll, mbind, M_bind.
  destruct (Q.ReadAllFromPosition O (i64 from) n w) as [w1 [rows|e]] eqn:H1;
    pose proof (select_db _ _ _ _ _ H1) as Hdb; [|by intros [= <- <-]].
  apply select_Ok in H1 as [_ [= <-]]. unfold of_res. intros [= <- <-]. split; [done|].
  intros envs Hc. destruct (so_all _ Hok) as [all Hall]. unfold sqlite_log. rewrite Hall.
  rewrite i64_small in Hc by lia. rewrite (read_page _ all _ "" from) in Hc; try done.
  - by injection Hc as <-.
  - apply Hok.
  - intros r e He. rewrite Z.ltb_lt. unfold in_tenant. tauto.
Qed.

Lemma ReadAllForTenant_log t from n w w' x :
  sqlite_ok w -> 0 <= from < 2 ^ 63 -> 0 <= n -> t <> "" ->
  Sqlite.ReadAllForTenant O t from n w = (w', x) ->
  w_db w' = w_db w /\ (forall envs, x = Ok envs -> envs = page t from n (sqlite_log w)).
Proof.
  intros Hok Hf Hn Ht. unfold Sqlite.ReadAllForTenant, mbind, M_bind.
  destruct (Q.ReadAllFromPositionTenant O t (i64 from) n w) as [w1 [rows|e]] eqn:H1;
    pose proof (select_db _ _ _ _ _ H1) as Hdb; [|by intros [= <- <-]].
  apply select_Ok in H1 as [_ [= <-]]. unfold of_res. intros [= <- <-]. split; [done|].
  intros envs Hc. destruct (so_all _ Hok) as [all Hall]. unfold sqlite_log. rewrite Hall.
  rewrite i64_small in Hc by lia. rewrite (read_page _ all _ t from) in Hc; try done.
  - by injection Hc as <-.
  - apply Hok.
  - intros r e He. destruct (rowToEnvelope_inv r e He) as (_ & _ & _ & Hte & _).
    rewrite andb_true_iff, Z.ltb_lt, bool_decide_eq_true. unfold in_tenant. rewrite Hte.
    intuition congruence.
Qed.

(** Statements that change the cache only. *)
Lemma cache_only d d' :
  events d' = events d -> events_seq d' = events_seq d -> outbox d' = outbox d ->
  store_ok d -> store_ok d'.
Proof.
  intros He Hs Ho [[w1 w2 w3 w4 w5 w6] Hd Hor Ha].
  assert (Hst : forall sid, stream_of d' sid = stream_of d sid)
    by (intros; unfold stream_of, Q.stream_rows; by rewrite He).
  split; [split; rewrite ?He, ?Hs, ?Ho; done| | |by rewrite He].
  - intros sid Hv. unfold dense. rewrite Hst. by apply Hd.
  - intros sid Hv. rewrite Hst, He. by apply Hor.
Qed.

Lemma cache_only_same w w' :
  events (w_db w') = events (w_db w) -> events_seq (w_db w') = events_seq (w_db w) ->
  outbox (w_db w') = outbox (w_db w) -> sqlite_ok w ->
  same_store sqlite_ok sqlite_view sqlite_log w w'.
Proof.
  intros He Hs Ho Hok. split; [by eapply cache_only|]. split.
  - unfold sqlite_log. by rewrite He.
  - intros sid _. unfold sqlite_view, envelopes; simpl. unfold stream_of, Q.stream_rows. by rewrite He.
Qed.

Lemma wipe_shrinks (f : string * string * StateCacheRec -> bool) w w' x :
  sqlite_ok w ->
  stmt O (fun _ d => (set_state_cache (filter (fun y => f y = false)) d,
                      Ok (sql_count f (map_to_list (state_cache d))))) w = (w', x) ->
  same_store sqlite_ok sqlite_view sqlite_log w w' /\
  (forall sid c, cache (sqlite_view w') sid = Some c -> cache (sqlite_view w) sid = Some c).
Proof.
  intros Hok [_ [(msg & _ & _ & Hdb)|[_ Hst]]]%stmt_inv.
  - split; [apply cache_only_same; congruence|]. intros sid c. simpl. by rewrite Hdb.
  - injection Hst as Hdb _. split; [apply cache_only_same; rewrite <- ?Hdb; done|].
    intros sid c. simpl. rewrite <- Hdb. simpl.
    destruct (filter _ (state_cache (w_db w)) !! _) as [rec|] eqn:Hl; [|done].
    apply map_lookup_filter_Some in Hl as [-> _]. done.
Qed.

Lemma WipeStateCacheForType_cache t u w w' x :
  sqlite_ok w -> Sqlite.WipeStateCacheForType O t u w = (w', x) ->
  same_store sqlite_ok sqlite_view sqlite_log w w' /\
  (forall sid c, cache (sqlite_view w') sid = Some c -> cache (sqlite_view w) sid = Some c).
Proof.
  intros Hok. unfold Sqlite.WipeStateCacheForType. case_bool_decide; intros H'; by eapply wipe_shrinks.
Qed.

Lemma UpsertCachedState_cache row sid w w' x :
  sqlite_ok w -> StreamID.Validate sid = None -> sc_TenantID row = StreamID.Tenant sid ->
  sc_StreamID row = StreamID.Canonical sid -> 0 <= sc_Version row < 2 ^ 63 ->
  sc_StateSchemaVersion row = 0 -> Sqlite.UpsertCachedState O row w = (w', x) ->
  same_store sqlite_ok sqlite_view sqlite_log w w' /\
  (forall sid', StreamID.Validate sid' = None ->
     cache (sqlite_view w') sid' =
     match x with
     | Ok _ => if decide (sid' = sid) then Some (mkCached (jsonb_norm (sc_State row)) (sc_Version row) 1)
               else cache (sqlite_view w) sid'
     | Err _ => cache (sqlite_view w) sid'
     end).
Proof.
  intros Hok Hv Ht Hs Hver Hsch. unfold Sqlite.UpsertCachedState. rewrite Hsch, Ht, Hs. simpl.
  intros H. rewrite (bind_run _ _ w (mkWorld (w_db w) (S (w_tick w))) (o_now O (w_tick w)) eq_refl) in H.
  apply stmt_inv in H as [_ [(msg & _ & -> & Hdb)|[_ Hst]]]; simpl in *.
  - split; [apply cache_only_same; congruence|]. intros sid' _. by rewrite Hdb.
  - unfold Q.upsert_state_cache in Hst. destruct (json_jsonb _) as [s|e] eqn:Hj; injection Hst as Hdb <-.
    + split; [apply cache_only_same; rewrite <- ?Hdb; done|]. intros sid' Hv'. rewrite <- Hdb. simpl.
      case_decide as Heq.
      * subst sid'. rewrite lookup_insert_eq. simpl. unfold cached_of, jsonb_norm; simpl.
        rewrite Hj, i64_small, u64_small by lia. done.
      * rewrite lookup_insert_ne; [done|]. intros [= Ht' Hc']. destruct Heq. symmetry.
        by apply StreamID.Canonical_inj.
    + split; [apply cache_only_same; congruence|]. intros sid' _. by rewrite Hdb.
Qed.

Lemma sqlite_log_laws : LogLaws (sqlite_store O) sqlite_ok sqlite_view sqlite_log jsonb_norm.
Proof.
  assert (Hrange : forall d, store_ok d -> Forall (fun r => 0 < er_global_position r < 2 ^ 63) (events d)).
  { intros d Hok. apply Forall_forall. intros r Hr. pose proof (events_gp_range d r (so_wf _ Hok) Hr).
    pose proof (wf_seq _ (so_wf _ Hok)). unfold max_i64 in *. lia. }
  split.
  - intros w Hok. destruct (so_all _ Hok) as [all Hall]. unfold sqlite_log. rewrite Hall.
    apply (log_sorted_gp _ _ Hall); [apply events_gp_sorted, Hok|by apply Hrange].
  - intros w e Hok. destruct (so_all _ Hok) as [all Hall]. unfold sqlite_log. rewrite Hall.
    intros He. pose proof Hall as HF. unfold Sqlite.collect in HF. rewrite mapR_Forall2 in HF.
    apply list_elem_of_lookup in He as [i Hi].
    destruct (Forall2_lookup_r _ _ _ _ _ HF Hi) as (r & Hr & Hre). apply list_elem_of_lookup_2 in Hr.
    pose proof (rowToEnvelope_inv r e Hre) as (Hv & Ht & Hc & Hte & Hver & _).
    split_and!; [done|congruence| |]; rewrite Hver; [apply u64_range|].
    assert (Hin : r ∈ stream_of (w_db w) (Envelope.StreamID e)).
    { apply stream_rows_elem. split; [done|]. by eapply row_in_stream. }
    apply (list_elem_of_fmap_2 er_version) in Hin. rewrite (so_dense _ Hok _ Hv) in Hin.
    apply elem_of_seqZ in Hin. pose proof (stream_of_length _ (Envelope.StreamID e) (so_wf _ Hok)).
    pose proof (wf_seq _ (so_wf _ Hok)). unfold max_i64 in *. rewrite u64_small by lia. lia.
  - intros w sid Hok Hv. destruct (so_all _ Hok) as [all Hall]. unfold sqlite_log. rewrite Hall.
    unfold sqlite_view, envelopes; simpl. rewrite (so_order _ Hok sid Hv).
    erewrite (collect_filter _ (fun e => Envelope.StreamID e = sid)); [done|exact Hall|].
    intros r e _ He. by apply row_in_stream.
  - intros from n w w' x Hok Hf Hn H. simpl in H. apply ReadAll_log in H as [Hdb Hx]; try done.
    split; [apply cache_only_same; congruence|]. split; [intros sid; simpl; by rewrite Hdb|done].
  - intros t from n w w' x Hok Hf Hn Ht H. simpl in H. apply ReadAllForTenant_log in H as [Hdb Hx]; try done.
    split; [apply cache_only_same; congruence|]. split; [intros sid; simpl; by rewrite Hdb|done].
  - intros wr t u w w' x Hok [= <-] H. simpl in H. by eapply WipeStateCacheForType_cache.
  - intros up row sid w w' x Hok [= <-] Hv Ht Hs Hver Hsch H. simpl in H.
    by eapply UpsertCachedState_cache.
Qed.
End Log.

(** ** A rebuild on the invoice store *)
Definition demo_writer : StateCacheWriter World :=
  mkStateCacheWriter World (Sqlite.WipeStateCacheForType demo_clock_oracle).

Lemma rebuild_restores_cache_witness :
  exists w', Rebuild.RebuildStateCache demo_aggregate (fun l => l) 5 demo_writer "acme" demo_a2
      = Some (w', (1, None)) /\
    exists evs b t, EncodeS demo_state_codec (fold_events demo_aggregate evs) = Ok (b, t) /\
      cache (sqlite_view (SP := concrete_sqlite) w') demo_invoice =
        Some (mkCached (jsonb_norm (SP := concrete_sqlite) b) 2 1).
Proof.
  destruct (rebuild_restores_cache demo_aggregate (fun l => l) _ _ _
    (sqlite_log (SP := concrete_sqlite)) _ demo_store_laws
    (sqlite_log_laws (CP := concrete_prims) (SP := concrete_sqlite) demo_clock_oracle) 5 demo_writer
    "acme" demo_a2) as (w' & n & e & Hrun & Hpost).
  - reflexivity.
  - done.
  - exact demo_a2_ok.
  - reflexivity.
  - apply (bool_decide_unpack _). vm_compute. exact I.
  - assert (Hr : option_map snd (Rebuild.RebuildStateCache demo_aggregate (fun l => l) 5 demo_writer
      "acme" demo_a2) = Some (1, None)) by (vm_compute; reflexivity).
    rewrite Hrun in Hr. injection Hr as -> ->. exists w'. split; [exact Hrun|].
    destruct (Hpost eq_refl) as (_ & sc & [= <-] & Hall).
    pose (evs := [Invoice.Created "i" "c" "E" 17 demo_items 5; Invoice.Paid "p" 9]).
    assert (Hh : replayed demo_aggregate (sqlite_view (SP := concrete_sqlite)) demo_a2 demo_invoice evs).
    { unfold replayed. assert (Hm : (fun env => snd (Aggregate.decodeEvent demo_aggregate demo_invoice env demo_a2)) <$>
        stream (sqlite_view (SP := concrete_sqlite) demo_a2) demo_invoice = (fun e => Ok (e, [])) <$> evs)
        by (vm_compute; reflexivity).
      apply list_eq_Forall2 in Hm. rewrite Forall2_fmap in Hm. eapply Forall2_impl; [exact Hm|]. intros env e He. cbv beta in He.
      rewrite <- He. unfold Aggregate.decodeEvent, mbind, M_bind, wrap_err, of_res.
      destruct (Decode _ _ _ _); reflexivity. }
    destruct (Hall demo_invoice evs) as (b & t & Hb & Hc); [reflexivity|by right|exact Hh|done|].
    assert (Hl : Z.of_nat (length evs) = 2) by reflexivity. rewrite Hl in Hc.
    exists evs, b, t. split; [exact Hb|exact Hc].
Defined.

(** The invoice runtime after its state schema was bumped. *)
Definition demo_aggregate_v2 : Aggregate.Runtime World Invoice.t Invoice.Command Invoice.Event :=
  Aggregate.mkRuntime World Invoice.t Invoice.Command Invoice.Event demo_store Invoice.decider
    demo_codec (Some demo_state_codec) 2 false demo_methods None None.

(** A rebuild forgets the schema version.  RebuildStateCache leaves
    StateSchemaVersion unset, which the adapter stores as 1: after a rebuild
    for a runtime at schema version 2 the cached row carries version 1, and
    Load discards it and replays the stream from the start. *)
Theorem rebuild_schema_version_lost :
  let w := default demo_a2 (option_map fst
    (Rebuild.RebuildStateCache demo_aggregate_v2 (fun l => l) 5 demo_writer "acme" demo_a2)) in
  (match snd (Sqlite.GetState demo_clock_oracle "acme"
                (StreamID.Canonical demo_invoice) w) with
   | Ok row => (sc_Version row, sc_StateSchemaVersion row)
   | Err _ => (0, 0) end) = (2, 1) /\
  Aggregate.stateSchemaVersion demo_aggregate_v2 = 2 /\
  snd (Aggregate.cachedBase demo_aggregate_v2 demo_invoice w) = Ok (Invoice.initial, 0).
Proof. vm_compute. split_and!; reflexivity. Qed.
