(* ===== verification/SqliteCmd.v ===== *)
(** * Command workflows on SQLite (adapters/storage/sqlite/subscriber_dlq.go and
      its queries)

    The subscriber DLQ of the SQLite adapter, and a bus over an aggregate on
    SQLite whose subscribers record their calls: it keeps the contract that
    the dispatch of a command is verified against ([sqlite_bus_laws]). *)
From S2P Require Import Prelude Errors Streams Events Store Aggregate AggregateFacts Rebuild PathMatch CmdWorkflow CmdRuntimes CmdReplay CmdDispatch Chain GoTime Sql SqliteDB SqliteStore SqliteFacts SqliteStream SqliteAppend Invoice SqliteAggregate SqliteLog.
Import CmdWorkflow Bus.

(** encoding/json on a []string: the text, and the slice that Unmarshal leaves
    when its error is dropped. *)
Class JsonStrings := {
  json_marshal_strings : list string -> res string;
  json_unmarshal_strings : string -> list string
}.

(** ** subscriber_dlq.sql.go *)
Module QC.
Section QC.
Context (O : Oracle).
Notation Key := (string * string * string)%type.
Notation SubscriberDlq := (Key * SubscriberDlqRec)%type.

(** ON CONFLICT replaces every column that is not in the key. *)
Definition InsertSubscriberDLQ (subscriber tenant stream firstEventID eventIds typeUrls lastError : string)
    (attempts : Z) (enqueuedAt : string) : M World unit :=
  exec O (fun _ => set_subscriber_dlq
    <[(subscriber, tenant, firstEventID) :=
        mkSubscriberDlqRec stream eventIds typeUrls lastError attempts enqueuedAt]>).

(** The empty tenant stands for every tenant. *)
Definition dlq_of (subscriber tenant : string) (x : SubscriberDlq) : bool :=
  bool_decide (fst (fst (fst x)) = subscriber) &&
  (bool_decide (tenant = "") || bool_decide (snd (fst (fst x)) = tenant)).

Definition ListSubscriberDLQ (subscriber tenant : string) (maxRows : Z) : M World (list SubscriberDlq) :=
  select O (fun d =>
    Ok (sql_limit maxRows (order_by_text (fun x : SubscriberDlq => sd_enqueued_at (snd x))
          (List.filter (dlq_of subscriber tenant) (map_to_list (subscriber_dlq d)))))).

Definition ClearSubscriberDLQ (subscriber tenant : string) : M World Z :=
  stmt O (fun _ d =>
    (set_subscriber_dlq (filter (fun x => dlq_of subscriber tenant x = false)) d,
     Ok (sql_count (dlq_of subscriber tenant) (map_to_list (subscriber_dlq d))))).

Definition DeleteSubscriberDLQRow (subscriber tenant firstEventID : string) : M World unit :=
  exec O (fun _ => set_subscriber_dlq (delete (subscriber, tenant, firstEventID))).
End QC.
End QC.

(** ** subscriber_dlq.go *)
Module SqliteSubDLQ.
Section SqliteSubDLQ.
Context {JS : JsonStrings} (O : Oracle).

Definition InsertSubscriberDLQ (row : SubscriberDLQRow) : M World unit :=
  match sr_EventIDs row with
  | [] => mret tt
  | first :: _ =>
      eventIDsJSON ← of_res (json_marshal_strings (sr_EventIDs row));
      typeURLsJSON ← of_res (json_marshal_strings (sr_TypeURLs row));
      QC.InsertSubscriberDLQ O (sr_SubscriberName row) (sr_TenantID row) (sr_StreamID row) first
        eventIDsJSON typeURLsJSON (sr_LastError row) (sr_Attempts row) (GoTime.formatTime (sr_EnqueuedAt row))
  end.

(** The errors of Unmarshal and time.Parse are dropped. *)
Definition toRow (x : string * string * string * SubscriberDlqRec) : SubscriberDLQRow :=
  let '((name, tenant, _), r) := x in
  mkSubscriberDLQRow name tenant (sd_stream_id r) (json_unmarshal_strings (sd_event_ids r))
    (json_unmarshal_strings (sd_type_urls r)) (sd_last_error r) (sd_attempts r)
    (default zero_time (GoTime.Parse "T" GoTime.ZoneISO (sd_enqueued_at r))).

Definition ListSubscriberDLQ (subscriber tenant : string) (limit : Z) : M World (list SubscriberDLQRow) :=
  rows ← QC.ListSubscriberDLQ O subscriber tenant (if limit <=? 0 then 100 else limit);
  mret (toRow <$> rows).

Definition ClearSubscriberDLQ (subscriber tenant : string) : M World Z :=
  QC.ClearSubscriberDLQ O subscriber tenant.

Definition DeleteSubscriberDLQRow (subscriber tenant firstEventID : string) : M World unit :=
  QC.DeleteSubscriberDLQRow O subscriber tenant firstEventID.
End SqliteSubDLQ.
End SqliteSubDLQ.

(** ** What the adapter stores *)
Section DLQ.
Context {JS : JsonStrings} (O : Oracle).

Definition json_text (l : list string) : string := match json_marshal_strings l with Ok s => s | Err _ => "" end.

Definition dlq_rec (row : SubscriberDLQRow) : SubscriberDlqRec :=
  mkSubscriberDlqRec (sr_StreamID row) (json_text (sr_EventIDs row)) (json_text (sr_TypeURLs row))
    (sr_LastError row) (sr_Attempts row) (GoTime.formatTime (sr_EnqueuedAt row)).

Lemma InsertSubscriberDLQ_spec row w w' x :
  SqliteSubDLQ.InsertSubscriberDLQ O row w = (w', x) ->
  w_db w' = w_db w \/ w_db w' = set_subscriber_dlq <[dlq_key row := dlq_rec row]> (w_db w).
Proof.
  unfold SqliteSubDLQ.InsertSubscriberDLQ, dlq_key. destruct (sr_EventIDs row) as [|f ids] eqn:Hids.
  { intros [= <- _]. by left. }
  unfold mbind, M_bind, of_res, dlq_rec, json_text. rewrite Hids.
  destruct (json_marshal_strings (f :: ids)) as [s1|e1]; [|intros [= <- _]; by left].
  destruct (json_marshal_strings (sr_TypeURLs row)) as [s2|e2]; [|intros [= <- _]; by left].
  intros [_ [(msg & _ & _ & Hdb)|[_ Hst]]]%stmt_inv; [by left|right]. by injection Hst as <- _.
Qed.

Lemma InsertSubscriberDLQ_Ok row w w' :
  SqliteSubDLQ.InsertSubscriberDLQ O row w = (w', Ok tt) -> sr_EventIDs row <> [] ->
  w_db w' = set_subscriber_dlq <[dlq_key row := dlq_rec row]> (w_db w).
Proof.
  unfold SqliteSubDLQ.InsertSubscriberDLQ, dlq_key. destruct (sr_EventIDs row) as [|f ids] eqn:Hids; [done|].
  unfold mbind, M_bind, of_res, dlq_rec, json_text. rewrite Hids.
  destruct (json_marshal_strings (f :: ids)) as [s1|e1]; [|done].
  destruct (json_marshal_strings (sr_TypeURLs row)) as [s2|e2]; [|done].
  intros [_ [(msg & _ & ? & _)|[_ Hst]]]%stmt_inv; [done|]. by injection Hst as <-.
Qed.
End DLQ.

(** ** A bus over an aggregate on SQLite *)

(** The database, and the calls the subscribers received. *)
Section Bus.
Context {CP : ChainPrims} {CL : ChainLaws CP} {SP : SqlitePrims} {SL : SqliteLaws SP} {JS : JsonStrings}
  (O : Oracle) {S C E : Type} (RealClock : M World Time) (NewV7 : M World UUID)
  (r : Aggregate.Runtime World S C E).
Notation BW := (World * list (Call S E))%type.

Definition on_sql {A} (m : M World A) : M BW A := fun w =>
  let '(w1, x) := m (fst w) in ((w1, snd w), x).

Lemma on_sql_inv {A} (m : M World A) w w' x :
  on_sql m w = (w', x) -> m (fst w) = (fst w', x) /\ snd w' = snd w.
Proof. unfold on_sql. destruct (m (fst w)). by intros [= <- <-]. Qed.

Definition bus_runner : AggregateRunner BW S C :=
  mkAggregateRunner BW S C (fun sid c o => on_sql (Aggregate.Handle RealClock NewV7 r sid c o))
    (fun sid => on_sql (Aggregate.Load r sid)) (Aggregate.EncodeState r) (Aggregate.DecodeState r)
    (on_sql (Aggregate.Now RealClock r)).

Definition bus_store : Store BW :=
  mkStore BW (fun p => on_sql (Sqlite.Append O p)) (fun s v => on_sql (Sqlite.ReadStream O s v))
    (fun f n => on_sql (Sqlite.ReadAll O f n)) (fun t f n => on_sql (Sqlite.ReadAllForTenant O t f n))
    (fun s => on_sql (Sqlite.CurrentStreamVersion O s)) (fun t i => on_sql (Sqlite.GetEventByID O t i))
    None None None.

(** A subscriber that records its call and answers as [verdict] says, given the
    calls before it. *)
Definition recording (name : string) (verdict : list (Call S E) -> option err)
    (_ : Ctx) (envs : list Envelope.t) (s : S) (evs : list E) : M BW unit := fun w =>
  let o := verdict (snd w) in
  ((fst w, snd w ++ [mkCall name envs s evs (match o with None => true | Some _ => false end)]),
   match o with None => Ok tt | Some e => Err e end).

Definition is_recording (sub : Subscriber BW S C E) : Prop :=
  exists verdict, Handle sub = Some (recording (Name sub) verdict) /\
    forall l e, verdict l = Some e -> Error e <> "".

Definition bus_dlq (row : SubscriberDLQRow) : M BW unit := on_sql (SqliteSubDLQ.InsertSubscriberDLQ O row).

(** *** Its contract *)
Context (sid : StreamID.t) (Hsid : StreamID.Validate sid = None).
Notation meaning := (plain_meaning r).

(** The store calls of an aggregate keep the DLQ. *)
Definition ok_dlq (t : gmap (string * string * string) SubscriberDlqRec) (w : World) : Prop :=
  sqlite_ok w /\ subscriber_dlq (w_db w) = t.

Definition bus_ok (w : BW) : Prop := sqlite_ok (fst w) /\ coherent r sqlite_view meaning (fst w) sid.
Definition bus_stream (w : BW) : list Envelope.t := stream (sqlite_view (fst w)) sid.
Definition bus_state (w : BW) (s : S) : Prop :=
  exists evs, history sqlite_view meaning (fst w) sid evs /\ s = fold_events r evs.
Definition bus_rows (w : BW) : gmap (string * string * string) SubscriberDlqRec := subscriber_dlq (w_db (fst w)).

Lemma store_laws_dlq t :
  (forall n, GoTime.printable (o_now O n) = true) ->
  StoreLaws (sqlite_store O) (ok_dlq t) sqlite_view event_ok jsonb_norm.
Proof.
  intros Hclock. pose proof (sqlite_store_laws O Hclock) as L. split.
  - intros w s [Hok _]. by apply (sl_dense (StoreLaws := L)).
  - intros w s [Hok _]. by apply (sl_short (StoreLaws := L)).
  - intros s v w w' x [Hok Ht] H. destruct (sl_read (StoreLaws := L) s v w w' x Hok H) as (Hok' & Hv & Hr).
    simpl in H. apply ReadStream_inv in H as [Hdb _]; [|apply Hok]. by split; [split; [|rewrite Hdb]|].
  - intros rd s w w' x [Hok Ht] Hrd Hv H. destruct (sl_get (StoreLaws := L) rd s w w' x Hok Hrd Hv H) as (Hok' & Hvw & Hr).
    injection Hrd as <-. simpl in H. apply GetState_db in H as [Hdb _]. by split; [split; [|rewrite Hdb]|].
  - intros rd t' s w w' x [Hok Ht] Hrd H.
    destruct (sl_get_silent (StoreLaws := L) rd t' s w w' x Hok Hrd H) as (Hok' & Hvw).
    injection Hrd as <-. simpl in H. apply GetState_db in H as [Hdb _]. by split; [split; [|rewrite Hdb]|].
  - intros p w w' e [Hok Ht] H. destruct (sl_append_err (StoreLaws := L) p w w' e Hok H) as [Hok' Hv].
    simpl in H. apply Append_Err in H. by split; [split; [|rewrite H]|].
  - intros p w w' res [Hok Ht] H He Hn Ha Hs.
    destruct (sl_append (StoreLaws := L) p w w' res Hok H He Hn Ha Hs) as (Hok' & Hrest).
    simpl in H. apply Append_Ok in H as (_ & _ & _ & prev & rows & orows & Hx); [|apply Hok].
    destruct Hx as (_ & _ & _ & _ & _ & _ & _ & Hsame & _). unfold same_rest in Hsame.
    split; [|done]. split; [done|]. destruct_ex. congruence.
Qed.

Context (Hclock : forall n, GoTime.printable (o_now O n) = true) (Hstore : Aggregate.rt_Store r = sqlite_store O)
  (Hev : forall t, EventLaws RealClock NewV7 r (ok_dlq t) sqlite_view meaning)
  (Hcodec : forall s b, Aggregate.EncodeState r s = Ok b -> Aggregate.DecodeState r b = Ok s)
  (Hround : state_codec_roundtrip r jsonb_norm) (Hschema : schema_u32 r).
Notation same := (same bus_ok bus_stream bus_state).
Notation silent := (silent bus_ok bus_stream bus_state (snd : BW -> list (Call S E)) bus_rows).

Lemma store_laws_r t : StoreLaws (Aggregate.rt_Store r) (ok_dlq t) sqlite_view event_ok jsonb_norm.
Proof using CL SL Hclock Hstore. rewrite Hstore. by apply store_laws_dlq. Qed.

(** What the aggregate sees of the stream is as it was. *)
Lemma extends_same t (w w' : BW) :
  bus_ok w -> extends (ok_dlq t) sqlite_view meaning (fst w) (fst w') -> same w w'.
Proof using Hsid.
  intros [_ Hc] Hx. pose proof Hx as ([Hok' _] & Hv & _). split.
  - split; [done|]. by eapply coherent_extends.
  - split; [by destruct (Hv sid Hsid)|]. intros s (evs & Hh & ->). exists evs. split; [|done].
    by eapply history_extends.
Qed.

Lemma quiet_silent {A} (m : M World A) : (forall t, quiet (ok_dlq t) sqlite_view meaning m) -> silent (on_sql m).
Proof using Hsid.
  intros Hm w w' x Hok [H1 Hs]%on_sql_inv.
  destruct (Hm (bus_rows w) _ _ _ (conj (proj1 Hok) eq_refl) H1) as ([Hok' Hr] & Hrest).
  split; [|by split]. apply (extends_same (bus_rows w)); [done|]. by split.
Qed.

Lemma dlq_same row (w w' : BW) :
  bus_ok w -> w_db (fst w') = set_subscriber_dlq <[dlq_key row := dlq_rec row]> (w_db (fst w)) -> same w w'.
Proof using Hsid.
  intros Hok Hdb. apply (extends_same (bus_rows w')); [done|].
  destruct (cache_only_same (fst w) (fst w')) as (Hok' & _ & Hv); [by rewrite Hdb..|apply Hok|].
  split; [by split|]. split; [|done]. intros s Hs. split; [by apply Hv|]. simpl. by rewrite Hdb.
Qed.

Lemma bus_insert row : forall w w' x, bus_ok w -> bus_dlq row w = (w', x) ->
  same w w' /\ snd w' = snd w /\ (forall k, k <> dlq_key row -> bus_rows w' !! k = bus_rows w !! k) /\
  (x = Ok tt -> sr_EventIDs row <> [] -> bus_rows w' !! dlq_key row = Some (dlq_rec row)).
Proof using Hsid.
  intros w w' x Hok [H1 Hs]%on_sql_inv. destruct (InsertSubscriberDLQ_spec _ _ _ _ _ H1) as [Hdb|Hdb].
  - assert (same w w').
    { apply (extends_same (bus_rows w)); [done|]. split; [split; [unfold sqlite_ok; rewrite Hdb; apply Hok|unfold bus_rows; by rewrite Hdb]|].
      split; [by apply same_db_view|done]. }
    split; [done|]. split; [done|]. unfold bus_rows. rewrite Hdb. split; [done|]. intros -> Hne.
    apply InsertSubscriberDLQ_Ok in H1; [|done]. rewrite <- Hdb, H1. apply lookup_insert_eq.
  - split; [by eapply dlq_same|]. split; [done|]. unfold bus_rows. rewrite Hdb.
    split; [intros k Hk; by apply lookup_insert_ne|]. intros _ _. apply lookup_insert_eq.
Qed.

Lemma bus_handle cmd opts (w w' : BW) x :
  options_accepted RealClock r event_ok opts -> room r sqlite_view meaning (fst w) sid cmd -> bus_ok w ->
  on_sql (Aggregate.Handle RealClock NewV7 r sid cmd opts) w = (w', x) ->
  bus_ok w' /\ snd w' = snd w /\ bus_rows w' = bus_rows w /\
  (forall ar, x = Ok ar -> exists new, bus_stream w' = bus_stream w ++ new /\
     Z.of_nat (length (bus_stream w')) < 2 ^ 63 /\
     (new = [] -> ar_StartVersion ar = 0 /\ ar_EndVersion ar = 0) /\
     (new <> [] -> ar_StartVersion ar = Z.of_nat (length (bus_stream w)) + 1 /\
        ar_EndVersion ar = Z.of_nat (length (bus_stream w')))).
Proof using All.
  intros Hopts Hroom [Hok Hcoh] [H1 Hs]%on_sql_inv. pose proof (store_laws_r (bus_rows w)) as L.
  destruct (Handle_spec (SL := L) (EL := Hev (bus_rows w)) sid cmd opts (fst w) (fst w') x) as ([Hok' Hr] & Hco & _ & Hres); try done.
  split; [split; [done|by apply Hco]|]. split; [done|]. split; [done|]. intros ar ->.
  destruct (Hres ar eq_refl) as (_ & [new Hnew] & evs & dec & ops & Hh & _ & _ & Hh' & H0 & Hn). exists new.
  apply Forall2_length in Hh, Hh'. change (stream (sqlite_view (fst w')) sid) with (bus_stream w') in *.
  change (stream (sqlite_view (fst w)) sid) with (bus_stream w) in *.
  assert (Hl : length new = length dec) by (rewrite Hnew, !length_app in Hh'; lia).
  split; [done|]. split; [apply (sl_short (StoreLaws := L) (fst w') sid); [by split|done]|]. split.
  - intros ->. destruct dec; [|done]. by rewrite (H0 eq_refl).
  - intros Hne. destruct Hn as [H2 H3]; [by destruct dec; [destruct new|]|]. rewrite H2, H3, Hh, Hh'. done.
Qed.

Lemma sqlite_bus_laws subs cmd opts (w : BW) :
  Forall is_recording subs -> options_accepted RealClock r event_ok opts ->
  room r sqlite_view meaning (fst w) sid cmd ->
  BusLaws bus_ok bus_stream bus_state (snd : BW -> list (Call S E)) bus_rows dlq_rec sid bus_runner bus_store subs
    (Some bus_dlq) None None cmd opts w.
Proof using All.
  intros Hsubs Hopts Hroom. split.
  - intros w' x Hok H. by eapply bus_handle.
  - apply quiet_silent. intros t. apply (Load_quiet (EL := Hev t)).
  - intros w1 w' s v [Hok (evs & Hh & Hc)] [H1 _]%on_sql_inv. exists evs. split; [done|].
    by apply (Load_spec (SL := store_laws_r (bus_rows w1)) (EL := Hev (bus_rows w1))) with (evs := evs) in H1 as (_ & -> & _).
  - done.
  - apply quiet_silent. intros t. apply (el_now (EventLaws := Hev t)).
  - intros v. apply quiet_silent. intros t. pose proof (el_read (EventLaws := Hev t) sid v) as H. by rewrite Hstore in H.
  - intros v w1 w' envs [Hok _] Hv [H1 _]%on_sql_inv.
    destruct (sl_read (StoreLaws := store_laws_dlq (bus_rows w1) Hclock) sid v (fst w1) (fst w') (Ok envs)) as (_ & _ & Hr); [by split|done|].
    by apply (Hr envs eq_refl).
  - intros sub h ctx envs s evs w1 w' x Hin Hh Hok H. rewrite Forall_forall in Hsubs.
    destruct (Hsubs sub Hin) as (verdict & Hh' & He). rewrite Hh in Hh'. injection Hh' as ->.
    unfold recording in H. injection H as <- <-. split; [by split|]. split; [done|]. simpl.
    split; [by destruct (verdict (snd w1))|]. intros e Hx. destruct (verdict (snd w1)) as [e'|] eqn:Hve; [|done].
    injection Hx as <-. by eapply He.
  - intros f row w1 w' x [= <-]. by apply bus_insert.
  - done.
  - done.
Qed.
End Bus.

(** ** Invoices behind a bus *)

(** Concrete codecs: the bytes of a number that encodes the value. *)
Section Concrete.
#[local] Instance wireAppendResult_eq_dec : EqDecision wireAppendResult.
Proof. solve_decision. Defined.
#[local] Instance wireEnvelope_eq_dec : EqDecision wireEnvelope.
Proof. solve_decision. Defined.

#[local] Instance wireAppendResult_countable : Countable wireAppendResult.
Proof.
  refine (inj_countable'
    (fun r => [wr_StartVersion r; wr_EndVersion r; wr_StartGlobalPosition r; wr_EndGlobalPosition r; wr_RecordedAt r])
    (fun x => match x with
      | [a; b; c; d; e] => mkWireAppendResult a b c d e
      | _ => mkWireAppendResult 0 0 0 0 0 end) _).
  by intros [].
Defined.

#[local] Instance wireEnvelope_countable : Countable wireEnvelope.
Proof.
  refine (inj_countable
    (fun x => [encode (we_EventID x); encode (we_TenantID x); encode (we_StreamCanon x); encode (we_StreamTenant x);
               encode (we_StreamType x); encode (we_StreamRawID x); encode (we_Version x); encode (we_GlobalPosition x);
               encode (we_TypeURL x); encode (we_SchemaVersion x); encode (we_OccurredAt x); encode (we_RecordedAt x);
               encode (we_CorrelationID x); encode (we_CausationID x); encode (we_CommandID x); encode (we_ActorPrincipal x);
               encode (we_ActorKind x); encode (we_ActorOnBehalfOf x); encode (we_ActorAPIKeyID x); encode (we_ActorAttributes x);
               encode (str_of_bytes (we_Payload x)); encode (str_of_bytes (we_PayloadJSON x)); encode (str_of_bytes (we_KeyRefs x))])
    (fun ps => match ps with
      | [a; b; c; d; e; f; g; h; i; j; k; l; m; n; o; p; q; r; s; t; u; v; w] =>
          a ← decode a; b ← decode b; c ← decode c; d ← decode d; e ← decode e; f ← decode f; g ← decode g; h ← decode h;
          i ← decode i; j ← decode j; k ← decode k; l ← decode l; m ← decode m; n ← decode n; o ← decode o; p ← decode p;
          q ← decode q; r ← decode r; s ← decode s; t ← decode t; u ← decode u; v ← decode v; w ← decode w;
          Some (mkWireEnvelope a b c d e f g h i j k l m n o p q r s t (bytes_of_str u) (bytes_of_str v) (bytes_of_str w))
      | _ => None end) _).
  intros []. cbn -[encode decode bytes_of_str str_of_bytes].
  repeat (rewrite decode_encode; cbn -[encode decode bytes_of_str str_of_bytes]). by rewrite !bytes_of_str_of_bytes.
Defined.

Definition concrete_gob : Gob := {|
  gob_result := fun r => pos_bytes (encode r);
  ungob_result := fun b => match decode (bytes_pos b) with Some r => Ok r | None => Err (ENew "gob: bad data") end;
  gob_envelopes := fun l => pos_bytes (encode l);
  ungob_envelopes := fun b => match decode (bytes_pos b) with Some l => Ok l | None => Err (ENew "gob: bad data") end;
  uuid_text := fun id => str_of_bytes (pos_bytes (encode id))
|}.

Lemma concrete_gob_laws : GobLaws concrete_gob.
Proof. split; intros x; simpl; by rewrite bytes_pos_bytes, decode_encode. Qed.

Definition concrete_json : JsonStrings := {|
  json_marshal_strings := fun l => Ok (str_of_bytes (pos_bytes (encode l)));
  json_unmarshal_strings := fun s => default [] (decode (bytes_pos (bytes_of_str s)))
|}.
End Concrete.

#[local] Existing Instances concrete_prims concrete_sqlite concrete_json concrete_gob.
Notation DemoBW := (World * list (Call Invoice.t Invoice.Event))%type.
Notation DemoSub := (Subscriber DemoBW Invoice.t Invoice.Command Invoice.Event).

Definition any_event : EventFilter := mkEventFilter [] "" [] None.

(** A mailer that is down, a ledger that answers the second call, a subscriber
    of other events and a background audit. *)
Definition demo_sub (name : string) (f : EventFilter) (m : DeliveryMode) (retries : Z) (p : ExhaustedPolicy)
    (verdict : list (Call Invoice.t Invoice.Event) -> option err) : DemoSub :=
  mkSubscriber _ _ _ _ name f m retries p 0 (Some (recording name verdict)) None.

Definition demo_subs : list DemoSub :=
  [ demo_sub "mailer" any_event Sync 1 DLQ (fun _ => Some (ENew "smtp: down"));
    demo_sub "ledger" (mkEventFilter ["E"] "inv*" [] None) Sync 3 Drop
      (fun calls => if bool_decide (c_sub <$> last calls = Some "ledger") then None else Some (ENew "busy"));
    demo_sub "orders" (mkEventFilter ["order"] "" [] None) Sync 0 DLQ (fun _ => None);
    demo_sub "audit" any_event Async 0 Drop (fun _ => None) ].

Definition demo_bus_runner := bus_runner demo_now demo_uuid demo_aggregate.
Definition demo_bus_store : Store DemoBW :=
  bus_store demo_clock_oracle.
Definition demo_rt : WorkflowRuntime DemoBW := InprocRuntime.runtime (String.prefix "audit") None.
Definition demo_bus : Workflow DemoBW Invoice.t Invoice.Command Invoice.Event :=
  mkWorkflow demo_bus_runner demo_bus_store demo_rt demo_codec demo_subs
    (Some (bus_dlq demo_clock_oracle)) None.

Definition no_sha1 : UUID -> bytes -> UUID := fun _ _ => 0.
Definition demo_dispatch :=
  HandleCmd no_sha1 8 demo_bus 1 Background demo_invoice (Invoice.MarkPaid "p" 9) [] (demo_a1, []).

Definition dispatch_summary (x : option (DemoBW * res Invoice.t)) :=
  match x with
  | Some (w, Ok s) =>
      Some ((fun c => (c_sub c, c_ok c)) <$> snd w,
            (fun k => fst (fst k)) <$> (map_to_list (subscriber_dlq (w_db (fst w)))).*1, Invoice.status s)
  | _ => None
  end.

Lemma demo_event_laws_dlq t :
  EventLaws demo_now demo_uuid demo_aggregate (ok_dlq t) (sqlite_view) (plain_meaning demo_aggregate).
Proof.
  assert (Htick : forall A (f : World -> A), store_silent (ok := ok_dlq t) (view := sqlite_view)
    (fun w => (mkWorld (w_db w) (S (w_tick w)), Ok (f w)))).
  { intros A f w w' x Hok [= <- _]. split; [done|]. by apply same_db_view. }
  assert (L : StoreLaws (Aggregate.rt_Store demo_aggregate) (ok_dlq t) sqlite_view event_ok jsonb_norm)
    by (apply (store_laws_dlq (SL := concrete_sqlite_laws)); by vm_compute).
  apply (plain_event_laws (SL := L)); try done.
  - intros e enc [= <-]. simpl. by rewrite bytes_pos_bytes, decode_encode.
  - apply (Htick _ (fun w => o_now demo_clock_oracle (w_tick w))).
  - intros w _. by do 2 eexists.
  - apply (Htick _ (fun w => 1000 + Z.of_nat (w_tick w))).
Qed.

Lemma demo_subs_recording : Forall is_recording demo_subs.
Proof.
  unfold demo_subs. repeat (apply Forall_cons; split); [..|by apply Forall_nil];
    (eexists; split; [reflexivity|]); simpl; intros l e; try case_bool_decide; intros He; by simplify_eq.
Qed.

Lemma demo_subs_budget sub : sub ∈ demo_subs ->
  0 <= MaxRetries sub < 2 ^ 63 - 2 /\ MaxRetries sub + 1 < Z.of_nat 8 /\ OnExhausted sub <> Compensate.
Proof.
  intros Hin. unfold demo_subs in Hin.
  repeat (apply elem_of_cons in Hin as [->|Hin]; [simpl; split_and!; [lia|lia|lia|discriminate]|]).
  by apply elem_of_nil in Hin.
Qed.

Lemma demo_a1_ok : bus_ok (S := Invoice.t) demo_aggregate demo_invoice (demo_a1, []).
Proof.
  destruct (demo_handled_1 _ demo_run_1) as (Hok & Hkeep & _). split; [exact Hok|].
  apply Hkeep; [reflexivity|apply demo_a0_coherent].
Qed.

Lemma demo_bus_laws :
  BusLaws (bus_ok demo_aggregate demo_invoice) (bus_stream demo_invoice) (bus_state demo_aggregate demo_invoice) snd
    bus_rows (dlq_rec) demo_invoice demo_bus_runner demo_bus_store demo_subs
    (Some (bus_dlq demo_clock_oracle)) None None (Invoice.MarkPaid "p" 9)
    (handleOptions no_sha1 []) (demo_a1, []).
Proof.
  apply (sqlite_bus_laws (CL := concrete_laws) (SL := concrete_sqlite_laws)).
  - reflexivity.
  - by vm_compute.
  - reflexivity.
  - apply demo_event_laws_dlq.
  - intros s b [= <-]. change (DecodeS demo_state_codec (pos_bytes (encode s)) = Ok s). cbn [demo_state_codec DecodeS].
    by rewrite bytes_pos_bytes, decode_encode.
  - apply demo_state_roundtrip.
  - unfold schema_u32. simpl. lia.
  - apply demo_subs_recording.
  - apply demo_options_ok.
  - apply demo_room; [apply demo_a1_ok|vm_compute; reflexivity].
Qed.

Lemma cmd_dispatch_witness :
  dispatch_summary demo_dispatch =
    Some ([("audit", true); ("mailer", false); ("mailer", false); ("ledger", false); ("ledger", true)], ["mailer"],
          Invoice.STATUS_PAID) /\
  exists w' s new, demo_dispatch = Some (w', Ok s) /\
    bus_stream demo_invoice w' = bus_stream demo_invoice (demo_a1, ([] : list (Call Invoice.t Invoice.Event))) ++ new /\
    bus_state demo_aggregate demo_invoice w' s /\
    forall sub, sub ∈ demo_subs ->
      fanned (calls := snd) (rows := bus_rows) (enc := dlq_rec) (sid := demo_invoice) (r := demo_bus_runner)
        (st := demo_bus_store) (cd := demo_codec) (subs := demo_subs) (dq := Some (bus_dlq demo_clock_oracle))
        (send := None) (sched := String.prefix "audit") (hook := None) (demo_a1, []) w' s new sub.
Proof.
  assert (Hs : dispatch_summary demo_dispatch =
    Some ([("audit", true); ("mailer", false); ("mailer", false); ("ledger", false); ("ledger", true)], ["mailer"],
          Invoice.STATUS_PAID)) by (vm_compute; reflexivity).
  split; [exact Hs|].
  assert (Hok : match With (New demo_bus_runner demo_bus_store demo_rt demo_codec) demo_subs with
    | Ok _ => true | Err _ => false end = true) by (vm_compute; reflexivity).
  destruct (With (New demo_bus_runner demo_bus_store demo_rt demo_codec) demo_subs) as [b0|e] eqn:Hw; [clear Hok|done].
  destruct (cmd_dispatch concrete_gob_laws no_sha1 8 _ _ _ _ _ _ _ _ _ demo_codec _ _ _ (String.prefix "audit") _ b0 0
    Background _ [] _ demo_bus_laws) as (w' & x & Hrun & Hx).
  - exact Hw.
  - exact demo_subs_budget.
  - exact demo_a1_ok.
  - change (demo_dispatch = Some (w', x)) in Hrun. rewrite Hrun in Hs. destruct x as [s|e]; [|discriminate Hs].
    destruct (Hx s eq_refl) as (new & Hst & Hso & Hfan). exists w', s, new.
    split; [exact Hrun|]. split; [exact Hst|]. split; [exact Hso|]. exact Hfan.
Defined.

(** ** The same bus on a durable runtime

    Its async deliveries are sent; the engine records everything, or loses the
    results of the steps in [lost]. *)
Definition demo_sent_bus := SetAsyncSend demo_bus (fun _ _ _ _ => mret tt).
Definition demo_engine (lost : list string) : Journal.Engine DemoBW :=
  Journal.mkEngine (fun name _ => if bool_decide (name ∈ lost) then Journal.Lost (ENew "connection reset") else Journal.Kept)
    (fun _ _ => false) (fun _ _ => false).

Notation demo_durable lost cmd w j :=
  (HandleCmd no_sha1 8 (Journal.durable (demo_engine lost) demo_sent_bus) 1 Background demo_invoice cmd [] (w, j)).

Definition demo_first := demo_durable [] (Invoice.MarkPaid "p" 9) (demo_a1, []) ∅.

Lemma demo_replay_laws : ReplayLaws demo_sent_bus (fun _ _ => True).
Proof.
  split; [split|..]; try done.
  - intros f c n e id w [= <-] _. reflexivity.
  - intros s Hin. by apply demo_subs_budget.
Qed.

(** Replayed on an empty database, with another command. *)
Lemma cmd_replay_witness :
  exists w1 j1 s, demo_first = Some ((w1, j1), Ok s) /\ Invoice.status s = Invoice.STATUS_PAID /\
    demo_durable [] Invoice.OtherCommand (mkWorld empty_db 0, []) j1 = Some (((mkWorld empty_db 0, []), j1), Ok s).
Proof.
  assert (Hc : match demo_first with
    | Some ((w1, j1), Ok s) =>
        bool_decide (Invoice.status s = Invoice.STATUS_PAID) &&
        match j1 !! append_step Background with
        | Some (Ok raw) => match decodeAppendResult raw with Ok ar => ar_StartVersion ar =? 2 | Err _ => false end
        | _ => false
        end
    | _ => false
    end = true) by (vm_compute; reflexivity).
  destruct demo_first as [[[w1 j1] [s|e]]|] eqn:Hrun; [|done|done].
  apply andb_true_iff in Hc as [Hst Hc]. apply bool_decide_eq_true in Hst.
  exists w1, j1, s. split; [reflexivity|]. split; [exact Hst|].
  destruct (cmd_replay no_sha1 8 (demo_engine []) demo_sent_bus 0 Background demo_invoice (Invoice.MarkPaid "p" 9) []
    (demo_a1, []) ∅ w1 j1 (Ok s) Hrun) as (_ & _ & Hre).
  apply (Hre _ s demo_replay_laws (or_introl (ex_intro _ _ eq_refl)) eq_refl); [|done].
  destruct (j1 !! append_step Background) as [[raw|e]|] eqn:Hraw; [|done|done].
  destruct (decodeAppendResult raw) as [ar|e] eqn:Har; [|done]. apply Z.eqb_eq in Hc.
  exists raw, ar. split_and!; [exact Hraw|exact Har|lia].
Defined.

(** The result of the append is lost before it is in the journal.  The event is
    in the store; the next run of the dispatch decides the command again, which
    the invoice refuses, and no subscriber is ever told of the event. *)
Lemma lost_append_decided_again :
  match demo_durable ["append"] (Invoice.MarkPaid "p" 9) (demo_a1, []) ∅ with
  | Some ((w1, j1), Err _) =>
      length (events (w_db (fst w1))) = S (length (events (w_db demo_a1))) /\
      match demo_durable [] (Invoice.MarkPaid "p" 9) w1 j1 with
      | Some ((w2, _), x) => x = Err (ESent ErrTerminal) /\ events (w_db (fst w2)) = events (w_db (fst w1)) /\ snd w2 = []
      | None => False
      end
  | _ => False
  end.
Proof. vm_compute. split_and!; reflexivity. Qed.
