(* ===== verification/SqliteLinked.v ===== *)
(** * Linked projections into SQLite

    The SQLite store as a destination: a claim is a row of unique_claims, taken
    in the transaction of the append ([sqlite_linked_laws]). *)
From S2P Require Import Prelude Errors Streams Events Store Projection Linked Aggregate AggregateFacts Rebuild Chain GoTime Sql SqliteDB SqliteStore SqliteFacts SqliteStream SqliteAppend Invoice SqliteAggregate SqliteLog.
Import Sqlite Linked.

Section SqliteLinked.
Context {CP : ChainPrims} {SP : SqlitePrims} (O : Oracle).

(** ** Where ErrConstraintViolated comes from *)
Notation violation e := (errors_Is e ErrConstraintViolated).

Definition orderly {A} (m : M World A) : Prop := forall w w' e, m w = (w', Err e) -> violation e = false.

Lemma orderly_ret {A} (a : A) : orderly (mret a).
Proof. by intros w w' e. Qed.

Lemma orderly_bind {A B} (m : M World A) (k : A -> M World B) :
  orderly m -> (forall a, orderly (k a)) -> orderly (m ≫= k).
Proof. intros Hm Hk w w' e [H|(w1 & a & _ & H)]%bind_Err; [by eapply Hm|by eapply Hk]. Qed.

Lemma orderly_res {A} (r : res A) : (forall e, r = Err e -> violation e = false) -> orderly (of_res r).
Proof. intros Hr w w' e [= _ ->]. by apply Hr. Qed.

Lemma orderly_wrap {A} msg (m : M World A) : orderly m -> orderly (wrap_err msg m).
Proof. intros Hm w w' e. unfold wrap_err. destruct (m w) as [w1 [a|e1]] eqn:H1; [done|]. intros [= _ <-]. by apply Hm in H1. Qed.

Lemma orderly_stmt {A} (f : Time -> DB -> DB * res A) :
  (forall now d d' e, f now d = (d', Err e) -> violation e = false) -> orderly (stmt O f).
Proof. intros Hf w w' e [_ [(msg & _ & [= ->] & _)|[_ H]]]%stmt_inv; [done|]. by eapply Hf. Qed.

(** A driver failure is not reported as a broken unique constraint. *)
Context (Hfault : forall t msg, o_fault O t = Some msg -> str_contains "UNIQUE constraint failed" msg = false)
  (Hjson : forall a e, json_marshal_actor a = Err e -> violation e = false)
  (Hpb : forall m e, pb_marshal m = Err e -> violation e = false).

Lemma InsertEvent_orderly row : orderly (map_err (Q.InsertEvent O row)).
Proof using Hfault.
  intros w w' e. unfold map_err. destruct (Q.InsertEvent O row w) as [w1 [gp|e1]] eqn:H1; [done|]. intros [= _ <-].
  apply stmt_inv in H1 as [_ [(msg & Hf & [= ->] & _)|[_ H]]].
  - unfold mapErr. simpl. by rewrite (Hfault _ _ Hf).
  - unfold Q.insert_event in H. repeat case_match; simplify_eq; by vm_compute.
Qed.

Lemma appendEvents_orderly sid ex rec evs : forall i prev sp ep, orderly (appendEvents O sid ex rec i prev sp ep evs).
Proof using Hfault Hjson Hpb.
  induction evs as [|ev evs IH]; intros i prev sp ep; cbn [appendEvents]; [apply orderly_ret|].
  apply orderly_bind.
  { apply orderly_res. intros e. unfold encodeActor. destruct (json_marshal_actor _) as [s|e1] eqn:Hj; [done|].
    intros [= <-]. by apply Hjson in Hj. }
  intros actor. apply orderly_bind.
  { apply orderly_wrap, orderly_res. intros e. unfold Chain.ComputeChainHash, Chain.canonicalEnvelopeBytes.
    destruct (negb _); [by intros [= <-]|]. destruct (pb_marshal _) as [b|e1] eqn:Hm; [done|]. intros [= <-]. by apply Hpb in Hm. }
  intros hash. apply orderly_bind; [apply InsertEvent_orderly|]. intros gp. apply orderly_bind; [|intros _; apply IH].
  apply orderly_wrap, orderly_stmt. intros now d d' e. unfold Q.insert_outbox. case_match; by intros [= _ <-].
Qed.

Lemma readPrevHash_orderly t c : orderly (readPrevHash O t c).
Proof using.
  unfold readPrevHash. intros w w' e [H|(w1 & x & Hx%try_Ok & H)]%bind_Err.
  - unfold try in H. by destruct (Q.LastStreamHash O t c w).
  - apply stmt_inv in Hx as [_ [(msg & _ & -> & _)|[_ Hsel]]].
    + case_decide; [done|]. by injection H as _ <-.
    + destruct x as [[[|b h]|]|e1]; try done. injection Hsel as _ Hsel.
      destruct (last (Q.stream_rows t c (w_db w))); [done|]. injection Hsel as <-.
      by destruct (decide _).
Qed.

Lemma claim_violation t scope v stream w w' e :
  applyConstraint O t stream (mkConstraintOp ClaimConstraint scope v) w = (w', Err e) -> violation e = true ->
  is_Some (owners (w_db w) !! (t, scope, v)).
Proof using Hfault.
  unfold applyConstraint, map_err. simpl. destruct (Q.ClaimUnique O t scope v stream w) as [w1 [u|e1]] eqn:H1; [done|].
  intros [= _ <-] Hv. apply stmt_inv in H1 as [_ [(msg & Hf & [= ->] & _)|[_ H]]].
  - unfold mapErr in Hv. simpl in Hv. by rewrite (Hfault _ _ Hf) in Hv.
  - unfold Q.claim_unique in H. unfold owners. rewrite lookup_fmap. destruct (unique_claims (w_db w) !! _); [|done].
    by eexists.
Qed.

(** An append under one claim reports ErrConstraintViolated only when somebody
    holds the claim. *)
Lemma Append_violation p scope v w w' e :
  ap_Constraints p = [mkConstraintOp ClaimConstraint scope v] -> ap_NewStateBytes p = None ->
  Append O p w = (w', Err e) -> violation e = true ->
  is_Some (owners (w_db w) !! (StreamID.Tenant (ap_StreamID p), scope, v)).
Proof using Hfault Hjson Hpb.
  intros Hc Hs H Hv. unfold Append in H. apply bind_Err in H as [H|(w1 & [] & [-> _]%guard_err_Ok & H)].
  { unfold guard_err, StreamID.Validate in H. repeat case_match; simplify_eq; injection H as _ <-; done. }
  destruct (ap_Events p) as [|ev evs] eqn:Hev; [by injection H as _ <-|].
  unfold withTx in H. destruct (stmt O _ w) as [w1 [u|e1]] eqn:H1.
  2:{ apply stmt_inv in H1 as [_ [(msg & _ & [= ->] & _)|[_ [= ]]]]. by injection H as _ <-. }
  apply stmt_Ok in H1 as [_ [= Hdb]].
  destruct (appendTx O p w1) as [w2 [ar|e2]] eqn:Htx.
  { destruct (stmt O _ w2) as [w3 [u3|e3]] eqn:H3; [done|].
    apply stmt_inv in H3 as [_ [(msg & _ & [= ->] & _)|[_ [= ]]]]. by injection H as _ <-. }
  injection H as _ <-. unfold appendTx in Htx. rewrite Hc in Htx. cbn [forM_] in Htx.
  apply bind_Err in Htx as [Htx|(w3 & [] & _ & Htx)].
  - apply bind_Err in Htx as [Htx|(w3 & [] & _ & Htx)]; [|done]. rewrite Hdb. by eapply claim_violation.
  - exfalso. assert (Hord : orderly (now ← time_Now O; prev ← readPrevHash O (StreamID.Tenant (ap_StreamID p)) (StreamID.Canonical (ap_StreamID p));
      pos ← appendEvents O (ap_StreamID p) (ap_ExpectedVersion p) (GoTime.formatTime now) 0 prev 0 0 (ap_Events p);
      writeStateCache O p (GoTime.formatTime now) ≫= fun _ =>
      mret (mkAppendResult (u64 (ap_ExpectedVersion p + 1)) (u64 (ap_ExpectedVersion p + Z.of_nat (length (ap_Events p))))
        (u64 (fst pos)) (u64 (snd pos)) now))).
    { apply orderly_bind; [by intros ? ? ?|]. intros now. apply orderly_bind; [apply readPrevHash_orderly|]. intros prev.
      apply orderly_bind; [apply appendEvents_orderly|]. intros pos. apply orderly_bind; [|intros; apply orderly_ret].
      unfold writeStateCache. rewrite Hs. apply orderly_ret. }
    apply Hord in Htx. congruence.
Qed.

(** ** The contract *)
Definition claim_held (scope : string) (w : World) (t v : string) : Prop := is_Some (owners (w_db w) !! (t, scope, v)).

Definition row_records (sid : StreamID.t) (ev : EventToAppend) (row : EventRow) : Prop :=
  er_tenant_id row = StreamID.Tenant sid /\ er_stream_id row = StreamID.Canonical sid /\
  er_event_id row = ea_EventID ev /\ er_type_url row = ea_TypeURL ev /\ er_causation_id row = ea_CausationID ev /\
  er_correlation_id row = ea_CorrelationID ev /\ er_payload row = ea_Payload ev.

Lemma sqlite_linked_laws {Msg} NewV7 uuid_text name types (route : Envelope.t -> res (Route Msg)) idem :
  (forall w w' x, NewV7 w = (w', x) -> w_db w' = w_db w) ->
  (forall a b, is_uuid a -> is_uuid b -> uuid_text a = uuid_text b -> a = b) ->
  let p := mkProjection name (sqlite_store O) types (fun env => of_res (route env)) idem in
  LinkedLaws NewV7 uuid_text p (fun w => db_wf (w_db w)) (claim_held (scope p)) (fun w => events (w_db w)) row_records
    (fun env rt => route env = Ok rt).
Proof using Hfault Hjson Hpb.
  intros Hid Htext p.
  assert (Hsame : forall w w', db_wf (w_db w) -> w_db w' = w_db w -> untouched (fun w => db_wf (w_db w)) (claim_held (scope p)) (fun w => events (w_db w)) w w').
  { intros w w' Hwf Hdb. split; [by rewrite Hdb|]. split; [|by rewrite Hdb]. intros t v. unfold claim_held. by rewrite Hdb. }
  split.
  - intros ps ev v w w' x Hwf Hev Hc Hs H. simpl in H. destruct x as [res|e].
    + apply Append_Ok in H as (_ & _ & Hwf' & prev & rows & orows & Ha & He & _ & _ & _ & Hcl & _); [|done].
      rewrite Hev in Ha. rewrite Hc in Hcl. simpl in Hcl. unfold run_constraint in Hcl. simpl in Hcl.
      destruct (owners (w_db w) !! _) as [o|] eqn:Hl; [done|]. injection Hcl as Hcl.
      destruct rows as [|row [|]]; simpl in Ha; [done| |by destruct Ha as (? & ? & ? & ? & ? & [])].
      destruct Ha as (actor & h & _ & _ & -> & _). split; [done|]. split; [unfold claim_held; rewrite Hl; by intros [? ?]|]. split.
      * intros t' v'. unfold claim_held. rewrite <- Hcl.
        destruct (decide ((StreamID.Tenant (ap_StreamID ps), scope p, v) = (t', scope p, v'))) as [Heq|Hne].
        -- rewrite Heq, lookup_insert_eq. injection Heq as <- <-. split; [intros _; by right|]. intros _. by eexists.
        -- rewrite lookup_insert_ne by done. split; [by left|]. intros [Hh|[-> ->]]; [done|]. by destruct Hne.
      * eexists. split; [|exact He]. by split_and!.
    + pose proof (Append_Err _ _ _ _ _ H) as Hdb. split; [by apply Hsame|]. intros Hv.
      unfold claim_held. by eapply Append_violation.
  - intros w w' x Hwf H. apply Hsame; [done|]. by eapply Hid.
  - intros env w w' x Hwf [= <- _]. by apply Hsame.
  - intros env w w' rt _ [= _ H]. done.
  - exact Htext.
Qed.
End SqliteLinked.

(** ** An audit stream derived from the invoice log *)
#[local] Existing Instances concrete_prims concrete_sqlite.

(** One audit entry per invoice event, in a stream of its own. *)
Definition demo_route (env : Envelope.t) : res (Route bytes) :=
  Ok (mkRoute false (StreamID.mk "acme" "audit" (if Envelope.Version env =? 1 then "a1" else "a2"))
        (Some (Envelope.Payload env)) "audit.v1.Entry" 0 0 Actor.zero).

Definition demo_linked_config : Config World bytes :=
  mkConfig "audit" (Some (sqlite_store demo_clock_oracle)) ["E"] (Some (fun env => of_res (demo_route env))) None.
Definition demo_linked : Linked.Projection World bytes :=
  mkProjection "audit" (sqlite_store demo_clock_oracle) ["E"] (fun env => of_res (demo_route env)) None.
Definition demo_link (env : Envelope.t) (w : World) : World * res unit :=
  Handler (fun m : bytes => Ok m) demo_uuid uuid_string demo_linked env w.

Definition demo_sources : list Envelope.t := sqlite_log demo_a2.
Definition demo_src (n : nat) : Envelope.t := default Envelope.zero (demo_sources !! n).

(** The first event is delivered again after the second. *)
Definition demo_l1 := demo_link (demo_src 0) demo_a2.
Definition demo_l2 := demo_link (demo_src 1) (fst demo_l1).
Definition demo_l3 := demo_link (demo_src 0) (fst demo_l2).

Definition demo_tail (w : World) : list (string * UUID) :=
  (fun r => (er_stream_id r, er_causation_id r)) <$> drop 2 (events (w_db w)).

Lemma demo_linked_laws :
  LinkedLaws demo_uuid uuid_string demo_linked (fun w => db_wf (w_db w)) (claim_held (scope demo_linked))
    (fun w => events (w_db w)) row_records (fun env rt => demo_route env = Ok rt).
Proof.
  apply sqlite_linked_laws; try done.
  - by intros w w' x [= <- _].
  - intros a b Ha Hb H. apply (be_bytes_inj 16); [done|done|].
    rewrite <- (bytes_of_str_of_bytes (be_bytes 16 a)), <- (bytes_of_str_of_bytes (be_bytes 16 b)). by f_equal.
Qed.

Lemma delivered_uuids (a b : Envelope.t) :
  is_uuid (Envelope.EventID a) -> is_uuid (Envelope.EventID b) ->
  forall env x, Delivered env x ∈ [Delivered (L := EventRow) a (Ok tt); Delivered b (Ok tt); Delivered a (Ok tt)] ->
    is_uuid (Envelope.EventID env).
Proof.
  intros Ha Hb env x Hin. repeat (apply elem_of_cons in Hin as [[= -> _]|Hin]; [done|]). by apply elem_of_nil in Hin.
Qed.

Lemma linked_exactly_once_witness :
  New demo_linked_config = Ok demo_linked /\
  demo_tail (fst demo_l3) = [("audit:a1", Envelope.EventID (demo_src 0)); ("audit:a2", Envelope.EventID (demo_src 1))] /\
  exists ems : list (Envelope.t * Route bytes * EventRow),
    events (w_db (fst demo_l3)) ≡ₚ events (w_db demo_a2) ++ (snd <$> ems) ++ [] /\ NoDup (em_key <$> ems) /\
    ("acme", Envelope.EventID (demo_src 0)) ∈ em_key <$> ems.
Proof.
  split; [reflexivity|]. split; [vm_compute; reflexivity|].
  assert (H1 : snd demo_l1 = Ok tt) by (vm_compute; reflexivity).
  assert (H2 : snd demo_l2 = Ok tt) by (vm_compute; reflexivity).
  assert (H3 : snd demo_l3 = Ok tt) by (vm_compute; reflexivity).
  destruct (linked_exactly_once (fun m : bytes => Ok m) demo_uuid uuid_string demo_linked _ _ _ _ _ demo_linked_laws demo_a2
    [Delivered (demo_src 0) (Ok tt); Delivered (demo_src 1) (Ok tt); Delivered (demo_src 0) (Ok tt)] (fst demo_l3))
    as (ems & Hp & Hnd & _ & Hdel).
  - reflexivity.
  - exact (so_wf _ demo_a2_ok).
  - intros t v. unfold claim_held. assert (Hn : owners (w_db demo_a2) = ∅) by (vm_compute; reflexivity).
    rewrite Hn, lookup_empty. by intros [? ?].
  - apply delivered_uuids; unfold is_uuid; vm_compute; split; congruence.
  - apply trace_deliver with (fst demo_l1); [rewrite <- H1; exact (surjective_pairing demo_l1)|].
    apply trace_deliver with (fst demo_l2); [rewrite <- H2; exact (surjective_pairing demo_l2)|].
    apply trace_deliver with (fst demo_l3); [rewrite <- H3; exact (surjective_pairing demo_l3)|]. apply trace_nil.
  - exists ems. split; [exact Hp|]. split; [exact Hnd|].
    destruct (Hdel (demo_src 0) ltac:(by left)) as [Hf|(rt & Hr & [Hs|Hin])].
    + by vm_compute in Hf.
    + injection Hr as <-. done.
    + injection Hr as <-. exact Hin.
Defined.
