(* ===== verification/SqliteDsar.v ===== *)
(** * Subject exports on SQLite

    The SQLite log keeps the contract of RunSubjectExport, for any inspector
    that only looks at the envelope. *)
From S2P Require Import Prelude Errors Streams Events Store Aggregate AggregateFacts Rebuild Dsar Chain GoTime Sql SqliteDB SqliteStore SqliteFacts SqliteStream SqliteAppend Invoice SqliteAggregate SqliteLog.

Section SqliteExports.
Context {CP : ChainPrims} {SP : SqlitePrims} (O : Oracle).

(** An inspector that does no I/O. *)
Definition pure_inspector (view : Envelope.t -> option bytes) (e : Envelope.t) (_ : string) : M World (option bytes) :=
  mret (view e).

Lemma sqlite_export_laws view (req : Dsar.SubjectExportRequest) : Dsar.rq_TenantID req <> "" ->
  ExportLaws (ok := sqlite_ok) (log := sqlite_log) view (ctxErr := mret None)
    (read := Sqlite.ReadAllForTenant O) (inspect := pure_inspector view) (req := req).
Proof.
  intros Ht. split.
  - apply (ll_sorted (LogLaws := sqlite_log_laws O)).
  - intros w Hok. by exists w.
  - intros from n w w' x Hok Hf Hn H. apply ReadAllForTenant_log in H as [Hdb Hx]; try done.
    split_and!; [unfold sqlite_ok in *; by rewrite Hdb|unfold sqlite_log; by rewrite Hdb|done].
  - intros e w w' x Hok [= <- <-]. split_and!; try done. by intros p [= <-].
Qed.
End SqliteExports.

(** ** An export of the invoice log, one record at a time *)
Definition demo_export (from : Z) : Dsar.SubjectExportRequest :=
  Dsar.mkSubjectExportRequest "acme" "cust-1" from 0 1.
Definition demo_inspect : Envelope.t -> option bytes := fun e => Some (Envelope.Payload e).
Definition demo_export_run (from : Z) : option (World * res Dsar.SubjectExportResult) :=
  Dsar.RunSubjectExport (mret None) (Sqlite.ReadAllForTenant (SP := concrete_sqlite) demo_clock_oracle)
    (Some (pure_inspector demo_inspect)) (demo_export from) 3 demo_a2.
Definition export_summary (x : option (World * res Dsar.SubjectExportResult)) : option (list Z * Z * bool) :=
  match x with
  | Some (_, Ok r) => Some (Dsar.rc_Version <$> Dsar.Records r, Dsar.LastPosition r, Dsar.Truncated r)
  | _ => None
  end.

