(* ===== verification/SqliteShred.v ===== *)
(** * Subject keys on SQLite (adapters/storage/sqlite/shred.go and its queries),
      and a Shredder on them with the in-process key store

    [sqlite_shred_laws] shows that the two stores keep the contract the
    Shredder is verified against. *)
From S2P Require Import Prelude Errors Streams Events Shred Kms Retention Chain GoTime Sql SqliteDB SqliteStore SqliteFacts.

(** ** Queries (shred.sql.go) *)
Module QK.
Section QK.
Context (O : Oracle).

(** A row of subject_keys with its key. *)
Notation KeyRec := (string * string * SubjectKeyRec)%type.

Definition GetSubjectKey (tenant subject : string) : M World KeyRec :=
  select O (fun d =>
    match subject_keys d !! (tenant, subject) with
    | None => Err (ESent ErrNoRows)
    | Some r => Ok ((tenant, subject), r)
    end).

(** ON CONFLICT keeps created_at and shredded_at. *)
Definition upsert_key (dek : bytes) (version : Z) (now : Time) (old : option SubjectKeyRec) : SubjectKeyRec :=
  match old with
  | None => mkSubjectKeyRec dek version (GoTime.strftime_now now) None
  | Some r => mkSubjectKeyRec dek version (sk_created_at r) (sk_shredded_at r)
  end.

Definition UpsertSubjectKey (tenant subject : string) (dek : bytes) (version : Z) : M World unit :=
  exec O (fun now => set_subject_keys (fun t =>
    <[(tenant, subject) := upsert_key dek version now (t !! (tenant, subject))]> t)).

Definition ForgetSubject (tenant subject : string) : M World unit :=
  exec O (fun now => set_subject_keys (alter (fun r =>
    mkSubjectKeyRec [] (sk_kek_version r) (sk_created_at r) (Some (GoTime.strftime_now now)))
    (tenant, subject))).

Definition is_stale (tenant : string) (version : Z) (x : KeyRec) : bool :=
  bool_decide (fst (fst x) = tenant) && (sk_kek_version (snd x) <? version) &&
  bool_decide (sk_shredded_at (snd x) = None).

Definition ListStaleSubjectKeys (tenant : string) (version maxRows : Z) : M World (list KeyRec) :=
  select O (fun d =>
    Ok (sql_limit maxRows (order_by_text (fun x : KeyRec => snd (fst x))
          (List.filter (is_stale tenant version) (map_to_list (subject_keys d)))))).

Definition created_before (tenant cutoff : string) (x : KeyRec) : bool :=
  bool_decide (fst (fst x) = tenant) && bool_decide (sk_shredded_at (snd x) = None) &&
  str_ltb (sk_created_at (snd x)) cutoff.

Definition ListSubjectsCreatedBefore (tenant cutoff : string) (maxRows : Z) : M World (list KeyRec) :=
  select O (fun d =>
    Ok (sql_limit maxRows (order_by_text (fun x : KeyRec => snd (fst x))
          (List.filter (created_before tenant cutoff) (map_to_list (subject_keys d)))))).
End QK.
End QK.

(** ** Adapter methods *)
Module SqliteKeys.
Section SqliteKeys.
Context (O : Oracle).

Definition toSubjectKey (x : string * string * SubjectKeyRec) : res SubjectKey :=
  let r := snd x in
  match GoTime.parseTime (sk_created_at r) with
  | Err e => Err e
  | Ok created =>
      match sk_shredded_at r with
      | None => Ok (mkSubjectKey (fst (fst x)) (snd (fst x)) (sk_dek_wrapped r) (u32 (sk_kek_version r)) created None)
      | Some s =>
          if bool_decide (s = "")
          then Ok (mkSubjectKey (fst (fst x)) (snd (fst x)) (sk_dek_wrapped r) (u32 (sk_kek_version r)) created None)
          else
            match GoTime.parseTime s with
            | Err e => Err e
            | Ok t => Ok (mkSubjectKey (fst (fst x)) (snd (fst x)) (sk_dek_wrapped r) (u32 (sk_kek_version r))
                            created (Some t))
            end
      end
  end.

Definition GetSubjectKey (tenant subject : string) : M World SubjectKey :=
  r ← try (QK.GetSubjectKey O tenant subject);
  match r with
  | Err e => if errors_Is e ErrNoRows then fail (ESent ErrSubjectKeyNotFound) else fail e
  | Ok row => of_res (toSubjectKey row)
  end.

Definition UpsertSubjectKey (tenant subject : string) (dekWrapped : bytes) (kekVersion : Z) : M World unit :=
  QK.UpsertSubjectKey O tenant subject dekWrapped kekVersion.

Definition ForgetSubject (tenant subject : string) : M World unit := QK.ForgetSubject O tenant subject.

Definition ListStaleSubjectKeys (tenant : string) (currentKEKVersion limit : Z) : M World (list SubjectKey) :=
  let limit := if limit <=? 0 then 100 else limit in
  rows ← QK.ListStaleSubjectKeys O tenant currentKEKVersion limit;
  of_res (mapR toSubjectKey rows).

Definition ListSubjectsCreatedBefore (tenant : string) (cutoff : Time) (limit : Z) : M World (list SubjectKey) :=
  let limit := if limit <=? 0 then 100 else limit in
  rows ← QK.ListSubjectsCreatedBefore O tenant (GoTime.formatTime cutoff) limit;
  of_res (mapR toSubjectKey rows).
End SqliteKeys.
End SqliteKeys.

(** ** The stores of a Shredder *)

Record XWorld := mkXW { x_db : World; x_keks : Keks }.

Definition on_sqlite {B} (m : M World B) : M XWorld B := fun w =>
  let '(d, x) := m (x_db w) in (mkXW d (x_keks w), x).

Definition x_set_keks (k : Keks) (w : XWorld) : XWorld := mkXW (x_db w) k.

Section Instance.
Context {A : AEAD} (O : Oracle) (rnd : nat -> Z -> bytes).

Definition x_rand (n : Z) : M XWorld bytes := fun w =>
  (mkXW (mkWorld (w_db (x_db w)) (S (w_tick (x_db w)))) (x_keks w), Ok (rnd (w_tick (x_db w)) n)).

Definition sqlite_subjects : SubjectStore XWorld :=
  mkSubjectStore XWorld (fun t u => on_sqlite (SqliteKeys.GetSubjectKey O t u))
    (fun t u b v => on_sqlite (SqliteKeys.UpsertSubjectKey O t u b v))
    (fun t u => on_sqlite (SqliteKeys.ForgetSubject O t u))
    (fun t v n => on_sqlite (SqliteKeys.ListStaleSubjectKeys O t v n)).

Definition sqlite_shredder : Shredder.t XWorld :=
  Shredder.mk XWorld (Inproc.keyStore x_keks x_set_keks x_rand) sqlite_subjects x_rand.

Definition x_row (r : SubjectKeyRec) : KeyRow :=
  mkKeyRow (sk_dek_wrapped r) (sk_kek_version r) (if sk_shredded_at r then true else false).
Definition x_rows (w : XWorld) : gmap (string * string) KeyRow := x_row <$> subject_keys (w_db (x_db w)).

(** Rows as the adapter writes them, and fewer than 2^32 KEKs per tenant. *)
Definition rec_ok (r : SubjectKeyRec) : Prop :=
  0 <= sk_kek_version r < 2 ^ 32 /\ sk_shredded_at r <> Some "".
Definition x_ok (w : XWorld) : Prop :=
  map_Forall (fun _ r => rec_ok r) (subject_keys (w_db (x_db w))) /\
  (forall t, Z.of_nat (length (tenant_keks (x_keks w) t)) < 2 ^ 32).

Definition x_current (w : XWorld) (t : string) : Z := Z.of_nat (length (tenant_keks (x_keks w) t)).
Definition x_wraps (w : XWorld) (t : string) (b : bytes) (v : Z) (dek : bytes) : Prop :=
  0 < v /\ exists kek, tenant_keks (x_keks w) t !! Z.to_nat (v - 1) = Some kek /\ aesGCMOpen kek b = Ok dek.
Notation x_rows_kept := (rows_kept x_ok x_rows x_wraps x_current).
Notation x_keys_kept := (keys_kept x_ok x_wraps x_current).

Lemma on_sqlite_inv {B} (m : M World B) w w' x :
  on_sqlite m w = (w', x) -> m (x_db w) = (x_db w', x) /\ x_keks w' = x_keks w.
Proof. unfold on_sqlite. destruct (m (x_db w)). by intros [= <- <-]. Qed.

(** The KEK lists are the same, the rows are fine. *)
Lemma keys_kept_keks w w' : x_ok w' -> x_keks w' = x_keks w -> x_keys_kept w w'.
Proof. intros Hok Hk. unfold keys_kept, x_wraps, x_current. rewrite Hk. done. Qed.

Lemma rows_kept_db w w' :
  x_ok w -> w_db (x_db w') = w_db (x_db w) -> x_keks w' = x_keks w -> x_rows_kept w w'.
Proof.
  intros Hok Hdb Hk. split; [|unfold x_rows; by rewrite Hdb].
  apply keys_kept_keks; [|done]. unfold x_ok. by rewrite Hdb, Hk.
Qed.

Lemma toSubjectKey_row t u r k : rec_ok r -> SqliteKeys.toSubjectKey ((t, u), r) = Ok k ->
  row_of k = x_row r /\ sk_TenantID k = t /\ sk_Subject k = u.
Proof.
  intros [Hv Hs]. unfold SqliteKeys.toSubjectKey, row_of, x_row. simpl.
  destruct (GoTime.parseTime (sk_created_at r)); [|done].
  destruct (sk_shredded_at r) as [sh|].
  - case_bool_decide; [congruence|]. destruct (GoTime.parseTime sh); [|done].
    intros [= <-]. simpl. by rewrite u32_small.
  - intros [= <-]. simpl. by rewrite u32_small.
Qed.

Lemma parse_not_sentinel s e x : GoTime.parseTime s = Err e -> errors_Is e x = false.
Proof. unfold GoTime.parseTime. repeat case_match; try done. by intros [= <-]. Qed.

Lemma toSubjectKey_not_sentinel y e x : SqliteKeys.toSubjectKey y = Err e -> errors_Is e x = false.
Proof.
  unfold SqliteKeys.toSubjectKey. destruct (GoTime.parseTime (sk_created_at _)) eqn:H1;
    [|intros [= <-]; by eapply parse_not_sentinel].
  destruct (sk_shredded_at _) as [sh|]; [|done]. case_bool_decide; [done|].
  destruct (GoTime.parseTime sh) eqn:H2; [done|]. intros [= <-]. by eapply parse_not_sentinel.
Qed.

Lemma Get_spec t u w w' x :
  x_ok w -> GetSubjectKey sqlite_subjects t u w = (w', x) ->
  x_rows_kept w w' /\
  match x with
  | Ok k => x_rows w !! (t, u) = Some (row_of k)
  | Err e => errors_Is e ErrSubjectKeyNotFound = true -> x_rows w !! (t, u) = None
  end.
Proof.
  intros Hok [H Hk]%on_sqlite_inv. revert H. unfold SqliteKeys.GetSubjectKey, try, mbind, M_bind.
  destruct (QK.GetSubjectKey O t u (x_db w)) as [d1 y] eqn:H1. pose proof (select_db _ _ _ _ _ H1) as Hdb.
  assert (Hkept : forall d, w_db d = w_db (x_db w) -> x_db w' = d -> x_rows_kept w w')
    by (intros d Hd <-; by apply rows_kept_db).
  destruct y as [row|e].
  - apply select_Ok in H1 as [_ H1]. destruct (subject_keys _ !! _) as [r|] eqn:Hr; [|done].
    injection H1 as <-. unfold of_res. intros [= Hd <-]. split; [by eapply Hkept|].
    pose proof (proj1 Hok _ _ Hr) as Hrec. unfold x_rows. rewrite lookup_fmap, Hr. simpl.
    destruct (SqliteKeys.toSubjectKey _) as [k|e] eqn:Hto.
    + by destruct (toSubjectKey_row _ _ _ _ Hrec Hto) as [-> _].
    + by rewrite (toSubjectKey_not_sentinel _ _ _ Hto).
  - apply stmt_inv in H1 as [_ [(msg & _ & [= ->] & _)|[_ H1]]].
    + intros [= Hd <-]. by split; [eapply Hkept|].
    + destruct (subject_keys _ !! _) as [r|] eqn:Hr; [by injection H1|]. injection H1 as _ <-.
      intros [= Hd <-]. split; [by eapply Hkept|]. intros _. unfold x_rows. by rewrite lookup_fmap, Hr.
Qed.

Lemma Upsert_spec t u b v w w' x :
  x_ok w -> 0 <= v < 2 ^ 32 -> UpsertSubjectKey sqlite_subjects t u b v w = (w', x) ->
  x_keys_kept w w' /\
  x_rows w' = match x with
    | Ok _ => <[(t, u) := mkKeyRow b v (default false (kr_shredded <$> x_rows w !! (t, u)))]> (x_rows w)
    | Err _ => x_rows w
    end.
Proof.
  intros Hok Hv [H Hk]%on_sqlite_inv. simpl in H. apply exec_inv in H. destruct x as [[]|e].
  2:{ destruct (rows_kept_db w w' Hok H Hk) as [? ?]. done. }
  destruct H as [now Hdb]. unfold x_rows. rewrite Hdb. simpl. rewrite fmap_insert, lookup_fmap. split.
  - apply keys_kept_keks; [|done]. split; [|rewrite Hk; apply Hok]. rewrite Hdb. simpl.
    apply map_Forall_insert_2; [|apply Hok]. unfold QK.upsert_key, rec_ok.
    destruct (subject_keys _ !! (t, u)) as [r|] eqn:Hr; [|done]. simpl.
    destruct (proj1 Hok _ _ Hr) as [_ ?]. done.
  - f_equal. unfold QK.upsert_key, x_row. by destruct (subject_keys _ !! (t, u)).
Qed.

Lemma strftime_nonempty now : GoTime.strftime_now now <> "".
Proof. unfold GoTime.strftime_now, GoTime.put_clock. cbn [GoTime.put]. discriminate. Qed.

Lemma Forget_spec t u w w' x :
  x_ok w -> ForgetSubjectKey sqlite_subjects t u w = (w', x) ->
  x_keys_kept w w' /\
  x_rows w' = match x with
    | Ok _ => alter (fun r => mkKeyRow [] (kr_version r) true) (t, u) (x_rows w)
    | Err _ => x_rows w
    end.
Proof.
  intros Hok [H Hk]%on_sqlite_inv. simpl in H. apply exec_inv in H. destruct x as [[]|e].
  2:{ destruct (rows_kept_db w w' Hok H Hk) as [? ?]. done. }
  destruct H as [now Hdb]. unfold x_rows. rewrite Hdb. simpl. split.
  - apply keys_kept_keks; [|done]. split; [|rewrite Hk; apply Hok]. rewrite Hdb. simpl.
    intros k r. rewrite lookup_alter_Some. intros [(<- & r0 & Hr0 & ->)|[_ Hr]]; [|by apply (proj1 Hok _ _ Hr)].
    destruct (proj1 Hok _ _ Hr0) as [? _]. split; [done|]. simpl. injection 1. apply strftime_nonempty.
  - apply map_eq. intros k. rewrite lookup_fmap. destruct (decide ((t, u) = k)) as [<-|Hne].
    + rewrite !lookup_alter_eq, lookup_fmap. by destruct (subject_keys _ !! (t, u)).
    + by rewrite !lookup_alter_ne, lookup_fmap by done.
Qed.

(** A selection of the table, as rows of the contract. *)
Lemma selected_rows (p : string * string * SubjectKeyRec -> bool) (m : gmap (string * string) SubjectKeyRec)
    (sel : gmap (string * string) KeyRow) :
  (forall k kr, sel !! k = Some kr <-> exists r, m !! k = Some r /\ p (k, r) = true /\ kr = x_row r) ->
  (fun x => (fst x, x_row (snd x))) <$> List.filter p (map_to_list m) ≡ₚ map_to_list sel.
Proof.
  intros Hsel.
  assert (Hin : forall k r, (k, r) ∈ List.filter p (map_to_list m) <-> m !! k = Some r /\ p (k, r) = true).
  { intros k r. by rewrite list_elem_of_In, filter_In, <- list_elem_of_In, elem_of_map_to_list. }
  apply NoDup_Permutation; [|apply NoDup_map_to_list|].
  - apply (NoDup_fmap_1 fst). rewrite <- list_fmap_compose.
    eapply sublist_NoDup; [apply (NoDup_fst_map_to_list m)|]. apply fmap_sublist, lfilter_sublist.
  - intros [k kr]. rewrite elem_of_map_to_list, Hsel, list_elem_of_fmap. split.
    + intros ([k' r] & [= -> ->] & [? ?]%Hin). by exists r.
    + intros (r & ? & ? & ->). exists (k, r). split; [done|]. by apply Hin.
Qed.

Lemma stale_sel t v w k kr :
  stale x_rows t v w !! k = Some kr <->
  exists r, subject_keys (w_db (x_db w)) !! k = Some r /\ QK.is_stale t v (k, r) = true /\ kr = x_row r.
Proof.
  unfold stale, x_rows, QK.is_stale. rewrite map_lookup_filter_Some, lookup_fmap, fmap_Some. simpl. split.
  - intros [(r & Hr & ->) (Ht & Hlt & Hs)]. exists r. simpl in *.
    rewrite !andb_true_iff, !bool_decide_eq_true, Z.ltb_lt. destruct (sk_shredded_at r); done.
  - intros (r & Hr & H & ->). rewrite !andb_true_iff, !bool_decide_eq_true, Z.ltb_lt in H.
    destruct H as ((? & ?) & Hs). simpl. rewrite Hs. split; [by exists r|done].
Qed.

(** A page of rows read through the adapter. *)
Lemma page_rows (m : gmap (string * string) SubjectKeyRec) (p : string * string * SubjectKeyRec -> bool)
    (n : Z) (l : list SubjectKey) (sel : gmap (string * string) KeyRow) :
  map_Forall (fun _ r => rec_ok r) m -> 0 < n ->
  (forall k kr, sel !! k = Some kr <-> exists r, m !! k = Some r /\ p (k, r) = true /\ kr = x_row r) ->
  mapR SqliteKeys.toSubjectKey
    (sql_limit n (order_by_text (fun x => snd (fst x)) (List.filter p (map_to_list m)))) = Ok l ->
  exists q, q ≡ₚ map_to_list sel /\
    ((fun k => ((sk_TenantID k, sk_Subject k), row_of k)) <$> l) = take (Z.to_nat n) q.
Proof.
  intros Hok Hn Hsel Hl. set (sorted := order_by_text _ _) in Hl.
  exists ((fun x => (fst x, x_row (snd x))) <$> sorted). split.
  { unfold sorted, order_by_text. rewrite merge_sort_Permutation. by apply selected_rows. }
  unfold sql_limit in Hl. rewrite (proj2 (Z.ltb_ge n 0)) in Hl by lia. rewrite <- fmap_take.
  assert (Hrec : Forall (fun x => rec_ok (snd x)) (take (Z.to_nat n) sorted)).
  { apply Forall_take, Forall_forall. intros [k r] Hx. unfold sorted, order_by_text in Hx.
    rewrite merge_sort_Permutation, list_elem_of_In, filter_In, <- list_elem_of_In, elem_of_map_to_list in Hx.
    exact (Hok k r (proj1 Hx)). }
  clear Hsel. revert l Hl. induction Hrec as [|[[t' u] r] rs Hr Hrs IH]; intros l; simpl.
  { by intros [= <-]. }
  destruct (SqliteKeys.toSubjectKey _) as [k|] eqn:Hto; [|done].
  destruct (mapR SqliteKeys.toSubjectKey rs) as [ks|]; [|done]. intros [= <-]. simpl.
  destruct (toSubjectKey_row _ _ _ _ Hr Hto) as (-> & -> & ->). f_equal. by apply IH.
Qed.

Lemma ListStale_spec t v n w w' x :
  x_ok w -> 0 < n -> ListStaleSubjectKeys sqlite_subjects t v n w = (w', x) ->
  x_rows_kept w w' /\
  (forall l, x = Ok l -> exists p,
     p ≡ₚ map_to_list (stale x_rows t v w) /\
     ((fun k => ((sk_TenantID k, sk_Subject k), row_of k)) <$> l) = take (Z.to_nat n) p).
Proof.
  intros Hok Hn [H Hk]%on_sqlite_inv. revert H. unfold SqliteKeys.ListStaleSubjectKeys, mbind, M_bind.
  rewrite (proj2 (Z.leb_gt n 0)) by lia.
  destruct (QK.ListStaleSubjectKeys O t v n (x_db w)) as [d1 y] eqn:H1.
  pose proof (select_db _ _ _ _ _ H1) as Hdb.
  destruct y as [rows|e]; [|intros [= Hd <-]; split; [apply rows_kept_db; congruence|done]].
  apply select_Ok in H1 as [_ [= <-]]. unfold of_res. intros [= Hd <-].
  split; [apply rows_kept_db; congruence|]. intros l Hl.
  apply (page_rows _ _ _ _ (stale x_rows t v w) (proj1 Hok) Hn) in Hl; [done|]. apply stale_sel.
Qed.

(** *** The in-process key store *)
Context {AL : AEADLaws A} (rnd_length : forall i n, 0 <= n -> Z.of_nat (length (rnd i n)) = n).

Lemma x_rand_spec n w w' x :
  x_ok w -> x_rand n w = (w', x) -> x_rows_kept w w' /\ x_keks w' = x_keks w.
Proof. intros Hok [= <- <-]. by split; [apply rows_kept_db|]. Qed.

Lemma activeKEK_spec t w w' x :
  x_ok w -> Inproc.activeKEK x_keks x_set_keks x_rand t w = (w', x) ->
  x_rows_kept w w' /\
  (forall kek v, x = Ok (kek, v) -> 0 < v < 2 ^ 32 /\ x_current w t <= v /\
     tenant_keks (x_keks w') t !! Z.to_nat (v - 1) = Some kek).
Proof.
  intros Hok. unfold Inproc.activeKEK, mbind, M_bind, Inproc.read_keks. cbn [fst snd].
  destruct (Inproc.last_kek (tenant_keks (x_keks w) t)) as [[kek v]|] eqn:Hlk.
  { intros [= <- <-]. split; [by apply rows_kept_db|]. intros ? ? [= <- <-].
    destruct (last_kek_spec _ _ _ (proj2 Hok t) Hlk) as (Hv & Hpos & Hl).
    pose proof (proj2 Hok t). unfold x_current. split_and!; try done; lia. }
  cbn. rewrite Hlk. intros [= <- <-]. cbn.
  assert (Hnil : tenant_keks (x_keks w) t = []).
  { unfold Inproc.last_kek in Hlk. destruct (last _) eqn:Hl; [done|]. by apply last_None in Hl. }
  set (kek := rnd _ 32).
  assert (Htk : forall t', tenant_keks (<[t := [kek]]> (x_keks w)) t' =
    if decide (t' = t) then [kek] else tenant_keks (x_keks w) t').
  { intros t'. unfold tenant_keks. case_decide as Ht; [subst; by rewrite lookup_insert_eq|].
    by rewrite lookup_insert_ne by done. }
  split.
  - split; [|done]. split_and!; simpl.
    + split; [apply Hok|]. intros t'. simpl. rewrite Htk. case_decide; [simpl; lia|apply Hok].
    + intros t' b v dek [Hv (k & Hk & Ho)]. split; [done|]. exists k. simpl. rewrite Htk. split; [|done].
      case_decide; [subst; by rewrite Hnil in Hk|done].
    + intros t'. unfold x_current. simpl. rewrite Htk. case_decide; [subst; rewrite Hnil; simpl; lia|lia].
  - intros k v [= <- <-]. rewrite Htk, decide_True by done. unfold x_current. rewrite Hnil. simpl. done.
Qed.

Lemma WrapDEK_spec t dek w w' x :
  x_ok w -> Inproc.WrapDEK x_keks x_set_keks x_rand t dek w = (w', x) ->
  x_rows_kept w w' /\
  (forall b v, x = Ok (b, v) -> x_wraps w' t b v dek /\ x_current w t <= v /\ 0 <= v < 2 ^ 32).
Proof using AL rnd_length.
  intros Hok. unfold Inproc.WrapDEK, mbind, M_bind.
  destruct (Inproc.activeKEK x_keks x_set_keks x_rand t w) as [w1 y] eqn:H1.
  apply activeKEK_spec in H1 as [Hk1 Hy]; [|done].
  destruct y as [[kek v]|e]; [|by intros [= <- <-]]. destruct (Hy kek v eq_refl) as (Hv & Hcur & Hl).
  unfold aesGCMSeal. simpl. destruct (NewCipher kek) as [e|] eqn:Hn; simpl; [by intros [= <- <-]|].
  unfold mbind, M_bind. cbn. intros [= <- <-]. split.
  - destruct Hk1 as [Hk1 Hr1]. split; [|done]. destruct Hk1 as (Hok1 & Hw1 & Hc1). done.
  - intros b v' [= <- <-]. split_and!; [|done|lia|lia]. split; [lia|]. exists kek. split; [done|].
    apply open_seal_kek; [done|].
    pose proof (rnd_length (w_tick (x_db w1)) (Z.of_nat NonceSize) ltac:(lia)). lia.
Qed.

(** *** The retention scanner *)
Definition sqlite_scanner : RetentionScanner XWorld :=
  mkRetentionScanner XWorld (fun t c n => on_sqlite (SqliteKeys.ListSubjectsCreatedBefore O t c n)).

Definition x_expired (t : string) (c : Time) (w : XWorld) : gmap (string * string) KeyRow :=
  x_row <$> filter (fun x => QK.created_before t (GoTime.formatTime c) x = true) (subject_keys (w_db (x_db w))).

Lemma expired_sel t c w k kr :
  x_expired t c w !! k = Some kr <->
  exists r, subject_keys (w_db (x_db w)) !! k = Some r /\
    QK.created_before t (GoTime.formatTime c) (k, r) = true /\ kr = x_row r.
Proof.
  unfold x_expired. rewrite lookup_fmap, fmap_Some. split.
  - intros (r & [? ?]%map_lookup_filter_Some & ->). by exists r.
  - intros (r & ? & ? & ->). exists r. split; [|done]. by apply map_lookup_filter_Some.
Qed.

Lemma sqlite_retention_laws :
  RetentionLaws x_ok x_rows x_wraps x_current x_expired sqlite_shredder sqlite_scanner.
Proof.
  split.
  - intros t c w k kr Hok (r & Hr & Hc & ->)%expired_sel. unfold QK.created_before in Hc. simpl in Hc.
    rewrite !andb_true_iff, !bool_decide_eq_true in Hc. destruct Hc as ((Ht & Hs) & _).
    split_and!; [done|unfold x_rows; by rewrite lookup_fmap, Hr|]. unfold x_row. by rewrite Hs.
  - intros t c n w w' x Hok Hn [H Hk]%on_sqlite_inv. revert H.
    unfold SqliteKeys.ListSubjectsCreatedBefore, mbind, M_bind. rewrite (proj2 (Z.leb_gt n 0)) by lia.
    destruct (QK.ListSubjectsCreatedBefore O t (GoTime.formatTime c) n (x_db w)) as [d1 y] eqn:H1.
    pose proof (select_db _ _ _ _ _ H1) as Hdb.
    assert (Hsame : x_db w' = d1 -> x_rows_kept w w' /\ (forall t c, x_expired t c w' = x_expired t c w)).
    { intros Hd. split; [apply rows_kept_db; congruence|]. intros t' c'. unfold x_expired. by rewrite Hd, Hdb. }
    destruct y as [rows|e]; [|intros [= Hd <-]; by destruct (Hsame (eq_sym Hd))].
    apply select_Ok in H1 as [_ [= <-]]. unfold of_res. intros [= Hd <-].
    destruct (Hsame (eq_sym Hd)) as [? ?]. split_and!; [done|done|]. intros l Hl.
    apply (page_rows _ _ _ _ (x_expired t c w) (proj1 Hok) Hn) in Hl; [done|]. apply expired_sel.
  - intros t u w w' x Hok [H _]%on_sqlite_inv t' c. simpl in H. apply exec_inv in H.
    destruct x as [[]|e]; [|unfold x_expired; by rewrite H]. destruct H as [now Hdb].
    apply map_eq. intros k. apply option_eq. intros kr. destruct (decide ((t, u) = k)) as [<-|Hne].
    + rewrite lookup_delete_eq, expired_sel, Hdb. simpl. split; [|done].
      rewrite lookup_alter_eq. intros (r & Hr & Hc & _). apply fmap_Some in Hr as (r0 & _ & ->).
      unfold QK.created_before in Hc. simpl in Hc. by rewrite andb_false_r in Hc.
    + rewrite lookup_delete_ne by done. rewrite !expired_sel, Hdb. simpl. by rewrite lookup_alter_ne.
Qed.

Lemma sqlite_shred_laws : ShredLaws x_ok x_rows x_wraps x_current sqlite_shredder.
Proof using AL rnd_length.
  split.
  - intros w t b v d1 d2 _ [_ (k1 & Hk1 & Ho1)] [_ (k2 & Hk2 & Ho2)]. congruence.
  - intros w k r Hok Hr. unfold x_rows in Hr. rewrite lookup_fmap in Hr.
    destruct (subject_keys _ !! k) as [r0|] eqn:Hr0; [|done]. injection Hr as <-. simpl.
    apply (proj1 Hok _ _ Hr0).
  - intros n w w' x Hn Hok H. pose proof H as [Hk _]%x_rand_spec; [|done]. split; [done|].
    intros b Hb. injection H as _ <-. injection Hb as <-. by apply rnd_length.
  - intros t dek w w' x Hok H. by apply WrapDEK_spec.
  - intros t b v w w' x Hv Hok. cbn. unfold Inproc.UnwrapDEK, mbind, M_bind, Inproc.read_keks.
    destruct ((v =? 0) || _) eqn:Hc; intros [= <- <-]; (split; [by apply rows_kept_db|]); [done|].
    intros dek Hd. apply orb_false_iff in Hc as [Hv0 Hle]. apply Z.eqb_neq in Hv0. apply Z.ltb_ge in Hle.
    split; [lia|]. destruct (tenant_keks (x_keks w) t !! Z.to_nat (v - 1)) as [kek|] eqn:Hl.
    + by exists kek.
    + apply lookup_ge_None in Hl. lia.
  - intros t w w' x Hok [= <- <-]. split; [by apply rows_kept_db|]. intros v [= <-].
    unfold x_current. pose proof (proj2 Hok t). rewrite u32_small by lia. lia.
  - intros t u w w' x Hok H. by apply Get_spec.
  - intros t u b v w w' x Hok Hv H. by apply Upsert_spec.
  - intros t u w w' x Hok H. by apply Forget_spec.
  - intros t v n w w' x Hok Hv Hn H. by apply ListStale_spec.
Qed.
End Instance.

(** ** Witnesses *)

(** An authenticated cipher for examples: the tag repeats the key's first bytes. *)
Definition demo_tag (k : bytes) : bytes := take 16 (k ++ replicate 16 Byte.x00).
#[export] Instance demo_aead : AEAD := {|
  gcm_seal := fun k _ pt => pt ++ demo_tag k;
  gcm_open := fun k _ ct =>
    let n := (length ct - 16)%nat in
    if bool_decide (drop n ct = demo_tag k) then Some (take n ct) else None
|}.

Lemma demo_tag_length k : length (demo_tag k) = 16%nat.
Proof. unfold demo_tag. rewrite length_take, length_app, length_replicate. lia. Qed.

Lemma demo_aead_laws : AEADLaws demo_aead.
Proof.
  split; intros k iv pt; simpl.
  - by rewrite length_app, demo_tag_length.
  - rewrite length_app, demo_tag_length, Nat.add_sub, drop_app_length, take_app_length.
    by rewrite bool_decide_eq_true_2.
Qed.

(** Random bytes that differ from call to call. *)
Definition demo_rnd (i : nat) (n : Z) : bytes :=
  replicate (Z.to_nat n) (default Byte.x00 (Byte.of_nat (i mod 256))).

Lemma demo_rnd_length i n : 0 <= n -> Z.of_nat (length (demo_rnd i n)) = n.
Proof. intros Hn. unfold demo_rnd. rewrite length_replicate. lia. Qed.

Definition demo_x_oracle : Oracle := no_faults (fun _ => 1700000000000000000).
Definition demo_shredder : Shredder.t XWorld := sqlite_shredder demo_x_oracle demo_rnd.
Definition demo_x_laws := sqlite_shred_laws (AL := demo_aead_laws) demo_x_oracle demo_rnd demo_rnd_length.
Definition demo_email : bytes := [Byte.x61; Byte.x40; Byte.x62].

Definition demo_x0 : XWorld * DekCache.t := (mkXW (mkWorld empty_db 0) ∅, ∅).
Definition demo_x1 : XWorld * DekCache.t :=
  fst (Shredder.EncryptField demo_shredder "acme" "u1" demo_email demo_x0).
Definition demo_sealed : bytes :=
  match snd (Shredder.EncryptField demo_shredder "acme" "u1" demo_email demo_x0) with Ok b => b | Err _ => [] end.

Notation demo_shred_ok := (shred_ok (ok := x_ok) (rows := x_rows) (wraps := x_wraps)).

Lemma demo_x0_ok : demo_shred_ok demo_x0.
Proof.
  split; [|done]. split; [apply map_Forall_empty|]. intros t. unfold tenant_keks. simpl.
  by rewrite lookup_empty.
Qed.

Lemma demo_encrypt : Shredder.EncryptField demo_shredder "acme" "u1" demo_email demo_x0 = (demo_x1, Ok demo_sealed).
Proof. vm_compute. reflexivity. Qed.

Lemma demo_x1_ok : demo_shred_ok demo_x1.
Proof.
  pose proof demo_encrypt as H.
  by apply (EncryptField_spec (AL := demo_aead_laws) (SL := demo_x_laws)) in H as (? & _); [|apply demo_x0_ok|].
Qed.

(** The field is read back by a process with an empty cache. *)
Lemma shred_roundtrip_witness :
  snd (Shredder.DecryptField demo_shredder "acme" "u1" demo_sealed (fst demo_x1, ∅)) = Ok demo_email.
Proof.
  assert (H : is_Some (match snd (Shredder.DecryptField demo_shredder "acme" "u1" demo_sealed (fst demo_x1, ∅)) with
    Ok b => Some b | Err _ => None end)) by (vm_compute; eauto).
  destruct (Shredder.DecryptField demo_shredder "acme" "u1" demo_sealed (fst demo_x1, ∅)) as [w4 x] eqn:Hd.
  destruct (shred_roundtrip demo_aead_laws demo_shredder _ _ _ _ demo_x_laws "acme" "u1" demo_email demo_x0
    demo_x1 demo_sealed (fst demo_x1, ∅) w4 x demo_x0_ok) as [Hx _]; [reflexivity|exact demo_encrypt| |exact Hd|].
  - apply rtc_once. rewrite (surjective_pairing demo_x1) at 1. apply ss_restart.
  - simpl in *. destruct x as [b|e]; [by rewrite (Hx b)|by destruct H].
Defined.

Definition demo_x2 : XWorld * DekCache.t := fst (Shredder.ForgetSubject demo_shredder "acme" "u1" demo_x1).

(** The subject stays forgotten when its process restarts. *)
Lemma shred_forgets_witness :
  is_shredded (rows := x_rows) (fst demo_x2) "acme" "u1" /\
  snd (Shredder.DecryptField demo_shredder "acme" "u1" demo_sealed (fst demo_x2, ∅)) = Err (ESent ErrShredded).
Proof.
  pose proof (shred_forgets demo_aead_laws demo_shredder _ _ _ _ demo_x_laws "acme" "u1" demo_x1 demo_x2
    demo_x1_ok eq_refl) as H.
  destruct (x_rows (fst demo_x1) !! ("acme", "u1")) as [r|] eqn:Hr; [|vm_compute in Hr; discriminate].
  destruct H as [_ Hall]; [vm_compute; reflexivity|].
  destruct (Hall (fst demo_x2, ∅)) as (Hs & Hd & _).
  { apply rtc_once. rewrite (surjective_pairing demo_x2) at 1. apply ss_restart. }
  split; [exact Hs|].
  destruct (Shredder.DecryptField demo_shredder "acme" "u1" demo_sealed (fst demo_x2, ∅)) as [w3 x] eqn:Hx.
  destruct (Hd demo_sealed w3 x Hx) as (_ & _ & Hsh). apply Hsh.
  destruct (GetSubjectKey (Shredder.Store demo_shredder) "acme" "u1" (fst demo_x2)) as [w' [k|e]] eqn:Hg; [eauto|].
  exfalso. apply (f_equal snd) in Hg. vm_compute in Hg. discriminate Hg.
Defined.

(** The key store after a rotation, and the re-wrapped subject. *)
Definition demo_x3 : XWorld :=
  fst (Inproc.RotateKEK x_keks x_set_keks (x_rand demo_rnd) "acme" (fst demo_x1)).

Lemma demo_x3_ok : x_ok demo_x3.
Proof.
  assert (Hk : x_keks demo_x3 = {["acme" := tenant_keks (x_keks demo_x3) "acme"]}) by (vm_compute; reflexivity).
  split; [apply (proj1 demo_x1_ok)|]. intros t. rewrite Hk. unfold tenant_keks at 1.
  destruct (decide (t = "acme")) as [->|Hne].
  - rewrite lookup_singleton_eq. vm_compute. reflexivity.
  - by rewrite lookup_singleton_ne.
Qed.

Lemma rewrap_completes_witness :
  exists w', Shredder.RewrapDEKs demo_shredder 3 "acme" 0 demo_x3 = Some (w', (1, None)) /\
    stale x_rows "acme" 2 w' = ∅.
Proof.
  assert (Hc : x_current demo_x3 "acme" = 2) by (vm_compute; reflexivity).
  assert (Hs : size (stale x_rows "acme" 2 demo_x3) = 1%nat) by (vm_compute; reflexivity).
  destruct (rewrap_completes demo_shredder _ _ _ _ demo_x_laws "acme" 0 3 demo_x3 demo_x3_ok)
    as (w' & n & e & Hrun & _ & _ & Hn & He); rewrite Hc in *.
  - rewrite Hs. lia.
  - assert (Hr : option_map snd (Shredder.RewrapDEKs demo_shredder 3 "acme" 0 demo_x3) = Some (1, None))
      by (vm_compute; reflexivity).
    rewrite Hrun in Hr. injection Hr as -> ->. exists w'. split; [exact Hrun|by apply He].
Defined.

(** ** Interleavings the stores allow *)

Definition is_integrity_error {B} (x : res B) : bool :=
  match x with Err e => errors_Is e ErrCryptoIntegrity | Ok _ => false end.

(** Two processes create the key of a subject at the same time.  The second
    found no key before the first stored its own; its upsert replaces the
    first one's DEK, and what the first process encrypted no longer opens. *)
Theorem ensure_race_loses_dek :
  snd (GetSubjectKey (Shredder.Store demo_shredder) "acme" "u1" (fst demo_x0)) = Err (ESent ErrSubjectKeyNotFound) /\
  let w := fst (Shredder.createSubjectKey demo_shredder "acme" "u1" (fst demo_x1, ∅)) in
  is_integrity_error (snd (Shredder.DecryptField demo_shredder "acme" "u1" demo_sealed (fst w, ∅))) = true.
Proof. vm_compute. split; reflexivity. Qed.

(** A subject is forgotten while RewrapDEKs holds its row.  The re-wrap writes
    the DEK back into the shredded row: the row says shredded, but its wrapped
    bytes unwrap to the DEK that was to be destroyed. *)
Theorem rewrap_restores_forgotten_dek :
  let listed := match snd (ListStaleSubjectKeys (Shredder.Store demo_shredder) "acme" 2 10 demo_x3) with
                | Ok (k :: _) => k | _ => mkSubjectKey "" "" [] 0 0 None end in
  let w1 := fst (ForgetSubjectKey (Shredder.Store demo_shredder) "acme" "u1" demo_x3) in
  let w2 := fst (Shredder.rewrapRow demo_shredder "acme" listed w1) in
  kr_shredded <$> x_rows w2 !! ("acme", "u1") = Some true /\
  (kr_wrapped <$> x_rows w1 !! ("acme", "u1")) = Some [] /\
  (r ← x_rows w2 !! ("acme", "u1");
   match snd (UnwrapDEK (Shredder.KMS demo_shredder) "acme" (kr_wrapped r) (kr_version r) w2) with
   | Ok dek => Some (dek, DekCache.get (snd demo_x1) "acme" "u1") | Err _ => None end) =
  Some (demo_rnd 1 32, Some (demo_rnd 1 32)).
Proof. vm_compute. split_and!; reflexivity. Qed.

(** Tenants whose ids contain the separator share cache entries: the field of
    tenant "a", subject "b|c" opens for tenant "a|b", subject "c", which has no
    key. *)
Theorem cache_key_collision :
  let enc := Shredder.EncryptField demo_shredder "a" "b|c" demo_email demo_x0 in
  match snd enc with
  | Ok sealed =>
      snd (Shredder.DecryptField demo_shredder "a|b" "c" sealed (fst enc)) = Ok demo_email /\
      x_rows (fst (fst enc)) !! ("a|b", "c") = None
  | Err _ => False
  end.
Proof. vm_compute. split; reflexivity. Qed.

(** A subject that has no key yet cannot be forgotten: ForgetSubject succeeds and
    leaves no tombstone, and the next encryption creates a key. *)
Lemma forget_unknown_subject :
  let w1 := fst (Shredder.ForgetSubject demo_shredder "acme" "u9" demo_x0) in
  let enc := Shredder.EncryptField demo_shredder "acme" "u9" demo_email w1 in
  snd (Shredder.ForgetSubject demo_shredder "acme" "u9" demo_x0) = Ok tt /\
  match snd enc with
  | Ok sealed => snd (Shredder.DecryptField demo_shredder "acme" "u9" sealed (fst enc)) = Ok demo_email
  | Err _ => False
  end.
Proof. vm_compute. split; reflexivity. Qed.

(** Another process that has the DEK in its cache goes on after ForgetSubject: it
    decrypts the fields of the subject, and encrypts new ones under a key that no
    longer exists. *)
Lemma peer_cache_outlives_forget :
  let peer := (fst demo_x2, snd demo_x1) in
  let enc := Shredder.EncryptField demo_shredder "acme" "u1" demo_email peer in
  is_shredded (rows := x_rows) (fst peer) "acme" "u1" /\
  snd (Shredder.DecryptField demo_shredder "acme" "u1" demo_sealed peer) = Ok demo_email /\
  match snd enc with
  | Ok sealed => snd (Shredder.DecryptField demo_shredder "acme" "u1" sealed (fst (fst enc), ∅)) = Err (ESent ErrShredded)
  | Err _ => False
  end.
Proof. split; [by do 2 eexists; vm_compute; reflexivity|]. vm_compute. split; reflexivity. Qed.

(** A key file written by one process and read by the next. *)
Definition demo_sys : nat -> option err := fun _ => None.

Lemma file_kms_restart_witness :
  exists w1 w2 wrapped,
    FileKMS.WrapDEK demo_sys demo_rnd "acme" demo_email (FileKMS.mkWorld ∅ None 0) = (w1, Ok (wrapped, 1)) /\
    FileKMS.New demo_sys w1 = (w2, Ok tt) /\
    FileKMS.UnwrapDEK "acme" wrapped 1 w2 = (w2, Ok demo_email).
Proof.
  destruct (FileKMS.WrapDEK demo_sys demo_rnd "acme" demo_email (FileKMS.mkWorld ∅ None 0)) as [w1 [[b v]|e]] eqn:H1;
    [|apply (f_equal snd) in H1; vm_compute in H1; discriminate H1].
  assert (Hv : v = 1).
  { apply (f_equal (fun x => match snd x with Ok y => snd y | Err _ => 0 end)) in H1. vm_compute in H1. congruence. }
  destruct (FileKMS.New demo_sys w1) as [w2 x] eqn:H2.
  assert (Hx : x = Ok tt) by (unfold FileKMS.New in H2; cbn in H2; congruence). subst x v.
  exists w1, w2, b. split; [reflexivity|]. split; [exact H2|].
  exact (file_kms_restart demo_aead_laws demo_sys demo_rnd demo_rnd_length "acme" demo_email (FileKMS.mkWorld ∅ None 0) w1 w2 b 1
    (tenant_keks_empty) eq_refl H1 H2).
Defined.

(** A sweep a year after the key was created, with a window of 30 days. *)
Definition demo_worker : Retention.RetentionWorker XWorld :=
  Retention.mkRetentionWorker (Some demo_shredder) None (Some (sqlite_scanner demo_x_oracle))
    (Some (Retention.StaticTenants ["acme"; "other"])) (30 * 86400 * 1000000000) 0 0 None
    (fun w => (w, Ok (1700000000000000000 + 365 * 86400 * 1000000000))).

Definition demo_live : M (XWorld * DekCache.t) bool := fun w => (w, Ok false).

Lemma retention_sweeps_witness :
  exists w', Retention.RunOnce demo_worker demo_live 3 demo_x1 = Some (w', (1, None)) /\
    x_expired "acme" (1700000000000000000 + 335 * 86400 * 1000000000) (fst w') = ∅.
Proof.
  assert (Hsame : forall B (m : M (XWorld * DekCache.t) B), (forall w, exists b, m w = (w, Ok b)) ->
    keeps_keys x_ok x_rows x_wraps x_current x_expired m).
  { intros B m Hm w w' x Hok Hrun. destruct (Hm w) as [b Hb]. rewrite Hb in Hrun. injection Hrun as <- _.
    split; [by apply keys_kept_refl|done]. }
  destruct (retention_sweeps demo_worker demo_live x_ok x_rows x_wraps x_current x_expired demo_shredder
    (sqlite_scanner demo_x_oracle) demo_x_laws (sqlite_retention_laws demo_x_oracle demo_rnd)
    (Retention.StaticTenants ["acme"; "other"]) ["acme"; "other"]
    (1700000000000000000 + 365 * 86400 * 1000000000) demo_x1 demo_x1 demo_x1 3)
    as (w' & n & e & Hrun & _ & _ & He); try reflexivity.
  - discriminate.
  - apply Hsame. intros w. by eexists.
  - apply Hsame. intros w. by eexists.
  - apply Hsame. intros w. by eexists.
  - apply demo_x1_ok.
  - intros u Hu. apply elem_of_cons in Hu as [->|Hu].
    + apply (bool_decide_unpack _). vm_compute. exact I.
    + apply list_elem_of_singleton in Hu as ->. apply (bool_decide_unpack _). vm_compute. exact I.
  - assert (Hr : option_map snd (Retention.RunOnce demo_worker demo_live 3 demo_x1) = Some (1, None))
      by (vm_compute; reflexivity).
    rewrite Hrun in Hr. injection Hr as -> ->. exists w'. split; [exact Hrun|].
    apply (He eq_refl); [|by left]. intros w _. by eexists.
Defined.

(** A sweep whose context is done reports no error and leaves the expired key. *)
Lemma cancelled_sweep_silent :
  Retention.RunOnce demo_worker (fun w => (w, Ok true)) 3 demo_x1 = Some (demo_x1, (0, None)) /\
  size (x_expired "acme" (1700000000000000000 + 335 * 86400 * 1000000000) (fst demo_x1)) = 1%nat.
Proof. vm_compute. split; reflexivity. Qed.
