(* ===== verification/SqliteConformance.v ===== *)
(** * The SQLite adapter passes the conformance suite

    [sqlite_conforms]: on a database whose streams verify, and without failing
    statements, the SQLite adapter meets the specification of Conformance.v; so
    it passes every test of estest/conformance.go. *)
From stdpp Require Import pretty.
From S2P Require Import Prelude Errors Streams Events Store Aggregate AggregateFacts Chain GoTime Sql SqliteDB SqliteStore SqliteFacts SqliteStream SqliteAppend Invoice SqliteAggregate SqliteShred Shred Kms Conformance KmsConformance.

Lemma claims_after_run t stream ops : forall m, claims_after t stream ops m = run_constraints t stream ops m.
Proof.
  induction ops as [|op ops IH]; intros m; cbn [claims_after run_constraints]; [done|]. unfold run_constraint.
  destruct (co_Op op =? ClaimConstraint); [destruct (m !! _); [done|apply IH]|].
  destruct (co_Op op =? ReleaseConstraint); [apply IH|done].
Qed.

Section Conforms.
Context {CP : ChainPrims} {CL : ChainLaws CP} {SP : SqlitePrims} {SL : SqliteLaws SP} (O : Oracle)
  (NF : forall t, o_fault O t = None) (Hclock : forall t, GoTime.printable (o_now O t) = true).

Definition event_of (d : DB) (tenant : string) (id : UUID) : option Envelope.t :=
  match List.filter (Q.same_event tenant id) (events d) with
  | [] => None
  | r :: _ => match Sqlite.rowToEnvelope r with Ok e => Some e | Err _ => None end
  end.

Definition sqlite_held (w : World) : Held :=
  mkHeld (envelopes (w_db w)) (owners (w_db w)) (event_of (w_db w)) (events_seq (w_db w)).

(** A well-formed store whose streams verify. *)
Definition verified (w : World) : Prop :=
  sqlite_ok w /\ forall sid, StreamID.Validate sid = None -> Chain.chain_ok Chain.ZeroHash (envelopes (w_db w) sid).

Definition sqlite_accepts (sid : StreamID.t) (ev : EventToAppend) : Prop := event_ok ev /\ encodable sid ev.

Lemma same_db_verified w w' : w_db w' = w_db w -> verified w -> verified w'.
Proof. unfold verified, sqlite_ok. by intros ->. Qed.

Lemma same_db_unchanged n w w' : 0 <= n -> w_db w' = w_db w -> unchanged n (sqlite_held w) (sqlite_held w').
Proof. intros Hn H. unfold unchanged, sqlite_held; simpl. rewrite H. split_and!; try done; lia. Qed.

Lemma envelopes_collect d sid : store_ok d -> StreamID.Validate sid = None ->
  Sqlite.collect (stream_of d sid) = Ok (envelopes d sid) /\ length (envelopes d sid) = length (stream_of d sid).
Proof.
  intros Hok Hv. destruct (so_decodes d sid Hok Hv) as [envs He]. unfold envelopes. rewrite He. split; [done|].
  apply mapR_Forall2, Forall2_length in He. done.
Qed.

Lemma filter_key d t id r : db_wf d -> r ∈ events d -> event_key r = (t, id) ->
  List.filter (Q.same_event t id) (events d) = [r].
Proof.
  intros Hwf Hin Hk. pose proof (wf_event d Hwf) as Hnd. apply list_elem_of_split in Hin as (l1 & l2 & He).
  rewrite He in *. rewrite fmap_app, fmap_cons in Hnd. apply NoDup_app in Hnd as (_ & H12 & Hnd).
  apply NoDup_cons in Hnd as [H2 _]. rewrite List.filter_app. cbn [List.filter].
  rewrite (proj2 (same_event_key t id r) Hk), (filter_none _ l1), (filter_none _ l2); [done| |].
  - apply Forall_forall. intros x Hx. apply not_true_is_false. intros E%same_event_key. apply H2. rewrite Hk, <- E.
    by apply list_elem_of_fmap_2.
  - apply Forall_forall. intros x Hx. apply not_true_is_false. intros E%same_event_key.
    apply (H12 (event_key x)); [by apply list_elem_of_fmap_2|]. rewrite E, Hk. by left.
Qed.

Lemma rowToEnvelope_key r e : Sqlite.rowToEnvelope r = Ok e -> Envelope.EventID e = er_event_id r.
Proof. unfold Sqlite.rowToEnvelope. intros H. repeat case_match; simplify_eq; done. Qed.

Lemma event_none d t id : (t, id) ∉ (event_key <$> events d) -> event_of d t id = None.
Proof.
  intros Hn. unfold event_of. rewrite (filter_none _ (events d)); [done|]. apply Forall_forall. intros x Hx.
  apply not_true_is_false. intros E%same_event_key. apply Hn. rewrite <- E. by apply list_elem_of_fmap_2.
Qed.

Lemma event_unknown d t id : store_ok d -> event_of d t id = None -> (t, id) ∉ (event_key <$> events d).
Proof.
  intros Hok He (r & Hk & Hin)%list_elem_of_fmap. unfold event_of in He. symmetry in Hk.
  rewrite (filter_key d t id r (so_wf d Hok) Hin Hk) in He. destruct (so_all d Hok) as [envs Hall].
  apply mapR_Forall2 in Hall. apply list_elem_of_lookup in Hin as [i Hi].
  destruct (Forall2_lookup_l _ _ _ _ _ Hall Hi) as (e & _ & Hr). by rewrite Hr in He.
Qed.

(** What an Append adds to the events by id. *)
Lemma event_of_appended d d' t rows news : db_wf d' -> events d' = events d ++ rows -> Sqlite.collect rows = Ok news ->
  Forall (fun r => er_tenant_id r = t) rows ->
  Forall (fun e => event_of d' t (Envelope.EventID e) = Some e) news /\
  (forall t' id, ~ (t' = t /\ id ∈ Envelope.EventID <$> news) -> event_of d' t' id = event_of d t' id).
Proof.
  intros Hwf He Hc Ht. apply mapR_Forall2 in Hc. split.
  - apply Forall_forall. intros e Hin. apply list_elem_of_lookup in Hin as [i Hi].
    destruct (Forall2_lookup_r _ _ _ _ _ Hc Hi) as (r & Hri & Hr). apply list_elem_of_lookup_2 in Hri.
    unfold event_of. rewrite (filter_key d' _ _ r Hwf); [by rewrite Hr|rewrite He; set_solver|].
    unfold event_key. rewrite (rowToEnvelope_key r e Hr). f_equal. rewrite Forall_forall in Ht. by apply Ht.
  - intros t' id Hn. unfold event_of. rewrite He, List.filter_app, (filter_none _ rows), app_nil_r; [done|].
    apply Forall_forall. intros r Hin. apply not_true_is_false. intros [= E1 E2]%same_event_key. apply Hn.
    rewrite Forall_forall in Ht. split; [rewrite <- E1; by apply Ht|]. apply list_elem_of_lookup in Hin as [i Hi].
    destruct (Forall2_lookup_l _ _ _ _ _ Hc Hi) as (e & Hei & Hr). apply list_elem_of_fmap. exists e.
    split; [by rewrite (rowToEnvelope_key r e Hr)|by eapply list_elem_of_lookup_2].
Qed.

Lemma conforms_append sid evs ops m w : verified w -> StreamID.Validate sid = None -> evs <> [] ->
  events_seq (w_db w) + Z.of_nat (length evs) <= max_i64 -> Forall (sqlite_accepts sid) evs ->
  NoDup (ea_EventID <$> evs) -> Forall (fun ev => event_of (w_db w) (StreamID.Tenant sid) (ea_EventID ev) = None) evs ->
  run_constraints (StreamID.Tenant sid) (StreamID.Canonical sid) ops (owners (w_db w)) = Some m ->
  let expected := Z.of_nat (length (envelopes (w_db w) sid)) in
  exists w' res envs, Sqlite.Append O (Suite.params sid expected evs ops) w = (w', Ok res) /\ verified w' /\
    Forall2 carries evs envs /\ extended sid envs (sqlite_held w) (sqlite_held w') /\ owners (w_db w') = m /\
    ar_StartVersion res = expected + 1 /\ ar_EndVersion res = expected + Z.of_nat (length evs) /\
    ar_StartGlobalPosition res = events_seq (w_db w) + 1 /\
    ar_EndGlobalPosition res = events_seq (w_db w) + Z.of_nat (length evs).
Proof.
  intros [Hok Hch] Hv Hne Hroom Hacc Hnd Hfresh Hm expected. pose proof (so_wf _ Hok) as Hwf.
  destruct (envelopes_collect _ sid Hok Hv) as [Hcol Hlen].
  pose proof (stream_of_length _ sid Hwf) as Hle. pose proof (wf_seq _ Hwf) as Hseq0. unfold max_i64 in *.
  set (p := Suite.params sid expected evs ops).
  assert (Hev : Forall event_ok evs) by (eapply Forall_impl; [exact Hacc|]; by intros ? []).
  assert (Hexp : expected = Z.of_nat (length (stream_of (w_db w) sid))) by (unfold expected; by rewrite Hlen).
  destruct (append_succeeds CP CL SP O p w (envelopes (w_db w) sid)) as (w' & res & HA); try done.
  { by apply (so_dense _ Hok). }
  { simpl. lia. }
  { apply Chain.verify_loop_ok. by apply Hch. }
  { eapply Forall_impl; [exact Hacc|]. by intros ? []. }
  { split; [done|]. intros ev Hin. rewrite Forall_forall in Hfresh. by apply event_unknown, Hfresh. }
  exists w', res. destruct (Append_recorded O p w w' res HA) as [tk Hrec].
  destruct (Append_Ok O p w w' res Hwf HA) as (_ & _ & Hwf' & prev0 & rows0 & orows & _ & He0 & Hseq & _ & _ & Hcl & _ & _ &
    _ & _ & Hsp & Hep & _).
  destruct (Append_view O p w w' res Hclock Hok HA) as (Hok' & _ & _ & Hstart & Hend & _); [simpl; lia|simpl; lia|done|simpl; lia|].
  destruct (Append_dense O p w w' res Hwf (so_dense _ Hok sid Hv)) as (_ & prev & rows & _ & Ha & He & Hst & _); [simpl; lia|simpl; lia|done|].
  destruct (append_extends CP CL SP SL O p w w' res (envelopes (w_db w) sid)) as (news & Hcol' & Hch' & Hcar & Hver & Hgp & Hall);
    [done|by apply (so_dense _ Hok)|simpl; lia|simpl; lia|done|rewrite Hrec; apply Hclock|done|by apply Hch|done|].
  cbn [p Suite.params ap_StreamID ap_ExpectedVersion ap_Events ap_Constraints] in *.
  assert (Hrows : Sqlite.collect rows = Ok news).
  { unfold Sqlite.collect in *. rewrite Hst, mapR_app, Hcol in Hcol'. destruct (mapR Sqlite.rowToEnvelope rows); [|done].
    injection Hcol' as Hcol'. by apply app_inv_head in Hcol' as ->. }
  destruct (appended_columns sid expected (GoTime.formatTime (ar_RecordedAt res)) evs 0 prev (events_seq (w_db w)) rows)
    as (Hin & _); [lia|lia|lia|exact Ha|].
  assert (Hother : forall sid', StreamID.Validate sid' = None -> sid' <> sid -> envelopes (w_db w') sid' = envelopes (w_db w) sid').
  { intros sid' Hv' Hn. unfold envelopes. by rewrite (stream_of_other (w_db w) (w_db w') sid sid' rows). }
  assert (Hown : envelopes (w_db w') sid = envelopes (w_db w) sid ++ news) by (unfold envelopes at 1; by rewrite Hcol').
  destruct (event_of_appended (w_db w) (w_db w') (StreamID.Tenant sid) rows news Hwf' He Hrows) as [Hin' Hout].
  { eapply Forall_impl; [exact Hin|]. intros r Hr. unfold Q.in_stream in Hr. by bool_to_prop. }
  pose proof (Forall2_length _ _ _ Hcar) as Hnl. exists news. split; [done|]. split.
  { split; [done|]. intros sid' Hv'. destruct (decide (sid' = sid)) as [->|Hn]; [by rewrite Hown|]. rewrite Hother by done. by apply Hch. }
  split; [done|]. split.
  { unfold extended, sqlite_held. cbn [h_stream h_event h_top]. rewrite <- Hnl, Hown, Hver, Hgp, Hseq. split_and!; try done.
    apply Forall_and. split; [|done]. eapply Forall_impl; [exact Hall|]. by intros e []. }
  rewrite Hm in Hcl. split; [by injection Hcl as <-|]. rewrite Hstart, Hend, Hsp, Hep, !u64_small by lia. done.
Qed.

Lemma conforms_conflict sid expected evs w : verified w -> StreamID.Validate sid = None -> evs <> [] ->
  0 <= expected < Z.of_nat (length (envelopes (w_db w) sid)) -> Forall (sqlite_accepts sid) evs ->
  exists w', Sqlite.Append O (Suite.params sid expected evs []) w = (w', Err (ESent ErrConflict)) /\ w_db w' = w_db w.
Proof.
  intros [Hok Hch] Hv Hne Hex Hacc. destruct (envelopes_collect _ sid Hok Hv) as [Hcol Hlen]. rewrite Hlen in Hex.
  pose proof (stream_of_length _ sid (so_wf _ Hok)). pose proof (wf_seq _ (so_wf _ Hok)). unfold max_i64 in *.
  destruct evs as [|ev evs]; [done|]. apply Forall_cons in Hacc as [[_ Henc] _].
  assert (Hrow : exists r, r ∈ stream_of (w_db w) sid /\ er_version r = expected + 1).
  { assert (Hin : expected + 1 ∈ er_version <$> stream_of (w_db w) sid)
      by (rewrite (so_dense _ Hok sid Hv); apply elem_of_seqZ; lia).
    apply list_elem_of_fmap in Hin as (r & Hr & Hin). by exists r. }
  destruct Hrow as (r & Hin & Hr).
  eapply (append_conflict_reported CP CL SP O (Suite.params sid expected (ev :: evs) []) ev evs w r (envelopes (w_db w) sid));
    try done; [simpl; lia|apply Chain.verify_loop_ok; by apply Hch].
Qed.

Lemma claims_none t stream ops : forall m, claims_after t stream ops m = None -> Forall (fun op => co_Op op = ClaimConstraint) ops ->
  exists pre op post m' o, ops = pre ++ op :: post /\ co_Op op = ClaimConstraint /\ run_constraints t stream pre m = Some m' /\
    m' !! (t, co_Scope op, co_Value op) = Some o.
Proof.
  induction ops as [|op ops IH]; intros m H [Hop Hall]%Forall_cons || intros m H Hall; [done|].
  cbn [claims_after] in H. rewrite Hop in H. cbn [Z.eqb Pos.eqb ClaimConstraint] in H.
  destruct (m !! (t, co_Scope op, co_Value op)) as [o|] eqn:Ho.
  - exists [], op, ops, m, o. done.
  - destruct (IH _ H Hall) as (pre & op' & post & m' & o & -> & Hop' & Hrun & Hl).
    exists (op :: pre), op', post, m', o. split; [done|]. split; [done|]. split; [|done].
    cbn [run_constraints]. unfold run_constraint. rewrite Hop, Ho. done.
Qed.

Lemma same_db_laws w w' n : 0 <= n -> verified w -> w_db w' = w_db w ->
  verified w' /\ unchanged n (sqlite_held w) (sqlite_held w').
Proof. intros Hn Hw H. split; [by eapply same_db_verified|by apply same_db_unchanged]. Qed.

Lemma foldr_max (v M : Z) l : Forall (fun x => x <= M) (v :: l) -> M ∈ v :: l -> foldr Z.max v l = M.
Proof.
  intros [Hv Hl]%Forall_cons Hin.
  assert (Hle : foldr Z.max v l <= M) by (clear Hin; induction Hl; simpl; lia).
  assert (Hge : forall x, x ∈ v :: l -> x <= foldr Z.max v l).
  { clear. induction l as [|y l IH]; intros x Hx; simpl.
    - apply list_elem_of_singleton in Hx. lia.
    - apply elem_of_cons in Hx as [->|[->|Hx]%elem_of_cons]; [|lia|].
      + specialize (IH v ltac:(by left)). lia.
      + specialize (IH x ltac:(by right)). lia. }
  specialize (Hge M Hin). lia.
Qed.

Lemma max_dense l n : er_version <$> l = seqZ 1 n -> 0 <= n -> Q.max_version l = n.
Proof.
  intros H Hn. unfold Q.max_version. rewrite H. destruct (decide (n = 0)) as [->|Hz]; [done|].
  destruct (seqZ 1 n) as [|v vs] eqn:Hs; [rewrite seqZ_cons in Hs by lia; done|].
  apply foldr_max; rewrite <- Hs; [|apply elem_of_seqZ; lia]. apply Forall_forall. intros x Hx%elem_of_seqZ. lia.
Qed.

Lemma conforms_current sid w : verified w -> StreamID.Validate sid = None ->
  Sqlite.CurrentStreamVersion O sid w = (mkWorld (w_db w) (S (w_tick w)), Ok (Z.of_nat (length (envelopes (w_db w) sid)))).
Proof.
  intros [Hok _] Hv. destruct (envelopes_collect _ sid Hok Hv) as [_ ->]. unfold Sqlite.CurrentStreamVersion. rewrite Hv.
  erewrite bind_run by reflexivity. unfold Q.CurrentStreamVersion, mbind, M_bind. rewrite select_run by done.
  rewrite <- (so_order _ Hok sid Hv), (max_dense _ _ (so_dense _ Hok sid Hv)) by lia.
  pose proof (stream_of_length _ sid (so_wf _ Hok)). pose proof (wf_seq _ (so_wf _ Hok)). unfold max_i64 in *.
  unfold mret, M_ret. by rewrite u64_small by lia.
Qed.

Lemma conforms_event t id w : verified w -> exists r, Sqlite.GetEventByID O t id w = (mkWorld (w_db w) (S (w_tick w)), r) /\
  match event_of (w_db w) t id with
  | Some e => r = Ok e
  | None => exists e, r = Err e /\ errors_Is e ErrEventNotFound = true
  end.
Proof.
  intros [Hok _]. unfold Sqlite.GetEventByID, Q.GetEventByID, try, mbind, M_bind. rewrite select_run by done.
  unfold event_of. destruct (List.filter (Q.same_event t id) (events (w_db w))) as [|r l] eqn:Hf; [by eexists; split; [done|]; eexists|].
  assert (Hin : r ∈ events (w_db w)).
  { assert (r ∈ List.filter (Q.same_event t id) (events (w_db w))) as Hr by (rewrite Hf; by left).
    apply list_elem_of_In, List.filter_In in Hr as [Hr _]. by apply list_elem_of_In. }
  destruct (so_all _ Hok) as [envs Hall]. apply mapR_Forall2 in Hall. apply list_elem_of_lookup in Hin as [i Hi].
  destruct (Forall2_lookup_l _ _ _ _ _ Hall Hi) as (e & _ & Hr). unfold of_res. rewrite Hr. by eexists.
Qed.

#[export] Instance sqlite_conforms : ConformingStore (sqlite_store O) verified sqlite_held sqlite_accepts.
Proof.
  split.
  - intros w [Hok _]. apply (wf_seq _ (so_wf _ Hok)).
  - intros sid evs ops m w Hw Hv Hne Hroom Ha Hnd Hf Hm. rewrite claims_after_run in Hm. by apply conforms_append.
  - intros sid ex evs w Hw Hv Hne Hex Ha. destruct (conforms_conflict sid ex evs w Hw Hv Hne Hex Ha) as (w' & HA & Hdb).
    exists w', (ESent ErrConflict). split; [done|]. split; [done|]. apply same_db_laws; [lia|done|done].
  - intros sid ex evs ops w Hw Hv Hne Hcl Hops.
    destruct (claims_none _ _ _ _ Hcl Hops) as (pre & op & post & m' & o & -> & Hop & Hrun & Hl).
    destruct (append_claim_taken CP SP O (Suite.params sid ex evs (pre ++ op :: post)) w pre op post m' o NF) as (w' & HA & Hdb);
      try done.
    exists w', (ESent ErrConstraintViolated). split; [done|]. split; [done|]. apply same_db_laws; [lia|done|done].
  - intros sid v w Hw Hv Hb. pose proof Hw as [Hok _]. destruct (envelopes_collect _ sid Hok Hv) as [Hcol _].
    exists (mkWorld (w_db w) (S (w_tick w))). split; [|by apply same_db_laws].
    simpl. rewrite ReadStream_run by (done || apply Hok). rewrite read_dense by (done || by apply (so_dense _ Hok)).
    by rewrite (collect_drop _ _ _ Hcol).
  - intros sid w Hw Hv. eexists. split; [by apply conforms_current|]. by apply same_db_laws.
  - intros t id w Hw. destruct (conforms_event t id w Hw) as (r & HG & Hr). do 2 eexists. split; [exact HG|].
    destruct (same_db_laws w (mkWorld (w_db w) (S (w_tick w))) 0) as [? ?]; done.
Qed.
End Conforms.

(** The suite on a database: the tenants it will use are unknown to it, and so are
    the ids it will draw. *)
Record suite_ready (uuid_New : nat -> UUID) (c : Z) (j : nat) (d : DB) : Prop := mk_suite_ready {
  sr_counter : 0 <= c /\ c + 8 < 2 ^ 64;
  sr_room : events_seq d + 23 <= max_i64;
  sr_ids : forall r k, r ∈ events d -> (j <= k)%nat -> er_event_id r <> uuid_New k;
  sr_tenants : forall r, r ∈ events d -> er_tenant_id r ∉ suite_tenants c;
  sr_claims : forall tenant scope value, tenant ∈ suite_tenants c -> owners d !! (tenant, scope, value) = None
}.

Lemma suite_ready_ok {SP : SqlitePrims} {CP : ChainPrims} uuid_New c j w :
  verified w -> suite_ready uuid_New c j (w_db w) -> ready (ok := verified) (held := sqlite_held) uuid_New (suite_tenants c) 23 w j.
Proof.
  intros Hw [_ Hroom Hids Ht Hc]. split; [done|done| | |done].
  - intros k tenant Hk. apply event_none. intros (r & [= _ E] & Hin)%list_elem_of_fmap. by apply (Hids r k Hin Hk).
  - intros sid Hv Hin. destruct Hw as [Hok _]. destruct (envelopes_collect _ sid Hok Hv) as [_ Hlen].
    apply nil_length_inv. simpl. rewrite Hlen. apply length_zero_iff_nil. rewrite (so_order _ Hok sid Hv).
    apply filter_none, Forall_forall. intros r Hr. apply not_true_is_false. intros E. unfold Q.in_stream in E. bool_to_prop.
    apply (Ht r Hr). congruence.
Qed.

(** ** What the encoders accept *)

Definition pb_strings (m : pbEnvelope) : list string :=
  [pb_event_id m; pb_tenant_id m; pb_stream_id m; pb_type_url m; pb_correlation_id m; pb_causation_id m; pb_command_id m;
   pba_principal (pb_actor m); pba_on_behalf_of (pb_actor m); pba_api_key_id (pb_actor m)].

Definition pb_utf8 (m : pbEnvelope) : Prop :=
  Forall (fun s => utf8_valid s = true) (pb_strings m) /\
  map_Forall (fun k v => utf8_valid k = true /\ utf8_valid v = true) (pba_attributes (pb_actor m)).

(** proto.Marshal refuses strings that are not UTF-8, and nothing else of this
    message; a UUID prints as hex digits and dashes; json.Marshal takes every
    struct of an integer, strings and a map of strings. *)
Class EncoderLaws (CP : ChainPrims) (SP : SqlitePrims) := {
  el_pb : forall m, pb_utf8 m -> exists b, pb_marshal m = Ok b;
  el_uuid : forall u, str_ascii (uuid_string u) = true;
  el_actor : forall a, exists s, json_marshal_actor a = Ok s
}.

Lemma made_encodable {CP : ChainPrims} {SP : SqlitePrims} (EL : EncoderLaws CP SP) sid typeURL id at_ corr caus cmd :
  StreamID.Validate sid = None -> str_ascii (StreamID.Tenant sid) = true -> str_ascii typeURL = true ->
  encodable sid (Suite.made typeURL id at_ corr caus cmd).
Proof.
  intros Hv Ht Hu. split.
  { unfold Sqlite.encodeActor. edestruct el_actor as [a ->]. by eexists. }
  intros v. apply el_pb. split; [|apply map_Forall_empty].
  repeat (apply Forall_cons_2; [apply utf8_ascii; cbn; try done; try apply el_uuid; by apply StreamID.Canonical_ascii|]).
  by apply Forall_nil_2.
Qed.

(** C9: the SQLite adapter is compliant.  On a well-formed database whose streams
    verify, which has room and does not know the ids and tenants of the run, when
    no statement fails, the clocks show times that can be printed, and the
    encoders do as documented (proto.Marshal takes valid UTF-8, json.Marshal takes
    the actor), every check of the store conformance suite passes: no test stops
    and none reports an error. *)
Theorem sqlite_passes_conformance (CP : ChainPrims) (CL : ChainLaws CP) (SP : SqlitePrims) (SL : SqliteLaws SP)
    (EL : EncoderLaws CP SP) (O : Oracle) (uuid_New : nat -> UUID) (time_Now : nat -> Time) c j w :
  (forall t, o_fault O t = None) -> (forall t, GoTime.printable (o_now O t) = true) ->
  Inj (=) (=) uuid_New -> (forall n, GoTime.printable (Suite.truncate_us (time_Now n)) = true) ->
  verified w -> suite_ready uuid_New c j (w_db w) ->
  exists w' j', Suite.RunStoreConformance (sqlite_store O) uuid_New time_Now (Suite.mkT w c j false) = Suite.mkT w' (c + 8) j' false /\
    verified w'.
Proof.
  intros NF Hclock Hinj Htime Hw Hr. pose proof (sqlite_conforms O NF Hclock) as CS.
  apply (suite_passes (CS := CS) uuid_New time_Now Hinj); [|apply Hr|apply Hr|by apply suite_ready_ok].
  intros sid typeURL n corr caus cmd id Hv Ht Hu. split; [|by apply (made_encodable EL)].
  split; [|split; [apply Htime|simpl; lia]]. split_and!; try reflexivity. apply map_Forall_empty.
Qed.

(** The primitives of the witnesses, with UUIDs that print as text. *)
Definition text_prims : ChainPrims := {|
  sha256 := sha256 (ChainPrims := concrete_prims);
  uuid_string := fun u => pretty (Z.to_N u);
  pb_marshal := pb_marshal (ChainPrims := concrete_prims)
|}.

Lemma text_laws : ChainLaws text_prims.
Proof. destruct concrete_laws as [H1 H2]. split; [exact H1|exact H2]. Qed.

Lemma text_encoders : EncoderLaws text_prims concrete_sqlite.
Proof. split; [intros m _; by eexists|intros u; apply pretty_ascii|intros a; by eexists]. Qed.

(** A run on an empty database. *)
Definition suite_run : Suite.T :=
  Suite.RunStoreConformance (sqlite_store (CP := text_prims) (SP := concrete_sqlite) demo_clock_oracle) Z.of_nat
    (fun _ => 1700000000123456789) (Suite.mkT (mkWorld empty_db 0) 0 0 false).

Lemma sqlite_passes_conformance_witness : Suite.t_failed suite_run = false.
Proof.
  destruct (sqlite_passes_conformance text_prims text_laws concrete_sqlite concrete_sqlite_laws text_encoders demo_clock_oracle Z.of_nat
    (fun _ => 1700000000123456789) 0 0 (mkWorld empty_db 0)) as (w' & j' & H & _).
  - reflexivity.
  - intros t. vm_compute. reflexivity.
  - exact Nat2Z.inj.
  - intros n. vm_compute. reflexivity.
  - split; [apply empty_store_ok|done].
  - apply mk_suite_ready; [split; [lia|reflexivity]|vm_compute; discriminate|by intros r k ?%elem_of_nil|by intros r ?%elem_of_nil|].
    intros tenant scope value _. reflexivity.
  - unfold suite_run. rewrite H. reflexivity.
Defined.

(** The suite tells stores apart: on one whose Append forgets to check the
    version that is expected, it fails. *)
Lemma suite_detects_missing_check :
  let St := sqlite_store (CP := concrete_prims) (SP := concrete_sqlite) demo_clock_oracle in
  let blind := mkStore World
    (fun p w =>
       match CurrentStreamVersion St (ap_StreamID p) w with
       | (w1, Ok v) => Append St (Suite.params (ap_StreamID p) v (ap_Events p) (ap_Constraints p)) w1
       | (w1, Err e) => (w1, Err e)
       end)
    (ReadStream St) (ReadAll St) (ReadAllForTenant St) (CurrentStreamVersion St) (GetEventByID St) None None None in
  Suite.t_failed (Suite.RunStoreConformance blind Z.of_nat (fun _ => 1700000000123456789) (Suite.mkT (mkWorld empty_db 0) 0 0 false)) = true.
Proof. vm_compute. reflexivity. Qed.

(** ** The key stores with the example cipher *)
Lemma demo_byte_inj i j : (i < 256)%nat -> (j < 256)%nat ->
  default Byte.x00 (Byte.of_nat (i mod 256)) = default Byte.x00 (Byte.of_nat (j mod 256)) -> i = j.
Proof.
  intros Hi Hj. rewrite !Nat.mod_small by lia.
  destruct (Byte.of_nat i) as [b|] eqn:Hb; [|apply Byte.of_nat_None_iff in Hb; lia].
  destruct (Byte.of_nat j) as [b'|] eqn:Hb'; [|apply Byte.of_nat_None_iff in Hb'; lia].
  simpl. intros ->. apply Byte.to_of_nat in Hb, Hb'. congruence.
Qed.

(** The hypotheses of [kms_conformance] hold for the example cipher. *)
Lemma demo_kms_conformance :
  Suite.t_failed (KmsSuite.RunKMSConformance (file_conformance demo_rnd (fun _ => None)) (FileKMS.rand demo_rnd)
    (Suite.mkT (FileKMS.mkWorld ∅ None 0) 0 0 false)) = false.
Proof.
  apply (kms_conformance demo_aead_laws demo_rnd (fun _ => None)); [apply demo_rnd_length| | |done].
  - intros i j Hij [= H]%(f_equal head). apply demo_byte_inj in H; lia.
  - intros i j iv dek Hi Hj Hn. unfold gcm_open, gcm_seal, demo_aead.
    rewrite length_app, demo_tag_length, Nat.add_sub, drop_app_length, bool_decide_eq_false_2; [done|].
    intros [= H]%(f_equal head). apply Hn. apply demo_byte_inj; [lia|lia|]. exact H.
Qed.
