(* ===== verification/SqlitePii.v ===== *)
(** * The generated crypto-shredding methods on SQLite

    An event with the fields of two subjects, encrypted, one subject forgotten,
    and decrypted; and an override that names an encrypted field. *)
From S2P Require Import Prelude Errors Streams Events Store Aggregate Shred Kms Chain GoTime SqliteDB SqliteStore SqliteFacts SqliteAppend SqliteAggregate SqliteShred Codegen CodegenPii CodegenPiiFacts CodegenSum CodegenSumFacts ShredAggregate Rebuild.
Import Access Codegen CodegenPii.

Lemma sqlite_honest O rnd : honest (s := sqlite_shredder O rnd).
Proof.
  intros t u w w' x [H _]%on_sqlite_inv. revert H. unfold SqliteKeys.GetSubjectKey, try, mbind, M_bind.
  destruct (QK.GetSubjectKey O t u (x_db w)) as [d1 [row|e]] eqn:H1.
  - intros [= _ H]. by eapply toSubjectKey_not_sentinel.
  - apply stmt_inv in H1 as [_ [(msg & _ & [= ->] & _)|[_ H1]]]; [by intros [= _ <-]|].
    destruct (subject_keys _ !! _); [by injection H1|]. injection H1 as _ <-. by intros [= _ <-].
Qed.

(** The event ProfileCreated: an id, a name under the id's key, and the email
    address of the referrer under the referrer's key. *)
Definition profile_m : Message :=
  pii_message
    [mkField "Id" "id" (mkTy StringKind None "") None false false None true "" UNSPECIFIED false false;
     mkField "DisplayName" "display_name" (mkTy BytesKind None "") None false false None false "" PERSONAL false false;
     pii_text "Email" "email" "referrer_id" false PERSONAL;
     pii_text "ReferrerId" "referrer_id" "" false INTERNAL].
Definition profile : Event :=
  list_to_map [("Id", bytes_of_str "u1"); ("DisplayName", bytes_of_str "Ann");
               ("Email", bytes_of_str "b@c.be"); ("ReferrerId", bytes_of_str "u2")].
Definition profile_pii : PIIMethods :=
  mkPIIMethods "Noted" ["display_name"; "email"] (Some "Id")
    (Steps [mkPStep "DisplayName" "display_name" false SubjArg; mkPStep "Email" "email" true (SubjGetter "ReferrerId")])
    (Steps [mkPStep "DisplayName" "display_name" false SubjArg; mkPStep "Email" "email" true (SubjGetter "ReferrerId")]).

Definition pii_x1 : XWorld * DekCache.t := fst (fst (EncryptPII demo_shredder profile_pii "acme" "u1" (demo_x0, profile))).
Definition pii_e1 : Event := snd (fst (EncryptPII demo_shredder profile_pii "acme" "u1" (demo_x0, profile))).

Lemma pii_encrypt : EncryptPII demo_shredder profile_pii "acme" "u1" (demo_x0, profile) = ((pii_x1, pii_e1), Ok tt).
Proof. vm_compute. reflexivity. Qed.

Lemma pii_x1_ok : demo_shred_ok pii_x1.
Proof.
  refine (proj1 (encryptSteps_spec (AL := demo_aead_laws) (SL := demo_x_laws) "Noted" "acme" "u1" eq_refl
    (steps profile_m) profile pii_e1 demo_x0 pii_x1 _ demo_x0_ok pii_encrypt)).
  apply steps_stable; [|reflexivity]. apply (bool_decide_unpack _). vm_compute. exact I.
Qed.

(** The referrer is forgotten by another process. *)
Definition pii_x2 : XWorld * DekCache.t := fst (Shredder.ForgetSubject demo_shredder "acme" "u2" pii_x1).

Definition pii_decrypted := DecryptPII demo_shredder profile_pii "acme" "u1" (pii_x2, pii_e1).

Lemma pii_methods_witness :
  emitPIIMethods profile_m = Some profile_pii /\ protected x_rows x_wraps (fst pii_x1) "acme" "u1" profile_m profile pii_e1 /\
  snd (fst pii_decrypted) = <["Email" := []]> profile /\
  snd pii_decrypted = ([mkRedactedField "email" "u2" "shredded"], None).
Proof.
  assert (Hem : emitPIIMethods profile_m = Some profile_pii) by reflexivity.
  pose proof (pii_methods demo_aead_laws demo_shredder x_ok x_rows x_wraps x_current demo_x_laws profile_m "acme" "u1" profile
    demo_x0 (sqlite_honest _ _) ltac:(apply (bool_decide_unpack _); vm_compute; exact I) eq_refl eq_refl demo_x0_ok) as H.
  rewrite Hem in H. destruct H as [_ H]. destruct (H eq_refl pii_x1 pii_e1 pii_encrypt) as [Hp HD].
  assert (HF : Shredder.ForgetSubject demo_shredder "acme" "u2" pii_x1 = (pii_x2, Ok tt)) by (vm_compute; reflexivity).
  destruct (ForgetSubject_spec (SL := demo_x_laws) "acme" "u2" _ _ _ pii_x1_ok eq_refl HF) as (_ & Hk & Hok2 & Hr).
  split; [exact Hem|]. split; [exact Hp|].
  destruct pii_decrypted as [[w4 e4] [red x]] eqn:Hd.
  destruct (HD (fun u => bool_decide (u = "u2")) pii_x2 w4 e4 red x Hok2) as [H1 _]; [|exact Hd|].
  - intros f Hf Hs _. destruct Hf as [<-|[<-|[<-|[<-|[]]]]]; try discriminate Hs.
    + cbn. intros dek (b & v & Hrow & Hw). exists b, v.
      rewrite Hr, lookup_alter_ne by done. split; [exact Hrow|]. by apply Hk.
    + cbn. rewrite Hr, lookup_alter_eq.
      destruct (x_rows (fst pii_x1) !! ("acme", "u2")) as [r|] eqn:Hrow; [by do 2 eexists|].
      vm_compute in Hrow. discriminate Hrow.
  - assert (Hx : x = None) by (apply (f_equal (fun z => snd (snd z))) in Hd; vm_compute in Hd; by symmetry).
    destruct (H1 Hx) as [-> ->]. rewrite Hx. split; [|reflexivity].
    apply (bool_decide_unpack _). vm_compute. exact I.
Defined.

(** An override that names an encrypted field: the owner is already encrypted
    when the key of the note is chosen, but is plaintext again when the key is
    looked up, so the note cannot be decrypted although nobody was forgotten. *)
Lemma override_of_encrypted_lost :
  let v := pii_message [pii_text "Owner" "owner" "" false PERSONAL; pii_text "Note" "note" "owner" false PERSONAL] in
  overrides_plain v = false /\ pii_compiles v = true /\
  exists pm, emitPIIMethods v = Some pm /\
  let e : Event := list_to_map [("Owner", bytes_of_str "ann"); ("Note", bytes_of_str "hi")] in
  let r := EncryptPII demo_shredder pm "acme" "u1" (demo_x0, e) in
  snd r = Ok tt /\
  snd (DecryptPII demo_shredder pm "acme" "u1" (fst r)) =
    ([], Some (EWrap "Noted.DecryptPII note" (ENew "shred: no DEK for subject"))).
Proof.
  split; [reflexivity|]. split; [reflexivity|]. eexists. split; [reflexivity|]. split; vm_compute; reflexivity.
Qed.

(** ** An aggregate with a Shredder on SQLite

    Its events are ProfileCreated events; its state is the list of the events. *)
Notation PiiWorld := (XWorld * DekCache.t)%type.

Definition on_db {B} (m : M World B) : M PiiWorld B := Shredder.on_stores (on_sqlite m).

Definition pii_store : Store PiiWorld :=
  mkStore PiiWorld (fun p => on_db (Append demo_store p)) (fun sid v => on_db (ReadStream demo_store sid v))
    (fun p n => on_db (ReadAll demo_store p n)) (fun t p n => on_db (ReadAllForTenant demo_store t p n))
    (fun sid => on_db (CurrentStreamVersion demo_store sid)) (fun t id => on_db (GetEventByID demo_store t id))
    None None None.

Definition pii_decider : Decider (list SumEvent) SumEvent SumEvent :=
  mkDecider [] (fun _ c => Ok ([c], [])) (fun l x => l ++ [x]) None.

(** A wire format for events: a length byte before every name and value; what
    would not be read back is refused. *)
Definition with_length (b : bytes) : bytes := default Byte.x00 (Byte.of_nat (length b)) :: b.
Definition pii_write (e : Event) : bytes :=
  concat ((fun kv => with_length (bytes_of_str (fst kv)) ++ with_length (snd kv)) <$> map_to_list e).
Fixpoint pii_parts (fuel : nat) (b : bytes) : list bytes :=
  match fuel, b with
  | S fuel', n :: b' => take (Byte.to_nat n) b' :: pii_parts fuel' (drop (Byte.to_nat n) b')
  | _, _ => []
  end.
Fixpoint pii_pairs (l : list bytes) : Event :=
  match l with k :: v :: l' => <[str_of_bytes k := v]> (pii_pairs l') | _ => ∅ end.
Definition pii_read (b : bytes) : Event := pii_pairs (pii_parts (length b) b).
Definition pii_marshal (_ : string) (e : Event) : res bytes :=
  if bool_decide (pii_read (pii_write e) = e) then Ok (pii_write e) else Err (ENew "proto: cannot marshal").
Definition pii_unmarshal (_ : string) (b : bytes) : res Event := Ok (pii_read b).

Definition pii_sum : CodegenSum.sumType := CodegenSum.mkSumType "Event" profile_m [profile_m].
Definition pii_msgs (go : string) : option Message := if bool_decide (go = "Noted") then Some profile_m else None.

Definition pii_runtime : Aggregate.Runtime PiiWorld (list SumEvent) SumEvent SumEvent :=
  Aggregate.mkRuntime PiiWorld (list SumEvent) SumEvent SumEvent pii_store pii_decider
    (CodegenSum.codec pii_marshal pii_unmarshal (CodegenSum.emitSumType pii_sum)) None 0 true
    (sum_methods demo_shredder pii_msgs) None None.

Lemma pii_generated : generated_runtime demo_shredder pii_runtime pii_msgs pii_sum.
Proof.
  split; try done.
  - exists pii_marshal, pii_unmarshal. split; [done|]. intros go e b. unfold pii_marshal, pii_unmarshal.
    case_bool_decide; [|done]. intros [= <-]. by f_equal.
  - split; apply (bool_decide_unpack _); vm_compute; exact I.
  - intros go v. unfold pii_msgs. case_bool_decide; [|done]. intros [= <-].
    split; [|reflexivity]. apply (bool_decide_unpack _). vm_compute. exact I.
Qed.

Notation pii_silent := (keys_silent (ok := x_ok) (rows := x_rows) (wraps := x_wraps) (current := x_current)).

(** Calls that leave the tables as they are keep the keys. *)
Lemma on_db_silent {B} (m : M World B) : (forall w w' y, m w = (w', y) -> w_db w' = w_db w) -> pii_silent (on_db m).
Proof.
  intros Hm w w' y [Hok Hc] H. unfold on_db, Shredder.on_stores, on_sqlite in H.
  destruct (m (x_db (fst w))) as [d z] eqn:Hd. injection H as <- <-. apply Hm in Hd.
  assert (Hk : rows_kept x_ok x_rows x_wraps x_current (fst w) (mkXW d (x_keks (fst w)))) by by apply rows_kept_db.
  pose proof (rows_kept_grows _ _ Hk) as Hg. split; [|done]. split; [apply Hk|].
  exact (cache_ok_grows _ _ _ Hg Hc).
Qed.

Lemma ReadStream_same O sid v w w' (y : res (list Envelope.t)) :
  ReadStream (sqlite_store (CP := concrete_prims) (SP := concrete_sqlite) O) sid v w = (w', y) -> w_db w' = w_db w.
Proof.
  cbn. unfold Sqlite.ReadStream. destruct y as [envs|e].
  - intros (w1 & [] & [-> _]%guard_err_Ok & H)%bind_Ok.
    by apply bind_Ok in H as (w2 & rows & [Hdb _]%select_Ok & [-> _]%of_res_Ok).
  - intros [H|(w1 & [] & [-> _]%guard_err_Ok & H)]%bind_Err.
    + unfold guard_err in H. destruct (StreamID.Validate sid); by injection H as <-.
    + apply bind_Err in H as [H%select_db|(w2 & rows & H%select_db & H2)]; [done|].
      unfold of_res in H2. by injection H2 as <- _.
Qed.

(** The id generator of the demo, which only reads the clock tick. *)
Lemma demo_uuid_same w w' y : demo_uuid w = (w', y) -> w_db w' = w_db w.
Proof. by intros [= <- _]. Qed.

Definition pii_stream : StreamID.t := StreamID.mk "acme" "profile" "p1".
Definition pii_cfg : Aggregate.handleConfig := Aggregate.mkHandleConfig 1 1 1 1700000000000000000 Actor.zero.
Definition pii_event : SumEvent := ("Noted", profile).

(** The event is encoded and appended, the referrer is forgotten, and the stream
    is loaded. *)
Definition pii_run := Aggregate.encodeEvent (on_db demo_uuid) pii_runtime pii_stream pii_cfg pii_event demo_x0.
Definition pii_wa : PiiWorld := fst pii_run.
Definition pii_ev : EventToAppend :=
  match snd pii_run with Ok ev => ev | Err _ => Aggregate.buildEvent pii_cfg 0 (mkEncodedEvent [] "" 0) end.
Definition pii_wb : PiiWorld := fst (Append pii_store (mkAppendParams pii_stream 0 [pii_ev] [] None "" 0 false) pii_wa).
Definition pii_wc : PiiWorld := fst (Shredder.ForgetSubject demo_shredder "acme" "u2" pii_wb).
Definition pii_envs : list Envelope.t :=
  match snd (ReadStream pii_store pii_stream 0 pii_wc) with Ok l => l | Err _ => [] end.

Lemma pii_run_ok : pii_run = (pii_wa, Ok pii_ev).
Proof. vm_compute. reflexivity. Qed.
Lemma pii_read_ok : ReadStream pii_store pii_stream 0 pii_wc = (fst (ReadStream pii_store pii_stream 0 pii_wc), Ok pii_envs).
Proof. vm_compute. reflexivity. Qed.
Lemma pii_carried : exists env, pii_envs = [env] /\ carries pii_ev env.
Proof. eexists. split; [vm_compute; reflexivity|]. vm_compute. by split_and!. Qed.
Lemma pii_forget_ok : Shredder.ForgetSubject demo_shredder "acme" "u2" pii_wb = (pii_wc, Ok tt).
Proof. vm_compute. reflexivity. Qed.

Lemma pii_load_ok :
  match snd (Aggregate.Load pii_runtime pii_stream pii_wc) with Ok y => snd y =? 1 | Err _ => false end = true.
Proof. vm_compute. reflexivity. Qed.

(** Append leaves the keys alone. *)
Lemma pii_same_keys :
  subject_keys (w_db (x_db (fst pii_wb))) = subject_keys (w_db (x_db (fst pii_wa))) /\
  x_keks (fst pii_wb) = x_keks (fst pii_wa) /\ snd pii_wb = snd pii_wa.
Proof. split_and!; vm_compute; reflexivity. Qed.

Lemma pii_wa_ok : demo_shred_ok pii_wa.
Proof.
  destruct pii_generated as [H1 (M' & U' & H2 & H3) H4 H5 H6]. destruct pii_carried as (env & _ & Hc).
  refine (proj1 (proj2 (encode_stored (AL := demo_aead_laws) (SL := demo_x_laws) (on_db demo_uuid) pii_runtime pii_msgs
    pii_sum M' U' H1 H2 H5 H4 H3 H6 pii_stream eq_refl pii_cfg pii_event demo_x0 pii_wa pii_ev env _ demo_x0_ok pii_run_ok Hc))).
  apply on_db_silent. exact demo_uuid_same.
Qed.

Lemma pii_wb_ok : demo_shred_ok pii_wb.
Proof.
  destruct pii_same_keys as (Hs & Hk & Hc). pose proof pii_wa_ok as [Hok Hca].
  assert (Hg : keys_kept x_ok x_wraps x_current (fst pii_wa) (fst pii_wb)).
  { apply keys_kept_keks; [|done]. unfold x_ok. by rewrite Hs, Hk. }
  split; [apply Hg|]. rewrite Hc. apply (cache_ok_grows (ok := x_ok) (current := x_current) (fst pii_wa)); [|done].
  split; [done|]. unfold x_rows. by rewrite Hs.
Qed.

Lemma shredded_aggregate_witness :
  exists w2, Aggregate.Load pii_runtime pii_stream pii_wc = (w2, Ok ([("Noted", <["Email" := []]> profile)], 1)).
Proof.
  destruct (shredded_aggregate demo_aead_laws demo_shredder x_ok x_rows x_wraps x_current demo_x_laws (on_db demo_uuid)
    pii_runtime pii_msgs pii_sum pii_stream pii_generated (sqlite_honest _ _) eq_refl) as [He Hl].
  { apply on_db_silent. exact demo_uuid_same. }
  { apply on_db_silent. intros w w' y. apply ReadStream_same. }
  destruct pii_carried as (env & Henvs & Hc).
  pose proof (He pii_cfg pii_event demo_x0 pii_wa pii_ev env demo_x0_ok pii_run_ok Hc) as Hst.
  destruct (ForgetSubject_spec (SL := demo_x_laws) "acme" "u2" _ _ _ pii_wb_ok eq_refl pii_forget_ok) as (_ & Hk & Hokc & Hr).
  destruct pii_same_keys as (Hsk & Hkeks & _).
  pose proof pii_load_ok as Hload.
  destruct (Aggregate.Load pii_runtime pii_stream pii_wc) as [w2 [[state v]|e]] eqn:HL; [|discriminate Hload].
  cbn in Hload. assert (Hv : v = 1) by by apply Z.eqb_eq.
  assert (Hs : state = [shredded_event pii_msgs pii_stream (fun u => bool_decide (u = "u2")) pii_event]).
  { apply (Hl (fun u => bool_decide (u = "u2")) [pii_event] pii_wc _ pii_envs w2 state v eq_refl Hokc pii_read_ok); [|exact HL].
    rewrite Henvs. apply Forall2_cons_2; [|apply Forall2_nil_2]. exists (fst pii_wa). split; [exact Hst|].
    unfold subjects_later. change (pii_of pii_msgs pii_event) with (Some (profile_m, profile_pii)). intros f Hf Hs _. destruct Hf as [<-|[<-|[<-|[<-|[]]]]]; try discriminate Hs.
    - match goal with |- context [subject_for ?a ?b ?c] => change (subject_for a b c) with "u1" end.
      rewrite bool_decide_eq_false_2 by done. intros dek (b & n & Hrow & Hw). exists b, n.
      rewrite Hr, lookup_alter_ne by done. split; [unfold x_rows; rewrite Hsk; exact Hrow|].
      apply Hk. unfold x_wraps. rewrite Hkeks. exact Hw.
    - match goal with |- context [subject_for ?a ?b ?c] => change (subject_for a b c) with "u2" end.
      rewrite bool_decide_eq_true_2 by done. rewrite Hr, lookup_alter_eq.
      destruct (x_rows (fst pii_wb) !! ("acme", "u2")) as [row|] eqn:Hrow; [by do 2 eexists|].
      vm_compute in Hrow. discriminate Hrow. }
  exists w2. rewrite Hs, Hv. vm_compute. reflexivity.
Defined.

(** ** The state cache and forgotten subjects

    The same aggregate with a state cache; its state is the last email address
    that an event gave. *)
Definition pii_writer : StateCacheWriter PiiWorld :=
  mkStateCacheWriter PiiWorld (fun t u => on_db (Sqlite.WipeStateCacheForType demo_clock_oracle t u)).

Definition pii_cache_store : Store PiiWorld :=
  mkStore PiiWorld (Append pii_store) (ReadStream pii_store) (ReadAll pii_store) (ReadAllForTenant pii_store)
    (CurrentStreamVersion pii_store) (GetEventByID pii_store)
    (Some (mkStateCacheReader PiiWorld (fun t s => on_db (Sqlite.GetState demo_clock_oracle t s))
      (fun t u x n => on_db (Sqlite.ListStates demo_clock_oracle t u x n))))
    (Some pii_writer)
    (Some (mkStateCacheUpserter PiiWorld
      (fun row => on_db (Sqlite.UpsertCachedState (SP := concrete_sqlite) demo_clock_oracle row)))).

Definition email_decider : Decider bytes SumEvent SumEvent :=
  mkDecider [] (fun _ c => Ok ([c], []))
    (fun s x => if bool_decide (get (snd x) "Email" = []) then s else get (snd x) "Email") None.

Definition email_codec : StateCodec bytes := mkStateCodec bytes (fun s => Ok (s, "demo.v1.Profile")) Ok.

Definition email_runtime (sc : option (StateCodec bytes)) : Aggregate.Runtime PiiWorld bytes SumEvent SumEvent :=
  Aggregate.mkRuntime PiiWorld bytes SumEvent SumEvent pii_cache_store email_decider
    (CodegenSum.codec pii_marshal pii_unmarshal (CodegenSum.emitSumType pii_sum)) sc 0 true
    (sum_methods demo_shredder pii_msgs) None None.
Definition cached_email := email_runtime (Some email_codec).
Definition uncached_email := email_runtime None.

Notation email_handle := (Aggregate.Handle (on_db demo_now) (on_db demo_uuid) cached_email pii_stream).

(** The profile is created, its referrer is forgotten, and a command without an
    email address is handled. *)
Definition email_w1 : PiiWorld := fst (email_handle pii_event [] demo_x0).
Definition email_w2 : PiiWorld := fst (Shredder.ForgetSubject demo_shredder "acme" "u2" email_w1).
Definition email_w3 : PiiWorld := fst (email_handle ("Noted", <["Email" := []]> profile) [] email_w2).
(** The state cache is rebuilt instead. *)
Definition email_w4 : PiiWorld :=
  default email_w2 (option_map fst
    (Rebuild.RebuildStateCache cached_email (fun l => l) 5 pii_writer "acme" email_w2)).

(** With a state cache a forgotten subject's plaintext stays in the state: Load
    starts from it, and the next command evolves it and writes it back.  Without
    the cache Load has nothing of it. *)
Lemma cached_state_outlives_forget :
  snd (Shredder.ForgetSubject demo_shredder "acme" "u2" email_w1) = Ok tt /\
  snd (Aggregate.Load cached_email pii_stream email_w2) = Ok (bytes_of_str "b@c.be", 1) /\
  snd (Aggregate.Load cached_email pii_stream email_w3) = Ok (bytes_of_str "b@c.be", 2) /\
  snd (Aggregate.Load uncached_email pii_stream email_w3) = Ok ([], 2).
Proof. split_and!; vm_compute; reflexivity. Qed.

(** A rebuild after that does not empty the field: it caches the ciphertext,
    which Load then returns as the email address. *)
Lemma rebuild_caches_ciphertext :
  option_map snd (Rebuild.RebuildStateCache cached_email (fun l => l) 5 pii_writer "acme" email_w2) = Some (1, None) /\
  snd (Aggregate.Load uncached_email pii_stream email_w4) = Ok ([], 1) /\
  exists c, snd (Aggregate.Load cached_email pii_stream email_w4) = Ok (c, 1) /\ c <> [] /\ c <> bytes_of_str "b@c.be".
Proof.
  split; [vm_compute; reflexivity|]. split; [vm_compute; reflexivity|].
  eexists. split; [vm_compute; reflexivity|]. done.
Qed.
