(* ===== verification/SqliteProjection.v ===== *)
(** * Projections on SQLite (adapters/storage/sqlite: projection_checkpoint.go,
      projection_dlq.go, projection_admin.go, dedup.go and their queries)

    The projection tables and the adapter methods over them.  With a handler
    that writes a read model, they keep the contract of the projection runtime
    ([sqlite_projection_laws]) and of the dedup gate ([sqlite_dedup_laws]). *)
From S2P Require Import Prelude Errors Streams Sharding Events Store Aggregate AggregateFacts Rebuild Projection Chain GoTime Sql SqliteDB SqliteStore SqliteFacts SqliteStream SqliteAppend Invoice SqliteAggregate SqliteLog.

(** ** Queries *)
Module QP.
Section QP.
Context (O : Oracle).

(** *** projection_checkpoint.sql.go *)

(** A row of projection_checkpoint: name, tenant_id, cursor, updated_at. *)
Notation CheckpointRow := (string * string * (Z * string))%type.

Definition checkpoint_row (name tenant : string) (d : DB) : res (Z * string) :=
  match projection_checkpoint d !! (name, tenant) with
  | None => Err (ESent ErrNoRows)
  | Some r => Ok r
  end.

Definition LoadProjectionCheckpoint (name tenant : string) : M World Z :=
  select O (fun d => match checkpoint_row name tenant d with Ok r => Ok (fst r) | Err e => Err e end).

Definition GetProjectionStatus (name tenant : string) : M World (Z * string) :=
  select O (checkpoint_row name tenant).

Definition SaveProjectionCheckpoint (name tenant : string) (cursor : Z) (updatedAt : string)
    : M World unit :=
  exec O (fun _ => set_checkpoints <[(name, tenant) := (cursor, updatedAt)]>).

Definition ResetProjectionCheckpoint (name tenant updatedAt : string) : M World unit :=
  exec O (fun _ => set_checkpoints <[(name, tenant) := (0, updatedAt)]>).

Definition SetProjectionCheckpoint (name tenant : string) (cursor : Z) (updatedAt : string)
    : M World unit :=
  exec O (fun _ => set_checkpoints <[(name, tenant) := (cursor, updatedAt)]>).

(** ORDER BY name, tenant_id (the sort is stable). *)
Definition ListProjectionCheckpoints : M World (list CheckpointRow) :=
  select O (fun d =>
    Ok (order_by_text (fun x : CheckpointRow => fst (fst x))
          (order_by_text (fun x => snd (fst x)) (map_to_list (projection_checkpoint d))))).

(** *** projection_dlq.sql.go *)

Notation DlqRow := (string * string * Z * ProjectionDlqRec)%type.

(** ON CONFLICT keeps the event id and the type URL of the first insert. *)
Definition upsert_dlq (id : UUID) (typeURL lastError enqueuedAt : string)
    (old : option ProjectionDlqRec) : ProjectionDlqRec :=
  match old with
  | None => mkProjectionDlqRec id typeURL lastError enqueuedAt
  | Some r => mkProjectionDlqRec (pd_event_id r) (pd_type_url r) lastError enqueuedAt
  end.

Definition InsertProjectionDLQ (name tenant : string) (gp : Z) (id : UUID)
    (typeURL lastError enqueuedAt : string) : M World unit :=
  exec O (fun _ => set_projection_dlq (fun t =>
    <[(name, tenant, gp) := upsert_dlq id typeURL lastError enqueuedAt (t !! (name, tenant, gp))]> t)).

Definition dlq_of (name tenant : string) (x : DlqRow) : bool :=
  bool_decide (fst (fst (fst x)) = name) && bool_decide (snd (fst (fst x)) = tenant).

Definition ListProjectionDLQ (name tenant : string) (afterPosition maxRows : Z)
    : M World (list DlqRow) :=
  select O (fun d =>
    Ok (sql_limit maxRows (order_by (fun x : DlqRow => snd (fst x))
          (List.filter (fun x => dlq_of name tenant x && (afterPosition <? snd (fst x)))
             (map_to_list (projection_dlq d)))))).

Definition CountProjectionDLQ (name tenant : string) : M World Z :=
  select O (fun d => Ok (sql_count (dlq_of name tenant) (map_to_list (projection_dlq d)))).

Definition DeleteProjectionDLQ (name tenant : string) (gp : Z) : M World unit :=
  exec O (fun _ => set_projection_dlq (delete (name, tenant, gp))).

Definition AbandonAllProjectionDLQ (name tenant : string) : M World Z :=
  stmt O (fun _ d =>
    (set_projection_dlq (filter (fun x => dlq_of name tenant x = false)) d,
     Ok (sql_count (dlq_of name tenant) (map_to_list (projection_dlq d))))).

(** *** processed_events.sql.go *)

Definition HasProcessedEvent (name tenant : string) (id : UUID) : M World Z :=
  select O (fun d => Ok (if decide (is_Some (processed_events d !! (name, tenant, id))) then 1 else 0)).

(** ON CONFLICT DO NOTHING. *)
Definition MarkProcessedEvent (name tenant : string) (id : UUID) (processedAt : string) : M World unit :=
  exec O (fun _ => set_processed (fun t =>
    match t !! (name, tenant, id) with
    | Some _ => t
    | None => <[(name, tenant, id) := processedAt]> t
    end)).

Definition CleanupProcessedEvents (name processedAt : string) : M World Z :=
  let p := fun x : string * string * UUID * string =>
    bool_decide (fst (fst (fst x)) = name) && str_ltb (snd x) processedAt in
  stmt O (fun _ d =>
    (set_processed (filter (fun x => p x = false)) d,
     Ok (sql_count p (map_to_list (processed_events d))))).
End QP.
End QP.

(** ** Adapter methods *)

Module SqliteProj.
Section SqliteProj.
Context (O : Oracle).

(** *** projection_checkpoint.go *)
Definition Load (name tenant : string) : M World Z :=
  r ← try (QP.LoadProjectionCheckpoint O name tenant);
  match r with
  | Err e => if errors_Is e ErrNoRows then mret 0 else fail e
  | Ok cursor => mret (u64 cursor)
  end.

Definition Save (name tenant : string) (position : Z) : M World unit :=
  now ← time_Now O;
  QP.SaveProjectionCheckpoint O name tenant (i64 position) (GoTime.formatTime now).

(** *** projection_dlq.go *)
Definition truncate2048 (s : string) : string :=
  if 2048 <? Z.of_nat (String.length s) then str_take 2048 s else s.

Definition InsertProjectionDLQ (name tenant : string) (gp : Z) (id : UUID) (typeURL lastError : string)
    : M World unit :=
  now ← time_Now O;
  QP.InsertProjectionDLQ O name tenant (i64 gp) id typeURL (truncate2048 lastError)
    (GoTime.formatTime now).

Definition toDLQRow (x : string * string * Z * ProjectionDlqRec) : res ProjectionDLQRow :=
  match GoTime.parseTime (pd_enqueued_at (snd x)) with
  | Err e => Err e
  | Ok enqueued =>
      Ok (mkProjectionDLQRow (fst (fst (fst x))) (snd (fst (fst x))) (u64 (snd (fst x)))
            (pd_event_id (snd x)) (pd_type_url (snd x)) (pd_last_error (snd x)) enqueued)
  end.

Definition ListProjectionDLQ (name tenant : string) (afterPosition limit : Z)
    : M World (list ProjectionDLQRow) :=
  let limit := if limit <=? 0 then 100 else limit in
  rows ← QP.ListProjectionDLQ O name tenant (i64 afterPosition) limit;
  of_res (mapR toDLQRow rows).

Definition CountProjectionDLQ (name tenant : string) : M World Z := QP.CountProjectionDLQ O name tenant.

Definition AbandonProjectionDLQ (name tenant : string) (gp : Z) : M World unit :=
  QP.DeleteProjectionDLQ O name tenant (i64 gp).

Definition AbandonAllProjectionDLQ (name tenant : string) : M World Z :=
  QP.AbandonAllProjectionDLQ O name tenant.

(** *** projection_admin.go *)
Definition toStatus (name tenant : string) (r : Z * string) : res ProjectionStatus :=
  match GoTime.parseTime (snd r) with
  | Err e => Err e
  | Ok updated => Ok (mkProjectionStatus name tenant (u64 (fst r)) updated)
  end.

Definition Status (name tenant : string) : M World ProjectionStatus :=
  r ← try (QP.GetProjectionStatus O name tenant);
  match r with
  | Err e => if errors_Is e ErrNoRows then fail (ESent ErrStateNotFound) else fail e
  | Ok row => of_res (toStatus name tenant row)
  end.

Definition Reset (name tenant : string) : M World unit :=
  now ← time_Now O;
  QP.ResetProjectionCheckpoint O name tenant (GoTime.formatTime now).

Definition ResetTo (name tenant : string) (position : Z) : M World unit :=
  now ← time_Now O;
  QP.SetProjectionCheckpoint O name tenant (i64 position) (GoTime.formatTime now).

Definition List : M World (list ProjectionStatus) :=
  rows ← QP.ListProjectionCheckpoints O;
  of_res (mapR (fun x => toStatus (fst (fst x)) (snd (fst x)) (snd x)) rows).

(** *** dedup.go *)
Definition HasProcessedEvent (name tenant : string) (id : UUID) : M World bool :=
  v ← QP.HasProcessedEvent O name tenant id;
  mret (negb (v =? 0)).

Definition MarkProcessedEvent (name tenant : string) (id : UUID) : M World unit :=
  now ← time_Now O;
  QP.MarkProcessedEvent O name tenant id (GoTime.formatTime now).

Definition CleanupProcessedEvents (name : string) (olderThan : Time) : M World Z :=
  QP.CleanupProcessedEvents O name (GoTime.formatTime olderThan).
End SqliteProj.
End SqliteProj.

(** ** A projection over a SQLite store *)

(** The database, and a read model that records the events applied to it. *)
Notation PWorld := (World * list Envelope.t)%type.

Definition on_db {A} (m : M World A) : M PWorld A := fun w =>
  let '(w1, x) := m (fst w) in ((w1, snd w), x).

(** A handler that refuses some events and applies the others. *)
Definition readModel (verdict : Envelope.t -> option err) : Handler PWorld := fun e w =>
  match verdict e with
  | Some er => (w, Err er)
  | None => ((fst w, snd w ++ [e]), Ok tt)
  end.

Definition on_db_store (St : Store World) : Store PWorld :=
  mkStore PWorld (fun p => on_db (Append St p)) (fun s v => on_db (ReadStream St s v))
    (fun f n => on_db (ReadAll St f n)) (fun t f n => on_db (ReadAllForTenant St t f n))
    (fun s => on_db (CurrentStreamVersion St s)) (fun t i => on_db (GetEventByID St t i))
    None None None.

Section Instance.
Context {CP : ChainPrims} {SP : SqlitePrims} (O : Oracle).

Definition sqlite_checkpoint : Checkpoint PWorld :=
  mkCheckpoint PWorld (fun n t => on_db (SqliteProj.Load O n t))
    (fun n t p => on_db (SqliteProj.Save O n t p)).

Definition sqlite_dlq_writer : ProjectionDLQWriter PWorld :=
  mkProjectionDLQWriter PWorld (fun n t g i u e => on_db (SqliteProj.InsertProjectionDLQ O n t g i u e)).

Definition sqlite_dedup : DedupStore PWorld :=
  mkDedupStore PWorld (fun n t i => on_db (SqliteProj.HasProcessedEvent O n t i))
    (fun n t i => on_db (SqliteProj.MarkProcessedEvent O n t i))
    (fun n t => on_db (SqliteProj.CleanupProcessedEvents O n t)).

(** The runner: SQLite is no ProjectionLocker. *)
Definition sqlite_runner (name tenant : string) (batch shard shards : Z) (dlq : bool) (h : Handler PWorld)
    : Projection.Runtime PWorld :=
  Projection.mkRuntime PWorld name (Some (on_db_store (sqlite_store O))) (Some sqlite_checkpoint)
    (Some h) tenant batch 0 "" shard shards dlq None (Some sqlite_dlq_writer).

(** What the projection observes. *)
Definition checkpoint_of (name tenant : string) (d : DB) : Z :=
  match projection_checkpoint d !! (name, tenant) with Some r => u64 (fst r) | None => 0 end.

Definition captured_of (name : string) (d : DB) : gset (string * Z) :=
  set_omap (fun k : string * string * Z =>
              if decide (fst (fst k) = name) then Some (snd (fst k), snd k) else None)
    (dom (projection_dlq d)).

Definition seen_of (name : string) (d : DB) : gset (string * UUID) :=
  set_omap (fun k : string * string * UUID =>
              if decide (fst (fst k) = name) then Some (snd (fst k), snd k) else None)
    (dom (processed_events d)).

Definition p_ok (name tenant : string) (w : PWorld) : Prop :=
  sqlite_ok (fst w) /\ checkpoint_of name tenant (w_db (fst w)) < 2 ^ 63.

Lemma set_omap_insert (X : gset (string * string * Z)) name n t g :
  set_omap (C := gset _) (D := gset (string * Z))
    (fun k : string * string * Z => if decide (fst (fst k) = name) then Some (snd (fst k), snd k) else None)
    ({[(n, t, g)]} ∪ X) =
  (if decide (n = name) then {[(t, g)]} else ∅) ∪
  set_omap (fun k : string * string * Z =>
    if decide (fst (fst k) = name) then Some (snd (fst k), snd k) else None) X.
Proof.
  apply set_eq. intros [t' g']. rewrite elem_of_union, !elem_of_set_omap. split.
  - intros ([[n1 t1] g1] & Hin & Hx). simpl in Hx. case_decide as Hn; [|done]. simplify_eq/=.
    apply elem_of_union in Hin as [Hin%elem_of_singleton|Hin].
    + injection Hin as <- <- <-. left. rewrite decide_True by done. by apply elem_of_singleton.
    + right. exists (name, t', g'). simpl. by rewrite decide_True.
  - intros [Hin|([[n1 t1] g1] & Hin & Hx)].
    + case_decide; [|by apply elem_of_empty in Hin]. apply elem_of_singleton in Hin as [= -> ->]. subst n.
      exists (name, t, g). simpl. rewrite decide_True by done. split; [set_solver|done].
    + exists (n1, t1, g1). split; [set_solver|done].
Qed.

Lemma on_db_inv {A} (m : M World A) w w' x :
  on_db m w = (w', x) -> m (fst w) = (fst w', x) /\ snd w' = snd w.
Proof. unfold on_db. destruct (m (fst w)). by intros [= <- <-]. Qed.

Lemma p_unchanged name tenant w w' :
  p_ok name tenant w -> w_db (fst w') = w_db (fst w) -> snd w' = snd w ->
  unchanged (p_ok name tenant) (sqlite_log ∘ fst) (fun w => checkpoint_of name tenant (w_db (fst w)))
    snd (fun w => captured_of name (w_db (fst w))) w w'.
Proof.
  intros [Hok Hc] Hdb Hs. unfold unchanged, p_ok, sqlite_ok, sqlite_log, compose. rewrite Hdb. done.
Qed.

Lemma Checkpoint_Load_spec name tenant w w' x :
  SqliteProj.Load O name tenant w = (w', x) ->
  w_db w' = w_db w /\ (forall c, x = Ok c -> c = checkpoint_of name tenant (w_db w)).
Proof.
  unfold SqliteProj.Load, try, mbind, M_bind.
  destruct (QP.LoadProjectionCheckpoint O name tenant w) as [w1 r] eqn:H1.
  pose proof (select_db _ _ _ _ _ H1) as Hdb. unfold checkpoint_of. destruct r as [c|e].
  - apply select_Ok in H1 as [_ H1]. unfold QP.checkpoint_row in H1. intros [= <- <-].
    split; [done|]. intros c' [= <-]. destruct (_ !! _); congruence.
  - apply stmt_inv in H1 as [_ [(msg & _ & [= ->] & _)|[_ [= _ H1]]]]; [by intros [= <- <-]|].
    unfold QP.checkpoint_row in H1. destruct (_ !! _); [done|]. injection H1 as <-.
    intros [= <- <-]. split; [done|]. by intros c [= <-].
Qed.

Lemma now_exec (f : Time -> Time -> DB -> DB) w w' x :
  (now ← time_Now O; exec O (f now)) w = (w', x) ->
  match x with
  | Ok _ => exists n1 n2, w_db w' = f n1 n2 (w_db w)
  | Err _ => w_db w' = w_db w
  end.
Proof. intros H. apply exec_inv in H. destruct x; [|done]. destruct H as [now H]. eauto. Qed.

Lemma side_tables_ok w d :
  sqlite_ok w -> events d = events (w_db w) -> events_seq d = events_seq (w_db w) ->
  outbox d = outbox (w_db w) -> store_ok d /\ Sqlite.collect (events d) = Sqlite.collect (events (w_db w)).
Proof. intros Hok He Hs Ho. split; [by eapply cache_only|by rewrite He]. Qed.

Lemma sqlite_projection_laws name tenant batch shard shards dlq verdict :
  ProjectionLaws (p_ok name tenant) (sqlite_log ∘ fst)
    (fun w => checkpoint_of name tenant (w_db (fst w))) snd
    (fun w => captured_of name (w_db (fst w)))
    (sqlite_runner name tenant batch shard shards dlq (readModel verdict))
    (on_db_store (sqlite_store O)) sqlite_checkpoint (readModel verdict).
Proof.
  split.
  - intros w [Hok _]. apply (ll_sorted (LogLaws := sqlite_log_laws O) (fst w) Hok).
  - intros w [_ Hc]. split; [|done]. unfold checkpoint_of. case_match; [apply u64_range|done].
  - intros from n w w' x [Hok Hc] Hf Hn [H Hs]%on_db_inv. simpl in H. apply ReadAll_log in H as [Hdb Hx]; try done.
    split; [by apply p_unchanged|done].
  - intros t from n w w' x [Hok Hc] Hf Hn Ht [H Hs]%on_db_inv. simpl in H.
    apply ReadAllForTenant_log in H as [Hdb Hx]; try done. split; [by apply p_unchanged|done].
  - intros w w' x Hok [H Hs]%on_db_inv. simpl in H. apply Checkpoint_Load_spec in H as [Hdb Hx].
    split; [by apply p_unchanged|done].
  - intros p w w' x [Hok Hc] Hp [H Hs]%on_db_inv. simpl in H. apply now_exec in H.
    destruct x as [[]|e].
    + destruct H as (n1 & _ & Hdb). unfold p_ok, sqlite_ok, sqlite_log, checkpoint_of, captured_of, compose.
      rewrite Hdb. simpl. rewrite lookup_insert_eq. simpl. rewrite i64_small, u64_small by lia.
      split_and!; try done; [|lia]. by eapply side_tables_ok.
    + destruct (p_unchanged name tenant w w' (conj Hok Hc) H Hs) as (? & ? & ? & ? & ?). done.
  - intros e w w' x [Hok Hc]. unfold readModel. destruct (verdict e); by intros [= <- <-].
  - intros d e msg w w' x [Hok Hc] [= <-] He [H Hs]%on_db_inv. simpl in H. apply now_exec in H.
    destruct x as [[]|er].
    + destruct H as (n1 & _ & Hdb). unfold p_ok, sqlite_ok, sqlite_log, checkpoint_of, captured_of, compose.
      rewrite Hdb. simpl. rewrite dom_insert_L, set_omap_insert, decide_True, i64_small by (done || lia).
      split_and!; try done. by eapply side_tables_ok.
    + destruct (p_unchanged name tenant w w' (conj Hok Hc) H Hs) as (? & ? & ? & ? & ?). done.
  - done.
  - done.
Qed.

Lemma seen_of_elem name d t id :
  bool_decide ((t, id) ∈ seen_of name d) = bool_decide (is_Some (processed_events d !! (name, t, id))).
Proof.
  apply bool_decide_ext. unfold seen_of. rewrite elem_of_set_omap. split.
  - intros ([[n' t'] id'] & Hin & Hx). simpl in Hx. case_decide; [|done]. simplify_eq/=.
    by apply elem_of_dom in Hin.
  - intros Hin%elem_of_dom. exists (name, t, id). simpl. by rewrite decide_True.
Qed.

Lemma sqlite_dedup_laws name verdict :
  DedupLaws (fun _ => True) (fun w : PWorld => seen_of name (w_db (fst w))) snd
    (readModel verdict) sqlite_dedup name.
Proof.
  split.
  - intros t id w w' x _ [H Hs]%on_db_inv. revert H. simpl. unfold SqliteProj.HasProcessedEvent, mbind, M_bind.
    destruct (QP.HasProcessedEvent O name t id (fst w)) as [w1 r] eqn:H1.
    pose proof (select_db _ _ _ _ _ H1) as Hdb. destruct r as [v|e]; [|intros [= <- <-]; by rewrite Hdb].
    apply select_Ok in H1 as [_ [= <-]]. intros [= <- <-]. rewrite Hdb. split_and!; try done.
    intros b [= <-]. rewrite seen_of_elem. case_decide as Hd; [by rewrite bool_decide_eq_true_2|].
    by rewrite bool_decide_eq_false_2.
  - intros t id w w' x _ [H Hs]%on_db_inv. simpl in H. apply now_exec in H. split_and!; try done.
    destruct x as [[]|e]; [|by rewrite H]. destruct H as (n1 & _ & ->). unfold seen_of; simpl.
    destruct (_ !! _) eqn:Hl.
    + symmetry. apply subseteq_union_1_L, singleton_subseteq_l, elem_of_set_omap.
      exists (name, t, id). simpl. rewrite decide_True by done. split; [by apply elem_of_dom|done].
    + by rewrite dom_insert_L, set_omap_insert, decide_True.
  - intros e w w' x _. unfold readModel. destruct (verdict e); by intros [= <- <-].
Qed.
End Instance.

(** A database that answers, and a handler that accepts every event. *)
Lemma sqlite_reliable {CP : ChainPrims} {SP : SqlitePrims} now name tenant r :
  Reliable (p_ok name tenant) r (on_db_store (sqlite_store (no_faults now)))
    (sqlite_checkpoint (no_faults now)) (readModel (fun _ => None)).
Proof.
  assert (Hcol : forall w p, sqlite_ok w -> exists l, Sqlite.collect (List.filter p (events (w_db w))) = Ok l).
  { intros w p Hok. destruct (so_all _ Hok) as [all Hall]. by eapply mapR_filter. }
  assert (Hlim : forall n (rows : list EventRow) l, Sqlite.collect rows = Ok l ->
    exists l', Sqlite.collect (sql_limit n rows) = Ok l').
  { intros n rows l Hl. unfold sql_limit. case_match; [by eexists|]. eexists. by apply collect_take. }
  assert (Hord : forall w p n, sqlite_ok w -> exists l, Sqlite.collect
    (sql_limit n (order_by er_global_position (List.filter p (events (w_db w))))) = Ok l).
  { intros w p n Hok. destruct (Hcol w p Hok) as [l Hl]. rewrite order_by_id; [by eapply Hlim|].
    apply StronglySorted_lfilter, events_gp_sorted, Hok. }
  split.
  - intros from n w [Hok _]. destruct (Hord (fst w) (fun r => i64 from <? er_global_position r) n Hok) as [l Hl].
    cbn. unfold on_db, Sqlite.ReadAll, mbind, M_bind. cbn.
    unfold of_res. rewrite Hl. by do 2 eexists.
  - intros t from n w [Hok _].
    destruct (Hord (fst w) (fun r => bool_decide (er_tenant_id r = t) && (i64 from <? er_global_position r)) n Hok)
      as [l Hl].
    cbn. unfold on_db, Sqlite.ReadAllForTenant, mbind, M_bind. cbn. unfold of_res. rewrite Hl. by do 2 eexists.
  - intros a b w _. cbn. unfold on_db, SqliteProj.Load, try, mbind, M_bind, QP.LoadProjectionCheckpoint. cbn.
    unfold QP.checkpoint_row. destruct (_ !! _); by do 2 eexists.
  - intros a b p w _. by eexists.
  - intros e w _. by eexists.
Qed.

(** ** Witnesses: the invoice log projected *)

Definition demo_pw : PWorld := (demo_a2, []).

(** A runner that captures the events with an odd version. *)
Definition demo_runner (dlq : bool) (verdict : Envelope.t -> option err) : Projection.Runtime PWorld :=
  sqlite_runner (CP := concrete_prims) (SP := concrete_sqlite) demo_clock_oracle "by-status" "acme" 1 0 0 dlq
    (readModel verdict).

Definition demo_picky (e : Envelope.t) : option err :=
  if Z.odd (Envelope.Version e) then Some (ENew "cannot apply") else None.

Lemma demo_pw_ok : p_ok (SP := concrete_sqlite) "by-status" "acme" demo_pw.
Proof. split; [exact demo_a2_ok|by vm_compute]. Qed.

Definition demo_laws dlq verdict :=
  sqlite_projection_laws (CP := concrete_prims) (SP := concrete_sqlite) demo_clock_oracle "by-status" "acme" 1 0 0
    dlq verdict.


Lemma projection_catches_up_witness :
  exists w', runRounds (demo_runner false (fun _ => None)) 2 demo_pw = (w', None) /\
    snd w' = sqlite_log (SP := concrete_sqlite) demo_a2.
Proof.
  destruct (projection_catches_up (demo_runner false (fun _ => None)) _ _ _ _ _ _ _ _
    (demo_laws false (fun _ => None))
    (sqlite_reliable (CP := concrete_prims) (SP := concrete_sqlite) (fun _ => 1700000000000000000) "by-status" "acme" _)
    demo_pw 2) as (w' & Hrun & _ & _ & Hh); try reflexivity.
  - exact demo_pw_ok.
  - exists w'. split; [exact Hrun|]. etransitivity; [exact Hh|]. vm_compute. reflexivity.
Defined.

(** Two deliveries of the log through the gate. *)
Lemma dedup_applies_once_witness :
  let evs := sqlite_log (SP := concrete_sqlite) demo_a2 ++ sqlite_log (SP := concrete_sqlite) demo_a2 in
  let run := forM_ evs (Projection.WithDedup (readModel (fun _ => None)) (sqlite_dedup demo_clock_oracle)
                          "by-status") demo_pw in
  snd run = Ok tt /\ snd (fst run) = sqlite_log (SP := concrete_sqlite) demo_a2.
Proof.
  intros evs run. assert (Hx : snd run = Ok tt) by (vm_compute; reflexivity). split; [exact Hx|].
  destruct run as [w' x] eqn:Hrun. simpl in Hx. subst x.
  destruct (dedup_applies_once _ _ _ _ _ _ (sqlite_dedup_laws demo_clock_oracle "by-status" (fun _ => None))
    evs demo_pw w' (Ok tt) I Hrun) as (d & rest & Hevs & _ & _ & _ & -> & Ha).
  rewrite app_nil_r in Hevs. subst d. etransitivity; [exact Ha|]. vm_compute. reflexivity.
Defined.
