(* ===== verification/SqliteStateStream.v ===== *)
(** * State streams on SQLite (adapters/storage/sqlite/state_stream.go and its
      queries)

    ListStreamsBehind joins state_cache with the positions of one subscriber;
    UpsertStateStreamPosition keeps the larger version.  [sqlite_stream_laws]
    shows that the adapter keeps the contract of the state-stream drain. *)
From S2P Require Import Prelude Errors Streams Sharding Events Store Aggregate AggregateFacts Rebuild Projection StateStream Chain GoTime Sql SqliteDB SqliteStore SqliteFacts SqliteStream SqliteAppend Invoice SqliteAggregate SqliteLog.

(** ** Queries (state_stream.sql.go) *)
Module QS.
Section QS.
Context (O : Oracle).

(** A row of state_cache with its key. *)
Notation CacheRow := (string * string * StateCacheRec)%type.

(** COALESCE(p.last_delivered_version, 0) of the left join. *)
Definition lastDelivered (name : string) (d : DB) (x : CacheRow) : Z :=
  match state_stream_subscribers d !! (name, fst (fst x), snd (fst x)) with
  | None => 0
  | Some p => fst p
  end.

Definition is_behind (name tenant : string) (d : DB) (x : CacheRow) : bool :=
  (lastDelivered name d x <? st_version (snd x)) &&
  (bool_decide (tenant = "") || bool_decide (fst (fst x) = tenant)).

Definition ListStreamsBehind (name tenant : string) (maxRows : Z) : M World (list CacheRow) :=
  select O (fun d =>
    Ok (sql_limit maxRows (order_by_text (fun x : CacheRow => st_updated_at (snd x))
          (List.filter (is_behind name tenant d) (map_to_list (state_cache d)))))).

(** COUNT over the streams behind, and COALESCE(MAX(lag), 0). *)
Definition CountStateStreamLag (name tenant : string) : M World (Z * Z) :=
  select O (fun d =>
    let rows := List.filter (is_behind name tenant d) (map_to_list (state_cache d)) in
    let lags := (fun x => st_version (snd x) - lastDelivered name d x) <$> rows in
    Ok (Z.of_nat (length rows), match lags with [] => 0 | l :: ls => foldr Z.max l ls end)).

Definition UpsertStateStreamPosition (name tenant stream : string) (version : Z) (updatedAt : string)
    : M World unit :=
  exec O (fun _ => set_subscribers (fun t =>
    <[(name, tenant, stream) :=
        (match t !! (name, tenant, stream) with
         | None => version
         | Some p => Z.max (fst p) version
         end, updatedAt)]> t)).

Definition ResetStateStreamSubscriber (name tenant : string) : M World Z :=
  let p := fun x : string * string * string * (Z * string) =>
    bool_decide (fst (fst (fst x)) = name) && bool_decide (snd (fst (fst x)) = tenant) in
  stmt O (fun _ d =>
    (set_subscribers (filter (fun x => p x = false)) d,
     Ok (sql_count p (map_to_list (state_stream_subscribers d))))).

Definition ResetStateStreamSubscriberForStream (name tenant stream : string) : M World unit :=
  exec O (fun _ => set_subscribers (delete (name, tenant, stream))).

Definition ListStateStreamSubscribers : M World (list string) :=
  select O (fun d =>
    Ok (order_by_text (fun n => n)
          (remove_dups ((fun x : string * string * string * (Z * string) => fst (fst (fst x))) <$>
             map_to_list (state_stream_subscribers d))))).
End QS.
End QS.

(** ** Adapter methods *)
Module SqliteSS.
Section SqliteSS.
Context (O : Oracle).

Definition toStateEnvelope (x : string * string * StateCacheRec) : res StateEnvelope :=
  match GoTime.parseTime (st_updated_at (snd x)) with
  | Err e => Err e
  | Ok updated =>
      Ok (mkStateEnvelope (fst (fst x)) (snd (fst x)) (st_type_url (snd x)) (u64 (st_version (snd x)))
            (u32 (st_state_schema_version (snd x))) (Sqlite.stateBytes (st_state (snd x))) updated)
  end.

Definition ListStreamsBehind (name tenant : string) (limit : Z) : M World (list StateEnvelope) :=
  let limit := if limit <=? 0 then 100 else limit in
  rows ← QS.ListStreamsBehind O name tenant limit;
  of_res (mapR toStateEnvelope rows).

Definition AdvanceStateStreamPosition (name tenant stream : string) (version : Z) : M World unit :=
  now ← time_Now O;
  QS.UpsertStateStreamPosition O name tenant stream (i64 version) (GoTime.formatTime now).

(** The driver scans the lag into an int64. *)
Definition uint64Of (x : Z) : Z := if x <? 0 then 0 else u64 x.

(** CheckedAt is not set. *)
Definition StateStreamStatus (name tenant : string) : M World StateStreamSubscriberStatus :=
  row ← QS.CountStateStreamLag O name tenant;
  mret (mkStateStreamSubscriberStatus name tenant (fst row) (uint64Of (snd row)) zero_time).

Definition ResetStateStreamSubscriber (name tenant : string) : M World Z :=
  QS.ResetStateStreamSubscriber O name tenant.

Definition ResetStateStreamSubscriberForStream (name tenant stream : string) : M World unit :=
  QS.ResetStateStreamSubscriberForStream O name tenant stream.

Definition ListStateStreamSubscribers : M World (list string) := QS.ListStateStreamSubscribers O.
End SqliteSS.
End SqliteSS.

(** ** A drain over a SQLite store *)

(** The database, and the states the publisher accepted. *)
Notation SWorld := (World * list StateEnvelope)%type.

Definition on_cache {A} (m : M World A) : M SWorld A := fun w =>
  let '(w1, x) := m (fst w) in ((w1, snd w), x).

Definition receiver (verdict : StateEnvelope -> option err) (e : StateEnvelope) : M SWorld unit := fun w =>
  match verdict e with
  | Some er => (w, Err er)
  | None => ((fst w, snd w ++ [e]), Ok tt)
  end.

Section Instance.
Context (O : Oracle).

Definition sqlite_state_store : StateStreamStore SWorld :=
  mkStateStreamStore SWorld (fun n t l => on_cache (SqliteSS.ListStreamsBehind O n t l))
    (fun n t s v => on_cache (SqliteSS.AdvanceStateStreamPosition O n t s v)).

Definition sqlite_state_admin : StateStreamAdmin SWorld :=
  mkStateStreamAdmin SWorld (fun n t => on_cache (SqliteSS.StateStreamStatus O n t))
    (fun n t => on_cache (SqliteSS.ResetStateStreamSubscriber O n t))
    (fun n t s => on_cache (SqliteSS.ResetStateStreamSubscriberForStream O n t s))
    (on_cache (SqliteSS.ListStateStreamSubscribers O)).

Definition sqlite_drain (name tenant : string) (batch shard shards : Z)
    (verdict : StateEnvelope -> option err) : StateDrain.Drain SWorld :=
  StateDrain.mkDrain SWorld name true (Some sqlite_state_store) None (Some sqlite_state_admin)
    (Some (receiver verdict)) tenant batch "" shard shards None.

(** Rows as the adapter writes them. *)
Definition s_ok (w : SWorld) : Prop :=
  map_Forall (fun k r => (exists t, GoTime.parseTime (st_updated_at r) = Ok t) /\ 0 <= st_version r < 2 ^ 63)
    (state_cache (w_db (fst w))).

Definition env_of (k : string * string) (r : StateCacheRec) : option StateEnvelope :=
  match SqliteSS.toStateEnvelope (k, r) with Ok e => Some e | Err _ => None end.

Definition s_cached (w : SWorld) : gmap (string * string) StateEnvelope :=
  map_imap env_of (state_cache (w_db (fst w))).

Definition s_pos (name : string) (w : SWorld) (k : string * string) : option Z :=
  fst <$> state_stream_subscribers (w_db (fst w)) !! (name, fst k, snd k).

Notation s_same name := (same_streams s_ok s_cached (s_pos name) snd).

Lemma s_same_db name w w' : s_ok w -> w_db (fst w') = w_db (fst w) -> snd w' = snd w -> s_same name w w'.
Proof.
  intros Hok Hdb Hs. unfold same_streams, s_ok, s_cached. rewrite Hdb. split_and!; try done.
  unfold s_pos. by rewrite Hdb.
Qed.

Lemma on_cache_inv {A} (m : M World A) w w' x :
  on_cache m w = (w', x) -> m (fst w) = (fst w', x) /\ snd w' = snd w.
Proof. unfold on_cache. destruct (m (fst w)). by intros [= <- <-]. Qed.

Lemma env_of_Some w k r :
  s_ok w -> state_cache (w_db (fst w)) !! k = Some r ->
  exists e, SqliteSS.toStateEnvelope (k, r) = Ok e /\ sv_key e = k /\ sv_Version e = st_version r /\
    0 <= st_version r < 2 ^ 63.
Proof.
  intros Hok Hr. destruct (Hok k r Hr) as [[t Ht] Hv]. unfold SqliteSS.toStateEnvelope. simpl. rewrite Ht.
  eexists. split; [done|]. simpl. destruct k. rewrite u64_small by lia. done.
Qed.

Lemma s_cached_lookup w k e :
  s_cached w !! k = Some e <->
  exists r, state_cache (w_db (fst w)) !! k = Some r /\ SqliteSS.toStateEnvelope (k, r) = Ok e.
Proof.
  unfold s_cached. rewrite map_lookup_imap, bind_Some. unfold env_of. split; intros (r & Hr & He); exists r.
  - split; [done|]. destruct (SqliteSS.toStateEnvelope (k, r)); congruence.
  - split; [done|]. by rewrite He.
Qed.

Notation s_behind name tenant := (behind s_cached (s_pos name) tenant).

(** The rows behind, in any order, decode to the streams behind. *)
Lemma rows_behind name tenant w rows :
  s_ok w ->
  rows ≡ₚ List.filter (QS.is_behind name tenant (w_db (fst w))) (map_to_list (state_cache (w_db (fst w)))) ->
  exists l, mapR SqliteSS.toStateEnvelope rows = Ok l /\ l ≡ₚ (map_to_list (s_behind name tenant w)).*2.
Proof.
  intros Hok Hrows. set (m := state_cache (w_db (fst w))) in *.
  assert (Hin : forall k r, (k, r) ∈ rows <-> m !! k = Some r /\ QS.is_behind name tenant (w_db (fst w)) (k, r) = true).
  { intros k r. rewrite Hrows, list_elem_of_In, filter_In, <- list_elem_of_In, elem_of_map_to_list. done. }
  destruct (proj2 (mapR_total SqliteSS.toStateEnvelope rows)) as [l Hl].
  { apply Forall_forall. intros [k r] [Hr _]%Hin. destruct (env_of_Some w k r Hok Hr) as (e & He & _). eauto. }
  exists l. split; [done|]. apply mapR_Forall2 in Hl.
  assert (Hkeys : sv_key <$> l = fst <$> rows).
  { assert (Hr : forall x, x ∈ rows -> m !! fst x = Some (snd x)) by (intros [k r] [? _]%Hin; done).
    clear Hin Hrows. induction Hl as [|[k r] e rows l He Hl IH]; [done|]. simpl. f_equal.
    - destruct (env_of_Some w k r Hok (Hr (k, r) ltac:(by left))) as (e' & He' & Hk & _). congruence.
    - apply IH. intros x Hx. apply Hr. by right. }
  assert (Hbk : forall k e, s_behind name tenant w !! k = Some e -> sv_key e = k).
  { intros k e Hb. unfold behind in Hb. apply map_lookup_filter_Some in Hb as [Hc _].
    apply s_cached_lookup in Hc as (r & Hr & He). destruct (env_of_Some w k r Hok Hr) as (e' & He' & Hk & _). congruence. }
  apply NoDup_Permutation.
  - apply (NoDup_fmap_1 sv_key). rewrite Hkeys, Hrows.
    eapply sublist_NoDup; [apply (NoDup_fst_map_to_list m)|]. apply fmap_sublist, lfilter_sublist.
  - apply (NoDup_fmap_1 sv_key), keyed_NoDup, Hbk.
  - intros e. rewrite keyed_elem by exact Hbk. unfold behind. rewrite map_lookup_filter_Some, s_cached_lookup. simpl.
    assert (Hpos : forall r, QS.lastDelivered name (w_db (fst w)) (sv_key e, r) = position (s_pos name) w (sv_key e)).
    { intros r. unfold QS.lastDelivered, position, s_pos. simpl. by destruct (_ !! _). }
    assert (Hb : forall r, QS.is_behind name tenant (w_db (fst w)) (sv_key e, r) = true <->
      (tenant = "" \/ sv_TenantID e = tenant) /\ position (s_pos name) w (sv_key e) < st_version r).
    { intros r. unfold QS.is_behind. rewrite Hpos, andb_true_iff, orb_true_iff, Z.ltb_lt, !bool_decide_eq_true. simpl. tauto. }
    split.
    + intros He. apply list_elem_of_lookup in He as [i Hi].
      destruct (Forall2_lookup_r _ _ _ _ _ Hl Hi) as ([k r] & Hkr & He). apply list_elem_of_lookup_2, Hin in Hkr as [Hr Hbe].
      destruct (env_of_Some w k r Hok Hr) as (e' & He' & Hk & Hv & _).
      assert (e' = e) as -> by congruence. subst k. rewrite Hv. split; [by exists r|by apply Hb].
    + intros [(r & Hr & He) Hbe]. destruct (env_of_Some w (sv_key e) r Hok Hr) as (e' & He' & Hk & Hv & _).
      assert (e' = e) as -> by congruence.
      assert (Hkr : (sv_key e, r) ∈ rows). { apply Hin. split; [done|]. apply Hb. by rewrite <- Hv. }
      apply list_elem_of_lookup in Hkr as [i Hi]. destruct (Forall2_lookup_l _ _ _ _ _ Hl Hi) as (e' & Hi' & He'').
      assert (e' = e) as -> by congruence. by apply list_elem_of_lookup_2 in Hi'.
Qed.

Lemma ListStreamsBehind_spec name tenant n w w' x :
  s_ok w -> 0 < n -> on_cache (SqliteSS.ListStreamsBehind O name tenant n) w = (w', x) ->
  s_same name w w' /\
  (forall l, x = Ok l -> exists p, p ≡ₚ (map_to_list (s_behind name tenant w)).*2 /\ l = take (Z.to_nat n) p).
Proof.
  intros Hok Hn [H Hs]%on_cache_inv. revert H. unfold SqliteSS.ListStreamsBehind, mbind, M_bind.
  rewrite (proj2 (Z.leb_gt n 0)) by lia.
  destruct (QS.ListStreamsBehind O name tenant n (fst w)) as [w1 [rows|e]] eqn:H1;
    pose proof (select_db _ _ _ _ _ H1) as Hdb;
    [|intros [= Hw <-]; split; [apply s_same_db; [done|congruence|done]|done]].
  apply select_Ok in H1 as [_ [= <-]]. unfold of_res. intros [= Hw <-].
  split; [apply s_same_db; [done|congruence|done]|]. intros l Hl.
  destruct (rows_behind name tenant w (order_by_text (fun x => st_updated_at (snd x))
    (List.filter (QS.is_behind name tenant (w_db (fst w))) (map_to_list (state_cache (w_db (fst w))))))) as (p & Hp & Hperm);
    [done|apply merge_sort_Permutation|].
  exists p. split; [done|]. revert Hl. unfold sql_limit. rewrite (proj2 (Z.ltb_ge n 0)) by lia.
  rewrite mapR_Forall2 in Hp. intros Hl. apply mapR_Forall2 in Hl. apply (Forall2_take _ _ _ (Z.to_nat n)) in Hp.
  revert Hl Hp. generalize (take (Z.to_nat n) p). clear. intros l2 H1 H2.
  revert l2 H2. induction H1; intros l2 H2; inversion H2; subst; [done|]. f_equal; [congruence|auto].
Qed.

Lemma sqlite_stream_laws name tenant batch shard shards verdict :
  StreamLaws s_ok s_cached (s_pos name) snd (sqlite_drain name tenant batch shard shards verdict)
    sqlite_state_store (receiver verdict).
Proof.
  split.
  - intros w k e Hok (r & Hr & He)%s_cached_lookup.
    destruct (env_of_Some w k r Hok Hr) as (e' & He' & Hk & Hv & ?). assert (e' = e) as -> by congruence.
    split; [done|lia].
  - intros n w w' x Hok Hn H. by eapply ListStreamsBehind_spec.
  - intros t s v w w' x Hok Hv [H Hs]%on_cache_inv. simpl in H. apply exec_inv in H. simpl in H.
    destruct x as [[]|e].
    + destruct H as [now Hdb]. unfold s_ok, s_cached, s_pos. rewrite Hdb. simpl. split_and!; try done.
      intros [t' s']. simpl. rewrite i64_small by lia. case_decide as Hk.
      * injection Hk as -> ->. rewrite lookup_insert_eq. destruct (_ !! _); simpl; [|done]. f_equal. lia.
      * rewrite lookup_insert_ne; [done|]. congruence.
    + destruct (s_same_db name w w' Hok H Hs) as (? & ? & ? & ?). done.
  - intros e w w' x Hok. unfold receiver. destruct (verdict e); by intros [= <- <-].
  - done.
  - done.
  - done.
Qed.
End Instance.

(** ** Witnesses: the cached invoice delivered *)

Definition demo_sw : SWorld := (demo_a2, []).
Definition demo_state_drain (verdict : StateEnvelope -> option err) : StateDrain.Drain SWorld :=
  sqlite_drain demo_clock_oracle "search" "acme" 10 0 0 verdict.
Definition never_done : M SWorld bool := fun w => (w, Ok false).

Lemma demo_sw_ok : s_ok demo_sw.
Proof.
  assert (H : map_to_list (state_cache (w_db (fst demo_sw))) =
    [(("acme", StreamID.Canonical demo_invoice),
      mkStateCacheRec (st_type_url (snd (nth 0 (map_to_list (state_cache (w_db demo_a2))) (("", ""), mkStateCacheRec "" "" 0 0 0 ""))))
        (st_state (snd (nth 0 (map_to_list (state_cache (w_db demo_a2))) (("", ""), mkStateCacheRec "" "" 0 0 0 ""))))
        2 1 1 (GoTime.formatTime 1700000000000000000))]) by (vm_compute; reflexivity).
  intros k r Hr%elem_of_map_to_list. rewrite H in Hr. apply list_elem_of_singleton in Hr as [= -> ->].
  split; [exists 1700000000000000000; vm_compute; reflexivity|simpl; lia].
Qed.

Lemma demo_list_answers verdict n w :
  s_ok w -> exists w' l, ListStreamsBehind (sqlite_state_store demo_clock_oracle)
    (StateDrain.SubscriberName (demo_state_drain verdict)) (StateDrain.Tenant (demo_state_drain verdict)) n w = (w', Ok l).
Proof.
  intros Hok. cbn. unfold on_cache, SqliteSS.ListStreamsBehind, mbind, M_bind. cbn. unfold of_res.
  destruct (rows_behind "search" "acme" w _ Hok
    (merge_sort_Permutation (text_le (fun x : string * string * StateCacheRec => st_updated_at (snd x))) _)) as (l & Hl & _).
  match goal with |- context [sql_limit ?k ?rows] =>
    assert (Hlim : exists l', mapR SqliteSS.toStateEnvelope (sql_limit k rows) = Ok l') end.
  { unfold sql_limit. case_match; [eauto|]. apply mapR_Forall2 in Hl. eexists. apply mapR_Forall2.
    by apply Forall2_take. }
  destruct Hlim as [l' ->]. by do 2 eexists.
Qed.

Lemma demo_answering :
  Answering (ok := s_ok) (cached := s_cached) (pos := s_pos "search") (acked := snd)
    (d := demo_state_drain (fun _ => None)) (st := sqlite_state_store demo_clock_oracle)
    (publish := receiver (fun _ => None)) never_done.
Proof.
  split.
  - intros w Hok. by exists w.
  - intros n w Hok. by apply (demo_list_answers (fun _ => None)).
  - intros e w _. by eexists.
  - intros t s v w _. by eexists.
Qed.

Definition demo_stream_laws verdict :=
  sqlite_stream_laws demo_clock_oracle "search" "acme" 10 0 0 verdict.

Lemma perm_single {A} (l1 l2 : list A) : length l2 = 1%nat -> l1 ≡ₚ l2 -> l1 = l2.
Proof. destruct l2 as [|x []]; try done. intros _. apply Permutation_singleton_r. Qed.

Lemma state_drain_converges_witness :
  exists w', StateDrain.Run (demo_state_drain (fun _ => None)) never_done 2 demo_sw = Some (w', (1, None)) /\
    snd w' = (map_to_list (s_cached demo_sw)).*2 /\
    behind s_cached (s_pos "search") "acme" w' = ∅.
Proof.
  assert (Hb : (map_to_list (behind s_cached (s_pos "search") "acme" demo_sw)).*2 = (map_to_list (s_cached demo_sw)).*2)
    by (vm_compute; reflexivity).
  assert (Hlen : length (map_to_list (s_cached demo_sw)).*2 = 1%nat) by (vm_compute; reflexivity).
  destruct (state_drain_converges (demo_state_drain (fun _ => None)) _ _ _ _ _ _ (demo_stream_laws (fun _ => None))
    never_done demo_answering 2 demo_sw) as (w' & new & Hrun & _ & Ha & Hnew & Hend); try reflexivity.
  - exact demo_sw_ok.
  - apply (bool_decide_unpack _). vm_compute. exact I.
  - pose proof (eq_rect _ (fun l => new ≡ₚ l) Hnew _ Hb) as Hn.
    pose proof (Permutation_length Hn) as Hl. rewrite Hlen in Hl. rewrite Hl in Hrun.
    exists w'. split; [exact Hrun|]. split; [|exact Hend]. rewrite Ha. by apply perm_single.
Defined.

Definition demo_refuse (e : StateEnvelope) : option err := Some (ENew "receiver down").

(** A full delivery, and a refusing receiver whose context is cancelled. *)
Lemma state_drain_positions_witness :
  exists w' x, StateDrain.Run (demo_state_drain (fun _ => None)) never_done 2 demo_sw = Some (w', x) /\
    s_cached w' = s_cached demo_sw /\
    position (s_pos "search") w' ("acme", StreamID.Canonical demo_invoice) = 2.
Proof.
  destruct (StateDrain.Run (demo_state_drain (fun _ => None)) never_done 2 demo_sw) as [[w' x]|] eqn:Hrun.
  - exists w', x. split; [reflexivity|].
    destruct (state_drain_positions (demo_state_drain (fun _ => None)) _ _ _ _ _ _ (demo_stream_laws (fun _ => None))
      never_done 2 demo_sw w' x) as (Hc & new & Ha & _ & _); try reflexivity.
    + intros w w1 y Hok Hw. injection Hw as <- _. split_and!; [exact Hok|reflexivity..].
    + exact demo_sw_ok.
    + exact Hrun.
    + split; [exact Hc|]. apply (f_equal (fun o => match o with
        | Some (w, _) => position (s_pos "search") w ("acme", StreamID.Canonical demo_invoice)
        | None => 0 end)) in Hrun. rewrite <- Hrun. vm_compute. reflexivity.
  - exfalso. apply (f_equal (fun o => match o with Some _ => true | None => false end)) in Hrun.
    vm_compute in Hrun. discriminate.
Defined.

Lemma state_drain_spins_witness :
  StateDrain.Run (demo_state_drain demo_refuse) never_done 1000 demo_sw = None.
Proof.
  apply (state_drain_spins (demo_state_drain demo_refuse) s_ok s_cached (s_pos "search") snd
    (sqlite_state_store demo_clock_oracle) (receiver demo_refuse) (demo_stream_laws demo_refuse));
    try reflexivity.
  - intros w Hok. by exists w.
  - intros n w Hok. by apply demo_list_answers.
  - intros e w _. by do 2 eexists.
  - exact demo_sw_ok.
  - intros Hb. apply (f_equal size) in Hb. vm_compute in Hb. discriminate.
Defined.
