(* ===== verification/OutboxDrain.v ===== *)
(** * The outbox drain (outbox/drain.go) against the es.OutboxStore interface

    [OutboxStore] is the Go interface as a record of operations on a world [W];
    [OutboxLaws] states what the drain relies on, in terms of an abstract view
    of the outbox (one [arow] per row) and of the acknowledged deliveries.
    SqliteOutbox.v shows that the SQLite adapter keeps the laws. *)
From S2P Require Import Prelude Errors Streams Sharding Events.

(** ** Interfaces (es/outbox.go, es/drain_locker.go, publisher/publisher.go) *)

Record DrainLocker (W : Type) := mkDrainLocker {
  TryAcquireDrainLock : string -> M W bool;
  ReleaseDrainLock : string -> M W unit
}.
Arguments TryAcquireDrainLock {_} _ _.
Arguments ReleaseDrainLock {_} _ _.

Record OutboxStore (W : Type) := mkOutboxStore {
  PendingOutbox : string -> Z -> Z -> M W (list OutboxRow);
  QuarantinedStreams : string -> Z -> M W (list StreamRef);
  MarkOutboxPublished : string -> Z -> M W unit;
  MarkOutboxFailed : string -> Z -> string -> Time -> M W unit;
  CleanupPublishedOutbox : string -> Time -> M W Z;
  (** The adapter's DrainLocker methods, when it has them. *)
  AsDrainLocker : option (DrainLocker W)
}.
Arguments PendingOutbox {_} _ _ _ _.
Arguments QuarantinedStreams {_} _ _ _.
Arguments MarkOutboxPublished {_} _ _ _.
Arguments MarkOutboxFailed {_} _ _ _ _ _.
Arguments CleanupPublishedOutbox {_} _ _ _.
Arguments AsDrainLocker {_} _.

(** The clock and the context of a run. *)
Record Runtime (W : Type) := mkRuntime {
  rt_Now : M W Time;
  rt_Cancelled : M W bool
}.
Arguments rt_Now {_} _.
Arguments rt_Cancelled {_} _.

Module Outbox.

(** ** The Drain struct *)
Record Drain (W : Type) := mkDrain {
  Store : option (OutboxStore W);
  Publisher : option (Envelope.t -> M W unit);
  Tenant : string;
  BatchSize : Z;
  CleanupRetention : Duration;
  LockKey : string;
  Shard : Z;
  TotalShards : Z;
  MaxAttempts : Z;
  BackoffBase : Duration;
  BackoffMax : Duration;
  AutoResumeAfterDLQ : bool;
  OnDLQ : option (OutboxRow -> M W unit)
}.
Arguments Store {_} _.
Arguments Publisher {_} _.
Arguments Tenant {_} _.
Arguments BatchSize {_} _.
Arguments CleanupRetention {_} _.
Arguments LockKey {_} _.
Arguments Shard {_} _.
Arguments TotalShards {_} _.
Arguments MaxAttempts {_} _.
Arguments BackoffBase {_} _.
Arguments BackoffMax {_} _.
Arguments AutoResumeAfterDLQ {_} _.
Arguments OnDLQ {_} _.

Section Drain.
Context {W : Type} (R : Runtime W) (d : Drain W).

Definition defaultBatchSize : Z := 100.
Definition defaultCleanupRetention : Duration := 7 * 24 * 3600 * 1000000000.

Definition batchSize : Z := if BatchSize d <=? 0 then defaultBatchSize else BatchSize d.

Definition cleanupRetention : Duration :=
  if CleanupRetention d <=? 0 then defaultCleanupRetention else CleanupRetention d.

Definition validate : option err :=
  match Store d with
  | None => Some (ENew "outbox: Store is required")
  | Some _ =>
      match Publisher d with
      | None => Some (ENew "outbox: Publisher is required")
      | Some _ =>
          if (TotalShards d <? 0) || (Shard d <? 0) ||
             ((0 <? TotalShards d) && (TotalShards d <=? Shard d))
          then Some (ENew "outbox: invalid sharding")
          else None
      end
  end.

(** The doubling loop of computeNextAttemptAt, [n] iterations; durations are
    int64. *)
Fixpoint backoff (n : nat) (delay : Duration) : Duration :=
  match n with
  | O => delay
  | S n' =>
      let next := i64 (delay * 2) in
      if (0 <? BackoffMax d) && (BackoffMax d <? next) then BackoffMax d
      else backoff n' next
  end.

Definition backoffDelay (attemptsAfter : Z) : Duration :=
  let delay := backoff (Z.to_nat (attemptsAfter - 1)) (BackoffBase d) in
  if (0 <? BackoffMax d) && (BackoffMax d <? delay) then BackoffMax d else delay.

Definition computeNextAttemptAt (attemptsAfter : Z) : M W Time :=
  if BackoffBase d <=? 0 then mret zero_time
  else now ← rt_Now R; mret (now + backoffDelay attemptsAfter).

(** The drain's own store and publisher, once validated. *)
Context (St : OutboxStore W) (Publish : Envelope.t -> M W unit).

(** The locker and whether the lock is held. *)
Definition acquireLock : M W (option (DrainLocker W) * bool) :=
  if bool_decide (LockKey d = "") then mret (None, false)
  else
    match AsDrainLocker St with
    | None => mret (None, false)
    | Some locker =>
        acquired ← wrap_err "acquire drain lock" (TryAcquireDrainLock locker (LockKey d));
        mret (Some locker, acquired)
    end.

Definition row_key (row : OutboxRow) : string :=
  OutboxShard.quarantineKey (Envelope.TenantID (or_Envelope row))
    (StreamID.Canonical (Envelope.StreamID (or_Envelope row))).

(** What runBatch changes and returns. *)
Record Batch := mkBatch {
  halted : gset string;
  quarantined : gset string;
  published : Z;
  anyProcessed : bool
}.

(** The branch of a failed publish. *)
Definition publishFailed (row : OutboxRow) (e : err) (b : Batch) (w : W)
    : W * (Batch * option err) :=
  let key := row_key row in
  let nextAttempts := i32 (or_Attempts row + 1) in
  match (nextAt ← computeNextAttemptAt nextAttempts;
         MarkOutboxFailed St (Envelope.TenantID (or_Envelope row))
           (Envelope.GlobalPosition (or_Envelope row)) (Error e) nextAt) w with
  | (w1, Err markErr) => (w1, (b, Some (EWrap "outbox: mark failed" markErr)))
  | (w1, Ok _) =>
      let crossedDLQ := (0 <? MaxAttempts d) && (MaxAttempts d <=? nextAttempts) in
      if crossedDLQ then
        let w2 := match OnDLQ d with
                  | Some f => fst (f (mkOutboxRow (or_Envelope row) nextAttempts) w1)
                  | None => w1
                  end in
        if AutoResumeAfterDLQ d
        then (w2, (mkBatch (halted b) (quarantined b) (published b) true, None))
        else (w2, (mkBatch ({[key]} ∪ halted b) ({[key]} ∪ quarantined b) (published b) true, None))
      else (w1, (mkBatch ({[key]} ∪ halted b) (quarantined b) (published b) true, None))
  end.

(** The loop over the rows of a page. *)
Fixpoint batchRows (rows : list OutboxRow) (b : Batch) (w : W) : W * (Batch * option err) :=
  match rows with
  | [] => (w, (b, None))
  | row :: rows' =>
      let key := row_key row in
      if OutboxShard.skipped key (Shard d) (TotalShards d) then batchRows rows' b w
      else if bool_decide (key ∈ quarantined b \/ key ∈ halted b) then batchRows rows' b w
      else
        match Publish (or_Envelope row) w with
        | (w1, Err e) =>
            match publishFailed row e b w1 with
            | (w2, (b', Some e')) => (w2, (b', Some e'))
            | (w2, (b', None)) => batchRows rows' b' w2
            end
        | (w1, Ok _) =>
            match MarkOutboxPublished St (Envelope.TenantID (or_Envelope row))
                    (Envelope.GlobalPosition (or_Envelope row)) w1 with
            | (w2, Err e) => (w2, (b, Some (EWrap "outbox: mark published" e)))
            | (w2, Ok _) =>
                batchRows rows' (mkBatch (halted b) (quarantined b) (published b + 1) true) w2
            end
        end
  end.

(** runBatch: the maps are the caller's, the counters start at zero. *)
Definition runBatch (h q : gset string) (w : W) : W * (Batch * option err) :=
  match PendingOutbox St (Tenant d) batchSize (MaxAttempts d) w with
  | (w1, Err e) => (w1, (mkBatch h q 0 false, Some (EWrap "outbox: read pending" e)))
  | (w1, Ok []) => (w1, (mkBatch h q 0 false, None))
  | (w1, Ok rows) => batchRows rows (mkBatch h q 0 false) w1
  end.

(** The streams that start the run halted and quarantined. *)
Definition readQuarantined : M W (gset string) :=
  if negb (AutoResumeAfterDLQ d) && (0 <? MaxAttempts d) then
    qs ← wrap_err "outbox: read quarantined" (QuarantinedStreams St (Tenant d) (MaxAttempts d));
    mret (list_to_set ((fun s => OutboxShard.quarantineKey (sr_TenantID s) (sr_StreamID s)) <$> qs))
  else mret ∅.

(** The [for] loop of Run. [None]: out of fuel. *)
Fixpoint runLoop (fuel : nat) (h q : gset string) (n : Z) (w : W)
    : option (W * (Z * option err * bool)) :=
  match fuel with
  | O => None
  | S fuel' =>
      match rt_Cancelled R w with
      | (w1, Ok false) =>
          match runBatch h q w1 with
          | (w2, (b, Some e)) => Some (w2, (n, Some e, true))
          | (w2, (b, None)) =>
              if anyProcessed b
              then runLoop fuel' (halted b) (quarantined b) (n + published b) w2
              else Some (w2, (n + published b, None, false))
          end
      | (w1, _) => Some (w1, (n, None, true))
      end
  end.

Definition cleanup (n : Z) (w : W) : W * (Z * Z * option err) :=
  if 0 <? CleanupRetention d then
    match (now ← rt_Now R;
           CleanupPublishedOutbox St (Tenant d) (now - cleanupRetention)) w with
    | (w1, Err e) => (w1, (n, 0, Some (EWrap "outbox cleanup" e)))
    | (w1, Ok c) => (w1, (n, if 0 <? c then c else 0, None))
    end
  else (w, (n, 0, None)).

(** The body of Run under the lock. *)
Definition runLocked (fuel : nat) (w : W) : option (W * (Z * Z * option err)) :=
  match readQuarantined w with
  | (w1, Err e) => Some (w1, (0, 0, Some e))
  | (w1, Ok q) =>
      match runLoop fuel q q 0 w1 with
      | None => None
      | Some (w2, (n, e, true)) => Some (w2, (n, 0, e))
      | Some (w2, (n, _, false)) => Some (cleanup n w2)
      end
  end.

(** [defer ReleaseDrainLock]. *)
Definition release (l : option (DrainLocker W)) (locked : bool) (w : W) : W :=
  match l with
  | Some locker => if locked then fst (ReleaseDrainLock locker (LockKey d) w) else w
  | None => w
  end.

Definition runWith (fuel : nat) (w : W) : option (W * (Z * Z * option err)) :=
  match acquireLock w with
  | (w1, Err e) => Some (w1, (0, 0, Some e))
  | (w1, Ok (l, locked)) =>
      if negb (bool_decide (LockKey d = "")) && (match l with Some _ => true | None => false end)
         && negb locked
      then Some (w1, (0, 0, None))
      else
        match runLocked fuel w1 with
        | None => None
        | Some (w2, r) => Some (release l locked w2, r)
        end
  end.

(** RunOnce: one batch. *)
Definition runOnceWith (w : W) : W * (Z * option err) :=
  match acquireLock w with
  | (w1, Err e) => (w1, (0, Some e))
  | (w1, Ok (l, locked)) =>
      if negb (bool_decide (LockKey d = "")) && (match l with Some _ => true | None => false end)
         && negb locked
      then (w1, (0, None))
      else
        match readQuarantined w1 with
        | (w2, Err e) => (release l locked w2, (0, Some e))
        | (w2, Ok q) =>
            let '(w3, (b, e)) := runBatch q q w2 in (release l locked w3, (published b, e))
        end
  end.
End Drain.

Definition Run {W} (R : Runtime W) (d : Drain W) (fuel : nat) (w : W)
    : option (W * (Z * Z * option err)) :=
  match validate d with
  | Some e => Some (w, (0, 0, Some e))
  | None =>
      match Store d, Publisher d with
      | Some St, Some Publish => runWith R d St Publish fuel w
      | _, _ => Some (w, (0, 0, None))
      end
  end.

Definition RunOnce {W} (R : Runtime W) (d : Drain W) (w : W) : W * (Z * option err) :=
  match validate d with
  | Some e => (w, (0, Some e))
  | None =>
      match Store d, Publisher d with
      | Some St, Some Publish => runOnceWith R d St Publish w
      | _, _ => (w, (0, None))
      end
  end.
End Outbox.

(** ** The contract of a store *)

(** One outbox row, as far as delivery goes. *)
Record arow := mkArow {
  a_tenant : string;
  a_gp : Z;
  a_stream : string;
  a_version : Z;
  a_published : bool;
  a_attempts : Z
}.

Definition a_key (a : arow) : string * Z := (a_tenant a, a_gp a).
Definition a_stream_key (a : arow) : string := OutboxShard.quarantineKey (a_tenant a) (a_stream a).

(** The adapters' safeMaxAttempts. *)
Definition attempts_cap (maxAttempts : Z) : Z := if maxAttempts <=? 0 then max_i32 else maxAttempts.

(** Neither published nor in DLQ state. *)
Definition pending (cap : Z) (a : arow) : bool := negb (a_published a) && (a_attempts a <? cap).

(** The row handed to the drain is [a]. *)
Definition row_of (r : OutboxRow) (a : arow) : Prop :=
  Envelope.TenantID (or_Envelope r) = a_tenant a /\
  Envelope.GlobalPosition (or_Envelope r) = a_gp a /\
  Envelope.Version (or_Envelope r) = a_version a /\
  StreamID.Canonical (Envelope.StreamID (or_Envelope r)) = a_stream a /\
  or_Attempts r = a_attempts a.

(** [r] is the first pending row of its stream. *)
Definition head_row (cap : Z) (v : list arow) (r : OutboxRow) : Prop :=
  exists a, a ∈ v /\ row_of r a /\ pending cap a = true /\
    (forall a', a' ∈ v -> a_tenant a' = a_tenant a -> a_stream a' = a_stream a ->
       pending cap a' = true -> a_version a <= a_version a').

Definition mark_published (t : string) (gp : Z) (a : arow) : arow :=
  if decide (a_key a = (t, gp))
  then mkArow (a_tenant a) (a_gp a) (a_stream a) (a_version a) true (a_attempts a) else a.

Definition mark_failed (t : string) (gp : Z) (a : arow) : arow :=
  if decide (a_key a = (t, gp))
  then mkArow (a_tenant a) (a_gp a) (a_stream a) (a_version a) (a_published a) (a_attempts a + 1)
  else a.

Section Silent.
Context {W : Type} (ok : W -> Prop) (view : W -> list arow) (delivered : W -> list Envelope.t).

(** The operation changes neither the outbox nor the deliveries. *)
Definition silent {A} (m : M W A) : Prop :=
  forall w w' r, ok w -> m w = (w', r) ->
    ok w' /\ view w' = view w /\ delivered w' = delivered w.
End Silent.

Class OutboxLaws {W : Type} (R : Runtime W) (St : OutboxStore W) (Publish : Envelope.t -> M W unit)
    (onDLQ : option (OutboxRow -> M W unit))
    (ok : W -> Prop) (view : W -> list arow) (delivered : W -> list Envelope.t) := {
  ol_keys : forall w, ok w -> NoDup (a_key <$> view w);
  ol_streams : forall w a, ok w -> a ∈ view w ->
    exists sid, StreamID.Validate sid = None /\ StreamID.Canonical sid = a_stream a;
  ol_versions : forall w a a', ok w -> a ∈ view w -> a' ∈ view w ->
    a_tenant a = a_tenant a' -> a_stream a = a_stream a' -> a_version a = a_version a' -> a = a';
  ol_attempts : forall w a, ok w -> a ∈ view w -> 0 <= a_attempts a;
  ol_gp : forall w a, ok w -> a ∈ view w -> 0 <= a_gp a < 2 ^ 64;
  ol_pending : forall t n m, silent ok view delivered (PendingOutbox St t n m);
  ol_pending_rows : forall t n m w w' rows, ok w -> m <= max_i32 ->
    PendingOutbox St t n m w = (w', Ok rows) ->
    Forall (head_row (attempts_cap m) (view w)) rows /\ NoDup (Outbox.row_key <$> rows);
  ol_quarantined : forall t m, silent ok view delivered (QuarantinedStreams St t m);
  ol_published : forall t gp w w' r, ok w -> 0 <= gp < 2 ^ 64 ->
    MarkOutboxPublished St t gp w = (w', r) ->
    ok w' /\ delivered w' = delivered w /\
    view w' = match r with Ok _ => mark_published t gp <$> view w | Err _ => view w end;
  ol_failed : forall t gp m at_ w w' r, ok w -> 0 <= gp < 2 ^ 64 ->
    MarkOutboxFailed St t gp m at_ w = (w', r) ->
    ok w' /\ delivered w' = delivered w /\
    view w' = match r with Ok _ => mark_failed t gp <$> view w | Err _ => view w end;
  ol_cleanup : forall t at_ w w' r, ok w -> CleanupPublishedOutbox St t at_ w = (w', r) ->
    ok w' /\ delivered w' = delivered w /\
    (forall a, a ∈ view w' -> a ∈ view w) /\
    (forall a, a ∈ view w -> a_published a = false -> a ∈ view w');
  ol_lock : forall l, AsDrainLocker St = Some l ->
    (forall k, silent ok view delivered (TryAcquireDrainLock l k)) /\
    (forall k, silent ok view delivered (ReleaseDrainLock l k));
  ol_now : silent ok view delivered (rt_Now R);
  ol_cancelled : silent ok view delivered (rt_Cancelled R);
  ol_onDLQ : forall f row, onDLQ = Some f -> silent ok view delivered (f row);
  (** Publish acknowledges the envelope or fails. *)
  ol_publish : forall e w w' r, ok w -> Publish e w = (w', r) ->
    ok w' /\ view w' = view w /\
    delivered w' = match r with Ok _ => delivered w ++ [e] | Err _ => delivered w end
}.

(** ** Order, soundness, termination *)
Section Proofs.
Context {W : Type} {R : Runtime W} (d : Outbox.Drain W) {St : OutboxStore W}
  {Publish : Envelope.t -> M W unit} {ok : W -> Prop} {view : W -> list arow}
  {delivered : W -> list Envelope.t}
  {L : OutboxLaws R St Publish (Outbox.OnDLQ d) ok view delivered}.

(** MaxAttempts is an int32. *)
Context (Hmax : Outbox.MaxAttempts d <= max_i32).

Let cap : Z := attempts_cap (Outbox.MaxAttempts d).

Definition same_stream (e1 e2 : Envelope.t) : Prop :=
  Envelope.TenantID e1 = Envelope.TenantID e2 /\
  StreamID.Canonical (Envelope.StreamID e1) = StreamID.Canonical (Envelope.StreamID e2).

(** Deliveries of one stream are in version order, without repetition. *)
Definition in_order (es : list Envelope.t) : Prop :=
  StronglySorted (fun e1 e2 => same_stream e1 e2 -> Envelope.Version e1 < Envelope.Version e2) es.

(** When an event was delivered, the earlier events of its stream are published
    or in DLQ state. *)
Definition settled (c : Z) (es : list Envelope.t) (v : list arow) : Prop :=
  forall e a, e ∈ es -> a ∈ v -> a_tenant a = Envelope.TenantID e ->
    a_stream a = StreamID.Canonical (Envelope.StreamID e) ->
    a_version a <= Envelope.Version e -> pending c a = false.

(** Rows are published only for events that were delivered. *)
Definition published_delivered (v0 : list arow) (es : list Envelope.t) (v : list arow) : Prop :=
  forall a, a ∈ v -> a_published a = true ->
    (exists a0, a0 ∈ v0 /\ a_key a0 = a_key a /\ a_published a0 = true) \/
    (exists e, e ∈ es /\ (Envelope.TenantID e, Envelope.GlobalPosition e) = a_key a).

Lemma silent_bind {A B} (m : M W A) (k : A -> M W B) :
  silent ok view delivered m -> (forall a, silent ok view delivered (k a)) ->
  silent ok view delivered (m ≫= k).
Proof.
  intros Hm Hk w w' r Hok. unfold mbind, M_bind. destruct (m w) as [w1 [a|e]] eqn:H1.
  - intros H2. destruct (Hm _ _ _ Hok H1) as (Hok1 & Hv1 & Hd1).
    destruct (Hk a _ _ _ Hok1 H2) as (Hok2 & Hv2 & Hd2). split; [done|]. split; congruence.
  - intros [= <- <-]. eauto.
Qed.

Lemma silent_ret {A} (a : A) : silent ok view delivered (mret a : M W A).
Proof. by intros w w' r Hok [= <- <-]. Qed.

Lemma silent_wrap {A} msg (m : M W A) :
  silent ok view delivered m -> silent ok view delivered (wrap_err msg m).
Proof.
  intros Hm w w' r Hok. unfold wrap_err. destruct (m w) as [w1 [a|e]] eqn:H1; intros [= <- <-]; eauto.
Qed.

Lemma silent_nextAt n : silent ok view delivered (Outbox.computeNextAttemptAt R d n).
Proof.
  unfold Outbox.computeNextAttemptAt. destruct (_ <=? _); [apply silent_ret|].
  apply silent_bind; [apply ol_now|]. intros; apply silent_ret.
Qed.

(** What the two marks have in common. *)
Record mark_like (c : Z) (t : string) (gp : Z) (f : arow -> arow) : Prop := {
  ml_tenant : forall a, a_tenant (f a) = a_tenant a;
  ml_gp : forall a, a_gp (f a) = a_gp a;
  ml_stream : forall a, a_stream (f a) = a_stream a;
  ml_version : forall a, a_version (f a) = a_version a;
  ml_other : forall a, a_key a <> (t, gp) -> f a = a;
  ml_mono : forall a, pending c (f a) = true -> pending c a = true
}.

Lemma mark_published_like c t gp : mark_like c t gp (mark_published t gp).
Proof.
  split; intros a; unfold mark_published; by case_decide.
Qed.

Lemma mark_failed_like c t gp : mark_like c t gp (mark_failed t gp).
Proof.
  split; intros a; unfold mark_failed; try (by case_decide).
  case_decide; [|done]. unfold pending; simpl. intros Hp. bool_to_prop.
  apply andb_true_iff. split; [by apply negb_true_iff|]. apply Z.ltb_lt. lia.
Qed.

Lemma view_unique w a a' : ok w -> a ∈ view w -> a' ∈ view w -> a_key a = a_key a' -> a = a'.
Proof.
  intros Hok Ha Ha' Hk. apply list_elem_of_lookup in Ha as [i Hi], Ha' as [j Hj].
  pose proof (ol_keys w Hok) as Hnd. rewrite NoDup_alt in Hnd.
  assert (i = j) as ->; [|congruence]. apply (Hnd i j (a_key a)).
  - by rewrite list_lookup_fmap, Hi.
  - by rewrite list_lookup_fmap, Hj, Hk.
Qed.

Lemma row_of_stream r a : row_of r a -> Outbox.row_key r = a_stream_key a.
Proof. intros (Ht & _ & _ & Hs & _). unfold Outbox.row_key, a_stream_key. congruence. Qed.

(** Two view rows with one stream key are rows of one stream. *)
Lemma stream_key_inj w a a' :
  ok w -> a ∈ view w -> a' ∈ view w -> a_stream_key a = a_stream_key a' ->
  a_tenant a = a_tenant a' /\ a_stream a = a_stream a'.
Proof.
  intros Hok Ha Ha' Hk.
  destruct (ol_streams w a Hok Ha) as (s & Hv & Hs), (ol_streams w a' Hok Ha') as (s' & Hv' & Hs').
  unfold a_stream_key in Hk. rewrite <- Hs, <- Hs' in Hk |- *. by apply quarantineKey_inj.
Qed.

Lemma head_row_gp w r :
  ok w -> head_row cap (view w) r -> 0 <= Envelope.GlobalPosition (or_Envelope r) < 2 ^ 64.
Proof. intros Hok (a & Ha & (_ & -> & _) & _). by apply (ol_gp w). Qed.

(** Marking a row of another stream keeps a head row a head row. *)
Lemma head_row_mark w r r0 f :
  ok w -> head_row cap (view w) r -> head_row cap (view w) r0 ->
  Outbox.row_key r <> Outbox.row_key r0 ->
  mark_like cap (Envelope.TenantID (or_Envelope r0)) (Envelope.GlobalPosition (or_Envelope r0)) f ->
  head_row cap (f <$> view w) r.
Proof.
  intros Hok (a & Ha & Hrow & Hpend & Hmin) (a0 & Ha0 & Hrow0 & _ & _) Hne Hf.
  assert (Hfa : f a = a).
  { apply (ml_other _ _ _ _ Hf). intros Hk. apply Hne.
    rewrite (row_of_stream _ _ Hrow), (row_of_stream _ _ Hrow0). f_equal.
    apply (view_unique w); try done. rewrite Hk. unfold a_key.
    destruct Hrow0 as (-> & -> & _). done. }
  exists a. split; [rewrite <- Hfa; by apply list_elem_of_fmap_2|]. split; [done|]. split; [done|].
  intros a' (b & -> & Hb)%list_elem_of_fmap. rewrite (ml_tenant _ _ _ _ Hf), (ml_stream _ _ _ _ Hf).
  rewrite (ml_version _ _ _ _ Hf). intros Ht Hs Hp. apply Hmin; try done.
  by apply (ml_mono _ _ _ _ Hf).
Qed.

Lemma settled_mark es v t gp f : settled cap es v -> mark_like cap t gp f -> settled cap es (f <$> v).
Proof.
  intros Hs Hf e a He (b & -> & Hb)%list_elem_of_fmap.
  rewrite (ml_tenant _ _ _ _ Hf), (ml_stream _ _ _ _ Hf), (ml_version _ _ _ _ Hf).
  intros H1 H2 H3. pose proof (Hs e b He Hb H1 H2 H3) as Hp.
  destruct (pending cap (f b)) eqn:E; [|done]. apply (ml_mono _ _ _ _ Hf) in E. congruence.
Qed.

(** Delivering the head of a stream, then marking it published. *)
Lemma deliver_settled w es r :
  ok w -> in_order es -> settled cap es (view w) -> head_row cap (view w) r ->
  in_order (es ++ [or_Envelope r]) /\
  settled cap (es ++ [or_Envelope r])
    (mark_published (Envelope.TenantID (or_Envelope r)) (Envelope.GlobalPosition (or_Envelope r))
       <$> view w).
Proof.
  intros Hok Ho Hs (a & Ha & Hrow & Hpend & Hmin). split.
  - unfold in_order. apply StronglySorted_app_2; [|done|repeat constructor].
    intros e e' He ->%list_elem_of_singleton [Ht Hst].
    destruct Hrow as (Hrt & Hrg & Hrv & Hrs & _).
    destruct (Z.lt_ge_cases (Envelope.Version e) (Envelope.Version (or_Envelope r))) as [|Hge]; [done|].
    assert (pending cap a = false); [|congruence].
    apply (Hs e a He Ha); congruence || lia.
  - intros e a' [He| ->%list_elem_of_singleton]%elem_of_app Ha'.
    + exact (settled_mark es (view w) (Envelope.TenantID (or_Envelope r))
        (Envelope.GlobalPosition (or_Envelope r)) _ Hs (mark_published_like cap _ _) e a' He Ha').
    + apply list_elem_of_fmap in Ha' as (b & -> & Hb).
      pose proof (mark_published_like cap (Envelope.TenantID (or_Envelope r))
        (Envelope.GlobalPosition (or_Envelope r))) as Hf.
      rewrite (ml_tenant _ _ _ _ Hf), (ml_stream _ _ _ _ Hf), (ml_version _ _ _ _ Hf).
      destruct Hrow as (Hrt & Hrg & Hrv & Hrs & _). intros H1 H2 H3.
      destruct (pending cap (mark_published _ _ b)) eqn:E; [exfalso|done].
      pose proof (ml_mono _ _ _ _ Hf _ E) as Eb.
      assert (Hle : a_version a <= a_version b) by (apply Hmin; congruence).
      unfold mark_published in E. case_decide as Hk; [unfold pending in E; by simpl in E|].
      apply Hk. assert (b = a) as ->.
      { apply (ol_versions w); try done; congruence || lia. }
      unfold a_key. congruence.
Qed.

(** ** Progress measure: pending rows of streams that are not halted *)
Definition live (h : gset string) (a : arow) : bool :=
  pending cap a && bool_decide (a_stream_key a ∉ h).
Definition mu (h : gset string) (v : list arow) : nat := length (List.filter (live h) v).

Lemma filter_length_le {A} (f g : A -> bool) l :
  (forall x, g x = true -> f x = true) ->
  (length (List.filter g l) <= length (List.filter f l))%nat.
Proof.
  intros H. induction l as [|x l IH]; simpl; [done|].
  destruct (g x) eqn:Hg; [rewrite (H x Hg); simpl; lia|]. destruct (f x); simpl; lia.
Qed.

Lemma filter_length_lt {A} (f g : A -> bool) l y :
  (forall x, g x = true -> f x = true) -> y ∈ l -> f y = true -> g y = false ->
  (length (List.filter g l) < length (List.filter f l))%nat.
Proof.
  intros H Hy Hf Hg. induction l as [|x l IH]; [by apply elem_of_nil in Hy|].
  apply elem_of_cons in Hy as [->|Hy]; simpl.
  - rewrite Hf, Hg. simpl. pose proof (filter_length_le f g l H). lia.
  - specialize (IH Hy). destruct (g x) eqn:Hgx; [rewrite (H x Hgx); simpl; lia|].
    destruct (f x); simpl; lia.
Qed.

Lemma filter_map_length {A B} (g : B -> bool) (f : A -> B) l :
  length (List.filter g (f <$> l)) = length (List.filter (fun x => g (f x)) l).
Proof. induction l as [|x l IH]; csimpl; [done|]. destruct (g (f x)); simpl; by rewrite IH. Qed.

Lemma live_mono h h' t gp f a :
  mark_like cap t gp f -> h ⊆ h' -> live h' (f a) = true -> live h a = true.
Proof.
  intros Hf Hh. unfold live, a_stream_key. rewrite (ml_tenant _ _ _ _ Hf), (ml_stream _ _ _ _ Hf).
  intros Hl. bool_to_prop. apply andb_true_iff. split; [by apply (ml_mono _ _ _ _ Hf)|].
  apply bool_decide_eq_true. set_solver.
Qed.

(** A mark, possibly with more streams halted, takes the row out of the measure
    if it leaves it not live. *)
Lemma mu_mark h h' v t gp f a :
  mark_like cap t gp f -> h ⊆ h' -> a ∈ v -> live h a = true -> live h' (f a) = false ->
  (mu h' (f <$> v) < mu h v)%nat.
Proof.
  intros Hf Hh Ha Hl Hl'. unfold mu. rewrite filter_map_length.
  apply (filter_length_lt _ _ _ a); try done. intros x. by apply (live_mono h h' t gp).
Qed.

Lemma published_delivered_mark v0 es w r :
  ok w -> head_row cap (view w) r -> published_delivered v0 es (view w) ->
  published_delivered v0 (es ++ [or_Envelope r])
    (mark_published (Envelope.TenantID (or_Envelope r)) (Envelope.GlobalPosition (or_Envelope r))
       <$> view w).
Proof.
  intros Hok _ Hpd a (b & -> & Hb)%list_elem_of_fmap. unfold mark_published.
  case_decide as Hk; simpl; intros Hp.
  - right. exists (or_Envelope r). split; [apply elem_of_app; right; by left|]. by rewrite <- Hk.
  - destruct (Hpd b Hb Hp) as [?|(e & He & Hek)]; [by left|right].
    exists e. split; [|done]. apply elem_of_app. by left.
Qed.

Lemma published_delivered_failed v0 es v t gp :
  published_delivered v0 es v -> published_delivered v0 es (mark_failed t gp <$> v).
Proof.
  intros Hpd a (b & -> & Hb)%list_elem_of_fmap. unfold mark_failed.
  case_decide as Hk; simpl; intros Hp; by apply (Hpd b).
Qed.

(** The failed-publish branch: the attempt is recorded, and the row is not
    live afterwards. *)
Lemma publishFailed_spec row e0 b w w' b' e :
  ok w -> head_row cap (view w) row ->
  Outbox.row_key row ∉ Outbox.halted b ->
  Outbox.publishFailed R d St row e0 b w = (w', (b', e)) ->
  ok w' /\ delivered w' = delivered w /\
  (e = None ->
     view w' = mark_failed (Envelope.TenantID (or_Envelope row))
                 (Envelope.GlobalPosition (or_Envelope row)) <$> view w /\
     Outbox.published b' = Outbox.published b /\ Outbox.anyProcessed b' = true /\
     (mu (Outbox.halted b') (view w') < mu (Outbox.halted b) (view w))%nat).
Proof.
  intros Hok Hhead Hnh. pose proof (head_row_gp _ _ Hok Hhead) as Hgp. unfold Outbox.publishFailed.
  match goal with |- context [match ?m with _ => _ end] => destruct m as [w1 [[]|e1]] eqn:Hm end.
  2:{ intros [= <- <- <-]. apply bind_Err in Hm as [Hm|(w2 & at_ & Hn & Hm)].
      - by destruct (silent_nextAt _ _ _ _ Hok Hm) as (? & ? & ?).
      - destruct (silent_nextAt _ _ _ _ Hok Hn) as (Hok2 & _ & Hd2).
        destruct (ol_failed _ _ _ _ _ _ _ Hok2 Hgp Hm) as (? & Hd & _).
        split; [done|]. split; [congruence|done]. }
  apply bind_Ok in Hm as (w2 & at_ & Hn & Hm).
  destruct (silent_nextAt _ _ _ _ Hok Hn) as (Hok2 & Hv2 & Hd2).
  destruct (ol_failed _ _ _ _ _ _ _ Hok2 Hgp Hm) as (Hok1 & Hd1 & Hv1).
  rewrite Hv2 in Hv1. rewrite Hd2 in Hd1.
  destruct Hhead as (a & Ha & Hrow & Hpend & _).
  pose proof (mark_failed_like cap (Envelope.TenantID (or_Envelope row))
    (Envelope.GlobalPosition (or_Envelope row))) as Hf.
  assert (Hlive : live (Outbox.halted b) a = true).
  { unfold live. rewrite Hpend, <- (row_of_stream _ _ Hrow). simpl. by apply bool_decide_eq_true. }
  assert (Hkey : a_key a = (Envelope.TenantID (or_Envelope row), Envelope.GlobalPosition (or_Envelope row))).
  { destruct Hrow as (-> & -> & _). done. }
  assert (Hhalt : live ({[Outbox.row_key row]} ∪ Outbox.halted b)
    (mark_failed (Envelope.TenantID (or_Envelope row)) (Envelope.GlobalPosition (or_Envelope row)) a) = false).
  { unfold live, a_stream_key. rewrite (ml_tenant _ _ _ _ Hf), (ml_stream _ _ _ _ Hf).
    fold (a_stream_key a). rewrite <- (row_of_stream _ _ Hrow).
    rewrite (bool_decide_eq_false_2 (_ ∉ _)) by set_solver. apply andb_false_r. }
  destruct ((0 <? _) && _) eqn:Hcross.
  - set (w3 := match Outbox.OnDLQ d with Some f => _ | None => _ end).
    assert (Hw3 : ok w3 /\ view w3 = view w1 /\ delivered w3 = delivered w1).
    { subst w3. destruct (Outbox.OnDLQ d) as [f|]; [|done].
      destruct (f _ w1) as [wf rf] eqn:Hff. simpl. exact (ol_onDLQ f _ eq_refl _ _ _ Hok1 Hff). }
    destruct Hw3 as (Hok3 & Hv3 & Hd3).
    destruct (Outbox.AutoResumeAfterDLQ d); intros [= <- <- <-];
      (split; [done|]; split; [congruence|]; intros _; simpl; rewrite Hv3, Hv1);
      split_and!; try done.
    + apply (mu_mark _ _ _ _ _ _ a Hf); try done.
      unfold live. replace (pending cap _) with false; [done|]. symmetry.
      unfold mark_failed. rewrite decide_True by done. unfold pending. simpl. bool_to_prop.
      apply andb_false_iff. right. apply Z.ltb_ge.
      destruct Hrow as (_ & _ & _ & _ & Hatt).
      assert (Hcap : cap = Outbox.MaxAttempts d).
      { unfold cap, attempts_cap. destruct (Z.leb_spec (Outbox.MaxAttempts d) 0); [lia|done]. }
      unfold pending in Hpend. bool_to_prop. rewrite Hatt in *.
      pose proof (ol_attempts w a Hok Ha). unfold max_i32 in Hmax.
      match goal with H : _ <= i32 _ |- _ => rewrite i32_small in H by lia end. lia.
    + apply (mu_mark _ _ _ _ _ _ a Hf); try done. set_solver.
  - intros [= <- <- <-]. split; [done|]. split; [congruence|]. intros _. simpl. rewrite Hv1.
    split_and!; try done. apply (mu_mark _ _ _ _ _ _ a Hf); try done. set_solver.
Qed.

Lemma mu_published b w row a :
  ok w -> a ∈ view w -> row_of row a -> pending cap a = true ->
  Outbox.row_key row ∉ Outbox.halted b ->
  (mu (Outbox.halted b) (mark_published (Envelope.TenantID (or_Envelope row))
     (Envelope.GlobalPosition (or_Envelope row)) <$> view w) < mu (Outbox.halted b) (view w))%nat.
Proof.
  intros Hok Ha Hrow Hpend Hnh.
  apply (mu_mark _ _ _ _ _ _ a (mark_published_like cap _ _)); try done.
  - unfold live. rewrite Hpend, <- (row_of_stream _ _ Hrow). simpl. by apply bool_decide_eq_true.
  - unfold live, mark_published. rewrite decide_True; [done|].
    destruct Hrow as (-> & -> & _). done.
Qed.

(** What a batch does to the world: deliveries in order, and on a clean end
    settled, sound, counted, and with a smaller measure if a row was processed. *)
Definition batch_post (v0 : list arow) (es : list Envelope.t) (b b' : Outbox.Batch) (w w' : W)
    (e : option err) : Prop :=
  ok w' /\ exists new, delivered w' = delivered w ++ new /\ in_order (es ++ new) /\
    (e = None ->
       settled cap (es ++ new) (view w') /\ published_delivered v0 (es ++ new) (view w') /\
       Outbox.published b' = Outbox.published b + Z.of_nat (length new) /\
       (mu (Outbox.halted b') (view w') <= mu (Outbox.halted b) (view w))%nat /\
       (Outbox.anyProcessed b' = true -> Outbox.anyProcessed b = true \/
          (mu (Outbox.halted b') (view w') < mu (Outbox.halted b) (view w))%nat)).

Lemma batchRows_spec rows : forall v0 es b w w' b' e,
  ok w -> Forall (head_row cap (view w)) rows -> NoDup (Outbox.row_key <$> rows) ->
  in_order es -> settled cap es (view w) -> published_delivered v0 es (view w) ->
  Outbox.batchRows R d St Publish rows b w = (w', (b', e)) ->
  batch_post v0 es b b' w w' e.
Proof.
  induction rows as [|row rows IH]; intros v0 es b w w' b' e Hok Hheads Hnd Ho Hs Hpd;
    cbn [Outbox.batchRows].
  { intros [= <- <- <-]. split; [done|]. exists []. rewrite !app_nil_r. simpl.
    split_and!; try done. intros _. split_and!; try done; [lia|]. by left. }
  apply Forall_cons in Hheads as [Hhead Hheads]. csimpl in Hnd. apply NoDup_cons in Hnd as [Hni Hnd].
  assert (Hmark : forall f, mark_like cap (Envelope.TenantID (or_Envelope row))
      (Envelope.GlobalPosition (or_Envelope row)) f ->
    Forall (head_row cap (f <$> view w)) rows).
  { intros f Hf. apply Forall_forall. intros r Hr. rewrite Forall_forall in Hheads.
    apply (head_row_mark w r row f Hok (Hheads r Hr) Hhead); [|done].
    intros Hk. apply Hni. rewrite <- Hk. by apply list_elem_of_fmap_2. }
  destruct (OutboxShard.skipped _ _ _); [by apply IH|].
  case_bool_decide as Hin; [by apply IH|].
  assert (Hnh : Outbox.row_key row ∉ Outbox.halted b) by tauto.
  destruct (Publish (or_Envelope row) w) as [w1 [u|e0]] eqn:Hpub.
  - destruct (ol_publish _ _ _ _ Hok Hpub) as (Hok1 & Hv1 & Hd1).
    destruct (deliver_settled w es row Hok Ho Hs Hhead) as [Ho' Hs'].
    destruct (MarkOutboxPublished St _ _ w1) as [w2 [u2|e2]] eqn:Hmk.
    + destruct (ol_published _ _ _ _ _ Hok1 (head_row_gp _ _ Hok Hhead) Hmk) as (Hok2 & Hd2 & Hv2). rewrite Hv1 in Hv2.
      intros Hrec. pose proof (published_delivered_mark v0 es w row Hok Hhead Hpd) as Hpd'.
      apply (IH v0 (es ++ [or_Envelope row])) in Hrec; rewrite ?Hv2; try done.
      * destruct Hrec as (Hok' & new & Hd' & Ho'' & Hpost). split; [done|].
        exists (or_Envelope row :: new). rewrite <- (app_assoc es) in Ho'', Hpost. simpl in Ho'', Hpost.
        split; [by rewrite Hd', Hd2, Hd1, <- app_assoc|]. split; [done|].
        intros He. destruct (Hpost He) as (H1 & H2 & H3 & H4 & H5). rewrite Hv2 in H4, H5.
        destruct Hhead as (a & Ha & Hrow & Hpend & _).
        pose proof (mu_published b w row a Hok Ha Hrow Hpend Hnh).
        simpl in *. split_and!; try done; [lia|lia|]. intros _. right. lia.
      * apply Hmark. apply mark_published_like.
    + destruct (ol_published _ _ _ _ _ Hok1 (head_row_gp _ _ Hok Hhead) Hmk) as (Hok2 & Hd2 & Hv2).
      intros [= <- <- <-]. split; [done|]. exists [or_Envelope row].
      split; [congruence|]. split; [done|done].
  - destruct (ol_publish _ _ _ _ Hok Hpub) as (Hok1 & Hv1 & Hd1).
    destruct (Outbox.publishFailed R d St row e0 b w1) as [w2 [b2 e2]] eqn:Hfail.
    apply publishFailed_spec in Hfail as (Hok2 & Hd2 & Hpost2); [|done|by rewrite Hv1|done].
    destruct e2 as [e2|].
    { intros [= <- <- <-]. split; [done|]. exists []. rewrite !app_nil_r.
      split; [congruence|]. done. }
    destruct (Hpost2 eq_refl) as (Hv2 & Hpub2 & Hany2 & Hmu2). rewrite Hv1 in Hv2, Hmu2.
    intros Hrec. apply (IH v0 es) in Hrec; rewrite ?Hv2; try done.
    + destruct Hrec as (Hok' & new & Hd' & Ho'' & Hpost). split; [done|].
      exists new. split; [congruence|]. split; [done|].
      intros He. destruct (Hpost He) as (H1 & H2 & H3 & H4 & H5).
      split_and!; try done; [congruence|lia|]. intros _. right. lia.
    + apply Hmark. apply mark_failed_like.
    + eapply settled_mark; [done|]. apply mark_failed_like.
    + by apply published_delivered_failed.
Qed.

Lemma runBatch_spec v0 es h q w w' b e :
  ok w -> in_order es -> settled cap es (view w) -> published_delivered v0 es (view w) ->
  Outbox.runBatch R d St Publish h q w = (w', (b, e)) ->
  batch_post v0 es (Outbox.mkBatch h q 0 false) b w w' e.
Proof.
  intros Hok Ho Hs Hpd. unfold Outbox.runBatch.
  destruct (PendingOutbox St _ _ _ w) as [w1 [rows|e1]] eqn:Hp;
    destruct (ol_pending _ _ _ _ _ _ Hok Hp) as (Hok1 & Hv1 & Hd1).
  2:{ intros [= <- <- <-]. split; [done|]. exists []. rewrite !app_nil_r. done. }
  destruct (ol_pending_rows _ _ _ _ _ _ Hok Hmax Hp) as [Hheads Hnd]. fold cap in Hheads.
  assert (Hgen : Outbox.batchRows R d St Publish rows (Outbox.mkBatch h q 0 false) w1 = (w', (b, e)) ->
    batch_post v0 es (Outbox.mkBatch h q 0 false) b w w' e).
  { intros Hb. apply (batchRows_spec rows v0 es) in Hb; rewrite ?Hv1; try done.
    destruct Hb as (Hok' & new & Hd' & Ho' & Hpost). split; [done|]. exists new.
    split; [congruence|]. by rewrite Hv1 in Hpost. }
  destruct rows as [|row rows]; [|done]. intros H. by apply Hgen.
Qed.

(** A loop that ended. *)
Definition loop_post (v0 : list arow) (es : list Envelope.t) (n : Z) (w : W)
    (x : option (W * (Z * option err * bool))) : Prop :=
  exists w' n' e cancelled new,
    x = Some (w', (n', e, cancelled)) /\
    ok w' /\ delivered w' = delivered w ++ new /\ in_order (es ++ new) /\
    (cancelled = false -> e = None) /\
    (e = None -> settled cap (es ++ new) (view w') /\
       published_delivered v0 (es ++ new) (view w') /\ n' = n + Z.of_nat (length new)).

(** The loop ends within one batch per live row plus one. *)
Lemma runLoop_spec fuel : forall v0 es h q n w,
  ok w -> in_order es -> settled cap es (view w) -> published_delivered v0 es (view w) ->
  (mu h (view w) < fuel)%nat ->
  loop_post v0 es n w (Outbox.runLoop R d St Publish fuel h q n w).
Proof.
  induction fuel as [|fuel IH]; intros v0 es h q n w Hok Ho Hs Hpd Hfuel; [lia|].
  cbn [Outbox.runLoop].
  assert (Hstop : forall w1, ok w1 -> view w1 = view w -> delivered w1 = delivered w ->
    loop_post v0 es n w (Some (w1, (n, None, true)))).
  { intros w1 Hok1 Hv1 Hd1. exists w1, n, None, true, []. rewrite !app_nil_r, Hv1. simpl.
    split_and!; try done. intros _. split_and!; try done. lia. }
  destruct (rt_Cancelled R w) as [w1 [[|]|e1]] eqn:Hc;
    destruct (ol_cancelled _ _ _ Hok Hc) as (Hok1 & Hv1 & Hd1); [by apply Hstop| |by apply Hstop].
  destruct (Outbox.runBatch R d St Publish h q w1) as [w2 [b e]] eqn:Hb.
  apply (runBatch_spec v0 es) in Hb as (Hok2 & new & Hd2 & Ho2 & Hpost); rewrite ?Hv1; try done.
  destruct e as [e|].
  { exists w2, n, (Some e), true, new. split_and!; try done. congruence. }
  destruct (Hpost eq_refl) as (Hs2 & Hpd2 & Hn2 & Hmu2 & Hany). rewrite Hv1 in Hmu2, Hany.
  simpl in Hn2, Hmu2, Hany.
  destruct (Outbox.anyProcessed b).
  - destruct (Hany eq_refl) as [|Hlt]; [done|].
    destruct (IH v0 (es ++ new) (Outbox.halted b) (Outbox.quarantined b) (n + Outbox.published b) w2)
      as (w' & n' & e & c & new' & Hrun & Hok' & Hd' & Ho' & Hce & Hpost'); try done; [lia|].
    exists w', n', e, c, (new ++ new'). rewrite !app_assoc. split_and!; try done.
    + by rewrite Hd', Hd2, Hd1.
    + intros He. destruct (Hpost' He) as (? & ? & ->). split_and!; try done.
      rewrite length_app. lia.
  - exists w2, (n + Outbox.published b), None, false, new. split_and!; try done; [congruence|].
    intros _. split_and!; try done. lia.
Qed.

Lemma mu_length h v : (mu h v <= length v)%nat.
Proof.
  unfold mu. induction v as [|a v IH]; simpl; [done|]. destruct (live h a); simpl; lia.
Qed.

Lemma readQuarantined_silent : silent ok view delivered (Outbox.readQuarantined d St).
Proof.
  unfold Outbox.readQuarantined. destruct (_ && _); [|apply silent_ret].
  apply silent_bind; [|intros; apply silent_ret]. apply silent_wrap, ol_quarantined.
Qed.

Lemma acquireLock_silent : silent ok view delivered (Outbox.acquireLock d St).
Proof.
  unfold Outbox.acquireLock. case_bool_decide; [apply silent_ret|].
  destruct (AsDrainLocker St) as [l|] eqn:Hl; [|apply silent_ret].
  apply silent_bind; [|intros; apply silent_ret]. apply silent_wrap. by apply (ol_lock l Hl).
Qed.

(** What Run leaves behind. *)
Definition run_post (w : W) (x : option (W * (Z * Z * option err))) : Prop :=
  exists w' n c e new,
    x = Some (w', (n, c, e)) /\ ok w' /\ delivered w' = delivered w ++ new /\ in_order new /\
    (e = None -> settled cap new (view w') /\ published_delivered (view w) new (view w') /\
       n = Z.of_nat (length new)).

Lemma run_post_idle w w1 e :
  ok w1 -> view w1 = view w -> delivered w1 = delivered w -> run_post w (Some (w1, (0, 0, e))).
Proof.
  intros Hok Hv Hd. exists w1, 0, 0, e, []. rewrite app_nil_r. split_and!; try done; [constructor|].
  intros _. split_and!; try done.
  - intros e' a He'. by apply elem_of_nil in He'.
  - intros a Ha Hp. left. exists a. by rewrite <- Hv.
Qed.

Lemma run_post_trans w w1 x :
  view w1 = view w -> delivered w1 = delivered w -> run_post w1 x -> run_post w x.
Proof.
  intros Hv Hd (w' & n & c & e & new & Hx & Hok & Hd' & Ho & Hpost).
  exists w', n, c, e, new. rewrite Hv in Hpost. split_and!; try done. congruence.
Qed.

Lemma runLocked_spec fuel w :
  ok w -> (length (view w) < fuel)%nat -> run_post w (Outbox.runLocked R d St Publish fuel w).
Proof.
  intros Hok Hfuel. unfold Outbox.runLocked.
  destruct (Outbox.readQuarantined d St w) as [w1 [q|e]] eqn:Hq;
    destruct (readQuarantined_silent _ _ _ Hok Hq) as (Hok1 & Hv1 & Hd1);
    [|by apply run_post_idle].
  apply (run_post_trans w w1); [done|done|].
  destruct (runLoop_spec fuel (view w1) [] q q 0 w1)
    as (w2 & n & e & c & new & Hrun & Hok2 & Hd2 & Ho2 & Hce & Hpost); try done.
  - constructor.
  - intros e a He. by apply elem_of_nil in He.
  - intros a Ha Hp. left. eauto.
  - pose proof (mu_length q (view w1)). rewrite Hv1 in *. lia.
  - simpl in *. rewrite Hrun. destruct c.
    + exists w2, n, 0, e, new. split_and!; done.
    + rewrite (Hce eq_refl) in Hpost. specialize (Hpost eq_refl). destruct Hpost as (Hs2 & Hpd2 & ->).
      unfold Outbox.cleanup. destruct (0 <? _).
      2:{ do 5 eexists. split; [reflexivity|]. split_and!; done. }
      match goal with |- context [match ?m with _ => _ end] => destruct m as [w3 r3] eqn:Hcl end.
      assert (Hw3 : ok w3 /\ delivered w3 = delivered w2 /\ (forall a, a ∈ view w3 -> a ∈ view w2)).
      { unfold mbind, M_bind in Hcl. destruct (rt_Now R w2) as [wn [now|en]] eqn:Hnow;
          destruct (ol_now _ _ _ Hok2 Hnow) as (Hokn & Hvn & Hdn).
        - destruct (ol_cleanup _ _ _ _ _ Hokn Hcl) as (? & ? & Hsub & _).
          split_and!; [done|congruence|]. intros a Ha. rewrite <- Hvn. by apply Hsub.
        - injection Hcl as <- <-. rewrite Hvn. done. }
      destruct Hw3 as (Hok3 & Hd3 & Hsub).
      assert (Hfin : settled cap new (view w3) /\ published_delivered (view w1) new (view w3)).
      { split; [intros e' a He Ha; by apply Hs2; [|apply Hsub]|].
        intros a Ha. apply Hpd2. by apply Hsub. }
      destruct r3 as [cl|ec].
      * do 5 eexists. split; [reflexivity|]. split_and!; try done; [congruence|].
        intros _. destruct Hfin. done.
      * do 5 eexists. split; [reflexivity|]. split_and!; try done. congruence.
Qed.

Lemma runWith_spec fuel w :
  ok w -> (length (view w) < fuel)%nat -> run_post w (Outbox.runWith R d St Publish fuel w).
Proof.
  intros Hok Hfuel. unfold Outbox.runWith.
  destruct (Outbox.acquireLock d St w) as [w1 [[l locked]|e]] eqn:Hl;
    destruct (acquireLock_silent _ _ _ Hok Hl) as (Hok1 & Hv1 & Hd1); [|by apply run_post_idle].
  destruct (_ && _ && _); [by apply run_post_idle|].
  apply (run_post_trans w w1); [done|done|].
  destruct (runLocked_spec fuel w1 Hok1) as (w2 & n & c & e & new & Hrun & Hok2 & Hd2 & Ho2 & Hpost);
    [by rewrite Hv1|].
  rewrite Hrun.
  assert (Hrel : ok (Outbox.release d l locked w2) /\ view (Outbox.release d l locked w2) = view w2 /\
    delivered (Outbox.release d l locked w2) = delivered w2).
  { unfold Outbox.release. destruct l as [lk|]; [|done]. destruct locked; [|done].
    assert (Has : AsDrainLocker St = Some lk).
    { unfold Outbox.acquireLock in Hl. case_bool_decide; [done|].
      destruct (AsDrainLocker St) as [l'|]; [|done]. inv_bind. done. }
    destruct (ReleaseDrainLock lk (Outbox.LockKey d) w2) as [w3 r] eqn:Hr. simpl.
    by apply (proj2 (ol_lock lk Has) _ _ _ _ Hok2 Hr). }
  destruct Hrel as (Hok3 & Hv3 & Hd3).
  exists (Outbox.release d l locked w2), n, c, e, new. rewrite Hv3. split_and!; try done. congruence.
Qed.
End Proofs.

(** The parts of a validated drain. *)
Lemma validate_parts {W} (d : Outbox.Drain W) :
  Outbox.validate d = None ->
  exists St P, Outbox.Store d = Some St /\ Outbox.Publisher d = Some P.
Proof.
  unfold Outbox.validate. destruct (Outbox.Store d), (Outbox.Publisher d); try done. eauto.
Qed.

(** C14: the drain delivers per-stream in order, and marks only what it
    delivered.  On any store that keeps the contract, for any publisher
    failures and any store errors: the events acknowledged by the publisher
    during one Run are, stream by stream, in strictly increasing version
    order; and if Run returns no error, then the published count is the number
    of acknowledged deliveries, every row of a delivered event's stream up to
    its version is published or in DLQ state (nothing was overtaken), and
    every row newly marked published was delivered. *)
Theorem drain_order {W} (R : Runtime W) (d : Outbox.Drain W) St P ok view delivered
    (L : OutboxLaws R St P (Outbox.OnDLQ d) ok view delivered) fuel w w' n c e :
  Outbox.Store d = Some St -> Outbox.Publisher d = Some P ->
  Outbox.MaxAttempts d <= max_i32 -> Outbox.validate d = None -> ok w ->
  (length (view w) < fuel)%nat ->
  Outbox.Run R d fuel w = Some (w', (n, c, e)) ->
  exists new, delivered w' = delivered w ++ new /\ in_order new /\
    (e = None ->
       n = Z.of_nat (length new) /\
       settled (attempts_cap (Outbox.MaxAttempts d)) new (view w') /\
       published_delivered (view w) new (view w')).
Proof.
  intros HS HP Hmax Hv Hok Hfuel. unfold Outbox.Run. rewrite Hv, HS, HP. intros Hrun.
  destruct (runWith_spec d Hmax fuel w Hok Hfuel)
    as (w2 & n2 & c2 & e2 & new & Hrun2 & _ & Hd2 & Ho2 & Hpost).
  rewrite Hrun in Hrun2. injection Hrun2 as <- <- <- <-.
  exists new. split; [done|]. split; [done|]. intros He. by destruct (Hpost He) as (? & ? & ->).
Qed.

(** C15: Run terminates.  The loop of Run ends after at most one batch per
    outbox row plus one, whatever the publisher and the store return: every
    batch that processes a row publishes it, moves it to DLQ state, or halts
    its stream for the rest of the run. *)
Theorem drain_terminates {W} (R : Runtime W) (d : Outbox.Drain W) St P ok view delivered
    (L : OutboxLaws R St P (Outbox.OnDLQ d) ok view delivered) w :
  Outbox.Store d = Some St -> Outbox.Publisher d = Some P ->
  Outbox.MaxAttempts d <= max_i32 -> ok w ->
  forall fuel, (length (view w) < fuel)%nat -> is_Some (Outbox.Run R d fuel w).
Proof.
  intros HS HP Hmax Hok fuel Hfuel. unfold Outbox.Run. destruct (Outbox.validate d); [by eexists|].
  rewrite HS, HP.
  destruct (runWith_spec d Hmax fuel w Hok Hfuel) as (w2 & n2 & c2 & e2 & new & -> & _). by eexists.
Qed.

Lemma backoff_min {W} (d : Outbox.Drain W) n : forall delay,
  0 < Outbox.BackoffMax d < 2 ^ 62 -> 0 < delay < 2 ^ 62 ->
  Z.min (Outbox.BackoffMax d) (Outbox.backoff d n delay) =
  Z.min (Outbox.BackoffMax d) (delay * 2 ^ Z.of_nat n).
Proof.
  induction n as [|n IH]; intros delay Hm Hd; cbn [Outbox.backoff].
  - f_equal. simpl. lia.
  - rewrite i64_small by lia. rewrite Nat2Z.inj_succ, Z.pow_succ_r by lia.
    destruct (Z.ltb_spec 0 (Outbox.BackoffMax d)); [|lia]. cbn [andb].
    assert (0 < 2 ^ Z.of_nat n) by lia.
    destruct (Z.ltb_spec (Outbox.BackoffMax d) (delay * 2)).
    + rewrite Z.min_id, Z.min_l; [done|]. nia.
    + rewrite IH by lia. f_equal. lia.
Qed.

(** The retry backoff is exponential and capped.  With a positive base and
    cap (both below 2^62 ns, about 146 years), the delay after the n-th failed
    attempt is exactly min(BackoffMax, BackoffBase * 2^(n-1)), and
    computeNextAttemptAt is that much after the clock. *)
Theorem drain_backoff_exact {W} (R : Runtime W) (d : Outbox.Drain W) (n now : Z) w w1 :
  0 < Outbox.BackoffBase d < 2 ^ 62 -> 0 < Outbox.BackoffMax d < 2 ^ 62 -> 1 <= n ->
  rt_Now R w = (w1, Ok now) ->
  Outbox.computeNextAttemptAt R d n w =
    (w1, Ok (now + Z.min (Outbox.BackoffMax d) (Outbox.BackoffBase d * 2 ^ (n - 1)))).
Proof.
  intros Hb Hm Hn Hnow. unfold Outbox.computeNextAttemptAt.
  destruct (Z.leb_spec (Outbox.BackoffBase d) 0); [lia|].
  rewrite (bind_run _ _ _ _ _ Hnow). unfold mret, M_ret. do 3 f_equal.
  pose proof (backoff_min d (Z.to_nat (n - 1)) (Outbox.BackoffBase d) Hm Hb) as Hmin.
  rewrite Z2Nat.id in Hmin by lia. rewrite <- Hmin. unfold Outbox.backoffDelay.
  destruct (Z.ltb_spec 0 (Outbox.BackoffMax d)); [|lia]. cbn [andb].
  destruct (Z.ltb_spec (Outbox.BackoffMax d) (Outbox.backoff d (Z.to_nat (n - 1)) (Outbox.BackoffBase d)));
    lia.
Qed.

(** A drain that retries after 1 s, capped at 5 minutes. *)
Definition demo_drain (base max_ : Duration) : Outbox.Drain unit :=
  Outbox.mkDrain unit None None "" 0 0 "" 0 0 0 base max_ false None.
Definition demo_runtime : Runtime unit := mkRuntime unit (mret 1000) (mret false).

Lemma drain_backoff_exact_witness :
  Outbox.computeNextAttemptAt demo_runtime (demo_drain 1000000000 300000000000) 4 tt =
    (tt, Ok (1000 + 8000000000)).
Proof.
  rewrite (drain_backoff_exact demo_runtime (demo_drain 1000000000 300000000000) 4 1000 tt tt);
    [reflexivity|simpl; lia|simpl; lia|lia|reflexivity].
Defined.

(** Without a cap the backoff overflows.  With BackoffMax = 0 and a base of
    one second the int64 duration wraps: after the 35th failure the delay is
    negative (the row is due in the past) and from the 56th on it is zero, so
    rows that failed most are retried at every pass. *)
Theorem drain_backoff_overflow :
  Outbox.backoffDelay (demo_drain 1000000000 0) 35 < 0 /\
  Outbox.backoffDelay (demo_drain 1000000000 0) 56 = 0 /\
  Outbox.backoffDelay (demo_drain 1000000000 0) 100 = 0.
Proof. vm_compute. done. Qed.
