(* ===== verification/PgLocks.v ===== *)
(** * Session locks (adapters/storage/postgres/drain_locker.go and
    projection_locker.go)

    Both lockers take a session-level advisory lock on a connection of the pool
    and keep the connection aside until the lock is released.  The model has the
    server's lock table, with the backend that holds each key and how often, and
    the conns maps of every adapter instance.  Every call is one statement on the
    server, so calls of different processes interleave call by call.  Locks taken
    by the server's backends end with the backend. *)
From S2P Require Import Prelude Errors Streams Sharding Events Projection OutboxDrain.

Inductive Kind : Set := KDrain | KProjection.

#[export] Instance Kind_dec : EqDecision Kind.
Proof. solve_decision. Defined.

#[export] Instance Kind_countable : Countable Kind.
Proof.
  refine (inj_countable' (fun k => match k with KDrain => true | KProjection => false end)
    (fun b => if b then KDrain else KProjection) _). by intros [].
Defined.

Definition drainLockKey (key : string) : Z :=
  i64 (Fnv.write64 (Fnv.write64 14695981039346656037 "eventstore.outbox.drain:") key).

Definition projectionLockKey (key : string) : Z :=
  i64 (Fnv.write64 (Fnv.write64 14695981039346656037 "eventstore.projection.runner:") key).

Definition lock_id (k : Kind) : string -> Z :=
  match k with KDrain => drainLockKey | KProjection => projectionLockKey end.

(** The locker an adapter instance [p] has of each kind: drainLocks and
    projectionLocks, drainLockerState each. *)
Notation locker := (nat * Kind)%type.

(** [conns]: the conns map of each locker, a missing entry being the nil map.
    [server]: the advisory keys held at session level, with the backend and the
    number of times it holds them.  [ended]: the backends that are gone. *)
Record Net := mkNet {
  conns : gmap locker (gmap string nat);
  server : gmap Z (nat * nat);
  ended : gset nat;
  n_tick : nat
}.

(** How a statement ends: it ran; it failed and the connection is usable
    (pgx does not send a statement whose context is done); the connection broke. *)
Inductive Outcome : Set := Ran | Refused (msg : string) | Broke (msg : string).

(** The connection the pool hands out at each tick, or why it does not, and the
    outcome of the statement. *)
Record LockOracle := mkLockOracle {
  lo_conn : nat -> nat + string;
  lo_outcome : nat -> Outcome
}.

Definition own (s : Net) (l : locker) : gmap string nat := default ∅ (conns s !! l).

(** The connections kept aside. *)
Definition kept (s : Net) : list nat :=
  x ← map_to_list (conns s); snd <$> map_to_list (snd x).

Definition set_own (l : locker) (m : gmap string nat) (s : Net) : Net :=
  mkNet (<[l := m]> (conns s)) (server s) (ended s) (n_tick s).
Definition set_server (sv : gmap Z (nat * nat)) (s : Net) : Net :=
  mkNet (conns s) sv (ended s) (n_tick s).
Definition next (s : Net) : Net := mkNet (conns s) (server s) (ended s) (S (n_tick s)).

(** The end of backend [c], and of its locks. *)
Definition end_backend (c : nat) (s : Net) : Net :=
  mkNet (conns s) (filter (fun x => fst (snd x) <> c) (server s)) ({[c]} ∪ ended s) (n_tick s).

(** [SELECT pg_try_advisory_lock(k)] on backend [c]. *)
Definition pg_try_advisory_lock (k : Z) (c : nat) (s : Net) : Net * bool :=
  match server s !! k with
  | None => (set_server (<[k := (c, 1%nat)]> (server s)) s, true)
  | Some (c', n) =>
      if bool_decide (c' = c) then (set_server (<[k := (c, S n)]> (server s)) s, true)
      else (s, false)
  end.

(** [SELECT pg_advisory_unlock(k)] on backend [c]. *)
Definition pg_advisory_unlock (k : Z) (c : nat) (s : Net) : Net :=
  match server s !! k with
  | Some (c', n) =>
      if bool_decide (c' = c) then
        if Nat.leb n 1 then set_server (delete k (server s)) s
        else set_server (<[k := (c, Nat.pred n)]> (server s)) s
      else s
  | None => s
  end.

Section Lockers.
Context (O : LockOracle).

(** The acquire step of the pool: a live connection nobody has checked out. *)
Definition pool_acquire (s : Net) : nat + string :=
  match lo_conn O (n_tick s) with
  | inl c =>
      if bool_decide (c ∈ kept s) || bool_decide (c ∈ ended s) then inr "closed pool" else inl c
  | inr msg => inr msg
  end.

(** TryAcquireDrainLock and TryAcquireProjectionLock; [what] is the lock's name
    in the error text, which is kept without the quoted key. *)
Definition tryAcquire (l : locker) (what : string) (key : string) : M Net bool := fun s =>
  match own s l !! key with
  | Some _ => (s, Ok false)
  | None =>
      match pool_acquire s with
      | inr msg => (next s, Err (EWrap ("acquire pool conn for " +:+ what +:+ " lock") (ENew msg)))
      | inl c =>
          match lo_outcome O (n_tick s) with
          | Refused msg => (next s, Err (EWrap "pg_try_advisory_lock" (ENew msg)))
          | Broke msg => (next (end_backend c s), Err (EWrap "pg_try_advisory_lock" (ENew msg)))
          | Ran =>
              let '(s1, acquired) := pg_try_advisory_lock (lock_id (snd l) key) c s in
              if negb acquired then (next s1, Ok false)
              else (next (set_own l (<[key := c]> (own s1 l)) s1), Ok true)
          end
      end
  end.

(** ReleaseDrainLock and ReleaseProjectionLock. *)
Definition releaseLock (l : locker) (key : string) : M Net unit := fun s =>
  match own s l !! key with
  | None => (s, Ok tt)
  | Some c =>
      let s1 := set_own l (delete key (own s l)) s in
      if bool_decide (c ∈ ended s) then (next s1, Err (EWrap "pg_advisory_unlock" (ENew "conn closed")))
      else
        match lo_outcome O (n_tick s) with
        | Ran => (next (pg_advisory_unlock (lock_id (snd l) key) c s1), Ok tt)
        | Refused msg => (next s1, Err (EWrap "pg_advisory_unlock" (ENew msg)))
        | Broke msg => (next (end_backend c s1), Err (EWrap "pg_advisory_unlock" (ENew msg)))
        end
  end.

(** The adapter instance [p] as the lockers the drains use. *)
Definition drain_locker (p : nat) : DrainLocker Net :=
  mkDrainLocker _ (tryAcquire (p, KDrain) "drain") (releaseLock (p, KDrain)).
Definition projection_locker (p : nat) : ProjectionLocker Net :=
  mkProjectionLocker _ (tryAcquire (p, KProjection) "projection") (releaseLock (p, KProjection)).

(** What can happen: a call of some instance, or the end of a backend. *)
Inductive lock_step : relation Net :=
  | ls_try p key s s' r :
      TryAcquireDrainLock (drain_locker p) key s = (s', r) -> lock_step s s'
  | ls_release p key s s' r :
      ReleaseDrainLock (drain_locker p) key s = (s', r) -> lock_step s s'
  | ls_ptry p key s s' r :
      TryAcquireProjectionLock (projection_locker p) key s = (s', r) -> lock_step s s'
  | ls_prelease p key s s' r :
      ReleaseProjectionLock (projection_locker p) key s = (s', r) -> lock_step s s'
  | ls_end c s : lock_step s (end_backend c s).
End Lockers.

Definition no_locks : Net := mkNet ∅ ∅ ∅ 0.

(** The locker holds the key: its map has a connection whose backend lives. *)
Definition holds (s : Net) (l : locker) (key : string) (c : nat) : Prop :=
  own s l !! key = Some c /\ c ∉ ended s.

(** ** The invariant *)

Record net_ok (s : Net) : Prop := mkNetOk {
  no_inj : forall l l' key key' c, own s l !! key = Some c -> own s l' !! key' = Some c ->
    l = l' /\ key = key';
  no_server : forall l key c, holds s l key c -> exists n, server s !! lock_id (snd l) key = Some (c, n)
}.

Lemma own_insert s l m l' :
  own (set_own l m s) l' = if bool_decide (l = l') then m else own s l'.
Proof.
  unfold own, set_own; simpl. case_bool_decide as E; [subst; by rewrite lookup_insert_eq|].
  by rewrite lookup_insert_ne.
Qed.

Lemma own_update s l key v l' key' :
  own (set_own l (<[key := v]> (own s l)) s) l' !! key' =
  if bool_decide (l = l' /\ key = key') then Some v else own s l' !! key'.
Proof.
  rewrite own_insert. destruct (decide (l = l')) as [<-|Hl].
  - rewrite bool_decide_eq_true_2 by done. destruct (decide (key = key')) as [<-|Hk].
    + by rewrite bool_decide_eq_true_2, lookup_insert_eq.
    + rewrite bool_decide_eq_false_2 by naive_solver. by rewrite lookup_insert_ne.
  - by rewrite !bool_decide_eq_false_2 by naive_solver.
Qed.

Lemma own_delete s l key l' key' c :
  own (set_own l (delete key (own s l)) s) l' !! key' = Some c ->
  own s l' !! key' = Some c /\ ~ (l = l' /\ key = key').
Proof.
  rewrite own_insert. case_bool_decide; subst; [|naive_solver].
  intros [Hne H]%lookup_delete_Some. naive_solver.
Qed.

Lemma kept_spec s l key c : own s l !! key = Some c -> c ∈ kept s.
Proof.
  intros H. unfold own in H. destruct (conns s !! l) as [m|] eqn:Hl; simpl in H; [|done].
  unfold kept. apply list_elem_of_bind. exists (l, m). split; [|by apply elem_of_map_to_list].
  apply list_elem_of_fmap. exists (key, c). split; [done|]. by apply elem_of_map_to_list.
Qed.

Lemma net_ok_next s : net_ok s -> net_ok (next s).
Proof. by intros []. Qed.

Lemma end_backend_ok c s : net_ok s -> net_ok (end_backend c s).
Proof.
  intros [Hi Hs]. split; [exact Hi|]. intros l key c' [Ho He]. simpl in He.
  destruct (Hs l key c') as [n Hn]; [split; [done|set_solver]|]. exists n. simpl.
  apply map_lookup_filter_Some. split; [done|]. simpl. set_solver.
Qed.

Lemma try_lock_ok l key c s s1 b :
  net_ok s -> c ∉ kept s -> own s l !! key = None ->
  pg_try_advisory_lock (lock_id (snd l) key) c s = (s1, b) ->
  net_ok s1 /\ conns s1 = conns s /\ ended s1 = ended s /\
  (b = true -> exists n, server s1 !! lock_id (snd l) key = Some (c, n)).
Proof.
  intros [Hi Hs] Hk Ho. unfold pg_try_advisory_lock.
  assert (Hnew : forall n, (server s !! lock_id (snd l) key = None \/
      exists n', server s !! lock_id (snd l) key = Some (c, n')) ->
    net_ok (set_server (<[lock_id (snd l) key := (c, n)]> (server s)) s)).
  { intros n Hc. split; [exact Hi|]. intros l' key' c' [Ho' He]. destruct (Hs l' key' c') as [n' Hn]; [done|].
    exists n'. simpl. rewrite lookup_insert_ne; [done|]. intros E. rewrite E in Hc.
    destruct Hc as [Hc|[n2 Hc]]; rewrite Hn in Hc; [done|]. injection Hc as ->. by apply kept_spec in Ho'. }
  destruct (server s !! lock_id (snd l) key) as [[c' n]|] eqn:Hsv.
  - case_bool_decide; intros [= <- <-]; subst.
    + split; [apply Hnew; eauto|]. repeat split. intros _. exists (S n). simpl. by rewrite lookup_insert_eq.
    + split; [by split|]. split; [done|]. by split.
  - intros [= <- <-]. split; [apply Hnew; by left|]. repeat split. intros _.
    exists 1%nat. simpl. by rewrite lookup_insert_eq.
Qed.

Lemma keep_ok l key c s n :
  net_ok s -> c ∉ kept s -> server s !! lock_id (snd l) key = Some (c, n) ->
  net_ok (set_own l (<[key := c]> (own s l)) s).
Proof.
  intros [Hi Hs] Hk Hn. split.
  - intros l1 l2 k1 k2 c'. rewrite !own_update. repeat case_bool_decide; destruct_and?; subst.
    + done.
    + intros [= ->] H2. by apply kept_spec in H2.
    + intros H1 [= ->]. by apply kept_spec in H1.
    + apply Hi.
  - intros l' key' c' [Ho He]. rewrite own_update in Ho. case_bool_decide; [|by apply Hs].
    destruct_and!; subst. injection Ho as ->. eauto.
Qed.

Lemma forget_ok l key s : net_ok s -> net_ok (set_own l (delete key (own s l)) s).
Proof.
  intros [Hi Hs]. split.
  - intros l1 l2 k1 k2 c [H1 _]%own_delete [H2 _]%own_delete. eauto.
  - intros l' key' c [[Ho _]%own_delete He]. by apply Hs.
Qed.

(** Unlocking with a connection that is not kept any more. *)
Lemma unlock_ok k c s :
  net_ok s -> (forall l key, own s l !! key <> Some c) -> net_ok (pg_advisory_unlock k c s).
Proof.
  intros [Hi Hs] Hc. unfold pg_advisory_unlock.
  destruct (server s !! k) as [[c' n]|] eqn:Hk; [|done]. case_bool_decide; [subst c'|done].
  assert (Hne : forall l key c', holds s l key c' -> k <> lock_id (snd l) key).
  { intros l key c' Hh E. destruct (Hs l key c' Hh) as [n' Hn]. rewrite <- E, Hk in Hn. injection Hn as <- _.
    by apply (Hc l key), Hh. }
  case_match; (split; [exact Hi|]); intros l key c' Hh; destruct (Hs l key c' Hh) as [n' Hn]; exists n'; simpl.
  - rewrite lookup_delete_ne; [done|by eapply Hne].
  - rewrite lookup_insert_ne; [done|by eapply Hne].
Qed.

Section Preservation.
Context (O : LockOracle).

Lemma pool_acquire_free s c : pool_acquire O s = inl c -> c ∉ kept s /\ c ∉ ended s.
Proof.
  unfold pool_acquire. destruct (lo_conn O (n_tick s)); [|done].
  destruct (bool_decide _) eqn:H1; [done|]. destruct (bool_decide (_ ∈ ended s)) eqn:H2; [done|].
  intros [= ->]. by bool_to_prop.
Qed.

Lemma tryAcquire_ok l what key s s' r :
  net_ok s -> tryAcquire O l what key s = (s', r) ->
  net_ok s' /\ (r = Ok true -> exists c, holds s' l key c).
Proof.
  intros Hok. unfold tryAcquire. destruct (own s l !! key) as [c0|] eqn:Ho; [intros [= <- <-]; by split|].
  destruct (pool_acquire O s) as [c|msg] eqn:Hp; [|intros [= <- <-]; split; [by apply net_ok_next|done]].
  destruct (pool_acquire_free s c Hp) as [Hk He].
  destruct (lo_outcome O (n_tick s)).
  - destruct (pg_try_advisory_lock _ c s) as [s1 b] eqn:Ht.
    destruct (try_lock_ok l key c s s1 b Hok Hk Ho Ht) as (Hok1 & Hc1 & He1 & Hb).
    destruct b; simpl; intros [= <- <-]; [|split; [by apply net_ok_next|done]].
    destruct (Hb eq_refl) as [n Hn].
    assert (Hk1 : c ∉ kept s1) by (unfold kept; by rewrite Hc1).
    split; [by apply net_ok_next, (keep_ok l key c s1 n)|]. intros _. exists c. split.
    + change (own (next ?x) l) with (own x l). rewrite own_update.
      by rewrite bool_decide_eq_true_2.
    + simpl. by rewrite He1.
  - intros [= <- <-]. split; [|done]. by apply net_ok_next.
  - intros [= <- <-]. split; [|done]. by apply net_ok_next, end_backend_ok.
Qed.

Lemma releaseLock_ok l key s s' r : net_ok s -> releaseLock O l key s = (s', r) -> net_ok s'.
Proof.
  intros Hok. unfold releaseLock. destruct (own s l !! key) as [c|] eqn:Ho; [|by intros [= <- <-]].
  pose proof (forget_ok l key s Hok) as Hok1. case_bool_decide; [intros [= <- <-]; by apply net_ok_next|].
  destruct (lo_outcome O (n_tick s)); intros [= <- <-]; apply net_ok_next.
  - apply unlock_ok; [done|]. intros l' key' [H1 H2]%own_delete. apply H2.
    by apply (no_inj s Hok l l' key key' c).
  - done.
  - by apply end_backend_ok.
Qed.

Lemma lock_step_ok s s' : lock_step O s s' -> net_ok s -> net_ok s'.
Proof.
  destruct 1 as [p key s s' r H|p key s s' r H|p key s s' r H|p key s s' r H|c s]; intros Hok.
  - exact (proj1 (tryAcquire_ok _ _ _ _ _ _ Hok H)).
  - exact (releaseLock_ok _ _ _ _ _ Hok H).
  - exact (proj1 (tryAcquire_ok _ _ _ _ _ _ Hok H)).
  - exact (releaseLock_ok _ _ _ _ _ Hok H).
  - by apply end_backend_ok.
Qed.

Lemma no_locks_ok : net_ok no_locks.
Proof.
  split.
  - intros l l' key key' c H. unfold own in H. simpl in H. by rewrite lookup_empty in H.
  - intros l key c [H _]. unfold own in H. simpl in H. by rewrite lookup_empty in H.
Qed.

Lemma lock_steps_ok s : rtc (lock_step O) no_locks s -> net_ok s.
Proof.
  intros H. assert (forall s1 s2, rtc (lock_step O) s1 s2 -> net_ok s1 -> net_ok s2) as Hp.
  { induction 1; eauto using lock_step_ok. }
  by eapply Hp, no_locks_ok.
Qed.
End Preservation.

(** ** Theorems *)

(** C13: the drain and projection locks exclude each other across processes.
    Whatever the instances of the adapter call, in any order, whichever
    statements fail and whichever backends end, at most one locker holds a key
    at any time: the holder is determined by the advisory key, so two instances
    never drain under the same key while the connections of both live.  A
    TryAcquire that returns true has made its instance the holder. *)
Theorem session_lock_exclusion (O : LockOracle) s :
  rtc (lock_step O) no_locks s ->
  (forall l l' key key' c c', holds s l key c -> holds s l' key' c' ->
     lock_id (snd l) key = lock_id (snd l') key' -> l = l' /\ key = key' /\ c = c') /\
  (forall p key s' , TryAcquireDrainLock (drain_locker O p) key s = (s', Ok true) ->
     exists c, holds s' (p, KDrain) key c) /\
  (forall p key s' , TryAcquireProjectionLock (projection_locker O p) key s = (s', Ok true) ->
     exists c, holds s' (p, KProjection) key c).
Proof.
  intros Hok%lock_steps_ok. split; [|split].
  - intros l l' key key' c c' H1 H2 E. destruct (no_server s Hok l key c H1) as [n Hn].
    destruct (no_server s Hok l' key' c' H2) as [n' Hn']. rewrite E, Hn' in Hn. injection Hn as -> _.
    destruct (no_inj s Hok l l' key key' c) as [-> ->]; [apply H1|apply H2|done].
  - intros p key s' H. by eapply (tryAcquire_ok O (p, KDrain)) in H as [_ Hh]; [apply Hh|].
  - intros p key s' H. by eapply (tryAcquire_ok O (p, KProjection)) in H as [_ Hh]; [apply Hh|].
Qed.

(** Each call gets the connection of its number; everything runs. *)
Definition demo_locks : LockOracle := mkLockOracle (fun n => inl n) (fun _ => Ran).

Definition demo_locked : Net :=
  fst (TryAcquireDrainLock (drain_locker demo_locks 0) "outbox" no_locks).

Lemma session_lock_exclusion_witness :
  snd (TryAcquireDrainLock (drain_locker demo_locks 0) "outbox" no_locks) = Ok true /\
  (exists c, holds demo_locked (0%nat, KDrain) "outbox" c) /\
  snd (TryAcquireDrainLock (drain_locker demo_locks 1) "outbox" demo_locked) = Ok false /\
  (forall l l' key key' c c', holds demo_locked l key c -> holds demo_locked l' key' c' ->
     lock_id (snd l) key = lock_id (snd l') key' -> l = l' /\ key = key' /\ c = c').
Proof.
  split; [vm_compute; reflexivity|]. split; [|split; [vm_compute; reflexivity|]].
  - refine (proj1 (proj2 (session_lock_exclusion demo_locks no_locks (rtc_refl _ _))) 0%nat "outbox"
      demo_locked _). vm_compute. reflexivity.
  - refine (proj1 (session_lock_exclusion demo_locks demo_locked _)).
    apply rtc_once. eapply (ls_try _ 0 "outbox"). apply surjective_pairing.
Defined.

(** Releasing a lock with a context that is done leaks it.  The drains
    release with the context of the run, and pgx does not send a statement whose
    context is done: when the unlock is refused this way, the instance forgets
    the lock and puts the connection back into the pool, but the backend still
    holds the key.  From then on, no instance, this one included, acquires the
    key on another connection, until that backend ends. *)
Theorem cancelled_release_leaks (O O' : LockOracle) p key c s s1 r msg :
  rtc (lock_step O) no_locks s -> holds s (p, KDrain) key c ->
  lo_outcome O (n_tick s) = Refused msg ->
  ReleaseDrainLock (drain_locker O p) key s = (s1, r) ->
  r = Err (EWrap "pg_advisory_unlock" (ENew msg)) /\ own s1 (p, KDrain) !! key = None /\
  forall p' s2 x, lo_conn O' (n_tick s1) <> inl c ->
    TryAcquireDrainLock (drain_locker O' p') key s1 = (s2, x) -> x <> Ok true.
Proof.
  intros Hok%lock_steps_ok Hh Hout. destruct (no_server s Hok _ _ _ Hh) as [n Hn].
  destruct Hh as [Ho He]. simpl. unfold releaseLock. rewrite Ho, bool_decide_eq_false_2, Hout by done.
  intros [= <- <-]. split; [done|]. split.
  { change (own (next ?x) ?l) with (own x l). rewrite own_insert, bool_decide_eq_true_2 by done.
    by rewrite lookup_delete_eq. }
  intros p' s2 x Hc. unfold tryAcquire. case_match; [by intros [= <- <-]|].
  unfold pool_acquire. destruct (lo_conn O' _) as [c'|] eqn:Hconn; [|by intros [= <- <-]].
  destruct (bool_decide (c' ∈ _) || bool_decide (c' ∈ _)); [by intros [= <- <-]|].
  destruct (lo_outcome O' _); [|by intros [= <- <-]..].
  unfold pg_try_advisory_lock. simpl in *. rewrite Hn, bool_decide_eq_false_2 by congruence.
  by intros [= <- <-].
Qed.

(** The context is done at the second call. *)
Definition demo_cancelled : LockOracle :=
  mkLockOracle (fun n => inl n)
    (fun n => if bool_decide (n = 1%nat) then Refused "context canceled" else Ran).

Definition demo_leaked : Net := fst (ReleaseDrainLock (drain_locker demo_cancelled 0) "outbox" demo_locked).

(** Nobody holds the key, and the next TryAcquire returns false. *)
Lemma cancelled_release_leaks_witness :
  own demo_leaked (0%nat, KDrain) !! "outbox" = None /\
  snd (TryAcquireDrainLock (drain_locker demo_locks 1) "outbox" demo_leaked) = Ok false /\
  snd (TryAcquireDrainLock (drain_locker demo_locks 1) "outbox" demo_leaked) <> Ok true.
Proof.
  split; [vm_compute; reflexivity|]. split; [vm_compute; reflexivity|].
  refine (proj2 (proj2 (cancelled_release_leaks demo_cancelled demo_locks 0 "outbox" 0 demo_locked demo_leaked
    _ "context canceled" _ _ _ (surjective_pairing _))) 1%nat _ _ _ (surjective_pairing _)).
  - apply rtc_once. eapply (ls_try _ 0 "outbox" _ _ (Ok true)). vm_compute. reflexivity.
  - split; [vm_compute; reflexivity|]. set_solver.
  - vm_compute. reflexivity.
  - vm_compute. discriminate.
Defined.
