(* ===== verification/SqliteOutbox.v ===== *)
(** * The outbox on SQLite (adapters/storage/sqlite: outbox.go, outbox_admin.go,
      internal/db/outbox.sql.go)

    The outbox queries and the adapter methods of es.OutboxStore and
    es.OutboxAdmin, and the proof that they keep the contract [OutboxLaws] the
    drain is verified against. *)
From S2P Require Import Prelude Errors Streams Sharding Events Chain GoTime Sql SqliteDB SqliteStore SqliteFacts SqliteStream SqliteAppend OutboxDrain.
Import Sqlite.

(** ** outbox.sql.go *)
Module QO.
Section QO.
Context (O : Oracle).

(** outbox o JOIN events e ON e.tenant_id = o.tenant_id AND e.event_id = o.event_id *)
Definition joined (d : DB) : list (OutboxRec * EventRow) :=
  flat_map (fun o => (fun e => (o, e)) <$>
    List.filter (Q.same_event (ob_tenant_id o) (ob_event_id o)) (events d)) (outbox d).

(** published_at IS NULL AND attempts < n *)
Definition undelivered (maxA : Z) (o : OutboxRec) : bool :=
  bool_decide (ob_published_at o = None) && (ob_attempts o <? maxA).

(** MIN(version) of the undelivered rows of a stream: the CTE head_versions. *)
Fixpoint list_min (l : list Z) : option Z :=
  match l with
  | [] => None
  | x :: l' => Some (match list_min l' with None => x | Some m => Z.min x m end)
  end.

Definition head_version (maxA : Z) (tenant stream : string) (d : DB) : option Z :=
  list_min ((fun x => er_version (snd x)) <$>
    List.filter (fun x : OutboxRec * EventRow =>
      undelivered maxA (fst x) && Q.in_stream tenant stream (snd x)) (joined d)).

Definition due (now : string) (o : OutboxRec) : bool :=
  match ob_next_attempt_at o with None => true | Some t => str_leb t now end.

Definition selected (now : string) (maxA : Z) (d : DB) (x : OutboxRec * EventRow) : bool :=
  undelivered maxA (fst x) && due now (fst x) &&
  bool_decide (head_version maxA (er_tenant_id (snd x)) (er_stream_id (snd x)) d
               = Some (er_version (snd x))).

Definition PendingOutboxWithEnvelope (now : string) (maxA limit : Z)
    : M World (list (OutboxRec * EventRow)) :=
  select O (fun d => Ok (sql_limit limit (order_by (fun x => ob_global_position (fst x))
    (List.filter (selected now maxA d) (joined d))))).

(** SELECT DISTINCT keeps one of each. *)
Definition distinct (l : list (string * string)) : list (string * string) := remove_dups l.

Definition QuarantinedStreams (maxA : Z) (tenant : string) : M World (list (string * string)) :=
  select O (fun d => Ok (distinct ((fun x => (ob_tenant_id (fst x), er_stream_id (snd x))) <$>
    List.filter (fun x : OutboxRec * EventRow =>
      bool_decide (ob_published_at (fst x) = None) && (maxA <=? ob_attempts (fst x)) &&
      bool_decide (ob_tenant_id (fst x) = tenant)) (joined d)))).

Definition QuarantinedStreamsAllTenants (maxA : Z) : M World (list (string * string)) :=
  select O (fun d => Ok (distinct ((fun x => (ob_tenant_id (fst x), er_stream_id (snd x))) <$>
    List.filter (fun x : OutboxRec * EventRow =>
      bool_decide (ob_published_at (fst x) = None) && (maxA <=? ob_attempts (fst x))) (joined d)))).

Definition at_row (tenant : string) (gp : Z) (o : OutboxRec) : bool :=
  bool_decide (ob_tenant_id o = tenant) && (ob_global_position o =? gp).

Definition set_published (at_ : string) (o : OutboxRec) : OutboxRec :=
  mkOutboxRec (ob_tenant_id o) (ob_global_position o) (ob_event_id o) (ob_enqueued_at o)
    (Some at_) (ob_attempts o) (ob_last_error o) (ob_next_attempt_at o).

Definition MarkOutboxPublished (tenant : string) (gp : Z) : M World unit :=
  exec O (fun now =>
    set_outbox (sql_update (at_row tenant gp) (set_published (GoTime.strftime_now now)))).

Definition set_failed (msg next : string) (o : OutboxRec) : OutboxRec :=
  mkOutboxRec (ob_tenant_id o) (ob_global_position o) (ob_event_id o) (ob_enqueued_at o)
    (ob_published_at o) (ob_attempts o + 1) (Some msg) (Some next).

Definition MarkOutboxFailed (msg next : string) (tenant : string) (gp : Z) : M World unit :=
  exec O (fun _ => set_outbox (sql_update (at_row tenant gp) (set_failed msg next))).

(** published_at IS NOT NULL AND published_at < cutoff, of one tenant. *)
Definition expired (tenant cutoff : string) (o : OutboxRec) : bool :=
  bool_decide (ob_tenant_id o = tenant) &&
  match ob_published_at o with Some t => str_ltb t cutoff | None => false end.

Definition CleanupPublished (tenant cutoff : string) : M World unit :=
  exec O (fun _ => set_outbox (List.filter (fun o => negb (expired tenant cutoff o)))).

(** *** Dashboard and operator queries *)

Definition in_dlq (tenant : string) (maxA : Z) (o : OutboxRec) : bool :=
  bool_decide (ob_tenant_id o = tenant) && bool_decide (ob_published_at o = None) &&
  (maxA <=? ob_attempts o).

Definition ListDLQ (tenant : string) (maxA after limit : Z) : M World (list (OutboxRec * EventRow)) :=
  select O (fun d => Ok (sql_limit limit (order_by (fun x => ob_global_position (fst x))
    (List.filter (fun x : OutboxRec * EventRow =>
       in_dlq tenant maxA (fst x) && (after <? ob_global_position (fst x))) (joined d))))).

Definition CountDLQ (tenant : string) (maxA : Z) : M World Z :=
  select O (fun d => Ok (sql_count (in_dlq tenant maxA) (outbox d))).

Definition CountPending (tenant : string) : M World Z :=
  select O (fun d => Ok (sql_count (fun o =>
    bool_decide (ob_tenant_id o = tenant) && bool_decide (ob_published_at o = None)) (outbox d))).

Definition CountFailing (tenant : string) (maxA : Z) : M World Z :=
  select O (fun d => Ok (sql_count (fun o =>
    bool_decide (ob_tenant_id o = tenant) && bool_decide (ob_published_at o = None) &&
    (0 <? ob_attempts o) && (ob_attempts o <? maxA)) (outbox d))).

Definition set_replayed (o : OutboxRec) : OutboxRec :=
  mkOutboxRec (ob_tenant_id o) (ob_global_position o) (ob_event_id o) (ob_enqueued_at o)
    (ob_published_at o) 0 None None.

Definition ReplayDLQ (tenant : string) (gp : Z) : M World unit :=
  exec O (fun _ => set_outbox (sql_update (at_row tenant gp) set_replayed)).

Definition set_abandoned (at_ : string) (o : OutboxRec) : OutboxRec :=
  mkOutboxRec (ob_tenant_id o) (ob_global_position o) (ob_event_id o) (ob_enqueued_at o)
    (Some at_) (ob_attempts o) (Some (default "" (ob_last_error o) +:+ " [abandoned]"))
    (ob_next_attempt_at o).

Definition AbandonDLQ (tenant : string) (gp : Z) : M World unit :=
  exec O (fun now => set_outbox (sql_update
    (fun o => at_row tenant gp o && bool_decide (ob_published_at o = None))
    (set_abandoned (GoTime.strftime_now now)))).

Definition ReplayAllDLQ (tenant : string) (maxA : Z) : M World Z :=
  stmt O (fun _ d => (set_outbox (sql_update (in_dlq tenant maxA) set_replayed) d,
                      Ok (sql_count (in_dlq tenant maxA) (outbox d)))).
End QO.
End QO.

(** ** outbox.go and outbox_admin.go *)
Module SqliteOutbox.
Section SqliteOutbox.
Context {SP : SqlitePrims} (O : Oracle).

Definition safeMaxAttempts (n : Z) : Z := if n <=? 0 then max_i32 else n.

(** The join carries no payload_json. *)
Definition rowToEnvelopeOutbox (x : OutboxRec * EventRow) : res Envelope.t :=
  let '(o, r) := x in
  match StreamID.ParseCanonical (ob_tenant_id o) (er_stream_id r) with
  | Err e => Err (EWrap "parse stream id" e)
  | Ok sid =>
      match decodeActor (er_actor r) with
      | Err e => Err e
      | Ok actor =>
          match GoTime.parseTime (er_occurred_at r) with
          | Err e => Err (EWrap "occurred_at" e)
          | Ok occurred =>
              match GoTime.parseTime (er_recorded_at r) with
              | Err e => Err (EWrap "recorded_at" e)
              | Ok recorded =>
                  Ok (Envelope.mk (ob_event_id o) (ob_tenant_id o) sid
                        (u64 (er_version r)) (u64 (ob_global_position o))
                        (er_type_url r) (u32 (er_schema_version r)) occurred recorded
                        (er_correlation_id r) (er_causation_id r) (er_command_id r)
                        actor (er_payload r) [] (opt_bytes (er_encryption_key_refs r))
                        (default [] (er_hash r)) (default [] (er_prev_hash r)))
              end
          end
      end
  end.

Definition toOutboxRow (x : OutboxRec * EventRow) : res OutboxRow :=
  match rowToEnvelopeOutbox x with
  | Err e => Err e
  | Ok env => Ok (mkOutboxRow env (i32 (ob_attempts (fst x))))
  end.

Definition PendingOutbox (tenant : string) (limit maxAttempts : Z) : M World (list OutboxRow) :=
  now ← time_Now O;
  rows ← QO.PendingOutboxWithEnvelope O (GoTime.formatTime now) (safeMaxAttempts maxAttempts) limit;
  of_res (mapR toOutboxRow (List.filter (fun x : OutboxRec * EventRow =>
    negb (negb (bool_decide (tenant = "")) && negb (bool_decide (ob_tenant_id (fst x) = tenant))))
    rows)).

Definition QuarantinedStreams (tenant : string) (maxAttempts : Z) : M World (list StreamRef) :=
  let maxA := safeMaxAttempts maxAttempts in
  rows ← (if bool_decide (tenant = "") then QO.QuarantinedStreamsAllTenants O maxA
          else QO.QuarantinedStreams O maxA tenant);
  mret ((fun x => mkStreamRef (fst x) (snd x)) <$> rows).

Definition MarkOutboxPublished (tenant : string) (gp : Z) : M World unit :=
  QO.MarkOutboxPublished O tenant (i64 gp).

(** The error text is cut to 2048 bytes. *)
Definition truncated (msg : string) : string := str_take 2048 msg.

Definition MarkOutboxFailed (tenant : string) (gp : Z) (errMsg : string) (nextAttemptAt : Time)
    : M World unit :=
  QO.MarkOutboxFailed O (truncated errMsg) (GoTime.formatTime nextAttemptAt) tenant (i64 gp).

Definition CleanupPublishedOutbox (tenant : string) (olderThan : Time) : M World Z :=
  QO.CleanupPublished O tenant (GoTime.formatTime olderThan) ≫= fun _ => mret (-1).

Definition CountPending (tenant : string) : M World Z := QO.CountPending O tenant.
Definition CountFailing (tenant : string) (maxAttempts : Z) : M World Z :=
  QO.CountFailing O tenant (safeMaxAttempts maxAttempts).
Definition CountDLQ (tenant : string) (maxAttempts : Z) : M World Z :=
  QO.CountDLQ O tenant (safeMaxAttempts maxAttempts).

Definition toDLQRow (x : OutboxRec * EventRow) : res DLQRow :=
  let '(o, r) := x in
  match GoTime.parseTime (ob_enqueued_at o) with
  | Err e => Err e
  | Ok enqueued =>
      Ok (mkDLQRow (ob_tenant_id o) (u64 (ob_global_position o)) (ob_event_id o) (er_stream_id r)
            (er_type_url r) (er_correlation_id r) (er_causation_id r) (er_command_id r)
            (er_actor_principal r) enqueued (i32 (ob_attempts o)) (default "" (ob_last_error o))
            (match ob_next_attempt_at o with
             | Some t => if bool_decide (t = "") then None
                         else match GoTime.parseTime t with Ok x => Some x | Err _ => None end
             | None => None
             end))
  end.

Definition ListDLQ (tenant : string) (maxAttempts afterPosition limit : Z) : M World (list DLQRow) :=
  rows ← QO.ListDLQ O tenant (safeMaxAttempts maxAttempts) (i64 afterPosition) limit;
  of_res (mapR toDLQRow rows).

Definition ReplayDLQ (tenant : string) (gp : Z) : M World unit := QO.ReplayDLQ O tenant (i64 gp).
Definition AbandonDLQ (tenant : string) (gp : Z) : M World unit := QO.AbandonDLQ O tenant (i64 gp).
Definition ReplayAllDLQ (tenant : string) (maxAttempts : Z) : M World Z :=
  QO.ReplayAllDLQ O tenant (safeMaxAttempts maxAttempts).
End SqliteOutbox.
End SqliteOutbox.

(** ** The adapter as an es.OutboxStore, with a publisher beside it *)

Record DrainWorld := mkDW { dw_store : World; dw_calls : nat; dw_log : list Envelope.t }.

Definition lift {A} (m : M World A) : M DrainWorld A := fun w =>
  let '(s, r) := m (dw_store w) in (mkDW s (dw_calls w) (dw_log w), r).

(** A publisher decides by the number of the call and the envelope. *)
Definition publish (PO : nat -> Envelope.t -> option err) (e : Envelope.t) : M DrainWorld unit :=
  fun w =>
    match PO (dw_calls w) e with
    | Some er => (mkDW (dw_store w) (S (dw_calls w)) (dw_log w), Err er)
    | None => (mkDW (dw_store w) (S (dw_calls w)) (dw_log w ++ [e]), Ok tt)
    end.

Definition sqlite_runtime (O : Oracle) (cancelled : nat -> bool) : Runtime DrainWorld :=
  mkRuntime _ (lift (time_Now O)) (lift (fun w => (w, Ok (cancelled (w_tick w))))).

(** SQLite has no DrainLocker. *)
Definition sqlite_outbox {SP : SqlitePrims} (O : Oracle) : OutboxStore DrainWorld :=
  mkOutboxStore _
    (fun t n m => lift (SqliteOutbox.PendingOutbox O t n m))
    (fun t m => lift (SqliteOutbox.QuarantinedStreams O t m))
    (fun t gp => lift (SqliteOutbox.MarkOutboxPublished O t gp))
    (fun t gp msg at_ => lift (SqliteOutbox.MarkOutboxFailed O t gp msg at_))
    (fun t at_ => lift (SqliteOutbox.CleanupPublishedOutbox O t at_))
    None.

Definition arow_of (x : OutboxRec * EventRow) : arow :=
  mkArow (ob_tenant_id (fst x)) (ob_global_position (fst x)) (er_stream_id (snd x))
    (er_version (snd x)) (negb (bool_decide (ob_published_at (fst x) = None)))
    (ob_attempts (fst x)).

Definition outbox_view (d : DB) : list arow := arow_of <$> QO.joined d.

(** Event rows as the adapter writes them. *)
Definition row_ok (r : EventRow) : Prop :=
  (exists sid, StreamID.Validate sid = None /\ StreamID.Tenant sid = er_tenant_id r /\
     StreamID.Canonical sid = er_stream_id r) /\ 0 <= er_version r < 2 ^ 63.

Record outbox_ok (d : DB) : Prop := mk_outbox_ok {
  ok_wf : db_wf d;
  ok_rows : Forall row_ok (events d);
  ok_attempts : Forall (fun o => 0 <= ob_attempts o) (outbox d)
}.

(** ** The join *)

Lemma filter_key_unique {A B} (f : A -> bool) (key : A -> B) k (l : list A) x :
  (forall y, f y = true <-> key y = k) -> NoDup (key <$> l) -> x ∈ l -> key x = k ->
  List.filter f l = [x].
Proof.
  intros Hf. induction l as [|y l IH]; csimpl; intros Hnd Hx Hk; [by apply elem_of_nil in Hx|].
  apply NoDup_cons in Hnd as [Hni Hnd]. apply elem_of_cons in Hx as [->|Hx].
  - rewrite (proj2 (Hf y) Hk). f_equal. apply filter_none. apply Forall_forall. intros z Hz.
    destruct (f z) eqn:E; [|done]. apply Hf in E. destruct Hni. rewrite Hk, <- E.
    by apply list_elem_of_fmap_2.
  - destruct (f y) eqn:E; [|by apply IH]. apply Hf in E. destruct Hni. rewrite E, <- Hk.
    by apply list_elem_of_fmap_2.
Qed.

Lemma elem_of_flat_map {A B} (f : A -> list B) l y : y ∈ flat_map f l <-> exists x, x ∈ l /\ y ∈ f x.
Proof.
  rewrite list_elem_of_In, in_flat_map. split; intros (x & H1 & H2); exists x;
    rewrite ?list_elem_of_In in *; done.
Qed.

Lemma joined_elem d o e :
  (o, e) ∈ QO.joined d <-> o ∈ outbox d /\ e ∈ events d /\
    er_tenant_id e = ob_tenant_id o /\ er_event_id e = ob_event_id o.
Proof.
  unfold QO.joined. rewrite elem_of_flat_map. split.
  - intros (o' & Ho & (e' & [= <- <-] & He)%list_elem_of_fmap).
    rewrite list_elem_of_In in He. apply filter_In in He as [He Hs].
    rewrite <- list_elem_of_In in He. apply same_event_key in Hs. unfold event_key in Hs.
    injection Hs as ? ?. done.
  - intros (Ho & He & Ht & Hid). exists o. split; [done|]. apply list_elem_of_fmap_2.
    rewrite list_elem_of_In. apply filter_In. rewrite <- list_elem_of_In. split; [done|].
    apply same_event_key. unfold event_key. congruence.
Qed.

(** Each outbox row joins its one event. *)
Lemma joined_fst d : db_wf d -> fst <$> QO.joined d = outbox d.
Proof.
  intros Hwf. unfold QO.joined. pose proof (wf_outbox d Hwf) as HF.
  induction (outbox d) as [|o l IH]; [done|]. apply Forall_cons in HF as [(r & Hr & Hp) HF].
  simpl. rewrite fmap_app, IH by done.
  destruct Hp as (Ht & Hg & Hid).
  rewrite (filter_key_unique _ event_key (ob_tenant_id o, ob_event_id o) (events d) r); try done.
  - intros y. apply same_event_key.
  - apply (wf_event d Hwf).
  - unfold event_key. congruence.
Qed.

Lemma joined_points d o e : db_wf d -> (o, e) ∈ QO.joined d -> points_to o e.
Proof.
  intros Hwf (Ho & He & Ht & Hid)%joined_elem. pose proof (wf_outbox d Hwf) as HF.
  rewrite Forall_forall in HF. destruct (HF o Ho) as (r & Hr & Ht' & Hg' & Hid').
  assert (r = e) as ->; [|done].
  apply list_elem_of_lookup in Hr as [i Hi], He as [j Hj].
  pose proof (wf_event d Hwf) as Hnd. rewrite NoDup_alt in Hnd.
  assert (i = j) as ->; [|congruence].
  apply (Hnd i j (ob_tenant_id o, ob_event_id o)); rewrite list_lookup_fmap.
  - rewrite Hi. simpl. unfold event_key. congruence.
  - rewrite Hj. simpl. unfold event_key. congruence.
Qed.

Lemma outbox_view_keys d : db_wf d -> a_key <$> outbox_view d = outbox_key <$> outbox d.
Proof.
  intros Hwf. rewrite <- (joined_fst d Hwf). unfold outbox_view. rewrite <- !list_fmap_compose.
  apply list_fmap_ext. by intros i x _.
Qed.

(** An update of outbox rows that keeps their keys updates the view row by row. *)
Lemma joined_update d p f :
  (forall o, ob_tenant_id (f o) = ob_tenant_id o /\ ob_event_id (f o) = ob_event_id o) ->
  QO.joined (set_outbox (sql_update p f) d) =
    (fun x : OutboxRec * EventRow => (if p (fst x) then f (fst x) else fst x, snd x)) <$> QO.joined d.
Proof.
  intros Hf. unfold QO.joined. simpl. induction (outbox d) as [|o l IH]; [done|].
  simpl. rewrite fmap_app, <- IH. f_equal. rewrite <- list_fmap_compose.
  replace (List.filter (Q.same_event (ob_tenant_id (if p o then f o else o))
    (ob_event_id (if p o then f o else o))) (events d))
    with (List.filter (Q.same_event (ob_tenant_id o) (ob_event_id o)) (events d)).
  - apply list_fmap_ext. by intros i x _.
  - destruct (p o); [|done]. by destruct (Hf o) as [-> ->].
Qed.

Lemma set_outbox_wf d p f :
  (forall o, ob_tenant_id (f o) = ob_tenant_id o /\ ob_event_id (f o) = ob_event_id o /\
     ob_global_position (f o) = ob_global_position o) ->
  db_wf d -> db_wf (set_outbox (sql_update p f) d).
Proof.
  intros Hf [Hpos Hseq Hver Hev Hok Hob]. split; simpl; try done.
  - unfold sql_update. rewrite <- list_fmap_compose.
    rewrite (list_fmap_ext _ outbox_key); [done|]. intros i o _. simpl. unfold outbox_key.
    destruct (p o); [|done]. by destruct (Hf o) as (-> & _ & ->).
  - unfold sql_update. apply Forall_fmap. eapply Forall_impl; [exact Hob|].
    intros o (r & Hr & Ht & Hg & Hid). exists r. split; [done|]. simpl. unfold points_to.
    destruct (p o); [|done]. by destruct (Hf o) as (-> & -> & ->).
Qed.

Lemma outbox_ok_update d p f :
  (forall o, ob_tenant_id (f o) = ob_tenant_id o /\ ob_event_id (f o) = ob_event_id o /\
     ob_global_position (f o) = ob_global_position o) ->
  (forall o, 0 <= ob_attempts o -> 0 <= ob_attempts (f o)) ->
  outbox_ok d -> outbox_ok (set_outbox (sql_update p f) d).
Proof.
  intros Hf Ha [Hwf Hr Hat]. split; [by apply set_outbox_wf|done|]. simpl. unfold sql_update.
  apply Forall_fmap. eapply Forall_impl; [exact Hat|]. intros o Ho. simpl.
  destruct (p o); auto.
Qed.

Lemma joined_delete d p :
  forall x, x ∈ QO.joined (set_outbox (List.filter p) d) <-> x ∈ QO.joined d /\ p (fst x) = true.
Proof.
  intros [o e]. rewrite !joined_elem. simpl. rewrite list_elem_of_In, filter_In, <- list_elem_of_In.
  tauto.
Qed.

Lemma filter_sublist_lf {A} (p : A -> bool) l : List.filter p l `sublist_of` l.
Proof.
  induction l as [|x l IH]; simpl; [done|]. destruct (p x); [by apply sublist_skip|by apply sublist_cons].
Qed.

Lemma Forall_lfilter {A} (P : A -> Prop) (p : A -> bool) l : Forall P l -> Forall P (List.filter p l).
Proof. induction 1; simpl; [constructor|]. destruct (p x); [by constructor|done]. Qed.

Lemma outbox_ok_delete d p : outbox_ok d -> outbox_ok (set_outbox (List.filter p) d).
Proof.
  intros [[Hpos Hseq Hver Hev Hok Hob] Hr Hat].
  split; [|done|by apply Forall_lfilter]. split; simpl; try done.
  - eapply sublist_NoDup; [exact Hok|]. apply fmap_sublist, filter_sublist_lf.
  - by apply Forall_lfilter.
Qed.

(** ** The head rows *)

Lemma list_min_spec l m : QO.list_min l = Some m -> m ∈ l /\ forall x, x ∈ l -> m <= x.
Proof.
  revert m; induction l as [|y l IH]; intros m; simpl; [done|].
  destruct (QO.list_min l) as [m'|] eqn:Hm; intros [= <-].
  - destruct (IH m' eq_refl) as [Hin Hle]. split.
    + destruct (Z.min_spec y m') as [[_ ->]|[_ ->]]; [by left|by right].
    + intros x [->|Hx]%elem_of_cons; [lia|]. specialize (Hle x Hx). lia.
  - split; [by left|]. intros x [->|Hx]%elem_of_cons; [lia|].
    destruct l; [by apply elem_of_nil in Hx|done].
Qed.

Lemma selected_head now maxA d x :
  x ∈ QO.joined d -> QO.selected now maxA d x = true ->
  pending maxA (arow_of x) = true /\
  forall y, y ∈ QO.joined d -> er_tenant_id (snd y) = er_tenant_id (snd x) ->
    er_stream_id (snd y) = er_stream_id (snd x) -> pending maxA (arow_of y) = true ->
    er_version (snd x) <= er_version (snd y).
Proof.
  intros Hx Hs. unfold QO.selected in Hs. bool_to_prop.
  split.
  - unfold pending, arow_of; simpl. by rewrite negb_involutive.
  - intros y Hy Ht Hst Hp. apply list_min_spec in H0 as [_ Hmin]. apply Hmin.
    apply list_elem_of_fmap. exists y. split; [done|].
    rewrite list_elem_of_In. apply filter_In. rewrite <- list_elem_of_In. split; [done|].
    unfold pending, arow_of in Hp; simpl in Hp. rewrite negb_involutive in Hp.
    unfold QO.undelivered. rewrite Hp. unfold Q.in_stream. by rewrite !bool_decide_eq_true_2.
Qed.

Lemma pair_of_version d x y :
  db_wf d -> x ∈ QO.joined d -> y ∈ QO.joined d ->
  er_tenant_id (snd x) = er_tenant_id (snd y) -> er_stream_id (snd x) = er_stream_id (snd y) ->
  er_version (snd x) = er_version (snd y) -> x = y.
Proof.
  intros Hwf Hx Hy Ht Hs Hv. destruct x as [o e], y as [o' e']; simpl in *.
  pose proof (joined_points _ _ _ Hwf Hx) as (Hpt & Hpg & Hpi).
  pose proof (joined_points _ _ _ Hwf Hy) as (Hpt' & Hpg' & Hpi').
  apply joined_elem in Hx as (Ho & He & _), Hy as (Ho' & He' & _).
  assert (e = e') as <-.
  { apply list_elem_of_lookup in He as [i Hi], He' as [j Hj].
    pose proof (wf_version d Hwf) as Hnd. rewrite NoDup_alt in Hnd.
    assert (i = j) as ->; [|congruence].
    apply (Hnd i j (version_key e)); rewrite list_lookup_fmap; [by rewrite Hi|].
    rewrite Hj. simpl. unfold version_key. congruence. }
  f_equal. apply list_elem_of_lookup in Ho as [i Hi], Ho' as [j Hj].
  pose proof (wf_outbox_key d Hwf) as Hnd. rewrite NoDup_alt in Hnd.
  assert (i = j) as ->; [|congruence].
  apply (Hnd i j (outbox_key o)); rewrite list_lookup_fmap; [by rewrite Hi|].
  rewrite Hj. simpl. unfold outbox_key. congruence.
Qed.

Lemma joined_NoDup d : db_wf d -> NoDup (QO.joined d).
Proof.
  intros Hwf. apply (NoDup_fmap_1 (outbox_key ∘ fst)).
  rewrite list_fmap_compose, joined_fst by done. apply (wf_outbox_key d Hwf).
Qed.

Section Pending.
Context {SP : SqlitePrims}.

(** A converted row is the view row it came from. *)
Lemma toOutboxRow_row d x r maxA :
  outbox_ok d -> x ∈ QO.joined d -> pending maxA (arow_of x) = true -> maxA <= max_i32 ->
  SqliteOutbox.toOutboxRow x = Ok r -> row_of r (arow_of x).
Proof.
  intros [Hwf Hr Hat] Hx Hp Hm. destruct x as [o e].
  pose proof (joined_points _ _ _ Hwf Hx) as (Hpt & Hpg & Hpi).
  apply joined_elem in Hx as (Ho & He & _). rewrite Forall_forall in Hr. rewrite Forall_forall in Hat.
  destruct (Hr e He) as [_ Hver]. specialize (Hat o Ho).
  assert (Hg : er_global_position e ∈ er_global_position <$> events d) by by apply list_elem_of_fmap_2.
  rewrite (wf_pos d Hwf) in Hg. apply elem_of_seqZ in Hg. pose proof (wf_seq d Hwf).
  unfold max_i64, max_i32 in *. unfold SqliteOutbox.toOutboxRow, SqliteOutbox.rowToEnvelopeOutbox.
  destruct (StreamID.ParseCanonical _ _) as [sid|] eqn:Hsid; [|done].
  apply StreamID.Canonical_Parse in Hsid as (Hc & _ & _).
  destruct (decodeActor _); [|done]. destruct (GoTime.parseTime _); [|done].
  destruct (GoTime.parseTime _); [|done]. intros [= <-]. unfold row_of; simpl.
  unfold pending in Hp; simpl in Hp. bool_to_prop.
  rewrite !u64_small, i32_small by lia. done.
Qed.

Lemma toOutboxRow_key x r :
  SqliteOutbox.toOutboxRow x = Ok r ->
  Outbox.row_key r = OutboxShard.quarantineKey (ob_tenant_id (fst x)) (er_stream_id (snd x)) /\
  exists sid, StreamID.Validate sid = None /\ StreamID.Canonical sid = er_stream_id (snd x).
Proof.
  destruct x as [o e]. unfold SqliteOutbox.toOutboxRow, SqliteOutbox.rowToEnvelopeOutbox.
  destruct (StreamID.ParseCanonical _ _) as [sid|] eqn:Hsid; [|done].
  apply StreamID.Canonical_Parse in Hsid as (Hc & _ & Hv).
  destruct (decodeActor _); [|done]. destruct (GoTime.parseTime _); [|done].
  destruct (GoTime.parseTime _); [|done]. intros [= <-]. unfold Outbox.row_key; simpl.
  split; [by rewrite Hc|]. eauto.
Qed.

(** Two different head rows convert to rows with different stream keys. *)
Lemma heads_distinct d now maxA xs rows :
  db_wf d -> NoDup xs -> (forall x, x ∈ xs -> x ∈ QO.joined d /\ QO.selected now maxA d x = true) ->
  mapR SqliteOutbox.toOutboxRow xs = Ok rows -> NoDup (Outbox.row_key <$> rows).
Proof.
  intros Hwf Hnd Hin HF%mapR_Forall2. revert Hnd Hin. induction HF as [|x r xs rows Hxr HF IH];
    csimpl; intros Hnd Hin; [constructor|].
  apply NoDup_cons in Hnd as [Hni Hnd]. apply NoDup_cons. split.
  2:{ apply IH; [done|]. intros y Hy. apply Hin. by right. }
  intros (r' & Hk & Hr')%list_elem_of_fmap.
  apply list_elem_of_lookup in Hr' as [i Hi].
  destruct (Forall2_lookup_r _ _ _ _ _ HF Hi) as (y & Hy & Hyr).
  apply list_elem_of_lookup_2 in Hy. apply Hni.
  assert (x = y) as ->; [|done].
  destruct (toOutboxRow_key x r Hxr) as (Hkx & sx & Hvx & Hcx).
  destruct (toOutboxRow_key y r' Hyr) as (Hky & sy & Hvy & Hcy).
  rewrite Hkx, Hky, <- Hcx, <- Hcy in Hk. apply quarantineKey_inj in Hk as [Ht Hs]; [|done|done].
  rewrite Hcx, Hcy in Hs.
  destruct (Hin x ltac:(by left)) as [Hjx Hsx]. destruct (Hin y ltac:(by right)) as [Hjy Hsy].
  destruct x as [ox ex], y as [oy ey]; simpl in *.
  pose proof (joined_points _ _ _ Hwf Hjx) as (Hpx & _ & _).
  pose proof (joined_points _ _ _ Hwf Hjy) as (Hpy & _ & _).
  destruct (selected_head _ _ _ _ Hjx Hsx) as [Hpendx Hminx].
  destruct (selected_head _ _ _ _ Hjy Hsy) as [Hpendy Hminy].
  assert (Hte : er_tenant_id ex = er_tenant_id ey) by congruence.
  apply (pair_of_version d); try done; simpl.
  specialize (Hminx _ Hjy (eq_sym Hte) (eq_sym Hs) Hpendy).
  specialize (Hminy _ Hjx Hte Hs Hpendx). simpl in *. lia.
Qed.
End Pending.

(** ** The contract *)
Section Laws.
Context {SP : SqlitePrims} (O : Oracle) (PO : nat -> Envelope.t -> option err)
  (cancelled : nat -> bool).

Definition dw_ok (w : DrainWorld) : Prop := outbox_ok (w_db (dw_store w)).
Definition dw_view (w : DrainWorld) : list arow := outbox_view (w_db (dw_store w)).

(** A lifted operation that leaves the database alone. *)
Lemma lift_silent {A} (m : M World A) :
  (forall s s' r, m s = (s', r) -> w_db s' = w_db s) -> silent dw_ok dw_view dw_log (lift m).
Proof.
  intros Hm w w' r Hok. unfold lift. destruct (m (dw_store w)) as [s x] eqn:Hs.
  intros [= <- <-]. apply Hm in Hs. unfold dw_ok, dw_view in *. simpl. by rewrite Hs.
Qed.

Lemma bind_db {A B} (m : M World A) (k : A -> M World B) s s' r :
  (forall s s' r, m s = (s', r) -> w_db s' = w_db s) ->
  (forall a s s' r, k a s = (s', r) -> w_db s' = w_db s) ->
  (m ≫= k) s = (s', r) -> w_db s' = w_db s.
Proof.
  intros Hm Hk. unfold mbind, M_bind. destruct (m s) as [s1 [a|e]] eqn:H1.
  - intros H2. apply Hk in H2. apply Hm in H1. congruence.
  - intros [= <- <-]. eauto.
Qed.

Lemma PendingOutbox_db t n m s s' r :
  SqliteOutbox.PendingOutbox O t n m s = (s', r) -> w_db s' = w_db s.
Proof.
  unfold SqliteOutbox.PendingOutbox. apply bind_db; [by intros ? ? ? [= <- _]|].
  intros now s1 s2 r2. apply bind_db; [intros ? ? ?; apply select_db|].
  intros rows s3 s4 r4. unfold of_res. by intros [= <- _].
Qed.

Lemma attempts_cap_safe m : attempts_cap m = SqliteOutbox.safeMaxAttempts m.
Proof. done. Qed.

Lemma PendingOutbox_rows t n m s s' rows :
  outbox_ok (w_db s) -> m <= max_i32 ->
  SqliteOutbox.PendingOutbox O t n m s = (s', Ok rows) ->
  Forall (head_row (attempts_cap m) (outbox_view (w_db s))) rows /\ NoDup (Outbox.row_key <$> rows).
Proof.
  intros Hok Hm (s1 & now & Hnow%time_Now_Ok & H)%bind_Ok.
  apply bind_Ok in H as (s2 & xs & [Hdb Hxs]%select_Ok & [-> Hmap]%of_res_Ok).
  injection Hxs as <-. rewrite Hnow in *. set (d := w_db s) in *.
  match type of Hmap with mapR _ ?l = _ => set (xs := l) in * end.
  assert (Hin : forall x, x ∈ xs -> x ∈ QO.joined d /\
    QO.selected (GoTime.formatTime now) (attempts_cap m) d x = true).
  { intros x Hx. unfold xs in Hx. rewrite list_elem_of_In in Hx. apply filter_In in Hx as [Hx _].
    rewrite <- list_elem_of_In in Hx. unfold sql_limit in Hx.
    assert (Hx' : x ∈ List.filter (QO.selected (GoTime.formatTime now) (attempts_cap m) d) (QO.joined d)).
    { destruct (n <? 0); [|apply elem_of_take in Hx as (i & Hi & _); apply list_elem_of_lookup_2 in Hi as Hx];
        by rewrite order_by_perm in Hx. }
    rewrite list_elem_of_In in Hx'. apply filter_In in Hx'. by rewrite list_elem_of_In. }
  split.
  - apply mapR_Forall2 in Hmap. apply Forall_forall. intros r Hr.
    apply list_elem_of_lookup in Hr as [i Hi].
    destruct (Forall2_lookup_r _ _ _ _ _ Hmap Hi) as (x & Hx & Hxr).
    apply list_elem_of_lookup_2, Hin in Hx as [Hj Hs].
    destruct (selected_head _ _ _ _ Hj Hs) as [Hp Hmin].
    exists (arow_of x). split; [by apply list_elem_of_fmap_2|]. split.
    { eapply toOutboxRow_row; try done. unfold attempts_cap. destruct (Z.leb_spec m 0); [|done].
      unfold max_i32; lia. }
    split; [done|]. intros a' (y & -> & Hy)%list_elem_of_fmap. simpl. intros Ht Hst Hp'.
    apply Hmin; try done.
    destruct x as [ox ex], y as [oy ey].
    destruct (joined_points _ _ _ (ok_wf _ Hok) Hj) as (Hpx & _ & _).
    destruct (joined_points _ _ _ (ok_wf _ Hok) Hy) as (Hpy & _ & _). simpl in *. congruence.
  - eapply heads_distinct; [apply (ok_wf _ Hok)| |exact Hin|exact Hmap].
    unfold xs. eapply sublist_NoDup; [|apply filter_sublist_lf].
    assert (Hnd : NoDup (order_by (fun x : OutboxRec * EventRow => ob_global_position (fst x))
      (List.filter (QO.selected (GoTime.formatTime now) (attempts_cap m) d) (QO.joined d)))).
    { rewrite order_by_perm. eapply sublist_NoDup; [|apply filter_sublist_lf].
      apply joined_NoDup, ok_wf, Hok. }
    unfold sql_limit. destruct (n <? 0); [done|].
    eapply sublist_NoDup; [exact Hnd|]. apply sublist_take.
Qed.

Lemma i64_gp gp : 0 <= gp < 2 ^ 64 -> (1 <= i64 gp -> i64 gp = gp).
Proof.
  intros H. unfold wrap_s. change (64 - 1) with 63. intros H1.
  destruct (Z.lt_ge_cases gp (2 ^ 63)); [rewrite Z.mod_small; lia|].
  exfalso. assert ((gp + 2 ^ 63) mod 2 ^ 64 = gp - 2 ^ 63); [|lia].
  symmetry. apply (Z.mod_unique _ _ 1); lia.
Qed.

(** The SQL row test agrees with the key of the mark. *)
Lemma at_row_key d gp t o :
  db_wf d -> o ∈ outbox d -> 0 <= gp < 2 ^ 64 ->
  QO.at_row t (i64 gp) o = bool_decide (outbox_key o = (t, gp)).
Proof.
  intros Hwf Ho Hgp. pose proof (outbox_below _ _ Hwf Ho) as Hb. pose proof (wf_seq d Hwf).
  unfold QO.at_row, outbox_key, max_i64 in *.
  destruct (decide (ob_global_position o = gp)) as [E|E].
  - rewrite i64_small by lia. rewrite E, Z.eqb_refl, andb_true_r.
    apply bool_decide_ext. split; [intros ->; done|]. by intros [= ->].
  - rewrite (bool_decide_eq_false_2 (_ = (t, gp))) by congruence.
    apply andb_false_iff. right. apply Z.eqb_neq. intros Heq. apply E.
    rewrite Heq. apply i64_gp; [done|lia].
Qed.

(** An UPDATE of the row (t, gp), seen through the view. *)
Lemma update_view d t gp f mk :
  db_wf d -> 0 <= gp < 2 ^ 64 ->
  (forall o, ob_tenant_id (f o) = ob_tenant_id o /\ ob_event_id (f o) = ob_event_id o) ->
  (forall x, a_key (arow_of x) = (t, gp) -> arow_of (f (fst x), snd x) = mk (arow_of x)) ->
  (forall a, a_key a <> (t, gp) -> mk a = a) ->
  outbox_view (set_outbox (sql_update (QO.at_row t (i64 gp)) f) d) = mk <$> outbox_view d.
Proof.
  intros Hwf Hgp Hf Hmk Hother. unfold outbox_view. rewrite joined_update by done.
  rewrite <- !list_fmap_compose. apply list_fmap_ext. intros i [o e] Hi. simpl.
  apply list_elem_of_lookup_2 in Hi. apply joined_elem in Hi as (Ho & _).
  rewrite (at_row_key d) by done. case_bool_decide as Hk.
  - by apply (Hmk (o, e)).
  - symmetry. by apply Hother.
Qed.

(** A lifted UPDATE of the outbox row (t, gp). *)
Lemma lift_mark (f : Time -> OutboxRec -> OutboxRec) mk t gp w w' r :
  (forall now o, ob_tenant_id (f now o) = ob_tenant_id o /\ ob_event_id (f now o) = ob_event_id o /\
     ob_global_position (f now o) = ob_global_position o) ->
  (forall now o, 0 <= ob_attempts o -> 0 <= ob_attempts (f now o)) ->
  (forall now x, a_key (arow_of x) = (t, gp) -> arow_of (f now (fst x), snd x) = mk (arow_of x)) ->
  (forall a, a_key a <> (t, gp) -> mk a = a) ->
  dw_ok w -> 0 <= gp < 2 ^ 64 ->
  lift (exec O (fun now => set_outbox (sql_update (QO.at_row t (i64 gp)) (f now)))) w = (w', r) ->
  dw_ok w' /\ dw_log w' = dw_log w /\
  dw_view w' = match r with Ok _ => mk <$> dw_view w | Err _ => dw_view w end.
Proof.
  intros Hf Ha Hmk Hother Hok Hgp. unfold lift. destruct (exec O _ (dw_store w)) as [s x] eqn:Hx.
  intros [= <- <-]. apply exec_inv in Hx. unfold dw_ok, dw_view; simpl.
  destruct x as [[]|e]; [|by rewrite Hx]. destruct Hx as [now ->]. split_and!; [|done|].
  - apply outbox_ok_update; [apply Hf|apply Ha|done].
  - apply update_view; [apply Hok|done| |apply Hmk|done]. intros o.
    by destruct (Hf now o) as (? & ? & ?).
Qed.

(** The adapter keeps the contract, whatever fails and whatever the publisher
    and the clock answer. *)
Lemma sqlite_outbox_laws onDLQ :
  (forall f row, onDLQ = Some f -> silent dw_ok dw_view dw_log (f row)) ->
  OutboxLaws (sqlite_runtime O cancelled) (sqlite_outbox O) (publish PO) onDLQ dw_ok dw_view dw_log.
Proof.
  intros HDLQ. split.
  - intros w Hok. unfold dw_view. rewrite outbox_view_keys by apply Hok.
    apply (wf_outbox_key _ (ok_wf _ Hok)).
  - intros w a Hok ([o e] & -> & Hx)%list_elem_of_fmap. apply joined_elem in Hx as (_ & He & _).
    pose proof (ok_rows _ Hok) as HF. rewrite Forall_forall in HF.
    destruct (HF e He) as [(sid & Hv & _ & Hc) _]. eauto.
  - intros w a a' Hok (x & -> & Hx)%list_elem_of_fmap (y & -> & Hy)%list_elem_of_fmap. simpl.
    intros Ht Hs Hv. f_equal. eapply (pair_of_version (w_db (dw_store w))); try done; [apply Hok|].
    destruct x as [ox ex], y as [oy ey].
    destruct (joined_points _ _ _ (ok_wf _ Hok) Hx) as (Hpx & _ & _).
    destruct (joined_points _ _ _ (ok_wf _ Hok) Hy) as (Hpy & _ & _). simpl in *. congruence.
  - intros w a Hok ([o e] & -> & Hx)%list_elem_of_fmap. apply joined_elem in Hx as (Ho & _).
    pose proof (ok_attempts _ Hok) as HF. rewrite Forall_forall in HF. by apply HF.
  - intros w a Hok ([o e] & -> & Hx)%list_elem_of_fmap. apply joined_elem in Hx as (Ho & _).
    simpl. pose proof (outbox_below _ _ (ok_wf _ Hok) Ho).
    pose proof (wf_seq _ (ok_wf _ Hok)). unfold max_i64 in *. lia.
  - intros t n m. apply lift_silent. apply PendingOutbox_db.
  - intros t n m w w' rows Hok Hm. unfold sqlite_outbox, lift; simpl.
    destruct (SqliteOutbox.PendingOutbox O t n m (dw_store w)) as [s x] eqn:Hs.
    intros [= _ ->]. by eapply PendingOutbox_rows.
  - intros t m. apply lift_silent. intros s s' r. apply bind_db.
    + case_bool_decide; intros ? ? ?; apply select_db.
    + by intros a ? ? ? [= <- _].
  - intros t gp w w' r Hok Hgp. apply lift_mark; try done.
    + intros now x Hk. unfold mark_published. by rewrite decide_True.
    + intros a Hk. unfold mark_published. by rewrite decide_False.
  - intros t gp m at_ w w' r Hok Hgp.
    apply (lift_mark (fun _ => QO.set_failed _ _) (mark_failed t gp)); try done.
    + intros _ o Ho. simpl. lia.
    + intros now x Hk. unfold mark_failed. by rewrite decide_True.
    + intros a Hk. unfold mark_failed. by rewrite decide_False.
  - intros t at_ w w' r Hok. unfold sqlite_outbox, lift; simpl.
    unfold SqliteOutbox.CleanupPublishedOutbox, mbind, M_bind.
    destruct (QO.CleanupPublished O t (GoTime.formatTime at_) (dw_store w)) as [s x] eqn:Hx.
    apply exec_inv in Hx. unfold dw_ok, dw_view.
    destruct x as [[]|e]; intros [= <- <-]; simpl; [|by rewrite Hx]. destruct Hx as [now ->].
    split_and!; [by apply outbox_ok_delete|done| |].
    + intros a (x & -> & [Hx _]%joined_delete)%list_elem_of_fmap. by apply list_elem_of_fmap_2.
    + intros a (x & -> & Hx)%list_elem_of_fmap Hp. apply list_elem_of_fmap_2, joined_delete.
      split; [done|]. simpl in Hp. unfold QO.expired. destruct (ob_published_at (fst x)); [done|].
      by rewrite andb_false_r.
  - done.
  - apply lift_silent. by intros s s' r [= <- _].
  - apply lift_silent. by intros s s' r [= <- _].
  - done.
  - intros e w w' r Hok. unfold publish. by destruct (PO (dw_calls w) e); intros [= <- <-].
Qed.
End Laws.

(** ** Concrete runs *)

(** The store of [demo_w2]: three events of one stream, all pending. *)
Definition demo_dw : DrainWorld := mkDW demo_w2 0 [].

(** The publisher refuses its second call. *)
Definition demo_publisher (n : nat) (_ : Envelope.t) : option err :=
  if Nat.eqb n 1 then Some (ENew "broker down") else None.

Definition demo_sqlite_drain (tenant : string) (batch : Z) : Outbox.Drain DrainWorld :=
  Outbox.mkDrain _ (Some (sqlite_outbox (SP := concrete_sqlite) demo_oracle))
    (Some (publish demo_publisher)) tenant batch 0 "drain" 0 0 3 0 0 false None.

Definition demo_rt : Runtime DrainWorld := sqlite_runtime demo_oracle (fun _ => false).

Lemma demo_append_2 :
  demo_append (demo_params 2 [13] []) demo_w1 =
  (demo_w2, Ok (mkAppendResult 3 3 3 3 (1700000000000000000 + 10))).
Proof. vm_compute. reflexivity. Qed.

Lemma demo_w2_ok : outbox_ok (w_db demo_w2).
Proof.
  assert (Hrows : (fun r => (er_tenant_id r, er_stream_id r, er_version r)) <$> events (w_db demo_w2) =
    [("acme", "order:o-1", 1); ("acme", "order:o-1", 2); ("acme", "order:o-1", 3)])
    by (vm_compute; reflexivity).
  assert (Hatt : ob_attempts <$> outbox (w_db demo_w2) = [0; 0; 0]) by (vm_compute; reflexivity).
  split.
  - pose proof demo_append_2 as H. unfold demo_append in H.
    by apply Append_Ok in H as (_ & _ & ? & _); [|apply demo_w1_wf].
  - apply Forall_forall. intros r Hr.
    apply (list_elem_of_fmap_2 (fun r => (er_tenant_id r, er_stream_id r, er_version r))) in Hr.
    rewrite Hrows in Hr. unfold row_ok.
    assert (Hk : er_tenant_id r = "acme" /\ er_stream_id r = "order:o-1" /\ 1 <= er_version r <= 3).
    { rewrite !elem_of_cons, elem_of_nil in Hr. destruct Hr as [H|[H|[H|[]]]]; injection H as -> -> ->; split_and!; (done || lia). }
    destruct Hk as (-> & -> & Hv). split; [|lia].
    exists demo_sid. split; [vm_compute; reflexivity|]. split; vm_compute; reflexivity.
  - apply Forall_forall. intros o Ho. apply (list_elem_of_fmap_2 ob_attempts) in Ho.
    rewrite Hatt in Ho. rewrite !elem_of_cons, elem_of_nil in Ho. lia.
Qed.

Lemma demo_laws :
  OutboxLaws demo_rt (sqlite_outbox (SP := concrete_sqlite) demo_oracle) (publish demo_publisher)
    None dw_ok dw_view dw_log.
Proof. by apply sqlite_outbox_laws. Qed.

(** The second publish fails, so that run delivers version 1, halts the stream
    and ends; version 2 and 3 stay pending. *)
Definition demo_run : option (DrainWorld * (Z * Z * option err)) :=
  Outbox.Run demo_rt (demo_sqlite_drain "" 0) 4 demo_dw.

Lemma drain_order_witness : exists w' new, demo_run = Some (w', (1, 0, None)) /\
  dw_log w' = [] ++ new /\ in_order new /\ 1 = Z.of_nat (length new) /\
  settled 3 new (dw_view w') /\ published_delivered (dw_view demo_dw) new (dw_view w').
Proof.
  assert (Hr : option_map snd demo_run = Some (1, 0, None)) by (vm_compute; reflexivity).
  destruct demo_run as [[w' [[n c] e]]|] eqn:Hrun; [|discriminate].
  destruct (drain_order demo_rt (demo_sqlite_drain "" 0) _ _ dw_ok dw_view dw_log demo_laws 4 demo_dw
    w' n c e eq_refl eq_refl ltac:(vm_compute; discriminate) eq_refl demo_w2_ok
    ltac:(vm_compute; lia) Hrun) as (new & Hd & Ho & Hpost).
  injection Hr as -> -> ->. destruct (Hpost eq_refl) as (Hn & Hs & Hp).
  exists w', new. split_and!; done.
Defined.

Lemma drain_terminates_witness : is_Some demo_run.
Proof.
  apply (drain_terminates demo_rt (demo_sqlite_drain "" 0) _ _ dw_ok dw_view dw_log demo_laws
    demo_dw eq_refl eq_refl).
  - vm_compute. discriminate.
  - apply demo_w2_ok.
  - vm_compute. lia.
Defined.

(** Tenants acme (a stream of two events) and beta (one event). *)
Definition demo_two_tenants : DrainWorld :=
  mkDW (fst (demo_append
    (mkAppendParams (StreamID.mk "beta" "order" "o-9") 0 [demo_event 21] [] None "" 0 false) demo_w1))
    0 [].

(** A drain that is one row wide and dead-letters after one attempt; its
    publisher refuses its first call only. *)
Definition demo_narrow_drain (tenant : string) (fails : nat -> bool) : Outbox.Drain DrainWorld :=
  Outbox.mkDrain _ (Some (sqlite_outbox (SP := concrete_sqlite) demo_oracle))
    (Some (publish (fun n _ => if fails n then Some (ENew "broker down") else None)))
    tenant 1 0 "" 0 0 1 0 0 false None.

Definition undelivered_of (tenant : string) (w : DrainWorld) : list Z :=
  a_version <$> List.filter (fun a => bool_decide (a_tenant a = tenant) && negb (a_published a))
    (dw_view w).

(** Rows the drain skips use up the page.  The page of PendingOutbox is
    limited before the rows of other tenants are dropped, and rows of a
    quarantined stream are skipped after it.  A drain for tenant beta with a
    one-row page publishes nothing, without an error, because the row at the
    head of the outbox is acme's; and a drain over all tenants that has
    dead-lettered acme's first event never reaches beta's either, this run and
    the next. *)
Theorem drain_page_starvation :
  let beta := demo_narrow_drain "beta" (fun _ => false) in
  let all := demo_narrow_drain "" (fun n => Nat.eqb n 0) in
  (exists w1, Outbox.Run demo_rt beta 9 demo_two_tenants = Some (w1, (0, 0, None)) /\
     undelivered_of "beta" w1 = [1]) /\
  (exists w1, Outbox.Run demo_rt all 9 demo_two_tenants = Some (w1, (0, 0, None)) /\
     undelivered_of "beta" w1 = [1] /\
     exists w2, Outbox.Run demo_rt all 9 w1 = Some (w2, (0, 0, None)) /\
       undelivered_of "beta" w2 = [1]).
Proof.
  split.
  - eexists. split; vm_compute; reflexivity.
  - eexists. split; [vm_compute; reflexivity|]. split; [vm_compute; reflexivity|].
    eexists. split; vm_compute; reflexivity.
Qed.
