(* ===== verification/SqliteReach.v ===== *)
(** * The reachable databases of the SQLite adapter

    Every call of an adapter method, in any order, with any arguments and with
    any statement failing, keeps the tables well formed and the log append-only:
    the rows of events stay, in place and unchanged, but for hashes that
    BackfillEventHash fills in. *)
From S2P Require Import Prelude Errors Streams Events Store Aggregate AggregateFacts Rebuild Projection StateStream Shred Retention PathMatch CmdWorkflow CmdRuntimes CmdDispatch Chain GoTime Sql SqliteDB SqliteStore SqliteFacts SqliteStream SqliteAppend Invoice SqliteAggregate SqliteLog SqliteCmd SqliteShred SqliteProjection SqliteStateStream OutboxDrain SqliteOutbox.

Section Reach.
Context {CP : ChainPrims} {SP : SqlitePrims} {JS : JsonStrings} (O : Oracle).

(** ** The methods *)
Inductive adapter : forall A, M World A -> Prop :=
  | ad_Append p : adapter _ (Sqlite.Append O p)
  | ad_BackfillEventHash t id h ph : adapter _ (Sqlite.BackfillEventHash O t id h ph)
  | ad_UpsertCachedState row : adapter _ (Sqlite.UpsertCachedState O row)
  | ad_WipeStateCacheForType t u : adapter _ (Sqlite.WipeStateCacheForType O t u)
  | ad_ReadStream s v : adapter _ (Sqlite.ReadStream O s v)
  | ad_ReadAll f n : adapter _ (Sqlite.ReadAll O f n)
  | ad_ReadAllForTenant t f n : adapter _ (Sqlite.ReadAllForTenant O t f n)
  | ad_CurrentStreamVersion s : adapter _ (Sqlite.CurrentStreamVersion O s)
  | ad_GetEventByID t id : adapter _ (Sqlite.GetEventByID O t id)
  | ad_GetState t s : adapter _ (Sqlite.GetState O t s)
  | ad_ListStates t u a n : adapter _ (Sqlite.ListStates O t u a n)
  | ad_PendingOutbox t n m : adapter _ (SqliteOutbox.PendingOutbox O t n m)
  | ad_QuarantinedStreams t m : adapter _ (SqliteOutbox.QuarantinedStreams O t m)
  | ad_MarkOutboxPublished t g : adapter _ (SqliteOutbox.MarkOutboxPublished O t g)
  | ad_MarkOutboxFailed t g e n : adapter _ (SqliteOutbox.MarkOutboxFailed O t g e n)
  | ad_CleanupPublishedOutbox t c : adapter _ (SqliteOutbox.CleanupPublishedOutbox O t c)
  | ad_CountPending t : adapter _ (SqliteOutbox.CountPending O t)
  | ad_CountFailing t m : adapter _ (SqliteOutbox.CountFailing O t m)
  | ad_CountDLQ t m : adapter _ (SqliteOutbox.CountDLQ O t m)
  | ad_ListDLQ t m a n : adapter _ (SqliteOutbox.ListDLQ O t m a n)
  | ad_ReplayDLQ t g : adapter _ (SqliteOutbox.ReplayDLQ O t g)
  | ad_AbandonDLQ t g : adapter _ (SqliteOutbox.AbandonDLQ O t g)
  | ad_ReplayAllDLQ t m : adapter _ (SqliteOutbox.ReplayAllDLQ O t m)
  | ad_Load n t : adapter _ (SqliteProj.Load O n t)
  | ad_Save n t p : adapter _ (SqliteProj.Save O n t p)
  | ad_InsertProjectionDLQ n t g id u e : adapter _ (SqliteProj.InsertProjectionDLQ O n t g id u e)
  | ad_ListProjectionDLQ n t a l : adapter _ (SqliteProj.ListProjectionDLQ O n t a l)
  | ad_CountProjectionDLQ n t : adapter _ (SqliteProj.CountProjectionDLQ O n t)
  | ad_AbandonProjectionDLQ n t g : adapter _ (SqliteProj.AbandonProjectionDLQ O n t g)
  | ad_AbandonAllProjectionDLQ n t : adapter _ (SqliteProj.AbandonAllProjectionDLQ O n t)
  | ad_Status n t : adapter _ (SqliteProj.Status O n t)
  | ad_Reset n t : adapter _ (SqliteProj.Reset O n t)
  | ad_ResetTo n t p : adapter _ (SqliteProj.ResetTo O n t p)
  | ad_List : adapter _ (SqliteProj.List O)
  | ad_HasProcessedEvent n t id : adapter _ (SqliteProj.HasProcessedEvent O n t id)
  | ad_MarkProcessedEvent n t id : adapter _ (SqliteProj.MarkProcessedEvent O n t id)
  | ad_CleanupProcessedEvents n c : adapter _ (SqliteProj.CleanupProcessedEvents O n c)
  | ad_GetSubjectKey t s : adapter _ (SqliteKeys.GetSubjectKey O t s)
  | ad_UpsertSubjectKey t s d v : adapter _ (SqliteKeys.UpsertSubjectKey O t s d v)
  | ad_ForgetSubject t s : adapter _ (SqliteKeys.ForgetSubject O t s)
  | ad_ListStaleSubjectKeys t v n : adapter _ (SqliteKeys.ListStaleSubjectKeys O t v n)
  | ad_ListSubjectsCreatedBefore t c n : adapter _ (SqliteKeys.ListSubjectsCreatedBefore O t c n)
  | ad_ListStreamsBehind n t l : adapter _ (SqliteSS.ListStreamsBehind O n t l)
  | ad_AdvanceStateStreamPosition n t s v : adapter _ (SqliteSS.AdvanceStateStreamPosition O n t s v)
  | ad_StateStreamStatus n t : adapter _ (SqliteSS.StateStreamStatus O n t)
  | ad_ResetStateStreamSubscriber n t : adapter _ (SqliteSS.ResetStateStreamSubscriber O n t)
  | ad_ResetStateStreamSubscriberForStream n t s : adapter _ (SqliteSS.ResetStateStreamSubscriberForStream O n t s)
  | ad_ListStateStreamSubscribers : adapter _ (SqliteSS.ListStateStreamSubscribers O)
  | ad_InsertSubscriberDLQ row : adapter _ (SqliteSubDLQ.InsertSubscriberDLQ O row)
  | ad_ListSubscriberDLQ s t n : adapter _ (SqliteSubDLQ.ListSubscriberDLQ O s t n)
  | ad_ClearSubscriberDLQ s t : adapter _ (SqliteSubDLQ.ClearSubscriberDLQ O s t)
  | ad_DeleteSubscriberDLQRow s t id : adapter _ (SqliteSubDLQ.DeleteSubscriberDLQRow O s t id).

(** One call, whatever it answers. *)
Definition call (w w' : World) : Prop := exists A (m : M World A) x, adapter A m /\ m w = (w', x).

(** ** What a call keeps *)

(** A row is kept; a missing hash may be filled in. *)
Definition row_kept (r r' : EventRow) : Prop :=
  r' = r \/ er_hash r = None /\ exists h ph, r' = Q.set_hash h ph r.

Definition log_grows (d d' : DB) : Prop :=
  exists kept new, events d' = kept ++ new /\ Forall2 row_kept (events d) kept.

Definition keeps (d d' : DB) : Prop := db_wf d -> db_wf d' /\ log_grows d d'.

Lemma row_kept_trans r1 r2 r3 : row_kept r1 r2 -> row_kept r2 r3 -> row_kept r1 r3.
Proof.
  intros [->|(H1 & h & ph & ->)] [->|(H2 & h' & ph' & ->)]; [by left|right; eauto..].
Qed.

Lemma log_grows_refl d : log_grows d d.
Proof. exists (events d), []. rewrite app_nil_r. split; [done|]. apply Forall_Forall2_diag, Forall_true. intros. by left. Qed.

Lemma log_grows_trans d1 d2 d3 : log_grows d1 d2 -> log_grows d2 d3 -> log_grows d1 d3.
Proof.
  intros (k1 & n1 & H1 & F1) (k2 & n2 & H2 & F2). rewrite H1 in F2.
  apply Forall2_app_inv_l in F2 as (k2a & k2b & F2a & F2b & ->). exists k2a, (k2b ++ n2). rewrite <- app_assoc in H2.
  split; [done|]. eapply Forall2_trans; [exact row_kept_trans|done|done].
Qed.

Lemma keeps_refl d : keeps d d.
Proof. intros H. split; [done|apply log_grows_refl]. Qed.

Lemma keeps_trans d1 d2 d3 : keeps d1 d2 -> keeps d2 d3 -> keeps d1 d3.
Proof. intros H1 H2 Hwf. destruct (H1 Hwf) as [Hwf2 L1]. destruct (H2 Hwf2) as [Hwf3 L2]. split; [done|by eapply log_grows_trans]. Qed.

(** Statements that touch neither the log nor the outbox. *)
Lemma keeps_other d d' :
  events d' = events d -> events_seq d' = events_seq d -> outbox d' = outbox d -> keeps d d'.
Proof.
  intros He Hs Ho Hwf. split; [|exists (events d), []; rewrite He, app_nil_r; split; [done|]].
  - destruct Hwf. split; rewrite ?He, ?Hs, ?Ho; done.
  - apply Forall_Forall2_diag, Forall_true. intros. by left.
Qed.

Lemma keeps_outbox_update d p f :
  (forall o, ob_tenant_id (f o) = ob_tenant_id o /\ ob_event_id (f o) = ob_event_id o /\
     ob_global_position (f o) = ob_global_position o) ->
  keeps d (set_outbox (sql_update p f) d).
Proof. intros Hf Hwf. split; [by apply set_outbox_wf|]. apply (log_grows_refl d). Qed.

Lemma keeps_outbox_delete d p : keeps d (set_outbox (List.filter p) d).
Proof.
  intros Hwf. split; [|apply (log_grows_refl d)]. destruct Hwf as [H1 H2 H3 H4 H5 H6]. split; try done; simpl.
  - eapply sublist_NoDup; [exact H5|]. apply fmap_sublist, filter_sublist_lf.
  - by apply Forall_lfilter.
Qed.

Lemma keeps_backfill t id h ph d :
  keeps d (set_events (sql_update (Q.unhashed_event t id) (Q.set_hash h ph)) d).
Proof.
  intros Hwf. set (f := fun r => if Q.unhashed_event t id r then Q.set_hash h ph r else r).
  assert (Hk : forall r, version_key (f r) = version_key r /\ event_key (f r) = event_key r /\
    er_global_position (f r) = er_global_position r) by (intros r; unfold f; by destruct (Q.unhashed_event t id r)).
  assert (Hmap : forall B (g : EventRow -> B) (l : list EventRow), (forall r, g (f r) = g r) -> g <$> (f <$> l) = g <$> l).
  { intros B g l Hg. rewrite <- list_fmap_compose. apply list_fmap_ext. intros i r _. apply Hg. }
  destruct Hwf as [H1 H2 H3 H4 H5 H6]. change (sql_update (Q.unhashed_event t id) (Q.set_hash h ph)) with (fmap f : list EventRow -> list EventRow).
  split; [split; try done; simpl|].
  - rewrite Hmap; [done|]. intros r. apply Hk.
  - rewrite Hmap; [done|]. intros r. apply Hk.
  - rewrite Hmap; [done|]. intros r. apply Hk.
  - eapply Forall_impl; [exact H6|]. intros o (r & Hr & Hp). exists (f r). split; [by apply list_elem_of_fmap_2|].
    unfold points_to in *. unfold f. by destruct (Q.unhashed_event t id r).
  - exists (f <$> events d), []. simpl. rewrite app_nil_r. split; [done|]. apply Forall2_fmap_r, Forall_Forall2_diag, Forall_true.
    intros r. unfold compose, f, row_kept. destruct (Q.unhashed_event t id r) eqn:Hu; [|by left]. right.
    unfold Q.unhashed_event in Hu. apply andb_true_iff in Hu as [_ Hu]. apply bool_decide_eq_true in Hu. eauto.
Qed.

Lemma keeps_append p w w' x : Sqlite.Append O p w = (w', x) -> keeps (w_db w) (w_db w').
Proof.
  intros H Hwf. destruct x as [res|e].
  - apply Append_Ok in H as (_ & _ & Hwf' & prev & rows & orows & _ & He & _); [|done]. split; [done|].
    exists (events (w_db w)), rows. split; [done|]. apply Forall_Forall2_diag, Forall_true. intros. by left.
  - rewrite (Append_Err _ _ _ _ _ H). by apply keeps_refl.
Qed.

(** ** Programs of statements *)
Definition m_keeps {A} (m : M World A) : Prop := forall w w' x, m w = (w', x) -> keeps (w_db w) (w_db w').

Lemma mk_ret {A} (a : A) : m_keeps (mret a).
Proof. intros w w' x [= <- _]. apply keeps_refl. Qed.
Lemma mk_fail {A} e : m_keeps (fail e : M World A).
Proof. intros w w' x [= <- _]. apply keeps_refl. Qed.
Lemma mk_res {A} (r : res A) : m_keeps (of_res r).
Proof. intros w w' x [= <- _]. apply keeps_refl. Qed.
Lemma mk_now : m_keeps (time_Now O).
Proof. intros w w' x [= <- _]. apply keeps_refl. Qed.
Lemma mk_guard o : m_keeps (guard_err o).
Proof. destruct o; [apply mk_fail|apply mk_ret]. Qed.

Lemma mk_try {A} (m : M World A) : m_keeps m -> m_keeps (try m).
Proof. intros Hm w w' x. unfold try. destruct (m w) as [w1 y] eqn:H1. intros [= <- _]. by eapply Hm. Qed.

Lemma mk_wrap {A} msg (m : M World A) : m_keeps m -> m_keeps (wrap_err msg m).
Proof. intros Hm w w' x. unfold wrap_err. destruct (m w) as [w1 [a|e]] eqn:H1; intros [= <- _]; by eapply Hm. Qed.

Lemma mk_bind {A B} (m : M World A) (k : A -> M World B) : m_keeps m -> (forall a, m_keeps (k a)) -> m_keeps (m ≫= k).
Proof.
  intros Hm Hk w w' x. unfold mbind, M_bind. destruct (m w) as [w1 [a|e]] eqn:H1.
  - intros H2. eapply keeps_trans; [by eapply Hm|by eapply Hk].
  - intros [= <- _]. by eapply Hm.
Qed.

Lemma mk_stmt {A} (f : Time -> DB -> DB * res A) : (forall now d, keeps d (f now d).1) -> m_keeps (stmt O f).
Proof.
  intros Hf w w' x [_ [(msg & _ & _ & ->)|[_ H]]]%stmt_inv; [apply keeps_refl|].
  specialize (Hf (o_now O (w_tick w)) (w_db w)). by rewrite H in Hf.
Qed.

Lemma mk_exec (f : Time -> DB -> DB) : (forall now d, keeps d (f now d)) -> m_keeps (exec O f).
Proof. intros Hf. apply mk_stmt. intros now d. apply Hf. Qed.

Lemma mk_select {A} (f : DB -> res A) : m_keeps (select O f).
Proof. apply mk_stmt. intros now d. apply keeps_refl. Qed.
End Reach.

Create HintDb keeps.
#[export] Hint Resolve mk_ret mk_fail mk_res mk_now mk_guard mk_select : keeps.
#[export] Hint Resolve keeps_outbox_delete keeps_backfill keeps_append : keeps.

(** Walk through a method: every bind, branch and statement. *)
Ltac keep_step :=
  first
    [ progress eauto 1 with keeps
    | apply mk_bind; [|intros ?]
    | apply mk_wrap | apply mk_try
    | apply mk_exec; intros ? ? | apply mk_stmt; intros ? ?
    | apply keeps_outbox_update; done
    | apply keeps_other; done
    | case_match ].
Ltac keep := repeat keep_step.

#[export] Hint Unfold Sqlite.BackfillEventHash Q.BackfillEventHash Sqlite.UpsertCachedState Q.UpsertStateCache
  Q.upsert_state_cache Sqlite.WipeStateCacheForType Q.DeleteStateCacheForTypeAllTenants Q.DeleteStateCacheForType
  Sqlite.ReadStream Sqlite.ReadAll Sqlite.ReadAllForTenant Sqlite.CurrentStreamVersion Sqlite.GetEventByID
  Sqlite.GetState Sqlite.ListStates Q.ReadStreamFromVersion Q.ReadAllFromPosition Q.ReadAllFromPositionTenant
  Q.CurrentStreamVersion Q.GetEventByID Q.GetState Q.ListStates : keeps.
#[export] Hint Unfold SqliteOutbox.PendingOutbox SqliteOutbox.QuarantinedStreams SqliteOutbox.MarkOutboxPublished
  SqliteOutbox.MarkOutboxFailed SqliteOutbox.CleanupPublishedOutbox SqliteOutbox.CountPending SqliteOutbox.CountFailing
  SqliteOutbox.CountDLQ SqliteOutbox.ListDLQ SqliteOutbox.ReplayDLQ SqliteOutbox.AbandonDLQ SqliteOutbox.ReplayAllDLQ
  QO.PendingOutboxWithEnvelope QO.QuarantinedStreams QO.QuarantinedStreamsAllTenants QO.MarkOutboxPublished
  QO.MarkOutboxFailed QO.CleanupPublished QO.CountPending QO.CountFailing QO.CountDLQ QO.ListDLQ QO.ReplayDLQ
  QO.AbandonDLQ QO.ReplayAllDLQ : keeps.
#[export] Hint Unfold SqliteProj.Load SqliteProj.Save SqliteProj.InsertProjectionDLQ SqliteProj.ListProjectionDLQ
  SqliteProj.CountProjectionDLQ SqliteProj.AbandonProjectionDLQ SqliteProj.AbandonAllProjectionDLQ SqliteProj.Status
  SqliteProj.Reset SqliteProj.ResetTo SqliteProj.List SqliteProj.HasProcessedEvent SqliteProj.MarkProcessedEvent
  SqliteProj.CleanupProcessedEvents QP.LoadProjectionCheckpoint QP.GetProjectionStatus QP.SaveProjectionCheckpoint
  QP.ResetProjectionCheckpoint QP.SetProjectionCheckpoint QP.ListProjectionCheckpoints QP.InsertProjectionDLQ
  QP.ListProjectionDLQ QP.CountProjectionDLQ QP.DeleteProjectionDLQ QP.AbandonAllProjectionDLQ QP.HasProcessedEvent
  QP.MarkProcessedEvent QP.CleanupProcessedEvents : keeps.
#[export] Hint Unfold SqliteKeys.GetSubjectKey SqliteKeys.UpsertSubjectKey SqliteKeys.ForgetSubject
  SqliteKeys.ListStaleSubjectKeys SqliteKeys.ListSubjectsCreatedBefore QK.GetSubjectKey QK.UpsertSubjectKey
  QK.ForgetSubject QK.ListStaleSubjectKeys QK.ListSubjectsCreatedBefore : keeps.
#[export] Hint Unfold SqliteSS.ListStreamsBehind SqliteSS.AdvanceStateStreamPosition SqliteSS.StateStreamStatus
  SqliteSS.ResetStateStreamSubscriber SqliteSS.ResetStateStreamSubscriberForStream SqliteSS.ListStateStreamSubscribers
  QS.ListStreamsBehind QS.UpsertStateStreamPosition QS.CountStateStreamLag QS.ResetStateStreamSubscriber
  QS.ResetStateStreamSubscriberForStream QS.ListStateStreamSubscribers : keeps.
#[export] Hint Unfold SqliteSubDLQ.InsertSubscriberDLQ SqliteSubDLQ.ListSubscriberDLQ SqliteSubDLQ.ClearSubscriberDLQ
  SqliteSubDLQ.DeleteSubscriberDLQRow QC.InsertSubscriberDLQ QC.ListSubscriberDLQ QC.ClearSubscriberDLQ
  QC.DeleteSubscriberDLQRow : keeps.

Lemma adapter_keeps {CP : ChainPrims} {SP : SqlitePrims} {JS : JsonStrings} O A (m : M World A) :
  adapter O A m -> m_keeps m.
Proof. destruct 1; [intros w w' x; apply keeps_append|..]; autounfold with keeps; keep. Qed.

(** C5: every method keeps the tables.  From a well-formed database (the empty
    one is), after any calls of any adapter methods, whatever their arguments
    and whichever statements fail: global positions are 1 to the number of
    events, without a gap; (tenant, stream, version) and (tenant, event id) are
    unique; every outbox row points to an event and no event has two; and the
    log only grew: the rows that were there are there, in place and unchanged,
    but for a hash that was missing. *)
Theorem tables_well_formed (CP : ChainPrims) (SP : SqlitePrims) (JS : JsonStrings) (O : Oracle) w w' :
  db_wf (w_db w) -> rtc (call O) w w' ->
  db_wf (w_db w') /\ log_grows (w_db w) (w_db w').
Proof.
  intros Hwf Hcalls. revert Hwf. change (keeps (w_db w) (w_db w')).
  induction Hcalls as [w|w w1 w2 (A & m & x & Had & H) _ IH]; [apply keeps_refl|].
  eapply keeps_trans; [|exact IH]. exact (adapter_keeps O A m Had _ _ _ H).
Qed.

#[local] Existing Instances concrete_prims concrete_sqlite concrete_json.
Definition reach_1 : World := fst (Sqlite.Append demo_oracle (demo_params 0 [21; 22] []) (mkWorld empty_db 0)).
Definition reach_2 : World := fst (SqliteOutbox.MarkOutboxPublished demo_oracle "acme" 1 reach_1).
Definition reach_3 : World := fst (SqliteOutbox.CleanupPublishedOutbox demo_oracle "acme" 1800000000000000000 reach_2).

Lemma tables_well_formed_witness :
  length (events (w_db reach_3)) = 2%nat /\ length (outbox (w_db reach_3)) = 1%nat /\
  db_wf (w_db reach_3) /\ log_grows empty_db (w_db reach_3).
Proof.
  split; [vm_compute; reflexivity|]. split; [vm_compute; reflexivity|].
  apply (tables_well_formed concrete_prims concrete_sqlite concrete_json demo_oracle (mkWorld empty_db 0)).
  - exact empty_db_wf.
  - apply rtc_l with reach_1; [|apply rtc_l with reach_2; [|apply rtc_once]]; (eexists _, _, _; split; [|apply surjective_pairing]).
    + apply ad_Append.
    + apply ad_MarkOutboxPublished.
    + apply ad_CleanupPublishedOutbox.
Defined.
